(* ===== verification/_CoqProject ===== *)
-Q . S2P
Prelude.v
Model.v
Json.v
Text.v
Net.v
Config.v
State.v
StateFacts.v
Identity.v
Examples.v
Attention.v
AttentionFacts.v
AgentMarks.v
Aliases.v
AgentCards.v
AgentCardsFacts.v
Screen.v
ScreenFacts.v
Operation.v
Protocol.v
Broker.v
BrokerInv.v
BrokerScreens.v
BrokerRender.v
BrokerFacts.v
BrokerLeases.v
BrokerRequests.v
BrokerFederation.v
WorkspaceMove.v
WorkspaceMoveFacts.v
Transport.v
TransportFacts.v
Notifications.v
Pairing.v
PairingFacts.v
Client.v
Bridge.v
BridgeFacts.v
BridgeRelay.v
Clipboard.v
Staging.v
StagingFacts.v
Retention.v
RetentionFacts.v
FileSave.v
FileSaveFacts.v
ConfigEdit.v
ConfigEditFacts.v
Daemon.v
DaemonFacts.v
DaemonServing.v
DaemonRuns.v
DaemonLeases.v
PluginFleet.v
Plugins.v
PluginsFacts.v
RemoteFiles.v
RemoteFilesFacts.v
Push.v
PushFacts.v
Web.v
WebFacts.v
WebDevices.v
WebExamples.v
SshConfig.v
TuiInput.v
HerdrSupport.v
Doctor.v
TuiLayout.v
TuiActions.v
TuiSelection.v
TuiTargets.v
TuiPaste.v
TuiApp.v
TuiAppFacts.v
TuiEvents.v
TuiEventsFacts.v
TuiKeys.v
TuiKeysFacts.v
TuiExamples.v
