(* ===== verification/Prelude.v ===== *)
(** * Super-Herdr, verified

    Super-Herdr is a daemon that keeps a connection to every Herdr server a person
    has configured (a federation of targets, each with sessions of workspaces, tabs and
    panes), and serves terminal and browser clients: it publishes the state of the
    federation, an inbox of agents, rendered or raw terminals under a control lease,
    notifications, and file transfers. A relay (the bridge) lets paired devices reach
    a daemon from outside. This library models the program's own logic as functions
    and proves what makes it correct. It follows the sources under [src/src] and
    [src/crates/bridge/src]; every file below names the one it models, and definitions
    keep the names of the functions they translate.

    ** How the parts fit

    Supervisors ([State]) turn what Herdr reports into a federation state. The daemon's
    loop ([Daemon]) takes inputs one at a time: a federation update, a message of a
    client, a terminal frame, the end of a task. It calls the broker ([Broker]), which
    keeps connections, subscriptions, leases and screens and answers with effects; the
    loop carries the effects out, which may make the broker yield more, until none is
    left. Attention ([Attention]), marks ([AgentMarks]), local names ([Aliases]) and the
    inbox ([AgentCards]) are derived state the loop keeps beside it; pairing
    ([Pairing]), the account of transfers ([Retention]) and device notifications
    ([Notifications]) are the other parts it drives. Transfers run in tasks of their
    own ([Staging], [FileSave]) and report back as inputs.

    ** Files

    - Foundations. [Prelude]: integers, strings, orders, results, lists and maps.
      [Model] ([model.rs]): qualified identifiers. [Json]: the interface to
      [serde_json], with a concrete instance. [Text]: methods of [str]. [Net]: parsing
      of addresses, [bindable] of [daemon/web.rs], [pairing_url] of [pairing.rs].
    - [Config] ([config.rs]): the records and [Config::validate]; [Identity]: rendered
      identifiers of a validated configuration are unambiguous. [ConfigEdit],
      [ConfigEditFacts]: what [config.rs] makes of the file when it edits it.
    - [State] ([state.rs]): normalization, runtime state, one supervisor as a step
      function over the outcomes of its awaits; [StateFacts]; [Examples] has concrete
      federations.
    - [Attention], [AgentMarks], [Aliases], [AgentCards]: the files of the same names in
      lower case; [AttentionFacts], [AgentCardsFacts].
    - [Transport], [TransportFacts] ([transport.rs], [terminal.rs]): command lines,
      snapshots, discovery, requests and events over the socket, the tunnel. Its
      [api_session] implements the interface [ApiSession] that [WorkspaceMove] and
      [Plugins] are proved against. [HerdrSupport] ([herdr_support.rs]): features of a
      protocol. [Doctor] ([doctor.rs], [probe.rs]): the probe and the report.
      [SshConfig] ([ssh_config.rs]): the hosts a person already has.
    - [Screen] ([screen.rs]; the emulator [vt100] is the class [Vt100]), [ScreenFacts].
    - [Operation] ([operation.rs], parts of [plugin.rs]), [Protocol] ([protocol.rs]).
    - [Broker] ([daemon/broker.rs]): every method that reads or changes state.
      [BrokerInv]: the books agree. [BrokerScreens], [BrokerRender], [BrokerFacts]:
      what viewers hold. [BrokerLeases]: who may act, what is announced, which process
      is behind a route. [BrokerRequests]: answers. [BrokerFederation]: what clients
      rebuild.
    - [Daemon] ([daemon/server.rs]: [Daemon::handle], [Daemon::apply] and what they
      call). [DaemonFacts]: the loop comes to rest. [DaemonServing], [DaemonRuns]:
      processes and announced leases against the broker, over whole runs, with the
      concrete daemon the witnesses run. [DaemonLeases]: for whom the daemon acts.
    - [Client] ([client.rs]): greeting and reading, a streamed upload, and the window
      between senders and the writing task as a step relation.
    - [Notifications] ([notifications.rs]), [WorkspaceMove] ([workspace_move.rs]),
      [Pairing] ([pairing.rs] and its part of [daemon/server.rs]); [WorkspaceMoveFacts],
      [PairingFacts].
    - [PluginFleet], [Plugins], [PluginsFacts] ([plugin_fleet.rs], [plugin.rs]);
      [RemoteFiles], [RemoteFilesFacts] ([remote_files.rs]).
    - [Push], [PushFacts] ([push.rs]); [Web], [WebFacts] ([daemon/web.rs]); [WebDevices]:
      the device policy behind it; [WebExamples].
    - [Clipboard], [Staging], [Retention], [FileSave]: transfers, from
      [clipboard.rs], [daemon/server.rs], [file_save.rs] and [tui.rs]; [StagingFacts],
      [RetentionFacts], [FileSaveFacts].
    - [Bridge], [BridgeFacts], [BridgeRelay] ([crates/bridge/src/lib.rs]): the relay.
    - The terminal interface ([tui.rs]): [TuiInput] decodes what the terminal sends;
      [TuiLayout]: where panes lie; [TuiActions] ([resource_action.rs] too): what can be
      asked of a resource, the palette and the menus; [TuiSelection]: selected text across
      scrolling; [TuiTargets]: the target manager; [TuiPaste]: quoting of paths; [TuiApp],
      [TuiAppFacts]: the state, selection and subscriptions; [TuiEvents],
      [TuiEventsFacts]: the daemon's messages; [TuiKeys], [TuiKeysFacts]: keys, prompts
      and pastes; [TuiExamples].

    ** How code is represented

    Mutable state is a record that operations take and return; errors are [result]
    or [option]; unsigned integers are [N], with saturating or wrapping operations
    written out where the code can reach the end of the range; [Vec] lengths are
    [nat]; ordered maps and sets are [gmap] and [gset], iterated in the order of
    their keys ([keys], [set_iter]); strings are lists of code points.
    What is not in the sources is an argument of the model: a class (the emulator [Vt100]
    with [VtModes], layouts of [Ratatui], [UnicodeTables]; [JsonValue], [JsonBuild],
    [JsonText], [Serde] and the readers serde derives; [ConfigToml], [DeviceToml];
    [Sha256], [Vapid], [Base64]; [Shell], [Fnmatch], [RemoteHost], [Processes], [Sockets],
    [FileTree], [ApiSession]) with the laws used as a second class, each with a concrete
    instance under which the witnesses compute; the clock,
    randomness, whether a process starts, files and other outcomes are arguments too
    ([Moment] in [Daemon], [Disk] and faults in [FileSave] and [Staging]).
    A handler that runs without awaiting is one step; concurrency appears as the order
    in which steps are taken ([supervise], [fetch_step], [RelayEvent], the inputs of the
    daemon), and the theorems quantify over it. The upload window of [Client] is shared
    by tasks without a lock: there one step is one access of an atomic, one message taken
    or put, or one wake-up, and the relation [step] says who may take it.

    ** What the theorems show

    Claims are numbered C1, C2, ... in order of importance. In groups:
    - what a client is shown is what there is: [replica_faithful] (the screen kept of a
      pane is what an emulator fed with its frames shows, and a viewer that applies what
      it was sent holds it), [diff_exact], [ack_catches_up],
      [federation_followed], and the inbox ([actionable_cards_resolve],
      [resolve_card_exact], [inbox_keeps_agents], [section_order_stable]);
    - who controls: [lease_guards], [lease_announced], [take_control_takes] for the
      broker; [daemon_acts_for_holder], [daemon_tells_leases] for the whole loop;
    - routes and processes: [bookkeeping_agrees], [routes_served],
      [daemon_serves_routes]; [control_on_observing_process] proves a defect;
    - the loop ends: [handle_terminates];
    - state that outlives a connection: [reconnect_retires_generations],
      [disconnect_is_not_disappearance], [attention_history_invariant],
      [validated_identities_unambiguous];
    - the client's side: [client_holds_what_is_said], [streamed_upload_attests],
      [upload_window_bounded], [waiting_sender_is_woken];
    - reaching Herdr: [herdr_sees_arguments], [requests_answered_or_redacted],
      [expansion_keeps_identities], [next_change_exact], [tunnel_wait_ends],
      [invoke_in_context], [directory_listed_inside], [drift_exact];
    - the configuration: [edits_load_or_leave], [notifications_switched],
      [revoking_undoes_pairing], [hosts_offered_once], [parse_by_blocks];
    - what may be shown: [report_keeps_machines_private], [report_lists_each_check_once],
      [probes_in_any_order];
    - the terminal interface: [input_sends_only_permitted], [daemon_cannot_type],
      [subscriptions_settle], [files_pasted_in_order], [every_byte_accounted],
      [visible_panes_apart], [scrolled_selection_reads], [quoted_files_survive],
      [saves_only_valid], [palette_search_exact], [prompt_reads_text];
    - the browser: [unpaired_reaches_nothing], [device_access_follows_file];
    - admission: [handshake_first], [pairing_needs_code_and_approval], and for the relay
      [relay_well_formed], [device_hears_only_its_host], [code_lookup_refines],
      [packet_roundtrip], [pair_attempts_bounded];
    - transfers: [relay_done_verified], [interrupted_upload_completes],
      [between_verified], [fetch_completes], [saves_verified], [window_respected],
      [staged_name_stays], [receipt_roundtrip], [one_attempt_per_transfer],
      [retention_bounded];
    - [plan_rebuilds_tab]: a moved workspace keeps its layout.
    Theorems that show the code losing something (a path typed elsewhere, a program's path
    in a public report, a sender left waiting) stand beside the others and are named in
    the manifest's findings.

    ** Fuel

    Loops that are not structural take fuel, and a theorem says that it is enough:
    [Daemon.apply] (for every input there is a fuel from which the result no longer
    changes: [handle_terminates], by a measure that puts disconnections before routes
    to open before reports before the rest); [Staging.copy_all] and the turns of
    [FileSave] (bounded by what the source delivers); [Retention.evict_loop] and
    [AgentMarks.enforce_cap_loop] (the size of the map); [Pairing.free_suffix] (the
    number of devices, [unique_device_name_free]); [Client.receive] (a line takes a byte);
    [ConfigEdit.one_line_feed] (the length of the text); [SshConfig.read_into] (the
    levels of includes the source itself allows).

    ** Not modelled

    Sockets, tasks, processes and files themselves, and how tasks are scheduled;
    [serde_json], TOML, base64 and cryptography; in [tui.rs], drawing, the layout of the
    sidebar and of dialogs, and the mouse outside selections (what a click means depends
    on where the last frame drew things, so it would model the drawing); the clipboard
    tools of a desktop and their probing; the file that remembers the selected pane
    ([ui_state.rs]); the connector of the bridge; the command line ([main.rs]).
    The manifest lists each part of the program with what is modelled of it. *)

From Stdlib Require Import Ascii Lia.
From stdpp Require Export base tactics numbers list strings gmap sets sorting.

#[global] Open Scope list_scope.
#[global] Open Scope N_scope.
#[global] Open Scope nat_scope.

(** ** Machine integers

    Rust's unsigned integers are modelled as [N]; the operations that can leave
    the range are written out: saturating ([saturating_add]) or wrapping (the
    plain [+] of a release build). Lengths of vectors ([usize]) are [nat]. *)

Definition u16_max : N := 65535.
Definition u32_max : N := 4294967295.
Definition u64_max : N := 18446744073709551615.

Definition u64_saturating_add (a b : N) : N := N.min (a + b) u64_max.
Definition u64_saturating_mul (a b : N) : N := N.min (a * b) u64_max.
Definition u32_saturating_add (a b : N) : N := N.min (a + b) u32_max.
Definition u64_wrapping_add (a b : N) : N := N.modulo (a + b) (u64_max + 1).

Lemma u64_saturating_add_le a b : (u64_saturating_add a b ≤ u64_max)%N.
Proof. unfold u64_saturating_add. lia. Qed.

Lemma u64_saturating_add_ge a b : (a ≤ u64_max)%N → (a ≤ u64_saturating_add a b)%N.
Proof. unfold u64_saturating_add. lia. Qed.

Lemma u64_wrapping_add_small a b :
  (a + b ≤ u64_max)%N → u64_wrapping_add a b = (a + b)%N.
Proof. intros H. unfold u64_wrapping_add. apply N.mod_small. unfold u64_max in *. lia. Qed.

(** ** Strings

    A Rust [String] is a sequence of Unicode scalar values, kept here as the
    list of their code points: [chars()] is the list itself, and comparing
    two strings lexicographically by code point is comparing their UTF-8
    bytes. A byte vector is a list of byte values. *)

Abbreviation ustr := (list N) (only parsing).
Abbreviation bytes := (list N) (only parsing).

(** [u "text"] is the string of an ASCII literal. *)
Definition u (s : string) : ustr := map Ascii.N_of_ascii (String.list_ascii_of_string s).

(** [char::is_control]: the general category Cc. *)
Definition is_control (c : N) : bool :=
  ((c <=? 31) || ((127 <=? c) && (c <=? 159)))%N.

(** [char::is_whitespace]: the Unicode property White_Space. *)
Definition is_whitespace (c : N) : bool :=
  (((9 <=? c) && (c <=? 13)) || (c =? 32) || (c =? 133) || (c =? 160) || (c =? 5760)
   || ((8192 <=? c) && (c <=? 8202)) || (c =? 8232) || (c =? 8233) || (c =? 8239)
   || (c =? 8287) || (c =? 12288))%N.

Fixpoint trim_start (s : ustr) : ustr :=
  match s with
  | [] => []
  | c :: s' => if is_whitespace c then trim_start s' else s
  end.

Definition trim_end (s : ustr) : ustr := reverse (trim_start (reverse s)).

(** [str::trim]. *)
Definition trim (s : ustr) : ustr := trim_end (trim_start s).

Definition to_ascii_lowercase_char (c : N) : N :=
  if ((65 <=? c) && (c <=? 90))%N then (c + 32)%N else c.
Definition to_ascii_lowercase (s : ustr) : ustr := map to_ascii_lowercase_char s.

(** How many bytes a string takes in UTF-8 ([str::len]). *)
Definition utf8_width (c : N) : nat :=
  if (c <=? 127)%N then 1 else if (c <=? 2047)%N then 2 else if (c <=? 65535)%N then 3 else 4.
Definition utf8_len (s : ustr) : nat := sum_list_with utf8_width s.

(** The decimal rendering of an integer, as [format!("{}")] writes it. *)
Fixpoint decimal_digits (fuel : nat) (n : N) (acc : ustr) : ustr :=
  match fuel with
  | O => acc
  | S fuel' =>
      let acc' := (48 + n mod 10)%N :: acc in
      if (n <? 10)%N then acc' else decimal_digits fuel' (n / 10)%N acc'
  end.
Definition display_N (n : N) : ustr := decimal_digits (S (N.to_nat (N.log2 n))) n [].

(** ** Total orders: Rust's [Ord]

    A [BTreeMap] is a [gmap] traversed in the order of its keys. [Ord] carries
    the comparison; [OrdLaws] says that it is a total order whose equality is
    Leibniz equality. *)

Class Ord (A : Type) := cmp : A → A → comparison.
#[global] Hint Mode Ord ! : typeclass_instances.

Class OrdLaws (A : Type) `{Ord A} := {
  cmp_eq_iff : ∀ x y : A, cmp x y = Eq ↔ x = y;
  cmp_antisym : ∀ x y : A, cmp y x = CompOpp (cmp x y);
  cmp_lt_trans : ∀ x y z : A, cmp x y = Lt → cmp y z = Lt → cmp x z = Lt;
}.

Definition cmp_le `{Ord A} (x y : A) : Prop := cmp x y ≠ Gt.
Definition cmp_lt `{Ord A} (x y : A) : Prop := cmp x y = Lt.

(** [Ordering::then_with]. *)
Definition then_cmp (a b : comparison) : comparison :=
  match a with Eq => b | _ => a end.

Section ord_facts.
Context {A : Type} `{OrdLaws A}.

Lemma cmp_refl (x : A) : cmp x x = Eq.
Proof. by apply cmp_eq_iff. Qed.

#[global] Instance cmp_le_dec : RelDecision (cmp_le (A := A)).
Proof. intros x y. unfold cmp_le. solve_decision. Defined.

#[global] Instance cmp_le_total : Total (cmp_le (A := A)).
Proof.
  intros x y. unfold cmp_le. rewrite (cmp_antisym x y).
  destruct (cmp x y); simpl; [left|left|right]; congruence.
Qed.

#[global] Instance cmp_le_antisym : AntiSymm (=) (cmp_le (A := A)).
Proof.
  intros x y. unfold cmp_le. rewrite (cmp_antisym x y).
  destruct (cmp x y) eqn:E; simpl; try congruence. by apply cmp_eq_iff in E.
Qed.

#[global] Instance cmp_le_trans : Transitive (cmp_le (A := A)).
Proof.
  intros x y z. unfold cmp_le.
  destruct (cmp x y) eqn:Exy; [apply cmp_eq_iff in Exy as ->; done| |done].
  destruct (cmp y z) eqn:Eyz; [apply cmp_eq_iff in Eyz as <-; congruence| |done].
  by rewrite (cmp_lt_trans x y z).
Qed.

Lemma cmp_lt_irrefl (x : A) : ¬ cmp_lt x x.
Proof. unfold cmp_lt. by rewrite cmp_refl. Qed.
End ord_facts.

#[export] Instance N_ord : Ord N := N.compare.
#[export] Instance N_ord_laws : OrdLaws N.
Proof.
  split; unfold cmp, N_ord; intros.
  - apply N.compare_eq_iff.
  - apply N.compare_antisym.
  - rewrite N.compare_lt_iff in *. lia.
Qed.

Definition bool_cmp (a b : bool) : comparison :=
  match a, b with
  | false, true => Lt
  | true, false => Gt
  | _, _ => Eq
  end.

(** Slices, strings and vectors compare lexicographically. *)
Fixpoint list_cmp `{Ord A} (xs ys : list A) : comparison :=
  match xs, ys with
  | [], [] => Eq
  | [], _ :: _ => Lt
  | _ :: _, [] => Gt
  | x :: xs', y :: ys' => then_cmp (cmp x y) (list_cmp xs' ys')
  end.
#[export] Instance list_ord `{Ord A} : Ord (list A) := list_cmp.
#[export] Instance list_ord_laws `{OrdLaws A} : OrdLaws (list A).
Proof.
  split; change (cmp (A:=list A)) with (list_cmp (A:=A)).
  - intros xs. induction xs as [|x xs IHxs]; intros [|y ys]; simpl; try done.
    destruct (cmp x y) eqn:E; simpl.
    + apply cmp_eq_iff in E as ->. rewrite IHxs. naive_solver.
    + split; [done|]. intros [= -> ->]. by rewrite cmp_refl in E.
    + split; [done|]. intros [= -> ->]. by rewrite cmp_refl in E.
  - intros xs. induction xs as [|x xs IH]; intros [|y ys]; simpl; try done.
    rewrite (cmp_antisym x y), IH. by destruct (cmp x y).
  - intros xs. induction xs as [|x xs IH]; intros [|y ys] [|z zs]; simpl; try done.
    destruct (cmp x y) eqn:Exy; simpl; [|intros _|done].
    + apply cmp_eq_iff in Exy as ->. destruct (cmp y z); simpl; try done. apply IH.
    + destruct (cmp y z) eqn:Eyz; simpl; [|intros _|done].
      * apply cmp_eq_iff in Eyz as ->. by rewrite Exy.
      * by rewrite (cmp_lt_trans x y z).
Qed.

(** The derived order of a struct: its fields in declaration order. *)
Definition prod_cmp `{Ord A} `{Ord B} (x y : A * B) : comparison :=
  then_cmp (cmp x.1 y.1) (cmp x.2 y.2).
#[export] Instance prod_ord `{Ord A} `{Ord B} : Ord (A * B) := prod_cmp.
#[export] Instance prod_ord_laws `{OrdLaws A} `{OrdLaws B} : OrdLaws (A * B).
Proof.
  split; change (cmp (A:=A*B)) with (prod_cmp (A:=A) (B:=B)); unfold prod_cmp.
  - intros [a b] [a' b']; simpl. destruct (cmp a a') eqn:E; simpl.
    + apply cmp_eq_iff in E as ->. rewrite cmp_eq_iff. naive_solver.
    + split; [done|]. intros [= -> ->]. by rewrite cmp_refl in E.
    + split; [done|]. intros [= -> ->]. by rewrite cmp_refl in E.
  - intros [a b] [a' b']; simpl. rewrite (cmp_antisym a a'), (cmp_antisym b b').
    by destruct (cmp a a').
  - intros [a b] [a' b'] [a'' b'']; simpl.
    destruct (cmp a a') eqn:E1; simpl; [|intros _|done].
    + apply cmp_eq_iff in E1 as ->. destruct (cmp a' a''); simpl; try done.
      apply cmp_lt_trans.
    + destruct (cmp a' a'') eqn:E2; simpl; [|intros _|done].
      * apply cmp_eq_iff in E2 as ->. by rewrite E1.
      * by rewrite (cmp_lt_trans a a' a'').
Qed.

(** An order transported along an injection. *)
Definition cmp_by `{Ord B} {A : Type} (f : A → B) (x y : A) : comparison := cmp (f x) (f y).
Lemma ord_laws_by `{OrdLaws B} {A : Type} (f : A → B) `{!Inj (=) (=) f} :
  @OrdLaws A (cmp_by f).
Proof.
  split; change (@cmp A (cmp_by f)) with (cmp_by f); unfold cmp_by.
  - intros x y. rewrite cmp_eq_iff. split; [apply (inj f)|congruence].
  - intros x y. apply cmp_antisym.
  - intros x y z. apply cmp_lt_trans.
Qed.

Lemma StronglySorted_filter {A} (R : relation A) (P : A → Prop) `{∀ x, Decision (P x)} l :
  StronglySorted R l → StronglySorted R (filter P l).
Proof.
  induction 1 as [|x l Hs IH Hx]; [constructor|]. rewrite filter_cons. case_decide; [|done].
  constructor; [done|]. apply Forall_forall. intros y [_ Hy]%list_elem_of_filter.
  by eapply Forall_forall in Hx.
Qed.

Lemma filter_all {A} (P : A → Prop) `{∀ x, Decision (P x)} (l : list A) :
  (∀ x, x ∈ l → P x) → filter P l = l.
Proof.
  intros HP. induction l as [|y l IH]; [done|].
  rewrite filter_cons_True by (apply HP; by left). f_equal. apply IH. intros x Hx. apply HP. by right.
Qed.

(** [Iterator::min_by_key]: the first of the least elements. *)
Definition min_by_key {A K} `{Ord K} (f : A → K) (l : list A) : option A :=
  foldl (λ best x, match best with
                   | None => Some x
                   | Some b => if bool_decide (cmp (f x) (f b) = Lt) then Some x else best
                   end) None l.

Lemma min_by_key_spec {A K} `{OrdLaws K} (f : A → K) (l : list A) :
  match min_by_key f l with
  | None => l = []
  | Some b => b ∈ l ∧ ∀ x, x ∈ l → cmp_le (f b) (f x)
  end.
Proof.
  unfold min_by_key. induction l as [|x l IH] using rev_ind; [done|].
  rewrite foldl_app. simpl. destruct (foldl _ None l) as [b|].
  - destruct IH as [Hb Hle]. case_bool_decide as Hlt.
    + split; [apply elem_of_app; right; by left|]. intros y [Hy|Hy]%elem_of_app.
      * transitivity (f b); [unfold cmp_le; congruence|by apply Hle].
      * apply list_elem_of_singleton in Hy. subst y. unfold cmp_le. by rewrite cmp_refl.
    + split; [apply elem_of_app; by left|]. intros y [Hy|Hy]%elem_of_app; [by apply Hle|].
      apply list_elem_of_singleton in Hy. subst y. unfold cmp_le.
      rewrite (cmp_antisym (f x) (f b)). by destruct (cmp (f x) (f b)).
  - subst l. split; [by left|]. intros y Hy. apply list_elem_of_singleton in Hy. subst y.
    unfold cmp_le. by rewrite cmp_refl.
Qed.

(** ** Ordered maps and sets

    [BTreeMap] and [BTreeSet] are [gmap] and [gset]; what iterates them does so
    through [keys], [values], [entries] and [set_iter], in ascending order. *)

Section ordered.
Context {K : Type} `{OrdLaws K} `{Countable K}.

Definition set_iter (s : gset K) : list K := merge_sort cmp_le (elements s).

Lemma elem_of_set_iter (s : gset K) k : k ∈ set_iter s ↔ k ∈ s.
Proof. unfold set_iter. by rewrite (merge_sort_Permutation cmp_le), elem_of_elements. Qed.

Lemma NoDup_set_iter (s : gset K) : NoDup (set_iter s).
Proof. unfold set_iter. rewrite (merge_sort_Permutation cmp_le). apply NoDup_elements. Qed.

Lemma set_iter_sorted (s : gset K) : StronglySorted cmp_le (set_iter s).
Proof. apply (StronglySorted_merge_sort cmp_le). Qed.

Lemma set_iter_empty : set_iter ∅ = [].
Proof. reflexivity. Qed.

Context {V : Type}.
Implicit Types m : gmap K V.

Definition keys m : list K := set_iter (dom m).
Definition entries m : list (K * V) :=
  omap (λ k, v ← m !! k; Some (k, v)) (keys m).
Definition values m : list V := omap (λ k, m !! k) (keys m).

(** The size of a map, changed at one key. *)
Lemma size_insert_le `{Countable K} {A} i (x : A) (m : gmap K A) : size (<[i := x]> m) ≤ S (size m).
Proof. rewrite map_size_insert. case_match; unfold id; simpl; lia. Qed.
Lemma size_delete_le `{Countable K} {A} i (m : gmap K A) : size (delete i m) ≤ size m.
Proof. rewrite map_size_delete. case_match; unfold id; simpl; lia. Qed.

Lemma elem_of_keys m k : k ∈ keys m ↔ is_Some (m !! k).
Proof. unfold keys. by rewrite elem_of_set_iter, elem_of_dom. Qed.

Lemma NoDup_keys m : NoDup (keys m).
Proof. apply NoDup_set_iter. Qed.

Lemma elem_of_entries m k v : (k, v) ∈ entries m ↔ m !! k = Some v.
Proof.
  unfold entries. rewrite list_elem_of_omap. split.
  - intros (k' & _ & Hk). destruct (m !! k') eqn:E; naive_solver.
  - intros Hk. exists k. rewrite elem_of_keys, Hk. naive_solver.
Qed.

Lemma elem_of_values m v : v ∈ values m ↔ ∃ k, m !! k = Some v.
Proof.
  unfold values. rewrite list_elem_of_omap. split.
  - intros (k & _ & Hk). eauto.
  - intros [k Hk]. exists k. split; [|done]. apply elem_of_keys. eauto.
Qed.

(** What a filter of the keys selects depends only on which of the keys
    selected are present. *)
Lemma keys_filter_ext (P : K → Prop) `{∀ k, Decision (P k)} m1 m2 :
  (∀ k, P k → is_Some (m1 !! k) ↔ is_Some (m2 !! k)) →
  filter P (keys m1) = filter P (keys m2).
Proof.
  intros HP. apply (StronglySorted_unique cmp_le).
  1,2: apply StronglySorted_filter, set_iter_sorted.
  apply NoDup_Permutation; [apply NoDup_filter, NoDup_keys..|].
  intros k. rewrite !list_elem_of_filter, !elem_of_keys. naive_solver.
Qed.

Lemma length_keys m : length (keys m) = size m.
Proof. unfold keys, set_iter. by rewrite (merge_sort_Permutation cmp_le), <-size_dom. Qed.
End ordered.

(** ** Results

    A fallible operation returns [Ok] or [Err]; [?] is the monadic bind. *)

Inductive result (E A : Type) : Type :=
  | Ok (a : A)
  | Err (e : E).
#[global] Arguments Ok {E A} a.
#[global] Arguments Err {E A} e.

Lemma Ok_inj {E A} (a b : A) : Ok (E := E) a = Ok b → a = b.
Proof. by intros [= ->]. Qed.

#[export] Instance result_ret {E} : MRet (result E) := λ A a, Ok a.
#[export] Instance result_bind {E} : MBind (result E) := λ A B f r,
  match r with Ok a => f a | Err e => Err e end.
#[export] Instance result_eq_dec {E A} `{EqDecision E, EqDecision A} : EqDecision (result E A).
Proof. solve_decision. Defined.

(** [Option::ok_or]. *)
Definition ok_or {E A} (o : option A) (e : E) : result E A :=
  match o with Some a => Ok a | None => Err e end.

Definition is_ok {E A} (r : result E A) : bool :=
  match r with Ok _ => true | Err _ => false end.

(** [Option::or_else], with the alternative already computed. *)
Definition or_else {A} (o1 o2 : option A) : option A :=
  match o1 with Some _ => o1 | None => o2 end.

(** Keep the newest [n] elements of a log: what
    [v.drain(..v.len() - n)] leaves. *)
Definition keep_last {A} (n : nat) (l : list A) : list A := drop (length l - n) l.

Lemma length_keep_last {A} n (l : list A) : length (keep_last n l) = min n (length l).
Proof. unfold keep_last. rewrite length_drop. lia. Qed.

Lemma keep_last_suffix {A} n (l : list A) : keep_last n l `suffix_of` l.
Proof. exists (take (length l - n) l). symmetry. apply take_drop. Qed.

Lemma keep_last_all {A} n (l : list A) : length l ≤ n → keep_last n l = l.
Proof. intros. unfold keep_last. by replace (length l - n) with 0 by lia. Qed.

Lemma keep_last_app_ge {A} n (l k : list A) : n ≤ length k → keep_last n (l ++ k) = keep_last n k.
Proof.
  intros. unfold keep_last. rewrite length_app, drop_app_ge by lia. f_equal. lia.
Qed.

(** Trimming a log before appending to it changes nothing in the end. *)
Lemma keep_last_app {A} n (l k : list A) : keep_last n (keep_last n l ++ k) = keep_last n (l ++ k).
Proof.
  destruct (decide (length l ≤ n)) as [Hl|Hl]; [by rewrite (keep_last_all n l)|].
  rewrite <-(take_drop (length l - n) l) at 2. rewrite <-app_assoc.
  rewrite (keep_last_app_ge n (take _ l)); [done|].
  rewrite length_app, length_drop. lia.
Qed.

Lemma elem_of_keep_last {A} n (l : list A) x : x ∈ keep_last n l → x ∈ l.
Proof. destruct (keep_last_suffix n l) as [p Hp]. rewrite Hp at 2. rewrite elem_of_app. auto. Qed.

Lemma StronglySorted_suffix {A} (R : relation A) (l k : list A) :
  k `suffix_of` l → StronglySorted R l → StronglySorted R k.
Proof. intros [p ->] Hs. by apply StronglySorted_app in Hs as (_ & _ & ?). Qed.

Lemma foldl_ind {A B} (P : B → Prop) (f : B → A → B) (l : list A) (w : B) :
  P w → (∀ w a, P w → P (f w a)) → P (foldl f w l).
Proof. intros Hw Hf. revert w Hw. induction l as [|a l IH]; intros w Hw; [done|]. by apply IH, Hf. Qed.

Lemma StronglySorted_snoc {A} (R : relation A) (l : list A) x :
  StronglySorted R l → (∀ y, y ∈ l → R y x) → StronglySorted R (l ++ [x]).
Proof.
  intros Hl Hx. apply StronglySorted_app. split; [|split; [done|]].
  - intros y z Hy Hz. apply list_elem_of_singleton in Hz as ->. by apply Hx.
  - repeat constructor.
Qed.

(** Collecting an iterator of pairs into a map: a later pair replaces an
    earlier one with the same key. *)
Definition collect_map {K V} `{Countable K} (l : list (K * V)) : gmap K V :=
  foldl (λ m kv, <[kv.1 := kv.2]> m) ∅ l.

Section collect.
Context {K V : Type} `{Countable K}.
Implicit Types (l : list (K * V)) (m : gmap K V).

Lemma collect_map_snoc l kv : collect_map (l ++ [kv]) = <[kv.1 := kv.2]> (collect_map l).
Proof. unfold collect_map. by rewrite foldl_app. Qed.

Lemma collect_map_lookup l k v : collect_map l !! k = Some v → (k, v) ∈ l.
Proof.
  induction l as [|[k' v'] l IH] using rev_ind; [done|].
  rewrite collect_map_snoc; simpl. rewrite lookup_insert, elem_of_app, list_elem_of_singleton.
  case_decide; naive_solver.
Qed.

Lemma collect_map_lookup_is_Some l k :
  is_Some (collect_map l !! k) ↔ k ∈ l.*1.
Proof.
  induction l as [|[k' v'] l IH] using rev_ind.
  { split; [intros [? ?]; done|by intros ?%elem_of_nil]. }
  rewrite collect_map_snoc, fmap_app, elem_of_app; simpl.
  rewrite lookup_insert, list_elem_of_singleton. case_decide; [|rewrite IH]; naive_solver.
Qed.

Lemma collect_map_NoDup l k v :
  NoDup l.*1 → (k, v) ∈ l → collect_map l !! k = Some v.
Proof.
  intros Hnd Hin.
  assert (is_Some (collect_map l !! k)) as [v' Hv'].
  { apply collect_map_lookup_is_Some. apply list_elem_of_fmap. by exists (k, v). }
  assert ((k, v') ∈ l) as Hin' by by apply collect_map_lookup.
  rewrite Hv'. f_equal. clear Hv'.
  induction l as [|[k0 v0] l IH]; [by apply elem_of_nil in Hin|].
  simpl in Hnd. apply NoDup_cons in Hnd as [Hk0 Hnd].
  assert (∀ w, (k0, w) ∈ l → False) as Hno.
  { intros w Hw. apply Hk0, list_elem_of_fmap. by exists (k0, w). }
  apply elem_of_cons in Hin as [?|Hin]; apply elem_of_cons in Hin' as [?|Hin'];
    simplify_eq; naive_solver.
Qed.
End collect.

Lemma NoDup_entries_keys {K V} `{OrdLaws K} `{Countable K} (m : gmap K V) :
  (entries m).*1 = keys m.
Proof.
  unfold entries. assert (∀ k, k ∈ keys m → is_Some (m !! k)) as Hk by (intros; by apply elem_of_keys).
  induction (keys m) as [|k l IH]; [done|]. csimpl.
  destruct (Hk k) as [v Hv]; [by left|]. rewrite Hv. csimpl. f_equal. apply IH.
  intros k' Hk'. apply Hk. by right.
Qed.

(** A map is what collecting its entries yields. *)
Lemma collect_entries {K V} `{OrdLaws K} `{Countable K} (m : gmap K V) :
  collect_map (entries m) = m.
Proof.
  apply map_eq. intros k. apply option_eq. intros v. split.
  - intros Hk. by apply elem_of_entries, collect_map_lookup.
  - intros Hk. apply collect_map_NoDup; [|by apply elem_of_entries].
    rewrite NoDup_entries_keys. apply NoDup_keys.
Qed.

Lemma values_entries {K V} `{OrdLaws K} `{Countable K} (m : gmap K V) :
  values m = (entries m).*2.
Proof.
  unfold values, entries. induction (keys m) as [|k l IH]; [done|]. csimpl.
  destruct (m !! k); csimpl; by rewrite ?IH.
Qed.

(** ** Stores with a cap *)

(** While a store holds more than [cap] entries, the one with the least age is
    forgotten. *)
Section evict.
Context {K V A : Type} `{OrdLaws K} `{Countable K} `{OrdLaws A} (cap : nat) (age : K * V → A).

Fixpoint evict_loop (fuel : nat) (m : gmap K V) : gmap K V :=
  match fuel with
  | O => m
  | S fuel' =>
      if cap <? size m then
        match min_by_key age (entries m) with
        | None => m
        | Some oldest => evict_loop fuel' (delete oldest.1 m)
        end
      else m
  end.
(** Each round forgets one entry, so as many rounds as entries are enough. *)
Definition evict (m : gmap K V) : gmap K V := evict_loop (size m) m.

Definition oldest_entry (m : gmap K V) (k : K) : Prop :=
  ∃ v, m !! k = Some v ∧ ∀ k' v', m !! k' = Some v' → cmp_le (age (k, v)) (age (k', v')).

Lemma evict_loop_small n m : size m ≤ cap → evict_loop n m = m.
Proof. intros Hm. destruct n; cbn [evict_loop]; [done|]. by rewrite (proj2 (Nat.ltb_ge _ _)). Qed.

(** One entry over the cap costs exactly the oldest one. *)
Lemma evict_spec m :
  size m ≤ S cap →
  (size m ≤ cap ∧ evict m = m) ∨
  ∃ k, size m = S cap ∧ oldest_entry m k ∧ evict m = delete k m.
Proof.
  intros Hsize. unfold evict. destruct (decide (size m ≤ cap)) as [Hle|Hgt].
  - left. split; [done|]. by apply evict_loop_small.
  - right. assert (size m = S cap) as E by lia. rewrite E. cbn [evict_loop].
    rewrite E, (proj2 (Nat.ltb_lt _ _)) by lia.
    pose proof (min_by_key_spec age (entries m)) as Hmin.
    destruct (min_by_key age (entries m)) as [[k v]|].
    + destruct Hmin as [Hin%elem_of_entries Hle]. exists k. split; [done|split].
      * exists v. split; [done|]. intros k' v' Hk'. by apply (Hle (k', v')), elem_of_entries.
      * apply evict_loop_small. cbn [fst]. rewrite map_size_delete_Some by eauto. lia.
    + exfalso. apply (f_equal length) in Hmin. rewrite <-(length_fmap fst), NoDup_entries_keys, length_keys in Hmin.
      simpl in Hmin. lia.
Qed.

End evict.

(** Splitting at the first separator. *)
Lemma app_sep_inj (c : N) (a b x y : ustr) :
  c ∉ a → c ∉ b → a ++ c :: x = b ++ c :: y → a = b ∧ x = y.
Proof.
  revert b. induction a as [|e a IH]; intros [|f b] Ha Hb; simpl; rewrite ?elem_of_cons in *.
  - by intros [= ->].
  - intros [= -> _]. naive_solver.
  - intros [= -> _]. naive_solver.
  - intros [= -> Heq]. destruct (IH b) as [-> ->]; naive_solver.
Qed.

(** The lemmas that close the routine membership goals. *)
Create HintDb herdr.
#[export] Hint Resolve NoDup_keys NoDup_set_iter set_iter_sorted : herdr.
#[export] Hint Resolve u64_saturating_add_le : herdr.

(** Rewrite membership in the ordered traversals into map and set facts. *)
Ltac simpl_iter :=
  repeat first
    [ rewrite elem_of_keys in * | rewrite elem_of_set_iter in *
    | rewrite elem_of_entries in * | rewrite elem_of_values in * ].

(** Case on the scrutinee of the first [match] or [if] of the goal. *)
Ltac case_goal :=
  match goal with
  | |- context [match ?x with _ => _ end] => destruct x eqn:?
  end.

(** ** Stable sorting *)

(** [slice::sort_by], which is stable. *)
Section stable.
Context {A : Type} (R : relation A) `{RelDecision A A R}.
Fixpoint sort_insert (x : A) (l : list A) : list A :=
  match l with
  | [] => [x]
  | y :: l' => if decide (R x y) then x :: y :: l' else y :: sort_insert x l'
  end.
Definition stable_sort (l : list A) : list A := foldr sort_insert [] l.
Lemma sort_insert_Permutation x l : sort_insert x l ≡ₚ x :: l.
Proof. induction l as [|y l IH]; simpl; [done|]. case_decide; [done|]. rewrite IH. apply Permutation_swap. Qed.
Lemma stable_sort_Permutation l : stable_sort l ≡ₚ l.
Proof. induction l as [|x l IH]; simpl; [done|]. by rewrite sort_insert_Permutation, IH. Qed.
Lemma stable_sort_sorted `{!Total R} `{!Transitive R} l : StronglySorted R (stable_sort l).
Proof.
  induction l as [|x l IH]; simpl; [constructor|]. induction IH as [|y l' Hs IH Hy]; simpl; [repeat constructor|].
  case_decide as Hxy.
  - constructor; [by constructor|]. constructor; [done|]. eapply Forall_impl; [exact Hy|]. intros z Hz. by transitivity y.
  - constructor; [done|]. rewrite sort_insert_Permutation. constructor; [|done]. destruct (total R x y); [done|done].
Qed.
(** Equal elements keep their order. *)
Lemma stable_sort_stable (P : A → Prop) `{∀ x, Decision (P x)} l :
  (∀ x y, P x → P y → R x y) → filter P (stable_sort l) = filter P l.
Proof.
  intros HP. assert (∀ x l, filter P (sort_insert x l) = filter P (x :: l)) as Hinsert.
  { intros x k. induction k as [|y k IH]; [done|]. simpl. case_decide as Hxy; [done|].
    rewrite !filter_cons in *. rewrite IH. destruct (decide (P x)), (decide (P y)); try done. by destruct Hxy; apply HP. }
  induction l as [|x l IH]; [done|]. simpl. rewrite Hinsert, !filter_cons. by rewrite IH.
Qed.
End stable.

(** ** Updating one field of a record

    For the states whose operations each change a field or two of many: [r <| f := v |>].
    A record that takes part has an [Eta] instance that names its fields once; the setter
    of a field is found from it. *)

Class Eta (R : Type) := eta : R → R.
#[global] Hint Mode Eta ! : typeclass_instances.

Class Setter {R T : Type} (field : R → T) := set_field : (T → T) → R → R.
#[global] Arguments set_field {R T} field {_} f r /.

(** Replace [field r] by [f (field r)] in the eta-expansion of [r]. *)
Ltac solve_setter :=
  match goal with
  | |- @Setter ?R ?T ?field =>
      let setter := constr:(λ (f : T → T) (r : R), ltac:(
        let e := constr:(@eta R _ r) in
        let e := eval hnf in e in
        match eval pattern (field r) in e with
        | ?build _ => let e := eval cbv beta in (build (f (field r))) in exact e
        end)) in
      exact setter
  end.
#[global] Hint Extern 1 (Setter _) => solve_setter : typeclass_instances.

Declare Scope fields_scope.
Delimit Scope fields_scope with fields.
Open Scope fields_scope.
Notation "r <| field := v |>" := (set_field field (λ _, v) r)
  (at level 12, field at next level, left associativity, format "r  <| field  :=  v |>") : fields_scope.
Notation "r <| field ::= f |>" := (set_field field f r)
  (at level 12, field at next level, left associativity, format "r  <| field  ::=  f |>") : fields_scope.
