(* ===== verification/Model.v ===== *)
(** Qualified identifiers: [src/src/model.rs].

    Every resource is named by target, session and server-local identifier;
    the phantom type parameter of the source is the index [k] here, so a
    [PaneId] and a [TabId] are different types. *)

From S2P Require Import Prelude.

Record TargetSession := { ts_target : ustr; ts_session : ustr }.

Definition TargetSession_new (target session : ustr) : TargetSession :=
  {| ts_target := target; ts_session := session |}.

Inductive resource_kind := Workspace | Tab | Pane | Agent | Terminal.

Record QualifiedId (k : resource_kind) := QId {
  target : ustr;
  session : ustr;
  resource : ustr;
}.
#[global] Arguments QId {k} _ _ _.
#[global] Arguments target {k} _.
#[global] Arguments session {k} _.
#[global] Arguments resource {k} _.

Abbreviation WorkspaceId := (QualifiedId Workspace).
Abbreviation TabId := (QualifiedId Tab).
Abbreviation PaneId := (QualifiedId Pane).
Abbreviation AgentId := (QualifiedId Agent).
Abbreviation TerminalId := (QualifiedId Terminal).

Definition QualifiedId_new {k} (target session resource : ustr) : QualifiedId k :=
  QId target session resource.

Definition target_session {k} (id : QualifiedId k) : TargetSession :=
  TargetSession_new (target id) (session id).

Definition server_local_id {k} (id : QualifiedId k) : ustr := resource id.

(** The [Display] renderings. *)
Definition display_target_session (ts : TargetSession) : ustr :=
  ts_target ts ++ u "/" ++ ts_session ts.
Definition display_id {k} (id : QualifiedId k) : ustr :=
  target id ++ u "/" ++ session id ++ u "/" ++ resource id.

(** ** Decidable equality, countability and the derived orders *)

#[export] Instance TargetSession_eq_dec : EqDecision TargetSession.
Proof. solve_decision. Defined.
#[export] Instance QualifiedId_eq_dec {k} : EqDecision (QualifiedId k).
Proof. solve_decision. Defined.

Definition ts_tuple (ts : TargetSession) : ustr * ustr := (ts_target ts, ts_session ts).
Definition id_tuple {k} (id : QualifiedId k) : ustr * (ustr * ustr) :=
  (target id, (session id, resource id)).

#[export] Instance ts_tuple_inj : Inj (=) (=) ts_tuple.
Proof. intros [] [] [= -> ->]. done. Qed.
#[export] Instance id_tuple_inj {k} : Inj (=) (=) (id_tuple (k := k)).
Proof. intros [] [] [= -> -> ->]. done. Qed.

#[export] Instance TargetSession_countable : Countable TargetSession.
Proof.
  apply (inj_countable' ts_tuple (λ p, TargetSession_new p.1 p.2)). by intros [].
Defined.
#[export] Instance QualifiedId_countable {k} : Countable (QualifiedId k).
Proof.
  apply (inj_countable' id_tuple (λ p, QId p.1 p.2.1 p.2.2)). by intros [].
Defined.

#[export] Instance TargetSession_ord : Ord TargetSession := cmp_by ts_tuple.
#[export] Instance TargetSession_ord_laws : OrdLaws TargetSession := ord_laws_by ts_tuple.
#[export] Instance QualifiedId_ord {k} : Ord (QualifiedId k) := cmp_by id_tuple.
#[export] Instance QualifiedId_ord_laws {k} : OrdLaws (QualifiedId k) := ord_laws_by id_tuple.

(** The identifier a fixed target and session give to a local name is
    injective in the local name. *)
Lemma QualifiedId_eq {k} (a b : QualifiedId k) :
  target_session a = target_session b → resource a = resource b → a = b.
Proof. destruct a, b. unfold target_session; simpl. by intros [= -> ->] ->. Qed.
