(* ===== verification/Json.v ===== *)
(** The JSON values the program reads and builds.

    [serde_json] is not part of the sources, so its [Value] is a parameter:
    [JsonValue] lists the accessors the program calls, [JsonBuild] the
    constructors that [json!] uses, and [JsonLaws] the documented facts that
    relate them. The type [Concrete.json] at the end is one concrete instance; the
    witnesses evaluate on it. *)

From S2P Require Import Prelude.

(** A double travels as its IEEE 754 bit pattern. *)
Abbreviation f64_bits := N (only parsing).
(** The bits of [0.5]. *)
Definition f64_half : f64_bits := 4602678819172646912%N.

Class JsonValue (V : Type) := {
  json_get : V → ustr → option V;
  as_str : V → option ustr;
  as_u64 : V → option N;
  as_f64 : V → option f64_bits;
  as_bool : V → option bool;
  as_array : V → option (list V);
  as_object : V → option (list (ustr * V));
  is_null : V → bool;
}.

Class JsonBuild (V : Type) := {
  json_null : V;
  json_bool : bool → V;
  json_string : ustr → V;
  json_f64 : f64_bits → V;
  json_u64 : N → V;
  json_object : list (ustr * V) → V;
}.

(** The value a literal object holds under a key: a later entry wins. *)
Fixpoint assoc_last {V} (kvs : list (ustr * V)) (k : ustr) : option V :=
  match kvs with
  | [] => None
  | (k', v) :: kvs' =>
      match assoc_last kvs' k with
      | Some w => Some w
      | None => if decide (k' = k) then Some v else None
      end
  end.

Class JsonLaws (V : Type) `{JsonValue V} `{JsonBuild V} := {
  get_object : ∀ kvs k, json_get (json_object kvs) k = assoc_last kvs k;
  as_str_string : ∀ s, as_str (json_string s) = Some s;
  as_f64_number : ∀ f, as_f64 (json_f64 f) = Some f;
}.

(** ** Reading helpers of [src/src/state.rs] *)

Section helpers.
Context {V : Type} `{JsonValue V}.

Definition collection (value : V) (key : ustr) : list V :=
  default [] (json_get value key ≫= as_array).

Definition optional_string (value : V) (key : ustr) : option ustr :=
  json_get value key ≫= as_str.

Definition optional_u64 (value : V) (key : ustr) : option N :=
  json_get value key ≫= as_u64.

Definition optional_bool (value : V) (key : ustr) : option bool :=
  json_get value key ≫= as_bool.

Definition array_len (value : V) (key : ustr) : nat :=
  match json_get value key ≫= as_array with Some l => length l | None => 0 end.
End helpers.

(** ** A concrete instance, imported by the witnesses only *)

Module Concrete.

Inductive json :=
| JNull
| JBool (b : bool)
| JNumber (n : N)
| JFloat (f : f64_bits)
| JString (s : ustr)
| JArray (l : list json)
| JObject (kvs : list (ustr * json)).

#[export] Instance json_value : JsonValue json := {|
json_get v k := match v with JObject kvs => assoc_last kvs k | _ => None end;
as_str v := match v with JString s => Some s | _ => None end;
as_u64 v := match v with JNumber n => Some n | _ => None end;
as_f64 v := match v with JFloat f => Some f | _ => None end;
as_bool v := match v with JBool b => Some b | _ => None end;
as_array v := match v with JArray l => Some l | _ => None end;
as_object v := match v with JObject kvs => Some kvs | _ => None end;
is_null v := match v with JNull => true | _ => false end;
|}.

#[export] Instance json_build : JsonBuild json := {|
json_null := JNull;
json_bool := JBool;
json_string := JString;
json_f64 := JFloat;
json_u64 := JNumber;
json_object := JObject;
|}.

#[export] Instance json_laws : JsonLaws json.
Proof. split; reflexivity. Qed.

End Concrete.
