(* ===== verification/Text.v ===== *)
(** Strings as the program takes them apart: the methods of [str] and [char] of
    Rust's standard library that the components use, and what the proofs need
    of them. *)

From S2P Require Import Prelude.

(** ** Characters *)

Definition is_ascii_digit (c : N) : bool := ((48 <=? c) && (c <=? 57))%N.
Definition is_ascii_uppercase (c : N) : bool := ((65 <=? c) && (c <=? 90))%N.
Definition is_ascii_lowercase (c : N) : bool := ((97 <=? c) && (c <=? 122))%N.
Definition is_ascii_alphanumeric (c : N) : bool :=
  is_ascii_digit c || is_ascii_uppercase c || is_ascii_lowercase c.
Definition is_ascii_hexdigit (c : N) : bool :=
  (is_ascii_digit c || ((65 <=? c) && (c <=? 70)) || ((97 <=? c) && (c <=? 102)))%N.
Definition to_ascii_uppercase_char (c : N) : N := if is_ascii_lowercase c then (c - 32)%N else c.

(** [char::to_digit]. *)
Definition to_digit (radix c : N) : option N :=
  let d :=
    if is_ascii_digit c then Some (c - 48)%N
    else if is_ascii_uppercase c then Some (c - 55)%N
    else if is_ascii_lowercase c then Some (c - 87)%N
    else None in
  match d with Some d => if (d <? radix)%N then Some d else None | None => None end.

(** A Unicode scalar value. *)
Definition is_scalar (c : N) : bool := ((c <? 55296) || ((57344 <=? c) && (c <? 1114112)))%N.

(** ** Searching and splitting *)

Definition slash : N := 47.
Definition contains (c : N) (s : ustr) : bool := bool_decide (c ∈ s).
Definition starts_with (c : N) (s : ustr) : bool :=
  match s with c' :: _ => (c' =? c)%N | [] => false end.

(** [str::split] on the characters a predicate picks: never empty. *)
Fixpoint split_at (p : N → bool) (s : ustr) : list ustr :=
  match s with
  | [] => [[]]
  | c :: s' =>
      if p c then [] :: split_at p s'
      else match split_at p s' with
           | part :: parts => (c :: part) :: parts
           | [] => [[c]]
           end
  end.
Definition split_on (c : N) : ustr → list ustr := split_at (λ c', c' =? c)%N.

Fixpoint strip_prefix (p s : ustr) : option ustr :=
  match p, s with
  | [], _ => Some s
  | c :: p', c' :: s' => if (c =? c')%N then strip_prefix p' s' else None
  | _ :: _, [] => None
  end.
Definition strip_suffix (p s : ustr) : option ustr := reverse <$> strip_prefix (reverse p) (reverse s).
Definition has_prefix (p s : ustr) : bool := bool_decide (is_Some (strip_prefix p s)).
Definition has_suffix (p s : ustr) : bool := bool_decide (is_Some (strip_suffix p s)).

(** [str::split_once]. *)
Fixpoint split_once (p s : ustr) : option (ustr * ustr) :=
  match strip_prefix p s, s with
  | Some rest, _ => Some ([], rest)
  | None, c :: s' => (λ lr, (c :: lr.1, lr.2)) <$> split_once p s'
  | None, [] => None
  end.
(** [str::rsplit_once] on a character. *)
Definition rsplit_once (c : N) (s : ustr) : option (ustr * ustr) :=
  (λ lr, (reverse lr.2, reverse lr.1)) <$> split_once [c] (reverse s).
(** [str::contains] on a string. *)
Definition contains_str (p s : ustr) : bool := bool_decide (is_Some (split_once p s)).

(** [str::trim_start_matches] and its siblings, on a character. *)
Fixpoint trim_start_char (c : N) (s : ustr) : ustr :=
  match s with c' :: s' => if (c' =? c)%N then trim_start_char c s' else s | [] => [] end.
Definition trim_end_char (c : N) (s : ustr) : ustr := reverse (trim_start_char c (reverse s)).
Definition trim_char (c : N) (s : ustr) : ustr := trim_end_char c (trim_start_char c s).

(** [str::parse] into an unsigned integer of at most [limit]: an optional [+],
    then at least one digit, and no overflow. *)
Fixpoint parse_digits (limit acc : N) (s : ustr) : option N :=
  match s with
  | [] => Some acc
  | c :: s' =>
      match to_digit 10 c with
      | Some d => let v := (10 * acc + d)%N in if (v <=? limit)%N then parse_digits limit v s' else None
      | None => None
      end
  end.
Definition parse_unsigned (limit : N) (s : ustr) : option N :=
  let digits := match s with 43%N :: s' => s' | _ => s end in
  if bool_decide (digits = []) then None else parse_digits limit 0 digits.

(** [str::lines]: what lies between line feeds, without a final one and without
    the carriage return before one. *)
Definition strip_cr (s : ustr) : ustr := default s (strip_suffix [13%N] s).
Fixpoint lines_of (parts : list ustr) : list ustr :=
  match parts with
  | [] => []
  | [last] => if bool_decide (last = []) then [] else [last]
  | part :: parts' => strip_cr part :: lines_of parts'
  end.
Definition lines (s : ustr) : list ustr := lines_of (split_on 10 s).

(** ** UTF-8 *)

Definition utf8_char (c : N) : bytes :=
  (if c <=? 127 then [c]
   else if c <=? 2047 then [192 + c / 64; 128 + c mod 64]
   else if c <=? 65535 then [224 + c / 4096; 128 + (c / 64) mod 64; 128 + c mod 64]
   else [240 + c / 262144; 128 + (c / 4096) mod 64; 128 + (c / 64) mod 64; 128 + c mod 64])%N.
(** [str::as_bytes]. *)
Definition utf8 (s : ustr) : bytes := s ≫= utf8_char.

Lemma length_utf8 s : length (utf8 s) = utf8_len s.
Proof.
  unfold utf8, utf8_len. induction s as [|c s IH]; [done|]. csimpl. rewrite length_app, IH. f_equal.
  unfold utf8_char, utf8_width. repeat case_match; done.
Qed.

(** The character a nonempty encoding starts with, and the rest. *)
Definition utf8_head (b : bytes) : option (N * bytes) :=
  (match b with
   | b0 :: b' =>
       if b0 <? 128 then Some (b0, b')
       else if b0 <? 224 then
         match b' with b1 :: b'' => Some ((b0 - 192) * 64 + (b1 - 128), b'') | _ => None end
       else if b0 <? 240 then
         match b' with
         | b1 :: b2 :: b'' => Some ((b0 - 224) * 4096 + (b1 - 128) * 64 + (b2 - 128), b'')
         | _ => None
         end
       else
         match b' with
         | b1 :: b2 :: b3 :: b'' =>
             Some ((b0 - 240) * 262144 + (b1 - 128) * 4096 + (b2 - 128) * 64 + (b3 - 128), b'')
         | _ => None
         end
   | [] => None
   end)%N.

Lemma utf8_head_char c b : (c < 1114112)%N → utf8_head (utf8_char c ++ b) = Some (c, b).
Proof.
  intros Hc. unfold utf8_char.
  destruct (N.leb_spec c 127); [simpl; destruct (N.ltb_spec c 128); [done|lia]|].
  pose proof (N.div_mod c 64 ltac:(done)) as D1. pose proof (N.mod_lt c 64 ltac:(done)) as M1.
  assert (c / 4096 = c / 64 / 64)%N as E2 by (by rewrite N.Div0.div_div).
  assert (c / 262144 = c / 64 / 64 / 64)%N as E3 by (by rewrite !N.Div0.div_div).
  pose proof (N.div_mod (c / 64) 64 ltac:(done)) as D2.
  pose proof (N.mod_lt (c / 64) 64 ltac:(done)) as M2.
  pose proof (N.div_mod (c / 64 / 64) 64 ltac:(done)) as D3.
  pose proof (N.mod_lt (c / 64 / 64) 64 ltac:(done)) as M3.
  rewrite E3, E2.
  set (m0 := (c mod 64)%N) in *. set (q0 := (c / 64)%N) in *. set (m1 := (q0 mod 64)%N) in *.
  set (q1 := (q0 / 64)%N) in *. set (m2 := (q1 mod 64)%N) in *. set (q2 := (q1 / 64)%N) in *.
  clearbody m0 q0 m1 q1 m2 q2.
  destruct (N.leb_spec c 2047); [|destruct (N.leb_spec c 65535)]; cbn [app utf8_head];
    repeat (match goal with |- context [(?a <? ?b)%N] => destruct (N.ltb_spec a b); [try lia|try lia] end);
    repeat f_equal; lia.
Qed.

Lemma is_scalar_lt c : is_scalar c → (c < 1114112)%N.
Proof.
  unfold is_scalar. destruct (N.ltb_spec c 55296), (N.ltb_spec c 1114112); simpl; try lia.
  by rewrite andb_false_r.
Qed.

(** A string is determined by its bytes. *)
Lemma utf8_inj s t :
  Forall (λ c, is_scalar c) s → Forall (λ c, is_scalar c) t → utf8 s = utf8 t → s = t.
Proof.
  pose proof is_scalar_lt as Hlt.
  intros Hs. revert t. induction Hs as [|c s Hc _ IH]; intros t Ht.
  - destruct Ht as [|d t Hd _]; [done|]. unfold utf8. csimpl. intros Hn.
    apply (f_equal length) in Hn. revert Hn. rewrite length_app. unfold utf8_char.
    repeat case_match; simpl; lia.
  - destruct Ht as [|d t Hd Ht].
    { unfold utf8. csimpl. intros Hn. apply (f_equal length) in Hn. revert Hn. rewrite length_app.
      unfold utf8_char. repeat case_match; simpl; lia. }
    unfold utf8. csimpl. intros Heq. apply (f_equal utf8_head) in Heq.
    rewrite !utf8_head_char in Heq by auto. injection Heq as -> Heq. f_equal. by apply IH.
Qed.

(** ** Lemmas *)

Lemma split_at_nonempty p s : split_at p s ≠ [].
Proof. destruct s as [|c s]; simpl; [done|]. repeat case_match; done. Qed.

(** What [split] yields holds none of the separators. *)
Lemma elem_of_split_at p s part c : part ∈ split_at p s → c ∈ part → c ∈ s ∧ p c = false.
Proof.
  revert part. induction s as [|d s IH]; intros part; simpl.
  { intros ->%list_elem_of_singleton []%elem_of_nil. }
  destruct (p d) eqn:Hd.
  - intros [->|Hin]%elem_of_cons Hc; [by apply elem_of_nil in Hc|].
    destruct (IH _ Hin Hc). split; [by right|done].
  - destruct (split_at p s) as [|q qs] eqn:E; [by destruct (split_at_nonempty p s)|].
    intros [->|Hin]%elem_of_cons Hc.
    + apply elem_of_cons in Hc as [->|Hc]; [split; [by left|done]|].
      destruct (IH q) as [? ?]; [by left|done|]. split; [by right|done].
    + destruct (IH part) as [? ?]; [by right|done|]. split; [by right|done].
Qed.

Lemma strip_prefix_Some p s r : strip_prefix p s = Some r ↔ s = p ++ r.
Proof.
  revert s. induction p as [|c p IH]; intros [|d s]; simpl; try naive_solver.
  destruct (N.eqb_spec c d); rewrite ?IH; naive_solver.
Qed.

Lemma split_on_none c s : c ∉ s → split_on c s = [s].
Proof.
  unfold split_on. induction s as [|x s IH]; intros Hn; [done|]. cbn [split_at].
  destruct (N.eqb_spec x c) as [->|]; [set_solver|]. by rewrite IH by set_solver.
Qed.

Lemma split_on_cons c a s : c ∉ a → split_on c (a ++ c :: s) = a :: split_on c s.
Proof.
  unfold split_on. induction a as [|x a IH]; intros Hn; cbn [app split_at].
  { by rewrite N.eqb_refl. }
  destruct (N.eqb_spec x c) as [->|]; [set_solver|]. by rewrite IH by set_solver.
Qed.

Lemma has_prefix_app p s : has_prefix p (p ++ s) = true.
Proof. unfold has_prefix. apply bool_decide_eq_true_2. exists s. by apply strip_prefix_Some. Qed.


(** On one character, what is split off does not hold it. *)
Lemma split_once_char c s l r : split_once [c] s = Some (l, r) ↔ s = l ++ c :: r ∧ c ∉ l.
Proof.
  revert l r. induction s as [|x s IH]; intros l r; cbn [split_once strip_prefix].
  { split; [done|]. intros [Hs _]. by destruct l. }
  destruct (N.eqb_spec c x) as [->|Hne].
  - split; [intros [= <- <-]; split; [done|apply not_elem_of_nil]|].
    intros [Hs Hn]. destruct l as [|y l]; simplify_eq/=; [done|set_solver].
  - rewrite fmap_Some. split.
    + intros ([l' r'] & [-> Hn]%IH & Heq). simplify_eq/=. split; [done|set_solver].
    + intros [Hs Hn]. destruct l as [|y l]; simplify_eq/=. exists (l, r).
      split; [apply IH; set_solver|done].
Qed.

Lemma rsplit_once_Some c s l r : rsplit_once c s = Some (l, r) ↔ s = l ++ c :: r ∧ c ∉ r.
Proof.
  unfold rsplit_once. rewrite fmap_Some. split.
  - intros ([a b] & [Hs Hn]%split_once_char & [= -> ->]).
    rewrite <-(reverse_involutive s), Hs, reverse_app, reverse_cons, <-app_assoc.
    split; [done|]. by rewrite elem_of_reverse.
  - intros [-> Hn]. exists (reverse r, reverse l). rewrite split_once_char. simpl.
    rewrite !reverse_involutive, reverse_app, reverse_cons, <-app_assoc, elem_of_reverse. done.
Qed.

Lemma rsplit_once_None c s : rsplit_once c s = None → c ∉ s.
Proof.
  intros E Hin. apply list_elem_of_split_r in Hin as (l & r & -> & Hn).
  by rewrite (proj2 (rsplit_once_Some c _ l r)) in E.
Qed.

Lemma split_once_Some p s l r : split_once p s = Some (l, r) → s = l ++ p ++ r.
Proof.
  revert l. induction s as [|c s IH]; intros l; simpl.
  all: destruct (strip_prefix p _) as [r'|] eqn:E; [apply strip_prefix_Some in E; naive_solver|].
  { done. }
  destruct (split_once p s) as [[l' r']|] eqn:E'; [|done]. simpl. intros [= <- <-].
  by rewrite (IH l').
Qed.

Lemma trim_start_char_not c s : ¬ starts_with c (trim_start_char c s).
Proof.
  induction s as [|d s IH]; simpl; [auto|]. destruct (N.eqb_spec d c) as [|Hd]; [done|].
  simpl. destruct (N.eqb_spec d c); [done|auto].
Qed.

Lemma trim_end_char_not c s : last (trim_end_char c s) ≠ Some c.
Proof.
  unfold trim_end_char. rewrite last_reverse. pose proof (trim_start_char_not c (reverse s)) as H.
  destruct (trim_start_char c (reverse s)) as [|d t]; simpl in *; [done|].
  intros [= ->]. by rewrite N.eqb_refl in H.
Qed.

Lemma trim_start_char_sublist c s d : d ∈ trim_start_char c s → d ∈ s.
Proof. induction s as [|e s IH]; simpl; [done|]. case_match; rewrite ?elem_of_cons; naive_solver. Qed.

Lemma trim_end_char_sublist c s d : d ∈ trim_end_char c s → d ∈ s.
Proof. unfold trim_end_char. rewrite elem_of_reverse. intros ?%trim_start_char_sublist. by apply elem_of_reverse. Qed.

(** ** Decimal numbers *)

Definition digits_value (s : ustr) : N := foldl (λ v c, 10 * v + (c - 48))%N 0%N s.

Lemma decimal_digits_value fuel n acc :
  (n < 2 ^ N.of_nat fuel)%N →
  ∃ ds, decimal_digits fuel n acc = ds ++ acc ∧ digits_value ds = n ∧
        (fuel ≠ 0 → ds ≠ []) ∧ Forall (λ c, 48 ≤ c ≤ 57)%N ds.
Proof.
  revert n acc. induction fuel as [|fuel IH]; intros n acc Hn.
  { exists []. simpl in *. repeat split; [|done|constructor]. unfold digits_value; simpl. lia. }
  assert (48 ≤ 48 + n mod 10 ≤ 57)%N as Hd.
  { pose proof (N.mod_lt n 10 ltac:(done)) as Hm. generalize dependent (n mod 10)%N. lia. }
  simpl. destruct (N.ltb_spec n 10) as [Hs|Hs].
  - exists [48 + n mod 10]%N. repeat split; [|done|by constructor].
    unfold digits_value; simpl. rewrite N.mod_small by done. lia.
  - destruct (IH (n / 10)%N ((48 + n mod 10)%N :: acc)) as (ds & -> & Hv & _ & Hf).
    { apply N.Div0.div_lt_upper_bound. rewrite Nat2N.inj_succ, N.pow_succ_r' in Hn. lia. }
    exists (ds ++ [48 + n mod 10]%N). rewrite <-app_assoc. repeat split.
    + unfold digits_value in *. rewrite foldl_app; simpl. rewrite Hv.
      pose proof (N.div_mod n 10 ltac:(done)) as Hdm.
      generalize dependent (n mod 10)%N. generalize dependent (n / 10)%N. lia.
    + intros _ [? ?]%app_nil. done.
    + by apply Forall_app; split; [|constructor].
Qed.

Lemma display_N_value n :
  digits_value (display_N n) = n ∧ display_N n ≠ [] ∧ Forall (λ c, 48 ≤ c ≤ 57)%N (display_N n).
Proof.
  unfold display_N. destruct (decimal_digits_value (S (N.to_nat (N.log2 n))) n []) as (ds & E & ? & ? & ?).
  - rewrite Nat2N.inj_succ, N2Nat.id. destruct (N.eq_dec n 0%N) as [->|]; [done|].
    apply N.log2_spec. lia.
  - rewrite E, app_nil_r. auto.
Qed.

#[export] Instance display_N_inj : Inj (=) (=) display_N.
Proof. intros m n Heq. rewrite <-(proj1 (display_N_value m)), Heq. apply display_N_value. Qed.

(** What [{}] writes, [parse] reads. *)
Lemma parse_display limit n : (n ≤ limit)%N → parse_unsigned limit (display_N n) = Some n.
Proof.
  intros Hn. destruct (display_N_value n) as (Hv & Hne & Hf). unfold parse_unsigned.
  assert (∀ s acc, Forall (λ c, 48 ≤ c ≤ 57)%N s →
    (foldl (λ v c, 10 * v + (c - 48)) acc s ≤ limit)%N →
    parse_digits limit acc s = Some (foldl (λ v c, 10 * v + (c - 48))%N acc s)) as Hp.
  { intros s. induction s as [|c s IH]; intros acc Hs Hle; [done|].
    apply Forall_cons in Hs as [Hc Hs]. simpl in *. unfold to_digit, is_ascii_digit.
    rewrite (proj2 (N.leb_le 48 c)), (proj2 (N.leb_le c 57)) by lia. simpl.
    destruct (N.ltb_spec (c - 48) 10); [|lia].
    assert (∀ t a b, (a ≤ b → foldl (λ v c, 10 * v + (c - 48)) a t ≤
              foldl (λ v c, 10 * v + (c - 48)) b t)%N) as Hmono.
    { intros t. induction t as [|e t IHt]; intros a b Hab; simpl; [done|]. apply IHt. lia. }
    assert (∀ t a, (a ≤ foldl (λ v c, 10 * v + (c - 48)) a t)%N) as Hge.
    { intros t. induction t as [|e t IHt]; intros a; simpl; [done|].
      etrans; [|apply IHt]. lia. }
    specialize (Hge s (10 * acc + (c - 48)))%N. destruct (N.leb_spec (10 * acc + (c - 48)) limit); [|lia].
    by apply IH. }
  destruct (display_N n) as [|c s] eqn:E; [done|].
  assert (c ≠ 43)%N as Hc by (apply Forall_cons in Hf as [? _]; lia).
  assert (match (c :: s)%N with 43%N :: s' => s' | _ => c :: s end = c :: s) as ->.
  { repeat case_match; by simplify_eq. }
  rewrite bool_decide_eq_false_2 by done. rewrite Hp; [|done|].
  - by f_equal.
  - unfold digits_value in Hv. by rewrite Hv.
Qed.

(** ** More of [str] *)

Definition eq_ignore_ascii_case (a b : ustr) : bool :=
  bool_decide (to_ascii_lowercase a = to_ascii_lowercase b).

(** [str::split_whitespace]. *)
Definition split_whitespace (s : ustr) : list ustr :=
  filter (λ part, part ≠ []) (split_at is_whitespace s).

(** [str::replacen(.., 1)]. *)
Definition replace_first (p r s : ustr) : ustr :=
  match split_once p s with Some (a, b) => a ++ r ++ b | None => s end.

Fixpoint utf8_decode (fuel : nat) (b : bytes) : option ustr :=
  match fuel, b with
  | _, [] => Some []
  | O, _ => None
  | S fuel', _ =>
      match utf8_head b with
      | Some (c, rest) => (λ s, c :: s) <$> utf8_decode fuel' rest
      | None => None
      end
  end.
(** [str::from_utf8]: the bytes that are the encoding of scalar values. *)
Definition from_utf8 (b : bytes) : option ustr :=
  match utf8_decode (length b) b with
  | Some s => if forallb is_scalar s && bool_decide (utf8 s = b) then Some s else None
  | None => None
  end.

Lemma utf8_decode_utf8 fuel s :
  Forall (λ c, is_scalar c) s → length s ≤ fuel → utf8_decode fuel (utf8 s) = Some s.
Proof.
  intros Hs. revert fuel. induction Hs as [|c s Hc _ IH]; intros fuel Hf; [by destruct fuel|].
  destruct fuel as [|fuel]; simpl in Hf; [lia|]. unfold utf8 in *. csimpl.
  pose proof (utf8_head_char c (s ≫= utf8_char) (is_scalar_lt c Hc)) as Hh.
  destruct (utf8_char c ++ (s ≫= utf8_char)) as [|x l] eqn:E; [done|].
  cbn [utf8_decode]. rewrite Hh. rewrite IH by lia. done.
Qed.

Lemma length_utf8_ge s : length s ≤ length (utf8 s).
Proof.
  rewrite length_utf8. unfold utf8_len. induction s as [|c s IH]; simpl; [lia|].
  assert (1 ≤ utf8_width c) by (unfold utf8_width; repeat case_match; lia). lia.
Qed.

Lemma from_utf8_utf8 s : Forall (λ c, is_scalar c) s → from_utf8 (utf8 s) = Some s.
Proof.
  intros Hs. unfold from_utf8. rewrite utf8_decode_utf8; [|done|apply length_utf8_ge].
  assert (forallb is_scalar s = true) as ->.
  { apply forallb_forall. intros c Hc%list_elem_of_In. eapply Forall_forall in Hs; [|done]. by apply Is_true_true. }
  by rewrite bool_decide_eq_true_2.
Qed.

Lemma from_utf8_Some b s : from_utf8 b = Some s → b = utf8 s ∧ Forall (λ c, is_scalar c) s.
Proof.
  unfold from_utf8. destruct (utf8_decode (length b) b) as [s'|]; [|done].
  destruct (forallb is_scalar s') eqn:Hf; simpl; [|done]. case_bool_decide as Hb; [|done].
  intros [= <-]. split; [done|]. rewrite forallb_forall in Hf. apply Forall_forall.
  intros c Hc%list_elem_of_In. apply Is_true_true. by apply Hf.
Qed.

(** ** ASCII *)

Lemma ascii_scalar c : (c < 128)%N → is_scalar c.
Proof. intros Hc. apply Is_true_true. unfold is_scalar. destruct (N.ltb_spec c 55296); [done|lia]. Qed.
Lemma utf8_ascii_id s : Forall (λ c, c < 128)%N s → utf8 s = s.
Proof.
  induction 1 as [|c s Hc _ IH]; [done|]. unfold utf8 in *. cbn [mbind list_bind]. rewrite IH. unfold utf8_char.
  by rewrite (proj2 (N.leb_le c 127)) by lia.
Qed.
Lemma from_utf8_ascii s : Forall (λ c, c < 128)%N s → from_utf8 s = Some s.
Proof.
  intros Hs. rewrite <-(utf8_ascii_id s) at 1 by done. apply from_utf8_utf8.
  eapply Forall_impl; [exact Hs|]. apply ascii_scalar.
Qed.
Lemma utf8_char_high c : (128 ≤ c)%N → Forall (λ b, 128 ≤ b)%N (utf8_char c).
Proof.
  intros Hc. unfold utf8_char. destruct (N.leb_spec c 127), (N.leb_spec c 2047), (N.leb_spec c 65535).
  all: repeat (apply Forall_cons; split; [cbv beta; zify; Z.to_euclidean_division_equations; lia|]); apply Forall_nil_2.
Qed.

(** ** [String::from_utf8_lossy]

    Each longest start of an encoding that goes wrong becomes one replacement
    character. *)
Definition continuation (b : N) : bool := ((128 <=? b) && (b <=? 191))%N.
Definition second_of_three (b0 b : N) : bool :=
  (if b0 =? 224 then (160 <=? b) && (b <=? 191)
   else if b0 =? 237 then (128 <=? b) && (b <=? 159) else continuation b)%N.
Definition second_of_four (b0 b : N) : bool :=
  (if b0 =? 240 then (144 <=? b) && (b <=? 191)
   else if b0 =? 244 then (128 <=? b) && (b <=? 143) else continuation b)%N.
Definition REPLACEMENT : N := 65533.
Fixpoint utf8_lossy (fuel : nat) (b : bytes) : ustr :=
  match fuel, b with
  | O, _ | _, [] => []
  | S fuel', b0 :: rest =>
      (if b0 <? 128 then b0 :: utf8_lossy fuel' rest
       else if (194 <=? b0) && (b0 <=? 223) then
         match rest with
         | b1 :: rest' =>
             if continuation b1 then (b0 - 192) * 64 + (b1 - 128) :: utf8_lossy fuel' rest'
             else REPLACEMENT :: utf8_lossy fuel' rest
         | [] => [REPLACEMENT]
         end
       else if (224 <=? b0) && (b0 <=? 239) then
         match rest with
         | b1 :: rest1 =>
             if second_of_three b0 b1 then
               match rest1 with
               | b2 :: rest2 =>
                   if continuation b2
                   then (b0 - 224) * 4096 + (b1 - 128) * 64 + (b2 - 128) :: utf8_lossy fuel' rest2
                   else REPLACEMENT :: utf8_lossy fuel' rest1
               | [] => [REPLACEMENT]
               end
             else REPLACEMENT :: utf8_lossy fuel' rest
         | [] => [REPLACEMENT]
         end
       else if (240 <=? b0) && (b0 <=? 244) then
         match rest with
         | b1 :: rest1 =>
             if second_of_four b0 b1 then
               match rest1 with
               | b2 :: rest2 =>
                   if continuation b2 then
                     match rest2 with
                     | b3 :: rest3 =>
                         if continuation b3
                         then (b0 - 240) * 262144 + (b1 - 128) * 4096 + (b2 - 128) * 64 + (b3 - 128)
                                :: utf8_lossy fuel' rest3
                         else REPLACEMENT :: utf8_lossy fuel' rest2
                     | [] => [REPLACEMENT]
                     end
                   else REPLACEMENT :: utf8_lossy fuel' rest1
               | [] => [REPLACEMENT]
               end
             else REPLACEMENT :: utf8_lossy fuel' rest
         | [] => [REPLACEMENT]
         end
       else REPLACEMENT :: utf8_lossy fuel' rest)%N
  end.
(** Every step takes a byte, so as many as there are bytes are enough. *)
Definition from_utf8_lossy (b : bytes) : ustr := utf8_lossy (length b) b.
