(* ===== verification/Net.v ===== *)
(** Addresses: how the standard library's [IpAddr] is read from a string, which
    addresses the web listener may bind ([bindable] of
    [src/src/daemon/web.rs]), and the URLs a pairing code may be offered at
    ([pairing_url] of [src/src/pairing.rs]).

    Which addresses the listener binds and which URLs a code is offered at. *)

From S2P Require Import Prelude Text.

(** ** [std::net::IpAddr] *)

Inductive IpAddr :=
  | V4 (a b c d : N)
  | V6 (segments : list N).
#[export] Instance IpAddr_eq_dec : EqDecision IpAddr.
Proof. solve_decision. Defined.

(** A parser of a prefix; the standard library's backtracks by not advancing. *)
Definition reader (A : Type) : Type := ustr → option (A * ustr).

Definition read_char (c : N) : reader unit := λ s,
  match s with c' :: s' => if (c' =? c)%N then Some ((), s') else None | [] => None end.

(** The digits in front, at most as many as the string has. *)
Fixpoint digits_in_front (radix : N) (s : ustr) : list N * ustr :=
  match s with
  | c :: s' =>
      match to_digit radix c with
      | Some d => let r := digits_in_front radix s' in (d :: r.1, r.2)
      | None => ([], s)
      end
  | [] => ([], [])
  end.

Definition read_number (radix : N) (max_digits : nat) (limit : N) (allow_zero_prefix : bool)
    : reader N := λ s,
  let '(ds, rest) := digits_in_front radix s in
  let value := foldl (λ acc d, radix * acc + d)%N 0%N ds in
  if (max_digits <? length ds) || (length ds =? 0) then None
  else if negb allow_zero_prefix && starts_with 48 s && (1 <? length ds) then None
  else if (value <=? limit)%N then Some (value, rest) else None.

(** What follows a separator, except in front. *)
Definition read_separated {A} (separator : N) (index : nat) (inner : reader A) : reader A := λ s,
  match index with
  | O => inner s
  | S _ => read_char separator s ≫= λ r, inner r.2
  end.

Definition read_octet (index : nat) : reader N :=
  read_separated 46 index (read_number 10 3 255 false).
Definition read_ipv4 : reader (N * N * N * N) := λ s,
  '(a, s) ← read_octet 0 s; '(b, s) ← read_octet 1 s;
  '(c, s) ← read_octet 2 s; '(d, s) ← read_octet 3 s;
  Some ((a, b, c, d), s).

(** The groups in front, at most [limit]; the flag says that the last two come
    from an IPv4 address. *)
Fixpoint read_groups (limit index : nat) (s : ustr) : list N * bool * ustr :=
  match limit with
  | O => ([], false, s)
  | S limit' =>
      match (if 1 <? limit then read_separated 58 index read_ipv4 s else None) with
      | Some ((a, b, c, d), s') => ([256 * a + b; 256 * c + d]%N, true, s')
      | None =>
          match read_separated 58 index (read_number 16 4 65535 true) s with
          | Some (group, s') =>
              let '(groups, v4, rest) := read_groups limit' (S index) s' in
              (group :: groups, v4, rest)
          | None => ([], false, s)
          end
      end
  end.

Definition read_ipv6 : reader (list N) := λ s,
  let '(head, head_ipv4, s) := read_groups 8 0 s in
  if length head =? 8 then Some (head, s)
  else if head_ipv4 then None
  else
    '(_, s) ← read_char 58 s; '(_, s) ← read_char 58 s;
    let '(tail, _, s) := read_groups (8 - (length head + 1)) 0 s in
    Some (head ++ repeat 0%N (8 - length head - length tail) ++ tail, s).

(** [str::parse::<IpAddr>]. *)
Definition parse_ip (s : ustr) : option IpAddr :=
  match read_ipv4 s with
  | Some ((a, b, c, d), []) => Some (V4 a b c d)
  | Some (_, _ :: _) => None
  | None => match read_ipv6 s with Some (segments, []) => Some (V6 segments) | _ => None end
  end.

(** *** [{}] of an address *)

Fixpoint hex_digits (fuel : nat) (n : N) (acc : ustr) : ustr :=
  match fuel with
  | O => acc
  | S fuel' =>
      let d := (n mod 16)%N in
      let acc' := (if d <? 10 then 48 + d else 87 + d)%N :: acc in
      if (n <? 16)%N then acc' else hex_digits fuel' (n / 16) acc'
  end.
(** [{:x}] of a segment: at most four digits. *)
Definition display_segment (n : N) : ustr := hex_digits 4 n [].

Fixpoint join (separator : ustr) (parts : list ustr) : ustr :=
  match parts with
  | [] => []
  | [part] => part
  | part :: parts' => part ++ separator ++ join separator parts'
  end.
Definition display_ipv4 (a b c d : N) : ustr := join (u ".") (display_N <$> [a; b; c; d]).

(** The first longest run of zeroes: where it starts and how long it is. *)
Fixpoint longest_zeros (index : nat) (segments : list N) (current longest : nat * nat) : nat * nat :=
  match segments with
  | [] => longest
  | segment :: rest =>
      if (segment =? 0)%N then
        let current := (if current.2 =? 0 then index else current.1, S current.2) in
        longest_zeros (S index) rest current (if longest.2 <? current.2 then current else longest)
      else longest_zeros (S index) rest (0, 0) longest
  end.

Definition display_segments (segments : list N) : ustr := join (u ":") (display_segment <$> segments).
Definition display_ip (ip : IpAddr) : ustr :=
  match ip with
  | V4 a b c d => display_ipv4 a b c d
  | V6 [0; 0; 0; 0; 0; 65535; ab; cd]%N =>
      u "::ffff:" ++ display_ipv4 (ab / 256) (ab mod 256) (cd / 256) (cd mod 256)
  | V6 segments =>
      let '(start, len) := longest_zeros 0 segments (0, 0) (0, 0) in
      if 1 <? len
      then display_segments (take start segments) ++ u "::"
           ++ display_segments (drop (start + len) segments)
      else display_segments segments
  end.

Definition is_loopback (ip : IpAddr) : bool :=
  match ip with
  | V4 a _ _ _ => (a =? 127)%N
  | V6 segments => bool_decide (segments = [0; 0; 0; 0; 0; 0; 0; 1]%N)
  end.

(** [Ipv4Addr::is_private] and [Ipv4Addr::is_link_local]. *)
Definition is_private_v4 (a b : N) : bool :=
  ((a =? 10) || ((a =? 172) && (16 <=? b) && (b <=? 31)) || ((a =? 192) && (b =? 168)))%N.
Definition is_link_local_v4 (a b : N) : bool := ((a =? 169) && (b =? 254))%N.

(** ** [bindable] *)

Definition bindable (address : IpAddr) : bool :=
  match address with
  | V4 a b _ _ =>
      is_loopback address || is_private_v4 a b || is_link_local_v4 a b
      || ((a =? 100) && (64 <=? b) && (b <? 128))%N
  | V6 segments =>
      is_loopback address
      || (N.land (default 0 (head segments)) 65024 =? 64512)%N
      || (N.land (default 0 (head segments)) 65472 =? 65152)%N
  end.

(** ** [pairing_url] *)

Definition reachable_privately (host : ustr) : bool :=
  let host := default host (last (split_on 64 host)) in
  let name :=
    match strip_prefix (u "[") host with
    | Some rest => default [] (head (split_on 93 rest))
    | None => default [] (head (split_on 58 host))
    end in
  if bool_decide (to_ascii_lowercase name = u "localhost")
     || has_suffix (u ".local") (to_ascii_lowercase name)
  then true
  else match parse_ip name with Some ip => bindable ip | None => false end.

Inductive UrlError := NoScheme | OtherScheme (scheme : ustr) | NoHost | CodeInClear | HasFragment.

Definition pairing_url (url : ustr) : result UrlError ustr :=
  let trimmed := trim url in
  '(scheme, rest) ← ok_or (split_once (u "://") trimmed) NoScheme;
  if negb (bool_decide (scheme = u "http") || bool_decide (scheme = u "https"))
  then Err (OtherScheme scheme)
  else
    let host := default [] (head (split_at (λ c, (c =? 47) || (c =? 63) || (c =? 35))%N rest)) in
    if bool_decide (host = []) then Err NoHost
    else if bool_decide (scheme = u "http") && negb (reachable_privately host)
    then Err CodeInClear
    else if contains 35 trimmed then Err HasFragment
    else Ok (trim_end_char slash trimmed).

(** The documented examples. *)
Example pairing_urls_accepted :
  is_ok <$> (pairing_url ∘ u <$> [
    "https://workstation.example.ts.net:8790"; "https://host.example"; "http://127.0.0.1:8790";
    "http://localhost:8790"; "http://192.168.1.42:8790"; "http://10.0.0.4:8790";
    "http://100.101.102.103:8790"; "http://[fd00::1]:8790"; "http://workstation.local:8790"]%string)
  = repeat true 9.
Proof. vm_compute. reflexivity. Qed.
Example pairing_urls_refused :
  pairing_url ∘ u <$> [
    "host.example:8790"; "ftp://host.example"; "http://host.example:8790";
    "http://93.184.216.34:8790"; "http://8.8.8.8"; "https://"; "https://host.example/#already"]%string
  = [Err NoScheme; Err (OtherScheme (u "ftp")); Err CodeInClear; Err CodeInClear; Err CodeInClear;
     Err NoHost; Err HasFragment].
Proof. vm_compute. reflexivity. Qed.
Example parse_ip_examples :
  parse_ip ∘ u <$> ["1.2.3.4"; "01.2.3.4"; "::"; "::ffff:1.2.3.4"; "1:2:3:4:5:6:7:8"; "1::8::9";
                    "fe80::1"; "1.2.3.4.5"; "1:2:3:4:5:6:7::"]%string
  = [Some (V4 1 2 3 4); None; Some (V6 [0; 0; 0; 0; 0; 0; 0; 0]%N);
     Some (V6 [0; 0; 0; 0; 0; 65535; 258; 772]%N); Some (V6 [1; 2; 3; 4; 5; 6; 7; 8]%N); None;
     Some (V6 [65152; 0; 0; 0; 0; 0; 0; 1]%N); None; Some (V6 [1; 2; 3; 4; 5; 6; 7; 0]%N)].
Proof. vm_compute. reflexivity. Qed.
Example display_ip_examples :
  (λ s, display_ip <$> parse_ip (u s)) <$> ["192.168.1.42"; "fd00::1"; "::1"; "::"; "1:0:0:2:0:0:0:3";
                                   "::ffff:1.2.3.4"; "1:2:3:4:5:6:7:8"]%string
  = (λ s, Some (u s)) <$> ["192.168.1.42"; "fd00::1"; "::1"; "::"; "1:0:0:2::3"; "::ffff:1.2.3.4";
                           "1:2:3:4:5:6:7:8"]%string.
Proof. vm_compute. reflexivity. Qed.

(** ** Segments *)

Lemma read_number_le radix digits limit zero s v rest :
  read_number radix digits limit zero s = Some (v, rest) → (v ≤ limit)%N.
Proof.
  unfold read_number. destruct (digits_in_front radix s) as [ds r].
  repeat case_match; try done. intros [= <- _]. by apply N.leb_le.
Qed.

Lemma read_separated_inv {A} separator index (inner : reader A) s r :
  read_separated separator index inner s = Some r → ∃ s', inner s' = Some r.
Proof.
  destruct index; simpl; [eauto|]. destruct (read_char separator s) as [[[] s']|]; simpl; [eauto|done].
Qed.

Lemma read_octet_le index s v rest : read_octet index s = Some (v, rest) → (v ≤ 255)%N.
Proof. intros [s' H]%read_separated_inv. by eapply read_number_le. Qed.

Lemma read_ipv4_le s a b c d rest :
  read_ipv4 s = Some ((a, b, c, d), rest) → (a ≤ 255 ∧ b ≤ 255 ∧ c ≤ 255 ∧ d ≤ 255)%N.
Proof.
  unfold read_ipv4.
  destruct (read_octet 0 s) as [[a' s1]|] eqn:Ea; cbn [mbind option_bind]; [|done].
  destruct (read_octet 1 s1) as [[b' s2]|] eqn:Eb; cbn [mbind option_bind]; [|done].
  destruct (read_octet 2 s2) as [[c' s3]|] eqn:Ec; cbn [mbind option_bind]; [|done].
  destruct (read_octet 3 s3) as [[d' s4]|] eqn:Ed; cbn [mbind option_bind]; [|done].
  intros [= <- <- <- <- <-]. repeat split; by eapply read_octet_le.
Qed.

Definition segment (n : N) : Prop := (n < 65536)%N.

Lemma read_groups_segments limit index s :
  let '(groups, _, _) := read_groups limit index s in Forall segment groups ∧ length groups ≤ limit.
Proof.
  revert index s. induction limit as [|limit IH]; intros index s; [by split|].
  cbn [read_groups].
  destruct (if 1 <? S limit then read_separated 58 index read_ipv4 s else None)
    as [[[[[a b] c] d] s']|] eqn:E4.
  - destruct (Nat.ltb_spec 1 (S limit)) as [Hl|]; [|done].
    apply read_separated_inv in E4 as [s0 (Ha & Hb & Hc & Hd)%read_ipv4_le].
    split; [|simpl; lia]. repeat constructor; unfold segment; lia.
  - destruct (read_separated 58 index (read_number 16 4 65535 true) s) as [[g s']|] eqn:Eg; [|by split; simpl; [|lia]].
    specialize (IH (S index) s'). destruct (read_groups limit (S index) s') as [[groups v4] rest].
    destruct IH as [? ?]. apply read_separated_inv in Eg as [s0 Hg%read_number_le].
    split; [constructor; [unfold segment; lia|done]|simpl; lia].
Qed.

Lemma parse_ip_segments s segments : parse_ip s = Some (V6 segments) → Forall segment segments.
Proof.
  unfold parse_ip. destruct (read_ipv4 s) as [[[[[a b] c] d] [|]]|]; [done..|].
  destruct (read_ipv6 s) as [[segs [|]]|] eqn:E; [|done..]. intros [= ->].
  revert E. unfold read_ipv6. pose proof (read_groups_segments 8 0 s) as H1.
  destruct (read_groups 8 0 s) as [[head v4] s1]. destruct H1 as [H1 Hlen].
  case_match; [by intros [= -> _]|]. destruct v4; [done|].
  destruct (read_char 58 s1) as [[[] s2]|]; simpl; [|done].
  destruct (read_char 58 s2) as [[[] s3]|]; simpl; [|done].
  pose proof (read_groups_segments (8 - (length head + 1)) 0 s3) as H2.
  destruct (read_groups (8 - (length head + 1)) 0 s3) as [[tail v4'] s4]. destruct H2 as [H2 _].
  intros [= <- _]. rewrite !Forall_app. split; [done|]. split; [|done].
  by apply Forall_forall; intros x ->%list_elem_of_In%repeat_spec.
Qed.

(** ** Private addresses *)

Definition in_block (lo hi n : N) : Prop := (lo ≤ n ≤ hi)%N.

(** Loopback, the private ranges of RFC 1918, link local, and the range shared
    by meshes; loopback, unique local and link local. *)
Definition private_ip (ip : IpAddr) : Prop :=
  match ip with
  | V4 a b _ _ =>
      (a = 127 ∨ a = 10 ∨ (a = 172 ∧ in_block 16 31 b) ∨ (a = 192 ∧ b = 168) ∨ (a = 169 ∧ b = 254) ∨
       (a = 100 ∧ in_block 64 127 b))%N
  | V6 segments =>
      segments = [0; 0; 0; 0; 0; 0; 0; 1]%N ∨
      ∃ first rest, segments = first :: rest ∧
        (in_block 64512 65023 first ∨ in_block 65152 65215 first)
  end.

(** Masking off the low [k] of 16 bits is dividing by [2^k]. *)
Lemma land_high n k m : N.land n (N.shiftl m k) = N.shiftl (N.land (N.shiftr n k) m) k.
Proof.
  apply N.bits_inj_iff. intros i. rewrite N.land_spec. destruct (N.lt_ge_cases i k) as [Hi|Hi].
  - rewrite !N.shiftl_spec_low by done. apply andb_false_r.
  - rewrite !N.shiftl_spec_high' by done. rewrite N.land_spec, N.shiftr_spec'.
    by rewrite N.sub_add by done.
Qed.

Lemma mask_spec k v n :
  (k ≤ 16)%N → segment n →
  N.land n (N.shiftl (N.ones (16 - k)) k) = N.shiftl v k ↔ (n / 2 ^ k = v)%N.
Proof.
  intros Hk Hn. rewrite land_high, N.land_ones, N.shiftr_div_pow2.
  assert (n / 2 ^ k < 2 ^ (16 - k))%N as Hlt.
  { apply N.Div0.div_lt_upper_bound. rewrite <-N.pow_add_r. by rewrite N.add_sub_assoc, N.add_comm, N.add_sub by done. }
  rewrite (N.mod_small _ _ Hlt). split; [|by intros ->]. rewrite !N.shiftl_mul_pow2.
  apply N.mul_cancel_r. apply N.pow_nonzero. done.
Qed.

Lemma unique_local n : segment n → (N.land n 65024 =? 64512)%N = true ↔ in_block 64512 65023 n.
Proof.
  intros Hn. rewrite N.eqb_eq. change 65024%N with (N.shiftl (N.ones (16 - 9)) 9).
  change 64512%N with (N.shiftl 126 9) at 1. rewrite mask_spec by done. change (2 ^ 9)%N with 512%N.
  unfold in_block. split; intros H.
  - pose proof (N.div_mod n 512 ltac:(done)) as Hd. pose proof (N.mod_lt n 512 ltac:(done)) as Hm.
    rewrite H in Hd. generalize dependent (n mod 512)%N. lia.
  - symmetry. apply (N.div_unique n 512 126 (n - 64512)); lia.
Qed.
Lemma link_local n : segment n → (N.land n 65472 =? 65152)%N = true ↔ in_block 65152 65215 n.
Proof.
  intros Hn. rewrite N.eqb_eq. change 65472%N with (N.shiftl (N.ones (16 - 6)) 6).
  change 65152%N with (N.shiftl 1018 6) at 1. rewrite mask_spec by done. change (2 ^ 6)%N with 64%N.
  unfold in_block. split; intros H.
  - pose proof (N.div_mod n 64 ltac:(done)) as Hd. pose proof (N.mod_lt n 64 ltac:(done)) as Hm.
    rewrite H in Hd. generalize dependent (n mod 64)%N. lia.
  - symmetry. apply (N.div_unique n 64 1018 (n - 65152)); lia.
Qed.

Lemma bindable_private ip :
  match ip with V6 segments => Forall segment segments | _ => True end →
  bindable ip = true ↔ private_ip ip.
Proof.
  destruct ip as [a b c d|segments]; cbn [bindable private_ip is_loopback].
  - intros _. unfold is_private_v4, is_link_local_v4, in_block.
    rewrite !orb_true_iff, !andb_true_iff, !N.eqb_eq, !N.leb_le, N.ltb_lt. lia.
  - intros Hs. rewrite !orb_true_iff, bool_decide_eq_true. destruct Hs as [|first rest Hf _].
    + simpl. split; [|intros [|(? & ? & ? & _)]; done]. intros [[?|?]|?]; done.
    + cbn [head default]. rewrite unique_local, link_local by done. naive_solver.
Qed.

(** ** URLs *)

(** The part of an authority that names a host. *)
Definition host_name (host : ustr) : ustr :=
  let host := default host (last (split_on 64 host)) in
  match strip_prefix (u "[") host with
  | Some rest => default [] (head (split_on 93 rest))
  | None => default [] (head (split_on 58 host))
  end.
Definition private_host (host : ustr) : Prop :=
  to_ascii_lowercase (host_name host) = u "localhost" ∨
  has_suffix (u ".local") (to_ascii_lowercase (host_name host)) = true ∨
  ∃ ip, parse_ip (host_name host) = Some ip ∧ private_ip ip.

Lemma reachable_privately_spec host : reachable_privately host = true ↔ private_host host.
Proof.
  unfold reachable_privately, private_host. fold (host_name host).
  destruct (bool_decide _ || _) eqn:E.
  - split; [|done]. intros _. apply orb_true_iff in E as [?%bool_decide_eq_true|?]; auto.
  - apply orb_false_iff in E as [Hn%bool_decide_eq_false Hs].
    destruct (parse_ip (host_name host)) as [ip|] eqn:Ei.
    + rewrite bindable_private; [naive_solver congruence|].
      destruct ip; [done|]. by eapply parse_ip_segments.
    + naive_solver congruence.
Qed.

(** The authority of what follows the scheme. *)
Definition authority (rest : ustr) : ustr :=
  default [] (head (split_at (λ c, (c =? 47) || (c =? 63) || (c =? 35))%N rest)).

(** A pairing code is only ever offered at a URL that keeps it from the
    open network: it is accepted exactly when it is [https] with a host, or
    [http] with a host that is this machine, a [.local] name or an address that
    the web listener would bind, all of which are private ranges; and when it
    has no fragment. What is handed back is the URL without surrounding blanks
    and final slashes. *)
Theorem pairing_url_safe (url base : ustr) :
  pairing_url url = Ok base ↔
  35%N ∉ trim url ∧ base = trim_end_char slash (trim url) ∧
  ∃ scheme rest, split_once (u "://") (trim url) = Some (scheme, rest) ∧ authority rest ≠ [] ∧
    (scheme = u "https" ∨ scheme = u "http" ∧ private_host (authority rest)).
Proof.
  unfold pairing_url. setoid_rewrite <-reachable_privately_spec.
  destruct (split_once (u "://") (trim url)) as [[scheme rest]|]; cbn [ok_or mbind result_bind];
    [|naive_solver].
  fold (authority rest). assert (u "https" ≠ u "http") as Hne by done.
  transitivity (35%N ∉ trim url ∧ base = trim_end_char slash (trim url) ∧ authority rest ≠ [] ∧
    (scheme = u "https" ∨ scheme = u "http" ∧ reachable_privately (authority rest) = true));
    [|naive_solver].
  generalize dependent (authority rest). intros host. generalize dependent (u "https").
  generalize dependent (u "http"). intros http https Hne. unfold contains.
  destruct (reachable_privately host); repeat (case_bool_decide; simpl); naive_solver.
Qed.

Example private_host_example : bindable (V4 192 168 1 4) = true ∧ private_host (u "192.168.1.4:8790").
Proof. split; [done|]. by apply reachable_privately_spec. Qed.
