(* ===== verification/Config.v ===== *)
(** Configuration: [src/src/config.rs].

    The records the rest of the program reads, the rules of the [web] table, and
    the checks [Config::validate] makes, in the order the source makes them. *)

From S2P Require Import Prelude Text Net Model.

Definition MAX_QUICK_REPLIES : nat := 8.
Definition MAX_TARGET_ROOTS : nat := 8.
Definition MAX_TARGET_TAGS : nat := 8.
Definition MAX_TAG_CHARACTERS : nat := 24.
Definition MAX_QUICK_REPLY_LABEL_CHARACTERS : nat := 24.
Definition MAX_QUICK_REPLY_SEND_BYTES : nat := 256.

Record QuickReply := {
  qr_label : ustr; qr_send : ustr; qr_submit : bool; qr_confirm : bool;
}.
#[export] Instance QuickReply_eq_dec : EqDecision QuickReply.
Proof. solve_decision. Defined.

Definition QuickReply_new (label send : ustr) : QuickReply :=
  {| qr_label := label; qr_send := send; qr_submit := true; qr_confirm := false |}.

Definition default_quick_replies : list QuickReply :=
  [ QuickReply_new (u "Yes") (u "y"); QuickReply_new (u "No") (u "n");
    QuickReply_new (u "Continue") (u "continue"); QuickReply_new (u "Retry") (u "retry") ].

Record TransportConfig := {
  ssh_bin : ustr;
  batch_mode : bool;
  connect_timeout_seconds : N;
  transport_command_timeout_seconds : N;
}.
#[export] Instance TransportConfig_eq_dec : EqDecision TransportConfig.
Proof. solve_decision. Defined.

Definition TransportConfig_default : TransportConfig := {|
  ssh_bin := u "ssh"; batch_mode := true;
  connect_timeout_seconds := 10; transport_command_timeout_seconds := 20;
|}.

Record NotificationsConfig := {
  enabled : bool;
  needs_attention : bool;
  completed : bool;
  disappeared : bool;
  working : bool;
  status_changed : bool;
  devices : bool;
  minimum_interval_seconds : N;
  command_timeout_seconds : N;
}.
#[export] Instance NotificationsConfig_eq_dec : EqDecision NotificationsConfig.
Proof. solve_decision. Defined.

Definition NotificationsConfig_default : NotificationsConfig := {|
  enabled := false; needs_attention := true; completed := true; disappeared := true;
  working := false; status_changed := false; devices := false;
  minimum_interval_seconds := 5; command_timeout_seconds := 5;
|}.

(** ** Transfers, devices and the browser client *)

Record TransferConfig := { max_bytes : N }.
#[export] Instance TransferConfig_eq_dec : EqDecision TransferConfig.
Proof. solve_decision. Defined.
(** One gibibyte. *)
Definition TransferConfig_default : TransferConfig := {| max_bytes := 1024 * 1024 * 1024 |}.

Record Device := { dev_name : ustr; token_sha256 : ustr; paired_at_ms : N }.
#[export] Instance Device_eq_dec : EqDecision Device.
Proof. solve_decision. Defined.

Definition DEFAULT_BRIDGE_URL : ustr := u "https://super-herdr.key-value.co".
Definition DEFAULT_WEB_PORT : N := 8790.

Record WebConfig := {
  web_port : option N;
  web_address : option IpAddr;
  web_url : option ustr;
  web_bridge : bool;
}.
#[export] Instance WebConfig_eq_dec : EqDecision WebConfig.
Proof. solve_decision. Defined.
Definition WebConfig_default : WebConfig :=
  {| web_port := Some DEFAULT_WEB_PORT; web_address := None; web_url := None; web_bridge := true |}.

Definition hosted_bridge_requested (w : WebConfig) : bool :=
  if bool_decide (is_Some (web_address w)) then false
  else match web_url w with
       | Some url => bool_decide (trim_end_char slash (trim url) = DEFAULT_BRIDGE_URL)
       | None => web_bridge w
       end.

Definition served_port (w : WebConfig) : option N :=
  port ← web_port w; if (port =? 0)%N then None else Some port.

Definition scannable_url_from (w : WebConfig) (detected : option IpAddr) : option ustr :=
  match web_url w with
  | Some url => Some url
  | None =>
      port ← served_port w;
      address ← or_else (web_address w) detected;
      if is_loopback address || negb (bindable address) then None
      else Some (u "http://"
                 ++ match address with
                    | V4 _ _ _ _ => display_ip address
                    | V6 _ => u "[" ++ display_ip address ++ u "]"
                    end
                 ++ u ":" ++ display_N port)
  end.

Definition bind_address_from (w : WebConfig) (detected : option IpAddr) : option IpAddr :=
  _ ← served_port w;
  or_else (web_address w) (if bool_decide (web_url w = None) then detected else None).

Record Target := {
  tgt_name : ustr;
  tgt_ssh : option ustr;
  tgt_discover_sessions : bool;
  tgt_session : option ustr;
  tgt_socket : option ustr;
  tgt_herdr_bins : list ustr;
  tgt_tags : list ustr;
  tgt_roots : list ustr;
}.
#[export] Instance Target_eq_dec : EqDecision Target.
Proof. solve_decision. Defined.

Definition target_endpoint (t : Target) : ustr := default (u "local") (tgt_ssh t).
Definition session_name (t : Target) : ustr := default (u "default") (tgt_session t).

(** ** Validation *)

Inductive ConfigError :=
  | NoTargets
  | EmptySshBin
  | BadWebUrl (error : UrlError)
  | NoWebPort
  | ZeroConnectTimeout
  | ZeroCommandTimeout
  | NotificationInterval
  | NotificationTimeout
  | TooManyQuickReplies
  | QuickReplyLabel
  | QuickReplySendLength (label : ustr)
  | QuickReplySendControl (label : ustr)
  | TargetName
  | DuplicateTarget (name : ustr)
  | EmptyHerdrBin (name : ustr)
  | TooManyTags (name : ustr)
  | BadTag (name : ustr)
  | TooManyRoots (name : ustr)
  | BadRoot (name : ustr)
  | BadSshDestination (name : ustr)
  | BadSession (name : ustr)
  | BadSocket (name : ustr)
  | SocketForwarding (name : ustr).

Abbreviation check := (result ConfigError unit).
Definition bail_if (c : bool) (e : ConfigError) : check := if c then Err e else Ok ().

(** Run a check on every element, stopping at the first refusal. *)
Fixpoint check_all {A} (f : A → check) (l : list A) : check :=
  match l with
  | [] => Ok ()
  | a :: l' => f a ≫= λ _, check_all f l'
  end.

Definition validate_transport (t : TransportConfig) : check :=
  bail_if (bool_decide (trim (ssh_bin t) = [])) EmptySshBin ≫= λ _,
  bail_if (connect_timeout_seconds t =? 0)%N ZeroConnectTimeout ≫= λ _,
  bail_if (transport_command_timeout_seconds t =? 0)%N ZeroCommandTimeout.

Definition validate_web (w : WebConfig) : check :=
  match web_url w with
  | Some url => match pairing_url url with Ok _ => Ok () | Err e => Err (BadWebUrl e) end
  | None => Ok ()
  end ≫= λ _,
  bail_if (bool_decide (served_port w = None)
           && (bool_decide (is_Some (web_url w)) || bool_decide (is_Some (web_address w)))) NoWebPort.

Definition validate_notifications (n : NotificationsConfig) : check :=
  bail_if ((minimum_interval_seconds n =? 0) || (3600 <? minimum_interval_seconds n))%N
          NotificationInterval ≫= λ _,
  bail_if ((command_timeout_seconds n =? 0) || (30 <? command_timeout_seconds n))%N
          NotificationTimeout.

Definition validate_quick_reply (reply : QuickReply) : check :=
  let label := trim (qr_label reply) in
  bail_if (bool_decide (label = [])
           || (MAX_QUICK_REPLY_LABEL_CHARACTERS <? length label)
           || existsb is_control label) QuickReplyLabel ≫= λ _,
  bail_if (bool_decide (qr_send reply = [])
           || (MAX_QUICK_REPLY_SEND_BYTES <? utf8_len (qr_send reply)))
          (QuickReplySendLength label) ≫= λ _,
  bail_if (existsb is_control (qr_send reply)) (QuickReplySendControl label).

Definition validate_quick_replies (replies : option (list QuickReply)) : check :=
  match replies with
  | None => Ok ()
  | Some replies =>
      bail_if (MAX_QUICK_REPLIES <? length replies) TooManyQuickReplies ≫= λ _,
      check_all validate_quick_reply replies
  end.

Definition validate_tag (name : ustr) (tag : ustr) : check :=
  bail_if (bool_decide (tag = [])
           || (MAX_TAG_CHARACTERS <? length tag)
           || existsb (λ c, is_control c || is_whitespace c || (c =? 44)%N) tag) (BadTag name).

Definition validate_root (name : ustr) (root : ustr) : check :=
  bail_if (negb (starts_with slash root)
           || existsb is_control root
           || existsb (λ part, bool_decide (part = u "..")) (split_on slash root)) (BadRoot name).

Definition validate_ssh (name : ustr) (ssh : option ustr) : check :=
  match ssh with
  | None => Ok ()
  | Some d =>
      bail_if (bool_decide (d = []) || starts_with 45 d
               || existsb is_whitespace d || existsb is_control d) (BadSshDestination name)
  end.

Definition validate_session (name : ustr) (session : option ustr) : check :=
  match session with
  | None => Ok ()
  | Some s =>
      bail_if (bool_decide (s = []) || contains slash s || existsb is_control s)
              (BadSession name)
  end.

Definition validate_socket (name : ustr) (ssh socket : option ustr) : check :=
  match socket with
  | None => Ok ()
  | Some s =>
      bail_if (bool_decide (s = []) || negb (starts_with slash s) || existsb is_control s)
              (BadSocket name) ≫= λ _,
      bail_if (bool_decide (is_Some ssh) && contains 58 s) (SocketForwarding name)
  end.

Definition validate_target (names : list ustr) (t : Target) : check :=
  let name := tgt_name t in
  bail_if (bool_decide (trim name = []) || contains slash name || existsb is_control name)
          TargetName ≫= λ _,
  bail_if (bool_decide (name ∈ names)) (DuplicateTarget name) ≫= λ _,
  bail_if (bool_decide (tgt_herdr_bins t = [])
           || existsb (λ b, bool_decide (trim b = [])) (tgt_herdr_bins t))
          (EmptyHerdrBin name) ≫= λ _,
  bail_if (MAX_TARGET_TAGS <? length (tgt_tags t)) (TooManyTags name) ≫= λ _,
  check_all (validate_tag name) (tgt_tags t) ≫= λ _,
  bail_if (MAX_TARGET_ROOTS <? length (tgt_roots t)) (TooManyRoots name) ≫= λ _,
  check_all (validate_root name) (tgt_roots t) ≫= λ _,
  validate_ssh name (tgt_ssh t) ≫= λ _,
  validate_session name (tgt_session t) ≫= λ _,
  validate_socket name (tgt_ssh t) (tgt_socket t).

(** The loop over the targets; [names] holds the names already inserted. *)
Fixpoint validate_targets (names : list ustr) (ts : list Target) : check :=
  match ts with
  | [] => Ok ()
  | t :: ts' => validate_target names t ≫= λ _, validate_targets (tgt_name t :: names) ts'
  end.

Record Config := {
  cfg_transport : TransportConfig;
  cfg_notifications : NotificationsConfig;
  cfg_quick_replies : option (list QuickReply);
  cfg_transfers : TransferConfig;
  cfg_web : WebConfig;
  cfg_devices : list Device;
  cfg_targets : list Target;
}.
#[export] Instance Config_eq_dec : EqDecision Config.
Proof. solve_decision. Defined.

Definition validate (c : Config) : check :=
  bail_if (bool_decide (cfg_targets c = [])) NoTargets ≫= λ _,
  validate_transport (cfg_transport c) ≫= λ _,
  validate_web (cfg_web c) ≫= λ _,
  validate_notifications (cfg_notifications c) ≫= λ _,
  validate_quick_replies (cfg_quick_replies c) ≫= λ _,
  validate_targets [] (cfg_targets c).

(** ** What a validated configuration guarantees *)

Lemma bail_if_ok c e : bail_if c e = Ok () ↔ c = false.
Proof. unfold bail_if. destruct c; naive_solver. Qed.

Lemma check_bind (r : check) (k : unit → check) :
  (r ≫= k) = Ok () ↔ r = Ok () ∧ k () = Ok ().
Proof. destruct r as [[]|]; simpl; naive_solver. Qed.

Lemma check_all_ok {A} (f : A → check) l :
  check_all f l = Ok () ↔ ∀ a, a ∈ l → f a = Ok ().
Proof.
  induction l as [|a l IH]; simpl.
  - split; [by intros _ a ?%elem_of_nil|done].
  - rewrite check_bind, IH. setoid_rewrite elem_of_cons. naive_solver.
Qed.

Create Rewrite HintDb herdr_check.
#[export] Hint Rewrite check_bind bail_if_ok orb_false_iff andb_false_iff : herdr_check.
