(* ===== verification/State.v ===== *)
(** Federation state: [src/src/state.rs].

    The normalized snapshot of one Herdr session, the runtime state the daemon
    keeps per target, the functions that record what a supervisor observed, and
    the supervisor's own loop as a step function over the outcomes of its
    awaits. Normalization reads a JSON value through [JsonValue]. *)

From S2P Require Import Prelude Model Json Config.

(** ** Data *)

Record ResourceCounts := {
  count_workspaces : nat; count_tabs : nat; count_panes : nat; count_agents : nat;
}.

Record WorkspaceState := {
  ws_id : WorkspaceId;
  ws_active_tab : option TabId;
  ws_label : option ustr;
  ws_number : option N;
  ws_focused : bool;
  ws_agent_status : option ustr;
}.

Record TabState := {
  tab_id : TabId;
  tab_workspace : option WorkspaceId;
  tab_label : option ustr;
  tab_number : option N;
  tab_focused : bool;
  tab_agent_status : option ustr;
}.

Record PaneState := {
  pane_id : PaneId;
  pane_workspace : option WorkspaceId;
  pane_tab : option TabId;
  pane_terminal : option TerminalId;
  pane_label : option ustr;
  pane_focused : bool;
  pane_agent : option ustr;
  pane_agent_status : option ustr;
  pane_revision : option N;
}.

Record LayoutRect := { rect_x : N; rect_y : N; rect_width : N; rect_height : N }.

Record LayoutPane := { lp_pane : PaneId; lp_focused : bool; lp_rect : LayoutRect }.

Record LayoutState := {
  layout_workspace : WorkspaceId;
  layout_tab : TabId;
  layout_zoomed : bool;
  layout_area : LayoutRect;
  layout_focused_pane : PaneId;
  layout_panes : list LayoutPane;
}.

(** The separator between the parts of an agent key: [U+001F]. *)
Definition AGENT_KEY_SEPARATOR : N := 31.

Definition MAX_AGENT_SESSION_FIELD_BYTES : nat := 256.

Record AgentSessionRef := {
  as_source : ustr; as_agent : ustr; as_kind : ustr; as_value : ustr;
}.

Record AgentState := {
  ag_pane : PaneId;
  ag_name : option ustr;
  ag_agent : option ustr;
  ag_status : option ustr;
  ag_interactive_ready : option bool;
  ag_revision : option N;
  ag_session : option AgentSessionRef;
}.

Record NormalizedSnapshot := {
  server_version : option ustr;
  protocol : option N;
  revision : option N;
  capabilities : gset ustr;
  counts : ResourceCounts;
  focused_workspace : option WorkspaceId;
  focused_tab : option TabId;
  focused_pane : option PaneId;
  workspaces : gmap WorkspaceId WorkspaceState;
  tabs : gmap TabId TabState;
  panes : gmap PaneId PaneState;
  layouts : gmap TabId LayoutState;
  agents : gmap PaneId AgentState;
  terminals : gset TerminalId;
}.

Inductive TargetConnectionState :=
  | Connecting
  | Live
  | Backoff (attempt : N)
  | Incompatible.

Inductive TargetUpdateMode := Polling | Events.

(** A [SystemTime] is its distance from the epoch in nanoseconds. *)
Abbreviation SystemTime := N (only parsing).

Record TargetRuntimeState := {
  key : TargetSession;
  endpoint : ustr;
  connection : TargetConnectionState;
  update_mode : TargetUpdateMode;
  event_error : option ustr;
  connection_generation : N;
  selected_herdr_bin : option ustr;
  roots : list ustr;
  snapshot : option NormalizedSnapshot;
  last_error : option ustr;
  last_success : option SystemTime;
  retry_at : option SystemTime;
}.

Record FederationState := {
  fed_revision : N;
  targets : gmap TargetSession TargetRuntimeState;
}.

#[export] Instance ResourceCounts_eq_dec : EqDecision ResourceCounts.
Proof. solve_decision. Defined.
#[export] Instance WorkspaceState_eq_dec : EqDecision WorkspaceState.
Proof. solve_decision. Defined.
#[export] Instance TabState_eq_dec : EqDecision TabState.
Proof. solve_decision. Defined.
#[export] Instance PaneState_eq_dec : EqDecision PaneState.
Proof. solve_decision. Defined.
#[export] Instance LayoutRect_eq_dec : EqDecision LayoutRect.
Proof. solve_decision. Defined.
#[export] Instance LayoutPane_eq_dec : EqDecision LayoutPane.
Proof. solve_decision. Defined.
#[export] Instance LayoutState_eq_dec : EqDecision LayoutState.
Proof. solve_decision. Defined.
#[export] Instance AgentSessionRef_eq_dec : EqDecision AgentSessionRef.
Proof. solve_decision. Defined.
#[export] Instance AgentState_eq_dec : EqDecision AgentState.
Proof. solve_decision. Defined.
#[export] Instance NormalizedSnapshot_eq_dec : EqDecision NormalizedSnapshot.
Proof. solve_decision. Defined.
#[export] Instance TargetConnectionState_eq_dec : EqDecision TargetConnectionState.
Proof. solve_decision. Defined.
#[export] Instance TargetUpdateMode_eq_dec : EqDecision TargetUpdateMode.
Proof. solve_decision. Defined.
#[export] Instance TargetRuntimeState_eq_dec : EqDecision TargetRuntimeState.
Proof. solve_decision. Defined.
#[export] Instance FederationState_eq_dec : EqDecision FederationState.
Proof. solve_decision. Defined.

Definition FederationState_default : FederationState :=
  {| fed_revision := 0; targets := ∅ |}.

(** ** Keyed maps on the wire

    [keyed_map] sends the values alone and rebuilds the keys on arrival. *)

Class Keyed (K V : Type) := wire_key : V → K.
#[export] Instance WorkspaceState_keyed : Keyed WorkspaceId WorkspaceState := ws_id.
#[export] Instance TabState_keyed : Keyed TabId TabState := tab_id.
#[export] Instance PaneState_keyed : Keyed PaneId PaneState := pane_id.
#[export] Instance LayoutState_keyed : Keyed TabId LayoutState := layout_tab.
#[export] Instance AgentState_keyed : Keyed PaneId AgentState := ag_pane.
#[export] Instance TargetRuntimeState_keyed : Keyed TargetSession TargetRuntimeState := key.

Definition keyed_serialize {K V} `{OrdLaws K} `{Countable K} (m : gmap K V) : list V :=
  values m.
Definition keyed_deserialize {K V} `{Countable K} `{Keyed K V} (l : list V) : gmap K V :=
  collect_map ((λ v, (wire_key v, v)) <$> l).

(** Every value sits under the key it carries. *)
Definition keyed {K V} `{Countable K} `{Keyed K V} (m : gmap K V) : Prop :=
  ∀ k v, m !! k = Some v → wire_key v = k.

(** ** Normalization of a snapshot *)

Section normalize.
Context {V : Type} `{JsonValue V}.

Definition qualified {k} (target : TargetSession) (resource : ustr) : QualifiedId k :=
  QualifiedId_new (ts_target target) (ts_session target) resource.

Definition qualified_field {k} (item : V) (field : ustr) (target : TargetSession)
    : option (QualifiedId k) :=
  qualified target <$> (json_get item field ≫= as_str).

Definition qualified_id {k} (value : V) (id_key : ustr) (target : TargetSession)
    : option (QualifiedId k) :=
  qualified_field value id_key target.

Definition qualified_ids {k} (value : V) (coll id_key : ustr) (target : TargetSession)
    : gset (QualifiedId k) :=
  list_to_set (omap (λ item, qualified_field item id_key target) (collection value coll)).

Definition workspace_state (target : TargetSession) (item : V)
    : option (WorkspaceId * WorkspaceState) :=
  id ← qualified_field item (u "workspace_id") target;
  Some (id, {|
    ws_id := id;
    ws_active_tab := qualified_field item (u "active_tab_id") target;
    ws_label := optional_string item (u "label");
    ws_number := optional_u64 item (u "number");
    ws_focused := default false (optional_bool item (u "focused"));
    ws_agent_status := optional_string item (u "agent_status");
  |}).

Definition workspace_states (snap : V) (target : TargetSession) : gmap WorkspaceId WorkspaceState :=
  collect_map (omap (workspace_state target) (collection snap (u "workspaces"))).

Definition tab_state (target : TargetSession) (item : V) : option (TabId * TabState) :=
  id ← qualified_field item (u "tab_id") target;
  Some (id, {|
    tab_id := id;
    tab_workspace := qualified_field item (u "workspace_id") target;
    tab_label := optional_string item (u "label");
    tab_number := optional_u64 item (u "number");
    tab_focused := default false (optional_bool item (u "focused"));
    tab_agent_status := optional_string item (u "agent_status");
  |}).

Definition tab_states (snap : V) (target : TargetSession) : gmap TabId TabState :=
  collect_map (omap (tab_state target) (collection snap (u "tabs"))).

Definition pane_state (target : TargetSession) (item : V) : option (PaneId * PaneState) :=
  id ← qualified_field item (u "pane_id") target;
  Some (id, {|
    pane_id := id;
    pane_workspace := qualified_field item (u "workspace_id") target;
    pane_tab := qualified_field item (u "tab_id") target;
    pane_terminal := qualified_field item (u "terminal_id") target;
    pane_label := optional_string item (u "label");
    pane_focused := default false (optional_bool item (u "focused"));
    pane_agent := optional_string item (u "agent");
    pane_agent_status := optional_string item (u "agent_status");
    pane_revision := optional_u64 item (u "revision");
  |}).

Definition pane_states (snap : V) (target : TargetSession) : gmap PaneId PaneState :=
  collect_map (omap (pane_state target) (collection snap (u "panes"))).

(** [u16::try_from]. *)
Definition u16_try_from (n : N) : option N := if (n <=? u16_max)%N then Some n else None.

Definition layout_rect (value : V) : option LayoutRect :=
  x ← optional_u64 value (u "x") ≫= u16_try_from;
  y ← optional_u64 value (u "y") ≫= u16_try_from;
  width ← optional_u64 value (u "width") ≫= u16_try_from;
  height ← optional_u64 value (u "height") ≫= u16_try_from;
  Some {| rect_x := x; rect_y := y; rect_width := width; rect_height := height |}.

Definition layout_pane (target : TargetSession) (pane : V) : option LayoutPane :=
  id ← qualified_field pane (u "pane_id") target;
  rect ← json_get pane (u "rect") ≫= layout_rect;
  Some {| lp_pane := id;
          lp_focused := default false (optional_bool pane (u "focused"));
          lp_rect := rect |}.

Definition layout_state (target : TargetSession) (item : V) : option (TabId * LayoutState) :=
  workspace ← qualified_field item (u "workspace_id") target;
  tab ← qualified_field item (u "tab_id") target;
  focused_pane ← qualified_field item (u "focused_pane_id") target;
  area ← json_get item (u "area") ≫= layout_rect;
  Some (tab, {|
    layout_workspace := workspace;
    layout_tab := tab;
    layout_zoomed := default false (optional_bool item (u "zoomed"));
    layout_area := area;
    layout_focused_pane := focused_pane;
    layout_panes := omap (layout_pane target) (collection item (u "panes"));
  |}).

Definition layout_states (snap : V) (target : TargetSession) : gmap TabId LayoutState :=
  collect_map (omap (layout_state target) (collection snap (u "layouts"))).

Definition bounded_identity (value : ustr) : option ustr :=
  if negb (bool_decide (value = []))
     && (utf8_len value <=? MAX_AGENT_SESSION_FIELD_BYTES)
     && negb (bool_decide (AGENT_KEY_SEPARATOR ∈ value))
     && negb (existsb is_control value)
  then Some value else None.

Definition identity_field (value : V) (field : ustr) : option ustr :=
  optional_string value field ≫= bounded_identity.

Definition agent_session_fields (value : V) : option AgentSessionRef :=
  source ← identity_field value (u "source");
  agent ← identity_field value (u "agent");
  kind ← identity_field value (u "kind");
  val ← identity_field value (u "value");
  Some {| as_source := source; as_agent := agent; as_kind := kind; as_value := val |}.

Definition agent_session (value : option V) : option AgentSessionRef :=
  value ≫= agent_session_fields.

Definition agent_state (target : TargetSession) (item : V) : option (PaneId * AgentState) :=
  pane ← qualified_field item (u "pane_id") target;
  Some (pane, {|
    ag_pane := pane;
    ag_name := optional_string item (u "name");
    ag_agent := optional_string item (u "agent");
    ag_status := optional_string item (u "agent_status");
    ag_interactive_ready := optional_bool item (u "interactive_ready");
    ag_revision := optional_u64 item (u "revision");
    ag_session := agent_session (json_get item (u "agent_session"));
  |}).

Definition agent_states (snap : V) (target : TargetSession) : gmap PaneId AgentState :=
  collect_map (omap (agent_state target) (collection snap (u "agents"))).

Definition capability_names (value : option V) : gset ustr :=
  match value with
  | None => ∅
  | Some value =>
      match as_array value, as_object value with
      | Some vs, _ => list_to_set (omap as_str vs)
      | None, Some kvs =>
          list_to_set
            (kv ← kvs; if default (negb (is_null kv.2)) (as_bool kv.2) then [kv.1] else [])
      | None, None => ∅
      end
  end.

Definition snapshot_from_value (target : TargetSession) (snap : V) : NormalizedSnapshot := {|
  server_version := json_get snap (u "version") ≫= as_str;
  protocol := json_get snap (u "protocol") ≫= as_u64;
  revision := json_get snap (u "revision") ≫= as_u64;
  capabilities := capability_names (json_get snap (u "capabilities"));
  counts := {|
    count_workspaces := array_len snap (u "workspaces");
    count_tabs := array_len snap (u "tabs");
    count_panes := array_len snap (u "panes");
    count_agents := array_len snap (u "agents");
  |};
  focused_workspace := qualified_id snap (u "focused_workspace_id") target;
  focused_tab := qualified_id snap (u "focused_tab_id") target;
  focused_pane := qualified_id snap (u "focused_pane_id") target;
  workspaces := workspace_states snap target;
  tabs := tab_states snap target;
  panes := pane_states snap target;
  layouts := layout_states snap target;
  agents := agent_states snap target;
  terminals := qualified_ids snap (u "panes") (u "terminal_id") target;
|}.

Definition snapshot_pane_ids (snap : V) : list ustr :=
  omap (λ pane, json_get pane (u "pane_id") ≫= as_str) (collection snap (u "panes")).
End normalize.

(** ** Runtime state of one target *)

(** Whether two states differ in a way a client could act on: everything but
    the two clocks. *)
Definition differs_for_clients (self other : TargetRuntimeState) : bool :=
  negb (bool_decide (key self = key other))
  || negb (bool_decide (endpoint self = endpoint other))
  || negb (bool_decide (connection self = connection other))
  || negb (bool_decide (update_mode self = update_mode other))
  || negb (bool_decide (event_error self = event_error other))
  || negb (bool_decide (connection_generation self = connection_generation other))
  || negb (bool_decide (selected_herdr_bin self = selected_herdr_bin other))
  || negb (bool_decide (roots self = roots other))
  || negb (bool_decide (snapshot self = snapshot other))
  || negb (bool_decide (last_error self = last_error other)).

Definition target_key (t : Target) : TargetSession :=
  TargetSession_new (tgt_name t) (session_name t).

Definition TargetRuntimeState_new (t : Target) : TargetRuntimeState := {|
  key := target_key t;
  endpoint := target_endpoint t;
  connection := Connecting;
  update_mode := Polling;
  event_error := None;
  connection_generation := 0;
  selected_herdr_bin := None;
  roots := tgt_roots t;
  snapshot := None;
  last_error := None;
  last_success := None;
  retry_at := None;
|}.

Definition is_stale (t : TargetRuntimeState) : bool :=
  bool_decide (is_Some (snapshot t)) && negb (bool_decide (connection t = Live)).

Definition accepts_generation (t : TargetRuntimeState) (generation : N) : bool :=
  bool_decide (connection t = Live) && (connection_generation t =? generation)%N.

(** [FederationStore::start] publishes this before any supervisor runs. *)
Definition initial_federation (ts : list Target) : FederationState := {|
  fed_revision := 0;
  targets := collect_map ((λ t, (target_key t, TargetRuntimeState_new t)) <$> ts);
|}.

(** ** What a supervisor records *)

Inductive SnapshotErrorKind := ErrIncompatible | ErrTimeout | ErrUnavailable.
#[export] Instance SnapshotErrorKind_eq_dec : EqDecision SnapshotErrorKind.
Proof. solve_decision. Defined.
Record SnapshotError := { err_kind : SnapshotErrorKind; err_message : ustr }.

Record TransportSnapshot (V : Type) := { ts_snapshot : V; ts_herdr_bin : ustr }.
#[global] Arguments ts_snapshot {V} _.
#[global] Arguments ts_herdr_bin {V} _.

(** A [Duration] is its length in nanoseconds. *)
Abbreviation Duration := N (only parsing).
Definition duration_max : Duration := (u64_max * 1000000000 + 999999999)%N.
Definition duration_saturating_mul (d : Duration) (k : N) : Duration :=
  N.min (d * k) duration_max.
Definition system_time_max : SystemTime := (9223372036854775807 * 1000000000 + 999999999)%N.
Definition system_time_checked_add (t : SystemTime) (d : Duration) : option SystemTime :=
  if (t + d <=? system_time_max)%N then Some (t + d)%N else None.

Record SupervisorOptions := {
  refresh_interval : Duration; initial_backoff : Duration; maximum_backoff : Duration;
}.

(** [SupervisorOptions::from_config]: refresh every 5 s, back off from 1 s to 30 s. *)
Definition SupervisorOptions_from_config : SupervisorOptions := {|
  refresh_interval := 5000000000; initial_backoff := 1000000000; maximum_backoff := 30000000000;
|}.

(** Change one target and count the revision; an unknown key changes nothing. *)
Definition modify_target (k : TargetSession) (f : TargetRuntimeState → TargetRuntimeState)
    (st : FederationState) : FederationState :=
  match targets st !! k with
  | None => st
  | Some t => {| fed_revision := u64_saturating_add (fed_revision st) 1;
                 targets := <[k := f t]> (targets st) |}
  end.

Definition success_state (generation : N) (bin : ustr) (snap : NormalizedSnapshot)
    (now : SystemTime) (t : TargetRuntimeState) : TargetRuntimeState := {|
  key := key t; endpoint := endpoint t;
  connection := Live;
  update_mode := update_mode t; event_error := event_error t;
  connection_generation := generation;
  selected_herdr_bin := Some bin;
  roots := roots t;
  snapshot := Some snap;
  last_error := None;
  last_success := Some now;
  retry_at := None;
|}.

Definition failure_state (conn : TargetConnectionState) (message : ustr)
    (retry : option SystemTime) (t : TargetRuntimeState) : TargetRuntimeState := {|
  key := key t; endpoint := endpoint t;
  connection := conn;
  update_mode := update_mode t; event_error := event_error t;
  connection_generation := connection_generation t;
  selected_herdr_bin := selected_herdr_bin t;
  roots := roots t;
  snapshot := snapshot t;
  last_error := Some message;
  last_success := last_success t;
  retry_at := retry;
|}.

Definition update_mode_state (mode : TargetUpdateMode) (error : option ustr)
    (t : TargetRuntimeState) : TargetRuntimeState := {|
  key := key t; endpoint := endpoint t;
  connection := connection t;
  update_mode := mode; event_error := error;
  connection_generation := connection_generation t;
  selected_herdr_bin := selected_herdr_bin t;
  roots := roots t;
  snapshot := snapshot t;
  last_error := last_error t;
  last_success := last_success t;
  retry_at := retry_at t;
|}.

Definition record_success {V} `{JsonValue V} (k : TargetSession) (generation : N)
    (selection : TransportSnapshot V) (now : SystemTime) : FederationState → FederationState :=
  modify_target k (success_state generation (ts_herdr_bin selection)
                     (snapshot_from_value k (ts_snapshot selection)) now).

Definition record_backoff (k : TargetSession) (failed_attempts : N) (delay : Duration)
    (error : SnapshotError) (now : SystemTime) : FederationState → FederationState :=
  modify_target k (failure_state (Backoff failed_attempts) (err_message error)
                     (system_time_checked_add now delay)).

Definition record_incompatible (k : TargetSession) (error : SnapshotError)
    : FederationState → FederationState :=
  modify_target k (failure_state Incompatible (err_message error) None).

Definition record_update_mode (k : TargetSession) (mode : TargetUpdateMode)
    (error : option ustr) (st : FederationState) : FederationState :=
  match targets st !! k with
  | None => st
  | Some t =>
      if bool_decide (update_mode t = mode) && bool_decide (event_error t = error) then st
      else modify_target k (update_mode_state mode error) st
  end.

Definition retry_delay (options : SupervisorOptions) (failed_attempts : N) : Duration :=
  let exponent := N.min (failed_attempts - 1) 31 in
  N.min (duration_saturating_mul (initial_backoff options) (N.shiftl 1 exponent))
        (maximum_backoff options).

(** ** The supervisor's loop

    One iteration of [supervise_target] is a function of what its awaits
    yielded: opening a change stream, taking a snapshot, waiting for an event
    or a deadline. [Return] ends the task, [Again] is the next iteration. *)

Inductive StreamAttempt := Opened | StreamFailed (e : SnapshotError) | Interrupted | Stop.

Inductive SnapshotOutcome (V : Type) :=
  | SnapStop                                   (* shutdown was requested *)
  | SnapWoken                                  (* shutdown channel woke without a request *)
  | SnapOk (selection : TransportSnapshot V)
  | SnapErr (e : SnapshotError).
#[global] Arguments SnapStop {V}.
#[global] Arguments SnapWoken {V}.
#[global] Arguments SnapOk {V} _.
#[global] Arguments SnapErr {V} _.

(** What ended the wait on an open change stream. *)
Inductive EventOutcome := EventStop | EventWoken | EventArrived | EventFailed (e : SnapshotError).

Record Awaits (V : Type) := {
  aw_pre_stream : StreamAttempt;
  aw_snapshot : SnapshotOutcome V;
  aw_now : SystemTime;
  aw_post_stream : StreamAttempt;
  aw_event : EventOutcome;
  aw_wait_stops : bool;      (* what the deadline or delay wait returned *)
}.
#[global] Arguments aw_pre_stream {V} _.
#[global] Arguments aw_snapshot {V} _.
#[global] Arguments aw_now {V} _.
#[global] Arguments aw_post_stream {V} _.
#[global] Arguments aw_event {V} _.
#[global] Arguments aw_wait_stops {V} _.

Record Supervisor := {
  sup_generation : N;
  sup_connected : bool;
  sup_failed_attempts : N;
  sup_stream : bool;                   (* a change stream is open *)
  sup_subscribed : list ustr;
  sup_known : list ustr;
}.

Definition Supervisor_start : Supervisor := {|
  sup_generation := 0; sup_connected := false; sup_failed_attempts := 0;
  sup_stream := false; sup_subscribed := []; sup_known := [];
|}.

Definition set_stream (s : Supervisor) (open : bool) (subscribed : list ustr) : Supervisor := {|
  sup_generation := sup_generation s; sup_connected := sup_connected s;
  sup_failed_attempts := sup_failed_attempts s;
  sup_stream := open; sup_subscribed := subscribed; sup_known := sup_known s;
|}.

Inductive flow := Again | Return.

Section supervise.
Context {V : Type} `{JsonValue V}.
Variable tgt : Target.
Variable options : SupervisorOptions.

Let k := target_key tgt.
Definition has_socket : bool := bool_decide (is_Some (tgt_socket tgt)).

Definition world : Type := Supervisor * FederationState.

(** A stream attempt, before or after the snapshot: on [Opened] the panes it
    was opened for are the ones subscribed to. [inr] continues the body. *)
Definition settle_stream (attempt : StreamAttempt) (panes : list ustr) (w : world)
    : (flow * world) + world :=
  let '(s, st) := w in
  match attempt with
  | Stop => inl (Return, w)
  | Interrupted => inl (Again, w)
  | Opened => inr (set_stream s true panes, record_update_mode k Events None st)
  | StreamFailed e => inr (s, record_update_mode k Polling (Some (err_message e)) st)
  end.

Definition before_snapshot (a : Awaits V) (w : world) : (flow * world) + world :=
  let '(s, st) := w in
  if has_socket && negb (sup_stream s) && (sup_failed_attempts s =? 0)%N
  then settle_stream (aw_pre_stream a) (sup_known s) w
  else inr w.

Definition connected_state (s : Supervisor) (panes : list ustr) : Supervisor := {|
  sup_generation :=
    if sup_connected s then sup_generation s else u64_saturating_add (sup_generation s) 1;
  sup_connected := true;
  sup_failed_attempts := 0;
  sup_stream := sup_stream s; sup_subscribed := sup_subscribed s; sup_known := panes;
|}.

Definition failed_state (s : Supervisor) : Supervisor := {|
  sup_generation := sup_generation s;
  sup_connected := false;
  sup_failed_attempts := u32_saturating_add (sup_failed_attempts s) 1;
  sup_stream := false; sup_subscribed := []; sup_known := sup_known s;
|}.

(** The wait on an open stream, and what its failure records. *)
Definition await_event (a : Awaits V) (w : world) : flow * world :=
  let '(s, st) := w in
  match aw_event a with
  | EventStop => (Return, w)
  | EventWoken | EventArrived => (Again, w)
  | EventFailed e =>
      let w' := (set_stream s false [], record_update_mode k Polling (Some (err_message e)) st) in
      if aw_wait_stops a then (Return, w') else (Again, w')
  end.

(** After a good snapshot of a target with a socket. *)
Definition after_snapshot (a : Awaits V) (panes : list ustr) (w : world) : flow * world :=
  let '(s, st) := w in
  let settled :=
    if negb (sup_stream s) || negb (bool_decide (sup_subscribed s = panes))
    then settle_stream (aw_post_stream a) panes (set_stream s false (sup_subscribed s), st)
    else inr w in
  match settled with
  | inl stop => stop
  | inr (s', st') =>
      if sup_stream s' then await_event a (s', st')
      else if aw_wait_stops a then (Return, (s', st')) else (Again, (s', st'))
  end.

Definition take_snapshot (a : Awaits V) (w : world) : flow * world :=
  let '(s, st) := w in
  match aw_snapshot a with
  | SnapStop => (Return, w)
  | SnapWoken => (Again, w)
  | SnapOk selection =>
      let panes := snapshot_pane_ids (ts_snapshot selection) in
      let s' := connected_state s panes in
      let st' := record_success k (sup_generation s') selection (aw_now a) st in
      if has_socket then after_snapshot a panes (s', st')
      else if aw_wait_stops a then (Return, (s', st')) else (Again, (s', st'))
  | SnapErr e =>
      if bool_decide (err_kind e = ErrIncompatible)
      then (Return, (s, record_incompatible k e st))
      else
        let s' := failed_state s in
        let st1 := record_update_mode k Polling None st in
        let st2 := record_backoff k (sup_failed_attempts s')
                     (retry_delay options (sup_failed_attempts s')) e (aw_now a) st1 in
        if aw_wait_stops a then (Return, (s', st2)) else (Again, (s', st2))
  end.

Definition supervise_iteration (a : Awaits V) (w : world) : flow * world :=
  match before_snapshot a w with
  | inl stop => stop
  | inr w' => take_snapshot a w'
  end.

(** The loop over the outcomes of successive iterations. *)
Fixpoint supervise (script : list (Awaits V)) (w : world) : flow * world :=
  match script with
  | [] => (Again, w)
  | a :: script' =>
      match supervise_iteration a w with
      | (Return, w') => (Return, w')
      | (Again, w') => supervise script' w'
      end
  end.
End supervise.
