(* ===== verification/StateFacts.v ===== *)
(** What holds of federation state: normalization qualifies every resource,
    the wire form of a keyed map is faithful, a supervisor never reuses a
    connection generation, and the retry delay is a capped doubling. *)

From S2P Require Import Prelude Model Json Config State.

(** ** Well-formed snapshots *)

(** Every key of the map belongs to the session and is the key its value
    carries. *)
Definition qualified_map {k V} `{Keyed (QualifiedId k) V} (ts : TargetSession)
    (m : gmap (QualifiedId k) V) : Prop :=
  keyed m ∧ ∀ id v, m !! id = Some v → target_session id = ts.

Record snapshot_wf (ts : TargetSession) (s : NormalizedSnapshot) : Prop := {
  wf_workspaces : qualified_map ts (workspaces s);
  wf_tabs : qualified_map ts (tabs s);
  wf_panes : qualified_map ts (panes s);
  wf_layouts : qualified_map ts (layouts s);
  wf_agents : qualified_map ts (agents s);
  wf_terminals : ∀ id, id ∈ terminals s → target_session id = ts;
}.

Record target_wf (k : TargetSession) (t : TargetRuntimeState) : Prop := {
  wf_key : key t = k;
  wf_snapshot : ∀ s, snapshot t = Some s → snapshot_wf k s;
}.

Definition federation_wf (st : FederationState) : Prop :=
  ∀ k t, targets st !! k = Some t → target_wf k t.

Section normalize.
Context {V : Type} `{JsonValue V}.

Lemma qualified_field_session {k} (item : V) field ts (id : QualifiedId k) :
  qualified_field item field ts = Some id → target_session id = ts.
Proof.
  unfold qualified_field. intros (r & _ & ->)%fmap_Some.
  unfold target_session, qualified. by destruct ts.
Qed.

(** A reader that yields each value under a qualified identifier it carries
    builds a qualified map. *)
Lemma collect_qualified {k W} `{Keyed (QualifiedId k) W} (ts : TargetSession)
    (f : V → option (QualifiedId k * W)) (items : list V) :
  (∀ item id w, f item = Some (id, w) → wire_key w = id ∧ target_session id = ts) →
  qualified_map ts (collect_map (omap f items)).
Proof.
  intros Hf. split; intros id w Hin%collect_map_lookup;
    apply list_elem_of_omap in Hin as (item & _ & Hitem); by apply Hf in Hitem as [? ?].
Qed.

Ltac solve_reader :=
  intros ? ? ? E; unfold workspace_state, tab_state, pane_state, layout_state, agent_state in E;
  repeat match goal with
    | E : _ ≫= _ = Some _ |- _ => apply bind_Some in E as (? & ? & E)
    end; simplify_eq; split; [done|eauto using qualified_field_session].

Lemma snapshot_from_value_wf ts (v : V) : snapshot_wf ts (snapshot_from_value ts v).
Proof.
  split; simpl; try (apply collect_qualified; solve_reader).
  intros id. unfold qualified_ids. rewrite elem_of_list_to_set, list_elem_of_omap.
  intros (item & _ & Hid). eauto using qualified_field_session.
Qed.
End normalize.

(** ** The wire form of a keyed map *)

Section wire.
Context {K V : Type} `{OrdLaws K} `{Countable K} `{Keyed K V}.

Lemma keyed_deserialize_keyed (l : list V) :
  keyed (keyed_deserialize l : gmap K V).
Proof.
  intros k v Hv%collect_map_lookup. apply list_elem_of_fmap in Hv as (w & [= -> ->] & _). done.
Qed.

Lemma keyed_entries (m : gmap K V) :
  keyed m → (λ v, (wire_key v, v)) <$> values m = entries m.
Proof.
  intros Hm. unfold values, entries.
  assert (∀ k v, m !! k = Some v → wire_key v = k) as Hk by done. clear Hm.
  induction (keys m) as [|k l IH]; [done|]. csimpl.
  destruct (m !! k) as [v|] eqn:Hv; csimpl; [|done]. rewrite IH. by rewrite (Hk k v Hv).
Qed.

Lemma keyed_roundtrip (m : gmap K V) :
  keyed m → keyed_deserialize (keyed_serialize m) = m.
Proof.
  intros Hm. unfold keyed_deserialize, keyed_serialize.
  rewrite keyed_entries by done. apply collect_entries.
Qed.
End wire.

(** ** Recording *)

Lemma modify_target_lookup k f st k' :
  targets (modify_target k f st) !! k' =
    if decide (k = k') then f <$> targets st !! k else targets st !! k'.
Proof.
  unfold modify_target. destruct (targets st !! k) as [t|] eqn:E; simpl.
  - rewrite lookup_insert. by case_decide.
  - case_decide; by subst.
Qed.

Lemma record_update_mode_lookup k mode e st k' :
  targets (record_update_mode k mode e st) !! k' =
    if decide (k = k') then update_mode_state mode e <$> targets st !! k
    else targets st !! k'.
Proof.
  unfold record_update_mode. destruct (targets st !! k) as [t|] eqn:E.
  - destruct (bool_decide (update_mode t = mode) && bool_decide (event_error t = e)) eqn:B.
    + apply andb_true_iff in B as [B1%bool_decide_eq_true B2%bool_decide_eq_true].
      case_decide; [|done]. subst k'. rewrite E. simpl. f_equal. by destruct t; simpl in *; subst.
    + rewrite modify_target_lookup, E. done.
  - case_decide; by subst.
Qed.

Create Rewrite HintDb herdr_state.
#[export] Hint Rewrite modify_target_lookup record_update_mode_lookup : herdr_state.

Lemma modify_target_wf k f st :
  (∀ t, target_wf k t → target_wf k (f t)) → federation_wf st → federation_wf (modify_target k f st).
Proof.
  intros Hf Hst k' t. rewrite modify_target_lookup. case_decide as E; [|apply Hst].
  subst k'. intros (t0 & Ht0 & ->)%fmap_Some. apply Hf. by apply Hst.
Qed.

Lemma record_update_mode_wf k mode e st :
  federation_wf st → federation_wf (record_update_mode k mode e st).
Proof.
  intros Hst k' t. rewrite record_update_mode_lookup. case_decide as E; [|apply Hst].
  subst k'. intros (t0 & Ht0 & ->)%fmap_Some. by destruct (Hst _ _ Ht0).
Qed.

Lemma initial_federation_wf ts : federation_wf (initial_federation ts).
Proof.
  intros k t Ht%collect_map_lookup. apply list_elem_of_fmap in Ht as (x & [= -> ->] & _).
  by split.
Qed.

(** ** The supervisor *)

Section supervisor.
Context {V : Type} `{JsonValue V}.
Variable tgt : Target.
Variable options : SupervisorOptions.
Implicit Types w : Supervisor * FederationState.

(** What the connection looks like from outside: the supervisor's count and
    flag, and the published connection and generation. *)
Definition published (st : FederationState) : option (TargetConnectionState * N) :=
  (λ t, (connection t, connection_generation t)) <$> targets st !! target_key tgt.
Definition conn_view w : N * bool * option (TargetConnectionState * N) :=
  (sup_generation w.1, sup_connected w.1, published w.2).

Lemma published_update_mode mode e st :
  published (record_update_mode (target_key tgt) mode e st) = published st.
Proof.
  unfold published; simpl. rewrite record_update_mode_lookup, decide_True by done.
  by destruct (targets st !! target_key tgt).
Qed.

Lemma settle_stream_view attempt panes w :
  match settle_stream tgt attempt panes w with
  | inl (_, w') | inr w' => conn_view w' = conn_view w
  end.
Proof.
  destruct w as [s st], attempt; simpl; unfold conn_view; simpl; try done;
    f_equal; apply published_update_mode.
Qed.

Lemma before_snapshot_view (a : Awaits V) w :
  match before_snapshot tgt a w with
  | inl (_, w') | inr w' => conn_view w' = conn_view w
  end.
Proof.
  unfold before_snapshot. destruct w as [s st].
  destruct (_ && _); [apply settle_stream_view|done].
Qed.

Lemma after_snapshot_view (a : Awaits V) panes w :
  conn_view (after_snapshot tgt a panes w).2 = conn_view w.
Proof.
  destruct w as [s st]. unfold after_snapshot.
  set (settled := if negb (sup_stream s) || negb (bool_decide (sup_subscribed s = panes))
                  then _ else _).
  assert (match settled with inl (_, w') | inr w' => conn_view w' = conn_view (s, st) end)
    as Hs.
  { unfold settled. destruct (_ || _); [|done]. exact (settle_stream_view _ _ (set_stream s false (sup_subscribed s), st)). }
  destruct settled as [[f w']|[s' st']]; [done|].
  rewrite <-Hs. unfold await_event. repeat case_match; try done;
    unfold conn_view; simpl; f_equal; apply published_update_mode.
Qed.

(** How one iteration moves the connection. *)
Definition view_success (v : N * bool * option (TargetConnectionState * N)) :=
  let '(g, c, p) := v in
  let g' := if c then g else u64_saturating_add g 1 in
  (g', true, (λ _, (Live, g')) <$> p).
Inductive view_step : N * bool * option (TargetConnectionState * N) → flow →
                      N * bool * option (TargetConnectionState * N) → Prop :=
  | view_same f v : view_step v f v
  | view_succeeds f v : view_step v f (view_success v)
  | view_fails f n g c p : view_step (g, c, p) f (g, false, (λ q, (Backoff n, q.2)) <$> p)
  | view_incompatible g c p : view_step (g, c, p) Return (g, c, (λ q, (Incompatible, q.2)) <$> p).

Lemma published_modify (f : TargetRuntimeState → TargetRuntimeState)
    (h : TargetConnectionState * N → TargetConnectionState * N) st :
  (∀ t, (connection (f t), connection_generation (f t)) = h (connection t, connection_generation t)) →
  published (modify_target (target_key tgt) f st) = h <$> published st.
Proof.
  intros Hf. unfold published; simpl. rewrite modify_target_lookup, decide_True by done.
  rewrite <-!option_fmap_compose. apply option_fmap_ext. intros t. apply Hf.
Qed.

Lemma take_snapshot_view (a : Awaits V) w f w' :
  take_snapshot tgt options a w = (f, w') → view_step (conn_view w) f (conn_view w').
Proof.
  destruct w as [s st]. unfold take_snapshot. destruct (aw_snapshot a) as [| |sel|e].
  - intros [= <- <-]. constructor.
  - intros [= <- <-]. constructor.
  - intros E.
    assert (conn_view w' = view_success (conn_view (s, st))) as ->; [|constructor].
    transitivity (conn_view (connected_state s (snapshot_pane_ids (ts_snapshot sel)),
      record_success (target_key tgt) (sup_generation (connected_state s (snapshot_pane_ids (ts_snapshot sel))))
        sel (aw_now a) st)).
    + destruct (has_socket tgt).
      * change w' with (f, w').2. rewrite <-E. apply after_snapshot_view.
      * destruct (aw_wait_stops a); by simplify_eq.
    + unfold conn_view, view_success; simpl. f_equal. by apply published_modify.
  - case_match.
    + intros [= <- <-]. unfold conn_view, record_incompatible; cbn [fst snd].
      rewrite (published_modify _ (λ q, (Incompatible, q.2))) by done. constructor.
    + intros E.
      assert (∃ st', w' = (failed_state s, st') ∧ published st' =
        (λ q, (Backoff (sup_failed_attempts (failed_state s)), q.2)) <$> published st)
        as (st' & -> & Hp).
      { eexists. split; [destruct (aw_wait_stops a); by simplify_eq|].
        unfold record_backoff.
        rewrite (published_modify _ (λ q, (Backoff (sup_failed_attempts (failed_state s)), q.2)))
          by done.
        by rewrite published_update_mode. }
      unfold conn_view; simpl. rewrite Hp. constructor.
Qed.

Lemma iteration_view (a : Awaits V) w f w' :
  supervise_iteration tgt options a w = (f, w') → view_step (conn_view w) f (conn_view w').
Proof.
  unfold supervise_iteration. pose proof (before_snapshot_view a w) as Hb.
  destruct (before_snapshot tgt a w) as [[f0 w0]|w0].
  - intros [= -> ->]. rewrite Hb. constructor.
  - rewrite <-Hb. apply take_snapshot_view.
Qed.

(** *** Generations *)

(** The supervisor's own count bounds what is published, and a live target
    is published under the count itself. *)
Definition view_inv (v : N * bool * option (TargetConnectionState * N)) : Prop :=
  ∀ c g, v.2 = Some (c, g) →
    (g ≤ v.1.1)%N ∧ (c = Live ↔ v.1.2 = true) ∧ (c = Live → g = v.1.1).

Lemma view_step_inv v v' : view_step v Again v' → view_inv v → view_inv v'.
Proof.
  destruct v as [[G C] p]. intros Hs Hi. inversion Hs; subst; [done| |].
  - simpl. intros c' g' (q & Hq & Heq)%fmap_Some. injection Heq as -> ->. by split_and!.
  - simpl. intros c' g' ([c0 g0] & Hq & Heq)%fmap_Some. injection Heq as -> ->.
    destruct (Hi _ _ Hq) as (Hle & _ & _). simpl in *. by split_and!.
Qed.

Lemma view_step_count v f v' :
  view_step v f v' → (v.1.1 ≤ v'.1.1 ≤ v.1.1 + 1)%N ∨ (v.1.1 > u64_max)%N.
Proof.
  destruct v as [[G C] p]. intros Hs. inversion Hs; subst; simpl; [lia| |lia|lia].
  destruct C; simpl; unfold u64_saturating_add; lia.
Qed.

(** After a drop at count [G0], only larger counts are published as live. *)
Definition beyond (G0 : N) (v : N * bool * option (TargetConnectionState * N)) : Prop :=
  (G0 ≤ v.1.1)%N ∧ (v.1.2 = true → (G0 < v.1.1)%N) ∧
  (∀ g, v.2 = Some (Live, g) → (G0 < g)%N).

Lemma view_step_beyond G0 v f v' :
  (G0 < u64_max)%N → view_step v f v' → beyond G0 v → beyond G0 v'.
Proof.
  destruct v as [[G C] p]. intros HG Hs (H1 & H2 & H3). inversion Hs; subst; simpl in *.
  - done.
  - set (G' := if C then G else u64_saturating_add G 1).
    assert (G0 < G')%N as HG'.
    { unfold G'. destruct C; [by apply H2|]. unfold u64_saturating_add. lia. }
    split; [|split]; simpl; [lia|done|].
    by intros g (q & _ & [= <-])%fmap_Some.
  - split; [|split]; simpl; [done|done|]. by intros ? (q & _ & [=])%fmap_Some.
  - split; [|split]; simpl; [done|done|]. by intros ? (q & _ & [=])%fmap_Some.
Qed.

Lemma supervise_ind (P : N * bool * option (TargetConnectionState * N) → Prop) script w f w' :
  (∀ v f v', view_step v f v' → P v → P v') →
  supervise tgt options script w = (f, w') → P (conn_view w) → P (conn_view w').
Proof.
  intros HP. revert w. induction script as [|a script IH]; intros w; simpl.
  { by intros [= _ ->]. }
  destruct (supervise_iteration tgt options a w) as [[] w1] eqn:E; intros Hrun Hw.
  - apply (IH w1 Hrun), (HP _ _ _ (iteration_view _ _ _ _ E) Hw).
  - simplify_eq. exact (HP _ _ _ (iteration_view _ _ _ _ E) Hw).
Qed.

Lemma supervise_again script w w' :
  supervise tgt options script w = (Again, w') →
  view_inv (conn_view w) → (sup_generation w.1 + N.of_nat (length script) < u64_max)%N →
  view_inv (conn_view w') ∧
  (sup_generation w'.1 ≤ sup_generation w.1 + N.of_nat (length script))%N.
Proof.
  revert w. induction script as [|a script IH]; intros w; simpl.
  { intros [= ->] ? _. split; [done|lia]. }
  destruct (supervise_iteration tgt options a w) as [[] w1] eqn:E; [|done].
  intros Hrun Hw Hlen. pose proof (iteration_view _ _ _ _ E) as Hs.
  pose proof (view_step_count _ _ _ Hs) as Hc. simpl in Hc.
  destruct (IH w1 Hrun) as [Hw' Hg']; [by eapply view_step_inv|lia|].
  split; [done|lia].
Qed.

(** *** What an iteration may touch

    Every change an iteration makes is one to its own target, and one that
    keeps that target well formed. *)

Definition touch (st st' : FederationState) : Prop :=
  ∃ f, (∀ t, target_wf (target_key tgt) t → target_wf (target_key tgt) (f t)) ∧
       st' = modify_target (target_key tgt) f st.
Abbreviation touches := (rtc touch).

Lemma touches_once f st :
  (∀ t, target_wf (target_key tgt) t → target_wf (target_key tgt) (f t)) →
  touches st (modify_target (target_key tgt) f st).
Proof. intros Hf. apply rtc_once. by exists f. Qed.

Lemma record_success_touches g (sel : TransportSnapshot V) now st :
  touches st (record_success (target_key tgt) g sel now st).
Proof.
  apply touches_once. intros t [Hk Hs]. split; [done|]. simpl.
  intros s [= <-]. apply snapshot_from_value_wf.
Qed.

Lemma failure_touches c m r st :
  touches st (modify_target (target_key tgt) (failure_state c m r) st).
Proof. apply touches_once. by intros t []. Qed.

Lemma record_update_mode_touches mode e st :
  touches st (record_update_mode (target_key tgt) mode e st).
Proof.
  unfold record_update_mode. case_match; [|done]. case_match; [done|].
  apply touches_once. by intros t' [].
Qed.

Lemma settle_stream_touches attempt panes w :
  match settle_stream tgt attempt panes w with
  | inl (_, w') | inr w' => touches w.2 w'.2
  end.
Proof. destruct w, attempt; simpl; auto using record_update_mode_touches, rtc_refl. Qed.

Lemma after_snapshot_touches (a : Awaits V) panes w :
  touches w.2 (after_snapshot tgt a panes w).2.2.
Proof.
  destruct w as [s st]. unfold after_snapshot; simpl.
  set (settled := if _ || negb (bool_decide (sup_subscribed s = panes)) then _ else _).
  assert (match settled with inl (_, w') | inr w' => touches st w'.2 end) as Hs.
  { unfold settled. destruct (_ || _); [|done].
    exact (settle_stream_touches _ _ (set_stream s false (sup_subscribed s), st)). }
  destruct settled as [[f w']|[s1 st1]]; [done|].
  unfold await_event. repeat case_match; try done.
  all: etransitivity; [exact Hs|apply record_update_mode_touches].
Qed.

Lemma iteration_touches (a : Awaits V) w :
  touches w.2 (supervise_iteration tgt options a w).2.2.
Proof.
  unfold supervise_iteration.
  assert (match before_snapshot tgt a w with
          | inl (_, w') | inr w' => touches w.2 w'.2 end) as Hb.
  { unfold before_snapshot. destruct w as [s st].
    destruct (_ && _); [apply settle_stream_touches|done]. }
  destruct (before_snapshot tgt a w) as [[f0 w0]|[s st]]; [done|].
  etransitivity; [exact Hb|]. clear Hb.
  unfold take_snapshot. destruct (aw_snapshot a) as [| |sel|e]; [done|done| |].
  - destruct (has_socket tgt); [|destruct (aw_wait_stops a); apply record_success_touches].
    etransitivity; [|apply after_snapshot_touches]. apply record_success_touches.
  - destruct (bool_decide _); [apply failure_touches|].
    destruct (aw_wait_stops a); (etransitivity;
      [apply record_update_mode_touches|apply failure_touches]).
Qed.

Lemma supervise_touches script w :
  touches w.2 (supervise tgt options script w).2.2.
Proof.
  revert w. induction script as [|a script IH]; intros w; simpl; [done|].
  pose proof (iteration_touches a w) as Ha.
  destruct (supervise_iteration tgt options a w) as [[] w1]; [|done].
  etransitivity; [exact Ha|apply IH].
Qed.

Lemma touches_other st st' k' :
  k' ≠ target_key tgt → touches st st' → targets st' !! k' = targets st !! k'.
Proof.
  intros Hk. induction 1 as [|st1 st2 st3 (f & _ & ->) _ IH]; [done|].
  by rewrite IH, modify_target_lookup, decide_False.
Qed.

Lemma touches_wf st st' : touches st st' → federation_wf st → federation_wf st'.
Proof.
  induction 1 as [|st1 st2 st3 (f & Hf & ->) _ IH]; [done|]. intros Hst. apply IH.
  intros k' t. rewrite modify_target_lookup. case_decide as E; [|apply Hst].
  subst k'. intros (t0 & Ht0 & ->)%fmap_Some. by apply Hf, Hst.
Qed.

(** C27. A connection generation handed out before a target dropped is never
    accepted again. [script1] brings the supervisor of a freshly started
    federation to a point [w] where the target is not live; whatever happens
    afterwards ([script2]), no generation published up to that point
    satisfies [accepts_generation]: a route derived before a reconnect is
    refused after it. (The count is a [u64] that saturates, so the bound asks
    for fewer iterations than it can count.) *)
Theorem reconnect_retires_generations ts script1 script2 w f w2 t g t2 :
  supervise tgt options script1 (Supervisor_start, initial_federation ts) = (Again, w) →
  (N.of_nat (length script1) < u64_max)%N →
  targets w.2 !! target_key tgt = Some t →
  connection t ≠ Live →
  (g ≤ connection_generation t)%N →
  supervise tgt options script2 w = (f, w2) →
  targets w2.2 !! target_key tgt = Some t2 →
  accepts_generation t2 g = false.
Proof.
  intros Hrun Hlen Ht Hdown Hg Hrun2 Ht2.
  assert (view_inv (conn_view (Supervisor_start, initial_federation ts))) as Hinit.
  { intros c g0 (t0 & Ht0 & [= -> ->])%fmap_Some. simpl in Ht0.
    apply collect_map_lookup, list_elem_of_fmap in Ht0 as (x & Hx & _).
    apply (f_equal snd) in Hx. simpl in Hx. subst t0. by split_and!. }
  destruct (supervise_again _ _ _ Hrun Hinit) as [Hinv Hcount]; [simpl; lia|simpl in Hcount].
  assert (published w.2 = Some (connection t, connection_generation t)) as Hp
    by (unfold published; by rewrite Ht).
  destruct (Hinv _ _ Hp) as (Hle & Hiff & _). simpl in Hle, Hiff.
  assert (beyond (sup_generation w.1) (conn_view w)) as Hb.
  { split_and!; simpl; [done| |]; intros; exfalso; apply Hdown; [by apply Hiff|]. congruence. }
  eapply supervise_ind in Hb as (_ & _ & Hb); [|by intros ???; apply view_step_beyond; lia|done].
  unfold accepts_generation. apply andb_false_iff.
  destruct (bool_decide (connection t2 = Live)) eqn:HL; [right|by left].
  apply bool_decide_eq_true in HL. apply N.eqb_neq.
  specialize (Hb (connection_generation t2)). simpl in Hb. unfold published in Hb.
  rewrite Ht2 in Hb. simpl in Hb. rewrite HL in Hb. specialize (Hb eq_refl). lia.
Qed.

(** A supervisor is confined to its own target, and what it writes there
    stays well formed: over any run, every other target is exactly as it
    was, and a federation in which each entry sits under its own key, with a
    snapshot whose resources are all qualified by that key, stays one. *)
Theorem supervisor_confined script w f w' :
  supervise tgt options script w = (f, w') →
  (∀ k', k' ≠ target_key tgt → targets w'.2 !! k' = targets w.2 !! k') ∧
  (federation_wf w.2 → federation_wf w'.2).
Proof.
  intros Hrun. pose proof (supervise_touches script w) as Ht. rewrite Hrun in Ht. simpl in Ht.
  split; [intros k' Hk'; by apply touches_other|by apply touches_wf].
Qed.
End supervisor.

(** A target on the far side of one drop, for the witness. *)
Module Example_drop.
Import Concrete.
Definition tgt : Target := {|
  tgt_name := u "host"; tgt_ssh := None; tgt_discover_sessions := false; tgt_session := None;
  tgt_socket := None; tgt_herdr_bins := [u "herdr"]; tgt_tags := []; tgt_roots := [];
|}.
Definition answer : Awaits json := {|
  aw_pre_stream := Interrupted; aw_snapshot := SnapOk {| ts_snapshot := JObject []; ts_herdr_bin := u "herdr" |};
  aw_now := 7; aw_post_stream := Interrupted; aw_event := EventArrived; aw_wait_stops := false;
|}.
Definition drop : Awaits json := {|
  aw_pre_stream := Interrupted;
  aw_snapshot := SnapErr {| err_kind := ErrTimeout; err_message := u "timed out" |};
  aw_now := 9; aw_post_stream := Interrupted; aw_event := EventArrived; aw_wait_stops := false;
|}.
Definition run script w := supervise tgt SupervisorOptions_from_config script w.
Definition start := (Supervisor_start, initial_federation [tgt]).
Definition down := (run [answer; drop] start).2.
Definition back := (run [answer] down).2.
Definition here (w : Supervisor * FederationState) : TargetRuntimeState :=
  default (TargetRuntimeState_new tgt) (targets w.2 !! target_key tgt).
End Example_drop.

Import Concrete.

Lemma reconnect_retires_generations_witness :
  connection_generation (Example_drop.here Example_drop.back) = 2%N ∧
  accepts_generation (Example_drop.here Example_drop.back) 1 = false.
Proof.
  split; [by vm_compute|].
  apply (reconnect_retires_generations Example_drop.tgt SupervisorOptions_from_config
    [Example_drop.tgt] [Example_drop.answer; Example_drop.drop] [Example_drop.answer]
    Example_drop.down Again Example_drop.back (Example_drop.here Example_drop.down));
    by vm_compute.
Defined.

Lemma supervisor_confined_witness :
  targets Example_drop.down.2 !! TargetSession_new (u "other") (u "default") = None.
Proof.
  apply (supervisor_confined Example_drop.tgt SupervisorOptions_from_config
    [Example_drop.answer; Example_drop.drop] Example_drop.start Again Example_drop.down);
    by vm_compute.
Defined.

(** ** What a client is told *)

(** A runtime state without the two clocks. *)
Definition client_view (t : TargetRuntimeState) : TargetRuntimeState := {|
  key := key t; endpoint := endpoint t; connection := connection t;
  update_mode := update_mode t; event_error := event_error t;
  connection_generation := connection_generation t;
  selected_herdr_bin := selected_herdr_bin t; roots := roots t; snapshot := snapshot t;
  last_error := last_error t; last_success := None; retry_at := None;
|}.

Lemma differs_for_clients_iff a b :
  differs_for_clients a b = false ↔ client_view a = client_view b.
Proof.
  unfold differs_for_clients. rewrite !orb_false_iff, !negb_false_iff, !bool_decide_eq_true.
  unfold client_view. destruct a, b; simpl. split.
  - intros H. destruct_and!. by subst.
  - intros H. injection H as -> -> -> -> -> -> -> -> -> ->. tauto.
Qed.

(** [differs_for_clients] is exactly inequality of what a client can see,
    hence an equivalence test, and a target that only answered again with the
    same snapshot differs in nothing however the clock moved. *)
Theorem differs_for_clients_spec a b :
  (differs_for_clients a b = false ↔ client_view a = client_view b) ∧
  (∀ generation bin snap now now',
     differs_for_clients (success_state generation bin snap now a)
       (success_state generation bin snap now' (success_state generation bin snap now a)) = false).
Proof.
  split; [apply differs_for_clients_iff|]. intros. by apply differs_for_clients_iff.
Qed.

(** The wire form of the federation loses nothing: in a well-formed
    federation the target map, and in each snapshot all five resource maps,
    are rebuilt exactly from the values alone; and whatever arrives, a rebuilt
    map is one whose keys agree with its values. *)
Theorem federation_wire_roundtrip (st : FederationState) :
  federation_wf st →
  keyed_deserialize (keyed_serialize (targets st)) = targets st ∧
  ∀ k t s, targets st !! k = Some t → snapshot t = Some s →
    keyed_deserialize (keyed_serialize (workspaces s)) = workspaces s ∧
    keyed_deserialize (keyed_serialize (tabs s)) = tabs s ∧
    keyed_deserialize (keyed_serialize (panes s)) = panes s ∧
    keyed_deserialize (keyed_serialize (layouts s)) = layouts s ∧
    keyed_deserialize (keyed_serialize (agents s)) = agents s.
Proof.
  intros Hst. split.
  - apply keyed_roundtrip. intros k t Ht. by destruct (Hst k t Ht).
  - intros k t s Ht Hs. destruct (Hst k t Ht) as [_ Hwf]. specialize (Hwf s Hs).
    destruct Hwf as [[? _] [? _] [? _] [? _] [? _] _]. split_and!; by apply keyed_roundtrip.
Qed.

Lemma federation_wire_roundtrip_witness :
  keyed_deserialize (keyed_serialize (targets Example_drop.back.2)) = targets Example_drop.back.2.
Proof.
  apply (federation_wire_roundtrip Example_drop.back.2).
  intros k t Ht. apply (touches_wf Example_drop.tgt Example_drop.start.2 Example_drop.back.2);
    [|apply initial_federation_wf|done].
  change Example_drop.back.2 with
    (supervise Example_drop.tgt SupervisorOptions_from_config [Example_drop.answer] Example_drop.down).2.2.
  etransitivity; [|apply supervise_touches].
  apply (supervise_touches Example_drop.tgt SupervisorOptions_from_config
    [Example_drop.answer; Example_drop.drop] Example_drop.start).
Defined.

(** ** The retry delay *)

(** The reconnect backoff is a capped doubling: the first failure waits
    the initial delay, each further failure up to the 32nd doubles the wait
    until the maximum, later ones no longer change it, and no wait exceeds the
    maximum. The shift never leaves 32 bits. With the program's own options
    that is 1 s, 2 s, 4 s, 8 s, 16 s and then 30 s. *)
Theorem retry_delay_doubles (o : SupervisorOptions) :
  (initial_backoff o ≤ maximum_backoff o)%N →
  (maximum_backoff o ≤ duration_max)%N →
  retry_delay o 1 = initial_backoff o ∧
  (∀ n, (1 ≤ n < 32)%N → retry_delay o (n + 1) = N.min (2 * retry_delay o n) (maximum_backoff o)) ∧
  (∀ n, (32 ≤ n)%N → retry_delay o n = retry_delay o 32) ∧
  (∀ n, (initial_backoff o ≤ retry_delay o n ≤ maximum_backoff o)%N ∧
        (N.shiftl 1 (N.min (n - 1) 31) ≤ u32_max)%N).
Proof.
  intros Hi Hm. unfold retry_delay, duration_saturating_mul.
  assert (∀ e, N.shiftl 1 e = 2 ^ e)%N as Hsh by (intros; rewrite N.shiftl_mul_pow2; lia).
  split_and!.
  - change (N.shiftl 1 (N.min (1 - 1) 31)) with 1%N. lia.
  - intros n Hn. rewrite !Hsh. replace (N.min (n + 1 - 1) 31) with (N.succ (N.min (n - 1) 31)) by lia.
    rewrite N.pow_succ_r', (N.mul_assoc _ 2), (N.mul_comm _ 2), <-N.mul_assoc. lia.
  - intros n Hn. by replace (N.min (n - 1) 31) with (N.min (32 - 1) 31)%N by lia.
  - intros n. rewrite Hsh.
    assert (2 ^ 0 ≤ 2 ^ (N.min (n - 1) 31) ≤ 2 ^ 31)%N as Hp
      by (split; apply N.pow_le_mono_r; lia).
    change (2 ^ 0)%N with 1%N in Hp. change (2 ^ 31)%N with 2147483648%N in Hp.
    split; [|unfold u32_max; lia]. set (p := (2 ^ N.min (n - 1) 31)%N) in *.
    assert (initial_backoff o ≤ initial_backoff o * p)%N by nia. lia.
Qed.

Lemma retry_delay_doubles_witness :
  retry_delay SupervisorOptions_from_config <$> [1; 2; 3; 4; 5; 6; 40]%N =
    [1000000000; 2000000000; 4000000000; 8000000000; 16000000000; 30000000000; 30000000000]%N ∧
  retry_delay SupervisorOptions_from_config 1 = 1000000000%N.
Proof.
  split; [by vm_compute|].
  apply (retry_delay_doubles SupervisorOptions_from_config); by vm_compute.
Defined.
