(* ===== verification/Identity.v ===== *)
(** Why a qualified identifier can be written down: in a validated
    configuration the rendering of an identifier determines it. *)

From S2P Require Import Prelude Text Model Config State.

(** What [validate_target] leaves of a target: a name and a session without a
    slash, and a name not seen before. *)
Lemma validate_target_names names t :
  validate_target names t = Ok () →
  slash ∉ tgt_name t ∧ slash ∉ session_name t ∧ tgt_name t ∉ names.
Proof.
  unfold validate_target, validate_session, session_name, contains.
  autorewrite with herdr_check. rewrite !bool_decide_eq_false. intros Hv. destruct_and!.
  split_and!; [done| |done].
  destruct (tgt_session t) as [s|]; simpl; [|by apply (bool_decide_unpack _)].
  autorewrite with herdr_check in *. rewrite !bool_decide_eq_false in *. naive_solver.
Qed.

Lemma validate_targets_all names ts :
  validate_targets names ts = Ok () →
  NoDup (tgt_name <$> ts) ∧
  ∀ t, t ∈ ts → slash ∉ tgt_name t ∧ slash ∉ session_name t ∧ tgt_name t ∉ names.
Proof.
  revert names. induction ts as [|t ts IH]; intros names; simpl.
  { intros _. split; [constructor|]. by intros t ?%elem_of_nil. }
  rewrite check_bind. intros [Ht Hts].
  apply validate_target_names in Ht as (H1 & H2 & H3).
  destruct (IH _ Hts) as [Hnd Hall]. split.
  - constructor; [|done]. intros (t' & Heq & Ht')%list_elem_of_fmap.
    destruct (Hall _ Ht') as (_ & _ & Hn). rewrite Heq, elem_of_cons in Hn. naive_solver.
  - intros t' [->|Ht']%elem_of_cons; [done|].
    destruct (Hall _ Ht') as (? & ? & Hn). rewrite elem_of_cons in Hn. naive_solver.
Qed.

Lemma validate_targets_ok c : validate c = Ok () → validate_targets [] (cfg_targets c) = Ok ().
Proof. unfold validate. autorewrite with herdr_check. tauto. Qed.

Lemma federation_size ts : NoDup (target_key <$> ts) → size (targets (initial_federation ts)) = length ts.
Proof.
  intros Hkeys. rewrite <-size_dom.
  replace (dom (targets (initial_federation ts))) with (list_to_set (target_key <$> ts) : gset TargetSession).
  - by rewrite size_list_to_set, length_fmap.
  - apply set_eq. intros k. rewrite elem_of_list_to_set, elem_of_dom.
    unfold initial_federation; simpl. rewrite collect_map_lookup_is_Some. by rewrite <-list_fmap_compose.
Qed.
Lemma validate_targets_each names ts : validate_targets names ts = Ok () → ∀ t, t ∈ ts → validate_target [] t = Ok ().
Proof.
  revert names. induction ts as [|t ts IH]; intros names; simpl; [by intros _ t ?%elem_of_nil|].
  rewrite check_bind. intros [Ht Hts] t' [->|Ht']%elem_of_cons; [|by eapply IH].
  revert Ht. unfold validate_target. autorewrite with herdr_check. rewrite !bool_decide_eq_false. set_solver.
Qed.

(** The identity invariant of a validated configuration: no two targets
    share a qualified session, so the federation holds exactly one entry per
    configured target, and the rendering [target/session/resource] of a
    resource on configured targets determines the identifier. *)
Theorem validated_identities_unambiguous (c : Config) :
  validate c = Ok () →
  NoDup (target_key <$> cfg_targets c) ∧
  size (targets (initial_federation (cfg_targets c))) = length (cfg_targets c) ∧
  ∀ k (a b : QualifiedId k),
    target_session a ∈ target_key <$> cfg_targets c →
    target_session b ∈ target_key <$> cfg_targets c →
    display_id a = display_id b → a = b.
Proof.
  intros Hv. apply validate_targets_ok, validate_targets_all in Hv as [Hnd Hall].
  assert (NoDup (target_key <$> cfg_targets c)) as Hkeys.
  { apply (NoDup_fmap_1 ts_target). rewrite <-list_fmap_compose. exact Hnd. }
  split; [done|split].
  - by apply federation_size.
  - intros k [ta sa ra] [tb sb rb] (ca & Ha & Hca)%list_elem_of_fmap
      (cb & Hb & Hcb)%list_elem_of_fmap.
    unfold target_session, target_key in Ha, Hb; simpl in Ha, Hb.
    injection Ha as -> ->. injection Hb as -> ->.
    destruct (Hall _ Hca) as (? & ? & _), (Hall _ Hcb) as (? & ? & _).
    unfold display_id; simpl. change (u "/") with [slash]. simpl. intros Heq.
    apply app_sep_inj in Heq as [-> Heq]; [|done|done].
    by apply app_sep_inj in Heq as [-> ->].
Qed.

(** Two hosts with one session each. *)
Definition Example_config : Config :=
  let tgt name := {|
    tgt_name := u name; tgt_ssh := Some (u "box"); tgt_discover_sessions := true;
    tgt_session := None; tgt_socket := Some (u "/run/herdr.sock"); tgt_herdr_bins := [u "herdr"];
    tgt_tags := [u "lab"]; tgt_roots := [u "/home/me"] |} in
  {| cfg_transport := TransportConfig_default;
     cfg_notifications := NotificationsConfig_default;
     cfg_quick_replies := Some default_quick_replies;
     cfg_transfers := TransferConfig_default; cfg_web := WebConfig_default; cfg_devices := [];
     cfg_targets := [tgt "host-a"; tgt "host-b"]%string |}.

Lemma validated_identities_unambiguous_witness :
  validate Example_config = Ok () ∧
  size (targets (initial_federation (cfg_targets Example_config))) = 2.
Proof.
  assert (validate Example_config = Ok ()) as Hv by by vm_compute.
  split; [exact Hv|]. apply (validated_identities_unambiguous Example_config Hv).
Defined.
