(* ===== verification/Examples.v ===== *)
(** Concrete federations, read from concrete JSON by the program's own
    normalization; the witnesses of the later files evaluate on them. *)

From S2P Require Import Prelude Model Json Config State StateFacts.
Import Concrete.

Definition str (s : string) : json := JString (u s).
Definition field (k : string) (v : json) : ustr * json := (u k, v).

Definition pane_json (pane : string) : json :=
  JObject [field "pane_id" (str pane); field "workspace_id" (str "w1"); field "tab_id" (str "t1");
           field "label" (str "shell")].
Definition agent_json (pane status : string) : json :=
  JObject [field "pane_id" (str pane); field "name" (str "claude");
           field "agent_status" (str status)].

(** Two panes; an agent in the first. *)
Definition session_json (agents : list json) : json :=
  JObject [
    field "version" (str "0.8.2"); field "protocol" (JNumber 20);
    field "workspaces" (JArray [JObject [field "workspace_id" (str "w1"); field "label" (str "review")]]);
    field "tabs" (JArray [JObject [field "tab_id" (str "t1"); field "label" (str "main")]]);
    field "panes" (JArray [pane_json "p1"; pane_json "p2"]);
    field "agents" (JArray agents)].

Definition ex_key : TargetSession := TargetSession_new (u "host") (u "dev").
Definition ex_pane : PaneId := QId (u "host") (u "dev") (u "p1").
Definition ex_pane2 : PaneId := QId (u "host") (u "dev") (u "p2").

Definition ex_target (conn : TargetConnectionState) (generation : N) (agents : list json)
    : TargetRuntimeState := {|
  key := ex_key; endpoint := u "local"; connection := conn; update_mode := Polling;
  event_error := None; connection_generation := generation; selected_herdr_bin := Some (u "herdr");
  roots := []; snapshot := Some (snapshot_from_value ex_key (session_json agents));
  last_error := None; last_success := None; retry_at := None;
|}.

Definition ex_federation (conn : TargetConnectionState) (agents : list json) : FederationState :=
  {| fed_revision := 1; targets := {[ ex_key := ex_target conn 1 agents ]} |}.

Definition ex_working := ex_federation Live [agent_json "p1" "working"].
Definition ex_blocked := ex_federation Live [agent_json "p1" "blocked"].
Definition ex_gone := ex_federation Live [].
Definition ex_dropped := ex_federation (Backoff 1) [agent_json "p1" "working"].

Lemma ex_federation_wf conn agents : federation_wf (ex_federation conn agents).
Proof.
  intros k t. unfold ex_federation; simpl. rewrite lookup_singleton_Some. intros [<- <-].
  split; [done|]. intros s [= <-]. apply snapshot_from_value_wf.
Qed.
