(* ===== verification/Attention.v ===== *)
(** The attention index: [src/src/attention.rs].

    Agent transitions are derived from successive federation states and kept
    as a bounded, numbered history. The clock is an argument: [clock id] is the
    reading taken when the event numbered [id] is stamped. *)

From S2P Require Import Prelude Model State.

Definition ATTENTION_STATE_VERSION : N := 1.
Definition MAX_ATTENTION_EVENTS : nat := 256.
Definition MAX_AGENT_OBSERVATIONS : nat := 4096.

Inductive AttentionEventKind :=
  | NeedsAttention | Working | Completed | StatusChanged | Disappeared.
#[export] Instance AttentionEventKind_eq_dec : EqDecision AttentionEventKind.
Proof. solve_decision. Defined.

Definition kind_label (kind : AttentionEventKind) : ustr :=
  match kind with
  | NeedsAttention => u "needs input"
  | Working => u "working"
  | Completed => u "completed"
  | StatusChanged => u "status changed"
  | Disappeared => u "disappeared"
  end.

Record AttentionEvent := {
  ev_id : N;
  ev_pane : PaneId;
  ev_agent : ustr;
  ev_workspace : ustr;
  ev_status : ustr;
  ev_kind : AttentionEventKind;
  ev_occurred_at_ms : N;
  ev_unread : bool;
}.
#[export] Instance AttentionEvent_eq_dec : EqDecision AttentionEvent.
Proof. solve_decision. Defined.

Record AgentObservation := {
  ob_pane : PaneId;
  ob_agent : ustr;
  ob_workspace : ustr;
  ob_status : ustr;
  ob_interactive_ready : bool;
}.
#[export] Instance AgentObservation_eq_dec : EqDecision AgentObservation.
Proof. solve_decision. Defined.

Inductive AgentPhase := PhaseAttention | PhaseWorking | PhaseIdle | PhaseUnknown.
#[export] Instance AgentPhase_eq_dec : EqDecision AgentPhase.
Proof. solve_decision. Defined.

Record AttentionIndex := {
  next_event_id : N;
  observations : gmap PaneId AgentObservation;
  events : list AttentionEvent;
}.

Definition AttentionIndex_default : AttentionIndex :=
  {| next_event_id := 0; observations := ∅; events := [] |}.

(** ** Metadata and phases *)

Definition bounded_metadata (value : ustr) (maximum_characters : nat) : ustr :=
  take maximum_characters ((λ c, if is_control c then 32%N else c) <$> value).

Definition one_of (s : ustr) (words : list string) : bool :=
  existsb (λ w, bool_decide (s = u w)) words.

Definition agent_phase (status : ustr) (interactive_ready : bool) : AgentPhase :=
  let s := to_ascii_lowercase status in
  if interactive_ready
     || one_of s ["blocked"; "waiting"; "waiting_for_input"; "needs_input"; "ready"]%string
  then PhaseAttention
  else if one_of s ["working"; "running"; "busy"; "active"]%string then PhaseWorking
  else if one_of s ["idle"; "completed"; "done"]%string then PhaseIdle
  else PhaseUnknown.

Definition transition_kind (previous current : AgentObservation) : option AttentionEventKind :=
  let previous_phase := agent_phase (ob_status previous) (ob_interactive_ready previous) in
  let current_phase := agent_phase (ob_status current) (ob_interactive_ready current) in
  if bool_decide (previous_phase = current_phase) then
    if ob_interactive_ready current && negb (ob_interactive_ready previous)
    then Some NeedsAttention else None
  else Some match current_phase with
    | PhaseAttention => NeedsAttention
    | PhaseWorking => Working
    | PhaseIdle =>
        match previous_phase with
        | PhaseAttention | PhaseWorking => Completed
        | _ => StatusChanged
        end
    | PhaseUnknown => StatusChanged
    end.

(** ** Recording *)

Definition event_of (id : N) (now : N) (o : AgentObservation) (kind : AttentionEventKind)
    : AttentionEvent := {|
  ev_id := id; ev_pane := ob_pane o; ev_agent := ob_agent o; ev_workspace := ob_workspace o;
  ev_status := ob_status o; ev_kind := kind; ev_occurred_at_ms := now; ev_unread := true;
|}.

Definition set_observations (i : AttentionIndex) (m : gmap PaneId AgentObservation) := {|
  next_event_id := next_event_id i; observations := m; events := events i |}.
Definition set_events (i : AttentionIndex) (l : list AttentionEvent) := {|
  next_event_id := next_event_id i; observations := observations i; events := l |}.

Definition push_event (clock : N → N) (o : AgentObservation) (kind : AttentionEventKind)
    (i : AttentionIndex) : AttentionIndex :=
  let id := next_event_id i in
  {| next_event_id := u64_saturating_add id 1;
     observations := observations i;
     events := keep_last MAX_ATTENTION_EVENTS (events i ++ [event_of id (clock id) o kind]) |}.

(** What one agent of a snapshot is observed as. *)
Definition observe_agent (s : NormalizedSnapshot) (agent : AgentState) : AgentObservation :=
  let pane : option PaneState := panes s !! ag_pane agent in
  let workspace : option WorkspaceId := pane ≫= pane_workspace in
  {| ob_pane := ag_pane agent;
     ob_agent := bounded_metadata
       (default (resource (ag_pane agent))
          (or_else (ag_name agent) (or_else (ag_agent agent) (pane ≫= pane_agent)))) 128;
     ob_workspace := bounded_metadata
       (default (u "unassigned")
          (or_else (workspace ≫= (λ w : WorkspaceId, workspaces s !! w ≫= ws_label))
                   (resource <$> workspace))) 128;
     ob_status := bounded_metadata
       (default (u "unknown") (or_else (ag_status agent) (pane ≫= pane_agent_status))) 64;
     ob_interactive_ready := default false (ag_interactive_ready agent) |}.

Definition is_live (t : TargetRuntimeState) : bool := bool_decide (connection t = Live).

(** The live targets that have a snapshot, in the order the map yields them. *)
Definition live_snapshots (st : FederationState) : list (TargetSession * NormalizedSnapshot) :=
  t ← values (targets st);
  if is_live t then match snapshot t with Some s => [(key t, s)] | None => [] end else [].

Definition live_sessions (st : FederationState) : list TargetSession := (live_snapshots st).*1.

Definition current_observations (st : FederationState) : gmap PaneId AgentObservation :=
  collect_map (ks ← live_snapshots st;
               (λ agent, let o := observe_agent ks.2 agent in (ob_pane o, o))
                 <$> values (agents ks.2)).

(** The index and whether anything changed. *)
Definition step : Type := AttentionIndex * bool.

Definition observe_one (clock : N → N) (w : step) (o : AgentObservation) : step :=
  let '(i, changed) := w in
  match observations i !! ob_pane o with
  | Some previous =>
      let '(i1, changed1) :=
        match transition_kind previous o with
        | Some kind => (push_event clock o kind i, true)
        | None => (i, changed)
        end in
      if bool_decide (previous = o) then (i1, changed1)
      else (set_observations i1 (<[ob_pane o := o]> (observations i1)), true)
  | None => (set_observations i (<[ob_pane o := o]> (observations i)), true)
  end.

Definition disappear_one (clock : N → N) (w : step) (pane : PaneId) : step :=
  let '(i, changed) := w in
  match observations i !! pane with
  | Some o =>
      (push_event clock o Disappeared (set_observations i (delete pane (observations i))), true)
  | None => (i, changed)
  end.

Definition forget_one (w : step) (pane : PaneId) : step :=
  let '(i, _) := w in (set_observations i (delete pane (observations i)), true).

Definition disappeared_panes (st : FederationState) (current : gmap PaneId AgentObservation)
    (i : AttentionIndex) : list PaneId :=
  filter (λ pane, target_session pane ∈ live_sessions st ∧ current !! pane = None)
    (keys (observations i)).

Definition removed_panes (st : FederationState) (i : AttentionIndex) : list PaneId :=
  filter (λ pane, targets st !! target_session pane = None) (keys (observations i)).

Definition observe (clock : N → N) (st : FederationState) (i : AttentionIndex) : step :=
  let current := current_observations st in
  let w1 := foldl (observe_one clock) (i, false) (values current) in
  let w2 := foldl (disappear_one clock) w1 (disappeared_panes st current w1.1) in
  foldl forget_one w2 (removed_panes st w2.1).

(** ** A mirror of a history observed elsewhere *)

Definition max_list_N (l : list N) : option N :=
  match l with [] => None | x :: l' => Some (foldl N.max x l') end.

Definition mirror (l : list AttentionEvent) : AttentionIndex := {|
  next_event_id := default 0%N (max_list_N ((λ e, u64_saturating_add (ev_id e) 1) <$> l));
  observations := ∅;
  events := l;
|}.

Definition id_le (a b : AttentionEvent) : Prop := (ev_id a ≤ ev_id b)%N.
#[export] Instance id_le_dec : RelDecision id_le.
Proof. intros a b. unfold id_le. apply _. Defined.

(** Replace the first event with this identifier, if there is one. *)
Fixpoint replace_event (e : AttentionEvent) (l : list AttentionEvent)
    : option (list AttentionEvent) :=
  match l with
  | [] => None
  | held :: l' =>
      if (ev_id held =? ev_id e)%N then Some (e :: l')
      else (cons held) <$> replace_event e l'
  end.

Definition apply_event (e : AttentionEvent) (i : AttentionIndex) : step :=
  match replace_event e (events i) with
  | Some l => (set_events i l, false)
  | None =>
      ({| next_event_id := N.max (next_event_id i) (u64_saturating_add (ev_id e) 1);
          observations := observations i;
          events := keep_last MAX_ATTENTION_EVENTS (merge_sort id_le (events i ++ [e])) |}, true)
  end.

(** ** Read state *)

Definition unread_count (i : AttentionIndex) : nat :=
  length (filter (λ e, ev_unread e = true) (events i)).

Definition has_unread_for_pane (i : AttentionIndex) (pane : PaneId) : bool :=
  existsb (λ e, ev_unread e && bool_decide (ev_pane e = pane)) (events i).

Definition seen (e : AttentionEvent) : AttentionEvent := {|
  ev_id := ev_id e; ev_pane := ev_pane e; ev_agent := ev_agent e; ev_workspace := ev_workspace e;
  ev_status := ev_status e; ev_kind := ev_kind e; ev_occurred_at_ms := ev_occurred_at_ms e;
  ev_unread := false;
|}.

(** Mark the unread events that satisfy [p], and say whether there were any. *)
Definition mark_where (p : AttentionEvent → bool) (i : AttentionIndex) : step :=
  (set_events i ((λ e, if ev_unread e && p e then seen e else e) <$> events i),
   existsb (λ e, ev_unread e && p e) (events i)).

Definition mark_seen_for_pane (pane : PaneId) : AttentionIndex → step :=
  mark_where (λ e, bool_decide (ev_pane e = pane)).
Definition mark_all_seen : AttentionIndex → step := mark_where (λ _, true).

Definition clear_seen (i : AttentionIndex) : step :=
  let kept := filter (λ e, ev_unread e = true) (events i) in
  (set_events i kept, negb (length (events i) =? length kept)).

(** ** Persistence *)

Record PersistedAttention := {
  pa_version : N;
  pa_next_event_id : N;
  pa_observations : list AgentObservation;
  pa_events : list AttentionEvent;
}.

Inductive PersistedError := UnsupportedVersion | TooManyObservations | TooManyEvents
  | DuplicateObservation.

Definition persist (i : AttentionIndex) : PersistedAttention := {|
  pa_version := ATTENTION_STATE_VERSION;
  pa_next_event_id := next_event_id i;
  pa_observations := values (observations i);
  pa_events := events i;
|}.

Fixpoint load_observations (l : list AgentObservation) (m : gmap PaneId AgentObservation)
    : result PersistedError (gmap PaneId AgentObservation) :=
  match l with
  | [] => Ok m
  | o :: l' =>
      match m !! ob_pane o with
      | Some _ => Err DuplicateObservation
      | None => load_observations l' (<[ob_pane o := o]> m)
      end
  end.

Definition try_from (p : PersistedAttention) : result PersistedError AttentionIndex :=
  if negb (pa_version p =? ATTENTION_STATE_VERSION)%N then Err UnsupportedVersion
  else if MAX_AGENT_OBSERVATIONS <? length (pa_observations p) then Err TooManyObservations
  else if MAX_ATTENTION_EVENTS <? length (pa_events p) then Err TooManyEvents
  else
    m ← load_observations (pa_observations p) ∅;
    Ok {| next_event_id :=
            match max_list_N (ev_id <$> pa_events p) with
            | None => pa_next_event_id p
            | Some id => N.max (pa_next_event_id p) (u64_saturating_add id 1)
            end;
          observations := m;
          events := pa_events p |}.
