(* ===== verification/AttentionFacts.v ===== *)
(** What holds of the attention index: exactly which transitions one
    observation records, that a disconnect is never mistaken for a
    disappearance, that the history stays ordered and bounded, and that it
    survives being written to disk. *)

From S2P Require Import Prelude Model State StateFacts Examples Attention.

(** ** The reference account of one observation *)

(** The records an observation adds, oldest first: the transitions of the
    agents still present, then the agents that are gone. *)
Definition transitions (m : gmap PaneId AgentObservation) (l : list AgentObservation)
    : list (AgentObservation * AttentionEventKind) :=
  omap (λ o, previous ← m !! ob_pane o; (pair o) <$> transition_kind previous o) l.
Definition disappearances (m : gmap PaneId AgentObservation) (l : list PaneId)
    : list (AgentObservation * AttentionEventKind) :=
  omap (λ pane, (λ o, (o, Disappeared)) <$> m !! pane) l.

Definition new_records (st : FederationState) (i : AttentionIndex)
    : list (AgentObservation * AttentionEventKind) :=
  let current := current_observations st in
  transitions (observations i) (values current) ++
  disappearances (observations i)
    (disappeared_panes st current i).

(** Numbering and stamping records from an identifier on. *)
Fixpoint number (clock : N → N) (id : N) (l : list (AgentObservation * AttentionEventKind))
    : list AttentionEvent :=
  match l with
  | [] => []
  | (o, kind) :: l' => event_of id (clock id) o kind :: number clock (u64_saturating_add id 1) l'
  end.

Fixpoint advance (id : N) (n : nat) : N :=
  match n with O => id | S n' => advance (u64_saturating_add id 1) n' end.

(** What is known about a pane after an observation. *)
Definition settled (st : FederationState) (i : AttentionIndex) (pane : PaneId)
    : option AgentObservation :=
  if decide (targets st !! target_session pane = None) then None
  else match current_observations st !! pane with
       | Some o => Some o
       | None => if decide (target_session pane ∈ live_sessions st) then None
                 else observations i !! pane
       end.

(** ** Pushing records *)

Definition push_all (clock : N → N) (l : list (AgentObservation * AttentionEventKind))
    (i : AttentionIndex) : AttentionIndex :=
  foldl (λ i ok, push_event clock ok.1 ok.2 i) i l.

Section facts.
Variable clock : N → N.
Implicit Types i : AttentionIndex.

Lemma push_all_eq l i :
  push_all clock l i = {|
    next_event_id := advance (next_event_id i) (length l);
    observations := observations i;
    events := match l with
              | [] => events i
              | _ => keep_last MAX_ATTENTION_EVENTS (events i ++ number clock (next_event_id i) l)
              end |}.
Proof.
  unfold push_all. revert i. induction l as [|[o kind] l IH]; intros i; [by destruct i|].
  simpl. rewrite IH; clear IH. simpl. f_equal.
  destruct l as [|ok l]; [done|]. by rewrite keep_last_app, <-app_assoc.
Qed.

Lemma push_all_app l1 l2 i : push_all clock (l1 ++ l2) i = push_all clock l2 (push_all clock l1 i).
Proof. apply foldl_app. Qed.

Lemma push_all_observations l i : observations (push_all clock l i) = observations i.
Proof. by rewrite push_all_eq. Qed.

Lemma push_all_set l i m :
  push_all clock l (set_observations i m) = set_observations (push_all clock l i) m.
Proof. rewrite !push_all_eq. by destruct l. Qed.

(** ** The three phases *)

Definition overlay (m : gmap PaneId AgentObservation) (l : list AgentObservation) :=
  foldl (λ m o, <[ob_pane o := o]> m) m l.

Lemma observe_one_eq i c o :
  (observe_one clock (i, c) o).1 =
    set_observations (push_all clock (transitions (observations i) [o]) i)
      (<[ob_pane o := o]> (observations i)).
Proof.
  unfold observe_one, transitions; csimpl. destruct (observations i !! ob_pane o) as [p|] eqn:Hp;
    csimpl; [|by destruct i].
  destruct (transition_kind p o) as [kind|]; csimpl.
  - destruct (bool_decide (p = o)) eqn:Hb; csimpl; [|done].
    apply bool_decide_eq_true in Hb as ->. rewrite insert_id by done. by destruct i.
  - destruct (bool_decide (p = o)) eqn:Hb; csimpl; [|by destruct i].
    apply bool_decide_eq_true in Hb as ->. rewrite insert_id by done. by destruct i.
Qed.

Lemma transitions_insert m o l :
  ob_pane o ∉ ob_pane <$> l → transitions (<[ob_pane o := o]> m) l = transitions m l.
Proof.
  intros Ho. induction l as [|o' l IH]; [done|]. csimpl in Ho.
  apply not_elem_of_cons in Ho as [Hne Ho]. csimpl.
  rewrite lookup_insert_ne by done. by rewrite IH.
Qed.

Lemma transitions_cons m o l : transitions m (o :: l) = transitions m [o] ++ transitions m l.
Proof. csimpl. destruct (m !! ob_pane o); csimpl; [|done]. by destruct (transition_kind _ o). Qed.

Lemma observe_phase l i c :
  NoDup (ob_pane <$> l) →
  (foldl (observe_one clock) (i, c) l).1 =
    set_observations (push_all clock (transitions (observations i) l) i)
      (overlay (observations i) l).
Proof.
  revert i c. induction l as [|o l IH]; intros i c Hnd; [by destruct i|].
  csimpl in Hnd. apply NoDup_cons in Hnd as [Ho Hnd]. cbn [foldl].
  pose proof (observe_one_eq i c o) as E.
  destruct (observe_one clock (i, c) o) as [i1 c1]; simpl in E.
  rewrite IH by done. rewrite E. cbn [observations set_observations].
  rewrite push_all_set, transitions_insert by done.
  rewrite (transitions_cons _ o l), push_all_app. done.
Qed.

Lemma disappear_one_eq i c p :
  (disappear_one clock (i, c) p).1 =
    set_observations (push_all clock (disappearances (observations i) [p]) i)
      (delete p (observations i)).
Proof.
  unfold disappear_one, disappearances; csimpl.
  destruct (observations i !! p) as [o|] eqn:E; csimpl; [done|].
  rewrite delete_id by done. by destruct i.
Qed.

Lemma disappearances_cons m p panes :
  disappearances m (p :: panes) = disappearances m [p] ++ disappearances m panes.
Proof. unfold disappearances; csimpl. by destruct (m !! p). Qed.

Lemma disappearances_delete m p panes :
  p ∉ panes → disappearances (delete p m) panes = disappearances m panes.
Proof.
  unfold disappearances. intros Hp. induction panes as [|q panes IH]; [done|].
  apply not_elem_of_cons in Hp as [Hne Hp]. csimpl.
  rewrite lookup_delete_ne by done. by rewrite IH.
Qed.

Lemma disappear_phase panes i c :
  NoDup panes →
  (foldl (disappear_one clock) (i, c) panes).1 =
    set_observations (push_all clock (disappearances (observations i) panes) i)
      (foldl (λ m p, delete p m) (observations i) panes).
Proof.
  revert i c. induction panes as [|p panes IH]; intros i c Hnd; [by destruct i|].
  apply NoDup_cons in Hnd as [Hp Hnd]. cbn [foldl].
  pose proof (disappear_one_eq i c p) as E.
  destruct (disappear_one clock (i, c) p) as [i1 c1]; simpl in E.
  rewrite IH by done. rewrite E. cbn [observations set_observations].
  rewrite push_all_set, disappearances_delete by done.
  rewrite (disappearances_cons _ p panes), push_all_app. done.
Qed.

Lemma forget_phase panes i c :
  (foldl forget_one (i, c) panes).1 =
    set_observations i (foldl (λ m p, delete p m) (observations i) panes).
Proof.
  revert i c. induction panes as [|p panes IH]; intros i c; [by destruct i|].
  cbn [foldl forget_one]. by rewrite IH.
Qed.

(** *** Lookups after each phase *)

Lemma deletes_lookup (m : gmap PaneId AgentObservation) panes q :
  foldl (λ m p, delete p m) m panes !! q = if decide (q ∈ panes) then None else m !! q.
Proof.
  revert m. induction panes as [|p panes IH]; intros m; cbn [foldl].
  { case_decide as H; [by apply elem_of_nil in H|done]. }
  rewrite IH. destruct (decide (q ∈ p :: panes)) as [Hin|Hin]; case_decide as H1; try done.
  - apply elem_of_cons in Hin as [->|]; [by rewrite lookup_delete_eq|done].
  - rewrite elem_of_cons in Hin. naive_solver.
  - rewrite elem_of_cons in Hin. rewrite lookup_delete_ne; [done|naive_solver].
Qed.

Lemma overlay_lookup m l q :
  overlay m l !! q =
    match collect_map ((λ o, (ob_pane o, o)) <$> l) !! q with Some o => Some o | None => m !! q end.
Proof.
  unfold overlay. induction l as [|o l IH] using rev_ind; [done|].
  rewrite foldl_app, fmap_app. csimpl. rewrite collect_map_snoc. cbn [fst snd].
  rewrite !lookup_insert. case_decide; [done|]. apply IH.
Qed.

(** Observations sit under the pane they are about. *)
Definition obs_keyed (m : gmap PaneId AgentObservation) : Prop :=
  ∀ p o, m !! p = Some o → ob_pane o = p.

Lemma current_keyed st : obs_keyed (current_observations st).
Proof.
  intros p o Hin%collect_map_lookup.
  apply list_elem_of_bind in Hin as (ks & (agent & [= -> ->] & _)%list_elem_of_fmap & _). done.
Qed.

Lemma current_values_entries st :
  (λ o, (ob_pane o, o)) <$> values (current_observations st) = entries (current_observations st).
Proof.
  pose proof (current_keyed st) as Hk. unfold values, entries.
  induction (keys (current_observations st)) as [|p l IH]; [done|]. csimpl.
  destruct (current_observations st !! p) as [o|] eqn:E; csimpl; [|done].
  by rewrite IH, (Hk p o E).
Qed.

Lemma current_values_NoDup st : NoDup (ob_pane <$> values (current_observations st)).
Proof.
  replace (ob_pane <$> values (current_observations st))
    with (((λ o, (ob_pane o, o)) <$> values (current_observations st)).*1)
    by (rewrite <-list_fmap_compose; done).
  rewrite current_values_entries, NoDup_entries_keys. apply NoDup_keys.
Qed.

Lemma overlay_current m st q :
  overlay m (values (current_observations st)) !! q =
    match current_observations st !! q with Some o => Some o | None => m !! q end.
Proof. by rewrite overlay_lookup, current_values_entries, collect_entries. Qed.

(** *** The whole observation *)

Lemma disappearances_ext m1 m2 panes :
  (∀ p, p ∈ panes → m1 !! p = m2 !! p) → disappearances m1 panes = disappearances m2 panes.
Proof.
  unfold disappearances. induction panes as [|p panes IH]; intros Hext; [done|]. csimpl.
  rewrite (Hext p) by (by left). rewrite IH; [done|]. intros q Hq. apply Hext. by right.
Qed.

Lemma observe_eq st i :
  ∃ m, (observe clock st i).1 = set_observations (push_all clock (new_records st i) i) m ∧
       ∀ pane, m !! pane = settled st i pane.
Proof.
  unfold observe.
  pose proof (observe_phase (values (current_observations st)) i false (current_values_NoDup st)) as H1.
  destruct (foldl (observe_one clock) (i, false) (values (current_observations st))) as [i1 c1]; simpl in H1.
  set (panes1 := disappeared_panes st (current_observations st) (i1, c1).1).
  assert (panes1 = disappeared_panes st (current_observations st) i) as Hp1.
  { unfold panes1, disappeared_panes. apply keys_filter_ext. intros p [_ Hp].
    simpl. rewrite H1. cbn [observations set_observations].
    by rewrite overlay_current, Hp. }
  clearbody panes1. subst panes1.
  pose proof (disappear_phase (disappeared_panes st (current_observations st) i) i1 c1 (NoDup_filter _ _ (NoDup_keys _))) as H2.
  destruct (foldl (disappear_one clock) (i1, c1) _) as [i2 c2]; simpl in H2.
  pose proof (forget_phase (removed_panes st (i2, c2).1) i2 c2) as H3.
  rewrite H3; clear H3. simpl. rewrite H2, H1. cbn [observations set_observations].
  rewrite !push_all_set. cbn [set_observations]. eexists. split.
  - unfold new_records. rewrite push_all_app.
    rewrite (disappearances_ext (overlay _ _) (observations i)); [reflexivity|].
    intros p [[_ Hp] _]%list_elem_of_filter. by rewrite overlay_current, Hp.
  - intros pane. rewrite deletes_lookup. cbn [observations set_observations].
    assert (pane ∈ disappeared_panes st (current_observations st) i ↔
      (target_session pane ∈ live_sessions st ∧ current_observations st !! pane = None) ∧
      is_Some (observations i !! pane)) as Hd
      by (unfold disappeared_panes; by rewrite list_elem_of_filter, elem_of_keys).
    set (m := foldl _ _ _).
    assert (m !! pane = if decide (pane ∈ disappeared_panes st (current_observations st) i)
      then None else match current_observations st !! pane with
                     | Some o => Some o | None => observations i !! pane end) as Hm.
    { unfold m. by rewrite deletes_lookup, overlay_current. }
    assert (∀ j, pane ∈ removed_panes st (set_observations j m) ↔
      targets st !! target_session pane = None ∧ is_Some (m !! pane)) as Hr
      by (intros; unfold removed_panes; by rewrite list_elem_of_filter, elem_of_keys).
    destruct (decide (pane ∈ removed_panes _ _)) as [Hin|Hin]; rewrite Hr in Hin; clear Hr.
    + unfold settled. by rewrite decide_True by apply Hin.
    + clearbody m. rewrite Hm in *. clear Hm m. unfold settled.
      destruct (decide (pane ∈ disappeared_panes _ _ _)) as [Hd'|Hd']; rewrite Hd in Hd'; clear Hd.
      * destruct Hd' as [[Hl Hc] _]. rewrite Hc. repeat case_decide; done.
      * destruct (current_observations st !! pane) as [o|] eqn:Hc.
        { rewrite decide_False; [done|]. naive_solver. }
        destruct (observations i !! pane) as [o|] eqn:Ho; repeat case_decide; naive_solver.
Qed.

(** *** Live snapshots of a well-formed federation *)

Lemma elem_of_live_snapshots st ts s :
  (ts, s) ∈ live_snapshots st ↔
  ∃ k t, targets st !! k = Some t ∧ connection t = Live ∧ snapshot t = Some s ∧ key t = ts.
Proof.
  unfold live_snapshots, is_live. rewrite list_elem_of_bind. split.
  - intros (t & Hin & [k Hk]%elem_of_values). case_bool_decide; [|by apply elem_of_nil in Hin].
    destruct (snapshot t) eqn:Hs; [|by apply elem_of_nil in Hin].
    apply list_elem_of_singleton in Hin. naive_solver.
  - intros (k & t & Hk & Hl & Hs & <-). exists t. rewrite bool_decide_eq_true_2, Hs by done.
    rewrite elem_of_values. split; [by left|by exists k].
Qed.

Lemma elem_of_live_sessions st ts :
  federation_wf st →
  ts ∈ live_sessions st ↔
  ∃ t s, targets st !! ts = Some t ∧ connection t = Live ∧ snapshot t = Some s.
Proof.
  intros Hwf. unfold live_sessions. rewrite list_elem_of_fmap. split.
  - intros ([ts' s] & -> & (k & t & Hk & Hl & Hs & <-)%elem_of_live_snapshots). simpl.
    rewrite (wf_key _ _ (Hwf _ _ Hk)). eauto.
  - intros (t & s & Hk & Hl & Hs). exists (ts, s). split; [done|].
    apply elem_of_live_snapshots. exists ts, t. by rewrite (wf_key _ _ (Hwf _ _ Hk)).
Qed.

Lemma current_lookup st pane :
  federation_wf st →
  is_Some (current_observations st !! pane) ↔
  ∃ t s a, targets st !! target_session pane = Some t ∧ connection t = Live ∧
           snapshot t = Some s ∧ agents s !! pane = Some a.
Proof.
  intros Hwf. unfold current_observations. rewrite collect_map_lookup_is_Some, list_elem_of_fmap.
  split.
  - intros ([p o] & -> & ([ts s] & (a & [= -> ->] & [p' Ha]%elem_of_values)%list_elem_of_fmap
      & (k & t & Hk & Hl & Hs & _)%elem_of_live_snapshots)%list_elem_of_bind). simpl in *.
    destruct (wf_agents _ _ (wf_snapshot _ _ (Hwf _ _ Hk) _ Hs)) as [Hkey Hts].
    pose proof (Hkey _ _ Ha) as Hp. unfold wire_key, AgentState_keyed in Hp.
    rewrite Hp, (Hts _ _ Ha). naive_solver.
  - intros (t & s & a & Hk & Hl & Hs & Ha).
    destruct (wf_agents _ _ (wf_snapshot _ _ (Hwf _ _ Hk) _ Hs)) as [Hkey _].
    pose proof (Hkey _ _ Ha) as Hp. unfold wire_key, AgentState_keyed in Hp.
    exists (pane, observe_agent s a). split; [done|]. apply list_elem_of_bind.
    exists (key t, s). split; [|apply elem_of_live_snapshots; eauto 10].
    apply list_elem_of_fmap. exists a. simpl. rewrite Hp. split; [done|].
    apply elem_of_values. eauto.
Qed.

(** *** Records and their numbers *)

Lemma elem_of_number id l e :
  e ∈ number clock id l → ∃ id' o kind, (o, kind) ∈ l ∧ e = event_of id' (clock id') o kind.
Proof.
  revert id. induction l as [|[o kind] l IH]; intros id; simpl.
  { by intros ?%elem_of_nil. }
  intros [->|(id' & o' & k' & Hin & ->)%IH]%elem_of_cons; do 3 eexists;
    (split; [|reflexivity]); rewrite elem_of_cons; auto.
Qed.

Lemma transition_kind_not_disappeared p o : transition_kind p o ≠ Some Disappeared.
Proof. unfold transition_kind. repeat case_match; congruence. Qed.

Lemma transition_kind_refl o : transition_kind o o = None.
Proof.
  unfold transition_kind. rewrite bool_decide_eq_true_2 by done.
  by destruct (ob_interactive_ready o).
Qed.

Lemma new_records_disappeared st i o :
  (o, Disappeared) ∈ new_records st i →
  ∃ p, observations i !! p = Some o ∧ target_session p ∈ live_sessions st ∧
       current_observations st !! p = None.
Proof.
  unfold new_records, transitions, disappearances, disappeared_panes.
  rewrite elem_of_app, !list_elem_of_omap. intros [(o' & _ & Ho')|(p & Hp & Ho)].
  - apply bind_Some in Ho' as (q & _ & (k & Hk & [= -> <-])%fmap_Some).
    by apply transition_kind_not_disappeared in Hk.
  - apply fmap_Some in Ho as (o' & Ho & [= ->]).
    apply list_elem_of_filter in Hp as [[??] _]. eauto.
Qed.

Lemma observe_fields st i :
  (observe clock st i).1 =
    {| next_event_id := advance (next_event_id i) (length (new_records st i));
       observations := observations (observe clock st i).1;
       events := match new_records st i with [] => events i | l =>
         keep_last MAX_ATTENTION_EVENTS (events i ++ number clock (next_event_id i) l) end |}.
Proof.
  destruct (observe_eq st i) as (m & -> & _). rewrite push_all_eq. simpl.
  by destruct (new_records st i).
Qed.

Lemma observe_events st i :
  length (events i) ≤ MAX_ATTENTION_EVENTS →
  events (observe clock st i).1 =
    keep_last MAX_ATTENTION_EVENTS (events i ++ number clock (next_event_id i) (new_records st i)).
Proof.
  intros Hlen. rewrite observe_fields. simpl. destruct (new_records st i); [|done].
  simpl. by rewrite app_nil_r, keep_last_all.
Qed.

Lemma observe_settled st i pane :
  observations (observe clock st i).1 !! pane = settled st i pane.
Proof. destruct (observe_eq st i) as (m & -> & Hm). apply Hm. Qed.
End facts.

Lemma observe_keyed clock st i :
  obs_keyed (observations i) → obs_keyed (observations (observe clock st i).1).
Proof.
  intros Hi p o. rewrite observe_settled. unfold settled. case_decide; [done|].
  destruct (current_observations st !! p) as [o'|] eqn:E.
  - intros [= <-]. by apply (current_keyed st).
  - case_decide; [done|]. apply Hi.
Qed.

(** ** The history *)

Record history_wf (i : AttentionIndex) : Prop := {
  hist_sorted : StronglySorted (λ a b, (ev_id a < ev_id b)%N) (events i);
  hist_bounded : length (events i) ≤ MAX_ATTENTION_EVENTS;
  hist_below : ∀ e, e ∈ events i → (ev_id e < next_event_id i)%N;
}.

(** Every way the index changes. *)
Inductive attention_step : AttentionIndex → AttentionIndex → Prop :=
  | step_observe clock st i : attention_step i (observe clock st i).1
  | step_apply e i : attention_step i (apply_event e i).1
  | step_mark_pane pane i : attention_step i (mark_seen_for_pane pane i).1
  | step_mark_all i : attention_step i (mark_all_seen i).1
  | step_clear i : attention_step i (clear_seen i).1.

Lemma push_event_wf clock o kind i :
  (next_event_id (push_event clock o kind i) < u64_max)%N →
  history_wf i → history_wf (push_event clock o kind i).
Proof.
  unfold push_event, u64_saturating_add; simpl. intros Hmax [Hs Hb Hn]. split; simpl.
  - eapply StronglySorted_suffix; [apply keep_last_suffix|].
    apply StronglySorted_snoc; [done|]. intros e He. simpl. by apply Hn.
  - rewrite length_keep_last. lia.
  - intros e He%elem_of_keep_last. unfold u64_saturating_add. apply elem_of_app in He as [He|He].
    + apply Hn in He. lia.
    + apply list_elem_of_singleton in He as ->. simpl. lia.
Qed.

Lemma advance_lt n k : (advance n k < u64_max)%N → advance n k = (n + N.of_nat k)%N.
Proof.
  revert n. induction k as [|k IH]; intros n; simpl; [lia|].
  intros Hlt. pose proof (IH _ Hlt) as E. rewrite E in *. unfold u64_saturating_add in *. lia.
Qed.

Lemma push_all_wf clock l i :
  (next_event_id (push_all clock l i) < u64_max)%N →
  history_wf i → history_wf (push_all clock l i).
Proof.
  induction l as [|[o k] l IH] using rev_ind; [done|]. rewrite push_all_app.
  intros Hmax Hi. apply push_event_wf; [exact Hmax|]. apply IH; [|done].
  unfold push_all in Hmax. simpl in Hmax. unfold u64_saturating_add in Hmax. unfold push_all. lia.
Qed.

Lemma history_wf_ext i j :
  events i = events j → next_event_id i = next_event_id j → history_wf i → history_wf j.
Proof. intros He Hn [H1 H2 H3]. split; rewrite <-?He, <-?Hn; done. Qed.

Lemma observe_history_wf clock st i :
  (next_event_id (observe clock st i).1 < u64_max)%N →
  history_wf i → history_wf (observe clock st i).1.
Proof.
  destruct (observe_eq clock st i) as (m & -> & _). intros Hmax Hi.
  eapply history_wf_ext; [..|apply (push_all_wf clock (new_records st i) i Hmax Hi)]; done.
Qed.

(** *** Applying one event *)

Lemma replace_event_spec e l :
  match replace_event e l with
  | Some l' => ev_id <$> l' = ev_id <$> l ∧ e ∈ l'
  | None => ∀ e', e' ∈ l → ev_id e' ≠ ev_id e
  end.
Proof.
  induction l as [|held l IH]; [by intros ? ?%elem_of_nil|]. cbn [replace_event].
  destruct (N.eqb_spec (ev_id held) (ev_id e)) as [E|E].
  - csimpl. rewrite E. split; [done|by left].
  - destruct (replace_event e l) as [l'|]; csimpl.
    + destruct IH as [-> ?]. split; [done|by right].
    + intros e' [->|?]%elem_of_cons; auto.
Qed.

Lemma sorted_ids l :
  StronglySorted (λ a b, (ev_id a < ev_id b)%N) l ↔ StronglySorted N.lt (ev_id <$> l).
Proof.
  induction l as [|e l IH]; csimpl; [split; constructor|].
  split; intros [Hl He]%StronglySorted_inv; constructor; try (by apply IH).
  - rewrite Forall_fmap. exact He.
  - rewrite Forall_fmap in He. exact He.
Qed.

Lemma merge_sort_ids_strict l :
  NoDup (ev_id <$> l) →
  StronglySorted (λ a b, (ev_id a < ev_id b)%N) (merge_sort id_le l).
Proof.
  intros Hnd.
  assert (Total id_le) by (intros a b; unfold id_le; lia).
  assert (Transitive id_le) by (intros a b c; unfold id_le; lia).
  assert (StronglySorted id_le (merge_sort id_le l)) as Hs by by apply StronglySorted_merge_sort.
  assert (NoDup (ev_id <$> merge_sort id_le l)) as Hnd' by by rewrite merge_sort_Permutation.
  induction Hs as [|e l' Hl' IH He]; [constructor|]. csimpl in Hnd'.
  apply NoDup_cons in Hnd' as [Hni Hnd']. constructor; [by apply IH|].
  apply Forall_forall. intros e' He'. rewrite Forall_forall in He. specialize (He e' He').
  unfold id_le in He. assert (ev_id e ≠ ev_id e'); [|lia]. intros E. apply Hni. rewrite E.
  by apply list_elem_of_fmap_2.
Qed.

Lemma sorted_ids_NoDup l :
  StronglySorted (λ a b, (ev_id a < ev_id b)%N) l → NoDup (ev_id <$> l).
Proof.
  induction 1 as [|e l Hl IH He]; csimpl; constructor; [|done].
  intros (e' & E & He')%list_elem_of_fmap. rewrite Forall_forall in He.
  specialize (He e' He'). lia.
Qed.

Lemma apply_event_wf e i :
  (next_event_id (apply_event e i).1 < u64_max)%N →
  history_wf i → history_wf (apply_event e i).1.
Proof.
  unfold apply_event. pose proof (replace_event_spec e (events i)) as Hr.
  destruct (replace_event e (events i)) as [l'|]; simpl; intros Hmax [Hs Hb Hn].
  - destruct Hr as [Hids _].
    assert (length l' = length (events i)) as Hlen.
    { apply (f_equal length) in Hids. by rewrite !length_fmap in Hids. }
    split; simpl; [by apply sorted_ids; rewrite Hids; apply sorted_ids|by rewrite Hlen|].
    intros e' He'. apply (list_elem_of_fmap_2 ev_id) in He'. rewrite Hids in He'.
    apply list_elem_of_fmap in He' as (e0 & -> & He0). by apply Hn.
  - unfold u64_saturating_add in Hmax.
    assert (Total id_le) by (intros a b; unfold id_le; lia).
    split; simpl.
    + eapply StronglySorted_suffix; [apply keep_last_suffix|]. apply merge_sort_ids_strict.
      rewrite fmap_app. apply NoDup_app. split; [by apply sorted_ids_NoDup|]. csimpl.
      split; [|apply NoDup_singleton]. intros x (e' & -> & He')%list_elem_of_fmap.
      rewrite list_elem_of_singleton. by apply Hr.
    + rewrite length_keep_last. lia.
    + intros e' He'%elem_of_keep_last. rewrite merge_sort_Permutation in He'.
      unfold u64_saturating_add.
      apply elem_of_app in He' as [He'|He']; [apply Hn in He'; lia|].
      apply list_elem_of_singleton in He' as ->. lia.
Qed.

Lemma mark_where_wf p i : history_wf i → history_wf (mark_where p i).1.
Proof.
  intros [Hs Hb Hn]. unfold mark_where; simpl.
  set (f := λ e, if ev_unread e && p e then seen e else e).
  assert (∀ e, ev_id (f e) = ev_id e) as Hf by (intros e; unfold f; by case_match).
  split; simpl.
  - apply sorted_ids. rewrite <-list_fmap_compose.
    erewrite list_fmap_ext; [by apply sorted_ids|]. intros ? e _. apply Hf.
  - by rewrite length_fmap.
  - intros e (e' & -> & He')%list_elem_of_fmap. rewrite Hf. by apply Hn.
Qed.

Lemma clear_seen_wf i : history_wf i → history_wf (clear_seen i).1.
Proof.
  intros [Hs Hb Hn]. split; simpl.
  - by apply StronglySorted_filter.
  - etransitivity; [apply length_filter|done].
  - intros e [_ He]%list_elem_of_filter. by apply Hn.
Qed.

(** ** Persistence *)

Lemma load_observations_values l acc :
  NoDup (ob_pane <$> l) → (∀ o, o ∈ l → acc !! ob_pane o = None) →
  load_observations l acc = Ok (overlay acc l).
Proof.
  revert acc. induction l as [|o l IH]; intros acc Hnd Hacc; [done|].
  csimpl in Hnd. apply NoDup_cons in Hnd as [Ho Hnd]. cbn [load_observations].
  rewrite Hacc by by left. rewrite IH; [done|done|]. intros o' Ho'.
  rewrite lookup_insert_ne; [apply Hacc; by right|]. intros E. apply Ho. rewrite E.
  by apply list_elem_of_fmap_2.
Qed.

Lemma overlay_values (m : gmap PaneId AgentObservation) :
  obs_keyed m → overlay ∅ (values m) = m ∧ NoDup (ob_pane <$> values m).
Proof.
  intros Hm.
  assert ((λ o, (ob_pane o, o)) <$> values m = entries m) as He.
  { unfold values, entries. induction (keys m) as [|p l IH]; [done|]. csimpl.
    destruct (m !! p) as [o|] eqn:E; csimpl; [|done]. by rewrite IH, (Hm p o E). }
  split.
  - apply map_eq. intros p. rewrite overlay_lookup, He, collect_entries.
    by destruct (m !! p).
  - replace (ob_pane <$> values m) with (((λ o, (ob_pane o, o)) <$> values m).*1)
      by (rewrite <-list_fmap_compose; done).
    rewrite He, NoDup_entries_keys. apply NoDup_keys.
Qed.

Lemma max_list_N_spec l :
  match max_list_N l with
  | None => l = []
  | Some x => x ∈ l ∧ ∀ y, y ∈ l → (y ≤ x)%N
  end.
Proof.
  destruct l as [|x l]; [done|]. simpl. revert x.
  induction l as [|y l IH]; intros x; simpl.
  - split; [by left|]. intros z Hz. apply list_elem_of_singleton in Hz as ->. done.
  - destruct (IH (N.max x y)) as [Hin Hle]. split.
    + rewrite !elem_of_cons in *. destruct Hin as [->|Hin]; [|auto].
      destruct (N.max_spec x y) as [[_ ->]|[_ ->]]; auto.
    + assert (N.max x y ≤ foldl N.max (N.max x y) l)%N by (apply Hle; by left).
      intros z. rewrite !elem_of_cons. intros [E|[E|Hz]]; [lia|lia|]. apply Hle. by right.
Qed.

(** ** Properties *)

(** One observation, exactly. The history afterwards is the old one
    followed by one numbered event per transition of a present agent and then
    per agent that is gone, trimmed to the newest 256; the identifier counter
    advances once per event; and what is remembered of each pane is its
    current observation if it has one, nothing if its session is live without
    it or has left the federation, and what was known before otherwise. *)
Theorem observe_spec clock st i :
  length (events i) ≤ MAX_ATTENTION_EVENTS →
  events (observe clock st i).1 =
    keep_last MAX_ATTENTION_EVENTS (events i ++ number clock (next_event_id i) (new_records st i)) ∧
  next_event_id (observe clock st i).1 = advance (next_event_id i) (length (new_records st i)) ∧
  ∀ pane, observations (observe clock st i).1 !! pane = settled st i pane.
Proof.
  intros Hlen. split; [by apply observe_events|split].
  - by rewrite observe_fields.
  - intros pane. apply observe_settled.
Qed.

(** C28. A disconnect is never reported as a disappearance. Every new
    disappearance is of a pane whose target is live and whose snapshot no
    longer lists an agent there; and while a known target is not live, what is
    remembered about each of its panes does not change. *)
Theorem disconnect_is_not_disappearance clock st i :
  federation_wf st →
  obs_keyed (observations i) →
  length (events i) ≤ MAX_ATTENTION_EVENTS →
  (∀ e, e ∈ events (observe clock st i).1 → e ∉ events i → ev_kind e = Disappeared →
     ∃ t s, targets st !! target_session (ev_pane e) = Some t ∧ connection t = Live ∧
            snapshot t = Some s ∧ agents s !! ev_pane e = None) ∧
  (∀ pane t, targets st !! target_session pane = Some t → connection t ≠ Live →
     observations (observe clock st i).1 !! pane = observations i !! pane).
Proof.
  intros Hwf Hkey Hlen. split.
  - intros e He Hnew Hk. rewrite observe_events in He by done.
    apply elem_of_keep_last, elem_of_app in He as [He|He]; [done|].
    apply elem_of_number in He as (id & o & kind & Hin & ->). simpl in *. subst kind.
    apply new_records_disappeared in Hin as (p & Ho & Hl & Hc).
    rewrite (Hkey _ _ Ho). apply elem_of_live_sessions in Hl as (t & s & Ht & Hl & Hs); [|done].
    exists t, s. split_and!; try done. destruct (agents s !! p) as [a|] eqn:Ha; [|done].
    assert (is_Some (current_observations st !! p)) as [? Hc'];
      [apply current_lookup; eauto 10|congruence].
  - intros pane t Ht Hdown. rewrite observe_settled. unfold settled.
    rewrite decide_False by congruence.
    destruct (current_observations st !! pane) as [o|] eqn:Hc.
    { assert (is_Some (current_observations st !! pane)) as Hs by by eexists.
      apply current_lookup in Hs as (t' & ? & ? & ? & ? & _); [|done]. congruence. }
    rewrite decide_False; [done|]. intros Hl.
    apply elem_of_live_sessions in Hl as (t' & ? & ? & ? & _); [|done]. congruence.
Qed.

(** Repeated snapshots are deduplicated: observing the same federation
    again, whatever the clock says, changes nothing and reports that nothing
    changed. *)
Theorem observe_idempotent clock clock' st i :
  federation_wf st →
  observe clock' st (observe clock st i).1 = ((observe clock st i).1, false).
Proof.
  intros Hwf. set (j := (observe clock st i).1).
  assert (∀ pane, observations j !! pane = settled st i pane) as Hj
    by (intros; apply observe_settled).
  assert (∀ pane o, current_observations st !! pane = Some o → observations j !! pane = Some o)
    as Hcur.
  { intros pane o Ho. rewrite Hj. unfold settled. rewrite Ho, decide_False; [done|].
    assert (is_Some (current_observations st !! pane)) as Hs by by eexists.
    apply current_lookup in Hs as (t & ? & ? & ? & _); [|done]. congruence. }
  clearbody j. unfold observe. cbv zeta.
  assert (foldl (observe_one clock') (j, false) (values (current_observations st)) = (j, false))
    as ->.
  { assert (∀ o, o ∈ values (current_observations st) → observations j !! ob_pane o = Some o) as Hall.
    { intros o [p Hp]%elem_of_values. rewrite (current_keyed _ _ _ Hp). by apply Hcur. }
    induction (values (current_observations st)) as [|o l IH]; [done|]. cbn [foldl observe_one].
    rewrite (Hall o), transition_kind_refl, bool_decide_eq_true_2 by (done || by left).
    apply IH. intros o' Ho'. apply Hall. by right. }
  cbn [fst]. assert (disappeared_panes st (current_observations st) j = []) as ->.
  { apply elem_of_nil_inv. intros p [[Hl Hc] [o Ho]%elem_of_keys]%list_elem_of_filter.
    rewrite Hj in Ho. unfold settled in Ho. rewrite Hc in Ho.
    destruct (decide (target_session p ∈ live_sessions st)); case_decide; done. }
  cbn [foldl fst]. assert (removed_panes st j = []) as ->; [|done].
  apply elem_of_nil_inv. intros p [Hn [o Ho]%elem_of_keys]%list_elem_of_filter.
  rewrite Hj in Ho. unfold settled in Ho. by rewrite decide_True in Ho.
Qed.

(** The history is an ordered, bounded log. Every operation — observing a
    federation, applying an event from the daemon, marking, clearing — keeps
    the events strictly increasing in their identifiers, at most 256 of them,
    and all below the next identifier, as long as the 64-bit identifiers last;
    and a mirror seeded with such a log starts as one. *)
Theorem attention_history_invariant :
  (∀ i j, attention_step i j → (next_event_id j < u64_max)%N → history_wf i → history_wf j) ∧
  history_wf AttentionIndex_default ∧
  (∀ l, StronglySorted (λ a b, (ev_id a < ev_id b)%N) l → length l ≤ MAX_ATTENTION_EVENTS →
     (∀ e, e ∈ l → (ev_id e < u64_max)%N) → history_wf (mirror l)).
Proof.
  split; [|split].
  - intros i j [clock st k|e k|pane k|k|k] Hmax Hk;
      [by apply observe_history_wf|by apply apply_event_wf|by apply mark_where_wf..
      |by apply clear_seen_wf].
  - split; simpl; [constructor|lia|]. by intros e ?%elem_of_nil.
  - intros l Hs Hb Hmax. split; simpl; [done|done|]. intros e He.
    set (ids := (λ e, u64_saturating_add (ev_id e) 1) <$> l).
    pose proof (max_list_N_spec ids) as Hm.
    assert (u64_saturating_add (ev_id e) 1 ∈ ids) as Hin
      by by apply (list_elem_of_fmap_2 (λ e, u64_saturating_add (ev_id e) 1)).
    destruct (max_list_N ids) as [x|]; simpl.
    + destruct Hm as [_ Hm]. apply Hm in Hin. specialize (Hmax e He).
      unfold u64_saturating_add in Hin. lia.
    + rewrite Hm in Hin. by apply elem_of_nil in Hin.
Qed.

(** Writing the index to disk and reading it back is the identity, unless
    more than 4096 agents are being observed: nothing bounds the observations
    while they are collected, but the loader refuses the file that the daemon
    itself wrote. *)
Theorem attention_persistence_roundtrip i :
  history_wf i →
  obs_keyed (observations i) →
  try_from (persist i) =
    if MAX_AGENT_OBSERVATIONS <? size (observations i) then Err TooManyObservations else Ok i.
Proof.
  intros [Hs Hb Hn] Hk. destruct (overlay_values _ Hk) as [Hov Hnd].
  unfold try_from, persist. cbn [pa_version pa_observations pa_events pa_next_event_id].
  rewrite N.eqb_refl. simpl.
  assert (length (values (observations i)) = size (observations i)) as ->
    by by rewrite values_entries, length_fmap, <-length_keys, <-NoDup_entries_keys, length_fmap.
  destruct (_ <? size _); [done|].
  rewrite (proj2 (Nat.ltb_ge _ _)) by done.
  rewrite load_observations_values, Hov by (done || intros; apply lookup_empty). simpl.
  f_equal. destruct i as [n m l]; simpl in *. f_equal.
  pose proof (max_list_N_spec (ev_id <$> l)) as Hm.
  destruct (max_list_N (ev_id <$> l)) as [x|]; [|done].
  destruct Hm as [(e & -> & He)%list_elem_of_fmap _]. apply Hn in He.
  unfold u64_saturating_add. lia.
Qed.

(** ** Witnesses *)

Definition ex_clock : N → N := λ id, (1000 + id)%N.
Definition ex_index : AttentionIndex := (observe ex_clock ex_working AttentionIndex_default).1.
Definition ex_index2 : AttentionIndex := (observe ex_clock ex_blocked ex_index).1.

(** The first observation is a baseline, the second records that the agent now
    needs input, the third that it is gone. *)
Example ex_history :
  ev_kind <$> events ex_index = [] ∧
  ev_kind <$> events ex_index2 = [NeedsAttention] ∧
  ev_kind <$> events (observe ex_clock ex_gone ex_index2).1 = [NeedsAttention; Disappeared] ∧
  ev_kind <$> events (observe ex_clock ex_dropped ex_index2).1 = [NeedsAttention].
Proof. by vm_compute. Qed.

Lemma ex_index2_keyed : obs_keyed (observations ex_index2).
Proof. apply observe_keyed, observe_keyed. by intros p o [=]. Qed.

Lemma observe_spec_witness :
  events (observe ex_clock ex_gone ex_index2).1 =
    keep_last MAX_ATTENTION_EVENTS
      (events ex_index2 ++ number ex_clock 1 (new_records ex_gone ex_index2)).
Proof. apply (observe_spec ex_clock ex_gone ex_index2). by vm_compute; lia. Defined.

Lemma disconnect_is_not_disappearance_witness :
  observations (observe ex_clock ex_dropped ex_index2).1 !! ex_pane = observations ex_index2 !! ex_pane.
Proof.
  eapply (disconnect_is_not_disappearance ex_clock ex_dropped ex_index2).
  - apply ex_federation_wf.
  - apply ex_index2_keyed.
  - vm_compute. lia.
  - by vm_compute.
  - done.
Defined.

Lemma observe_idempotent_witness :
  observe ex_clock ex_blocked ex_index2 = (ex_index2, false).
Proof. apply (observe_idempotent ex_clock ex_clock ex_blocked ex_index), ex_federation_wf. Defined.

Lemma attention_history_invariant_witness : history_wf ex_index2.
Proof.
  destruct attention_history_invariant as (Hstep & Hinit & _).
  apply (Hstep _ _ (step_observe ex_clock ex_blocked ex_index)); [by vm_compute|].
  apply (Hstep _ _ (step_observe ex_clock ex_working AttentionIndex_default)); [by vm_compute|].
  exact Hinit.
Defined.

Lemma attention_persistence_roundtrip_witness : try_from (persist ex_index2) = Ok ex_index2.
Proof.
  transitivity (if MAX_AGENT_OBSERVATIONS <? size (observations ex_index2)
                then @Err PersistedError AttentionIndex TooManyObservations else Ok ex_index2);
    [|by vm_compute].
  apply (attention_persistence_roundtrip ex_index2); [|apply ex_index2_keyed].
  apply (observe_history_wf ex_clock ex_blocked ex_index); [by vm_compute|].
  apply (observe_history_wf ex_clock ex_working AttentionIndex_default); [by vm_compute|].
  split; simpl; [constructor|lia|]. by intros e ?%elem_of_nil.
Defined.
