(* ===== verification/AgentMarks.v ===== *)
(** Pins, mutes and snoozes: [src/src/agent_marks.rs].

    What holds of pins, mutes and snoozes ([AgentMarks]). *)

From S2P Require Import Prelude Model.

Definition AGENT_MARKS_VERSION : N := 2.
Definition MAX_MARKED_AGENTS : nat := 512.
Definition MAX_SNOOZE_MINUTES : N := 24 * 60.

Inductive NotifyMode := NotifyDefault | NeedsYouOnly.
#[export] Instance NotifyMode_eq_dec : EqDecision NotifyMode.
Proof. solve_decision. Defined.

Record AgentMarkState := {
  pinned : bool;
  muted : bool;
  snoozed_until_ms : option N;
  notify : NotifyMode;
}.
#[export] Instance AgentMarkState_eq_dec : EqDecision AgentMarkState.
Proof. solve_decision. Defined.

Definition AgentMarkState_default : AgentMarkState :=
  {| pinned := false; muted := false; snoozed_until_ms := None; notify := NotifyDefault |}.

Definition is_default (s : AgentMarkState) : bool := bool_decide (s = AgentMarkState_default).

Definition snoozed_at (s : AgentMarkState) (now_ms : N) : bool :=
  match snoozed_until_ms s with Some deadline => (now_ms <? deadline)%N | None => false end.

Definition quiet_at (s : AgentMarkState) (now_ms : N) : bool := muted s || snoozed_at s now_ms.

Definition may_notify (s : AgentMarkState) (needs_attention : bool) (now_ms : N) : bool :=
  if quiet_at s now_ms then false
  else match notify s with NotifyDefault => true | NeedsYouOnly => needs_attention end.

Inductive AgentMarkRequest :=
  | Pin (pinned : bool)
  | Mute (muted : bool)
  | Snooze (minutes : option N)
  | Notify (mode : NotifyMode).
#[export] Instance AgentMarkRequest_eq_dec : EqDecision AgentMarkRequest.
Proof. solve_decision. Defined.

Record Marked := { mark_state : AgentMarkState; touched_ms : N }.
#[export] Instance Marked_eq_dec : EqDecision Marked.
Proof. solve_decision. Defined.

(** [AgentMarks] holds one map. *)
Abbreviation AgentMarks := (gmap AgentId Marked).

Definition state_of (m : AgentMarks) (agent : AgentId) : AgentMarkState :=
  match m !! agent with Some marked => mark_state marked | None => AgentMarkState_default end.

(** The state a request asks for. *)
Definition requested (request : AgentMarkRequest) (now_ms : N) (s : AgentMarkState)
    : AgentMarkState :=
  match request with
  | Pin p => {| pinned := p; muted := muted s; snoozed_until_ms := snoozed_until_ms s;
                notify := notify s |}
  | Mute b => {| pinned := pinned s; muted := b; snoozed_until_ms := snoozed_until_ms s;
                 notify := notify s |}
  | Notify mode => {| pinned := pinned s; muted := muted s;
                      snoozed_until_ms := snoozed_until_ms s; notify := mode |}
  | Snooze minutes =>
      {| pinned := pinned s; muted := muted s;
         snoozed_until_ms :=
           (λ minutes, u64_saturating_add now_ms
              (u64_saturating_mul (N.min minutes MAX_SNOOZE_MINUTES) 60000)) <$> minutes;
         notify := notify s |}
  end.

(** What the cap forgets first: the least recently touched, ties broken by the
    identifier. *)
Definition age (entry : AgentId * Marked) : N * AgentId := (touched_ms entry.2, entry.1).

Definition enforce_cap_loop : nat → AgentMarks → AgentMarks := evict_loop MAX_MARKED_AGENTS age.
Definition enforce_cap : AgentMarks → AgentMarks := evict MAX_MARKED_AGENTS age.

Definition apply (agent : AgentId) (request : AgentMarkRequest) (now_ms : N) (m : AgentMarks)
    : AgentMarks * bool :=
  let state := requested request now_ms (state_of m agent) in
  if bool_decide (state = state_of m agent) then (m, false)
  else if is_default state then (delete agent m, true)
  else (enforce_cap (<[agent := {| mark_state := state; touched_ms := now_ms |}]> m), true).

Definition expired_at (now_ms : N) (s : AgentMarkState) : bool :=
  match snoozed_until_ms s with Some deadline => (deadline <=? now_ms)%N | None => false end.

Definition wake (s : AgentMarkState) : AgentMarkState :=
  {| pinned := pinned s; muted := muted s; snoozed_until_ms := None; notify := notify s |}.

Definition expire_one (m : AgentMarks) (agent : AgentId) : AgentMarks :=
  match m !! agent with
  | None => m
  | Some marked =>
      let state := wake (mark_state marked) in
      if is_default state then delete agent m
      else <[agent := {| mark_state := state; touched_ms := touched_ms marked |}]> m
  end.

Definition expire (now_ms : N) (m : AgentMarks) : AgentMarks * bool :=
  let expired := omap (λ e, if expired_at now_ms (mark_state e.2) then Some e.1 else None)
                      (entries m) in
  match expired with
  | [] => (m, false)
  | _ => (foldl expire_one m expired, true)
  end.

(** ** Persistence *)

Record PersistedMark := { pm_agent : AgentId; pm_state : AgentMarkState; pm_touched_ms : N }.
Record PersistedMarks := { pms_version : N; pms_marks : list PersistedMark }.

Inductive PersistedMarksError := MarksVersion | TooManyMarks | DuplicateMark.

Definition persist (m : AgentMarks) : PersistedMarks := {|
  pms_version := AGENT_MARKS_VERSION;
  pms_marks := (λ e, {| pm_agent := e.1; pm_state := mark_state e.2;
                        pm_touched_ms := touched_ms e.2 |}) <$> entries m;
|}.

Fixpoint load_marks (l : list PersistedMark) (m : AgentMarks)
    : result PersistedMarksError AgentMarks :=
  match l with
  | [] => Ok m
  | held :: l' =>
      match m !! pm_agent held with
      | Some _ => Err DuplicateMark
      | None => load_marks l' (<[pm_agent held := {| mark_state := pm_state held;
                                                    touched_ms := pm_touched_ms held |}]> m)
      end
  end.

Definition try_from (p : PersistedMarks) : result PersistedMarksError AgentMarks :=
  if negb (pms_version p =? AGENT_MARKS_VERSION)%N then Err MarksVersion
  else if MAX_MARKED_AGENTS <? length (pms_marks p) then Err TooManyMarks
  else load_marks (pms_marks p) ∅.

(** ** The cap *)

(** A mark the cap may drop: no mark is older. *)
Definition oldest_in : AgentMarks → AgentId → Prop := oldest_entry age.

(** One mark over the cap costs exactly the oldest one. *)
Lemma enforce_cap_spec m :
  size m ≤ S MAX_MARKED_AGENTS →
  (size m ≤ MAX_MARKED_AGENTS ∧ enforce_cap m = m) ∨
  ∃ agent, size m = S MAX_MARKED_AGENTS ∧ oldest_in m agent ∧ enforce_cap m = delete agent m.
Proof. apply evict_spec. Qed.

Implicit Types (m : AgentMarks) (agent b : AgentId) (now_ms : N).

(** What an agent's mark is after a change: nothing if the cap dropped it, the
    requested state for the agent asked about, and its old state otherwise. *)
Definition state_after (m : AgentMarks) (agent : AgentId) (state : AgentMarkState)
    (evicted : option AgentId) (b : AgentId) : AgentMarkState :=
  if decide (evicted = Some b) then AgentMarkState_default
  else if decide (b = agent) then state else state_of m b.

Lemma state_of_delete m agent b :
  state_of (delete agent m) b =
  if decide (b = agent) then AgentMarkState_default else state_of m b.
Proof.
  unfold state_of. case_decide as E; [subst; by rewrite lookup_delete_eq|].
  by rewrite lookup_delete_ne.
Qed.

Lemma state_of_insert m agent marked b :
  state_of (<[agent := marked]> m) b =
  if decide (b = agent) then mark_state marked else state_of m b.
Proof.
  unfold state_of. case_decide as E; [subst; by rewrite lookup_insert_eq|].
  by rewrite lookup_insert_ne.
Qed.

Lemma is_default_spec s : is_default s = true ↔ s = AgentMarkState_default.
Proof. unfold is_default. by rewrite bool_decide_eq_true. Qed.

(** A request puts the agent in exactly the state it asks for and leaves every
    other agent's mark alone; it reports a change exactly when there is one;
    and the store never holds more than [MAX_MARKED_AGENTS] marks. A new mark on
    a full store costs one mark, the least recently touched of all. *)
Theorem apply_spec m agent request now_ms :
  size m ≤ MAX_MARKED_AGENTS →
  let '(m', changed) := apply agent request now_ms m in
  let state := requested request now_ms (state_of m agent) in
  size m' ≤ MAX_MARKED_AGENTS ∧
  (changed = false ↔ state = state_of m agent) ∧
  (changed = false → m' = m) ∧
  ∃ evicted,
    (∀ b, state_of m' b = state_after m agent state evicted b) ∧
    (∀ b, evicted = Some b →
      size m = MAX_MARKED_AGENTS ∧ m !! agent = None ∧
      oldest_in (<[agent := {| mark_state := state; touched_ms := now_ms |}]> m) b).
Proof.
  intros Hsize. unfold apply. set (state := requested request now_ms (state_of m agent)).
  case_bool_decide as Heq.
  { split; [done|split; [by split|split; [done|]]]. exists None. split; [|done]. intros b.
    unfold state_after. rewrite decide_False by done. case_decide; congruence. }
  destruct (is_default state) eqn:Hd.
  - apply is_default_spec in Hd. split.
    { etrans; [|exact Hsize]. apply map_subseteq_size, delete_subseteq. }
    split; [by split|split; [done|]]. exists None. split; [|done]. intros b.
    rewrite state_of_delete. unfold state_after. rewrite (decide_False (P := None = Some b)) by done. by rewrite Hd.
  - set (m1 := <[agent := _]> m).
    assert (size m1 ≤ S MAX_MARKED_AGENTS) as H1
      by (etrans; [apply size_insert_le|by apply le_n_S]).
    destruct (enforce_cap_spec m1 H1) as [[Hle ->]|(e & Hfull & Hold & ->)].
    + split; [done|split; [by split|split; [done|]]]. exists None. split; [|done]. intros b.
      unfold m1, state_after. rewrite state_of_insert. by rewrite (decide_False (P := None = Some b)).
    + split.
      { destruct Hold as (marked & Hm & _). rewrite map_size_delete_Some by eauto. lia. }
      split; [by split|split; [done|]]. exists (Some e). split.
      * intros b. rewrite state_of_delete. unfold state_after, m1. rewrite state_of_insert.
        destruct (decide (b = e)), (decide (Some e = Some b)); simpl; congruence.
      * intros b [= <-]. destruct (m !! agent) as [old|] eqn:Hm.
        { unfold m1 in Hfull. rewrite map_size_insert_Some in Hfull by eauto. lia. }
        unfold m1 in Hfull. rewrite map_size_insert_None in Hfull by done. split; [lia|done].
Qed.

Definition ex_agent : AgentId := QId (u "buildbox") (u "s1") (u "agent-7").

Lemma apply_spec_witness :
  requested (Snooze (Some 100000%N)) 5000 (state_of ∅ ex_agent) =
    {| pinned := false; muted := false; snoozed_until_ms := Some 86405000%N;
       notify := NotifyDefault |} ∧
  let '(m', changed) := apply ex_agent (Snooze (Some 100000%N)) 5000 ∅ in
  size m' ≤ MAX_MARKED_AGENTS ∧
  (changed = false ↔ requested (Snooze (Some 100000%N)) 5000 (state_of ∅ ex_agent)
                     = state_of ∅ ex_agent).
Proof.
  split; [by vm_compute|].
  pose proof (apply_spec ∅ ex_agent (Snooze (Some 100000%N)) 5000 (Nat.le_0_l _)) as H.
  destruct (apply ex_agent (Snooze (Some 100000%N)) 5000 ∅) as [m' changed].
  exact (conj (proj1 H) (proj1 (proj2 H))).
Defined.

(** ** Expiry *)

(** What an agent's mark is once the clock has passed [now_ms]. *)
Definition woken (now_ms : N) (s : AgentMarkState) : AgentMarkState :=
  if expired_at now_ms s then wake s else s.

Lemma expire_one_state m agent b :
  state_of (expire_one m agent) b =
  if decide (b = agent) then wake (state_of m b) else state_of m b.
Proof.
  unfold expire_one. destruct (m !! agent) as [marked|] eqn:E.
  - destruct (is_default (wake (mark_state marked))) eqn:Hd.
    + apply is_default_spec in Hd. rewrite state_of_delete. case_decide; [|done].
      subst. unfold state_of. by rewrite E, Hd.
    + rewrite state_of_insert. case_decide; [|done]. subst. unfold state_of. by rewrite E.
  - case_decide; [|done]. subst. unfold state_of. by rewrite E.
Qed.

Lemma wake_idemp s : wake (wake s) = wake s.
Proof. done. Qed.

Lemma expire_all_state l m b :
  state_of (foldl expire_one m l) b = if decide (b ∈ l) then wake (state_of m b) else state_of m b.
Proof.
  revert m. induction l as [|a l IH]; intros m; cbn [foldl].
  { destruct (decide (b ∈ [])) as [H|]; [by apply elem_of_nil in H|done]. }
  rewrite IH, expire_one_state.
  destruct (decide (b ∈ l)), (decide (b = a)), (decide (b ∈ a :: l)) as [Hin|Hin];
    rewrite elem_of_cons in Hin; naive_solver.
Qed.

Definition expired_agents (now_ms : N) (m : AgentMarks) : list AgentId :=
  omap (λ e, if expired_at now_ms (mark_state e.2) then Some e.1 else None) (entries m).

Lemma elem_of_expired now_ms m b :
  b ∈ expired_agents now_ms m ↔ expired_at now_ms (state_of m b) = true.
Proof.
  unfold expired_agents. rewrite list_elem_of_omap. split.
  - intros ([a marked] & Hin%elem_of_entries & Hsel). simpl in Hsel.
    destruct (expired_at now_ms (mark_state marked)) eqn:E; [|done]. injection Hsel as <-.
    unfold state_of. by rewrite Hin.
  - unfold state_of. destruct (m !! b) as [marked|] eqn:E; [|done]. intros Hx.
    exists (b, marked). split; [by apply elem_of_entries|]. simpl. by rewrite Hx.
Qed.

Lemma expire_unfold now_ms m :
  expire now_ms m = match expired_agents now_ms m with
                    | [] => (m, false)
                    | l => (foldl expire_one m l, true)
                    end.
Proof.
  unfold expire. fold (expired_agents now_ms m). by destruct (expired_agents now_ms m).
Qed.

(** Expiring drops exactly the snoozes that have run out: an agent's pin,
    mute and notification mode stay, no running snooze is cut short, and what
    an agent may do at or after that moment (rise in the inbox, reach a phone)
    is what it was before the sweep. The sweep reports a change exactly when
    some snooze had run out, and a second sweep finds nothing. *)
Theorem expire_invisible m now_ms :
  let '(m', changed) := expire now_ms m in
  (∀ b, state_of m' b = woken now_ms (state_of m b)) ∧
  (changed = true ↔ ∃ b, expired_at now_ms (state_of m b) = true) ∧
  (∀ b later needs, (now_ms ≤ later)%N →
    quiet_at (state_of m' b) later = quiet_at (state_of m b) later ∧
    may_notify (state_of m' b) needs later = may_notify (state_of m b) needs later) ∧
  expire now_ms m' = (m', false).
Proof.
  assert (∀ b, state_of (expire now_ms m).1 b = woken now_ms (state_of m b)) as Hst.
  { intros b. rewrite expire_unfold.
    assert (state_of (foldl expire_one m (expired_agents now_ms m)) b
            = woken now_ms (state_of m b)) as H.
    { rewrite expire_all_state. unfold woken. case_decide as Hin; rewrite elem_of_expired in Hin.
      - by rewrite Hin.
      - by destruct (expired_at now_ms (state_of m b)). }
    by destruct (expired_agents now_ms m). }
  assert ((expire now_ms m).2 = true ↔ ∃ b, expired_at now_ms (state_of m b) = true) as Hch.
  { rewrite expire_unfold. destruct (expired_agents now_ms m) as [|b l] eqn:E; simpl.
    - split; [done|]. intros [b Hb%elem_of_expired]. rewrite E in Hb. by apply elem_of_nil in Hb.
    - split; [intros _|done]. exists b. apply elem_of_expired. rewrite E. by left. }
  destruct (expire now_ms m) as [m' changed]; simpl in *.
  split; [done|split; [done|split]].
  - intros b later needs Hl. rewrite Hst.
    assert (quiet_at (woken now_ms (state_of m b)) later = quiet_at (state_of m b) later) as Hq.
    { unfold quiet_at, snoozed_at, woken, expired_at, wake.
      destruct (state_of m b) as [p mu [d|] nt]; [|done]. cbn.
      destruct (N.leb_spec d now_ms); [|done]. cbn. destruct mu; [done|].
      symmetry. apply N.ltb_ge. lia. }
    split; [done|]. unfold may_notify. rewrite Hq.
    assert (notify (woken now_ms (state_of m b)) = notify (state_of m b)) as ->
      by (unfold woken; by destruct (expired_at _ _)). done.
  - rewrite expire_unfold. destruct (expired_agents now_ms m') as [|b l] eqn:E; [done|].
    assert (b ∈ expired_agents now_ms m') as Hb%elem_of_expired by (rewrite E; by left).
    rewrite Hst in Hb. unfold woken in Hb.
    destruct (expired_at now_ms (state_of m b)) eqn:Hx; [done|congruence].
Qed.

(** ** Persistence *)

Definition mark_pair (held : PersistedMark) : AgentId * Marked :=
  (pm_agent held, {| mark_state := pm_state held; touched_ms := pm_touched_ms held |}).

Definition load_all (l : list PersistedMark) (m : AgentMarks) : AgentMarks :=
  foldl (λ m kv, <[kv.1 := kv.2]> m) m (mark_pair <$> l).

Lemma load_marks_spec l m :
  match load_marks l m with
  | Ok m' => m' = load_all l m ∧ NoDup (pm_agent <$> l) ∧ ∀ a, a ∈ pm_agent <$> l → m !! a = None
  | Err e => e = DuplicateMark ∧ ¬ (NoDup (pm_agent <$> l) ∧ ∀ a, a ∈ pm_agent <$> l → m !! a = None)
  end.
Proof.
  revert m. induction l as [|held l IH]; intros m; csimpl.
  { split; [done|split; [constructor|]]. intros a Ha. by apply elem_of_nil in Ha. }
  destruct (m !! pm_agent held) as [old|] eqn:E.
  { split; [done|]. intros [_ Hno]. specialize (Hno (pm_agent held)).
    rewrite Hno in E; [done|by left]. }
  specialize (IH (<[pm_agent held := {| mark_state := pm_state held;
                                        touched_ms := pm_touched_ms held |}]> m)).
  destruct (load_marks l _) as [m'|e].
  - destruct IH as (-> & Hnd & Hno). split; [done|].
    assert (pm_agent held ∉ pm_agent <$> l) as Hh.
    { intros Hin%Hno. by rewrite lookup_insert_eq in Hin. }
    split; [by constructor|]. intros a [->|Ha]%elem_of_cons; [done|].
    specialize (Hno a Ha). apply lookup_insert_None in Hno. tauto.
  - destruct IH as [-> Hbad]. split; [done|]. intros [Hnd Hno]. apply NoDup_cons in Hnd as [Hh Hnd].
    apply Hbad. split; [done|]. intros a Ha. rewrite lookup_insert_ne by congruence.
    apply Hno. by right.
Qed.

(** Marks survive a restart exactly: loading what was saved gives the same
    marks, and whatever a file holds, what loads never exceeds the cap and
    never takes one of two marks for the same agent. *)
Theorem marks_persistence_roundtrip :
  (∀ m, size m ≤ MAX_MARKED_AGENTS → try_from (persist m) = Ok m) ∧
  (∀ p m, try_from p = Ok m →
    size m ≤ MAX_MARKED_AGENTS ∧ NoDup (pm_agent <$> pms_marks p) ∧
    ∀ held, held ∈ pms_marks p → state_of m (pm_agent held) = pm_state held).
Proof.
  split.
  - intros m Hm. unfold try_from, persist. cbn [pms_version pms_marks].
    rewrite N.eqb_refl, length_fmap. simpl.
    assert (length (entries m) = size m) as Hlen
      by (rewrite <-length_keys, <-NoDup_entries_keys, length_fmap; done).
    rewrite Hlen, (proj2 (Nat.ltb_ge _ _)) by done.
    set (l := _ <$> entries m).
    assert (pm_agent <$> l = keys m) as Hag
      by (unfold l; rewrite <-list_fmap_compose, <-NoDup_entries_keys; done).
    assert (mark_pair <$> l = entries m) as Hpairs.
    { unfold l. rewrite <-list_fmap_compose. rewrite <-(list_fmap_id (entries m)) at 2.
      apply list_fmap_ext. intros _ [a [s t]] _. done. }
    pose proof (load_marks_spec l ∅) as Hl. destruct (load_marks l ∅) as [m'|e].
    + destruct Hl as (-> & _ & _). f_equal. unfold load_all. rewrite Hpairs. apply collect_entries.
    + destruct Hl as [_ []]. rewrite Hag. split; [apply NoDup_keys|]. intros. apply lookup_empty.
  - intros p m. unfold try_from. destruct (negb _); [done|].
    destruct (Nat.ltb_spec MAX_MARKED_AGENTS (length (pms_marks p))) as [|Hlen]; [done|].
    pose proof (load_marks_spec (pms_marks p) ∅) as Hl.
    destruct (load_marks _ ∅) as [m'|e]; [|done]. intros [= <-]. destruct Hl as (-> & Hnd & _).
    assert (load_all (pms_marks p) ∅ = collect_map (mark_pair <$> pms_marks p)) as -> by done.
    assert ((mark_pair <$> pms_marks p).*1 = pm_agent <$> pms_marks p) as Hk
      by (by rewrite <-list_fmap_compose).
    split; [|split; [done|]].
    + etrans; [|exact Hlen]. rewrite <-(length_fmap pm_agent), <-Hk, <-size_dom.
      etrans; [apply (subseteq_size _ (list_to_set (mark_pair <$> pms_marks p).*1))|].
      * intros k Hkd. apply elem_of_list_to_set.
        by apply collect_map_lookup_is_Some, elem_of_dom.
      * rewrite size_list_to_set; [done|by rewrite Hk].
    + intros held Hin. unfold state_of.
      rewrite (collect_map_NoDup _ (pm_agent held)
                 {| mark_state := pm_state held; touched_ms := pm_touched_ms held |}); [done| |].
      * by rewrite Hk.
      * apply list_elem_of_fmap. exists held. done.
Qed.

Definition ex_marks : AgentMarks := (apply ex_agent (Pin true) 5 ∅).1.
Lemma marks_persistence_roundtrip_witness :
  size ex_marks = 1 ∧ try_from (persist ex_marks) = Ok ex_marks.
Proof.
  split; [by vm_compute|]. apply (proj1 marks_persistence_roundtrip).
  apply (Nat.le_trans _ 1); [by vm_compute|]. unfold MAX_MARKED_AGENTS. lia.
Defined.
