(* ===== verification/Aliases.v ===== *)
(** Local names, favourites and jump slots: [src/src/aliases.rs].

    What holds of local names, favourites and jump slots ([Aliases]). *)

From S2P Require Import Prelude Model.

Definition ALIASES_VERSION : N := 1.
Definition MAX_ALIASES : nat := 512.
Definition MAX_FAVOURITES : nat := 64.
Definition MAX_ALIAS_CHARACTERS : nat := 48.
(** [JUMP_SLOTS.contains]. *)
Definition JUMP_SLOTS_contains (slot : N) : bool := ((1 <=? slot) && (slot <=? 9))%N.

Inductive ResourceRef :=
  | RTarget (id : TargetSession)
  | RWorkspace (id : WorkspaceId)
  | RTab (id : TabId)
  | RPane (id : PaneId)
  | RAgent (id : AgentId).
#[export] Instance ResourceRef_eq_dec : EqDecision ResourceRef.
Proof. solve_decision. Defined.

Definition display_ref (r : ResourceRef) : ustr :=
  match r with
  | RTarget id => display_target_session id
  | RWorkspace id => display_id id
  | RTab id => display_id id
  | RPane id => display_id id
  | RAgent id => display_id id
  end.

(** The derived order: the variant first, then its fields. *)
Definition ref_tuple (r : ResourceRef) : N * (ustr * (ustr * ustr)) :=
  match r with
  | RTarget id => (0%N, (ts_target id, (ts_session id, [])))
  | RWorkspace id => (1%N, id_tuple id)
  | RTab id => (2%N, id_tuple id)
  | RPane id => (3%N, id_tuple id)
  | RAgent id => (4%N, id_tuple id)
  end.
#[export] Instance ref_tuple_inj : Inj (=) (=) ref_tuple.
Proof. intros [[]|[]|[]|[]|[]] [[]|[]|[]|[]|[]]; by intros [=]; subst. Qed.
#[export] Instance ResourceRef_ord : Ord ResourceRef := cmp_by ref_tuple.
#[export] Instance ResourceRef_ord_laws : OrdLaws ResourceRef := ord_laws_by ref_tuple.
#[export] Instance ResourceRef_countable : Countable ResourceRef.
Proof.
  refine (inj_countable' ref_tuple (λ p,
    let '(n, (t, (s, r))) := p in
    match n with
    | 0%N => RTarget (TargetSession_new t s)
    | 1%N => RWorkspace (QId t s r)
    | 2%N => RTab (QId t s r)
    | 3%N => RPane (QId t s r)
    | _ => RAgent (QId t s r)
    end) _).
  by intros [[]|[]|[]|[]|[]].
Defined.

Record Alias := { label : ustr; observed : ustr }.
#[export] Instance Alias_eq_dec : EqDecision Alias.
Proof. solve_decision. Defined.

Inductive AliasState := Current | Suspended.

Record Aliases := {
  names : gmap ResourceRef Alias;
  favourites : list ResourceRef;
  slots : gmap N ResourceRef;
}.

Definition Aliases_default : Aliases := {| names := ∅; favourites := []; slots := ∅ |}.

Inductive AliasError :=
  NameLength | NameControl | TooManyNames | TooManyFavourites | SlotRange
  | AliasesVersion | AliasesLimit.

Definition set (resource : ResourceRef) (new_label new_observed : ustr) (a : Aliases)
    : result AliasError Aliases :=
  let new_label := trim new_label in
  if bool_decide (new_label = []) || (MAX_ALIAS_CHARACTERS <? length new_label)
  then Err NameLength
  else if existsb is_control new_label then Err NameControl
  else if (MAX_ALIASES <=? size (names a)) && negb (bool_decide (is_Some (names a !! resource)))
  then Err TooManyNames
  else Ok {| names := <[resource := {| label := new_label; observed := new_observed |}]> (names a);
             favourites := favourites a; slots := slots a |}.

Definition clear (resource : ResourceRef) (a : Aliases) : Aliases * bool :=
  ({| names := delete resource (names a); favourites := favourites a; slots := slots a |},
   bool_decide (is_Some (names a !! resource))).

Definition resolve (a : Aliases) (resource : ResourceRef) (seen : ustr)
    : option (ustr * AliasState) :=
  alias ← names a !! resource;
  Some (label alias, if bool_decide (observed alias = seen) then Current else Suspended).

Definition confirm (resource : ResourceRef) (seen : ustr) (a : Aliases) : Aliases * bool :=
  match names a !! resource with
  | None => (a, false)
  | Some alias =>
      ({| names := <[resource := {| label := label alias; observed := seen |}]> (names a);
          favourites := favourites a; slots := slots a |}, true)
  end.

(** [Iterator::position]. *)
Fixpoint position {A} (p : A → bool) (l : list A) : option nat :=
  match l with
  | [] => None
  | x :: l' => if p x then Some 0 else S <$> position p l'
  end.

(** [Vec::remove]. *)
Definition vec_remove {A} (i : nat) (l : list A) : list A := take i l ++ drop (S i) l.

Definition favourite (resource : ResourceRef) (a : Aliases)
    : result AliasError (Aliases * bool) :=
  match position (λ held, bool_decide (held = resource)) (favourites a) with
  | Some index =>
      Ok ({| names := names a; favourites := vec_remove index (favourites a);
             slots := slots a |}, false)
  | None =>
      if MAX_FAVOURITES <=? length (favourites a) then Err TooManyFavourites
      else Ok ({| names := names a; favourites := favourites a ++ [resource];
                  slots := slots a |}, true)
  end.

Definition is_favourite (a : Aliases) (resource : ResourceRef) : bool :=
  bool_decide (resource ∈ favourites a).

Definition set_slot (slot : N) (resource : option ResourceRef) (a : Aliases)
    : result AliasError Aliases :=
  if negb (JUMP_SLOTS_contains slot) then Err SlotRange
  else Ok {| names := names a; favourites := favourites a;
             slots := match resource with
                      | Some resource =>
                          <[slot := resource]>
                            (filter (λ kv : N * ResourceRef, kv.2 ≠ resource) (slots a))
                      | None => delete slot (slots a)
                      end |}.

Definition target_of (resource : ResourceRef) : TargetSession :=
  match resource with
  | RTarget id => id
  | RWorkspace id => target_session id
  | RTab id => target_session id
  | RPane id => target_session id
  | RAgent id => target_session id
  end.

Definition belongs (resource : ResourceRef) (target : TargetSession) : bool :=
  bool_decide (target_of resource = target).

Definition targets (a : Aliases) : gset TargetSession :=
  list_to_set (target_of <$> (keys (names a) ++ favourites a ++ values (slots a))).

Definition held_count (a : Aliases) : nat :=
  size (names a) + length (favourites a) + size (slots a).

Definition forget_target (target : TargetSession) (a : Aliases) : Aliases * bool :=
  let a' := {|
    names := filter (λ kv : ResourceRef * Alias, belongs kv.1 target = false) (names a);
    favourites := filter (λ r, belongs r target = false) (favourites a);
    slots := filter (λ kv : N * ResourceRef, belongs kv.2 target = false) (slots a);
  |} in
  (a', negb (held_count a =? held_count a')).

(** ** Persistence *)

Record PersistedAliases := {
  pa_version : N;
  pa_names : list (ResourceRef * Alias);
  pa_favourites : list ResourceRef;
  pa_slots : list (N * ResourceRef);
}.

Definition persist (a : Aliases) : PersistedAliases := {|
  pa_version := ALIASES_VERSION;
  pa_names := entries (names a);
  pa_favourites := favourites a;
  pa_slots := entries (slots a);
|}.

Definition try_from (p : PersistedAliases) : result AliasError Aliases :=
  if negb (pa_version p =? ALIASES_VERSION)%N then Err AliasesVersion
  else if (MAX_ALIASES <? length (pa_names p)) || (MAX_FAVOURITES <? length (pa_favourites p))
  then Err AliasesLimit
  else Ok {|
    names := collect_map (pa_names p);
    favourites := pa_favourites p;
    slots := collect_map (filter (λ kv, JUMP_SLOTS_contains kv.1 = true) (pa_slots p));
  |}.

(** ** The operations as steps *)

Inductive alias_op :=
  | Set_ (resource : ResourceRef) (new_label new_observed : ustr)
  | Clear (resource : ResourceRef)
  | Confirm (resource : ResourceRef) (seen : ustr)
  | Favourite (resource : ResourceRef)
  | SetSlot (slot : N) (resource : option ResourceRef)
  | ForgetTarget (target : TargetSession).

(** A refused operation leaves the store as it was. *)
Definition step (a : Aliases) (op : alias_op) : Aliases :=
  match op with
  | Set_ r l o => match set r l o a with Ok a' => a' | Err _ => a end
  | Clear r => (clear r a).1
  | Confirm r o => (confirm r o a).1
  | Favourite r => match favourite r a with Ok (a', _) => a' | Err _ => a end
  | SetSlot n r => match set_slot n r a with Ok a' => a' | Err _ => a end
  | ForgetTarget t => (forget_target t a).1
  end.

Definition run (ops : list alias_op) : Aliases := foldl step Aliases_default ops.

Implicit Types (a : Aliases) (r resource : ResourceRef) (op : alias_op).

Definition label_ok (l : ustr) : Prop :=
  l ≠ [] ∧ length l ≤ MAX_ALIAS_CHARACTERS ∧ existsb is_control l = false.

(** Every bound the store promises, and that a resource answers to at most one
    slot and is a favourite at most once. *)
Record aliases_wf a : Prop := {
  wf_names : size (names a) ≤ MAX_ALIASES;
  wf_labels : ∀ r alias, names a !! r = Some alias → label_ok (label alias);
  wf_favourites : length (favourites a) ≤ MAX_FAVOURITES;
  wf_favourites_nodup : NoDup (favourites a);
  wf_slot_range : ∀ n r, slots a !! n = Some r → JUMP_SLOTS_contains n = true;
  wf_slot_inj : ∀ n1 n2 r, slots a !! n1 = Some r → slots a !! n2 = Some r → n1 = n2;
}.

Lemma position_Some {A} (p : A → bool) l i :
  position p l = Some i → ∃ x, l !! i = Some x ∧ p x = true.
Proof.
  revert i. induction l as [|x l IH]; intros i; simpl; [done|]. destruct (p x) eqn:E.
  - intros [= <-]. eauto.
  - destruct (position p l); [|done]. intros [= <-]. simpl. by apply IH.
Qed.

Lemma position_None {A} (p : A → bool) l : position p l = None ↔ ∀ x, x ∈ l → p x = false.
Proof.
  induction l as [|x l IH]; simpl; [split; [intros _ y Hy; by apply elem_of_nil in Hy|done]|].
  destruct (p x) eqn:E.
  - split; [done|]. intros H. rewrite (H x) in E by left. done.
  - split.
    + destruct (position p l); [done|]. intros _ y [->|Hy]%elem_of_cons; [done|]. by apply IH.
    + intros H. rewrite (proj2 IH); [done|]. intros y Hy. apply H. by right.
Qed.

Lemma vec_remove_sublist {A} i (l : list A) : vec_remove i l `sublist_of` l.
Proof.
  unfold vec_remove. rewrite <-(take_drop i l) at 3. apply sublist_app; [done|].
  rewrite <-Nat.add_1_r, <-drop_drop. apply sublist_drop.
Qed.

Lemma length_vec_remove {A} i (l : list A) : length (vec_remove i l) ≤ length l.
Proof. apply sublist_length, vec_remove_sublist. Qed.

Lemma map_filter_size {K V} `{Countable K} (P : K * V → Prop) `{∀ x, Decision (P x)}
    (m : gmap K V) : size (filter P m) ≤ size m.
Proof. apply map_subseteq_size, map_filter_subseteq. Qed.

Lemma step_wf a op : aliases_wf a → aliases_wf (step a op).
Proof.
  intros [Hn Hl Hf Hnd Hr Hi]. destruct op as [r l o|r|r o|r|n [r|]|t]; simpl.
  - unfold set. destruct (_ || _) eqn:Hlen; [done|]. destruct (existsb _ _) eqn:Hc; [done|].
    destruct (_ && _) eqn:Hs; [done|]. apply orb_false_iff in Hlen as [H0 Hlen].
    apply bool_decide_eq_false in H0. apply Nat.ltb_ge in Hlen.
    split; cbn [names favourites slots]; try done.
    + destruct (names a !! r) eqn:E; [by rewrite map_size_insert_Some|].
      rewrite map_size_insert_None by done. apply andb_false_iff in Hs as [Hs|Hs].
      * apply Nat.leb_gt in Hs. lia.
      * rewrite bool_decide_eq_false_2 in Hs by apply is_Some_None. done.
    + intros r' alias. rewrite lookup_insert. case_decide; [|apply Hl]. by intros [= <-].
  - split; cbn [clear names favourites slots fst]; try done.
    + etrans; [|exact Hn]. apply map_subseteq_size, delete_subseteq.
    + intros r' alias [_ ?]%lookup_delete_Some. by eapply Hl.
  - unfold confirm. destruct (names a !! r) as [old|] eqn:E; [|done].
    split; cbn [names favourites slots fst]; try done.
    + rewrite map_size_insert_Some by eauto. done.
    + intros r' alias. rewrite lookup_insert. case_decide; [|apply Hl]. intros [= <-].
      exact (Hl r old E).
  - unfold favourite. destruct (position _ _) as [i|] eqn:E.
    + split; cbn [names favourites slots]; try done.
      * etrans; [apply length_vec_remove|done].
      * eapply sublist_NoDup; [exact Hnd|apply vec_remove_sublist].
    + destruct (Nat.leb_spec MAX_FAVOURITES (length (favourites a))); [done|].
      split; cbn [names favourites slots]; try done.
      * rewrite length_app. simpl. lia.
      * apply NoDup_app. split; [done|split; [|apply NoDup_singleton]].
        intros x Hx ->%list_elem_of_singleton.
        assert (bool_decide (r = r) = false) as Hb by (by apply (proj1 (position_None _ _) E r)).
        by apply bool_decide_eq_false in Hb.
  - unfold set_slot. destruct (JUMP_SLOTS_contains n) eqn:En; [|done]. cbn [negb].
    split; cbn [names favourites slots]; try done.
    + intros n' r'. rewrite lookup_insert. case_decide; [by subst|].
      intros [? _]%map_lookup_filter_Some. by eapply Hr.
    + intros n1 n2 r'. rewrite !lookup_insert.
      repeat case_decide; try (intros; congruence); rewrite ?map_lookup_filter_Some; simpl.
      * intros [= <-] [_ []]. done.
      * intros [_ Hne] [= <-]. done.
      * intros [? _] [? _]. by eapply Hi.
  - unfold set_slot. destruct (JUMP_SLOTS_contains n) eqn:En; [|done]. cbn [negb].
    split; cbn [names favourites slots]; try done.
    + intros n' r' [_ ?]%lookup_delete_Some. by eapply Hr.
    + intros n1 n2 r' [_ ?]%lookup_delete_Some [_ ?]%lookup_delete_Some. by eapply Hi.
  - split; cbn [names favourites slots forget_target fst].
    + etrans; [apply map_filter_size|done].
    + intros r alias [? _]%map_lookup_filter_Some. by eapply Hl.
    + etrans; [apply length_filter|done].
    + by apply NoDup_filter.
    + intros n r [? _]%map_lookup_filter_Some. by eapply Hr.
    + intros n1 n2 r [? _]%map_lookup_filter_Some [? _]%map_lookup_filter_Some. by eapply Hi.
Qed.

Lemma default_wf : aliases_wf Aliases_default.
Proof.
  split; cbn; try (by intros * ?%lookup_empty_Some); [|unfold MAX_FAVOURITES; lia|constructor].
  rewrite map_size_empty. unfold MAX_ALIASES. lia.
Qed.

(** However it was edited, the store respects its bounds: at most
    [MAX_ALIASES] names, each 1 to [MAX_ALIAS_CHARACTERS] characters without
    control characters, at most [MAX_FAVOURITES] distinct favourites, only
    pressable slots, and no resource answering to two slots. Saving and loading
    such a store gives it back exactly. *)
Theorem aliases_invariant (ops : list alias_op) :
  aliases_wf (run ops) ∧ try_from (persist (run ops)) = Ok (run ops).
Proof.
  assert (aliases_wf (run ops)) as Hwf.
  { unfold run. induction ops as [|op ops IH] using rev_ind; [apply default_wf|].
    rewrite foldl_app. by apply step_wf. }
  split; [done|]. destruct Hwf as [Hn _ Hf _ Hr _]. unfold try_from, persist.
  cbn [pa_version pa_names pa_favourites pa_slots].
  assert (length (entries (names (run ops))) = size (names (run ops))) as ->
    by (rewrite <-length_keys, <-NoDup_entries_keys, length_fmap; done).
  rewrite N.eqb_refl, (proj2 (Nat.ltb_ge _ _) Hn), (proj2 (Nat.ltb_ge _ _) Hf). simpl.
  rewrite collect_entries. destruct (run ops) as [na fa sl]. simpl in *. do 2 f_equal.
  rewrite <-(collect_entries sl) at 2. f_equal.
  apply filter_all. intros [n r] Hin%elem_of_entries. by eapply Hr.
Qed.

(** ** Names never move onto another resource *)

(** The operations that say, having seen the host call [r] [seen], that its
    name is [l]. *)
Definition vouches (r : ResourceRef) (seen l : ustr) (before : Aliases) (op : alias_op) : Prop :=
  (∃ typed, op = Set_ r typed seen ∧ trim typed = l) ∨
  (op = Confirm r seen ∧ label <$> names before !! r = Some l).

(** What the steps do to one name. *)
Lemma step_name a op r alias :
  names (step a op) !! r = Some alias →
  names a !! r = Some alias ∨ vouches r (observed alias) (label alias) a op.
Proof.
  destruct op as [r' l o|r'|r' o|r'|n s|t]; simpl.
  - unfold set. destruct (_ || _); [by left|]. destruct (existsb _ _); [by left|].
    destruct (_ && _); [by left|]. cbn [names]. rewrite lookup_insert. case_decide as E; [|by left].
    intros [= <-]. right. left. subst. by exists l.
  - cbn. intros [_ ?]%lookup_delete_Some. by left.
  - unfold confirm. destruct (names a !! r') as [old|] eqn:E; [|by left]. cbn [names fst].
    rewrite lookup_insert. case_decide as Er; [|by left]. intros [= <-]. right. right. subst.
    by rewrite E.
  - unfold favourite. destruct (position _ _); [by left|]. destruct (_ <=? _); by left.
  - unfold set_slot. destruct (negb _); by left.
  - cbn. intros [? _]%map_lookup_filter_Some. by left.
Qed.

(** A reused identifier never inherits a name: a name is shown as current for
    a resource the host calls [seen] only if somebody, having seen the host
    call it exactly [seen], gave that name to that resource or confirmed it;
    otherwise the name is suspended. *)
Theorem resolve_provenance (ops : list alias_op) r seen l :
  resolve (run ops) r seen = Some (l, Current) →
  ∃ before op after, ops = before ++ op :: after ∧ vouches r seen l (run before) op.
Proof.
  unfold resolve. intros H.
  destruct (names (run ops) !! r) as [alias|] eqn:E; [|done]. simpl in H.
  case_bool_decide as Hobs; [|done]. injection H as <-. subst seen.
  revert E. induction ops as [|op ops IH] using rev_ind; [done|].
  unfold run in *. rewrite foldl_app. simpl. intros [Hold|Hv]%step_name.
  - destruct (IH Hold) as (before & op' & after & -> & Hv).
    exists before, op', (after ++ [op]). by rewrite <-app_assoc.
  - by exists ops, op, [].
Qed.

Definition ex_ws : ResourceRef := RWorkspace (QId (u "buildbox") (u "s1") (u "w1")).
Definition ex_ops : list alias_op :=
  [Set_ ex_ws (u " compiler ") (u "rust"); SetSlot 3 (Some ex_ws); SetSlot 5 (Some ex_ws);
   Confirm ex_ws (u "rust-2")].

Lemma resolve_provenance_witness :
  resolve (run ex_ops) ex_ws (u "rust") = Some (u "compiler", Suspended) ∧
  ∃ before op after, ex_ops = before ++ op :: after ∧
    vouches ex_ws (u "rust-2") (u "compiler") (run before) op.
Proof.
  split; [by vm_compute|]. apply (resolve_provenance ex_ops). by vm_compute.
Defined.

(** ** Forgetting a target *)

Lemma elem_of_targets a t :
  t ∈ targets a ↔
  (∃ r, is_Some (names a !! r) ∧ target_of r = t) ∨
  (∃ r, r ∈ favourites a ∧ target_of r = t) ∨
  (∃ n r, slots a !! n = Some r ∧ target_of r = t).
Proof.
  unfold targets. rewrite elem_of_list_to_set, list_elem_of_fmap. split.
  - intros (r & -> & Hr). rewrite !elem_of_app in Hr. simpl_iter. naive_solver.
  - intros [(r & Hr & <-)|[(r & Hr & <-)|(n & r & Hr & <-)]]; exists r;
      rewrite !elem_of_app; simpl_iter; naive_solver.
Qed.

Lemma filter_same_size {K V} `{Countable K} (P : K * V → Prop) `{∀ x, Decision (P x)}
    (m : gmap K V) k v : size (filter P m) = size m → m !! k = Some v → P (k, v).
Proof.
  intros Hs Hk. destruct (decide (P (k, v))) as [|Hno]; [done|]. exfalso.
  assert (filter P m ⊆ delete k m) as Hsub%map_subseteq_size.
  { apply map_subseteq_spec. intros k' v' [Hk' HP]%map_lookup_filter_Some.
    rewrite lookup_delete_ne; [done|]. intros ->. congruence. }
  rewrite map_size_delete_Some in Hsub by eauto.
  assert (size m ≠ 0) by (intros E%map_size_empty_inv; subst; by apply lookup_empty_Some in Hk). lia.
Qed.

Lemma filter_same_length {A} (P : A → Prop) `{∀ x, Decision (P x)} (l : list A) :
  length (filter P l) = length l → ∀ x, x ∈ l → P x.
Proof.
  induction l as [|y l IH]; [intros _ x Hx; by apply elem_of_nil in Hx|].
  rewrite filter_cons. case_decide; simpl; intros Hl x.
  - intros [->|Hx]%elem_of_cons; [done|]. apply IH; [lia|done].
  - pose proof (length_filter P l). lia.
Qed.

Lemma belongs_spec r t : belongs r t = false ↔ target_of r ≠ t.
Proof. unfold belongs. apply bool_decide_eq_false. Qed.

(** Forgetting a target removes every name, favourite and slot of that
    target's resources and nothing else, and reports a change exactly when it
    held any; every other target keeps all of its entries. *)
Theorem forget_target_exact a t :
  let '(a', changed) := forget_target t a in
  targets a' = targets a ∖ {[t]} ∧
  (changed = true ↔ t ∈ targets a) ∧
  (∀ r, target_of r ≠ t → names a' !! r = names a !! r) ∧
  (∀ r, target_of r ≠ t → is_favourite a' r = is_favourite a r) ∧
  (∀ n r, target_of r ≠ t → slots a' !! n = Some r ↔ slots a !! n = Some r).
Proof.
  assert (Htargets : targets (forget_target t a).1 = targets a ∖ {[t]}).
  { apply set_eq. intros t'. rewrite elem_of_difference, elem_of_singleton, !elem_of_targets.
    cbn [forget_target fst names favourites slots]. split.
    - intros [(r & [al Hr] & <-)|[(r & Hr & <-)|(n & r & Hr & <-)]].
      + apply map_lookup_filter_Some in Hr as [Hr Hb%belongs_spec]. split; [|done]. left. eauto.
      + apply list_elem_of_filter in Hr as [Hb%belongs_spec Hr]. split; [|done]. eauto.
      + apply map_lookup_filter_Some in Hr as [Hr Hb%belongs_spec]. split; [|done]. eauto 10.
    - intros [[(r & [al Hr] & <-)|[(r & Hr & <-)|(n & r & Hr & <-)]] Hne%belongs_spec].
      + left. exists r. split; [|done]. exists al. by apply map_lookup_filter_Some.
      + right. left. exists r. split; [|done]. by apply list_elem_of_filter.
      + right. right. exists n, r. split; [|done]. by apply map_lookup_filter_Some. }
  assert (Hchanged : (forget_target t a).2 = true ↔ t ∈ targets a).
  { unfold forget_target. cbn [snd]. rewrite negb_true_iff, Nat.eqb_neq. unfold held_count.
    cbn [names favourites slots].
    pose proof (map_filter_size (λ kv : ResourceRef * Alias, belongs kv.1 t = false) (names a)).
    pose proof (map_filter_size (λ kv : N * ResourceRef, belongs kv.2 t = false) (slots a)).
    pose proof (length_filter (λ r, belongs r t = false) (favourites a)).
    split.
    - intros Hne. destruct (decide (t ∈ targets a)) as [|Hno]; [done|]. exfalso. apply Hne.
      rewrite elem_of_targets in Hno. f_equal; [f_equal|]; symmetry.
      + f_equal. apply map_filter_id. intros r al Hr. apply belongs_spec. naive_solver.
      + f_equal. apply filter_all. intros r Hr. apply belongs_spec. naive_solver.
      + f_equal. apply map_filter_id. intros n r Hr. apply belongs_spec. simpl. naive_solver.
    - intros Hin Hsum. apply elem_of_targets in Hin as
        [(r & [al Hr] & Ht)|[(r & Hr & Ht)|(n & r & Hr & Ht)]].
      + apply (filter_same_size (λ kv : ResourceRef * Alias, belongs kv.1 t = false)) in Hr; [|lia].
        by apply belongs_spec in Hr.
      + assert (belongs r t = false) as Hb%belongs_spec; [|done].
        by apply (filter_same_length (λ r, belongs r t = false) (favourites a)); [lia|].
      + apply (filter_same_size (λ kv : N * ResourceRef, belongs kv.2 t = false)) in Hr; [|lia].
        by apply belongs_spec in Hr. }
  destruct (forget_target t a) as [a' changed] eqn:E. simpl in *.
  split; [done|split; [done|]]. unfold forget_target in E. injection E as <- _.
  cbn [names favourites slots]. split; [|split].
  - intros r Hr%belongs_spec. apply option_eq. intros al. rewrite map_lookup_filter_Some. naive_solver.
  - intros r Hr%belongs_spec. unfold is_favourite. cbn [favourites]. apply bool_decide_ext.
    rewrite list_elem_of_filter. naive_solver.
  - intros n r Hr%belongs_spec. rewrite map_lookup_filter_Some. naive_solver.
Qed.
