(* ===== verification/AgentCards.v ===== *)
(** The agent inbox: [src/src/agent_card.rs].

    The daemon's projection of the federation into cards, one per agent, and
    the resolution of a card back into a live pane. *)

From S2P Require Import Prelude Model State Attention AgentMarks Aliases.

Definition AGENT_CARD_PROJECTION_VERSION : N := 2.
Definition MAX_HISTORY_CARDS : nat := 64.
Definition MAX_LABEL_CHARACTERS : nat := 128.
Definition MAX_STATUS_CHARACTERS : nat := 64.

Inductive AgentCardSection := InNeedsYou | InWorking | InRecent.
#[export] Instance AgentCardSection_eq_dec : EqDecision AgentCardSection.
Proof. solve_decision. Defined.

Inductive AgentActivity := ActNeedsInput | ActWorking | ActIdle | ActUnknown | ActGone.
#[export] Instance AgentActivity_eq_dec : EqDecision AgentActivity.
Proof. solve_decision. Defined.

(** [From<AgentPhase>]. *)
Definition activity_of (phase : AgentPhase) : AgentActivity :=
  match phase with
  | PhaseAttention => ActNeedsInput
  | PhaseWorking => ActWorking
  | PhaseIdle => ActIdle
  | PhaseUnknown => ActUnknown
  end.

Record AgentCard := {
  card_agent : AgentId;
  card_pane : option PaneId;
  card_title : ustr;
  card_workspace : ustr;
  card_tab : ustr;
  card_pane_label : ustr;
  card_provider : option ustr;
  card_activity : AgentActivity;
  card_status : ustr;
  card_section : AgentCardSection;
  card_unread : bool;
  card_stale : bool;
  card_actionable : bool;
  card_last_change_ms : option N;
  card_marks : AgentMarkState;
  card_alias : option ustr;
  card_alias_suspended : bool;
  card_favourite : bool;
}.
#[export] Instance AgentCard_eq_dec : EqDecision AgentCard.
Proof. solve_decision. Defined.

Record AgentCardProjection := {
  proj_version : N;
  proj_revision : N;
  needs_you : list AgentCard;
  working : list AgentCard;
  recent : list AgentCard;
}.
#[export] Instance AgentCardProjection_eq_dec : EqDecision AgentCardProjection.
Proof. solve_decision. Defined.

Definition cards (p : AgentCardProjection) : list AgentCard :=
  needs_you p ++ working p ++ recent p.

Definition card_of (p : AgentCardProjection) (agent : AgentId) : option AgentCard :=
  List.find (λ card, bool_decide (card_agent card = agent)) (cards p).

Definition projection_is_empty (p : AgentCardProjection) : bool :=
  bool_decide (needs_you p = []) && bool_decide (working p = []) && bool_decide (recent p = []).

Record LocalView := {
  local_marks : AgentMarks;
  local_aliases : Aliases;
  local_now_ms : N;
}.

Record CardRoute := { route_pane : PaneId; route_generation : N }.
#[export] Instance CardRoute_eq_dec : EqDecision CardRoute.
Proof. solve_decision. Defined.

Inductive CardRouteError := UnknownTarget | TargetUnavailable | AgentGone | PaneMissing | Ambiguous.
#[export] Instance CardRouteError_eq_dec : EqDecision CardRouteError.
Proof. solve_decision. Defined.

Definition message (e : CardRouteError) : ustr :=
  match e with
  | UnknownTarget => u "that agent's target is no longer in the federation"
  | TargetUnavailable => u "that agent's target is not connected"
  | AgentGone => u "that agent is no longer running"
  | PaneMissing => u "that agent's pane is no longer open"
  | Ambiguous => u "that agent's location is ambiguous"
  end.

Record Tracked := { tr_rank : N; tr_section : AgentCardSection; tr_card : AgentCard }.
#[export] Instance Tracked_eq_dec : EqDecision Tracked.
Proof. solve_decision. Defined.

Record Published := {
  pub_needs_you : list AgentCard; pub_working : list AgentCard; pub_recent : list AgentCard;
}.
#[export] Instance Published_eq_dec : EqDecision Published.
Proof. solve_decision. Defined.

(** [history] is newest first, as the deque is. *)
Record AgentCardIndex := {
  tracked : gmap AgentId Tracked;
  history : list AgentCard;
  next_rank : N;
  index_revision : N;
  published : option Published;
}.

Definition AgentCardIndex_default : AgentCardIndex := {|
  tracked := ∅; history := []; next_rank := 0; index_revision := 0; published := None;
|}.

(** ** Identity *)

Definition sep : ustr := [AGENT_KEY_SEPARATOR].

Definition pane_agent_key (pane : PaneId) : AgentId :=
  QualifiedId_new (target pane) (session pane) (u "pane" ++ sep ++ resource pane).

Definition agent_key (agent : AgentState) : AgentId :=
  match ag_session agent with
  | Some s =>
      QualifiedId_new (target (ag_pane agent)) (session (ag_pane agent))
        (u "session" ++ sep ++ as_kind s ++ sep ++ as_value s ++ sep ++ as_source s
           ++ sep ++ as_agent s)
  | None => pane_agent_key (ag_pane agent)
  end.

Definition agent_key_for_pane (st : FederationState) (pane : PaneId) : AgentId :=
  default (pane_agent_key pane)
    (agent_key <$> (t ← State.targets st !! target_session pane; s ← snapshot t; agents s !! pane)).

(** ** Building one card *)

Definition card_section_of (quiet : bool) (activity : AgentActivity) : AgentCardSection :=
  if quiet then InRecent
  else match activity with
       | ActNeedsInput => InNeedsYou
       | ActWorking => InWorking
       | _ => InRecent
       end.

Definition workspace_name (s : NormalizedSnapshot) (pane : option PaneState) : ustr :=
  default (u "unassigned")
    ((λ w : WorkspaceId, default (resource w) (workspaces s !! w ≫= ws_label))
       <$> (pane ≫= pane_workspace)).

Definition tab_name (s : NormalizedSnapshot) (pane : option PaneState) : ustr :=
  default (u "unassigned")
    ((λ t : TabId, default (resource t) (tabs s !! t ≫= tab_label)) <$> (pane ≫= pane_tab)).

Definition last_change (attention : AttentionIndex) (pane : PaneId) : option N :=
  ev_occurred_at_ms <$>
    List.find (λ e, bool_decide (ev_pane e = pane)) (reverse (events attention)).

Definition build_card (agent : AgentState) (s : NormalizedSnapshot) (attention : AttentionIndex)
    (live : bool) (local : LocalView) : AgentCard :=
  let pane : option PaneState := panes s !! ag_pane agent in
  let status := bounded_metadata
    (default (u "unknown") (or_else (ag_status agent) (pane ≫= pane_agent_status)))
    MAX_STATUS_CHARACTERS in
  let activity := activity_of (agent_phase status (default false (ag_interactive_ready agent))) in
  let key := agent_key agent in
  let marked := state_of (local_marks local) key in
  let reference := RAgent key in
  let title := bounded_metadata
    (default (resource (ag_pane agent))
       (or_else (ag_name agent) (or_else (pane ≫= pane_agent) (pane ≫= pane_label))))
    MAX_LABEL_CHARACTERS in
  let '(alias, alias_suspended) :=
    match resolve (local_aliases local) reference title with
    | Some (label, Current) => (Some label, false)
    | Some (_, Suspended) => (None, true)
    | None => (None, false)
    end in
  {| card_agent := key;
     card_pane := Some (ag_pane agent);
     card_title := title;
     card_workspace := bounded_metadata (workspace_name s pane) MAX_LABEL_CHARACTERS;
     card_tab := bounded_metadata (tab_name s pane) MAX_LABEL_CHARACTERS;
     card_pane_label := bounded_metadata
       (default (resource (ag_pane agent)) (pane ≫= pane_label)) MAX_LABEL_CHARACTERS;
     card_provider := (λ p, bounded_metadata p MAX_LABEL_CHARACTERS) <$> ag_agent agent;
     card_activity := activity;
     card_status := status;
     card_section := card_section_of (quiet_at marked (local_now_ms local)) activity;
     card_unread := has_unread_for_pane attention (ag_pane agent);
     card_stale := negb live;
     card_actionable := live && bool_decide (is_Some pane);
     card_last_change_ms := last_change attention (ag_pane agent);
     card_marks := marked;
     card_alias := alias;
     card_alias_suspended := alias_suspended;
     card_favourite := is_favourite (local_aliases local) reference |}.

(** The card as [project] leaves it when it may not be acted on. *)
Definition set_flags (stale actionable : bool) (c : AgentCard) : AgentCard := {|
  card_agent := card_agent c; card_pane := card_pane c; card_title := card_title c;
  card_workspace := card_workspace c; card_tab := card_tab c;
  card_pane_label := card_pane_label c; card_provider := card_provider c;
  card_activity := card_activity c; card_status := card_status c;
  card_section := card_section c; card_unread := card_unread c;
  card_stale := stale; card_actionable := actionable;
  card_last_change_ms := card_last_change_ms c; card_marks := card_marks c;
  card_alias := card_alias c; card_alias_suspended := card_alias_suspended c;
  card_favourite := card_favourite c;
|}.

Definition retired (c : AgentCard) : AgentCard := {|
  card_agent := card_agent c; card_pane := None; card_title := card_title c;
  card_workspace := card_workspace c; card_tab := card_tab c;
  card_pane_label := card_pane_label c; card_provider := card_provider c;
  card_activity := ActGone; card_status := card_status c;
  card_section := InRecent; card_unread := card_unread c;
  card_stale := false; card_actionable := false;
  card_last_change_ms := card_last_change_ms c; card_marks := card_marks c;
  card_alias := card_alias c; card_alias_suspended := card_alias_suspended c;
  card_favourite := card_favourite c;
|}.

Definition retire (h : list AgentCard) (c : AgentCard) : list AgentCard :=
  take MAX_HISTORY_CARDS (retired c :: h).

(** ** The projection *)

Section project.
Variables (st : FederationState) (attention : AttentionIndex) (local : LocalView).

(** The cards of the federation, in the order the loops build them. *)
Definition target_cards (t : TargetRuntimeState) : list (AgentId * AgentCard) :=
  match snapshot t with
  | None => []
  | Some s =>
      (λ agent, (agent_key agent, build_card agent s attention (is_live t) local))
        <$> values (agents s)
  end.
Definition built_cards : list (AgentId * AgentCard) := t ← values (State.targets st); target_cards t.

(** [seen] and [ambiguous]. *)
Definition see (w : gmap AgentId AgentCard * gset AgentId) (c : AgentId * AgentCard)
    : gmap AgentId AgentCard * gset AgentId :=
  (<[c.1 := c.2]> w.1, if decide (is_Some (w.1 !! c.1)) then {[c.1]} ∪ w.2 else w.2).
Definition scanned : gmap AgentId AgentCard * gset AgentId := foldl see (∅, ∅) built_cards.

Definition silence (m : gmap AgentId AgentCard) (id : AgentId) : gmap AgentId AgentCard :=
  alter (λ c, set_flags (card_stale c) false c) id m.
Definition seen_cards : gmap AgentId AgentCard :=
  foldl silence scanned.1 (set_iter scanned.2).

Definition target_is_live (id : AgentId) : bool :=
  match State.targets st !! target_session id with Some t => is_live t | None => false end.
(** The target is configured and cannot be asked. *)
Definition target_is_down (id : AgentId) : bool :=
  match State.targets st !! target_session id with Some t => negb (is_live t) | None => false end.

Definition vanished (tr : gmap AgentId Tracked) : list AgentCard :=
  omap (λ e : AgentId * Tracked,
          if decide (is_Some (seen_cards !! e.1)) then None
          else if target_is_live e.1 then Some (tr_card e.2) else None)
       (entries tr).

Definition retained (tr : gmap AgentId Tracked) : gmap AgentId Tracked :=
  filter (λ e : AgentId * Tracked,
            is_Some (seen_cards !! e.1) ∨ target_is_down e.1 = true) tr.

Definition dim (id : AgentId) (t : Tracked) : Tracked :=
  if decide (is_Some (seen_cards !! id)) then t
  else {| tr_rank := tr_rank t; tr_section := tr_section t;
          tr_card := set_flags true false (tr_card t) |}.

(** One seen card enters the tracked map: in place when its section is
    unchanged, at a fresh rank otherwise. *)
Definition track (w : gmap AgentId Tracked * N) (e : AgentId * AgentCard)
    : gmap AgentId Tracked * N :=
  let section := card_section e.2 in
  let fresh := (<[e.1 := {| tr_rank := w.2; tr_section := section; tr_card := e.2 |}]> w.1,
                u64_saturating_add w.2 1) in
  match w.1 !! e.1 with
  | Some t =>
      if bool_decide (tr_section t = section)
      then (<[e.1 := {| tr_rank := tr_rank t; tr_section := tr_section t; tr_card := e.2 |}]> w.1,
            w.2)
      else fresh
  | None => fresh
  end.

(** Pinned first, then rank, then identity. *)
Definition card_order (t : Tracked) : N * (N * AgentId) :=
  (if pinned (card_marks (tr_card t)) then 0%N else 1%N, (tr_rank t, card_agent (tr_card t))).
Definition card_before (a b : Tracked) : Prop := cmp_le (card_order a) (card_order b).
#[export] Instance card_before_dec : RelDecision card_before.
Proof. intros a b. unfold card_before. apply _. Defined.

Definition section_cards (tr : gmap AgentId Tracked) (section : AgentCardSection)
    : list AgentCard :=
  tr_card <$> merge_sort card_before
                (filter (λ t, tr_section t = section) (values tr)).

(** Tracked cards, ranks and history after the federation was seen. *)
Definition retrack (i : AgentCardIndex) : gmap AgentId Tracked * N :=
  foldl track (map_imap (λ id t, Some (dim id t)) (retained (tracked i)), next_rank i)
    (entries seen_cards).

Definition project (i : AgentCardIndex) : AgentCardIndex * AgentCardProjection :=
  let tr := retrack i in
  let h := foldl retire (history i) (vanished (tracked i)) in
  let pub := {|
    pub_needs_you := section_cards tr.1 InNeedsYou;
    pub_working := section_cards tr.1 InWorking;
    pub_recent := section_cards tr.1 InRecent ++ h;
  |} in
  let rev := if bool_decide (published i = Some pub) then index_revision i
             else u64_saturating_add (index_revision i) 1 in
  ({| tracked := tr.1; history := h; next_rank := tr.2; index_revision := rev;
      published := Some pub |},
   {| proj_version := AGENT_CARD_PROJECTION_VERSION; proj_revision := rev;
      needs_you := pub_needs_you pub; working := pub_working pub; recent := pub_recent pub |}).
End project.

(** ** Resolution *)

Definition resolve_card (agent : AgentId) (st : FederationState)
    : result CardRouteError CardRoute :=
  t ← ok_or (State.targets st !! target_session agent) UnknownTarget;
  if negb (is_live t) then Err TargetUnavailable
  else
    s ← ok_or (snapshot t) TargetUnavailable;
    match filter (λ a, agent_key a = agent) (values (agents s)) with
    | [] => Err AgentGone
    | [found] =>
        if decide (is_Some (panes s !! ag_pane found))
        then Ok {| route_pane := ag_pane found; route_generation := connection_generation t |}
        else Err PaneMissing
    | _ => Err Ambiguous
    end.
