(* ===== verification/AgentCardsFacts.v ===== *)
(** What holds of the agent inbox ([AgentCards]). *)

From S2P Require Import Prelude Model Json State StateFacts Examples Attention AgentMarks.
From S2P Require Import Aliases AgentCards.

(** ** Identity *)

(** The session fields normalization lets through never hold the separator. *)
Definition session_clean (a : AgentState) : Prop :=
  ∀ s, ag_session a = Some s →
    AGENT_KEY_SEPARATOR ∉ as_kind s ∧ AGENT_KEY_SEPARATOR ∉ as_value s ∧
    AGENT_KEY_SEPARATOR ∉ as_source s ∧ AGENT_KEY_SEPARATOR ∉ as_agent s.

(** What an agent is identified by: its session when it reports one, the pane
    it runs in otherwise. *)
Definition identity (a : AgentState) : TargetSession * (AgentSessionRef + PaneId) :=
  (target_session (ag_pane a),
   match ag_session a with Some s => inl s | None => inr (ag_pane a) end).

Section fields.
Context {V : Type} `{JsonValue V}.

Lemma identity_field_clean (v : V) f x : identity_field v f = Some x → AGENT_KEY_SEPARATOR ∉ x.
Proof.
  unfold identity_field, bounded_identity. intros (y & _ & Hy)%bind_Some.
  destruct (_ && _) eqn:E; [|done]. injection Hy as <-.
  apply andb_true_iff in E as [E _]. apply andb_true_iff in E as [_ E].
  by apply negb_true_iff, bool_decide_eq_false in E.
Qed.

Lemma agent_states_clean ts (v : V) p a : agent_states v ts !! p = Some a → session_clean a.
Proof.
  intros Hin%collect_map_lookup. apply list_elem_of_omap in Hin as (item & _ & Hitem).
  unfold agent_state in Hitem. apply bind_Some in Hitem as (q & _ & Hq). injection Hq as <- <-.
  intros s. cbn [ag_session]. unfold agent_session, agent_session_fields.
  intros (w & _ & Hs)%bind_Some.
  repeat (apply bind_Some in Hs as (? & ?%identity_field_clean & Hs)).
  injection Hs as <-. done.
Qed.
End fields.

(** An agent key names one agent: two agents whose reported sessions passed
    normalization have the same key exactly when they live on the same target
    and Herdr session and report the same agent session, or report none and
    occupy the same pane. No session value can collide with a pane. *)
Theorem agent_key_injective (a b : AgentState) :
  session_clean a → session_clean b →
  (agent_key a = agent_key b ↔ identity a = identity b).
Proof.
  intros Ha Hb. unfold agent_key, identity, pane_agent_key, QualifiedId_new, target_session,
    TargetSession_new.
  destruct a as [[ta sa ra] na aa sta ira rea [[so ag ki va]|]],
           b as [[tb sb rb] nb ab stb irb reb [[so' ag' ki' va']|]]; cbn -[app].
  - destruct (Ha _ eq_refl) as (H1 & H2 & H3 & H4), (Hb _ eq_refl) as (H5 & H6 & H7 & H8).
    cbn -[app] in *. split; [|by intros Heq; injection Heq; intros; subst].
    intros [= -> -> Heq].
    apply app_sep_inj in Heq as [-> Heq]; [|done..].
    apply app_sep_inj in Heq as [-> Heq]; [|done..].
    by apply app_sep_inj in Heq as [-> ->]; [|done..].
  - split; [intros [=]|intros [=]].
  - split; [intros [=]|intros [=]].
  - split; intros Heq; injection Heq; intros; by subst.
Qed.

Definition ex_session_agent (pane value : string) : AgentState := {|
  ag_pane := QId (u "host") (u "dev") (u pane); ag_name := None; ag_agent := None;
  ag_status := None; ag_interactive_ready := None; ag_revision := None;
  ag_session := Some {| as_source := u "hook"; as_agent := u "claude"; as_kind := u "id";
                        as_value := u value |};
|}.

(** The same session seen in another pane is the same agent. *)
Lemma agent_key_injective_witness :
  agent_key (ex_session_agent "p1" "s9") = agent_key (ex_session_agent "p2" "s9") ∧
  identity (ex_session_agent "p1" "s9") = identity (ex_session_agent "p2" "s9").
Proof.
  split; [by vm_compute|]. apply agent_key_injective; [| |by vm_compute];
    intros s [= <-]; repeat split; apply (bool_decide_unpack _); by vm_compute.
Defined.

(** ** Resolution *)

Lemma agent_key_session a : target_session (agent_key a) = target_session (ag_pane a).
Proof. unfold agent_key. by destruct (ag_session a). Qed.

Lemma filter_singleton {A} (P : A → Prop) `{∀ x, Decision (P x)} (l : list A) x :
  filter P l = [x] → ∀ y, y ∈ l → P y → y = x.
Proof.
  intros Hf y Hy HP. assert (y ∈ filter P l) as Hin by by apply list_elem_of_filter.
  rewrite Hf in Hin. by apply list_elem_of_singleton in Hin.
Qed.

(** What a route to an agent means: its target is live, exactly one agent of
    its snapshot answers to the key, and that agent's pane is present. *)
Definition route_of (st : FederationState) (agent : AgentId) (r : CardRoute) : Prop :=
  ∃ t s a, State.targets st !! target_session agent = Some t ∧ connection t = Live ∧
    snapshot t = Some s ∧
    filter (λ b, agent_key b = agent) (values (agents s)) = [a] ∧
    is_Some (panes s !! ag_pane a) ∧
    r = {| route_pane := ag_pane a; route_generation := connection_generation t |}.

Lemma resolve_card_iff agent st r : resolve_card agent st = Ok r ↔ route_of st agent r.
Proof.
  unfold resolve_card, route_of. split.
  - destruct (State.targets st !! target_session agent) as [t|]; [|done]. simpl.
    destruct (is_live t) eqn:Hl; [|done]. simpl. apply bool_decide_eq_true in Hl.
    destruct (snapshot t) as [s|] eqn:Hs; [|done]. simpl.
    destruct (filter _ _) as [|a [|b l]] eqn:Hf; try done. destruct (decide _); [|done].
    intros [= <-]. by exists t, s, a.
  - intros (t & s & a & Ht & Hl & Hs & Hf & Hp & ->). rewrite Ht. simpl.
    unfold is_live. rewrite bool_decide_eq_true_2 by done. simpl. rewrite Hs. simpl.
    rewrite Hf. by rewrite decide_True.
Qed.

(** A card resolves to a pane only on authority: its target is live, exactly
    one agent there answers to the key, and that agent's pane is in the
    snapshot. The route then carries the live connection's generation, and its
    pane is on the card's own target and session, never on another host. In
    every other case resolution refuses. *)
Theorem resolve_card_exact (agent : AgentId) (st : FederationState) :
  federation_wf st →
  (∀ r, resolve_card agent st = Ok r ↔ route_of st agent r) ∧
  (∀ r, resolve_card agent st = Ok r →
    target_session (route_pane r) = target_session agent ∧
    ∃ t, State.targets st !! target_session agent = Some t ∧
      accepts_generation t (route_generation r) = true).
Proof.
  intros Hwf. split; [apply resolve_card_iff|].
  intros r (t & s & a & Ht & Hl & Hs & Hf & Hp & ->)%resolve_card_iff.
  assert (a ∈ filter (λ b, agent_key b = agent) (values (agents s))) as Ha by (rewrite Hf; by left).
  apply list_elem_of_filter in Ha as [<- Ha]. cbn [route_pane route_generation].
  split; [by rewrite agent_key_session|]. exists t. split; [done|].
  unfold accepts_generation. by rewrite bool_decide_eq_true_2, N.eqb_refl.
Qed.

(** ** The scan *)

Definition occurrences (id : AgentId) (l : list (AgentId * AgentCard)) : nat :=
  length (filter (λ e, e.1 = id) l).

Lemma see_spec l :
  (foldl see (∅, ∅) l).1 = collect_map l ∧
  ∀ id, id ∈ (foldl see (∅, ∅) l).2 ↔ 2 ≤ occurrences id l.
Proof.
  induction l as [|[id c] l [IH1 IH2]] using rev_ind.
  { split; [done|]. intros id. simpl. unfold occurrences. simpl. rewrite elem_of_empty. lia. }
  rewrite foldl_app. destruct (foldl see (∅, ∅) l) as [m amb]. simpl in *. subst m.
  split; [by rewrite collect_map_snoc|]. intros id'. unfold occurrences in *.
  rewrite filter_app, length_app. simpl.
  assert (is_Some (collect_map l !! id) ↔ 1 ≤ occurrences id l) as Hone.
  { rewrite collect_map_lookup_is_Some. unfold occurrences. split.
    - intros ([i x] & Heq & Hin)%list_elem_of_fmap. simpl in Heq. subst i.
      assert ((id, x) ∈ filter (λ e : AgentId * AgentCard, e.1 = id) l) as Hf
        by by apply list_elem_of_filter.
      destruct (filter _ l); [by apply elem_of_nil in Hf|simpl; lia].
    - destruct (filter _ l) as [|[i x] f] eqn:E; simpl; [lia|]. intros _.
      assert ((i, x) ∈ filter (λ e : AgentId * AgentCard, e.1 = id) l) as Hf by (rewrite E; by left).
      apply list_elem_of_filter in Hf as [<- Hin]. apply list_elem_of_fmap. by exists (i, x). }
  rewrite filter_cons, filter_nil. cbn [fst]. unfold occurrences in Hone.
  destruct (decide (id = id')) as [->|Hne]; cbn [length].
  - case_decide as Hm; rewrite Hone in Hm; rewrite ?elem_of_union, ?elem_of_singleton, IH2; [|lia].
    split; [intros _; lia|by left].
  - case_decide; rewrite ?elem_of_union, ?elem_of_singleton, IH2; [|lia].
    split; [intros [?|?]; [congruence|lia]|right; lia].
Qed.

Lemma silence_all m l id :
  foldl silence m l !! id =
  if decide (id ∈ l) then (λ c, set_flags (card_stale c) false c) <$> m !! id else m !! id.
Proof.
  revert m. induction l as [|i l IH]; intros m; cbn [foldl].
  { rewrite decide_False; [done|]. by intros ?%elem_of_nil. }
  rewrite IH. unfold silence. destruct (decide (i = id)) as [->|Hne].
  - rewrite lookup_alter_eq. rewrite (decide_True (P := id ∈ id :: l)) by left.
    case_decide; [|done]. by destruct (m !! id).
  - rewrite lookup_alter_ne by done.
    destruct (decide (id ∈ l)) as [Hin|Hin]; [rewrite decide_True|rewrite decide_False];
      rewrite ?elem_of_cons; naive_solver.
Qed.

Section scan.
Variables (st : FederationState) (attention : AttentionIndex) (local : LocalView).

Lemma elem_of_built id c :
  (id, c) ∈ built_cards st attention local ↔
  ∃ k t s p a, State.targets st !! k = Some t ∧ snapshot t = Some s ∧ agents s !! p = Some a ∧
    id = agent_key a ∧ c = build_card a s attention (is_live t) local.
Proof.
  unfold built_cards, target_cards. rewrite list_elem_of_bind. split.
  - intros (t & Hin & [k Ht]%elem_of_values). destruct (snapshot t) as [s|] eqn:Hs;
      [|by apply elem_of_nil in Hin].
    apply list_elem_of_fmap in Hin as (a & [= -> ->] & [p Ha]%elem_of_values). eauto 10.
  - intros (k & t & s & p & a & Ht & Hs & Ha & -> & ->). exists t. split.
    + rewrite Hs. apply list_elem_of_fmap. exists a. split; [done|]. apply elem_of_values. eauto.
    + apply elem_of_values. eauto.
Qed.

Lemma build_card_agent a s live : card_agent (build_card a s attention live local) = agent_key a.
Proof. unfold build_card. destruct (resolve _ _ _) as [[? []]|]; done. Qed.

Lemma build_card_pane a s live :
  card_pane (build_card a s attention live local) = Some (ag_pane a) ∧
  card_stale (build_card a s attention live local) = negb live ∧
  card_actionable (build_card a s attention live local)
  = live && bool_decide (is_Some (panes s !! ag_pane a)).
Proof. unfold build_card. destruct (resolve _ _ _) as [[? []]|]; done. Qed.

(** A seen card is one that was built, silenced if its key is not unique. *)
Lemma seen_cards_lookup id c :
  seen_cards st attention local !! id = Some c →
  ∃ k t s p a, State.targets st !! k = Some t ∧ snapshot t = Some s ∧ agents s !! p = Some a ∧
    id = agent_key a ∧
    let b := build_card a s attention (is_live t) local in
    c = b ∧ occurrences id (built_cards st attention local) ≤ 1 ∨
    c = set_flags (card_stale b) false b.
Proof.
  unfold seen_cards, scanned. rewrite silence_all.
  destruct (see_spec (built_cards st attention local)) as [Hm Hamb]. rewrite Hm. intros Hc.
  assert (∃ b, collect_map (built_cards st attention local) !! id = Some b ∧
    (c = b ∧ occurrences id (built_cards st attention local) ≤ 1 ∨
     c = set_flags (card_stale b) false b)) as (b & Hb & Hcase).
  { case_decide as Hd; rewrite elem_of_set_iter, Hamb in Hd.
    - apply fmap_Some in Hc as (b & Hb & ->). eauto.
    - exists c. split; [done|]. left. split; [done|lia]. }
  apply collect_map_lookup, elem_of_built in Hb as (k & t & s & p & a & Ht & Hs & Ha & -> & ->).
  by exists k, t, s, p, a.
Qed.

Lemma seen_cards_is_Some id :
  is_Some (seen_cards st attention local !! id) ↔
  ∃ k t s p a, State.targets st !! k = Some t ∧ snapshot t = Some s ∧ agents s !! p = Some a ∧
    id = agent_key a.
Proof.
  unfold seen_cards, scanned. rewrite silence_all.
  destruct (see_spec (built_cards st attention local)) as [Hm _]. rewrite Hm.
  assert (is_Some (collect_map (built_cards st attention local) !! id) ↔
    ∃ k t s p a, State.targets st !! k = Some t ∧ snapshot t = Some s ∧ agents s !! p = Some a ∧
    id = agent_key a) as Hiff.
  { rewrite collect_map_lookup_is_Some, list_elem_of_fmap. split.
    - intros ([i c] & -> & (k & t & s & p & a & Ht & Hs & Ha & -> & _)%elem_of_built).
      by exists k, t, s, p, a.
    - intros (k & t & s & p & a & Ht & Hs & Ha & ->).
      eexists (agent_key a, _). split; [done|]. apply elem_of_built. by exists k, t, s, p, a. }
  case_decide; [|done]. by rewrite fmap_is_Some.
Qed.

Lemma seen_cards_agent id c : seen_cards st attention local !! id = Some c → card_agent c = id.
Proof.
  intros (k & t & s & p & a & _ & _ & _ & -> & [[-> _]| ->])%seen_cards_lookup;
    simpl; apply build_card_agent.
Qed.

(** A seen card that is offered resolves to the pane it shows. *)
Lemma seen_actionable_resolves id c :
  federation_wf st → seen_cards st attention local !! id = Some c → card_actionable c = true →
  ∃ r, resolve_card id st = Ok r ∧ card_pane c = Some (route_pane r).
Proof.
  intros Hwf Hc Hact.
  apply seen_cards_lookup in Hc as (k & t & s & p & a & Ht & Hs & Ha & -> & [[-> Hocc]| ->]); [|done].
  destruct (build_card_pane a s (is_live t)) as (Hp & _ & Hb). rewrite Hb in Hact.
  apply andb_true_iff in Hact as [Hl Hpane]. apply bool_decide_eq_true in Hpane.
  apply bool_decide_eq_true in Hl as Hlive.
  destruct (Hwf k t Ht) as [Hkey Hsnap]. destruct (Hsnap s Hs) as [_ _ _ _ [Hkeyed Hsess] _].
  assert (target_session (agent_key a) = k) as Hk.
  { rewrite agent_key_session. specialize (Hkeyed p a Ha). unfold wire_key, AgentState_keyed in Hkeyed.
    rewrite Hkeyed. by eapply Hsess. }
  exists {| route_pane := ag_pane a; route_generation := connection_generation t |}.
  split; [|done]. apply resolve_card_iff. exists t, s, a. rewrite Hk.
  split; [done|split; [done|split; [done|split; [|done]]]].
  assert (a ∈ filter (λ b, agent_key b = agent_key a) (values (agents s))) as Hin.
  { apply list_elem_of_filter. split; [done|]. apply elem_of_values. eauto. }
  assert (length (filter (λ b, agent_key b = agent_key a) (values (agents s))) ≤ 1) as Hlen.
  { etrans; [|exact Hocc]. unfold occurrences, built_cards.
    assert (t ∈ values (State.targets st)) as Ht' by (apply elem_of_values; eauto).
    clear -Ht' Hs. induction (values (State.targets st)) as [|t' l IH]; [by apply elem_of_nil in Ht'|].
    rewrite bind_cons, filter_app, length_app. apply elem_of_cons in Ht' as [<-|Hl].
    - unfold target_cards. rewrite Hs.
      assert (∀ g : list AgentState,
        length (filter (λ e : AgentId * AgentCard, e.1 = agent_key a)
          ((λ agent, (agent_key agent, build_card agent s attention (is_live t) local)) <$> g))
        = length (filter (λ b, agent_key b = agent_key a) g)) as Hg.
      { induction g as [|x g IHg]; [done|]. rewrite fmap_cons, !filter_cons. cbn [fst].
        case_decide; simpl; by rewrite IHg. }
      rewrite Hg. lia.
    - specialize (IH Hl). etrans; [exact IH|apply Nat.le_add_l]. }
  destruct (filter _ _) as [|x [|y l]]; simpl in Hlen; [by apply elem_of_nil in Hin| |lia].
  by apply list_elem_of_singleton in Hin as <-.
Qed.
End scan.

(** ** Tracking *)

(** What one seen card becomes when it is tracked. *)
Definition tracked_as (old : option Tracked) (next : N) (c : AgentCard) (t : Tracked) : Prop :=
  tr_card t = c ∧ tr_section t = card_section c ∧
  match old with
  | Some t0 => if decide (tr_section t0 = card_section c) then tr_rank t = tr_rank t0
               else (next ≤ tr_rank t)%N
  | None => (next ≤ tr_rank t)%N
  end.

Lemma tracked_as_mono old n1 n2 c t : (n1 ≤ n2)%N → tracked_as old n2 c t → tracked_as old n1 c t.
Proof.
  intros Hn (H1 & H2 & H3). split; [done|split; [done|]].
  destruct old as [t0|]; [case_decide; [done|]|]; lia.
Qed.

Lemma track_step w e :
  (w.2 ≤ u64_max)%N →
  ∃ t, (track w e).1 = <[e.1 := t]> w.1 ∧ tracked_as (w.1 !! e.1) w.2 e.2 t ∧
    (w.2 ≤ (track w e).2 ≤ u64_max)%N.
Proof.
  intros Hn. unfold track, tracked_as.
  assert (w.2 ≤ u64_saturating_add w.2 1 ≤ u64_max)%N as Hsat by (unfold u64_saturating_add; lia).
  destruct (w.1 !! e.1) as [t|]; [case_bool_decide as E|];
    eexists; (split; [reflexivity|]); cbn [tr_card tr_section tr_rank snd].
  - rewrite decide_True by done. split; [done|lia].
  - rewrite decide_False by done. split; [split; [done|split; [done|lia]]|lia].
  - split; [split; [done|split; [done|lia]]|lia].
Qed.

Lemma track_ranks l w :
  (w.2 ≤ u64_max)%N → (∀ id t, w.1 !! id = Some t → (tr_rank t ≤ w.2)%N) →
  ∀ id t, (foldl track w l).1 !! id = Some t → (tr_rank t ≤ (foldl track w l).2)%N.
Proof.
  revert w. induction l as [|e l IH]; intros w Hn Hw; [done|]. cbn [foldl].
  destruct (track_step w e Hn) as (_ & _ & _ & Hle). apply IH; [lia|].
  intros id t. unfold track in *. 
  destruct (w.1 !! e.1) as [t0|] eqn:E0; [case_bool_decide as E|]; cbn [fst snd] in *;
    rewrite lookup_insert; case_decide; try (intros [= <-]; cbn [tr_rank]; try lia);
    try (intros Ht%Hw; lia).
  by eapply Hw.
Qed.

Lemma track_all l w :
  (w.2 ≤ u64_max)%N → NoDup l.*1 →
  let w' := foldl track w l in
  (w.2 ≤ w'.2 ≤ u64_max)%N ∧
  (∀ id c, (id, c) ∈ l → ∃ t, w'.1 !! id = Some t ∧ tracked_as (w.1 !! id) w.2 c t) ∧
  (∀ id, id ∉ l.*1 → w'.1 !! id = w.1 !! id).
Proof.
  intros Hn Hnd. induction l as [|e l IH] using rev_ind; cbn zeta.
  { split; [done|split; [|done]]. intros id c Hin. by apply elem_of_nil in Hin. }
  rewrite fmap_app in Hnd. apply NoDup_app in Hnd as (Hnd & Hno & _).
  destruct (IH Hnd) as (Hn' & Hin & Hout). rewrite foldl_app. cbn [foldl].
  destruct (track_step (foldl track w l) e) as (t & Hm & Has & Hn''); [lia|].
  rewrite Hm.
  assert (e.1 ∉ l.*1) as He by (intros Hx; apply (Hno _ Hx); by left).
  split; [lia|split].
  - intros id c [Hl|Hl]%elem_of_app.
    + rewrite lookup_insert_ne; [by apply Hin|]. intros Heq. apply He. rewrite Heq.
      apply list_elem_of_fmap. by exists (id, c).
    + apply list_elem_of_singleton in Hl. subst e. cbn [fst snd] in *. exists t.
      rewrite lookup_insert_eq. split; [done|]. rewrite (Hout id He) in Has.
      eapply tracked_as_mono; [|exact Has]. lia.
  - intros id Hid. rewrite fmap_app, elem_of_app in Hid. cbn in Hid.
    rewrite list_elem_of_singleton in Hid.
    rewrite lookup_insert_ne by naive_solver. apply Hout. tauto.
Qed.

(** The invariant of the index. *)
Record index_wf (i : AgentCardIndex) : Prop := {
  wf_tracked : ∀ id t, tracked i !! id = Some t →
    card_agent (tr_card t) = id ∧ tr_section t = card_section (tr_card t);
  wf_history : length (history i) ≤ MAX_HISTORY_CARDS;
  wf_retired : ∀ c, c ∈ history i → retired c = c;
  wf_rank : (next_rank i ≤ u64_max)%N;
  wf_ranks : ∀ id t, tracked i !! id = Some t → (tr_rank t ≤ next_rank i)%N;
}.

Section inbox.
Variables (st : FederationState) (attention : AttentionIndex) (local : LocalView).

(** The tracked map before the seen cards are entered. *)
Definition kept (tr : gmap AgentId Tracked) : gmap AgentId Tracked :=
  map_imap (λ id t, Some (dim st attention local id t)) (retained st attention local tr).

Lemma kept_lookup tr id t :
  kept tr !! id = Some t ↔
  ∃ t0, tr !! id = Some t0 ∧ t = dim st attention local id t0 ∧
    (is_Some (seen_cards st attention local !! id) ∨ target_is_down st id = true).
Proof.
  unfold kept, retained. rewrite map_lookup_imap. split.
  - intros (t0 & Ht & [= <-])%bind_Some. apply map_lookup_filter_Some in Ht as [Ht Hk]. eauto.
  - intros (t0 & Ht & -> & Hk). apply bind_Some. exists t0. split; [|done].
    by apply map_lookup_filter_Some.
Qed.

Lemma dim_fields id t :
  tr_rank (dim st attention local id t) = tr_rank t ∧
  tr_section (dim st attention local id t) = tr_section t ∧
  card_agent (tr_card (dim st attention local id t)) = card_agent (tr_card t) ∧
  card_section (tr_card (dim st attention local id t)) = card_section (tr_card t) ∧
  card_marks (tr_card (dim st attention local id t)) = card_marks (tr_card t).
Proof. unfold dim. by case_decide. Qed.

(** What is tracked after a projection, agent by agent. *)
Lemma retrack_spec i :
  (next_rank i ≤ u64_max)%N →
  let w := retrack st attention local i in
  (next_rank i ≤ w.2 ≤ u64_max)%N ∧
  (∀ id c, seen_cards st attention local !! id = Some c →
    ∃ t, w.1 !! id = Some t ∧ tracked_as (tracked i !! id) (next_rank i) c t) ∧
  (∀ id t, seen_cards st attention local !! id = None →
    w.1 !! id = Some t ↔
    ∃ t0, tracked i !! id = Some t0 ∧ target_is_down st id = true ∧
      t = {| tr_rank := tr_rank t0; tr_section := tr_section t0;
             tr_card := set_flags true false (tr_card t0) |}).
Proof.
  intros Hn. cbn zeta. unfold retrack. fold (kept (tracked i)).
  destruct (track_all (entries (seen_cards st attention local)) (kept (tracked i), next_rank i))
    as (Hr & Hin & Hout); [done|rewrite NoDup_entries_keys; apply NoDup_keys|].
  cbn [fst snd] in *. split; [done|split].
  - intros id c Hc. destruct (Hin id c) as (t & Ht & Has); [by apply elem_of_entries|].
    exists t. split; [done|]. destruct Has as (H1 & H2 & H3). split; [done|split; [done|]].
    destruct (tracked i !! id) as [t0|] eqn:E.
    + assert (kept (tracked i) !! id = Some (dim st attention local id t0)) as Hk.
      { apply kept_lookup. exists t0. eauto. }
      rewrite Hk in H3. destruct (dim_fields id t0) as (Hrk & Hsec & _). by rewrite Hrk, Hsec in H3.
    + destruct (kept (tracked i) !! id) as [t0|] eqn:Hk; [|done].
      apply kept_lookup in Hk as (t1 & Ht1 & _). congruence.
  - intros id t Hno. rewrite Hout, kept_lookup.
    2:{ rewrite NoDup_entries_keys, elem_of_keys, Hno. by intros [? ?]. }
    assert (∀ t0, dim st attention local id t0
      = {| tr_rank := tr_rank t0; tr_section := tr_section t0;
           tr_card := set_flags true false (tr_card t0) |}) as Hd.
    { intros t0. unfold dim. rewrite decide_False; [done|]. rewrite Hno. by intros [? ?]. }
    split.
    + intros (t0 & Ht0 & -> & [[? ?]|Hdown]); [congruence|]. exists t0. by rewrite Hd.
    + intros (t0 & Ht0 & Hdown & ->). exists t0. rewrite Hd. auto.
Qed.

Lemma retire_all l h :
  length h ≤ MAX_HISTORY_CARDS → (∀ c, c ∈ h → retired c = c) →
  length (foldl retire h l) ≤ MAX_HISTORY_CARDS ∧
  (∀ c, c ∈ foldl retire h l → retired c = c) ∧
  foldl retire h l = take MAX_HISTORY_CARDS (reverse (retired <$> l) ++ h).
Proof.
  intros Hh Hr. induction l as [|c l (IH1 & IH2 & IH3)] using rev_ind.
  { split; [done|split; [done|]]. by rewrite take_ge. }
  rewrite foldl_app. cbn [foldl]. split; [|split].
  - unfold retire. rewrite length_take. lia.
  - intros c' Hc'. unfold retire in Hc'. apply (subseteq_take _ _) in Hc'. rename Hc' into Hj. apply elem_of_cons in Hj as [->|Hj]; [done|by apply IH2].
  - unfold retire at 1. rewrite IH3, fmap_app, reverse_app. cbn [fmap list_fmap reverse].
    change (reverse [retired c]) with [retired c]. rewrite <-app_assoc. cbn [app].
    assert (∀ n x (k : list AgentCard), take n (x :: take n k) = take n (x :: k)) as Ht.
    { intros [|n] x k; [done|]. cbn [take]. f_equal. rewrite take_take. f_equal. lia. }
    apply Ht.
Qed.

Lemma project_wf i : index_wf i → index_wf (project st attention local i).1.
Proof.
  intros [Hk Hh Hret Hn Hrk]. destruct (retrack_spec i Hn) as (Hr & Hseen & Hun).
  destruct (retire_all (vanished st attention local (tracked i)) (history i) Hh Hret)
    as (H1 & H2 & _).
  unfold project. split; cbn [fst tracked history next_rank]; [|exact H1|exact H2|lia|].
  - intros id t Ht. destruct (seen_cards st attention local !! id) as [c|] eqn:E.
    + destruct (Hseen id c E) as (t' & Ht' & Hc & Hs & _). assert (t' = t) as -> by congruence.
      rewrite Hs, Hc. split; [by eapply seen_cards_agent|done].
    + apply Hun in Ht as (t0 & Ht0 & _ & ->); [|done]. exact (Hk id t0 Ht0).
  - apply track_ranks; [done|]. cbn [fst snd]. intros id t (t0 & Ht0 & -> & _)%kept_lookup.
    destruct (dim_fields id t0) as (-> & _). by eapply Hrk.
Qed.
End inbox.

(** ** The published lists *)

Definition live_cards (tr : gmap AgentId Tracked) : list AgentCard :=
  section_cards tr InNeedsYou ++ section_cards tr InWorking ++ section_cards tr InRecent.

Lemma cards_split st attention local i :
  let '(i', p) := project st attention local i in cards p = live_cards (tracked i') ++ history i'.
Proof. unfold project, cards, live_cards. cbn. by rewrite !app_assoc. Qed.

Lemma project_tracked st attention local i :
  tracked (project st attention local i).1 = (retrack st attention local i).1.
Proof. reflexivity. Qed.

Lemma project_history st attention local i :
  history (project st attention local i).1
  = foldl retire (history i) (vanished st attention local (tracked i)).
Proof. reflexivity. Qed.

Lemma section_cards_Permutation tr sec :
  section_cards tr sec ≡ₚ tr_card <$> filter (λ t, tr_section t = sec) (values tr).
Proof. unfold section_cards. by rewrite (merge_sort_Permutation card_before). Qed.

Lemma live_cards_Permutation tr : live_cards tr ≡ₚ tr_card <$> values tr.
Proof.
  unfold live_cards. rewrite !section_cards_Permutation, <-!fmap_app. apply fmap_Permutation.
  induction (values tr) as [|t l IH]; [done|]. rewrite !filter_cons.
  rewrite <-IH. destruct (tr_section t) eqn:E; repeat (case_decide; try congruence); simpl.
  - done.
  - symmetry. apply Permutation_middle.
  - rewrite !app_assoc. symmetry. apply Permutation_middle.
Qed.

Lemma live_cards_agents i :
  index_wf i → NoDup (card_agent <$> live_cards (tracked i)) ∧
  ∀ id, id ∈ card_agent <$> live_cards (tracked i) ↔ is_Some (tracked i !! id).
Proof.
  intros [Hk _ _ _ _].
  assert (card_agent <$> live_cards (tracked i) ≡ₚ keys (tracked i)) as Hp.
  { rewrite live_cards_Permutation, values_entries, <-!list_fmap_compose.
    rewrite <-NoDup_entries_keys. apply reflexive_eq. apply list_fmap_ext.
    intros j [id t] Hj%list_elem_of_lookup_2%elem_of_entries. simpl. by apply Hk. }
  rewrite Hp. split; [apply NoDup_keys|]. intros id. rewrite Hp. apply elem_of_keys.
Qed.

(** The agents of the federation's snapshots, and the cards a projection retires. *)
Definition in_federation (st : FederationState) (id : AgentId) : Prop :=
  ∃ k t s p a, State.targets st !! k = Some t ∧ snapshot t = Some s ∧ agents s !! p = Some a ∧
    id = agent_key a.

Definition ended (st : FederationState) (i : AgentCardIndex) (c : AgentCard) : Prop :=
  ∃ id t, tracked i !! id = Some t ∧ c = tr_card t ∧ target_is_live st id = true ∧
    ¬ in_federation st id.

Lemma elem_of_vanished st attention local i c :
  c ∈ vanished st attention local (tracked i) ↔ ended st i c.
Proof.
  unfold vanished, ended. rewrite list_elem_of_omap. split.
  - intros ([id t] & Hin%elem_of_entries & Hc). cbn [fst snd] in Hc. case_decide as Hs; [done|].
    destruct (target_is_live st id) eqn:Hl; [|done]. injection Hc as <-.
    exists id, t. by rewrite seen_cards_is_Some in Hs.
  - intros (id & t & Ht & -> & Hl & Hno). exists (id, t). split; [by apply elem_of_entries|].
    cbn [fst snd]. rewrite decide_False; [by rewrite Hl|]. by rewrite seen_cards_is_Some.
Qed.

(** Nothing falls out of the inbox for a bad link. After a projection there
    is exactly one live card for every agent of the federation's snapshots and
    for every agent already shown whose target is configured and cannot be
    asked; the latter keep their card, marked stale and not offered. A card
    moves to the bounded history exactly when its target is live and no longer
    lists the agent, and a history card is never a destination. *)
Theorem inbox_keeps_agents st attention local i :
  index_wf i →
  let '(i', p) := project st attention local i in
  index_wf i' ∧
  cards p = live_cards (tracked i') ++ history i' ∧
  NoDup (card_agent <$> live_cards (tracked i')) ∧
  (∀ id, id ∈ card_agent <$> live_cards (tracked i') ↔
    in_federation st id ∨ is_Some (tracked i !! id) ∧ target_is_down st id = true) ∧
  (∀ id t, ¬ in_federation st id → tracked i !! id = Some t → target_is_down st id = true →
    set_flags true false (tr_card t) ∈ live_cards (tracked i')) ∧
  (∃ gone, history i' = take MAX_HISTORY_CARDS (reverse (retired <$> gone) ++ history i) ∧
    ∀ c, c ∈ gone ↔ ended st i c).
Proof.
  intros Hwf. pose proof (project_wf st attention local i Hwf) as Hwf'.
  pose proof (cards_split st attention local i) as Hcards.
  destruct Hwf as [Hk Hh Hret Hn Hrk].
  destruct (retrack_spec st attention local i Hn) as (_ & Hseen & Hun).
  destruct (retire_all (vanished st attention local (tracked i)) (history i) Hh Hret) as (_ & _ & H3).
  pose proof (project_tracked st attention local i) as Htr.
  pose proof (project_history st attention local i) as Hhi.
  destruct (project st attention local i) as [i' p]. cbn [fst] in *. destruct (live_cards_agents i' Hwf') as [Hnd Hin].
  split; [done|split; [done|split; [done|split; [|split]]]].
  - intros id. rewrite Hin, Htr. unfold in_federation. rewrite <-(seen_cards_is_Some st attention local).
    destruct (seen_cards st attention local !! id) as [c|] eqn:Es.
    + destruct (Hseen id c Es) as (t & -> & _). split; [intros _; by left|eauto].
    + split.
      * intros [t (t0 & Ht0 & Hd & _)%Hun]; [|done]. right. eauto.
      * intros [[? ?]|[[t0 Ht0] Hd]]; [done|]. eexists. apply Hun; eauto.
  - intros id t Hno Ht Hd. rewrite live_cards_Permutation.
    unfold in_federation in Hno. rewrite <-(seen_cards_is_Some st attention local) in Hno.
    apply eq_None_not_Some in Hno. eapply list_elem_of_fmap.
    eexists. split; [|apply elem_of_values; exists id; rewrite Htr; apply Hun; eauto]. done.
  - exists (vanished st attention local (tracked i)). split; [rewrite Hhi; exact H3|].
    apply elem_of_vanished.
Qed.

(** C26. What the inbox offers can be acted on: every card of a fresh projection
    that claims to be actionable, history included, resolves in the same
    federation, to the very pane the card shows. *)
Theorem actionable_cards_resolve st attention local i :
  federation_wf st → index_wf i →
  ∀ c, c ∈ cards (project st attention local i).2 → card_actionable c = true →
    ∃ r, resolve_card (card_agent c) st = Ok r ∧ card_pane c = Some (route_pane r).
Proof.
  intros Hst Hwf c Hc Hact. pose proof (project_wf st attention local i Hwf) as [_ _ Hret' _ _].
  pose proof (cards_split st attention local i) as Hcards.
  destruct Hwf as [Hk Hh Hret Hn Hrk].
  destruct (retrack_spec st attention local i Hn) as (_ & Hseen & Hun).
  pose proof (project_tracked st attention local i) as Htr.
  destruct (project st attention local i) as [i' p]. cbn [fst snd] in *.
  rewrite Hcards in Hc. apply elem_of_app in Hc as [Hc|Hc].
  - rewrite live_cards_Permutation in Hc.
    apply list_elem_of_fmap in Hc as (t & -> & [id Ht]%elem_of_values). rewrite Htr in Ht.
    destruct (seen_cards st attention local !! id) as [c|] eqn:Es.
    + destruct (Hseen id c Es) as (t' & Ht' & Htc & _). assert (t' = t) as -> by congruence.
      rewrite Htc in *. rewrite (seen_cards_agent st attention local id c Es).
      by apply (seen_actionable_resolves st attention local).
    + apply Hun in Ht as (t0 & _ & _ & ->); [|done]. done.
  - rewrite <-(Hret' c Hc) in Hact. done.
Qed.

(** ** Order *)

(** The card of [a] comes before the card of [b] in a published list. *)
Definition listed_before (l : list AgentCard) (a b : AgentId) : Prop :=
  ∃ l1 x l2 y l3, l = l1 ++ x :: l2 ++ y :: l3 ∧ card_agent x = a ∧ card_agent y = b.

Lemma sorted_before {A} (R : relation A) l x y :
  StronglySorted R l → x ∈ l → y ∈ l → x ≠ y → ¬ R y x →
  ∃ l1 l2 l3, l = l1 ++ x :: l2 ++ y :: l3.
Proof.
  intros Hs Hx Hy Hne Hno.
  apply list_elem_of_split in Hx as (l1 & l2 & ->).
  apply StronglySorted_app in Hs as (Hcross & _ & _).
  apply elem_of_app in Hy as [Hy|Hy].
  { exfalso. apply Hno, Hcross; [done|by left]. }
  apply elem_of_cons in Hy as [?|Hy]; [congruence|].
  apply list_elem_of_split in Hy as (l3 & l4 & ->). by exists l1, l3, l4.
Qed.

Lemma section_listed_before i sec a b :
  index_wf i →
  listed_before (section_cards (tracked i) sec) a b ↔
  a ≠ b ∧ ∃ ta tb, tracked i !! a = Some ta ∧ tracked i !! b = Some tb ∧
    tr_section ta = sec ∧ tr_section tb = sec ∧ card_before ta tb.
Proof.
  intros Hwf. pose proof Hwf as [Hk _ _ _ _]. unfold section_cards.
  set (l := merge_sort _ _).
  assert (StronglySorted card_before l) as Hs.
  { apply StronglySorted_merge_sort; unfold card_before.
    - intros x y z. apply cmp_le_trans.
    - intros x y. apply cmp_le_total. }
  assert (∀ t, t ∈ l ↔ tracked i !! card_agent (tr_card t) = Some t ∧ tr_section t = sec) as Hin.
  { intros t. unfold l. rewrite (merge_sort_Permutation card_before), list_elem_of_filter, elem_of_values.
    split; [|intros [? ?]; eauto]. intros [? [id Ht]]. destruct (Hk id t Ht) as [-> _]. done. }
  split.
  - intros (l1 & x & l2 & y & l3 & Heq & <- & <-).
    apply fmap_app_inv in Heq as (k1 & k2 & -> & Heq2 & Hl).
    destruct k2 as [|tx k2]; [done|]. injection Heq2 as -> Heq2.
    symmetry in Heq2. apply fmap_app_inv in Heq2 as (k3 & k4 & -> & Heq3 & ->).
    destruct k4 as [|ty k4]; [done|]. injection Heq3 as -> _.
    assert (tx ∈ l) as Htx by (rewrite Hl; apply elem_of_app; right; by left).
    assert (ty ∈ l) as Hty
      by (rewrite Hl, elem_of_app, elem_of_cons, elem_of_app, elem_of_cons; tauto).
    apply Hin in Htx as [Htx ?]. apply Hin in Hty as [Hty ?]. split.
    + intros Heq. assert (NoDup l) as Hnd.
      { unfold l. rewrite (merge_sort_Permutation card_before). apply NoDup_filter.
        apply (NoDup_fmap_1 (λ t, card_agent (tr_card t))).
        rewrite values_entries, <-list_fmap_compose.
        replace (_ <$> entries (tracked i)) with (keys (tracked i)); [apply NoDup_keys|].
        rewrite <-NoDup_entries_keys. apply list_fmap_ext.
        intros j [id t] Hj%list_elem_of_lookup_2%elem_of_entries. simpl. symmetry. by apply Hk. }
      rewrite Heq in Htx. assert (tx = ty) as -> by congruence.
      rewrite Hl in Hnd. apply NoDup_app in Hnd as (_ & _ & Hnd). apply NoDup_cons in Hnd as [Hno _].
      apply Hno, elem_of_app. right. by left.
    + exists tx, ty. do 4 (split; [done|]). rewrite Hl in Hs.
      apply StronglySorted_app in Hs as (_ & _ & Hs). apply StronglySorted_cons in Hs as [Hs _].
      eapply Forall_forall in Hs; [exact Hs|]. apply elem_of_app. right. by left.
  - intros (Hne & ta & tb & Ha & Hb & Hsa & Hsb & Hle).
    destruct (Hk a ta Ha) as [Ea _]. destruct (Hk b tb Hb) as [Eb _].
    assert (ta ∈ l) as Hta by (apply Hin; by rewrite Ea).
    assert (tb ∈ l) as Htb by (apply Hin; by rewrite Eb).
    destruct (sorted_before card_before l ta tb Hs Hta Htb) as (l1 & l2 & l3 & Hl).
    + intros ->. congruence.
    + intros Hge. apply Hne. unfold card_before in *.
      assert (card_order ta = card_order tb) as Ho by (by apply (anti_symm cmp_le)).
      unfold card_order in Ho. injection Ho. intros. congruence.
    + rewrite Hl. exists (tr_card <$> l1), (tr_card ta), (tr_card <$> l2), (tr_card tb), (tr_card <$> l3).
      by rewrite fmap_app, fmap_cons, fmap_app, fmap_cons.
Qed.

(** The section and pin a card has in an index. *)
Definition placed (i : AgentCardIndex) (id : AgentId) (sec : AgentCardSection) (pin : bool) : Prop :=
  ∃ t, tracked i !! id = Some t ∧ tr_section t = sec ∧ pinned (card_marks (tr_card t)) = pin.

Lemma rank_kept st attention local i id t t' sec :
  index_wf i → tracked i !! id = Some t → tr_section t = sec →
  tracked (project st attention local i).1 !! id = Some t' → tr_section t' = sec →
  tr_rank t' = tr_rank t.
Proof.
  intros [_ _ _ Hn _] Ht Hs Ht' Hs'. rewrite project_tracked in Ht'.
  destruct (retrack_spec st attention local i Hn) as (_ & Hseen & Hun).
  destruct (seen_cards st attention local !! id) as [c|] eqn:Es.
  - destruct (Hseen id c Es) as (t1 & Ht1 & Has). assert (t1 = t') as -> by congruence.
    destruct Has as (_ & Hsec & Hr). rewrite Ht in Hr. rewrite decide_True in Hr by congruence. done.
  - apply Hun in Ht' as (t0 & Ht0 & _ & ->); [|done]. simpl. congruence.
Qed.

Lemma rank_fresh st attention local i id t' sec :
  index_wf i → (∀ t, tracked i !! id = Some t → tr_section t ≠ sec) →
  tracked (project st attention local i).1 !! id = Some t' → tr_section t' = sec →
  (next_rank i ≤ tr_rank t')%N.
Proof.
  intros [_ _ _ Hn _] Hold Ht' Hs'. rewrite project_tracked in Ht'.
  destruct (retrack_spec st attention local i Hn) as (_ & Hseen & Hun).
  destruct (seen_cards st attention local !! id) as [c|] eqn:Es.
  - destruct (Hseen id c Es) as (t1 & Ht1 & Has). assert (t1 = t') as -> by congruence.
    destruct Has as (_ & Hsec & Hr). destruct (tracked i !! id) as [t0|] eqn:E; [|done].
    rewrite decide_False in Hr; [done|]. rewrite <-Hsec, Hs'. by eapply Hold.
  - apply Hun in Ht' as (t0 & Ht0 & _ & ->); [|done]. simpl in *. by apply Hold in Ht0.
Qed.

(** The tracked entry behind a placement, after a projection. *)
Lemma placed_in i id sec pin t : placed i id sec pin → tracked i !! id = Some t →
  tr_section t = sec ∧ pinned (card_marks (tr_card t)) = pin.
Proof. intros (t' & Ht' & H1 & H2) Ht. assert (t' = t) as -> by congruence. done. Qed.

(** A card holds its place. Two cards that stay in their section with their
    pins unchanged keep their order through any refresh of the federation; and
    a card that enters the section, pinned alike, is listed after every card
    that was there before. *)
Theorem section_order_stable st attention local i sec a b pa pb :
  index_wf i →
  let i' := (project st attention local i).1 in
  placed i a sec pa → placed i' a sec pa → placed i' b sec pb → a ≠ b →
  (placed i b sec pb →
    listed_before (section_cards (tracked i') sec) a b ↔
    listed_before (section_cards (tracked i) sec) a b) ∧
  (pa = pb → (∀ p, ¬ placed i b sec p) →
    (∀ t, tracked i !! a = Some t → tr_rank t < next_rank i)%N →
    listed_before (section_cards (tracked i') sec) a b).
Proof.
  intros Hwf i' Ha Ha' Hb' Hne. pose proof (project_wf st attention local i Hwf) as Hwf'.
  fold i' in Hwf'. rewrite !section_listed_before by done.
  destruct Ha as (ta & Hta & Sa & Pa), Ha' as (ta' & Hta' & Sa' & Pa'), Hb' as (tb' & Htb' & Sb' & Pb').
  pose proof (rank_kept st attention local i a ta ta' sec Hwf Hta Sa Hta' Sa') as Ra.
  destruct (wf_tracked i' Hwf' a ta' Hta') as [Ia' _], (wf_tracked i' Hwf' b tb' Htb') as [Ib' _].
  destruct (wf_tracked i Hwf a ta Hta) as [Ia _].
  split.
  - intros (tb & Htb & Sb & Pb).
    pose proof (rank_kept st attention local i b tb tb' sec Hwf Htb Sb Htb' Sb') as Rb.
    destruct (wf_tracked i Hwf b tb Htb) as [Ib _].
    assert (card_before ta' tb' ↔ card_before ta tb) as Hiff.
    { unfold card_before, card_order. by rewrite Ra, Rb, Pa, Pa', Pb, Pb', Ia, Ia', Ib, Ib'. }
    split; intros (_ & ua & ub & Hua & Hub & _ & _ & Hle); (split; [done|]).
    + exists ta, tb. assert (ua = ta' ∧ ub = tb') as [-> ->] by (split; congruence).
      do 4 (split; [done|]). by apply Hiff.
    + exists ta', tb'. assert (ua = ta ∧ ub = tb) as [-> ->] by (split; congruence).
      do 4 (split; [done|]). by apply Hiff.
  - intros -> Hnew Hlt. split; [done|]. exists ta', tb'. do 4 (split; [done|]).
    assert (next_rank i ≤ tr_rank tb')%N as Hfresh.
    { apply (rank_fresh st attention local i b tb' sec); [done| |done|done].
      intros t Ht Hs. eapply Hnew. exists t. eauto. }
    specialize (Hlt ta Hta). unfold card_before, card_order, cmp_le.
    rewrite Pa', Pb', Ra. unfold cmp, prod_ord, prod_cmp. cbn [fst snd].
    rewrite cmp_refl. cbn [then_cmp]. unfold cmp at 1, prod_ord, prod_cmp. cbn [fst snd].
    replace (cmp (tr_rank ta) (tr_rank tb')) with Lt; [done|].
    symmetry. apply N.compare_lt_iff. lia.
Qed.

(** ** Projecting twice *)

Lemma retained_settled st attention local i :
  (next_rank i ≤ u64_max)%N →
  let w := retrack st attention local i in
  vanished st attention local w.1 = [] ∧ kept st attention local w.1 = w.1 ∧
  ∀ id c, seen_cards st attention local !! id = Some c →
    ∃ t, w.1 !! id = Some t ∧ tr_card t = c ∧ tr_section t = card_section c.
Proof.
  intros Hn w. destruct (retrack_spec st attention local i Hn) as (_ & Hseen & Hun). fold w in Hseen, Hun.
  assert (∀ id t, w.1 !! id = Some t → seen_cards st attention local !! id = None →
    target_is_down st id = true ∧ dim st attention local id t = t) as Hrest.
  { intros id t Ht Hs. apply Hun in Ht as (t0 & _ & Hd & ->); [|done]. split; [done|].
    unfold dim. rewrite decide_False; [done|]. rewrite Hs. by intros [? ?]. }
  split; [|split].
  - destruct (vanished st attention local w.1) as [|c l] eqn:E; [done|].
    assert (c ∈ vanished st attention local w.1) as Hc by (rewrite E; by left).
    unfold vanished in Hc. apply list_elem_of_omap in Hc as ([id t] & Hin%elem_of_entries & Hc).
    cbn [fst snd] in Hc. case_decide as Hs; [done|]. apply eq_None_not_Some in Hs.
    destruct (Hrest id t Hin Hs) as [Hd _]. unfold target_is_down in Hd. unfold target_is_live in Hc.
    destruct (State.targets st !! target_session id); [|done]. destruct (is_live t0); done.
  - apply map_eq. intros id. apply option_eq. intros t. rewrite kept_lookup. split.
    + intros (t0 & Ht0 & -> & _). destruct (seen_cards st attention local !! id) as [c|] eqn:Es.
      * unfold dim. rewrite decide_True; [done|]. rewrite Es. eauto.
      * by rewrite (proj2 (Hrest id t0 Ht0 Es)).
    + intros Ht. exists t. split; [done|].
      destruct (seen_cards st attention local !! id) as [c|] eqn:Es.
      * split; [|left; eauto]. unfold dim. rewrite decide_True; [done|]. rewrite Es. eauto.
      * destruct (Hrest id t Ht Es) as [Hd He]. split; [by rewrite He|by right].
  - intros id c Hc. destruct (Hseen id c Hc) as (t & Ht & H1 & H2 & _). eauto.
Qed.

Lemma track_settled l w :
  (∀ e, e ∈ l → ∃ t, w.1 !! e.1 = Some t ∧ tr_card t = e.2 ∧ tr_section t = card_section e.2) →
  foldl track w l = w.
Proof.
  induction l as [|e l IH]; intros Hl; [done|]. cbn [foldl].
  destruct (Hl e) as (t & Ht & Hc & Hs); [by left|].
  assert (track w e = w) as ->.
  { unfold track. rewrite Ht, bool_decide_eq_true_2 by done. destruct w as [m n]. cbn [fst snd] in *.
    f_equal. apply insert_id. rewrite Ht. f_equal. destruct t; cbn in *. by subst. }
  apply IH. intros e' He'. apply Hl. by right.
Qed.

(** A refresh that changes nothing publishes nothing: projecting the same
    federation, attention and local marks again leaves the index exactly as it
    was and yields the same projection with the same revision. *)
Theorem project_idempotent st attention local i :
  index_wf i →
  let '(i', p) := project st attention local i in project st attention local i' = (i', p).
Proof.
  intros [_ _ _ Hn _]. destruct (retained_settled st attention local i Hn) as (Hv & Hk & Hs).
  unfold project at 1. set (w := retrack st attention local i) in *.
  set (h := foldl retire (history i) (vanished st attention local (tracked i))).
  set (pub := {| pub_needs_you := _ |}). set (rev := if bool_decide (published i = Some pub) then _ else _).
  unfold project.
  assert (retrack st attention local
    {| tracked := w.1; history := h; next_rank := w.2; index_revision := rev; published := Some pub |}
    = w) as ->.
  { unfold retrack at 1. cbn [tracked next_rank]. fold (kept st attention local w.1). rewrite Hk.
    destruct w as [m n]. apply track_settled. intros [id c] Hin%elem_of_entries. by apply Hs. }
  cbn [tracked history published index_revision]. rewrite Hv. cbn [foldl].
  fold pub. by rewrite bool_decide_eq_true_2.
Qed.

(** ** Concrete inboxes *)

Definition placed_b (i : AgentCardIndex) (id : AgentId) (sec : AgentCardSection) (pin : bool) : bool :=
  match tracked i !! id with
  | Some t => bool_decide (tr_section t = sec) && bool_decide (pinned (card_marks (tr_card t)) = pin)
  | None => false
  end.

Lemma placed_b_spec i id sec pin : placed_b i id sec pin = true → placed i id sec pin.
Proof.
  unfold placed_b, placed. destruct (tracked i !! id) as [t|]; [|done].
  intros [H1%bool_decide_eq_true H2%bool_decide_eq_true]%andb_true_iff. eauto.
Qed.

Lemma default_index_wf : index_wf AgentCardIndex_default.
Proof.
  split; cbn; [done|apply Nat.le_0_l|by intros c ?%elem_of_nil|done|done].
Qed.

Definition ex_local : LocalView :=
  {| local_marks := ∅; local_aliases := Aliases_default; local_now_ms := 0 |}.
Definition ex_pair : FederationState :=
  ex_federation Live [agent_json "p1" "working"; agent_json "p2" "working"].
Definition ex_project (st : FederationState) (i : AgentCardIndex) :=
  project st AttentionIndex_default ex_local i.
Definition ex_inbox : AgentCardIndex := (ex_project ex_pair AgentCardIndex_default).1.
Definition ex_key1 : AgentId := pane_agent_key ex_pane.
Definition ex_key2 : AgentId := pane_agent_key ex_pane2.

Lemma ex_inbox_wf : index_wf ex_inbox.
Proof. exact (project_wf ex_pair AttentionIndex_default ex_local _ default_index_wf). Qed.

Lemma resolve_card_exact_witness :
  federation_wf ex_working ∧
  resolve_card ex_key1 ex_working = Ok {| route_pane := ex_pane; route_generation := 1 |} ∧
  route_of ex_working ex_key1 {| route_pane := ex_pane; route_generation := 1 |} ∧
  resolve_card ex_key1 ex_dropped = Err TargetUnavailable.
Proof.
  assert (resolve_card ex_key1 ex_working = Ok {| route_pane := ex_pane; route_generation := 1 |})
    as H by by vm_compute.
  split; [exact (ex_federation_wf _ _)|split; [exact H|split; [|by vm_compute]]].
  apply (resolve_card_exact ex_key1 ex_working (ex_federation_wf _ _)). exact H.
Defined.

Lemma inbox_keeps_agents_witness :
  index_wf ex_inbox ∧ index_wf (ex_project ex_dropped ex_inbox).1.
Proof.
  split; [exact ex_inbox_wf|].
  pose proof (inbox_keeps_agents ex_dropped AttentionIndex_default ex_local ex_inbox ex_inbox_wf) as H.
  unfold ex_project. destruct (project _ _ _ _) as [i' p]. exact (proj1 H).
Defined.

Lemma actionable_cards_resolve_witness :
  card_actionable <$> head (cards (ex_project ex_pair ex_inbox).2) = Some true ∧
  ∃ c r, c ∈ cards (ex_project ex_pair ex_inbox).2 ∧
    resolve_card (card_agent c) ex_pair = Ok r ∧ card_pane c = Some (route_pane r).
Proof.
  assert (card_actionable <$> head (cards (ex_project ex_pair ex_inbox).2) = Some true) as H
    by (vm_compute; reflexivity).
  split; [exact H|].
  pose proof (actionable_cards_resolve ex_pair AttentionIndex_default ex_local ex_inbox
    (ex_federation_wf _ _) ex_inbox_wf) as Hc.
  change (project ex_pair AttentionIndex_default ex_local ex_inbox) with (ex_project ex_pair ex_inbox) in Hc.
  destruct (cards (ex_project ex_pair ex_inbox).2) as [|c l]; [discriminate H|].
  injection H as H. destruct (Hc c (list_elem_of_here _ _) H) as (r & Hr & Hp).
  exists c, r. split; [left|split; [exact Hr|exact Hp]].
Defined.

Lemma section_order_stable_witness :
  placed ex_inbox ex_key1 InWorking false ∧ ex_key1 ≠ ex_key2 ∧
  (listed_before (section_cards (tracked (ex_project ex_pair ex_inbox).1) InWorking) ex_key1 ex_key2 ↔
   listed_before (section_cards (tracked ex_inbox) InWorking) ex_key1 ex_key2).
Proof.
  assert (placed ex_inbox ex_key1 InWorking false) as H1 by (apply placed_b_spec; by vm_compute).
  assert (placed ex_inbox ex_key2 InWorking false) as H2 by (apply placed_b_spec; by vm_compute).
  assert (ex_key1 ≠ ex_key2) as H3 by (apply (bool_decide_unpack _); by vm_compute).
  split; [exact H1|split; [exact H3|]].
  refine (proj1 (section_order_stable ex_pair AttentionIndex_default ex_local ex_inbox InWorking
           ex_key1 ex_key2 false false ex_inbox_wf H1 _ _ H3) H2);
    apply placed_b_spec; by vm_compute.
Defined.

Lemma project_idempotent_witness :
  index_wf ex_inbox ∧
  let '(i', p) := ex_project ex_pair ex_inbox in ex_project ex_pair i' = (i', p).
Proof.
  split; [exact ex_inbox_wf|].
  exact (project_idempotent ex_pair AttentionIndex_default ex_local ex_inbox ex_inbox_wf).
Defined.

(** Two agents of one session reporting one identity: one card is left, and it
    is not offered. *)
Definition ex_session_json : Concrete.json :=
  Concrete.JObject [field "source" (str "hook"); field "agent" (str "claude");
                    field "kind" (str "id"); field "value" (str "s9")].
Definition ex_twin (pane : string) : Concrete.json :=
  Concrete.JObject [field "pane_id" (str pane); field "agent_status" (str "working");
                    field "agent_session" ex_session_json].
Definition ex_twins : FederationState := ex_federation Live [ex_twin "p1"; ex_twin "p2"].

Example ambiguous_cards_collapse :
  let p := (ex_project ex_twins AgentCardIndex_default).2 in
  length (cards p) = 1 ∧ card_actionable <$> cards p = [false].
Proof. by vm_compute. Qed.
