(* ===== verification/Screen.v ===== *)
(** A rendered terminal screen: [src/src/screen.rs].

    The terminal emulator, the [vt100] crate, is not part of the sources: it is
    the class [Vt100], whose laws [Vt100Laws] state what the crate's types and
    documentation say. *)

From S2P Require Import Prelude.

(** The crate's colours and the accessors of its parser, screen and cells. *)
Inductive VtColor :=
  | VtDefault
  | VtIdx (index : N)
  | VtRgb (red green blue : N).

Class Vt100 := {
  VtParser : Type;
  VtScreen : Type;
  VtCell : Type;
  parser_new : N → N → N → VtParser;                (* rows, columns, scrollback *)
  parser_process : bytes → VtParser → VtParser;
  parser_screen : VtParser → VtScreen;
  screen_size : VtScreen → N * N;                   (* rows, columns *)
  screen_cell : VtScreen → N → N → option VtCell;   (* row, column *)
  hide_cursor : VtScreen → bool;
  cursor_position : VtScreen → N * N;
  is_wide_continuation : VtCell → bool;
  has_contents : VtCell → bool;
  contents : VtCell → ustr;
  fgcolor : VtCell → VtColor;
  bgcolor : VtCell → VtColor;
  cell_bold : VtCell → bool;
  cell_dim : VtCell → bool;
  cell_italic : VtCell → bool;
  cell_underline : VtCell → bool;
  cell_inverse : VtCell → bool;
}.

Class Vt100Laws `{Vt100} := {
  screen_size_u16 : ∀ s, ((screen_size s).1 ≤ u16_max ∧ (screen_size s).2 ≤ u16_max)%N;
  has_contents_nonempty : ∀ c, has_contents c = true → contents c ≠ [];
}.

Inductive Color :=
  | ColorDefault
  | Indexed (index : N)
  | Rgb (red green blue : N).
#[export] Instance Color_eq_dec : EqDecision Color.
Proof. solve_decision. Defined.

Definition specified (c : Color) : option Color :=
  match c with ColorDefault => None | other => Some other end.

(** [From<vt100::Color>]. *)
Definition color_from (c : VtColor) : Color :=
  match c with
  | VtDefault => ColorDefault
  | VtIdx index => Indexed index
  | VtRgb red green blue => Rgb red green blue
  end.

Record Style := {
  foreground : option Color;
  background : option Color;
  bold : bool;
  dim : bool;
  italic : bool;
  underline : bool;
  inverse : bool;
}.
#[export] Instance Style_eq_dec : EqDecision Style.
Proof. solve_decision. Defined.

Definition Style_default : Style := {|
  foreground := None; background := None; bold := false; dim := false; italic := false;
  underline := false; inverse := false;
|}.

Record Run := { text : ustr; style : Style }.
#[export] Instance Run_eq_dec : EqDecision Run.
Proof. solve_decision. Defined.

Definition is_plain (s : Style) : bool := bool_decide (s = Style_default).

Record Cursor := { cur_row : N; cur_column : N }.
#[export] Instance Cursor_eq_dec : EqDecision Cursor.
Proof. solve_decision. Defined.

Record Snapshot := {
  sequence : N;
  width : N;
  height : N;
  rows : list (list Run);
  cursor : option Cursor;
}.
#[export] Instance Snapshot_eq_dec : EqDecision Snapshot.
Proof. solve_decision. Defined.

Record StaleScreen := { held : N; expected : N }.

Record RowUpdate := { upd_row : N; upd_runs : list Run }.
#[export] Instance RowUpdate_eq_dec : EqDecision RowUpdate.
Proof. solve_decision. Defined.

Record Diff := {
  follows : N;
  diff_sequence : N;
  diff_rows : list RowUpdate;
  diff_cursor : option Cursor;
}.
#[export] Instance Diff_eq_dec : EqDecision Diff.
Proof. solve_decision. Defined.

(** The range [0..n] of a [u16]. *)
Definition range (n : N) : list N := N.of_nat <$> seq 0 (N.to_nat n).

(** ** Rendering *)

Section render.
Context `{Vt100}.

(** The style a cell is drawn with: inverse video is resolved by exchanging
    the colours, and kept as a flag when there is nothing to exchange. *)
Definition cell_style (c : VtCell) : Style :=
  let fg := color_from (fgcolor c) in
  let bg := color_from (bgcolor c) in
  let unresolvable := cell_inverse c && bool_decide (fg = ColorDefault)
                      && bool_decide (bg = ColorDefault) in
  let '(fg, bg) := if cell_inverse c then (bg, fg) else (fg, bg) in
  {| foreground := specified fg; background := specified bg;
     bold := cell_bold c; dim := cell_dim c; italic := cell_italic c;
     underline := cell_underline c; inverse := unresolvable |}.

Definition cell_text (c : VtCell) : ustr := if has_contents c then contents c else u " ".

(** Append a cell to the last run, or start a run. *)
Definition push_cell (runs : list Run) (t : ustr) (s : Style) : list Run :=
  match last runs with
  | Some run =>
      if bool_decide (style run = s)
      then removelast runs ++ [{| text := text run ++ t; style := style run |}]
      else runs ++ [{| text := t; style := s |}]
  | None => runs ++ [{| text := t; style := s |}]
  end.

Definition render_cell (screen : VtScreen) (row : N) (runs : list Run) (column : N) : list Run :=
  match screen_cell screen row column with
  | None => runs
  | Some cell =>
      if is_wide_continuation cell then runs
      else push_cell runs (cell_text cell) (cell_style cell)
  end.

(** Drop the trailing runs that are plain and blank; the argument and the
    result are in reverse order. *)
Fixpoint pop_blank (rev_runs : list Run) : list Run :=
  match rev_runs with
  | run :: rest =>
      if is_plain (style run) && bool_decide (trim_end (text run) = []) then pop_blank rest
      else rev_runs
  | [] => []
  end.

Definition trim_last (rev_runs : list Run) : list Run :=
  match rev_runs with
  | run :: rest =>
      if is_plain (style run) then {| text := trim_end (text run); style := style run |} :: rest
      else rev_runs
  | [] => []
  end.

Definition render_row (screen : VtScreen) (row w : N) : list Run :=
  reverse (trim_last (pop_blank (reverse (foldl (render_cell screen row) [] (range w))))).

(** [Snapshot::of]. *)
Definition snapshot_of (screen : VtScreen) (seq : N) : Snapshot :=
  let '(h, w) := screen_size screen in
  {| sequence := seq; width := w; height := h;
     rows := (λ row, render_row screen row w) <$> range h;
     cursor := if hide_cursor screen then None
               else let '(row, column) := cursor_position screen in
                    Some {| cur_row := row; cur_column := column |} |}.
End render.

(** ** Differences *)

(** Replace the rows the updates name, in order, stopping at one that is out
    of range; the rows before it have been replaced by then. *)
Fixpoint apply_rows (l : list (list Run)) (updates : list RowUpdate) : list (list Run) * bool :=
  match updates with
  | [] => (l, true)
  | update :: updates' =>
      match l !! N.to_nat (upd_row update) with
      | None => (l, false)
      | Some _ => apply_rows (<[N.to_nat (upd_row update) := upd_runs update]> l) updates'
      end
  end.

Definition set_rows (s : Snapshot) (l : list (list Run)) : Snapshot := {|
  sequence := sequence s; width := width s; height := height s; rows := l; cursor := cursor s;
|}.

(** [Snapshot::apply]: the screen it leaves, and whether it was refused. *)
Definition apply (diff : Diff) (s : Snapshot) : Snapshot * result StaleScreen unit :=
  let stale := {| held := sequence s; expected := follows diff |} in
  if negb (follows diff =? sequence s)%N then (s, Err stale)
  else let '(l, complete) := apply_rows (rows s) (diff_rows diff) in
       if complete
       then ({| sequence := diff_sequence diff; width := width s; height := height s;
                rows := l; cursor := diff_cursor diff |}, Ok ())
       else (set_rows s l, Err stale).

(** Truncation to [u16], as [as u16] does. *)
Definition as_u16 (n : nat) : N := (N.of_nat n mod (u16_max + 1))%N.

(** The indices at which two lists of rows differ, as far as both go. *)
Fixpoint differing (i : nat) (current earlier : list (list Run)) : list N :=
  match current, earlier with
  | c :: current', e :: earlier' =>
      if bool_decide (c = e) then differing (S i) current' earlier'
      else as_u16 i :: differing (S i) current' earlier'
  | _, _ => []
  end.

(** [Snapshot::changed_rows]. *)
Definition changed_rows (self previous : Snapshot) : list N :=
  if negb (width self =? width previous)%N || negb (height self =? height previous)%N
  then range (height self)
  else differing 0 (rows self) (rows previous).

(** [Diff::between]. Indexing a row out of range panics in the source; the rows
    [changed_rows] names are rows of [current]. *)
Definition between (previous current : Snapshot) : option Diff :=
  if negb (width previous =? width current)%N || negb (height previous =? height current)%N
  then None
  else Some {|
    follows := sequence previous;
    diff_sequence := sequence current;
    diff_rows := (λ row, {| upd_row := row;
                            upd_runs := default [] (rows current !! N.to_nat row) |})
                   <$> changed_rows current previous;
    diff_cursor := cursor current;
  |}.
