(* ===== verification/ScreenFacts.v ===== *)
(** What holds of rendered screens ([Screen]): a diff takes the screen it
    follows to the screen it describes and refuses every other, and rendering a
    row loses nothing but trailing blanks. *)

From S2P Require Import Prelude Screen.

(** ** Differences *)

(** The screen has as many rows as its height, which is a [u16]. *)
Definition snapshot_wf (s : Snapshot) : Prop :=
  length (rows s) = N.to_nat (height s) ∧ (height s ≤ u16_max)%N.

Lemma length_range n : length (range n) = N.to_nat n.
Proof. unfold range. by rewrite length_fmap, length_seq. Qed.

Lemma as_u16_small n : (N.of_nat n ≤ u16_max)%N → N.to_nat (as_u16 n) = n.
Proof. intros Hn. unfold as_u16. rewrite N.mod_small by (unfold u16_max in *; lia). lia. Qed.

Lemma elem_of_differing i c e n :
  n ∈ differing i c e ↔ ∃ j x y, c !! j = Some x ∧ e !! j = Some y ∧ x ≠ y ∧ n = as_u16 (i + j).
Proof.
  revert i e. induction c as [|x c IH]; intros i [|y e]; simpl.
  1-3: (split; [by intros ?%elem_of_nil|by intros ([|j] & x' & y' & ? & ? & _)]).
  assert (n ∈ differing (S i) c e ↔
    ∃ j x' y', c !! j = Some x' ∧ e !! j = Some y' ∧ x' ≠ y' ∧ n = as_u16 (i + S j)) as Hrest.
  { rewrite IH. by setoid_rewrite Nat.add_succ_r. }
  case_bool_decide as Heq; rewrite ?elem_of_cons, Hrest.
  - split; [by intros (j & Hj); exists (S j)|].
    intros ([|j] & x' & y' & Hx & Hy & Hne & ->); [naive_solver|]. by exists j, x', y'.
  - split.
    + intros [->|(j & Hj)]; [|by exists (S j)]. exists 0, x, y. by rewrite Nat.add_0_r.
    + intros ([|j] & x' & y' & Hx & Hy & Hne & ->); [left; by rewrite Nat.add_0_r|].
      right. by exists j, x', y'.
Qed.

Lemma apply_rows_length l updates : length (apply_rows l updates).1 = length l.
Proof.
  revert l. induction updates as [|upd updates IH]; intros l; simpl; [done|].
  destruct (l !! _); [|done]. by rewrite IH, length_insert.
Qed.

(** Updates in range all apply; a row named by one of them holds what the
    target holds there. *)
Lemma apply_rows_towards (current l : list (list Run)) (names : list N) :
  length l = length current → (∀ n, n ∈ names → N.to_nat n < length l) →
  let '(l', complete) :=
    apply_rows l ((λ n, {| upd_row := n; upd_runs := default [] (current !! N.to_nat n) |}) <$> names) in
  complete = true ∧
  ∀ j, l' !! j = if decide (j ∈ N.to_nat <$> names) then current !! j else l !! j.
Proof.
  revert l. induction names as [|n names IH]; intros l Hlen Hin.
  { split; [done|]. intros j. rewrite decide_False; [done|]. by intros ?%elem_of_nil. }
  rewrite !fmap_cons. cbn [apply_rows upd_row upd_runs].
  assert (N.to_nat n < length l) as Hn by (apply Hin; by left).
  destruct (lookup_lt_is_Some_2 l (N.to_nat n) Hn) as [old ->].
  destruct (lookup_lt_is_Some_2 current (N.to_nat n)) as [new Hnew]; [lia|].
  specialize (IH (<[N.to_nat n := default [] (current !! N.to_nat n)]> l)).
  destruct (apply_rows _ _) as [l' complete]. rewrite length_insert in IH.
  destruct IH as [Hc Hl']; [done|by intros m Hm; apply Hin; right|]. split; [done|].
  intros j. rewrite Hl'.
  destruct (decide (j ∈ N.to_nat <$> names)) as [Hj|Hj].
  - by rewrite decide_True by (by right).
  - destruct (decide (j = N.to_nat n)) as [->|Hne].
    + rewrite decide_True by left. rewrite list_lookup_insert_eq by done. by rewrite Hnew.
    + rewrite decide_False by (rewrite elem_of_cons; tauto). by rewrite list_lookup_insert_ne.
Qed.

Lemma between_apply a b d :
  snapshot_wf a → snapshot_wf b → between a b = Some d → apply d a = (b, Ok ()).
Proof.
  intros [La Ha] [Lb Hb]. unfold between.
  destruct (negb _ || negb _) eqn:Hsize; [done|]. intros [= <-].
  apply orb_false_iff in Hsize as [Hw Hh].
  apply negb_false_iff, N.eqb_eq in Hw. apply negb_false_iff, N.eqb_eq in Hh.
  unfold apply. cbn [follows diff_sequence diff_rows diff_cursor]. rewrite N.eqb_refl. cbn [negb].
  unfold changed_rows. rewrite Hw, Hh, !N.eqb_refl. cbn [negb orb].
  pose proof (apply_rows_towards (rows b) (rows a) (differing 0 (rows b) (rows a))) as Happ.
  destruct (apply_rows _ _) as [l complete].
  assert (∀ n, n ∈ differing 0 (rows b) (rows a) →
    ∃ j, N.to_nat n = j ∧ j < length (rows a) ∧ rows b !! j ≠ rows a !! j) as Hdiff.
  { intros n (j & x & y & Hx & Hy & Hne & ->)%elem_of_differing. exists j.
    apply lookup_lt_Some in Hy as Hlt. rewrite as_u16_small by lia. rewrite Hx, Hy. naive_solver. }
  destruct Happ as [-> Hl]; [lia|intros n Hn; destruct (Hdiff n Hn) as (j & <- & ? & _); done|].
  assert (l = rows b) as ->; [|by destruct b; simpl in *; subst].
  apply list_eq. intros j. rewrite Hl. case_decide as Hj; [done|].
  destruct (decide (rows a !! j = rows b !! j)) as [|Hne]; [done|]. exfalso. apply Hj.
  destruct (decide (j < length (rows a))) as [Hlt|Hge].
  - destruct (lookup_lt_is_Some_2 _ _ Hlt) as [y Hy].
    destruct (lookup_lt_is_Some_2 (rows b) j) as [x Hx]; [lia|].
    apply list_elem_of_fmap. exists (as_u16 j). split; [rewrite as_u16_small; [done|lia]|].
    apply elem_of_differing. exists j, x, y. split_and!; [done|done|congruence|done].
  - exfalso. apply Hne. rewrite !lookup_ge_None_2; [done|lia|lia].
Qed.

(** C25. A diff is exact. Between two screens of the same size there always is
    one; it names only rows that differ, and applying it to the earlier screen
    yields the later one, row for row, cursor and sequence included. There is
    none across a resize, and a screen that does not hold the update a diff
    follows refuses it and is left untouched. *)
Theorem diff_exact (a b : Snapshot) :
  snapshot_wf a → snapshot_wf b →
  (between a b = None ↔ width a ≠ width b ∨ height a ≠ height b) ∧
  (∀ d, between a b = Some d →
    apply d a = (b, Ok ()) ∧
    (∀ upd, upd ∈ diff_rows d → rows a !! N.to_nat (upd_row upd) ≠ rows b !! N.to_nat (upd_row upd)) ∧
    ∀ s, sequence s ≠ sequence a →
      apply d s = (s, Err {| held := sequence s; expected := sequence a |})).
Proof.
  intros Ha Hb. split.
  - unfold between. destruct (negb _ || negb _) eqn:Hsize.
    + split; [|done]. intros _. apply orb_true_iff in Hsize as [H|H];
        apply negb_true_iff, N.eqb_neq in H; tauto.
    + split; [done|]. apply orb_false_iff in Hsize as [H1 H2].
      apply negb_false_iff, N.eqb_eq in H1. apply negb_false_iff, N.eqb_eq in H2. tauto.
  - intros d Hd. split; [by apply between_apply|]. unfold between in Hd.
    destruct (negb _ || negb _) eqn:Hsize; [done|]. injection Hd as <-.
    cbn [diff_rows]. split.
    + intros upd (n & -> & Hn)%list_elem_of_fmap. cbn [upd_row]. unfold changed_rows in Hn.
      apply orb_false_iff in Hsize as [H1 H2].
      rewrite (N.eqb_sym (width b)), (N.eqb_sym (height b)), H1, H2 in Hn. cbn [orb] in Hn.
      apply elem_of_differing in Hn as (j & x & y & Hx & Hy & Hne & ->).
      destruct Hb as [Lb Hb]. apply lookup_lt_Some in Hx as Hlt.
      rewrite as_u16_small by lia. simpl. congruence.
    + intros s Hs. unfold apply. cbn [follows].
      assert ((sequence a =? sequence s)%N = false) as -> by (apply N.eqb_neq; congruence). done.
Qed.

Section snapshots.
Context `{Vt100Laws}.

Lemma snapshot_of_wf screen seq : snapshot_wf (snapshot_of screen seq).
Proof.
  unfold snapshot_of, snapshot_wf. pose proof (screen_size_u16 screen) as [Hh _].
  destruct (screen_size screen) as [h w]. simpl in *. by rewrite length_fmap, length_range.
Qed.

Lemma snapshot_of_sequence screen seq : sequence (snapshot_of screen seq) = seq.
Proof. unfold snapshot_of. by destruct (screen_size screen). Qed.
End snapshots.

(** ** Rendering a row *)

(** A row as a reader sees it: one styled character after another, without the
    continuation columns of wide characters and without trailing blanks. *)
Abbreviation styled := (list (N * Style)).

Definition spread (t : ustr) (s : Style) : styled := (λ c, (c, s)) <$> t.

Definition blank (c : N * Style) : bool := is_plain c.2 && is_whitespace c.1.

Fixpoint drop_blank (l : styled) : styled :=
  match l with
  | c :: l' => if blank c then drop_blank l' else l
  | [] => []
  end.
Definition visible (l : styled) : styled := reverse (drop_blank (reverse l)).

Definition flatten (runs : list Run) : styled := r ← runs; spread (text r) (style r).

(** The reference rendering: maximal stretches of one style. *)
Definition regroup (l : styled) : list Run := foldl (λ runs c, push_cell runs [c.1] c.2) [] l.

(** Runs that are maximal stretches: none is empty, and neighbours differ. *)
Fixpoint grouped (runs : list Run) : Prop :=
  match runs with
  | [] => True
  | r :: rest => text r ≠ [] ∧ (∀ r2, head rest = Some r2 → style r ≠ style r2) ∧ grouped rest
  end.

Lemma grouped_snoc runs r :
  grouped (runs ++ [r]) ↔
  grouped runs ∧ text r ≠ [] ∧ ∀ r2, last runs = Some r2 → style r2 ≠ style r.
Proof.
  induction runs as [|r1 runs IH].
  { simpl. naive_solver. }
  cbn [app grouped]. rewrite IH. destruct runs as [|r2 runs]; [simpl; naive_solver|].
  change (last (r1 :: r2 :: runs)) with (last (r2 :: runs)). simpl head. naive_solver.
Qed.

Lemma flatten_app a b : flatten (a ++ b) = flatten a ++ flatten b.
Proof. apply bind_app. Qed.

Lemma spread_app a b s : spread (a ++ b) s = spread a s ++ spread b s.
Proof. apply fmap_app. Qed.

Lemma flatten_one r : flatten [r] = spread (text r) (style r).
Proof. unfold flatten. csimpl. apply app_nil_r. Qed.

Lemma split_last {A} (l : list A) x : last l = Some x → l = removelast l ++ [x].
Proof. intros Hl. apply last_Some in Hl as [l' ->]. by rewrite List.removelast_last. Qed.

Lemma push_cell_flatten runs t s : flatten (push_cell runs t s) = flatten runs ++ spread t s.
Proof.
  unfold push_cell. destruct (last runs) as [r|] eqn:Hl.
  - case_bool_decide as Hs; [|by rewrite flatten_app, flatten_one].
    rewrite (split_last _ _ Hl) at 2. rewrite !flatten_app, !flatten_one. simpl.
    rewrite spread_app, Hs. by rewrite app_assoc.
  - by rewrite flatten_app, flatten_one.
Qed.

Lemma push_cell_grouped runs t s : t ≠ [] → grouped runs → grouped (push_cell runs t s).
Proof.
  intros Ht Hg. unfold push_cell. destruct (last runs) as [r|] eqn:Hl.
  - case_bool_decide as Hs.
    + rewrite (split_last _ _ Hl) in Hg. apply grouped_snoc in Hg as (Hg & Hr & Hn).
      apply grouped_snoc. simpl. split; [done|split; [|done]]. by destruct (text r).
    + apply grouped_snoc. rewrite Hl. split; [done|split; [done|]]. intros r2 [= <-]. done.
  - apply grouped_snoc. rewrite Hl. done.
Qed.

(** Grouping the characters of grouped runs gives the runs back. *)
Lemma push_more runs r x t s :
  style r = s →
  foldl (λ runs c, push_cell runs [c.1] c.2) (runs ++ [{| text := x; style := s |}]) (spread t s)
  = runs ++ [{| text := x ++ t; style := s |}].
Proof.
  intros _. revert x. induction t as [|c t IH]; intros x; simpl.
  { by rewrite app_nil_r. }
  unfold push_cell at 2. rewrite last_snoc. simpl. rewrite bool_decide_eq_true_2 by done.
  rewrite List.removelast_last, IH. by rewrite <-app_assoc.
Qed.

Lemma regroup_flatten runs : grouped runs → regroup (flatten runs) = runs.
Proof.
  induction runs as [|r runs IH] using rev_ind; [done|].
  intros (Hg & Hr & Hn)%grouped_snoc. unfold regroup in *.
  rewrite flatten_app, foldl_app, IH, flatten_one by done.
  destruct r as [[|c t] s]; [done|]. cbn [text style] in *. simpl.
  assert (push_cell runs [c] s = runs ++ [{| text := [c]; style := s |}]) as ->.
  { unfold push_cell. destruct (last runs) as [r2|]; [|done].
    rewrite bool_decide_eq_false_2; [done|]. intros Heq. by apply (Hn r2). }
  rewrite (push_more runs {| text := []; style := s |}) by done. done.
Qed.

Lemma flatten_cons r runs : flatten (r :: runs) = spread (text r) (style r) ++ flatten runs.
Proof. reflexivity. Qed.

(** The reversed characters of runs given in reverse order. *)
Lemma reverse_flatten rev_runs :
  reverse (flatten (reverse rev_runs)) =
  r ← rev_runs; reverse (spread (text r) (style r)).
Proof.
  induction rev_runs as [|r rest IH]; [done|].
  rewrite reverse_cons, flatten_app, reverse_app, flatten_one, IH. done.
Qed.

Lemma drop_blank_cons c t s l :
  drop_blank (spread (c :: t) s ++ l) =
  if is_plain s && is_whitespace c then drop_blank (spread t s ++ l) else spread (c :: t) s ++ l.
Proof. reflexivity. Qed.

Lemma drop_blank_spread t s l :
  drop_blank (reverse (spread t s) ++ l) =
  if is_plain s
  then (if decide (trim_end t = []) then drop_blank l else reverse (spread (trim_end t) s) ++ l)
  else if decide (t = []) then drop_blank l else reverse (spread t s) ++ l.
Proof.
  assert (∃ x, t = reverse x) as [x ->] by (exists (reverse t); by rewrite reverse_involutive).
  unfold trim_end. rewrite reverse_involutive.
  assert (∀ y : ustr, reverse (spread (reverse y) s) = spread y s) as Hrev.
  { intros y. unfold spread. by rewrite <-fmap_reverse, reverse_involutive. }
  rewrite !Hrev.
  assert (∀ y : ustr, reverse y = [] ↔ y = []) as Hnil.
  { intros y. split; [|by intros ->]. intros Hy. by rewrite <-(reverse_involutive y), Hy. }
  destruct (is_plain s) eqn:Hp.
  - induction x as [|c x IH]; [done|]. rewrite drop_blank_cons, Hp. cbn [andb trim_start].
    destruct (is_whitespace c); [exact IH|]. rewrite decide_False by by rewrite Hnil. done.
  - destruct x as [|c x]; [done|]. rewrite drop_blank_cons, Hp. cbn [andb].
    rewrite decide_False by by rewrite Hnil. done.
Qed.

Lemma pop_trim_flatten rev_runs :
  grouped (reverse rev_runs) →
  flatten (reverse (trim_last (pop_blank rev_runs))) = visible (flatten (reverse rev_runs)) ∧
  grouped (reverse (trim_last (pop_blank rev_runs))).
Proof.
  unfold visible. rewrite reverse_flatten.
  induction rev_runs as [|r rest IH]; [done|]. rewrite reverse_cons.
  intros (Hg & Hr & Hn)%grouped_snoc. cbn [mbind list_bind]. fold (rest ≫= λ r, reverse (spread (text r) (style r))).
  change (mbind (λ r, reverse (spread (text r) (style r))) rest)
    with (r ← rest; reverse (spread (text r) (style r))).
  rewrite drop_blank_spread. destruct (IH Hg) as [IHf IHg]. clear IH.
  cbn [pop_blank]. destruct (is_plain (style r)) eqn:Hp; cbn [andb].
  - case_bool_decide as Ht.
    + rewrite decide_True by done. done.
    + rewrite decide_False by done. cbn [trim_last]. rewrite Hp. rewrite reverse_cons. split.
      * rewrite flatten_app, flatten_one, reverse_app, reverse_involutive. cbn [text style].
        f_equal. by rewrite <-reverse_flatten, reverse_involutive.
      * apply grouped_snoc. cbn [text style]. done.
  - rewrite decide_False by done. cbn [trim_last]. rewrite Hp, reverse_cons. split.
    + rewrite flatten_app, flatten_one, reverse_app, reverse_involutive. f_equal.
      by rewrite <-reverse_flatten, reverse_involutive.
    + apply grouped_snoc. done.
Qed.

Section row.
Context `{Vt100Laws}.

(** The cells a row draws, left to right. *)
Definition row_cells (screen : VtScreen) (row w : N) : list VtCell :=
  filter (λ c, is_wide_continuation c = false) (omap (screen_cell screen row) (range w)).

Definition styled_cells (screen : VtScreen) (row w : N) : styled :=
  c ← row_cells screen row w; spread (cell_text c) (cell_style c).

Lemma cell_text_nonempty c : cell_text c ≠ [].
Proof. unfold cell_text. destruct (has_contents c) eqn:E; [by apply has_contents_nonempty|done]. Qed.

Lemma render_cells screen row l :
  let runs := foldl (render_cell screen row) [] l in
  flatten runs = (c ← filter (λ c, is_wide_continuation c = false) (omap (screen_cell screen row) l);
                  spread (cell_text c) (cell_style c)) ∧
  grouped runs.
Proof.
  induction l as [|x l [IHf IHg]] using rev_ind; [done|]. cbn zeta.
  rewrite foldl_app, omap_app. cbn [foldl]. unfold render_cell at 1 3.
  cbn [omap list_omap]. destruct (screen_cell screen row x) as [c|].
  - rewrite filter_app, filter_cons, filter_nil. destruct (is_wide_continuation c) eqn:Hw.
    + rewrite decide_False by done. rewrite app_nil_r. done.
    + rewrite decide_True by done. rewrite push_cell_flatten, IHf, bind_app. split.
      * f_equal. csimpl. by rewrite app_nil_r.
      * apply push_cell_grouped; [apply cell_text_nonempty|done].
  - rewrite app_nil_r. done.
Qed.

(** Rendering a row is exact: its runs spell the visible styled characters of
    the row's cells, each glyph once and in order, and they are the reference
    grouping of those characters into maximal stretches of one style. Only
    trailing plain blanks are lost. Hence two rows render to the same runs
    exactly when a reader sees the same thing. *)
Theorem render_row_exact screen row w :
  flatten (render_row screen row w) = visible (styled_cells screen row w) ∧
  render_row screen row w = regroup (visible (styled_cells screen row w)) ∧
  ∀ screen' row' w',
    render_row screen row w = render_row screen' row' w' ↔
    visible (styled_cells screen row w) = visible (styled_cells screen' row' w').
Proof.
  assert (∀ screen row w,
    flatten (render_row screen row w) = visible (styled_cells screen row w) ∧
    render_row screen row w = regroup (visible (styled_cells screen row w))) as Hall.
  { intros sc r n. destruct (render_cells sc r (range n)) as [Hf Hg].
    rewrite <-(reverse_involutive (foldl _ _ _)) in Hg.
    destruct (pop_trim_flatten _ Hg) as [Hf' Hg']. rewrite reverse_involutive in Hf'.
    unfold render_row. rewrite Hf in Hf'. split; [done|].
    unfold styled_cells, row_cells. rewrite <-Hf'. by rewrite regroup_flatten. }
  destruct (Hall screen row w) as [Hf Hr]. split; [done|split; [done|]].
  intros screen' row' w'. destruct (Hall screen' row' w') as [Hf' Hr']. split.
  - intros Heq. by rewrite <-Hf, <-Hf', Heq.
  - intros Heq. by rewrite Hr, Hr', Heq.
Qed.
End row.

(** ** A concrete terminal

    A teletype that prints the bytes it is given, row after row, without
    interpreting any of them. *)

Module Teletype.

Record tty := { tty_rows : N; tty_cols : N; tty_printed : list N }.

Definition tty_size (t : tty) : N * N := (N.min (tty_rows t) u16_max, N.min (tty_cols t) u16_max).

#[export] Instance teletype : Vt100 := {|
  VtParser := tty;
  VtScreen := tty;
  VtCell := N;
  parser_new h w _ := {| tty_rows := h; tty_cols := w; tty_printed := [] |};
  parser_process bs t := {| tty_rows := tty_rows t; tty_cols := tty_cols t;
                            tty_printed := tty_printed t ++ bs |};
  parser_screen t := t;
  screen_size := tty_size;
  screen_cell t r c := tty_printed t !! N.to_nat (r * tty_cols t + c);
  hide_cursor _ := false;
  cursor_position _ := (0%N, 0%N);
  is_wide_continuation _ := false;
  has_contents _ := true;
  contents c := [c];
  fgcolor _ := VtDefault;
  bgcolor c := if (c =? 42)%N then VtIdx 1 else VtDefault;
  cell_bold _ := false;
  cell_dim _ := false;
  cell_italic _ := false;
  cell_underline _ := false;
  cell_inverse _ := false;
|}.

#[export] Instance teletype_laws : Vt100Laws.
Proof. split; [intros s; unfold screen_size; simpl; lia|done]. Qed.

Definition shown (h w : N) (s : string) : VtScreen := {| tty_rows := h; tty_cols := w; tty_printed := u s |}.

End Teletype.
Import Teletype.

Definition ex_screen1 : Snapshot := snapshot_of (Teletype.shown 2 4 "ab  cd**") 7.
Definition ex_screen2 : Snapshot := snapshot_of (Teletype.shown 2 4 "ab  xd**") 8.

Lemma diff_exact_witness :
  snapshot_wf ex_screen1 ∧ snapshot_wf ex_screen2 ∧
  (diff_rows <$> between ex_screen1 ex_screen2) =
    Some [{| upd_row := 1;
             upd_runs := [{| text := u "xd"; style := Style_default |};
                          {| text := u "**"; style := cell_style (42%N : VtCell) |}] |}] ∧
  ∀ d, between ex_screen1 ex_screen2 = Some d → apply d ex_screen1 = (ex_screen2, Ok ()).
Proof.
  assert (snapshot_wf ex_screen1) as H1 by apply snapshot_of_wf.
  assert (snapshot_wf ex_screen2) as H2 by apply snapshot_of_wf.
  split; [exact H1|split; [exact H2|split; [by vm_compute|]]].
  intros d Hd. exact (proj1 (proj2 (diff_exact ex_screen1 ex_screen2 H1 H2) d Hd)).
Defined.

Lemma render_row_exact_witness :
  render_row (Teletype.shown 2 4 "ab  cd**") 0 4 = [{| text := u "ab"; style := Style_default |}] ∧
  flatten (render_row (Teletype.shown 2 4 "ab  cd**") 0 4)
  = visible (styled_cells (Teletype.shown 2 4 "ab  cd**") 0 4).
Proof.
  split; [by vm_compute|]. exact (proj1 (render_row_exact (Teletype.shown 2 4 "ab  cd**") 0 4)).
Defined.
