(* ===== verification/Operation.v ===== *)
(** Operations a client asks the daemon to perform: [src/src/operation.rs],
    with the plugin identifiers of [src/src/plugin.rs] and the split directions
    of [src/src/resource_action.rs] that they carry. *)

From S2P Require Import Prelude Model.

Inductive SplitDirection := SplitRight | SplitDown.
#[export] Instance SplitDirection_eq_dec : EqDecision SplitDirection.
Proof. solve_decision. Defined.

Definition cli_value (d : SplitDirection) : ustr :=
  match d with SplitRight => u "right" | SplitDown => u "down" end.

Definition from_api_value (value : ustr) : option SplitDirection :=
  if bool_decide (value = u "right") then Some SplitRight
  else if bool_decide (value = u "down") then Some SplitDown
  else None.

(** ** Plugins *)

Inductive PluginActionContext := CGlobal | CWorkspace | CTab | CPane | CSelection | CUnsupported.
#[export] Instance PluginActionContext_eq_dec : EqDecision PluginActionContext.
Proof. solve_decision. Defined.

Record PluginActionId := { pa_target : TargetSession; pa_plugin_id : ustr; pa_action_id : ustr }.
#[export] Instance PluginActionId_eq_dec : EqDecision PluginActionId.
Proof. solve_decision. Defined.

Record PluginAction := {
  act_id : PluginActionId;
  act_title : ustr;
  act_description : option ustr;
  act_contexts : list PluginActionContext;
}.
#[export] Instance PluginAction_eq_dec : EqDecision PluginAction.
Proof. solve_decision. Defined.

Definition supports (a : PluginAction) (context : PluginActionContext) : bool :=
  match act_contexts a with
  | [] => bool_decide (context = CGlobal)
  | contexts => bool_decide (context ∈ contexts)
  end.

Record PluginRunId := { run_target : TargetSession; run_plugin_id : ustr; run_log_id : ustr }.
#[export] Instance PluginRunId_eq_dec : EqDecision PluginRunId.
Proof. solve_decision. Defined.

Inductive PluginRunStatus := RunRunning | RunSucceeded | RunFailed.
#[export] Instance PluginRunStatus_eq_dec : EqDecision PluginRunStatus.
Proof. solve_decision. Defined.

Record PluginRun := {
  run_id : PluginRunId; run_action_id : option ustr; run_status : PluginRunStatus;
}.
#[export] Instance PluginRun_eq_dec : EqDecision PluginRun.
Proof. solve_decision. Defined.

Inductive PluginInvocationTarget :=
  | InvokeSession (target : TargetSession)
  | InvokeWorkspace (workspace : WorkspaceId)
  | InvokeTab (tab : TabId)
  | InvokePane (pane : PaneId).
#[export] Instance PluginInvocationTarget_eq_dec : EqDecision PluginInvocationTarget.
Proof. solve_decision. Defined.

Definition invocation_session (t : PluginInvocationTarget) : TargetSession :=
  match t with
  | InvokeSession target => target
  | InvokeWorkspace workspace => target_session workspace
  | InvokeTab tab => target_session tab
  | InvokePane pane => target_session pane
  end.

(** ** Operations *)

Inductive Operation :=
  | CreateWorkspace (target : TargetSession) (label : ustr)
  | RenameWorkspace (workspace : WorkspaceId) (label : ustr)
  | CloseWorkspace (workspace : WorkspaceId)
  | MoveWorkspace (workspace destination : WorkspaceId)
  | RecreateWorkspace (workspace : WorkspaceId) (destination : TargetSession) (label : option ustr)
  | CreateTab (workspace : WorkspaceId)
  | RenameTab (tab : TabId) (label : ustr)
  | CloseTab (tab : TabId)
  | SplitPane (pane : PaneId) (direction : SplitDirection)
  | TogglePaneZoom (pane : PaneId)
  | ClosePane (pane : PaneId)
  | InvokePluginAction (action : PluginActionId) (context : PluginInvocationTarget) (title : ustr).
#[export] Instance Operation_eq_dec : EqDecision Operation.
Proof. solve_decision. Defined.

Definition operation_session (op : Operation) : TargetSession :=
  match op with
  | CreateWorkspace target _ => target
  | RenameWorkspace workspace _ | CloseWorkspace workspace | MoveWorkspace workspace _
  | RecreateWorkspace workspace _ _ | CreateTab workspace => target_session workspace
  | RenameTab tab _ | CloseTab tab => target_session tab
  | SplitPane pane _ | TogglePaneZoom pane | ClosePane pane => target_session pane
  | InvokePluginAction action _ _ => pa_target action
  end.

Definition destination_session (op : Operation) : TargetSession :=
  match op with
  | RecreateWorkspace _ destination _ => destination
  | other => operation_session other
  end.

Definition is_destructive (op : Operation) : bool :=
  match op with
  | CloseWorkspace _ | CloseTab _ | ClosePane _ => true
  | _ => false
  end.

Definition herdr_args (op : Operation) : option (list ustr) :=
  match op with
  | CreateWorkspace _ label =>
      Some [u "workspace"; u "create"; u "--label"; label; u "--focus"]
  | RenameWorkspace workspace label =>
      Some [u "workspace"; u "rename"; server_local_id workspace; label]
  | CloseWorkspace workspace => Some [u "workspace"; u "close"; server_local_id workspace]
  | MoveWorkspace _ _ | RecreateWorkspace _ _ _ => None
  | InvokePluginAction _ _ _ => None
  | CreateTab workspace =>
      Some [u "tab"; u "create"; u "--workspace"; server_local_id workspace; u "--focus"]
  | RenameTab tab label => Some [u "tab"; u "rename"; server_local_id tab; label]
  | CloseTab tab => Some [u "tab"; u "close"; server_local_id tab]
  | SplitPane pane direction =>
      Some [u "pane"; u "split"; server_local_id pane; u "--direction"; cli_value direction;
            u "--focus"]
  | TogglePaneZoom pane => Some [u "pane"; u "zoom"; server_local_id pane; u "--toggle"]
  | ClosePane pane => Some [u "pane"; u "close"; server_local_id pane]
  end.

(** ** What an invocation says *)

Lemma cli_value_roundtrip d : from_api_value (cli_value d) = Some d.
Proof. by destruct d. Qed.

Lemma cli_value_inj a b : cli_value a = cli_value b → a = b.
Proof. intros H. apply (f_equal from_api_value) in H. rewrite !cli_value_roundtrip in H. congruence. Qed.

Lemma local_id_inj {k} (a b : QualifiedId k) :
  target_session a = target_session b → server_local_id a = server_local_id b → a = b.
Proof. apply QualifiedId_eq. Qed.

(** Stripping an operation down to the command the server runs loses nothing
    but the session it is routed to: two operations routed to the same session
    with the same command line are the same operation, so no two intents are
    ever confused after the identifiers were made local. Every destructive
    operation is such a single command, and only a recreation writes to another
    session than it reads. *)
Theorem herdr_args_determine (a b : Operation) :
  (∀ l, herdr_args a = Some l → herdr_args b = Some l →
    operation_session a = operation_session b → a = b) ∧
  (is_destructive a = true → is_Some (herdr_args a)) ∧
  (destination_session a ≠ operation_session a → herdr_args a = None).
Proof.
  split; [|split].
  - intros l Ha Hb Hs. destruct a, b; try discriminate Ha; try discriminate Hb;
      injection Ha as <-; try discriminate Hb; cbn [herdr_args operation_session] in *;
      inversion Hb; subst; f_equal; eauto using local_id_inj, cli_value_inj.
  - destruct a; simpl; eauto; done.
  - by destruct a.
Qed.
