(* ===== verification/Protocol.v ===== *)
(** The wire vocabulary of the daemon: [src/src/protocol.rs], with the terminal
    and listing types its messages carry ([src/src/terminal.rs],
    [src/src/remote_files.rs]). *)

From S2P Require Import Prelude Model Config State Attention AgentMarks Aliases AgentCards.
From S2P Require Import Screen Operation.

Definition PROTOCOL_VERSION : N := 3.
Definition MAX_MESSAGE_BYTES : nat := N.to_nat (4 * 1024 * 1024).

Inductive TerminalAccess := Observe | Control.
#[export] Instance TerminalAccess_eq_dec : EqDecision TerminalAccess.
Proof. solve_decision. Defined.

Inductive TerminalScrollDirection := ScrollUp | ScrollDown.
#[export] Instance TerminalScrollDirection_eq_dec : EqDecision TerminalScrollDirection.
Proof. solve_decision. Defined.

Inductive PaneRepresentation := Frames | AsScreen.
#[export] Instance PaneRepresentation_eq_dec : EqDecision PaneRepresentation.
Proof. solve_decision. Defined.

(** [#[default]]. *)
Definition PaneRepresentation_default : PaneRepresentation := Frames.

Inductive RemoteEntryKind := EntryDirectory | EntryFile | EntryOther.
Record RemoteEntry := { entry_kind : RemoteEntryKind; entry_name : ustr }.
Record RemoteListing := {
  listing_root : ustr; listing_path : ustr; listing_entries : list RemoteEntry;
  listing_truncated : bool;
}.

Inductive ClientMessage :=
  | ClientHello (protocol : N) (client : ustr)
  | SubscribeState
  | SubscribePane (pane : PaneId) (access : TerminalAccess) (cols rows : N)
      (representation : PaneRepresentation)
  | AckPaneScreen (pane : PaneId) (sequence : N)
  | UnsubscribePane (pane : PaneId)
  | TakePaneControl (pane : PaneId) (only_if_free : bool)
  | PaneInput (pane : PaneId) (payload : bytes)
  | PaneResize (pane : PaneId) (cols rows : N)
  | PaneScroll (pane : PaneId) (direction : TerminalScrollDirection)
      (lines column row modifiers : N)
  | RunOperation (request : N) (operation : Operation)
  | ListPluginActions (request : N) (target : TargetSession)
  | GetPluginRun (request : N) (run : PluginRunId)
  | PastePaneText (request : N) (pane : PaneId) (text : ustr)
  | BeginUpload (request : N) (pane : PaneId) (mime : ustr) (name : option ustr) (length : N)
  | ResumeUpload (request : N) (transfer : ustr) (pane : PaneId) (length : N)
  | UploadChunk (request : N) (payload : bytes)
  | FinishUpload (request : N) (digest : ustr)
  | CancelUpload (request : N)
  | BeginDownload (request : N) (pane : PaneId) (path : ustr)
  | PullDownload (request : N) (chunks : N)
  | CancelDownload (request : N)
  | TransferBetween (request : N) (source : PaneId) (path : ustr) (destination : PaneId)
      (name : option ustr)
  | MarkAttentionSeen (pane : PaneId)
  | MarkAllAttentionSeen
  | RequestPairingCode (request : N)
  | DecidePairing (attempt : ustr) (approve : bool)
  | ClearSeenAttention
  | SubscribeAgentCards
  | MarkAgent (request : N) (agent : AgentId) (mark : AgentMarkRequest)
  | SubscribeNotifications
  | UnsubscribeNotifications
  | ListRemoteDirectory (request : N) (target : TargetSession) (root path : ustr)
  | NameResource (request : N) (resource : ResourceRef) (label : option ustr) (observed : ustr)
  | ConfirmResourceName (request : N) (resource : ResourceRef) (observed : ustr)
  | FavouriteResource (request : N) (resource : ResourceRef)
  | SetJumpSlot (request : N) (slot : N) (resource : option ResourceRef)
  | SearchRemoteFiles (request : N) (target : TargetSession) (root query : ustr) (glob : bool).

Inductive ServerMessage :=
  | ServerHello (protocol : N) (server_version : ustr) (features : list ustr)
      (quick_replies : list QuickReply)
  | FederationFull (state : FederationState)
  | TargetState (target : TargetSession) (state : option TargetRuntimeState)
  | PaneFrame (pane : PaneId) (sequence width height : N) (full : bool) (payload : bytes)
  | PaneScreen (pane : PaneId) (screen : Snapshot)
  | PaneScreenDiff (pane : PaneId) (diff : Diff)
  | PaneClosed (pane : PaneId)
  | PaneLease (pane : PaneId) (access : TerminalAccess)
  | OperationResult (request : N) (applied : bool) (message : ustr) (plugin_run : option PluginRun)
  | PluginActions (request : N) (target : TargetSession) (generation : N)
      (actions : list PluginAction)
  | PluginRunState (request : N) (run : PluginRun)
  | AgentCardsMessage (projection : AgentCardProjection)
  | RemoteFiles (request : N) (target : TargetSession) (listing : RemoteListing)
  | Notification (agent : AgentId) (title body : ustr)
  | PairingCode (request : N) (code : ustr) (expires_in_seconds : N) (url : option ustr)
  | PairingApprovalRequired (attempt name confirmation : ustr) (expires_in_seconds : N)
  | PairingDecision (attempt : ustr) (approved : bool) (message : ustr)
  | UploadAccepted (request : N) (transfer : ustr) (staged : N)
  | UploadInterrupted (request : N) (transfer : ustr) (staged : N)
  | DownloadOffer (request : N) (name : ustr) (length : N) (digest : ustr)
  | DownloadChunk (request : N) (payload : bytes)
  | DownloadFinished (request : N)
  | UploadComplete (request : N) (path : ustr) (size : N)
  | AttentionMessage (event : AttentionEvent)
  | AttentionHistory (events : list AttentionEvent)
  | ErrorMessage (request : option N) (message : ustr).

(** ** Framing

    [serde_json] is a parameter: [to_vec] writes a message, [from_slice] reads
    one back. *)

Inductive WireError := MessageTooLarge (length : nat) | BadJson.

Class Serde (M : Type) := {
  to_vec : M → option bytes;
  from_slice : bytes → option M;
}.

Definition newline : N := 10.

Section framing.
Context {M : Type} `{Serde M}.

Definition encode (message : M) : result WireError bytes :=
  line ← ok_or (to_vec message) BadJson;
  if MAX_MESSAGE_BYTES <=? length line then Err (MessageTooLarge (length line))
  else Ok (line ++ [newline]).

Definition decode (line : bytes) : result WireError M :=
  if MAX_MESSAGE_BYTES <=? length line then Err (MessageTooLarge (length line))
  else ok_or (from_slice line) BadJson.
End framing.
