(* ===== verification/Broker.v ===== *)
(** The daemon's connection state machine: [src/src/daemon/broker.rs].

    Messages and observations go in, effects come out. Every method of the
    source's [Broker] is a function from a broker to a broker and the effects it
    yields, in order. *)

From S2P Require Import Prelude Model Config State Attention AgentMarks Aliases AgentCards.
From S2P Require Import Screen Operation Protocol.

(** [ClientId]. *)
Abbreviation ClientId := N (only parsing).

Inductive LocalChange :=
  | ChangeName (resource : ResourceRef) (label : option ustr) (observed : ustr)
  | ChangeConfirm (resource : ResourceRef) (observed : ustr)
  | ChangeFavourite (resource : ResourceRef)
  | ChangeSlot (slot : N) (resource : option ResourceRef).

Inductive Effect :=
  | Send (client : ClientId) (message : ServerMessage)
  | Disconnect (client : ClientId) (reason : ustr)
  | OpenRoute (pane : PaneId) (access : TerminalAccess) (cols rows : N)
  | CloseRoute (pane : PaneId)
  | RouteUnclaimed (pane : PaneId)
  | RouteInput (pane : PaneId) (payload : bytes)
  | RouteResize (pane : PaneId) (cols rows : N)
  | RouteScroll (pane : PaneId) (direction : TerminalScrollDirection)
      (lines column row modifiers : N)
  | DoRunOperation (client : ClientId) (request : N) (operation : Operation)
  | DoListPluginActions (client : ClientId) (request : N) (target : TargetSession)
  | DoGetPluginRun (client : ClientId) (request : N) (run : PluginRunId)
  | DoPastePaneText (client : ClientId) (request : N) (pane : PaneId) (text : ustr)
  | DoBeginUpload (client : ClientId) (request : N) (pane : PaneId) (mime : ustr)
      (name : option ustr) (length : N)
  | DoResumeUpload (client : ClientId) (request : N) (transfer : ustr) (pane : PaneId) (length : N)
  | DoUploadChunk (client : ClientId) (request : N) (payload : bytes)
  | DoFinishUpload (client : ClientId) (request : N) (digest : ustr)
  | DoCancelUpload (client : ClientId) (request : N)
  | DoBeginDownload (client : ClientId) (request : N) (pane : PaneId) (path : ustr)
  | DoPullDownload (client : ClientId) (request : N) (chunks : N)
  | DoCancelDownload (client : ClientId) (request : N)
  | DoTransferBetween (client : ClientId) (request : N) (source : PaneId) (path : ustr)
      (destination : PaneId) (name : option ustr)
  | DoMarkAgent (client : ClientId) (request : N) (agent : AgentId) (mark : AgentMarkRequest)
  | LocalNaming (client : ClientId) (request : N) (change : LocalChange)
  | DoListRemoteDirectory (client : ClientId) (request : N) (target : TargetSession)
      (root path : ustr)
  | DoSearchRemoteFiles (client : ClientId) (request : N) (target : TargetSession)
      (root query : ustr) (glob : bool)
  | DoMarkAttentionSeen (pane : PaneId)
  | DoMarkAllAttentionSeen
  | DoClearSeenAttention
  | IssuePairingCode (client : ClientId) (request : N)
  | DoDecidePairing (attempt : ustr) (approve : bool)
  | SendAttentionHistory (client : ClientId).

Record PaneSubscription := {
  sub_requested : TerminalAccess;
  sub_cols : N;
  sub_rows : N;
  sub_representation : PaneRepresentation;
  sub_sent : option N;
  sub_outstanding : list N;
}.

Record Route := {
  rt_access : TerminalAccess;
  rt_cols : N;
  rt_rows : N;
  rt_control : option ClientId;
  rt_subscribers : gset ClientId;
  rt_unclaimed : bool;
}.

Record Client := {
  cl_greeted : bool;
  cl_state : bool;
  cl_cards : bool;
  cl_notifications : bool;
  cl_panes : gmap PaneId PaneSubscription;
}.

Definition Client_new : Client := {|
  cl_greeted := false; cl_state := false; cl_cards := false; cl_notifications := false;
  cl_panes := ∅;
|}.

Definition MAX_OUTSTANDING_SCREEN_UPDATES : nat := 4.

Section broker.
Context `{Vt100}.

Record ScreenState := { sc_parser : VtParser; sc_last : Snapshot }.

Record Rendered := { rd_screen : Snapshot; rd_diff : option Diff; rd_changed : bool }.

Record Broker := {
  server_version : ustr;
  features : list ustr;
  quick_replies : list QuickReply;
  clients : gmap ClientId Client;
  routes : gmap PaneId Route;
  screens : gmap PaneId ScreenState;
  state : FederationState;
  agent_cards : option AgentCardProjection;
  next_client : N;
}.

(** ** Field updates *)

Definition set_clients (b : Broker) (m : gmap ClientId Client) : Broker := {|
  server_version := server_version b; features := features b; quick_replies := quick_replies b;
  clients := m; routes := routes b; screens := screens b; state := state b;
  agent_cards := agent_cards b; next_client := next_client b;
|}.
Definition set_routes (b : Broker) (m : gmap PaneId Route) : Broker := {|
  server_version := server_version b; features := features b; quick_replies := quick_replies b;
  clients := clients b; routes := m; screens := screens b; state := state b;
  agent_cards := agent_cards b; next_client := next_client b;
|}.
Definition set_screens (b : Broker) (m : gmap PaneId ScreenState) : Broker := {|
  server_version := server_version b; features := features b; quick_replies := quick_replies b;
  clients := clients b; routes := routes b; screens := m; state := state b;
  agent_cards := agent_cards b; next_client := next_client b;
|}.
Definition set_state (b : Broker) (st : FederationState) : Broker := {|
  server_version := server_version b; features := features b; quick_replies := quick_replies b;
  clients := clients b; routes := routes b; screens := screens b; state := st;
  agent_cards := agent_cards b; next_client := next_client b;
|}.
Definition set_agent_cards (b : Broker) (p : AgentCardProjection) : Broker := {|
  server_version := server_version b; features := features b; quick_replies := quick_replies b;
  clients := clients b; routes := routes b; screens := screens b; state := state b;
  agent_cards := Some p; next_client := next_client b;
|}.

Definition alter_client (f : Client → Client) (c : ClientId) (b : Broker) : Broker :=
  set_clients b (alter f c (clients b)).
Definition alter_route (f : Route → Route) (pane : PaneId) (b : Broker) : Broker :=
  set_routes b (alter f pane (routes b)).

Definition set_cl_panes (m : gmap PaneId PaneSubscription) (s : Client) : Client := {|
  cl_greeted := cl_greeted s; cl_state := cl_state s; cl_cards := cl_cards s;
  cl_notifications := cl_notifications s; cl_panes := m;
|}.
Definition alter_sub (f : PaneSubscription → PaneSubscription) (pane : PaneId) (s : Client)
    : Client :=
  set_cl_panes (alter f pane (cl_panes s)) s.

Definition subscription (b : Broker) (c : ClientId) (pane : PaneId) : option PaneSubscription :=
  s ← clients b !! c; cl_panes s !! pane.

Definition set_control (control : option ClientId) (r : Route) : Route := {|
  rt_access := rt_access r; rt_cols := rt_cols r; rt_rows := rt_rows r; rt_control := control;
  rt_subscribers := rt_subscribers r; rt_unclaimed := rt_unclaimed r;
|}.
Definition set_access (access : TerminalAccess) (r : Route) : Route := {|
  rt_access := access; rt_cols := rt_cols r; rt_rows := rt_rows r; rt_control := rt_control r;
  rt_subscribers := rt_subscribers r; rt_unclaimed := rt_unclaimed r;
|}.
Definition set_size (cols rows : N) (r : Route) : Route := {|
  rt_access := rt_access r; rt_cols := cols; rt_rows := rows; rt_control := rt_control r;
  rt_subscribers := rt_subscribers r; rt_unclaimed := rt_unclaimed r;
|}.
Definition set_subscribers (s : gset ClientId) (unclaimed : bool) (r : Route) : Route := {|
  rt_access := rt_access r; rt_cols := rt_cols r; rt_rows := rt_rows r; rt_control := rt_control r;
  rt_subscribers := s; rt_unclaimed := unclaimed;
|}.

(** A subscriber was sent the update numbered [seq]. *)
Definition sent_update (seq : N) (sub : PaneSubscription) : PaneSubscription := {|
  sub_requested := sub_requested sub; sub_cols := sub_cols sub; sub_rows := sub_rows sub;
  sub_representation := sub_representation sub;
  sub_sent := Some seq; sub_outstanding := sub_outstanding sub ++ [seq];
|}.
Definition set_sub_size (cols rows : N) (sub : PaneSubscription) : PaneSubscription := {|
  sub_requested := sub_requested sub; sub_cols := cols; sub_rows := rows;
  sub_representation := sub_representation sub;
  sub_sent := sub_sent sub; sub_outstanding := sub_outstanding sub;
|}.
Definition set_outstanding (l : list N) (sub : PaneSubscription) : PaneSubscription := {|
  sub_requested := sub_requested sub; sub_cols := sub_cols sub; sub_rows := sub_rows sub;
  sub_representation := sub_representation sub;
  sub_sent := sub_sent sub; sub_outstanding := l;
|}.

(** ** Screens *)

Definition ScreenState_new (w h : N) : ScreenState :=
  let parser := parser_new h w 0 in
  {| sc_parser := parser; sc_last := snapshot_of (parser_screen parser) 0 |}.

Definition same_screen (a b : Snapshot) : bool :=
  (width a =? width b)%N && (height a =? height b)%N && bool_decide (rows a = rows b)
  && bool_decide (cursor a = cursor b).

Definition advance (w h : N) (full : bool) (payload : bytes) (s : ScreenState)
    : ScreenState * Rendered :=
  let '(r, c) := screen_size (parser_screen (sc_parser s)) in
  let parser :=
    if full || negb (r =? h)%N || negb (c =? w)%N then parser_new h w 0 else sc_parser s in
  let parser := parser_process payload parser in
  let candidate := snapshot_of (parser_screen parser)
                     (u64_wrapping_add (sequence (sc_last s)) 1) in
  if same_screen candidate (sc_last s)
  then ({| sc_parser := parser; sc_last := sc_last s |},
        {| rd_screen := sc_last s; rd_diff := None; rd_changed := false |})
  else ({| sc_parser := parser; sc_last := candidate |},
        {| rd_screen := candidate; rd_diff := between (sc_last s) candidate; rd_changed := true |}).

Definition representation_of (b : Broker) (c : ClientId) (pane : PaneId) : PaneRepresentation :=
  match subscription b c pane with
  | Some sub => sub_representation sub
  | None => PaneRepresentation_default
  end.

Definition update_for (sub : PaneSubscription) (pane : PaneId) (r : Rendered) : ServerMessage :=
  match rd_diff r, sub_sent sub with
  | Some diff, Some sent =>
      if (sent =? follows diff)%N then PaneScreenDiff pane diff else PaneScreen pane (rd_screen r)
  | _, _ => PaneScreen pane (rd_screen r)
  end.

(** One subscriber's turn in the loop of [render_for]. *)
Definition render_one (pane : PaneId) (r : Rendered) (w : Broker * list Effect) (c : ClientId)
    : Broker * list Effect :=
  let '(b, effects) := w in
  match subscription b c pane with
  | None => w
  | Some sub =>
      if negb (rd_changed r) && bool_decide (sub_sent sub = Some (sequence (rd_screen r))) then w
      else if MAX_OUTSTANDING_SCREEN_UPDATES <=? length (sub_outstanding sub) then w
      else (alter_client (alter_sub (sent_update (sequence (rd_screen r))) pane) c b,
            effects ++ [Send c (update_for sub pane r)])
  end.

Definition render_for (pane : PaneId) (w h : N) (full : bool) (payload : bytes)
    (subscribers : list ClientId) (b : Broker) : Broker * list Effect :=
  let s := default (ScreenState_new w h) (screens b !! pane) in
  let '(s', rendered) := advance w h full payload s in
  foldl (render_one pane rendered) (set_screens b (<[pane := s']> (screens b)), []) subscribers.

Definition watches_screen (b : Broker) (pane : PaneId) (c : ClientId) : bool :=
  bool_decide (representation_of b c pane = AsScreen).

Definition pane_frame (pane : PaneId) (seq w h : N) (full : bool) (payload : bytes) (b : Broker)
    : Broker * list Effect :=
  match routes b !! pane with
  | None => (b, [])
  | Some route =>
      let subscribers := set_iter (rt_subscribers route) in
      let screen_subscribers := filter (λ c, watches_screen b pane c = true) subscribers in
      let frame_subscribers := filter (λ c, watches_screen b pane c = false) subscribers in
      let effects := (λ c, Send c (PaneFrame pane seq w h full payload)) <$> frame_subscribers in
      match screen_subscribers with
      | [] => (set_screens b (delete pane (screens b)), effects)
      | _ =>
          let '(b', rendered) := render_for pane w h full payload screen_subscribers b in
          (b', effects ++ rendered)
      end
  end.

Definition release_screen_if_unwatched (pane : PaneId) (b : Broker) : Broker :=
  let watched :=
    match routes b !! pane with
    | Some route => existsb (watches_screen b pane) (set_iter (rt_subscribers route))
    | None => false
    end in
  if watched then b else set_screens b (delete pane (screens b)).

(** [while front <= sequence: pop_front]. *)
Fixpoint settle (seq : N) (l : list N) : list N :=
  match l with
  | x :: l' => if (x <=? seq)%N then settle seq l' else l
  | [] => []
  end.

Definition ack_pane_screen (c : ClientId) (pane : PaneId) (seq : N) (b : Broker)
    : Broker * list Effect :=
  match subscription b c pane with
  | None => (b, [])
  | Some sub =>
      if negb (bool_decide (seq ∈ sub_outstanding sub)) then (b, [])
      else
        let sub' := set_outstanding (settle seq (sub_outstanding sub)) sub in
        let b' := alter_client (alter_sub (λ _, sub') pane) c b in
        match screens b !! pane with
        | None => (b', [])
        | Some s =>
            let last := sc_last s in
            if bool_decide (sub_sent sub' = Some (sequence last))
               || (MAX_OUTSTANDING_SCREEN_UPDATES <=? length (sub_outstanding sub'))
            then (b', [])
            else
              let rendered := {| rd_screen := last; rd_diff := None; rd_changed := true |} in
              (alter_client (alter_sub (sent_update (sequence last)) pane) c b',
               [Send c (update_for sub' pane rendered)])
        end
  end.

(** ** Routes *)

Definition close_if_unclaimed (pane : PaneId) (b : Broker) : Broker * list Effect :=
  match routes b !! pane with
  | Some route =>
      if rt_unclaimed route
      then (set_screens (set_routes b (delete pane (routes b))) (delete pane (screens b)),
            [CloseRoute pane])
      else (b, [])
  | None => (b, [])
  end.

Definition forget_pane (pane : PaneId) (s : Client) : Client :=
  set_cl_panes (delete pane (cl_panes s)) s.

Definition pane_route_closed (pane : PaneId) (b : Broker) : Broker * list Effect :=
  match routes b !! pane with
  | None => (b, [])
  | Some route =>
      let b := set_screens (set_routes b (delete pane (routes b))) (delete pane (screens b)) in
      let subscribers := set_iter (rt_subscribers route) in
      (foldl (λ b c, alter_client (forget_pane pane) c b) b subscribers,
       (λ c, Send c (PaneClosed pane)) <$> subscribers)
  end.

Definition route_downgraded (pane : PaneId) (b : Broker) : Broker * list Effect :=
  match routes b !! pane with
  | None => (b, [])
  | Some route =>
      if bool_decide (rt_access route = Observe) && bool_decide (rt_control route = None)
      then (b, [])
      else (alter_route (λ r, set_control None (set_access Observe r)) pane b,
            (λ c, Send c (PaneLease pane Observe)) <$> set_iter (rt_subscribers route))
  end.

(** A route of a different size is resized for whoever controls it. *)
Definition resize_for_control (pane : PaneId) (cols rows : N) (route : Route)
    : Route * list Effect :=
  if (rt_cols route =? cols)%N && (rt_rows route =? rows)%N then (route, [])
  else (set_size cols rows route, [RouteResize pane cols rows]).

Definition put_route (pane : PaneId) (route : Route) (b : Broker) : Broker :=
  set_routes b (<[pane := route]> (routes b)).

(** The route half of [subscribe_pane]: the broker, the effects, the access
    granted. *)
Definition grant (c : ClientId) (pane : PaneId) (access : TerminalAccess) (cols rows : N)
    (b : Broker) : Broker * list Effect * TerminalAccess :=
  match routes b !! pane with
  | Some route =>
      let route := set_subscribers ({[c]} ∪ rt_subscribers route) false route in
      if bool_decide (access = Control) && bool_decide (rt_control route = None) then
        let '(route, effects) := resize_for_control pane cols rows (set_control (Some c) route) in
        (put_route pane route b, effects, Control)
      else if bool_decide (rt_control route = Some c) then (put_route pane route b, [], Control)
      else (put_route pane route b, [], Observe)
  | None =>
      let control := if bool_decide (access = Control) then Some c else None in
      (put_route pane {| rt_access := access; rt_cols := cols; rt_rows := rows;
                         rt_control := control; rt_subscribers := {[c]};
                         rt_unclaimed := false |} b,
       [OpenRoute pane access cols rows], access)
  end.

Definition new_subscription (access : TerminalAccess) (cols rows : N)
    (representation : PaneRepresentation) : PaneSubscription := {|
  sub_requested := access; sub_cols := cols; sub_rows := rows;
  sub_representation := representation; sub_sent := None; sub_outstanding := [];
|}.

(** The screen a mid-stream subscriber is given at once. *)
Definition first_screen (c : ClientId) (pane : PaneId) (representation : PaneRepresentation)
    (b : Broker) : Broker * list Effect :=
  match screens b !! pane with
  | Some s =>
      if bool_decide (representation = AsScreen) then
        (alter_client (alter_sub (sent_update (sequence (sc_last s))) pane) c b,
         [Send c (PaneScreen pane (sc_last s))])
      else (b, [])
  | None => (b, [])
  end.

Definition subscribe_pane (c : ClientId) (pane : PaneId) (access : TerminalAccess) (cols rows : N)
    (representation : PaneRepresentation) (b : Broker) : Broker * list Effect :=
  match clients b !! c with
  | None => (b, [])
  | Some s =>
      let sub := new_subscription access cols rows representation in
      let b := alter_client (λ s, set_cl_panes (<[pane := sub]> (cl_panes s)) s) c b in
      let '(b, effects, granted) := grant c pane access cols rows b in
      let '(b, shown) := first_screen c pane representation b in
      (b, effects ++ shown ++ [Send c (PaneLease pane granted)])
  end.

Definition error_to (c : ClientId) (message : ustr) : Effect := Send c (ErrorMessage None message).

Definition take_control (c : ClientId) (pane : PaneId) (only_if_free : bool) (b : Broker)
    : Broker * list Effect :=
  match clients b !! c with
  | None => (b, [])
  | Some s =>
      match cl_panes s !! pane with
      | None => (b, [error_to c (u "cannot take control of " ++ display_id pane
                                 ++ u " without subscribing to it")])
      | Some sub =>
          match routes b !! pane with
          | None => (b, [])
          | Some route =>
              if bool_decide (rt_control route = Some c) then (b, [])
              else if only_if_free && bool_decide (is_Some (rt_control route))
              then (b, [Send c (PaneLease pane Observe)])
              else
                let previous := rt_control route in
                let '(route, resized) := resize_for_control pane (sub_cols sub) (sub_rows sub)
                                           (set_control (Some c) route) in
                let '(route, reopened) :=
                  if bool_decide (rt_access route = Control) then (route, [])
                  else (set_access Control route,
                        [CloseRoute pane; OpenRoute pane Control (rt_cols route) (rt_rows route)]) in
                (put_route pane route b,
                 resized ++ reopened
                 ++ match previous with Some p => [Send p (PaneLease pane Observe)] | None => [] end
                 ++ [Send c (PaneLease pane Control)])
          end
      end
  end.

(** Whether the client holds the lease, and the refusal it is sent if not. *)
Definition holds_control (c : ClientId) (pane : PaneId) (b : Broker) : bool :=
  bool_decide ((routes b !! pane ≫= rt_control) = Some c).
Definition lease_refusal (c : ClientId) (pane : PaneId) : Effect :=
  error_to c (u "this connection does not hold the control lease for " ++ display_id pane).

(** The effects of a request that needs the lease on one pane. *)
Definition leased (c : ClientId) (pane : PaneId) (b : Broker) (effects : list Effect)
    : list Effect :=
  if holds_control c pane b then effects else [lease_refusal c pane].

(** The lease of a departed holder is not handed on. *)
Definition drop_control (pane : PaneId) (route : Route) : Route * list Effect :=
  let route := set_control None route in
  let downgrade := bool_decide (rt_access route = Control) in
  let route := if downgrade then set_access Observe route else route in
  (route,
   (if downgrade
    then [CloseRoute pane; OpenRoute pane Observe (rt_cols route) (rt_rows route)] else [])
   ++ ((λ c, Send c (PaneLease pane Observe)) <$> set_iter (rt_subscribers route))).

Definition release_pane (c : ClientId) (pane : PaneId) (b : Broker) : Broker * list Effect :=
  match routes b !! pane with
  | None => (b, [])
  | Some route =>
      let held_control := bool_decide (rt_control route = Some c) in
      let left := rt_subscribers route ∖ {[c]} in
      if bool_decide (left = ∅)
      then (put_route pane (set_control None (set_subscribers left true route)) b,
            [RouteUnclaimed pane])
      else
        let b := put_route pane (set_subscribers left (rt_unclaimed route) route) b in
        let b := release_screen_if_unwatched pane b in
        if negb held_control then (b, [])
        else match routes b !! pane with
             | None => (b, [])
             | Some route =>
                 let '(route, effects) := drop_control pane route in
                 (put_route pane route b, effects)
             end
  end.

(** ** Connections *)

Definition Broker_new (version : ustr) (fs : list ustr) (replies : list QuickReply) : Broker := {|
  server_version := version; features := fs; quick_replies := replies;
  clients := ∅; routes := ∅; screens := ∅; state := FederationState_default;
  agent_cards := None; next_client := 0;
|}.

Definition connect (b : Broker) : Broker * ClientId :=
  let c := next_client b in
  ({| server_version := server_version b; features := features b;
      quick_replies := quick_replies b;
      clients := <[c := Client_new]> (clients b); routes := routes b; screens := screens b;
      state := state b; agent_cards := agent_cards b; next_client := u64_wrapping_add c 1 |}, c).

(** Run a method for each element, gathering the effects in order. *)
Definition each {A} (f : A → Broker → Broker * list Effect) (w : Broker * list Effect) (l : list A)
    : Broker * list Effect :=
  foldl (λ w a, let '(b', effects) := f a w.1 in (b', w.2 ++ effects)) w l.

Definition disconnect (c : ClientId) (b : Broker) : Broker * list Effect :=
  match clients b !! c with
  | None => (b, [])
  | Some departing =>
      each (release_pane c) (set_clients b (delete c (clients b)), []) (keys (cl_panes departing))
  end.

(** ** Broadcasts *)

(** The clients that satisfy [p], in order. *)
Definition clients_with (p : Client → bool) (b : Broker) : list ClientId :=
  omap (λ e : ClientId * Client, if p e.2 then Some e.1 else None) (entries (clients b)).

Definition broadcast_state (message : ServerMessage) (b : Broker) : list Effect :=
  (λ c, Send c message) <$> clients_with cl_state b.

Definition agent_cards_updated (projection : AgentCardProjection) (b : Broker)
    : Broker * list Effect :=
  if bool_decide (agent_cards b = Some projection) then (b, [])
  else (set_agent_cards b projection,
        (λ c, Send c (AgentCardsMessage projection)) <$> clients_with cl_cards b).

Definition notify_devices (notification : ServerMessage) (b : Broker) : list Effect :=
  (λ c, Send c notification) <$> clients_with cl_notifications b.

Definition attention_observed (event : AttentionEvent) (b : Broker) : list Effect :=
  broadcast_state (AttentionMessage event) b.
Definition attention_changed (events : list AttentionEvent) (b : Broker) : list Effect :=
  broadcast_state (AttentionHistory events) b.
Definition pairing_approval_required (attempt name confirmation : ustr) (expires : N) (b : Broker)
    : list Effect :=
  broadcast_state (PairingApprovalRequired attempt name confirmation expires) b.
Definition pairing_decided (attempt : ustr) (approved : bool) (message : ustr) (b : Broker)
    : list Effect :=
  broadcast_state (PairingDecision attempt approved message) b.

Definition operation_completed (c : ClientId) (request : N) (applied : bool) (message : ustr)
    (plugin_run : option PluginRun) (b : Broker) : list Effect :=
  if bool_decide (is_Some (clients b !! c))
  then [Send c (OperationResult request applied message plugin_run)]
  else [].

(** ** Federation updates *)

Definition pane_is_gone (st : FederationState) (pane : PaneId) : bool :=
  match State.targets st !! target_session pane with
  | None => true
  | Some t =>
      if negb (is_live t) then false
      else match snapshot t with
           | Some s => negb (bool_decide (is_Some (State.panes s !! pane)))
           | None => false
           end
  end.

Definition close_vanished_routes (b : Broker) : Broker * list Effect :=
  each pane_route_closed (b, [])
    (filter (λ pane, pane_is_gone (state b) pane = true) (keys (routes b))).

(** What the new state changes, as messages: targets that changed for clients
    or are new, then targets that left. *)
Definition federation_changes (old new : FederationState) : list ServerMessage :=
  omap (λ e : TargetSession * TargetRuntimeState,
          let changed := match State.targets old !! e.1 with
                         | Some previous => differs_for_clients previous e.2
                         | None => true
                         end in
          if changed then Some (TargetState e.1 (Some e.2)) else None)
       (entries (State.targets new))
  ++ omap (λ k, if decide (is_Some (State.targets new !! k)) then None
                else Some (TargetState k None))
          (keys (State.targets old)).

Definition federation_updated (st : FederationState) (b : Broker) : Broker * list Effect :=
  let changes := federation_changes (state b) st in
  let b := set_state b st in
  let told := message ← changes; broadcast_state message b in
  let '(b, closed) := close_vanished_routes b in
  (b, told ++ closed).

(** ** Requests *)

Definition set_greeted (s : Client) : Client := {|
  cl_greeted := true; cl_state := cl_state s; cl_cards := cl_cards s;
  cl_notifications := cl_notifications s; cl_panes := cl_panes s;
|}.
Definition set_cl_state (s : Client) : Client := {|
  cl_greeted := cl_greeted s; cl_state := true; cl_cards := cl_cards s;
  cl_notifications := cl_notifications s; cl_panes := cl_panes s;
|}.
Definition set_cl_cards (s : Client) : Client := {|
  cl_greeted := cl_greeted s; cl_state := cl_state s; cl_cards := true;
  cl_notifications := cl_notifications s; cl_panes := cl_panes s;
|}.
Definition set_cl_notifications (v : bool) (s : Client) : Client := {|
  cl_greeted := cl_greeted s; cl_state := cl_state s; cl_cards := cl_cards s;
  cl_notifications := v; cl_panes := cl_panes s;
|}.

Definition refuse (c : ClientId) (reason : ustr) : list Effect :=
  [error_to c reason; Disconnect c reason].

Definition hello_message (b : Broker) : ServerMessage :=
  ServerHello PROTOCOL_VERSION (server_version b) (features b) (quick_replies b).

(** What a connection that has not been greeted is answered. *)
Definition handshake (c : ClientId) (message : ClientMessage) (b : Broker)
    : Broker * list Effect :=
  match message with
  | ClientHello protocol _ =>
      if (protocol =? PROTOCOL_VERSION)%N
      then (alter_client set_greeted c b, [Send c (hello_message b)])
      else (b, refuse c (u "protocol " ++ display_N protocol
                         ++ u " is not supported; this daemon speaks "
                         ++ display_N PROTOCOL_VERSION))
  | _ => (b, refuse c (u "the first message must be client.hello"))
  end.

Definition subscribe_state (c : ClientId) (b : Broker) : Broker * list Effect :=
  (alter_client set_cl_state c b,
   [Send c (FederationFull (state b)); SendAttentionHistory c]).

Definition subscribe_agent_cards (c : ClientId) (b : Broker) : Broker * list Effect :=
  (alter_client set_cl_cards c b,
   match agent_cards b with
   | Some projection => [Send c (AgentCardsMessage projection)]
   | None => []
   end).

Definition unsubscribe_pane (c : ClientId) (pane : PaneId) (b : Broker) : Broker * list Effect :=
  match subscription b c pane with
  | Some _ => release_pane c pane (alter_client (forget_pane pane) c b)
  | None => (b, [])
  end.

Definition resize_pane (c : ClientId) (pane : PaneId) (cols rows : N) (b : Broker)
    : Broker * list Effect :=
  if holds_control c pane b
  then (alter_route (set_size cols rows) pane
          (alter_client (alter_sub (set_sub_size cols rows) pane) c b),
        [RouteResize pane cols rows])
  else (b, [lease_refusal c pane]).

(** The requests that are passed on as they are: they act on nothing the broker
    guards. *)
Definition forwarded (c : ClientId) (message : ClientMessage) : list Effect :=
  match message with
  | MarkAgent request agent mark => [DoMarkAgent c request agent mark]
  | NameResource request resource label observed =>
      [LocalNaming c request (ChangeName resource label observed)]
  | ConfirmResourceName request resource observed =>
      [LocalNaming c request (ChangeConfirm resource observed)]
  | FavouriteResource request resource => [LocalNaming c request (ChangeFavourite resource)]
  | SetJumpSlot request slot resource => [LocalNaming c request (ChangeSlot slot resource)]
  | ListRemoteDirectory request target root path =>
      [DoListRemoteDirectory c request target root path]
  | SearchRemoteFiles request target root query glob =>
      [DoSearchRemoteFiles c request target root query glob]
  | RunOperation request operation => [DoRunOperation c request operation]
  | ListPluginActions request target => [DoListPluginActions c request target]
  | GetPluginRun request run => [DoGetPluginRun c request run]
  | UploadChunk request payload => [DoUploadChunk c request payload]
  | FinishUpload request digest => [DoFinishUpload c request digest]
  | CancelUpload request => [DoCancelUpload c request]
  | PullDownload request chunks => [DoPullDownload c request chunks]
  | CancelDownload request => [DoCancelDownload c request]
  | MarkAttentionSeen pane => [DoMarkAttentionSeen pane]
  | MarkAllAttentionSeen => [DoMarkAllAttentionSeen]
  | ClearSeenAttention => [DoClearSeenAttention]
  | RequestPairingCode request => [IssuePairingCode c request]
  | DecidePairing attempt approve => [DoDecidePairing attempt approve]
  | _ => []
  end.

(** The requests that need a control lease and change no broker state. *)
Definition guarded (c : ClientId) (message : ClientMessage) (b : Broker) : list Effect :=
  match message with
  | PaneInput pane payload => leased c pane b [RouteInput pane payload]
  | PaneScroll pane direction lines column row modifiers =>
      leased c pane b [RouteScroll pane direction lines column row modifiers]
  | PastePaneText request pane text => leased c pane b [DoPastePaneText c request pane text]
  | BeginUpload request pane mime name length =>
      leased c pane b [DoBeginUpload c request pane mime name length]
  | ResumeUpload request transfer pane length =>
      leased c pane b [DoResumeUpload c request transfer pane length]
  | BeginDownload request pane path => leased c pane b [DoBeginDownload c request pane path]
  | TransferBetween request source path destination name =>
      leased c source b
        (leased c destination b [DoTransferBetween c request source path destination name])
  | _ => []
  end.

(** A message of a greeted client. *)
Definition dispatch (c : ClientId) (message : ClientMessage) (b : Broker)
    : Broker * list Effect :=
  match message with
  | ClientHello _ _ =>
      (b, refuse c (u "client.hello was already accepted on this connection"))
  | SubscribeState => subscribe_state c b
  | SubscribeNotifications => (alter_client (set_cl_notifications true) c b, [])
  | UnsubscribeNotifications => (alter_client (set_cl_notifications false) c b, [])
  | SubscribeAgentCards => subscribe_agent_cards c b
  | SubscribePane pane access cols rows representation =>
      subscribe_pane c pane access cols rows representation b
  | AckPaneScreen pane sequence => ack_pane_screen c pane sequence b
  | UnsubscribePane pane => unsubscribe_pane c pane b
  | TakePaneControl pane only_if_free => take_control c pane only_if_free b
  | PaneResize pane cols rows => resize_pane c pane cols rows b
  | PaneInput _ _ | PaneScroll _ _ _ _ _ _ | PastePaneText _ _ _ | BeginUpload _ _ _ _ _
  | ResumeUpload _ _ _ _ | BeginDownload _ _ _ | TransferBetween _ _ _ _ _ =>
      (b, guarded c message b)
  | _ => (b, forwarded c message)
  end.

Definition handle (c : ClientId) (message : ClientMessage) (b : Broker) : Broker * list Effect :=
  match clients b !! c with
  | None => (b, [])
  | Some s => if cl_greeted s then dispatch c message b else handshake c message b
  end.

(** ** The broker as a machine

    What the I/O layer may feed it, one call at a time. *)

Inductive input :=
  | Connect
  | Disconnected (c : ClientId)
  | Message (c : ClientId) (message : ClientMessage)
  | Federation (st : FederationState)
  | Frame (pane : PaneId) (seq w h : N) (full : bool) (payload : bytes)
  | CloseIfUnclaimed (pane : PaneId)
  | RouteClosed (pane : PaneId)
  | RouteDowngraded (pane : PaneId)
  | CardsUpdated (projection : AgentCardProjection).

Definition step (i : input) (b : Broker) : Broker * list Effect :=
  match i with
  | Connect => ((connect b).1, [])
  | Disconnected c => disconnect c b
  | Message c message => handle c message b
  | Federation st => federation_updated st b
  | Frame pane seq w h full payload => pane_frame pane seq w h full payload b
  | CloseIfUnclaimed pane => close_if_unclaimed pane b
  | RouteClosed pane => pane_route_closed pane b
  | RouteDowngraded pane => route_downgraded pane b
  | CardsUpdated projection => agent_cards_updated projection b
  end.

(** A run: the broker after the inputs, and every effect it yielded. *)
Definition run (inputs : list input) (w : Broker * list Effect) : Broker * list Effect :=
  each step w inputs.
End broker.

#[global] Arguments Broker {_}.
#[global] Arguments ScreenState {_}.
