(* ===== verification/BrokerInv.v ===== *)
(** The broker's bookkeeping ([Broker]): subscriptions, routes and leases agree
    in every reachable state. *)

From S2P Require Import Prelude Model Config State Attention AgentMarks Aliases AgentCards.
From S2P Require Import Screen ScreenFacts Operation Protocol Broker.

Section inv.
Context `{Vt100}.
Implicit Types (b : Broker) (c : ClientId) (pane : PaneId) (r : Route).

Definition flags (s : Client) : bool * bool * bool * bool :=
  (cl_greeted s, cl_state s, cl_cards s, cl_notifications s).

(** The route of the pane has the client among its subscribers. *)
Definition subscribed b c pane : Prop := ∃ r, routes b !! pane = Some r ∧ c ∈ rt_subscribers r.

(** The invariant, up to the pairs [D] whose client has already given up its
    subscription while the route still lists it. [n] bounds the calls made so
    far. *)
Record broker_inv_but (D : ClientId → PaneId → Prop) (n : N) b : Prop := {
  inv_subs : ∀ c pane, subscribed b c pane ↔ is_Some (subscription b c pane) ∨ D c pane;
  inv_out : ∀ c pane, D c pane → subscription b c pane = None;
  inv_control : ∀ pane r c, routes b !! pane = Some r → rt_control r = Some c →
    c ∈ rt_subscribers r;
  inv_unclaimed : ∀ pane r, routes b !! pane = Some r →
    rt_unclaimed r = true ↔ rt_subscribers r = ∅;
  inv_ids : ∀ c, is_Some (clients b !! c) → (c < next_client b)%N;
  inv_next : (next_client b ≤ n)%N;
  inv_greeted : ∀ c s, clients b !! c = Some s → cl_greeted s = false →
    flags s = (false, false, false, false) ∧ cl_panes s = ∅;
}.
Definition broker_inv : N → Broker → Prop := broker_inv_but (λ _ _, False).

Lemma broker_inv_mono D n m b : (n ≤ m)%N → broker_inv_but D n b → broker_inv_but D m b.
Proof. intros Hn []. split; auto. lia. Qed.

Lemma broker_inv_ext D D' n b :
  (∀ c pane, D c pane ↔ D' c pane) → broker_inv_but D n b → broker_inv_but D' n b.
Proof.
  intros HD [H1 H2 H3 H4 H5 H6 H7]. split; try done; intros c pane; rewrite <-HD; auto.
Qed.

(** ** Subscriptions through updates *)

Lemma subscription_alter_client f c b c' pane :
  subscription (alter_client f c b) c' pane =
  if decide (c = c') then (s ← f <$> clients b !! c; cl_panes s !! pane)
  else subscription b c' pane.
Proof.
  unfold subscription, alter_client; simpl. case_decide as E.
  - subst. by rewrite lookup_alter_eq.
  - by rewrite lookup_alter_ne.
Qed.

Lemma subscription_alter_sub f c pane b c' pane' :
  subscription (alter_client (alter_sub f pane) c b) c' pane' =
  if decide (c = c' ∧ pane = pane') then f <$> subscription b c' pane'
  else subscription b c' pane'.
Proof.
  rewrite subscription_alter_client. unfold subscription.
  destruct (decide (c = c')) as [<-|Hne]; [|by rewrite decide_False by tauto].
  destruct (clients b !! c) as [s|]; simpl; [|by case_decide].
  destruct (decide (pane = pane')) as [<-|Hp].
  - rewrite decide_True by done. by rewrite lookup_alter_eq.
  - rewrite decide_False by tauto. by rewrite lookup_alter_ne.
Qed.

(** Changes that leave the bookkeeping alone. *)
Record same_shape b b' : Prop := {
  ss_routes : routes b' = routes b;
  ss_next : next_client b' = next_client b;
  ss_flags : ∀ c, flags <$> clients b' !! c = flags <$> clients b !! c;
  ss_subs : ∀ c pane, is_Some (subscription b' c pane) ↔ is_Some (subscription b c pane);
}.

#[export] Instance same_shape_refl : Reflexive same_shape.
Proof. by split. Qed.
#[export] Instance same_shape_trans : Transitive same_shape.
Proof.
  intros b1 b2 b3 [R1 N1 F1 S1] [R2 N2 F2 S2]. split; [congruence..| |].
  - intros c. by rewrite F2.
  - intros c pane. by rewrite S2.
Qed.

Lemma same_shape_alter_sub f c pane b : same_shape b (alter_client (alter_sub f pane) c b).
Proof.
  split; [done|done| |].
  - intros c'. unfold alter_client; simpl. rewrite lookup_alter. case_decide; [|done].
    subst. by destruct (clients b !! c').
  - intros c' pane'. rewrite subscription_alter_sub. case_decide; [|done]. by rewrite fmap_is_Some.
Qed.

Lemma same_shape_screens m b : same_shape b (set_screens b m).
Proof. by split. Qed.

Lemma same_shape_foldl {A} (f : Broker * list Effect → A → Broker * list Effect) l w :
  (∀ w a, same_shape w.1 (f w a).1) → same_shape w.1 (foldl f w l).1.
Proof. intros Hf. revert w. induction l as [|a l IH]; intros w; simpl; [done|].
  transitivity (f w a).1; [apply Hf|apply IH].
Qed.

Lemma is_Some_flags b b' c :
  flags <$> clients b' !! c = flags <$> clients b !! c →
  is_Some (clients b' !! c) ↔ is_Some (clients b !! c).
Proof. intros Hf. rewrite <-(fmap_is_Some flags), Hf. by rewrite fmap_is_Some. Qed.

Lemma same_shape_inv D n b b' : same_shape b b' → broker_inv_but D n b → broker_inv_but D n b'.
Proof.
  intros [R N0 F S] [H1 H2 H3 H4 H5 H6 H7]. split.
  - intros c pane. unfold subscribed. rewrite R, S. apply H1.
  - intros c pane HD. apply eq_None_not_Some. rewrite S, <-eq_None_not_Some. by apply H2.
  - intros pane r c. rewrite R. apply H3.
  - intros pane r. rewrite R. apply H4.
  - intros c. rewrite N0, (is_Some_flags b b') by done. apply H5.
  - by rewrite N0.
  - intros c s' Hs' Hg. specialize (F c). rewrite Hs' in F. simpl in F.
    destruct (clients b !! c) as [s|] eqn:Hs; [|done]. simpl in F. injection F as Ff.
    assert (flags s' = flags s) as Ff' by (unfold flags; congruence).
    destruct (H7 c s Hs) as [Hfl Hp]; [unfold flags in Ff'; congruence|].
    split; [congruence|]. apply map_empty. intros pane. apply eq_None_not_Some.
    intros [sub Hsub]. assert (is_Some (subscription b' c pane)) as Hsome
      by (unfold subscription; rewrite Hs'; simpl; eauto).
    apply S in Hsome as [sub' Hsub']. unfold subscription in Hsub'. rewrite Hs in Hsub'. simpl in Hsub'.
    by rewrite Hp in Hsub'.
Qed.

(** ** A route changed in place *)

Lemma put_route_inv D D' n pane r b :
  broker_inv_but D n b →
  (∀ c, D' c pane → subscription b c pane = None) →
  (∀ c pane', pane' ≠ pane → D' c pane' ↔ D c pane') →
  (∀ c, c ∈ rt_subscribers r ↔ is_Some (subscription b c pane) ∨ D' c pane) →
  (∀ c, rt_control r = Some c → c ∈ rt_subscribers r) →
  (rt_unclaimed r = true ↔ rt_subscribers r = ∅) →
  broker_inv_but D' n (put_route pane r b).
Proof.
  intros [H1 H2 H3 H4 H5 H6 H7] Hout HD Hsub Hctl Hun.
  assert (∀ c pane', subscription (put_route pane r b) c pane' = subscription b c pane') as Hs
    by done.
  split; try done.
  - intros c pane'. rewrite Hs. unfold subscribed, put_route; simpl.
    destruct (decide (pane' = pane)) as [->|Hne].
    + setoid_rewrite lookup_insert_eq. rewrite <-Hsub. naive_solver.
    + setoid_rewrite lookup_insert_ne; [|done]. rewrite HD by done. apply H1.
  - intros c pane' HD'. rewrite Hs. destruct (decide (pane' = pane)) as [->|Hne]; [by apply Hout|].
    apply H2. by apply HD.
  - intros pane' r' c. unfold put_route; simpl. rewrite lookup_insert. case_decide.
    + intros [= <-]. apply Hctl.
    + apply H3.
  - intros pane' r'. unfold put_route; simpl. rewrite lookup_insert. case_decide.
    + by intros [= <-].
    + apply H4.
Qed.

(** Rewriting a route without touching who subscribes to it. *)
Lemma rewrite_route_inv D n pane r r' b :
  broker_inv_but D n b → routes b !! pane = Some r →
  rt_subscribers r' = rt_subscribers r → rt_unclaimed r' = rt_unclaimed r →
  (∀ c, rt_control r' = Some c → c ∈ rt_subscribers r) →
  broker_inv_but D n (put_route pane r' b).
Proof.
  intros Hinv Hr Hs Hu Hc. pose proof Hinv as [H1 H2 H3 H4 H5 H6 H7].
  eapply put_route_inv; [exact Hinv|by intros c HD; apply H2|done| | |].
  - intros c. rewrite Hs, <-H1. unfold subscribed. rewrite Hr. naive_solver.
  - intros c. rewrite Hs. apply Hc.
  - rewrite Hs, Hu. by eapply H4.
Qed.

Lemma alter_route_put f pane r b :
  routes b !! pane = Some r → alter_route f pane b = put_route pane (f r) b.
Proof.
  intros Hr. unfold alter_route, put_route. f_equal. apply map_eq. intros pane'.
  rewrite lookup_alter, lookup_insert. case_decide; [|done]. subst. by rewrite Hr.
Qed.

Lemma resize_fields pane cols rows0 r :
  let r' := (resize_for_control pane cols rows0 r).1 in
  rt_subscribers r' = rt_subscribers r ∧ rt_unclaimed r' = rt_unclaimed r ∧
  rt_control r' = rt_control r ∧ rt_access r' = rt_access r.
Proof. unfold resize_for_control. by destruct (_ && _). Qed.

(** ** Each method *)

Lemma release_screen_shape pane b : same_shape b (release_screen_if_unwatched pane b).
Proof. unfold release_screen_if_unwatched. case_goal; [done|apply same_shape_screens]. Qed.

Lemma drop_control_fields pane r :
  rt_subscribers (drop_control pane r).1 = rt_subscribers r ∧
  rt_unclaimed (drop_control pane r).1 = rt_unclaimed r ∧
  rt_control (drop_control pane r).1 = None ∧
  rt_access (drop_control pane r).1 = Observe.
Proof. unfold drop_control. simpl. destruct (rt_access r) eqn:E; by rewrite ?E. Qed.

(** The pairs left once [c] has released [pane]. *)
Definition except (D : ClientId → PaneId → Prop) c pane : ClientId → PaneId → Prop :=
  λ c' pane', D c' pane' ∧ ¬ (c' = c ∧ pane' = pane).

Lemma release_pane_inv D n c pane b :
  broker_inv_but D n b → D c pane → broker_inv_but (except D c pane) n (release_pane c pane b).1.
Proof.
  intros Hinv HD. pose proof Hinv as [H1 H2 H3 H4 H5 H6 H7].
  destruct (proj2 (H1 c pane) (or_intror HD)) as (r & Hr & Hin).
  assert (Hleft : ∀ c', c' ∈ rt_subscribers r ∖ {[c]} ↔
    is_Some (subscription b c' pane) ∨ except D c pane c' pane).
  { intros c'. rewrite elem_of_difference, elem_of_singleton.
    assert (c' ∈ rt_subscribers r ↔ subscribed b c' pane) as ->
      by (unfold subscribed; rewrite Hr; naive_solver).
    rewrite H1. unfold except. specialize (H2 c pane HD). split; [naive_solver|].
    intros [Hs|[HD' Hne]]; [|naive_solver]. split; [by left|]. intros ->. rewrite H2 in Hs.
    by destruct Hs. }
  assert (Hput : ∀ r', rt_subscribers r' = rt_subscribers r ∖ {[c]} →
    (∀ c', rt_control r' = Some c' → c' ∈ rt_subscribers r') →
    (rt_unclaimed r' = true ↔ rt_subscribers r' = ∅) →
    broker_inv_but (except D c pane) n (put_route pane r' b)).
  { intros r' Hs Hc Hu. eapply put_route_inv; [exact Hinv| | | |done|done].
    - intros c' [HD' _]. by apply H2.
    - intros c' pane' Hne. unfold except. naive_solver.
    - intros c'. by rewrite Hs, Hleft. }
  unfold release_pane. rewrite Hr. case_bool_decide as Hempty; cbn [fst].
  { by apply Hput. }
  set (r1 := set_subscribers (rt_subscribers r ∖ {[c]}) (rt_unclaimed r) r).
  assert (rt_unclaimed r1 = true ↔ rt_subscribers r1 = ∅) as Hu1.
  { simpl. rewrite (H4 pane r Hr). split; [|done]. intros ->. set_solver. }
  pose proof (release_screen_shape pane (put_route pane r1 b)) as Hshape.
  case_bool_decide as Hheld; cbn [negb].
  - set (b1 := release_screen_if_unwatched pane (put_route pane r1 b)) in *.
    destruct Hshape as [R1 N1 F1 S1].
    assert (routes b1 !! pane = Some r1) as -> by (rewrite R1; apply lookup_insert_eq).
    destruct (drop_control_fields pane r1) as (D1 & D2 & D3 & _).
    destruct (drop_control pane r1) as [r2 effects]. cbn [fst] in *.
    assert (broker_inv_but (except D c pane) n (put_route pane r2 b)) as Hgoal.
    { apply Hput; [by rewrite D1|by rewrite D3|by rewrite D1, D2]. }
    eapply same_shape_inv; [|exact Hgoal].
    split; [|exact N1|exact F1|exact S1]. simpl. rewrite R1. simpl. by rewrite insert_insert_eq.
  - eapply same_shape_inv; [exact Hshape|]. apply Hput; [done| |done].
    intros c' Hc'. simpl in *. specialize (H3 pane r c' Hr Hc'). set_solver.
Qed.

Lemma broker_inv_weaken D n b : broker_inv n b → (∀ c pane, ¬ D c pane) → broker_inv_but D n b.
Proof. intros Hinv HD. eapply broker_inv_ext; [|exact Hinv]. intros; simpl. naive_solver. Qed.

(** The client gives up its subscription; the route still lists it. *)
Lemma forget_pane_inv n c pane b :
  broker_inv n b → broker_inv_but (λ c' pane', c' = c ∧ pane' = pane ∧ is_Some (subscription b c pane))
    n (alter_client (forget_pane pane) c b).
Proof.
  intros [H1' H2 H3 H4 H5 H6 H7].
  assert (∀ c' pane', subscription (alter_client (forget_pane pane) c b) c' pane' =
    if decide (c' = c ∧ pane' = pane) then None else subscription b c' pane') as Hs.
  { intros c' pane'. rewrite subscription_alter_client. unfold subscription.
    destruct (decide (c = c')) as [<-|Hne]; [|by rewrite decide_False by naive_solver].
    destruct (clients b !! c) as [s|]; simpl; [|by case_decide].
    rewrite lookup_delete. destruct (decide (pane = pane')) as [<-|Hp].
    - by rewrite decide_True.
    - by rewrite decide_False by naive_solver. }
  assert (∀ c', flags <$> clients (alter_client (forget_pane pane) c b) !! c' = flags <$> clients b !! c')
    as Hf.
  { intros c'. unfold alter_client; simpl. rewrite lookup_alter. case_decide; [|done].
    subst. by destruct (clients b !! c'). }
  split; try done.
  - intros c' pane'. rewrite Hs. change (subscribed (alter_client (forget_pane pane) c b) c' pane')
      with (subscribed b c' pane'). rewrite H1'. case_decide as E.
    + destruct E as [-> ->]. split; [intros [?|[]]; by right|]. intros [[? ?]|(_ & _ & ?)]; [done|by left].
    + split; [intros [?|[]]; by left|]. intros [?|(-> & -> & _)]; [by left|]. by destruct E.
  - intros c' pane' (-> & -> & _). by rewrite Hs, decide_True.
  - intros c'. rewrite (is_Some_flags b) by done. apply H5.
  - intros c' s'. unfold alter_client; simpl. rewrite lookup_alter. case_decide; [|apply H7].
    subst. intros (s & Hs' & ->)%fmap_Some Hg. destruct (H7 c' s Hs' Hg) as [Hfl Hp].
    split; [done|]. simpl. by rewrite Hp, delete_empty.
Qed.

Lemma unsubscribe_inv n c pane b : broker_inv n b → broker_inv n (unsubscribe_pane c pane b).1.
Proof.
  intros Hinv. unfold unsubscribe_pane. destruct (subscription b c pane) as [sub|] eqn:Hsub; [|done].
  eapply broker_inv_ext; [|apply release_pane_inv; [by apply forget_pane_inv|]].
  - intros c' pane'. unfold except. naive_solver.
  - rewrite Hsub. eauto.
Qed.

Lemma each_ind {A} (f : A → Broker → Broker * list Effect) (P : list A → Broker → Prop) l w :
  P l w.1 → (∀ a l' b, P (a :: l') b → P l' (f a b).1) → P [] (each f w l).1.
Proof.
  intros Hp Hf. revert w Hp. induction l as [|a l IH]; intros w Hp; [done|].
  unfold each in *; simpl. apply IH. specialize (Hf a l w.1 Hp). by destruct (f a w.1).
Qed.

(** The client is gone; the routes still list it. *)
Lemma departing_inv n c b s :
  broker_inv n b → clients b !! c = Some s →
  broker_inv_but (λ c' pane, c' = c ∧ pane ∈ keys (cl_panes s)) n
    (set_clients b (delete c (clients b))).
Proof.
  intros [H1 H2 H3 H4 H5 H6 H7] Hs.
  assert (∀ c' pane, subscription (set_clients b (delete c (clients b))) c' pane =
    if decide (c' = c) then None else subscription b c' pane) as Hsub.
  { intros c' pane. unfold subscription; simpl. rewrite lookup_delete.
    destruct (decide (c = c')) as [<-|Hne]; [by rewrite decide_True|by rewrite decide_False]. }
  assert (∀ pane, is_Some (subscription b c pane) ↔ pane ∈ keys (cl_panes s)) as Hk.
  { intros pane. unfold subscription. rewrite Hs, elem_of_keys. done. }
  split; try done.
  - intros c' pane. change (subscribed (set_clients b (delete c (clients b))) c' pane)
      with (subscribed b c' pane). rewrite Hsub, H1. case_decide as E; [|naive_solver].
    subst c'. rewrite Hk. split; [naive_solver|]. intros [[? ?]|[_ ?]]; [done|by left].
  - intros c' pane [-> _]. by rewrite Hsub, decide_True.
  - intros c'. simpl. rewrite lookup_delete_is_Some. intros [_ ?]. by apply H5.
  - intros c' s'. simpl. intros [_ Hs']%lookup_delete_Some. exact (H7 c' s' Hs').
Qed.

Lemma release_listed n c pane l b :
  pane ∉ l → broker_inv_but (λ c' pane', c' = c ∧ pane' ∈ pane :: l) n b →
  broker_inv_but (λ c' pane', c' = c ∧ pane' ∈ l) n (release_pane c pane b).1.
Proof.
  intros Hno Hb'.
  eapply broker_inv_ext; [|exact (release_pane_inv _ n c pane b Hb' (conj eq_refl (list_elem_of_here _ _)))].
  intros c' pane'. unfold except. rewrite elem_of_cons. split; [naive_solver|].
  intros [-> Hl]. split; [naive_solver|]. intros [_ ->]. done.
Qed.

Lemma disconnect_inv n c b : broker_inv n b → broker_inv n (disconnect c b).1.
Proof.
  intros Hinv. unfold disconnect. destruct (clients b !! c) as [s|] eqn:Hs; [|done].
  eapply broker_inv_ext; last first.
  - apply (each_ind (release_pane c)
      (λ l b', NoDup l ∧ broker_inv_but (λ c' pane, c' = c ∧ pane ∈ l) n b')); cbn [fst].
    + split; [apply NoDup_keys|by apply departing_inv].
    + intros pane l b' [[Hno Hnd]%NoDup_cons Hb']. split; [done|by apply release_listed].
  - intros c' pane. simpl. rewrite elem_of_nil. naive_solver.
Qed.

Lemma unclaimed_inv n pane b : broker_inv n b → broker_inv n (close_if_unclaimed pane b).1.
Proof.
  intros Hinv. pose proof Hinv as [H1 H2 H3 H4 H5 H6 H7]. unfold close_if_unclaimed.
  destruct (routes b !! pane) as [r|] eqn:Hr; [|done]. destruct (rt_unclaimed r) eqn:Hu; [|done].
  cbn [fst]. apply (H4 pane r Hr) in Hu. split; try done.
  - intros c pane'. rewrite <-(H1 c pane' : _ ↔ is_Some (subscription _ c pane') ∨ _). unfold subscribed; simpl. split.
    + intros (r' & [_ Hr']%lookup_delete_Some & Hin). eauto.
    + intros (r' & Hr' & Hin). exists r'. split; [|done]. rewrite lookup_delete_ne; [done|].
      intros ->. assert (r' = r) as -> by congruence. set_solver.
  - intros pane' r' c. simpl. intros [_ ?]%lookup_delete_Some. by eapply H3.
  - intros pane' r'. simpl. intros [_ ?]%lookup_delete_Some. by eapply H4.
Qed.

Lemma forget_all_clients l pane b :
  let b' := foldl (λ b c, alter_client (forget_pane pane) c b) b l in
  routes b' = routes b ∧ screens b' = screens b ∧ next_client b' = next_client b ∧
  (∀ c, flags <$> clients b' !! c = flags <$> clients b !! c) ∧
  (∀ c s', clients b' !! c = Some s' → ∃ s, clients b !! c = Some s ∧ cl_panes s' ⊆ cl_panes s) ∧
  ∀ c pane', subscription b' c pane' =
    if decide (c ∈ l ∧ pane' = pane) then None else subscription b c pane'.
Proof.
  induction l as [|x l IH] using rev_ind; cbn zeta.
  { split; [done|split; [done|split; [done|split; [done|split; [by eauto|]]]]].
    intros c pane'. rewrite decide_False; [done|]. by intros [?%elem_of_nil _]. }
  rewrite foldl_app. cbn [foldl]. set (b1 := foldl _ b l) in *.
  destruct IH as (R & Sc & N0 & F & P & S).
  split; [done|split; [done|split; [done|split; [|split]]]].
  - intros c. rewrite <-F. unfold alter_client; simpl. rewrite lookup_alter. case_decide; [|done].
    subst. by destruct (clients b1 !! c).
  - intros c s'. unfold alter_client; simpl. rewrite lookup_alter. case_decide; [|apply P].
    subst. intros (s1 & Hs1 & ->)%fmap_Some. destruct (P c s1 Hs1) as (s & Hs & Hsub).
    exists s. split; [done|]. simpl. etrans; [apply delete_subseteq|done].
  - intros c pane'. rewrite subscription_alter_client.
    destruct (decide (x = c)) as [->|Hne].
    + assert ((s ← forget_pane pane <$> clients b1 !! c; cl_panes s !! pane')
        = if decide (pane' = pane) then None else subscription b1 c pane') as ->.
      { unfold subscription. destruct (clients b1 !! c) as [s|]; simpl; [|by case_decide].
        rewrite lookup_delete. destruct (decide (pane = pane')) as [<-|?];
          [by rewrite decide_True|by rewrite decide_False]. }
      rewrite S. destruct (decide (pane' = pane)) as [->|Hp].
      * rewrite decide_True; [done|]. split; [|done]. apply elem_of_app. right. by left.
      * rewrite !decide_False by tauto. done.
    + rewrite S. destruct (decide (c ∈ l ∧ pane' = pane)) as [E|E].
      * rewrite decide_True; [done|]. split; [|tauto]. apply elem_of_app. tauto.
      * rewrite decide_False; [done|]. rewrite elem_of_app, list_elem_of_singleton. naive_solver.
Qed.

Lemma route_closed_inv n pane b : broker_inv n b → broker_inv n (pane_route_closed pane b).1.
Proof.
  intros Hinv. pose proof Hinv as [H1 H2 H3 H4 H5 H6 H7]. unfold pane_route_closed.
  destruct (routes b !! pane) as [r|] eqn:Hr; [|done]. cbn [fst].
  set (b0 := set_screens _ _).
  destruct (forget_all_clients (set_iter (rt_subscribers r)) pane b0) as (R & _ & N0 & F & P & S).
  set (b1 := foldl _ b0 _) in *.
  assert (∀ c pane', subscription b1 c pane' = if decide (pane' = pane) then None
                                               else subscription b c pane') as S'.
  { intros c pane'. rewrite S. change (subscription b0 c pane') with (subscription b c pane').
    destruct (decide (c ∈ set_iter (rt_subscribers r) ∧ pane' = pane)) as [E|E];
      rewrite elem_of_set_iter in E; [by rewrite decide_True by tauto|].
    case_decide as Hp; [|done]. subst pane'. apply eq_None_not_Some. intros Hs. apply E.
    split; [|done].
    destruct (proj2 (H1 c pane) (or_introl Hs)) as (r' & Hr' & Hin). congruence. }
  split.
  - intros c pane'. unfold subscribed. rewrite R, S'. simpl. destruct (decide (pane' = pane)) as [->|Hne].
    + rewrite lookup_delete_eq. split; [by intros (? & ? & _)|intros [[? ?]|[]]; done].
    + rewrite lookup_delete_ne by done. apply H1.
  - intros c pane' [].
  - intros pane' r' c. rewrite R; simpl. intros [_ ?]%lookup_delete_Some. by eapply H3.
  - intros pane' r'. rewrite R; simpl. intros [_ ?]%lookup_delete_Some. by eapply H4.
  - intros c. rewrite (is_Some_flags b0) by done. rewrite N0. apply H5.
  - by rewrite N0.
  - intros c s' Hs' Hg. destruct (P c s' Hs') as (s & Hs & Hsub). specialize (F c).
    rewrite Hs', Hs in F. simpl in F. injection F as Ff.
    assert (flags s' = flags s) as Ffl by (unfold flags; congruence).
    destruct (H7 c s Hs) as [Hfl Hp]; [congruence|]. split; [congruence|].
    rewrite Hp in Hsub.
    apply map_empty. intros q. destruct (cl_panes s' !! q) eqn:E; [|done].
    by apply (lookup_weaken _ ∅) in E.
Qed.

Lemma downgraded_inv n pane b : broker_inv n b → broker_inv n (route_downgraded pane b).1.
Proof.
  intros Hinv. unfold route_downgraded. destruct (routes b !! pane) as [r|] eqn:Hr; [|done].
  destruct (_ && _); [done|]. cbn [fst]. rewrite (alter_route_put _ _ r) by done.
  by apply (rewrite_route_inv _ _ _ r).
Qed.

Lemma render_one_shape pane rd w c : same_shape w.1 (render_one pane rd w c).1.
Proof.
  unfold render_one. destruct w as [b effects]. cbn [fst].
  destruct (subscription b c pane); [|done]. destruct (_ && _); [done|]. destruct (_ <=? _); [done|].
  apply same_shape_alter_sub.
Qed.

Lemma pane_frame_shape pane seq w h full payload b :
  same_shape b (pane_frame pane seq w h full payload b).1.
Proof.
  unfold pane_frame. destruct (routes b !! pane) as [r|]; [|done].
  destruct (filter (λ c, watches_screen b pane c = true) _) as [|x l]; [apply same_shape_screens|].
  unfold render_for. destruct (advance _ _ _ _ _) as [s' rendered].
  pose proof (same_shape_foldl (render_one pane rendered) (x :: l)
    (set_screens b (<[pane := s']> (screens b)), []) (λ w a, render_one_shape pane rendered w a)) as Hs.
  destruct (foldl _ _ _) as [b' effects]. cbn [fst] in *.
  etrans; [apply same_shape_screens|exact Hs].
Qed.

Lemma ack_shape c pane seq b : same_shape b (ack_pane_screen c pane seq b).1.
Proof.
  unfold ack_pane_screen. destruct (subscription b c pane); [|done]. destruct (negb _); [done|].
  destruct (screens b !! pane); [|apply same_shape_alter_sub].
  destruct (_ || _); [apply same_shape_alter_sub|]. cbn [fst].
  etrans; apply same_shape_alter_sub.
Qed.

Lemma resize_pane_inv n c pane cols rows0 b :
  broker_inv n b → broker_inv n (resize_pane c pane cols rows0 b).1.
Proof.
  intros Hinv. unfold resize_pane. destruct (holds_control c pane b) eqn:Hh; [|done]. cbn [fst].
  apply bool_decide_eq_true in Hh. apply bind_Some in Hh as (r & Hr & _).
  set (b1 := alter_client _ c b).
  assert (broker_inv n b1) as Hinv1
    by (eapply same_shape_inv; [apply same_shape_alter_sub|exact Hinv]).
  rewrite (alter_route_put _ _ r) by done. apply (rewrite_route_inv _ _ _ r); try done.
  intros c' Hc'. exact (inv_control _ _ _ Hinv pane r c' Hr Hc').
Qed.

Lemma alter_flags_inv n f c b :
  (∀ s, cl_panes (f s) = cl_panes s) → (∀ s, clients b !! c = Some s → cl_greeted (f s) = true) →
  broker_inv n b → broker_inv n (alter_client f c b).
Proof.
  intros Hf Hg [H1 H2 H3 H4 H5 H6 H7].
  assert (∀ c' pane, subscription (alter_client f c b) c' pane = subscription b c' pane) as Hs.
  { intros c' pane. rewrite subscription_alter_client. case_decide; [|done]. subst.
    unfold subscription. destruct (clients b !! c'); simpl; [|done]. by rewrite Hf. }
  split; try done.
  - intros c' pane. rewrite Hs. apply H1.
  - intros c'. unfold alter_client; simpl. rewrite lookup_alter. case_decide; [|apply H5].
    rewrite fmap_is_Some. subst. apply H5.
  - intros c' s'. unfold alter_client; simpl. rewrite lookup_alter. case_decide; [|apply H7].
    subst. intros (s & Hs' & ->)%fmap_Some. by rewrite Hg.
Qed.

(** Adding a subscription to the client, the route catching up afterwards: the
    state between the two halves of [subscribe_pane]. *)
Lemma add_subscription c pane sub b :
  is_Some (clients b !! c) →
  let b' := alter_client (λ s, set_cl_panes (<[pane := sub]> (cl_panes s)) s) c b in
  routes b' = routes b ∧ next_client b' = next_client b ∧ screens b' = screens b ∧
  (∀ c', flags <$> clients b' !! c' = flags <$> clients b !! c') ∧
  (∀ c' pane', subscription b' c' pane' =
    if decide (c' = c ∧ pane' = pane) then Some sub else subscription b c' pane') ∧
  ∀ c' s', c' ≠ c → clients b' !! c' = Some s' → clients b !! c' = Some s'.
Proof.
  intros [s Hs]. split; [done|split; [done|split; [done|split; [|split]]]].
  - intros c'. unfold alter_client; simpl. rewrite lookup_alter. case_decide; [|done].
    subst. by destruct (clients b !! c').
  - intros c' pane'. rewrite subscription_alter_client. unfold subscription.
    destruct (decide (c = c')) as [<-|Hne]; [|by rewrite decide_False by naive_solver].
    rewrite Hs; simpl. rewrite lookup_insert.
    destruct (decide (pane = pane')) as [<-|Hp]; [by rewrite decide_True|].
    by rewrite decide_False by naive_solver.
  - intros c' s' Hne. unfold alter_client; simpl. by rewrite lookup_alter_ne.
Qed.

(** The route [subscribe_pane] leaves. *)
Lemma grant_spec c pane access cols rows0 b :
  let '(b', effects, granted) := grant c pane access cols rows0 b in
  ∃ r', b' = put_route pane r' b ∧
    rt_unclaimed r' = false ∧
    (granted = Control ↔ rt_control r' = Some c) ∧
    match routes b !! pane with
    | Some r =>
        rt_subscribers r' = {[c]} ∪ rt_subscribers r ∧ rt_access r' = rt_access r ∧
        rt_control r' = (if decide (access = Control ∧ rt_control r = None) then Some c
                         else rt_control r)
    | None =>
        rt_subscribers r' = {[c]} ∧ rt_access r' = access ∧
        rt_control r' = (if decide (access = Control) then Some c else None)
    end.
Proof.
  unfold grant. destruct (routes b !! pane) as [r|] eqn:Hr.
  - set (r0 := set_subscribers _ _ _).
    destruct (bool_decide (access = Control) && bool_decide (rt_control r0 = None)) eqn:E.
    + destruct (resize_fields pane cols rows0 (set_control (Some c) r0)) as (R1 & R2 & R3 & R4).
      destruct (resize_for_control _ _ _ _) as [r1 effects]. cbn [fst] in *.
      exists r1. split; [done|split; [by rewrite R2|split; [by rewrite R3|]]].
      rewrite R1, R3, R4. split; [done|split; [done|]].
      apply andb_true_iff in E as [E1%bool_decide_eq_true E2%bool_decide_eq_true].
      by rewrite decide_True.
    + assert (¬ (access = Control ∧ rt_control r = None)) as Hno.
      { intros [HA HB]. apply andb_false_iff in E as [E|E]; apply bool_decide_eq_false in E; by apply E. }
      clear E. case_bool_decide as Hc; (exists r0; split; [done|split; [done|split; [|split; [done|split; [done|]]]]]);
        try (by rewrite decide_False); simpl in *; naive_solver.
  - eexists. split; [reflexivity|]. split; [done|]. simpl.
    case_bool_decide as E; [rewrite decide_True by done|rewrite decide_False by done];
      (split; [|done]); subst; naive_solver.
Qed.

Lemma first_screen_shape c pane rep b : same_shape b (first_screen c pane rep b).1.
Proof.
  unfold first_screen. destruct (screens b !! pane); [|done].
  case_bool_decide; [apply same_shape_alter_sub|done].
Qed.

Lemma subscribe_inv n c pane access cols rows0 rep b :
  (∀ s, clients b !! c = Some s → cl_greeted s = true) →
  broker_inv n b → broker_inv n (subscribe_pane c pane access cols rows0 rep b).1.
Proof.
  intros Hgreet Hinv. unfold subscribe_pane. destruct (clients b !! c) as [s|] eqn:Hs; [|done].
  set (sub := new_subscription access cols rows0 rep).
  destruct (add_subscription c pane sub b) as (R & N0 & _ & F & S & P); [eauto|].
  set (b1 := alter_client _ c b) in *.
  pose proof (grant_spec c pane access cols rows0 b1) as Hgrant.
  destruct (grant c pane access cols rows0 b1) as [[b2 effects] granted].
  destruct Hgrant as (r' & -> & Hun & _ & Hr').
  pose proof (first_screen_shape c pane rep (put_route pane r' b1)) as Hshape.
  destruct (first_screen _ _ _ _) as [b3 shown]. cbn [fst] in *.
  eapply same_shape_inv; [exact Hshape|]. clear Hshape b3.
  pose proof Hinv as [H1 H2 H3 H4 H5 H6 H7]. rewrite R in Hr'.
  assert (∀ c', c' ∈ rt_subscribers r' ↔ is_Some (subscription b1 c' pane)) as Hsub.
  { intros c'. rewrite S. destruct (decide (c' = c ∧ pane = pane)) as [[-> _]|Hne].
    - split; [eauto|]. intros _. destruct (routes b !! pane); destruct Hr' as (-> & _); set_solver.
    - assert (c' ≠ c) as Hne' by tauto.
      pose proof (H1 c' pane) as H1'. unfold subscribed in H1'.
      destruct (routes b !! pane) as [r|]; destruct Hr' as (-> & _).
      + rewrite elem_of_union, elem_of_singleton. split.
        * intros [?|Hin]; [done|]. destruct (proj1 H1') as [?|[]]; eauto.
        * intros Hsome. right. by destruct (proj2 H1' (or_introl Hsome)) as (r0 & [= <-] & ?).
      + rewrite elem_of_singleton. split; [done|]. intros Hsome.
        by destruct (proj2 H1' (or_introl Hsome)) as (r0 & ? & _). }
  split.
  - intros c' pane'. destruct (decide (pane' = pane)) as [->|Hne].
    + change (subscription (put_route pane r' b1) c' pane) with (subscription b1 c' pane).
      rewrite <-Hsub. unfold subscribed, put_route; simpl. setoid_rewrite lookup_insert_eq. naive_solver.
    + change (subscription (put_route pane r' b1) c' pane') with (subscription b1 c' pane').
      rewrite S, decide_False by tauto. rewrite <-(H1 c' pane' : _ ↔ is_Some _ ∨ _).
      unfold subscribed, put_route; simpl. by setoid_rewrite lookup_insert_ne.
  - intros c' pane' [].
  - intros pane' r c'. unfold put_route; simpl. rewrite lookup_insert.
    destruct (decide (pane = pane')) as [E|E]; [|apply H3].
    intros [= <-]. subst pane'. destruct (routes b !! pane) as [r0|] eqn:Hr0; destruct Hr' as (-> & _ & ->).
    + destruct (decide _); [intros [= <-]; set_solver|]. intros Hc.
      specialize (H3 pane r0 c' Hr0 Hc). set_solver.
    + destruct (decide _); [intros [= <-]; set_solver|done].
  - intros pane' r. unfold put_route; simpl. rewrite lookup_insert.
    destruct (decide (pane = pane')) as [E|E]; [|apply H4].
    intros [= <-]. rewrite Hun. split; [done|]. intros Hempty.
    assert (c ∈ rt_subscribers r') as Hc by (apply Hsub; rewrite S, decide_True by done; eauto).
    set_solver.
  - intros c' Hs'. exact (H5 c' (proj1 (is_Some_flags b b1 c' (F c')) Hs')).
  - exact H6.
  - intros c' s' Hs' Hg. change (clients b1 !! c' = Some s') in Hs'. destruct (decide (c' = c)) as [->|Hne].
    + specialize (F c). rewrite Hs', Hs in F. simpl in F. injection F as Ff _ _ _.
      rewrite (Hgreet s eq_refl) in Ff. congruence.
    + apply (H7 c' s'); [by apply P|done].
Qed.

Lemma take_control_inv n c pane free b : broker_inv n b → broker_inv n (take_control c pane free b).1.
Proof.
  intros Hinv. unfold take_control. destruct (clients b !! c) as [s|] eqn:Hs; [|done].
  destruct (cl_panes s !! pane) as [sub|] eqn:Hsub; [|done].
  destruct (routes b !! pane) as [r|] eqn:Hr; [|done]. destruct (bool_decide _); [done|].
  destruct (free && _); [done|].
  destruct (resize_fields pane (sub_cols sub) (sub_rows sub) (set_control (Some c) r)) as (R1 & R2 & R3 & R4).
  destruct (resize_for_control _ _ _ _) as [r1 resized]. cbn [fst] in *.
  assert (c ∈ rt_subscribers r) as Hc.
  { assert (is_Some (subscription b c pane)) as Hsome by (unfold subscription; rewrite Hs; simpl; eauto).
    destruct (proj2 (inv_subs _ _ _ Hinv c pane) (or_introl Hsome)) as (r0 & Hr0 & Hin). congruence. }
  destruct (bool_decide (rt_access r1 = Control)); cbn [fst];
    apply (rewrite_route_inv _ _ _ r); try done; simpl; rewrite R3; by intros c' [= <-].
Qed.

Lemma dispatch_inv n c message b :
  (∀ s, clients b !! c = Some s → cl_greeted s = true) →
  broker_inv n b → broker_inv n (dispatch c message b).1.
Proof.
  intros Hg Hinv. destruct message; cbn [dispatch fst]; try exact Hinv;
    try (by apply alter_flags_inv; [|intros s Hs; exact (Hg s Hs)|]).
  - by apply subscribe_inv.
  - eapply same_shape_inv; [apply ack_shape|exact Hinv].
  - by apply unsubscribe_inv.
  - by apply take_control_inv.
  - by apply resize_pane_inv.
Qed.

Lemma handle_inv n c message b : broker_inv n b → broker_inv n (handle c message b).1.
Proof.
  intros Hinv. unfold handle. destruct (clients b !! c) as [s|] eqn:Hs; [|done].
  destruct (cl_greeted s) eqn:Hg.
  - apply dispatch_inv; [|done]. intros s' Hs'. congruence.
  - unfold handshake. destruct message; try exact Hinv. destruct (_ =? _)%N; [|exact Hinv].
    by apply alter_flags_inv.
Qed.

Lemma connect_inv n b : (n < u64_max)%N → broker_inv n b → broker_inv (n + 1) (connect b).1.
Proof.
  intros Hn [H1 H2 H3 H4 H5 H6 H7]. unfold connect; cbn [fst].
  assert (clients b !! next_client b = None) as Hfresh.
  { apply eq_None_not_Some. intros Hs%H5. lia. }
  assert (u64_wrapping_add (next_client b) 1 = next_client b + 1)%N as Hnext
    by (apply u64_wrapping_add_small; lia).
  split; cbn [next_client clients]; rewrite ?Hnext; try done; try lia.
  - intros c pane. unfold subscription; cbn [clients]. rewrite lookup_insert.
    change (subscribed _ c pane) with (subscribed b c pane).
    case_decide; [|apply H1]. subst. rewrite (H1 (next_client b) pane).
    unfold subscription. rewrite Hfresh. simpl. rewrite lookup_empty. done.
  - intros c. rewrite lookup_insert. case_decide; [lia|]. intros Hs%H5. lia.
  - intros c s. rewrite lookup_insert. case_decide; [by intros [= <-] _|apply H7].
Qed.

Lemma federation_inv n st b : broker_inv n b → broker_inv n (federation_updated st b).1.
Proof.
  intros Hinv. unfold federation_updated, close_vanished_routes.
  assert (broker_inv n (set_state b st)) as Hinv'
    by (eapply same_shape_inv; [|exact Hinv]; by split).
  pose proof (each_ind pane_route_closed (λ _ b', broker_inv n b')
    (filter (λ pane, pane_is_gone (state (set_state b st)) pane = true) (keys (routes (set_state b st))))
    (set_state b st, []) Hinv') as Heach.
  destruct (each _ _ _) as [b' closed]. apply Heach.
  intros pane l b0. by apply route_closed_inv.
Qed.

Lemma step_inv n i b : (n < u64_max)%N → broker_inv n b → broker_inv (n + 1) (step i b).1.
Proof.
  intros Hn Hinv. assert (broker_inv (n + 1) b) as Hinv' by (eapply broker_inv_mono; [|exact Hinv]; lia).
  destruct i; cbn [step].
  - by apply connect_inv.
  - by apply disconnect_inv.
  - by apply handle_inv.
  - by apply federation_inv.
  - eapply same_shape_inv; [apply pane_frame_shape|done].
  - by apply unclaimed_inv.
  - by apply route_closed_inv.
  - by apply downgraded_inv.
  - unfold agent_cards_updated. case_bool_decide; [done|].
    eapply same_shape_inv; [|exact Hinv']. by split.
Qed.

Lemma new_inv v fs qs : broker_inv 0 (Broker_new v fs qs).
Proof.
  split; try done.
  - intros c pane. unfold subscribed, subscription; simpl. rewrite lookup_empty. simpl.
    setoid_rewrite lookup_empty. naive_solver.
  - intros c; simpl. rewrite lookup_empty. by intros [? ?].
Qed.
End inv.
