(* ===== verification/BrokerScreens.v ===== *)
(** Rendered screens in the broker: the queues of unacknowledged updates, the
    refinement that makes a viewer's screen the pane's screen, and the frames
    that made the pane's screen. *)

From S2P Require Import Prelude Model Config State Attention AgentMarks Aliases AgentCards.
From S2P Require Import Screen ScreenFacts Operation Protocol Broker BrokerInv.

(** The screens viewers hold. *)
Abbreviation replica := (gmap (N * PaneId) Snapshot).

Section view.
Context `{Vt100Laws}.
Implicit Types (b : Broker) (c : ClientId) (pane : PaneId) (sub : PaneSubscription).

(** ** The queue of one subscription *)

Definition blank_sub sub : Prop := sub_sent sub = None ∧ sub_outstanding sub = [].

(** What the queue of a screen subscriber looks like against the pane's
    emulator: nothing was sent beyond the emulator's last screen, and what is
    outstanding is at most four updates, oldest first, up to the last sent. *)
Record queue_ok (last : N) sub : Prop := {
  q_sent : ∀ q, sub_sent sub = Some q → (q ≤ last)%N;
  q_length : length (sub_outstanding sub) ≤ MAX_OUTSTANDING_SCREEN_UPDATES;
  q_sorted : StronglySorted N.lt (sub_outstanding sub);
  q_bound : ∀ q, q ∈ sub_outstanding sub → ∃ s, sub_sent sub = Some s ∧ (q ≤ s)%N;
}.

Definition sub_ok (screen : option ScreenState) sub : Prop :=
  match sub_representation sub, screen with
  | AsScreen, Some s => queue_ok (sequence (sc_last s)) sub
  | _, _ => blank_sub sub
  end.

Lemma blank_queue_ok last sub : blank_sub sub → queue_ok last sub.
Proof.
  intros [Hs Ho]. split; rewrite ?Hs, ?Ho; [done|apply Nat.le_0_l|constructor|].
  by intros q ?%elem_of_nil.
Qed.

Lemma blank_sub_ok screen sub : blank_sub sub → sub_ok screen sub.
Proof.
  intros Hb. unfold sub_ok. destruct (sub_representation sub); [done|].
  destruct screen; [by apply blank_queue_ok|done].
Qed.

Lemma queue_ok_mono l1 l2 sub : (l1 ≤ l2)%N → queue_ok l1 sub → queue_ok l2 sub.
Proof. intros Hl [H1 H2 H3 H4]. split; try done. intros q Hq%H1. lia. Qed.

(** Sending the newest update keeps the queue in order. *)
Lemma sent_update_ok last sub :
  queue_ok last sub → sub_sent sub ≠ Some last →
  length (sub_outstanding sub) < MAX_OUTSTANDING_SCREEN_UPDATES →
  queue_ok last (sent_update last sub).
Proof.
  intros [H1 H2 H3 H4] Hne Hlen. split; cbn [sent_update sub_sent sub_outstanding].
  - intros q [= <-]. lia.
  - rewrite length_app. simpl. lia.
  - apply StronglySorted_snoc; [done|]. intros q Hq. destruct (H4 q Hq) as (s & Hs & Hqs).
    specialize (H1 s Hs). assert (s ≠ last) by congruence. lia.
  - intros q [Hq|Hq%list_elem_of_singleton]%elem_of_app; [|exists last; split; [done|lia]].
    destruct (H4 q Hq) as (s & Hs & Hqs). specialize (H1 s Hs). exists last. split; [done|lia].
Qed.

(** ** What a viewer holds *)

(** A client paints what it is sent; [None] is a diff that was refused. *)
Definition paint (h : replica) (e : Effect) : option replica :=
  match e with
  | Send c (PaneScreen pane screen) => Some (<[(c, pane) := screen]> h)
  | Send c (PaneScreenDiff pane diff) =>
      s ← h !! (c, pane);
      match apply diff s with
      | (s', Ok _) => Some (<[(c, pane) := s']> h)
      | (_, Err _) => None
      end
  | _ => Some h
  end.

Fixpoint deliver (effects : list Effect) (h : replica) : option replica :=
  match effects with
  | [] => Some h
  | e :: effects' => h' ← paint h e; deliver effects' h'
  end.

Lemma deliver_app l1 l2 h : deliver (l1 ++ l2) h = (h' ← deliver l1 h; deliver l2 h').
Proof.
  revert h. induction l1 as [|e l1 IH]; intros h; simpl; [done|].
  destruct (paint h e); simpl; [apply IH|done].
Qed.

(** Effects that paint nothing. *)
Definition is_quiet (e : Effect) : bool :=
  match e with
  | Send _ (PaneScreen _ _) | Send _ (PaneScreenDiff _ _) => false
  | _ => true
  end.
Definition quiet (l : list Effect) : Prop := Forall (λ e, is_quiet e = true) l.

Lemma deliver_quiet l h : quiet l → deliver l h = Some h.
Proof.
  induction 1 as [|e l He Hl IH]; [done|]. simpl.
  assert (paint h e = Some h) as -> by (destruct e; try reflexivity; by destruct message).
  done.
Qed.

Lemma quiet_app l1 l2 : quiet l1 → quiet l2 → quiet (l1 ++ l2).
Proof. apply Forall_app_2. Qed.

Lemma quiet_fmap {A} (f : A → Effect) (l : list A) : (∀ a, is_quiet (f a) = true) → quiet (f <$> l).
Proof. intros Hf. apply Forall_fmap, Forall_true. done. Qed.

(** ** The invariant *)

(** [X] are the viewers of whom it is not yet claimed that they are current. *)
Record view_inv_but (X : ClientId → PaneId → Prop) (n : N) b (h : replica) : Prop := {
  vi_sub : ∀ c pane sub, subscription b c pane = Some sub → sub_ok (screens b !! pane) sub;
  vi_screen : ∀ pane s, screens b !! pane = Some s →
    (sequence (sc_last s) ≤ n)%N ∧ snapshot_wf (sc_last s);
  vi_held : ∀ c pane sub q, subscription b c pane = Some sub → sub_sent sub = Some q →
    ∃ s, h !! (c, pane) = Some s ∧ sequence s = q ∧
      ∀ st, screens b !! pane = Some st → q = sequence (sc_last st) → s = sc_last st;
  vi_current : ∀ c pane sub s, ¬ X c pane → subscription b c pane = Some sub →
    sub_representation sub = AsScreen → screens b !! pane = Some s →
    sub_sent sub = Some (sequence (sc_last s)) ∨
    length (sub_outstanding sub) = MAX_OUTSTANDING_SCREEN_UPDATES;
}.
Abbreviation view_inv := (view_inv_but (λ _ _, False)).

Lemma view_inv_mono X n m b h : (n ≤ m)%N → view_inv_but X n b h → view_inv_but X m b h.
Proof.
  intros Hn [H1 H2 H3 H4]. split; try done. intros pane s Hs. destruct (H2 pane s Hs). split; [lia|done].
Qed.

Lemma view_inv_ext X Y n b h :
  (∀ c pane, X c pane → Y c pane) → view_inv_but X n b h → view_inv_but Y n b h.
Proof. intros HX [H1 H2 H3 H4]. split; try done. intros c pane sub s HY. apply H4. auto. Qed.

Definition sub_view sub : PaneRepresentation * option N * list N :=
  (sub_representation sub, sub_sent sub, sub_outstanding sub).

(** Methods that send no screen: subscriptions are kept, and an emulator may go
    only when nobody it served is left. *)
Lemma view_keep X n b b' h :
  (∀ c pane sub', subscription b' c pane = Some sub' →
    ∃ sub, subscription b c pane = Some sub ∧ sub_view sub' = sub_view sub) →
  (∀ pane, screens b' !! pane = screens b !! pane ∨
    screens b' !! pane = None ∧
    ∀ c sub', subscription b' c pane = Some sub' → blank_sub sub') →
  view_inv_but X n b h → view_inv_but X n b' h.
Proof.
  intros Hsub Hscr [H1 H2 H3 H4]. split.
  - intros c pane sub' Hs'. destruct (Hsub c pane sub' Hs') as (sub & Hs & Hv).
    destruct (Hscr pane) as [->|[-> Hb]]; [|by eapply blank_sub_ok, Hb].
    specialize (H1 c pane sub Hs). unfold sub_view in Hv. injection Hv as Hr Hse Ho.
    revert H1. unfold sub_ok, blank_sub. rewrite Hr, Hse, Ho.
    destruct (sub_representation sub); [done|]. destruct (screens b !! pane) as [s|]; [|done].
    intros [Q1 Q2 Q3 Q4]. split; by rewrite ?Hse, ?Ho.
  - intros pane s Hs. destruct (Hscr pane) as [Heq|[Heq _]]; rewrite Heq in Hs; [exact (H2 pane s Hs)|done].
  - intros c pane sub' q Hs' Hq. destruct (Hsub c pane sub' Hs') as (sub & Hs & Hv).
    unfold sub_view in Hv. injection Hv as _ Hse _.
    destruct (H3 c pane sub q Hs) as (s & Hh & Hseq & Hcur); [congruence|].
    exists s. split; [done|split; [done|]]. intros st Hst.
    destruct (Hscr pane) as [Heq|[Heq _]]; rewrite Heq in Hst; [exact (Hcur st Hst)|done].
  - intros c pane sub' s HX Hs' Hrep Hscr'. destruct (Hsub c pane sub' Hs') as (sub & Hs & Hv).
    unfold sub_view in Hv. injection Hv as Hr -> ->.
    destruct (Hscr pane) as [Heq|[Heq _]]; rewrite Heq in Hscr'; [|done].
    apply (H4 c pane sub s); congruence.
Qed.

(** The common case: nothing about subscriptions or screens changed. *)
Lemma view_same X n b b' h :
  (∀ c pane, subscription b' c pane = subscription b c pane) → screens b' = screens b →
  view_inv_but X n b h → view_inv_but X n b' h.
Proof.
  intros Hs Hsc. apply view_keep; [|intros pane; left; by rewrite Hsc].
  intros c pane sub. rewrite Hs. eauto.
Qed.

(** Nobody is left who watches the pane as a screen. *)
Lemma unwatched_blank n b h c pane sub :
  view_inv n b h → subscription b c pane = Some sub → watches_screen b pane c = false →
  blank_sub sub.
Proof.
  intros [H1 _ _ _] Hs Hw. specialize (H1 c pane sub Hs). unfold sub_ok in H1.
  unfold watches_screen, representation_of in Hw. rewrite Hs in Hw.
  apply bool_decide_eq_false in Hw. by destruct (sub_representation sub).
Qed.

Lemma delete_screen_view D n m pane b h :
  broker_inv_but D n b → view_inv m b h →
  (∀ r c, routes b !! pane = Some r → c ∈ rt_subscribers r → watches_screen b pane c = false) →
  view_inv m (set_screens b (delete pane (screens b))) h.
Proof.
  intros Hinv Hv Hno. eapply view_keep; [|intros pane'|exact Hv].
  - intros c pane' sub Hs. by exists sub.
  - simpl. rewrite lookup_delete. destruct (decide (pane = pane')) as [<-|]; [|by left].
    right. split; [done|]. intros c sub Hs.
    change (subscription b c pane = Some sub) in Hs.
    destruct (proj2 (inv_subs _ _ _ Hinv c pane) (or_introl (ex_intro _ sub Hs))) as (r & Hr & Hin).
    eapply unwatched_blank; [exact Hv|exact Hs|by eapply Hno].
Qed.

Lemma release_screen_view D n m pane b h :
  broker_inv_but D n b → view_inv m b h → view_inv m (release_screen_if_unwatched pane b) h.
Proof.
  intros Hinv Hv. unfold release_screen_if_unwatched.
  destruct (match routes b !! pane with Some _ => _ | None => _ end) eqn:E; [done|].
  eapply delete_screen_view; [exact Hinv|exact Hv|]. intros r c Hr Hin. rewrite Hr in E.
  destruct (watches_screen b pane c) eqn:Hw; [|done].
  assert (existsb (watches_screen b pane) (set_iter (rt_subscribers r)) = true) as Hx; [|congruence].
  apply existsb_exists. exists c. split; [|done]. by apply list_elem_of_In, elem_of_set_iter.
Qed.

Lemma put_route_view X n pane r b h :
  view_inv_but X n b h → view_inv_but X n (put_route pane r b) h.
Proof. by apply view_same. Qed.

(** ** Methods that paint nothing *)

Lemma release_pane_quiet c pane b : quiet (release_pane c pane b).2.
Proof.
  unfold release_pane. destruct (routes b !! pane) as [r|]; [|constructor].
  case_bool_decide; [by repeat constructor|]. destruct (negb _); [constructor|].
  destruct (routes (release_screen_if_unwatched _ _) !! pane) as [r'|]; [|constructor].
  unfold drop_control. cbn [snd]. apply quiet_app.
  - destruct (bool_decide _); by repeat constructor.
  - by apply quiet_fmap.
Qed.

Lemma release_pane_view D n m c pane b h :
  broker_inv_but D n b → D c pane → view_inv m b h → view_inv m (release_pane c pane b).1 h.
Proof.
  intros Hinv HD Hv. unfold release_pane. destruct (routes b !! pane) as [r|] eqn:Hr; [|done].
  case_bool_decide as Hempty; [by apply put_route_view|].
  set (r1 := set_subscribers _ _ _).
  assert (view_inv m (release_screen_if_unwatched pane (put_route pane r1 b)) h) as Hrel.
  { unfold release_screen_if_unwatched.
    destruct (match routes (put_route pane r1 b) !! pane with Some _ => _ | None => _ end) eqn:E;
      [by apply put_route_view|].
    eapply view_keep; [|intros pane'|apply (put_route_view _ m pane r1 b h Hv)].
    - intros c' pane' sub Hs. by exists sub.
    - simpl. rewrite lookup_delete. destruct (decide (pane = pane')) as [<-|]; [|by left].
      right. split; [done|]. intros c' sub Hs. change (subscription b c' pane = Some sub) in Hs.
      destruct (proj2 (inv_subs _ _ _ Hinv c' pane) (or_introl (ex_intro _ sub Hs))) as (r' & Hr' & Hin).
      assert (r' = r) as -> by congruence.
      eapply unwatched_blank; [exact Hv|exact Hs|].
      destruct (watches_screen b pane c') eqn:Hw; [|done]. exfalso.
      rewrite (lookup_insert_eq (routes b) pane r1 : routes (put_route pane r1 b) !! pane = _) in E.
      assert (existsb (watches_screen b pane) (set_iter (rt_subscribers r1)) = true) as Hx.
      { apply existsb_exists. exists c'. split; [|done]. apply list_elem_of_In, elem_of_set_iter.
        simpl. apply elem_of_difference. split; [done|]. intros ->%elem_of_singleton.
        by rewrite (inv_out _ _ _ Hinv c pane HD) in Hs. }
      unfold watches_screen, representation_of in *.
      change (subscription (put_route pane r1 b)) with (subscription b) in E. congruence. }
  destruct (negb _); [done|].
  destruct (routes (release_screen_if_unwatched _ _) !! pane) as [r'|]; [|done].
  destruct (drop_control pane r') as [r2 effects]. by apply put_route_view.
Qed.

Lemma forget_pane_view n c pane b h :
  view_inv n b h → view_inv n (alter_client (forget_pane pane) c b) h.
Proof.
  apply view_keep; [|by left]. intros c' pane' sub. rewrite subscription_alter_client.
  case_decide as E; [|eauto]. subst c'. unfold subscription.
  destruct (clients b !! c) as [s|]; simpl; [|done].
  intros [_ Hs]%lookup_delete_Some. eauto.
Qed.

Lemma unsubscribe_view n m c pane b h :
  broker_inv n b → view_inv m b h → view_inv m (unsubscribe_pane c pane b).1 h.
Proof.
  intros Hinv Hv. unfold unsubscribe_pane. destruct (subscription b c pane) as [sub|] eqn:Hs; [|done].
  eapply release_pane_view; [by apply forget_pane_inv| |by apply forget_pane_view].
  split; [done|split; [done|]]. rewrite Hs. eauto.
Qed.

Lemma each_effects {A} (f : A → Broker → Broker * list Effect) (P : list Effect → Prop) l w :
  P w.2 → (∀ a b es, P es → P (es ++ (f a b).2)) → P (each f w l).2.
Proof.
  intros Hp Hf. revert w Hp. induction l as [|a l IH]; intros w Hp; [done|].
  unfold each in *; simpl. apply IH. specialize (Hf a w.1 w.2 Hp). by destruct (f a w.1).
Qed.

Lemma disconnect_quiet c b : quiet (disconnect c b).2.
Proof.
  unfold disconnect. destruct (clients b !! c); [|constructor].
  apply each_effects; [constructor|]. intros pane b' es Hes. apply quiet_app; [done|].
  apply release_pane_quiet.
Qed.

Lemma disconnect_view n m c b h :
  broker_inv n b → view_inv m b h → view_inv m (disconnect c b).1 h.
Proof.
  intros Hinv Hv. unfold disconnect. destruct (clients b !! c) as [s|] eqn:Hs; [|done].
  apply (each_ind (release_pane c) (λ l b', NoDup l ∧
    broker_inv_but (λ c' pane, c' = c ∧ pane ∈ l) n b' ∧ view_inv m b' h)); cbn [fst].
  - split; [apply NoDup_keys|split; [by apply departing_inv|]].
    revert Hv. apply view_keep; [|by left]. intros c' pane sub. unfold subscription; simpl.
    rewrite lookup_delete. case_decide; [done|eauto].
  - intros pane l b' ([Hno Hnd]%NoDup_cons & Hb' & Hv'). split; [done|].
    split; [by apply release_listed|].
    by eapply release_pane_view; [exact Hb'|split; [done|left]|].
Qed.

Lemma unclaimed_view n m pane b h :
  broker_inv n b → view_inv m b h → view_inv m (close_if_unclaimed pane b).1 h.
Proof.
  intros Hinv Hv. unfold close_if_unclaimed. destruct (routes b !! pane) as [r|] eqn:Hr; [|done].
  destruct (rt_unclaimed r) eqn:Hu; [|done]. cbn [fst].
  apply (inv_unclaimed _ _ _ Hinv pane r Hr) in Hu.
  assert (view_inv m (set_screens b (delete pane (screens b))) h) as Hd.
  { eapply delete_screen_view; [exact Hinv|exact Hv|]. intros r' c Hr' Hin.
    assert (r' = r) as -> by congruence. set_solver. }
  revert Hd. by apply view_same.
Qed.

Lemma route_closed_view n m pane b h :
  broker_inv n b → view_inv m b h → view_inv m (pane_route_closed pane b).1 h.
Proof.
  intros Hinv Hv. unfold pane_route_closed. destruct (routes b !! pane) as [r|] eqn:Hr; [|done].
  cbn [fst]. set (b0 := set_screens _ _).
  destruct (forget_all_clients (set_iter (rt_subscribers r)) pane b0) as (_ & Sc & _ & _ & _ & S).
  set (b1 := foldl _ b0 _) in *. revert Hv. apply view_keep.
  - intros c pane' sub. rewrite S. case_decide; [done|].
    change (subscription b0 c pane') with (subscription b c pane'). eauto.
  - intros pane'. rewrite Sc. simpl. rewrite lookup_delete. case_decide as E; [|by left].
    right. subst pane'. split; [done|]. intros c sub. rewrite S. case_decide as E; [done|].
    intros Hs. exfalso. apply E. split; [|done]. apply elem_of_set_iter.
    change (subscription b c pane = Some sub) in Hs.
    destruct (proj2 (inv_subs _ _ _ Hinv c pane) (or_introl (ex_intro _ sub Hs))) as (r' & Hr' & Hin).
    congruence.
Qed.

Lemma take_control_view n c pane free b h :
  view_inv n b h → view_inv n (take_control c pane free b).1 h.
Proof.
  intros Hv. unfold take_control. destruct (clients b !! c) as [s|]; [|done].
  destruct (cl_panes s !! pane) as [sub|]; [|done]. destruct (routes b !! pane) as [r|]; [|done].
  destruct (bool_decide _); [done|]. destruct (free && _); [done|].
  destruct (resize_for_control _ _ _ _) as [r1 resized].
  destruct (bool_decide _); by apply put_route_view.
Qed.

Lemma alter_flags_view n f c b h :
  (∀ s, cl_panes (f s) = cl_panes s) → view_inv n b h → view_inv n (alter_client f c b) h.
Proof.
  intros Hf. apply view_same; [|done]. intros c' pane. rewrite subscription_alter_client.
  case_decide; [|done]. subst. unfold subscription. destruct (clients b !! c'); simpl; [|done].
  by rewrite Hf.
Qed.

Lemma resize_pane_view n c pane cols rows0 b h :
  view_inv n b h → view_inv n (resize_pane c pane cols rows0 b).1 h.
Proof.
  intros Hv. unfold resize_pane. destruct (holds_control c pane b); [|done]. cbn [fst].
  set (b1 := alter_client _ c b). assert (view_inv n b1 h) as Hv1; [|revert Hv1; by apply view_same].
  revert Hv. apply view_keep; [|by left]. intros c' pane' sub'. unfold b1.
  rewrite subscription_alter_sub. case_decide; [|by eauto].
  intros (sub & Hs & ->)%fmap_Some. by exists sub.
Qed.

Lemma connect_view n m b h : broker_inv n b → view_inv m b h → view_inv m (connect b).1 h.
Proof.
  intros Hinv. apply view_keep; [|by left]. intros c pane sub. unfold subscription; simpl.
  rewrite lookup_insert. case_decide; [|by eauto]. simpl. by rewrite lookup_empty.
Qed.

Lemma federation_view n m st b h :
  broker_inv n b → view_inv m b h → view_inv m (federation_updated st b).1 h.
Proof.
  intros Hinv Hv. unfold federation_updated, close_vanished_routes.
  pose proof (each_ind pane_route_closed (λ _ b', broker_inv n b' ∧ view_inv m b' h)
    (filter (λ pane, pane_is_gone (state (set_state b st)) pane = true) (keys (routes (set_state b st))))
    (set_state b st, [])) as Heach.
  destruct (each _ _ _) as [b' closed]. apply Heach; cbn [fst].
  - split; [eapply same_shape_inv; [|exact Hinv]; by split|]. revert Hv. by apply view_same.
  - intros pane l b0 [Hi Hv0]. split; [by apply route_closed_inv|by eapply route_closed_view].
Qed.
End view.

Abbreviation view_inv := (view_inv_but (λ _ _, False)).

(** ** What the emulator of a pane was fed

    A history of the pane kept beside the broker, from its books alone: the
    frames that arrived since the emulator was last given up, which happens when
    the pane's route closes, when its last viewer leaves while others go on
    reading it as bytes, and when a frame comes that nobody views. *)

Record PaintedFrame := { pf_width : N; pf_height : N; pf_full : bool; pf_payload : bytes }.

(** The screen an emulator shows that is fed these frames in order: it starts
    afresh for a full frame and for one of another size. *)
Definition emulate `{Vt100} (k : option VtParser) (f : PaintedFrame) : option VtParser :=
  let fresh := parser_new (pf_height f) (pf_width f) 0 in
  let before :=
    match k with
    | Some p => if pf_full f || negb (bool_decide (screen_size (parser_screen p) = (pf_height f, pf_width f)))
                then fresh else p
    | None => fresh
    end in
  Some (parser_process (pf_payload f) before).
Definition emulated `{Vt100} (l : list PaintedFrame) : option VtParser := foldl emulate None l.

Section fed.
Context `{Vt100}.
Implicit Types (b : Broker) (c : ClientId) (pane : PaneId).

Definition subscribers_of b pane : gset ClientId :=
  match routes b !! pane with Some r => rt_subscribers r | None => ∅ end.
Definition viewers_of b pane : gset ClientId :=
  filter (λ c, watches_screen b pane c = true) (subscribers_of b pane).

(** A step closed the pane's route, or took the last viewer of a pane others
    still read as bytes. *)
Definition abandoned b b' pane : Prop :=
  routes b' !! pane = None ∨
  (¬ subscribers_of b pane ⊆ subscribers_of b' pane ∧ subscribers_of b' pane ≠ ∅ ∧
   viewers_of b' pane = ∅).

#[export] Instance abandoned_dec b b' pane : Decision (abandoned b b' pane).
Proof. unfold abandoned. apply _. Defined.

(** The history of [pane] after one more input. A frame nobody views ends it. *)
Definition fed_step pane (w : Broker * list PaintedFrame) (i : input) : Broker * list PaintedFrame :=
  let '(b, l) := w in
  let b' := (step i b).1 in
  (b', match i with
       | Frame p _ width height full payload =>
           if decide (p = pane) then
             if decide (viewers_of b pane = ∅) then []
             else l ++ [{| pf_width := width; pf_height := height; pf_full := full; pf_payload := payload |}]
           else l
       | _ => if decide (abandoned b b' pane) then [] else l
       end).

(** ** The step of a screen *)

Definition screen_kept b b' pane : Prop :=
  screens b' !! pane = if decide (abandoned b b' pane) then None else screens b !! pane.

(** A pane nobody has a route to has no emulator. *)
Definition routed b : Prop := ∀ pane, routes b !! pane = None → screens b !! pane = None.

Lemma screen_kept_same b b' pane :
  routed b → (routes b' !! pane = None → routes b !! pane = None) →
  subscribers_of b pane ⊆ subscribers_of b' pane →
  screens b' !! pane = screens b !! pane → screen_kept b b' pane.
Proof.
  intros Hr Hn Hs He. unfold screen_kept. case_decide as Ha; [|done].
  destruct Ha as [Ha|(? & _)]; [|done]. rewrite He. auto.
Qed.

Lemma screen_kept_routes b b' pane :
  routed b → routes b' !! pane = routes b !! pane → screens b' !! pane = screens b !! pane →
  screen_kept b b' pane.
Proof.
  intros Hr He. apply screen_kept_same; [done|congruence|]. unfold subscribers_of. by rewrite He.
Qed.

Lemma screen_kept_gone b b' pane :
  routes b' !! pane = None → screens b' !! pane = None → screen_kept b b' pane.
Proof. intros Hr Hs. unfold screen_kept. rewrite decide_True; [done|by left]. Qed.

Lemma watches_screen_clients b b' pane c :
  clients b' = clients b → watches_screen b' pane c = watches_screen b pane c.
Proof. unfold watches_screen, representation_of, subscription. by intros ->. Qed.

Lemma viewers_watched b pane :
  match routes b !! pane with
  | Some r => existsb (watches_screen b pane) (set_iter (rt_subscribers r))
  | None => false
  end = bool_decide (viewers_of b pane ≠ ∅).
Proof.
  unfold viewers_of, subscribers_of. destruct (routes b !! pane) as [r|].
  2:{ symmetry. apply bool_decide_eq_false. intros Hx. apply Hx, set_eq. intros c.
      rewrite elem_of_filter. set_solver. }
  apply eq_true_iff_eq. rewrite existsb_exists, bool_decide_eq_true.
  setoid_rewrite <-list_elem_of_In. setoid_rewrite elem_of_set_iter. split.
  - intros (c & Hc & Hw). set_solver.
  - intros Hne. apply set_choose_L in Hne as [c Hc]. apply elem_of_filter in Hc as []. eauto.
Qed.

(** ** Every method *)

Lemma release_pane_screens c pane p b :
  routed b →
  let b' := (release_pane c pane b).1 in
  clients b' = clients b ∧
  (p ≠ pane → routes b' !! p = routes b !! p ∧ screens b' !! p = screens b !! p) ∧
  (is_Some (routes b !! pane) → is_Some (routes b' !! pane)) ∧
  subscribers_of b' pane = subscribers_of b pane ∖ {[c]} ∧
  screens b' !! pane =
    if decide (subscribers_of b' pane = ∅ ∨ viewers_of b' pane ≠ ∅) then screens b !! pane else None.
Proof.
  intros Hrouted. cbn zeta. unfold release_pane. destruct (routes b !! pane) as [r|] eqn:Hr; cbn [fst].
  2:{ assert (subscribers_of b pane = ∅) as He by (unfold subscribers_of; by rewrite Hr).
      rewrite He. rewrite decide_True by auto.
      split; [done|split; [done|split; [done|split; [|done]]]].
      apply set_eq. intros x. rewrite elem_of_difference, elem_of_empty. tauto. }
  set (r1 := set_subscribers (rt_subscribers r ∖ {[c]}) (rt_unclaimed r) r).
  case_bool_decide as Hempty; cbn [fst].
  { split; [done|split; [|split; [|split]]].
    - intros Hne. simpl. by rewrite lookup_insert_ne.
    - intros _. simpl. rewrite lookup_insert_eq. eauto.
    - unfold subscribers_of. simpl. by rewrite lookup_insert_eq, Hr.
    - rewrite decide_True; [done|]. left. unfold subscribers_of. simpl. by rewrite lookup_insert_eq. }
  set (b1 := put_route pane r1 b). set (b2 := release_screen_if_unwatched pane b1).
  assert (clients b2 = clients b ∧ routes b2 = routes b1 ∧
    (p ≠ pane → screens b2 !! p = screens b !! p) ∧
    screens b2 !! pane = if decide (viewers_of b1 pane ≠ ∅) then screens b !! pane else None)
    as (Hc & Hro & Hot & Hsc).
  { unfold b2, release_screen_if_unwatched. rewrite viewers_watched.
    case_bool_decide as E; [rewrite decide_True by done; by split_and!|rewrite decide_False by tauto]. simpl.
    split; [done|split; [done|split; [|by rewrite lookup_delete_eq]]]. intros Hne.
    by rewrite lookup_delete_ne. }
  assert (Hlook : routes b2 !! pane = Some r1) by (rewrite Hro; apply lookup_insert_eq).
  assert (Hend : ∀ b3 r3, routes b3 !! pane = Some r3 → clients b3 = clients b2 → screens b3 = screens b2 →
    rt_subscribers r3 = rt_subscribers r1 → (p ≠ pane → routes b3 !! p = routes b2 !! p) →
    clients b3 = clients b ∧
    (p ≠ pane → routes b3 !! p = routes b !! p ∧ screens b3 !! p = screens b !! p) ∧
    (is_Some (Some r) → is_Some (routes b3 !! pane)) ∧
    subscribers_of b3 pane = subscribers_of b pane ∖ {[c]} ∧
    screens b3 !! pane =
      if decide (subscribers_of b3 pane = ∅ ∨ viewers_of b3 pane ≠ ∅) then screens b !! pane else None).
  { intros b3 r3 Hr3 Hc3 Hs3 Hsub3 Hp3.
    assert (subscribers_of b3 pane = rt_subscribers r1) as Hsubs
      by (unfold subscribers_of; by rewrite Hr3).
    assert (viewers_of b3 pane = viewers_of b1 pane) as Hv.
    { unfold viewers_of. rewrite Hsubs. unfold subscribers_of, b1. simpl. rewrite lookup_insert_eq.
      apply set_eq. intros x. rewrite !elem_of_filter. rewrite (watches_screen_clients b b3) by congruence.
      by rewrite (watches_screen_clients b (put_route pane r1 b)). }
    split; [congruence|split; [|split; [|split]]].
    - intros Hne. rewrite Hp3, Hs3, Hro, Hot by done. unfold b1. simpl. by rewrite lookup_insert_ne.
    - rewrite Hr3. eauto.
    - rewrite Hsubs. unfold subscribers_of. by rewrite Hr.
    - rewrite Hs3, Hsc, Hv, Hsubs. destruct (decide (viewers_of b1 pane ≠ ∅)) as [E|E].
      + by rewrite decide_True by auto.
      + rewrite decide_False; [done|]. intros [?|?]; [done|by apply E]. }
  destruct (negb _); [by apply (Hend b2 r1)|]. rewrite Hlook.
  destruct (drop_control_fields pane r1) as (D1 & _). destruct (drop_control pane r1) as [r2 effects].
  cbn [fst] in *. apply (Hend _ r2); simpl; [apply lookup_insert_eq|done|done|done|].
  intros Hne. by rewrite lookup_insert_ne.
Qed.

Lemma release_pane_routed c pane b : routed b → routed (release_pane c pane b).1.
Proof.
  intros Hr q Hq. destruct (release_pane_screens c pane q b Hr) as (_ & Hot & Hsome & _ & Hs).
  destruct (decide (q = pane)) as [->|Hne].
  - rewrite Hs. case_decide; [|done]. apply Hr. apply eq_None_not_Some. intros Hx%Hsome.
    by rewrite Hq in Hx; destruct Hx.
  - destruct (Hot Hne) as [Ho1 Ho2]. rewrite Ho2. apply Hr. congruence.
Qed.

(** A client that leaves a pane it subscribes to. *)
Lemma release_pane_kept c b0 b p :
  routed b0 → routed b → routes b !! p = routes b0 !! p → screens b !! p = screens b0 !! p →
  c ∈ subscribers_of b p → screen_kept b0 (release_pane c p b).1 p.
Proof.
  intros Hr0 Hr Hro Hsc Hc.
  destruct (release_pane_screens c p p b Hr) as (_ & _ & Hsome & Hsub & Hs).
  assert (subscribers_of b p = subscribers_of b0 p) as Hq by (unfold subscribers_of; by rewrite Hro).
  unfold screen_kept. rewrite Hs, Hsc.
  assert (routes (release_pane c p b).1 !! p ≠ None) as Hn.
  { apply not_eq_None_Some, Hsome. unfold subscribers_of in Hc. destruct (routes b !! p); [eauto|].
    by apply elem_of_empty in Hc. }
  case_decide as E1; case_decide as Ha; try done; exfalso; unfold abandoned in Ha; rewrite <-Hq in Ha.
  - destruct Ha as [?|(_ & ? & ?)]; [done|]. by destruct E1.
  - apply Ha. right. rewrite Hsub in *. split; [|split].
    + intros Hle. specialize (Hle c Hc). apply elem_of_difference in Hle as [_ Hle]. by apply Hle, elem_of_singleton.
    + intros He. apply E1. by left.
    + destruct (decide (viewers_of (release_pane c p b).1 p = ∅)); [done|]. exfalso. apply E1. by right.
Qed.

Lemma screen_kept_ext b b1 b2 p :
  clients b2 = clients b1 → routes b2 !! p = routes b1 !! p → screens b2 !! p = screens b1 !! p →
  screen_kept b b1 p → screen_kept b b2 p.
Proof.
  intros Hc Hr Hs. unfold screen_kept. rewrite Hs. intros ->.
  assert (abandoned b b1 p ↔ abandoned b b2 p) as Ha.
  { unfold abandoned, viewers_of, subscribers_of. rewrite Hr.
    assert (∀ s : gset N, filter (λ c, watches_screen b2 p c = true) s = filter (λ c, watches_screen b1 p c = true) s) as Hf.
    { intros s. apply set_eq. intros x. rewrite !elem_of_filter. by rewrite (watches_screen_clients b1 b2). }
    by rewrite Hf. }
  repeat case_decide; tauto.
Qed.

(** What a departing client leaves behind, the panes [l] yet to release. *)
Definition leaving b c p (l : list PaneId) b' : Prop :=
  if decide (p ∈ l) then routes b' !! p = routes b !! p ∧ screens b' !! p = screens b !! p
  else screen_kept b b' p.

Lemma release_leaving b c pane l b' p :
  routed b → routed b' → pane ∉ l → c ∈ subscribers_of b' pane →
  leaving b c p (pane :: l) b' → leaving b c p l (release_pane c pane b').1.
Proof.
  intros Hr Hr' Hno Hc. destruct (release_pane_screens c pane p b' Hr') as (Hcl & Hot & _).
  unfold leaving. destruct (decide (p = pane)) as [->|Hne].
  - rewrite decide_True by (by left). rewrite decide_False by done. intros [Ho Hs].
    by apply release_pane_kept.
  - destruct (Hot Hne) as [Ho1 Ho2]. destruct (decide (p ∈ l)) as [Hl|Hl].
    + rewrite decide_True by (by right). intros [? ?]. split; congruence.
    + rewrite decide_False by (by intros [?|?]%elem_of_cons). by apply screen_kept_ext.
Qed.

Lemma disconnect_kept c b p n :
  broker_inv n b → routed b → screen_kept b (disconnect c b).1 p ∧ routed (disconnect c b).1.
Proof.
  intros Hinv Hr. unfold disconnect. destruct (clients b !! c) as [s|] eqn:Hs;
    [|split; [by apply screen_kept_routes|done]].
  set (start := set_clients b (delete c (clients b))).
  destruct (each_ind (release_pane c) (λ l b', NoDup l ∧ routed b' ∧
    broker_inv_but (λ c' pane, c' = c ∧ pane ∈ l) n b' ∧ leaving b c p l b')
    (keys (cl_panes s)) (start, [])) as (_ & Hrouted & _ & Hend); cbn [fst].
  - split; [apply NoDup_keys|split; [done|split; [by apply departing_inv|]]].
    unfold leaving. case_decide; [done|]. by apply screen_kept_routes.
  - intros pane l b' ([Hno Hnd]%NoDup_cons & Hr' & Hinv' & Hp).
    split; [done|split; [by apply release_pane_routed|split; [by apply release_listed|]]].
    apply release_leaving; try done.
    destruct (proj2 (inv_subs _ _ _ Hinv' c pane)) as (r & Hrp & Hin);
      [right; split; [done|by left]|]. unfold subscribers_of. by rewrite Hrp.
  - by split.
Qed.

Lemma unsubscribe_kept c pane b p n :
  broker_inv n b → routed b →
  screen_kept b (unsubscribe_pane c pane b).1 p ∧ routed (unsubscribe_pane c pane b).1.
Proof.
  intros Hinv Hr. unfold unsubscribe_pane. destruct (subscription b c pane) as [sub|] eqn:Hsub;
    [|split; [by apply screen_kept_routes|done]].
  set (b1 := alter_client (forget_pane pane) c b). assert (routed b1) as Hr1 by done.
  split; [|by apply release_pane_routed]. destruct (decide (p = pane)) as [->|Hne].
  - apply release_pane_kept; try done.
    destruct (proj2 (inv_subs _ _ _ Hinv c pane) (or_introl (ex_intro _ sub Hsub))) as (r & Hrp & Hin).
    change (subscribers_of b1 pane) with (subscribers_of b pane). unfold subscribers_of. by rewrite Hrp.
  - destruct (release_pane_screens c pane p b1 Hr1) as (_ & Hot & _). destruct (Hot Hne) as [Ho1 Ho2].
    by apply screen_kept_routes.
Qed.

(** The methods that end no route, take nobody's subscription and draw nothing. *)
Record spares b b' : Prop := {
  sp_screens : screens b' = screens b;
  sp_routes : ∀ p, routes b' !! p = None → routes b !! p = None;
  sp_subscribers : ∀ p, subscribers_of b p ⊆ subscribers_of b' p;
}.

#[export] Instance spares_refl : Reflexive spares.
Proof. by split. Qed.
#[export] Instance spares_trans : Transitive spares.
Proof. intros b1 b2 b3 [] []. split; [congruence|auto|]. intros p. etrans; eauto. Qed.

Lemma spares_kept b b' p : routed b → spares b b' → screen_kept b b' p ∧ routed b'.
Proof.
  intros Hr [Hs Hn Hsub]. split; [apply screen_kept_same; auto; by rewrite Hs|].
  intros q Hq. rewrite Hs. auto.
Qed.

Lemma spares_books b b' : screens b' = screens b → routes b' = routes b → spares b b'.
Proof. intros Hs Hr. split; [done|by rewrite Hr|]. intros p. unfold subscribers_of. by rewrite Hr. Qed.

Lemma spares_put_route pane r b : subscribers_of b pane ⊆ rt_subscribers r → spares b (put_route pane r b).
Proof.
  intros Hr. split; [done| |]; intros p; unfold subscribers_of; simpl; rewrite lookup_insert;
    destruct (decide (pane = p)) as [<-|]; done.
Qed.

Lemma subscribe_spares c pane access cols rows0 rep b :
  spares b (subscribe_pane c pane access cols rows0 rep b).1.
Proof.
  unfold subscribe_pane. destruct (clients b !! c) as [s|]; [|done].
  set (b1 := alter_client _ c b).
  pose proof (grant_spec c pane access cols rows0 b1) as Hgrant.
  destruct (grant c pane access cols rows0 b1) as [[b2 effects] granted].
  destruct Hgrant as (r' & -> & _ & _ & Hr').
  assert (spares b1 (put_route pane r' b1)) as Hput.
  { apply spares_put_route. unfold subscribers_of.
    destruct (routes b1 !! pane); destruct Hr' as (-> & _); set_solver. }
  assert (spares (put_route pane r' b1) (first_screen c pane rep (put_route pane r' b1)).1) as Hfirst.
  { unfold first_screen. destruct (screens _ !! pane); [|done]. case_bool_decide; [by apply spares_books|done]. }
  destruct (first_screen _ _ _ _) as [b3 shown]. cbn [fst] in *.
  etrans; [by apply (spares_books b b1)|]. by etrans.
Qed.

Lemma ack_spares c pane q b : spares b (ack_pane_screen c pane q b).1.
Proof.
  unfold ack_pane_screen. destruct (subscription b c pane); [|done]. destruct (negb _); [done|].
  destruct (screens b !! pane); [destruct (_ || _)|]; by apply spares_books.
Qed.

Lemma take_control_spares c pane free b : spares b (take_control c pane free b).1.
Proof.
  unfold take_control. destruct (clients b !! c) as [s|]; [|done].
  destruct (cl_panes s !! pane) as [sub|]; [|done].
  destruct (routes b !! pane) as [r|] eqn:Hr; [|done]. destruct (bool_decide _); [done|].
  destruct (free && _); [done|].
  destruct (resize_fields pane (sub_cols sub) (sub_rows sub) (set_control (Some c) r)) as (R1 & _).
  destruct (resize_for_control _ _ _ _) as [r1 resized]. cbn [fst] in *.
  destruct (bool_decide (rt_access r1 = Control)); cbn [fst]; apply spares_put_route;
    unfold subscribers_of; rewrite Hr; simpl; by rewrite R1.
Qed.

Lemma resize_spares c pane cols rows0 b : spares b (resize_pane c pane cols rows0 b).1.
Proof.
  unfold resize_pane. destruct (holds_control c pane b) eqn:Hh; [|done]. cbn [fst].
  apply bool_decide_eq_true, bind_Some in Hh as (r & Hr & _). set (b1 := alter_client _ c b).
  rewrite (alter_route_put _ _ r) by done. etrans; [by apply (spares_books b b1)|].
  apply spares_put_route. change (subscribers_of b1 pane) with (subscribers_of b pane).
  unfold subscribers_of. by rewrite Hr.
Qed.

Lemma downgraded_spares pane b : spares b (route_downgraded pane b).1.
Proof.
  unfold route_downgraded. destruct (routes b !! pane) as [r|] eqn:Hr; [|done].
  destruct (_ && _); [done|]. cbn [fst]. rewrite (alter_route_put _ _ r) by done.
  apply spares_put_route. unfold subscribers_of. by rewrite Hr.
Qed.

Lemma handle_kept c message b p n :
  broker_inv n b → routed b →
  screen_kept b (handle c message b).1 p ∧ routed (handle c message b).1.
Proof.
  intros Hinv Hr. unfold handle. destruct (clients b !! c) as [s|]; [|by apply spares_kept].
  destruct (cl_greeted s).
  - destruct message; cbn [dispatch]; try (apply spares_kept; [done|by apply spares_books]).
    + apply spares_kept; [done|apply subscribe_spares].
    + apply spares_kept; [done|apply ack_spares].
    + by eapply unsubscribe_kept.
    + apply spares_kept; [done|apply take_control_spares].
    + apply spares_kept; [done|apply resize_spares].
  - apply spares_kept; [done|]. unfold handshake. destruct message; try done.
    destruct (_ =? _)%N; [by apply spares_books|done].
Qed.

(** A pane whose route is closed, or not. *)
Definition closed_or_same b p b' : Prop :=
  routes b' !! p = None ∧ screens b' !! p = None ∨
  routes b' !! p = routes b !! p ∧ screens b' !! p = screens b !! p.

Lemma closed_or_same_kept b b' p : routed b → closed_or_same b p b' → screen_kept b b' p.
Proof. intros Hr [[? ?]|[? ?]]; [by apply screen_kept_gone|by apply screen_kept_routes]. Qed.

Lemma route_closed_or_same b pane p b' :
  routed b' → closed_or_same b p b' → closed_or_same b p (pane_route_closed pane b').1.
Proof.
  intros Hr H0. unfold pane_route_closed. destruct (routes b' !! pane) as [r|] eqn:Hp; [|done]. cbn [fst].
  set (b1 := set_screens _ _).
  destruct (forget_all_clients (set_iter (rt_subscribers r)) pane b1) as (R & Sc & _).
  unfold closed_or_same in *. rewrite R, Sc. simpl. rewrite !lookup_delete.
  destruct (decide (pane = p)) as [<-|]; [by left|done].
Qed.

Lemma route_closed_routed pane b : routed b → routed (pane_route_closed pane b).1.
Proof.
  intros Hr q. destruct (route_closed_or_same b pane q b Hr) as [[? ?]|[-> ->]]; [by right|done|auto].
Qed.

Lemma federation_kept st b p :
  routed b → screen_kept b (federation_updated st b).1 p ∧ routed (federation_updated st b).1.
Proof.
  intros Hr. unfold federation_updated, close_vanished_routes.
  pose proof (each_ind pane_route_closed (λ _ b', routed b' ∧ closed_or_same b p b')
    (filter (λ pane, pane_is_gone (state (set_state b st)) pane = true) (keys (routes (set_state b st))))
    (set_state b st, [])) as Heach.
  destruct (each _ _ _) as [b' closed]. destruct Heach as [Hr' Hc]; cbn [fst].
  - split; [done|by right].
  - intros pane l b0 [Hr0 Hc0]. split; [by apply route_closed_routed|by apply route_closed_or_same].
  - split; [by apply closed_or_same_kept|done].
Qed.

Lemma unclaimed_kept pane b p :
  routed b → screen_kept b (close_if_unclaimed pane b).1 p ∧ routed (close_if_unclaimed pane b).1.
Proof.
  intros Hr.
  assert (∀ q, closed_or_same b q (close_if_unclaimed pane b).1) as Hc.
  { intros q. unfold close_if_unclaimed. destruct (routes b !! pane) as [r|]; [|by right].
    destruct (rt_unclaimed r); [|by right]. unfold closed_or_same. simpl. rewrite !lookup_delete.
    case_decide; [by left|by right]. }
  split; [by apply closed_or_same_kept|].
  intros q. destruct (Hc q) as [[? ?]|[-> ->]]; [done|auto].
Qed.

(** ** A frame *)

Lemma render_one_screens pane rd w c : screens (render_one pane rd w c).1 = screens w.1.
Proof.
  unfold render_one. destruct w as [b effects]. destruct (subscription b c pane); [|done].
  destruct (_ && _); [done|]. by destruct (_ <=? _).
Qed.

Lemma render_all_screens pane rd l w : screens (foldl (render_one pane rd) w l).1 = screens w.1.
Proof.
  revert w. induction l as [|c l IH]; intros w; simpl; [done|]. by rewrite IH, render_one_screens.
Qed.

Lemma pane_frame_screens pane q w h full payload b :
  routed b →
  screens (pane_frame pane q w h full payload b).1 =
    if decide (viewers_of b pane = ∅) then delete pane (screens b)
    else <[pane := (advance w h full payload (default (ScreenState_new w h) (screens b !! pane))).1]>
      (screens b).
Proof.
  intros Hr. unfold pane_frame. destruct (routes b !! pane) as [r|] eqn:Hro; cbn [fst].
  2:{ rewrite decide_True; [by rewrite delete_id by auto|]. unfold viewers_of, subscribers_of. rewrite Hro.
      apply set_eq. intros c. rewrite elem_of_filter, elem_of_empty. tauto. }
  assert (∀ c, c ∈ filter (λ c, watches_screen b pane c = true) (set_iter (rt_subscribers r)) ↔
    c ∈ viewers_of b pane) as Hin.
  { intros c. unfold viewers_of, subscribers_of. rewrite Hro.
    by rewrite list_elem_of_filter, elem_of_filter, elem_of_set_iter. }
  destruct (filter (λ c, watches_screen b pane c = true) _) as [|x l]; cbn [fst].
  - rewrite decide_True; [done|]. apply set_eq. intros c. rewrite <-Hin. by rewrite elem_of_nil, elem_of_empty.
  - rewrite decide_False.
    2:{ intros He. apply (elem_of_empty (C := gset N) x). rewrite <-He. apply Hin. by left. }
    unfold render_for. destruct (advance _ _ _ _ _) as [s' rd]. cbn [fst].
    pose proof (render_all_screens pane rd (x :: l) (set_screens b (<[pane := s']> (screens b)), [])) as Hs.
    destruct (foldl _ _ _) as [b' rendered]. exact Hs.
Qed.

(** The emulator of a pane and the last screen drawn of it are what its history
    makes them. *)
Definition screen_drawn (l : list PaintedFrame) (s : option ScreenState) : Prop :=
  match s with
  | Some s => emulated l = Some (sc_parser s) ∧
      sc_last s = snapshot_of (parser_screen (sc_parser s)) (sequence (sc_last s))
  | None => l = []
  end.

Lemma snapshot_of_same screen q s : same_screen (snapshot_of screen q) s = true → s = snapshot_of screen (sequence s).
Proof.
  unfold same_screen, snapshot_of. destruct (screen_size screen) as [h w]. cbn.
  rewrite !andb_true_iff, !N.eqb_eq, !bool_decide_eq_true. destruct s. cbn. by intros [[[-> ->] <-] <-].
Qed.

Lemma advance_drawn w h full payload l s :
  screen_drawn l s →
  screen_drawn (l ++ [{| pf_width := w; pf_height := h; pf_full := full; pf_payload := payload |}])
    (Some (advance w h full payload (default (ScreenState_new w h) s)).1).
Proof.
  intros Hl. unfold screen_drawn, emulated, advance. rewrite foldl_app. cbn [foldl].
  set (st := default _ s).
  destruct (screen_size (parser_screen (sc_parser st))) as [r cc] eqn:Hsize.
  set (parser := parser_process payload _).
  assert (emulate (foldl emulate None l)
    {| pf_width := w; pf_height := h; pf_full := full; pf_payload := payload |} = Some parser) as ->.
  { unfold screen_drawn, emulated in Hl. unfold parser, st in *. unfold emulate at 1; cbn [pf_width pf_height pf_full pf_payload].
    do 2 f_equal. destruct s as [s|].
    - destruct Hl as [-> _]. simpl in *. rewrite Hsize.
      destruct full; [done|]. simpl. destruct (N.eqb_spec r h), (N.eqb_spec cc w); subst; simpl;
        case_bool_decide; simpl; congruence.
    - rewrite Hl. simpl in *. by destruct (_ || _). }
  destruct (same_screen _ _) eqn:Hsame; cbn [fst sc_parser sc_last]; (split; [done|]).
  - by apply snapshot_of_same in Hsame.
  - by rewrite snapshot_of_sequence.
Qed.

Lemma fed_step_drawn pane n i b l :
  broker_inv n b → routed b → screen_drawn l (screens b !! pane) →
  routed (step i b).1 ∧ screen_drawn (fed_step pane (b, l) i).2 (screens (step i b).1 !! pane).
Proof.
  intros Hinv Hr Hl.
  assert (∀ b', screen_kept b b' pane →
    screen_drawn (if decide (abandoned b b' pane) then [] else l) (screens b' !! pane)) as Hkeep.
  { intros b' ->. by case_decide. }
  assert (∀ b', screen_kept b b' pane ∧ routed b' → routed b' ∧
    screen_drawn (if decide (abandoned b b' pane) then [] else l) (screens b' !! pane)) as Hboth
    by (intros b' []; auto).
  destruct i; cbn [step fed_step snd]; try apply Hboth.
  - by apply spares_kept; [|apply spares_books].
  - by eapply disconnect_kept.
  - by eapply handle_kept.
  - by apply federation_kept.
  - rewrite pane_frame_screens by done. split.
    + destruct (pane_frame_shape pane0 seq w h full payload b) as [Hro _ _ _].
      intros q. rewrite Hro, pane_frame_screens by done. intros Hq.
      case_decide as Hv; [rewrite lookup_delete; case_decide; auto|].
      rewrite lookup_insert_ne; [auto|]. intros ->. apply Hv. unfold viewers_of, subscribers_of. rewrite Hq.
      apply set_eq. intros c. rewrite elem_of_filter, elem_of_empty. tauto.
    + destruct (decide (pane0 = pane)) as [->|Hne].
      * case_decide; [by rewrite lookup_delete_eq|]. rewrite lookup_insert_eq. by apply advance_drawn.
      * case_decide; [by rewrite lookup_delete_ne|by rewrite lookup_insert_ne].
  - by apply unclaimed_kept.
  - split; [|by apply route_closed_routed].
    apply closed_or_same_kept; [done|]. apply route_closed_or_same; [done|by right].
  - apply spares_kept; [done|apply downgraded_spares].
  - apply spares_kept; [done|]. unfold agent_cards_updated. case_bool_decide; [done|by apply spares_books].
Qed.
End fed.
