(* ===== verification/BrokerRender.v ===== *)
(** Rendering to viewers: the methods of the broker that send a screen, and the
    theorem that what viewers paint is the pane. *)

From S2P Require Import Prelude Model Config State Attention AgentMarks Aliases AgentCards.
From S2P Require Import Screen ScreenFacts Operation Protocol Broker BrokerInv BrokerScreens.

Section render.
Context `{Vt100Laws}.
Implicit Types (b : Broker) (c : ClientId) (pane : PaneId) (sub : PaneSubscription).

Definition but (X : ClientId → PaneId → Prop) c pane : ClientId → PaneId → Prop :=
  λ c' pane', X c' pane' ∧ ¬ (c' = c ∧ pane' = pane).

(** Sending a viewer the newest screen of its pane makes it current. *)
Lemma send_view X n c pane sub s b h :
  view_inv_but X n b h → subscription b c pane = Some sub →
  sub_representation sub = AsScreen → screens b !! pane = Some s →
  sub_sent sub ≠ Some (sequence (sc_last s)) →
  length (sub_outstanding sub) < MAX_OUTSTANDING_SCREEN_UPDATES →
  view_inv_but (but X c pane) n
    (alter_client (alter_sub (sent_update (sequence (sc_last s))) pane) c b)
    (<[(c, pane) := sc_last s]> h).
Proof.
  intros [H1 H2 H3 H4] Hsub Hrep Hs Hne Hlen. set (q := sequence (sc_last s)) in *.
  assert (queue_ok q sub) as Hq
    by (specialize (H1 c pane sub Hsub); unfold sub_ok in H1; rewrite Hrep, Hs in H1; done).
  split; cbn [screens alter_client set_clients].
  - intros c' pane' sub'. rewrite subscription_alter_sub. case_decide as E; [|apply H1].
    destruct E as [-> ->]. rewrite Hsub. intros [= <-]. unfold sub_ok. simpl. rewrite Hrep, Hs.
    by apply sent_update_ok.
  - exact H2.
  - intros c' pane' sub' q'. rewrite subscription_alter_sub.
    destruct (decide (c = c' ∧ pane = pane')) as [[<- <-]|E].
    + rewrite Hsub. intros [= <-] [= <-]. rewrite lookup_insert_eq. exists (sc_last s).
      split; [done|split; [done|]]. intros st Hst _. congruence.
    + rewrite lookup_insert_ne by naive_solver. apply H3.
  - intros c' pane' sub' s' HX. rewrite subscription_alter_sub.
    destruct (decide (c = c' ∧ pane = pane')) as [[<- <-]|E].
    + rewrite Hsub. intros [= <-] _ Hs'. left. by assert (s' = s) as -> by congruence.
    + intros Hsub'. apply (H4 c' pane' sub' s'); [|done]. intros HX'. apply HX. split; [done|]. naive_solver.
Qed.

(** ** A frame *)

Lemma advance_spec w0 h0 full payload s n :
  (sequence (sc_last s) ≤ n)%N → (n < u64_max)%N → snapshot_wf (sc_last s) →
  let '(s', rd) := advance w0 h0 full payload s in
  rd_screen rd = sc_last s' ∧ snapshot_wf (sc_last s') ∧
  if rd_changed rd
  then sequence (sc_last s') = (sequence (sc_last s) + 1)%N ∧
       rd_diff rd = between (sc_last s) (sc_last s')
  else sc_last s' = sc_last s ∧ rd_diff rd = None.
Proof.
  intros Hseq Hn Hwf. unfold advance.
  destruct (screen_size (parser_screen (sc_parser s))) as [r cc].
  set (parser := parser_process _ _). rewrite u64_wrapping_add_small by lia.
  destruct (same_screen _ _); cbn; [done|].
  split; [done|split; [apply snapshot_of_wf|split; [apply snapshot_of_sequence|done]]].
Qed.

(** What the viewers still waiting for their turn satisfy: those a difference
    applies to hold the screen it starts from. *)
Record ready pane (rd : Rendered) (l : list ClientId) b (h : replica) : Prop := {
  rdy_rep : ∀ c sub, c ∈ l → subscription b c pane = Some sub → sub_representation sub = AsScreen;
  rdy_new : ∀ c sub, c ∈ l → subscription b c pane = Some sub → rd_changed rd = true →
    sub_sent sub ≠ Some (sequence (rd_screen rd));
  rdy_diff : ∀ c sub d, c ∈ l → subscription b c pane = Some sub → rd_diff rd = Some d →
    sub_sent sub = Some (follows d) →
    ∃ s0, h !! (c, pane) = Some s0 ∧ apply d s0 = (rd_screen rd, Ok ());
}.

Lemma render_one_view X n pane rd s c l w h0 h :
  NoDup (c :: l) → deliver w.2 h0 = Some h → view_inv_but X n w.1 h →
  screens w.1 !! pane = Some s → rd_screen rd = sc_last s → ready pane rd (c :: l) w.1 h →
  ∃ h', deliver (render_one pane rd w c).2 h0 = Some h' ∧
    view_inv_but (but X c pane) n (render_one pane rd w c).1 h' ∧
    screens (render_one pane rd w c).1 !! pane = Some s ∧
    ready pane rd l (render_one pane rd w c).1 h'.
Proof.
  intros Hnd Hdel Hv Hscr Hlast Hrdy. destruct w as [b effects]. cbn [fst snd] in *.
  assert (ready pane rd l b h) as Hrest
    by (destruct Hrdy as [R1 R2 R3]; split; intros c' sub;
        [intros Hc'; apply R1|intros Hc'; apply R2|intros d Hc'; apply R3]; by right).
  assert (∀ sub, subscription b c pane = Some sub → sub_representation sub = AsScreen → screens b !! pane = Some s →
    sub_sent sub = Some (sequence (sc_last s)) ∨
    length (sub_outstanding sub) = MAX_OUTSTANDING_SCREEN_UPDATES → view_inv_but (but X c pane) n b h) as Hskip.
  { intros sub Hsub _ _ Hcur. destruct Hv as [H1 H2 H3 H4]. split; try done.
    intros c' pane' sub' s' HX Hsub' Hrep' Hs'. destruct (decide (c' = c ∧ pane' = pane)) as [[-> ->]|Hne].
    - assert (sub' = sub) as -> by congruence. assert (s' = s) as -> by congruence. done.
    - apply (H4 c' pane'); try done. intros HX'. by apply HX. }
  unfold render_one. destruct (subscription b c pane) as [sub|] eqn:Hsub; cbn [fst snd].
  2:{ exists h. split; [done|split; [|done]]. destruct Hv as [H1 H2 H3 H4]. split; try done.
      intros c' pane' sub' s' HX Hsub'. apply (H4 c' pane' sub' s'); [|done]. intros HX'. apply HX. split; [done|].
      intros [-> ->]. congruence. }
  assert (sub_representation sub = AsScreen) as Hrep by (eapply (rdy_rep _ _ _ _ _ Hrdy c); [left|done]).
  assert (queue_ok (sequence (sc_last s)) sub) as Hq
    by (pose proof (vi_sub _ _ _ _ Hv c pane sub Hsub) as Ho; unfold sub_ok in Ho; by rewrite Hrep, Hscr in Ho).
  destruct (negb (rd_changed rd) && _) eqn:E1; cbn [fst snd].
  { exists h. split; [done|split; [|done]]. apply andb_true_iff in E1 as [_ E1%bool_decide_eq_true].
    eapply Hskip; try done. left. congruence. }
  destruct (MAX_OUTSTANDING_SCREEN_UPDATES <=? length (sub_outstanding sub)) eqn:E2; cbn [fst snd].
  { exists h. split; [done|split; [|done]]. apply Nat.leb_le in E2. eapply Hskip; try done. right.
    pose proof (q_length _ _ Hq). lia. }
  apply Nat.leb_gt in E2. rewrite Hlast in *.
  assert (sub_sent sub ≠ Some (sequence (sc_last s))) as Hne.
  { destruct (rd_changed rd) eqn:Ec; simpl in E1; [|by apply bool_decide_eq_false in E1].
    rewrite <-Hlast. eapply (rdy_new _ _ _ _ _ Hrdy c); [left|done|done]. }
  assert (paint h (Send c (update_for sub pane rd)) = Some (<[(c, pane) := sc_last s]> h)) as Hpaint.
  { unfold update_for. destruct (rd_diff rd) as [d|] eqn:Ed; [|by rewrite Hlast].
    destruct (sub_sent sub) as [q|] eqn:Eq; [|by rewrite Hlast].
    destruct (q =? follows d)%N eqn:Ef; [|by rewrite Hlast]. apply N.eqb_eq in Ef as ->.
    destruct (rdy_diff _ _ _ _ _ Hrdy c sub d) as (s0 & Hs0 & Happ); [left|done|done|done|].
    simpl. rewrite Hs0; simpl. by rewrite Happ, Hlast. }
  exists (<[(c, pane) := sc_last s]> h). split; [|split; [|split; [done|]]].
  - rewrite deliver_app, Hdel. cbn [deliver mbind option_bind]. rewrite Hpaint. done.
  - by apply (send_view X n c pane sub).
  - apply NoDup_cons in Hnd as [Hno _]. destruct Hrest as [R1 R2 R3].
    assert (∀ c' sub', c' ∈ l → subscription (alter_client (alter_sub (sent_update (sequence (sc_last s))) pane) c b)
      c' pane = Some sub' → c' ≠ c ∧ subscription b c' pane = Some sub') as Hother.
    { intros c' sub' Hc'. rewrite subscription_alter_sub. assert (c' ≠ c) by congruence.
      rewrite decide_False by naive_solver. done. }
    split.
    + intros c' sub' Hc' Hs'. destruct (Hother c' sub' Hc' Hs'). eauto.
    + intros c' sub' Hc' Hs'. destruct (Hother c' sub' Hc' Hs'). eauto.
    + intros c' sub' d Hc' Hs' Hd Hf. destruct (Hother c' sub' Hc' Hs') as [Hcc Hs''].
      rewrite lookup_insert_ne by naive_solver. eauto.
Qed.

Lemma render_all_view n pane rd s h0 l : ∀ X w h,
  NoDup l → deliver w.2 h0 = Some h → view_inv_but X n w.1 h →
  (∀ c p, X c p → p = pane ∧ c ∈ l) →
  screens w.1 !! pane = Some s → rd_screen rd = sc_last s → ready pane rd l w.1 h →
  ∃ h', deliver (foldl (render_one pane rd) w l).2 h0 = Some h' ∧
    view_inv n (foldl (render_one pane rd) w l).1 h'.
Proof.
  induction l as [|c l IH]; intros X w h Hnd Hdel Hv HX Hscr Hlast Hrdy; simpl.
  - exists h. split; [done|]. eapply view_inv_ext; [|exact Hv]. intros c p Hc.
    by destruct (HX c p Hc) as [_ ?%elem_of_nil].
  - destruct (render_one_view X n pane rd s c l w h0 h) as (h1 & Hd1 & Hv1 & Hs1 & Hr1); try done.
    apply NoDup_cons in Hnd as [_ Hnd]. apply (IH (but X c pane) _ h1); try done.
    intros c' p [HX' Hne]. destruct (HX c' p HX') as [-> [->|?]%elem_of_cons]; [|done]. naive_solver.
Qed.

(** A frame was fed to the pane's emulator: every viewer is behind. *)
Lemma install_screen_view n pane s rd b h (l : list ClientId) w0 h0 full payload :
  (n < u64_max)%N → view_inv n b h →
  (∀ c sub, c ∈ l → subscription b c pane = Some sub → sub_representation sub = AsScreen) →
  advance w0 h0 full payload (default (ScreenState_new w0 h0) (screens b !! pane)) = (s, rd) →
  view_inv_but (λ c p, p = pane ∧ is_Some (subscription b c pane) ∧ watches_screen b pane c = true) (n + 1)
    (set_screens b (<[pane := s]> (screens b))) h ∧
  rd_screen rd = sc_last s ∧ ready pane rd l (set_screens b (<[pane := s]> (screens b))) h.
Proof.
  intros Hn [H1 H2 H3 H4] Hl Hadv. set (old := default _ _) in *.
  assert ((sequence (sc_last old) ≤ n)%N ∧ snapshot_wf (sc_last old)) as [Hold Hwf].
  { unfold old. destruct (screens b !! pane) as [s0|] eqn:E; [by apply (H2 pane)|]. simpl.
    rewrite snapshot_of_sequence. split; [lia|apply snapshot_of_wf]. }
  pose proof (advance_spec w0 h0 full payload old n Hold Hn Hwf) as Hspec. rewrite Hadv in Hspec.
  destruct Hspec as (Hlast & Hwf' & Hch).
  assert (Hle : (sequence (sc_last old) ≤ sequence (sc_last s) ≤ n + 1)%N).
  { destruct (rd_changed rd); destruct Hch as [Hc _]; [lia|rewrite Hc; lia]. }
  (* What a viewer of the pane was sent, if anything, came from the old emulator. *)
  assert (Hsent : ∀ c sub q, subscription b c pane = Some sub → sub_sent sub = Some q →
    (q ≤ sequence (sc_last old))%N ∧ (q = sequence (sc_last old) → h !! (c, pane) = Some (sc_last old))).
  { intros c sub q Hs Hq. specialize (H1 c pane sub Hs). unfold sub_ok in H1. unfold old.
    destruct (screens b !! pane) as [s0|] eqn:Hs0; simpl.
    - destruct (sub_representation sub); [destruct H1; congruence|].
      split; [by apply (q_sent _ _ H1)|]. intros ->. destruct (H3 c pane sub _ Hs Hq) as (x & Hx & _ & Hcur).
      by rewrite Hx, (Hcur s0).
    - destruct (sub_representation sub); destruct H1; congruence. }
  split; [|split; [done|]]; [split; cbn [screens set_screens]|split].
  - intros c p sub Hs. change (subscription b c p = Some sub) in Hs. specialize (H1 c p sub Hs).
    rewrite lookup_insert. case_decide as E; [|done]. subst p. unfold sub_ok in *.
    destruct (sub_representation sub); [done|]. unfold old in Hle.
    destruct (screens b !! pane); simpl in *; [|by apply blank_queue_ok].
    eapply queue_ok_mono; [|exact H1]. lia.
  - intros p s' . rewrite lookup_insert. case_decide; [intros [= <-]; split; [lia|done]|].
    intros Hs'. destruct (H2 p s' Hs'). split; [lia|done].
  - intros c p sub q Hs Hq. destruct (H3 c p sub q Hs Hq) as (x & Hx & Hseq & Hcur).
    exists x. split; [done|split; [done|]]. intros st. rewrite lookup_insert. case_decide; [|apply Hcur].
    subst p. intros [= <-] Heq. destruct (Hsent c sub q Hs Hq) as [Hq1 Hq2].
    destruct (rd_changed rd); destruct Hch as [Hc _]; [lia|].
    rewrite Hc in *. rewrite Hq2 in Hx by done. by injection Hx.
  - intros c p sub s' HX Hs Hrep. rewrite lookup_insert. case_decide; [|exact (H4 c p sub s' (λ f, f) Hs Hrep)].
    subst p. exfalso. apply HX. change (subscription b c pane = Some sub) in Hs.
    split; [done|split; [by eauto|]]. unfold watches_screen, representation_of. rewrite Hs.
    by apply bool_decide_eq_true.
  - exact Hl.
  - intros c sub _ Hs Hc Hq. rewrite Hc in Hch. destruct Hch as [Hc' _].
    destruct (Hsent c sub _ Hs Hq) as [? _]. rewrite Hlast in *. lia.
  - intros c sub d _ Hs Hd Hq. destruct (rd_changed rd); [|by destruct Hch as [_ ?]; congruence].
    destruct Hch as [_ Hd']. rewrite Hd in Hd'. symmetry in Hd'.
    assert (follows d = sequence (sc_last old)) as Hf.
    { unfold between in Hd'. destruct (_ || _); [done|]. by injection Hd' as <-. }
    destruct (Hsent c sub _ Hs Hq) as [_ Hx]. exists (sc_last old). split; [by apply Hx|].
    rewrite Hlast. by apply between_apply.
Qed.

Lemma representation_of_screen b c pane sub :
  subscription b c pane = Some sub → watches_screen b pane c = true → sub_representation sub = AsScreen.
Proof. unfold watches_screen, representation_of. intros ->. by intros ?%bool_decide_eq_true. Qed.

Lemma pane_frame_view n pane q w0 h0 full payload b h :
  (n < u64_max)%N → broker_inv n b → view_inv n b h →
  ∃ h', deliver (pane_frame pane q w0 h0 full payload b).2 h = Some h' ∧
    view_inv (n + 1) (pane_frame pane q w0 h0 full payload b).1 h'.
Proof.
  intros Hn Hinv Hv. assert (view_inv (n + 1) b h) as Hv1 by (eapply view_inv_mono; [|exact Hv]; lia).
  unfold pane_frame. destruct (routes b !! pane) as [r|] eqn:Hr; [|by exists h].
  set (subscribers := set_iter (rt_subscribers r)).
  set (frames := (λ c, Send c (PaneFrame _ _ _ _ _ _)) <$> _).
  assert (quiet frames) as Hframes by (by apply quiet_fmap).
  assert (NoDup (filter (λ c, watches_screen b pane c = true) subscribers)) as Hnd
    by (apply NoDup_filter, NoDup_set_iter).
  assert (∀ c, c ∈ filter (λ c, watches_screen b pane c = true) subscribers ↔
    watches_screen b pane c = true ∧ c ∈ rt_subscribers r) as Hin
    by (intros c; rewrite list_elem_of_filter; unfold subscribers; by rewrite elem_of_set_iter).
  destruct (filter (λ c, watches_screen b pane c = true) subscribers) as [|x l] eqn:El.
  - exists h. split; [by apply deliver_quiet|].
    eapply delete_screen_view; [exact Hinv|done|]. intros r' c Hr' Hc.
    assert (r' = r) as -> by congruence. destruct (watches_screen b pane c) eqn:Hw; [|done].
    exfalso. eapply elem_of_nil, Hin. eauto.
  - rewrite <-El in *. clear El x. set (lst := filter (λ c, watches_screen b pane c = true) subscribers) in *. unfold render_for.
    destruct (advance w0 h0 full payload (default (ScreenState_new w0 h0) (screens b !! pane)))
      as [s rd] eqn:Hadv.
    destruct (install_screen_view n pane s rd b h lst w0 h0 full payload) as (Hv' & Hlast & Hrdy); try done.
    { intros c sub [Hw _]%Hin Hs. by eapply representation_of_screen. }
    destruct (render_all_view (n + 1) pane rd s h lst _ (set_screens b (<[pane:=s]> (screens b)), []) h
      Hnd eq_refl Hv') as (h' & Hd & Hv''); try done.
    + intros c p (-> & [sub Hsub] & Hw). split; [done|]. apply Hin. split; [done|].
      destruct (proj2 (inv_subs _ _ _ Hinv c pane) (or_introl (ex_intro _ sub Hsub))) as (r' & Hr' & Hc).
      congruence.
    + simpl. apply lookup_insert_eq.
    + destruct (foldl _ _ lst) as [b' effects]. cbn [fst snd] in *. exists h'. split; [|done].
      rewrite deliver_app, deliver_quiet by done. done.
Qed.

(** ** An acknowledgement *)

Lemma settle_suffix q l : ∃ k, l = k ++ settle q l ∧ ∀ x, x ∈ k → (x ≤ q)%N.
Proof.
  induction l as [|x l (k & IH & Hk)]; simpl; [exists []; split; [done|by intros x ?%elem_of_nil]|].
  destruct (x <=? q)%N eqn:E; [|exists []; split; [done|by intros y ?%elem_of_nil]].
  apply N.leb_le in E. exists (x :: k). split; [by rewrite IH at 1|].
  intros y [->|Hy]%elem_of_cons; [done|by apply Hk].
Qed.

Lemma settle_above q l : StronglySorted N.lt l → ∀ x, x ∈ settle q l → (q < x)%N.
Proof.
  induction 1 as [|y l Hs IH Hy]; simpl; [by intros x ?%elem_of_nil|].
  destruct (y <=? q)%N eqn:E; [done|]. apply N.leb_gt in E. rewrite Forall_forall in Hy.
  intros x [->|Hx]%elem_of_cons; [done|]. specialize (Hy x Hx). simpl in Hy. lia.
Qed.

Lemma settle_shorter q l : StronglySorted N.lt l → q ∈ l → length (settle q l) < length l.
Proof.
  intros Hs Hq. destruct (settle_suffix q l) as ([|x k] & Hl & _).
  - simpl in Hl. rewrite Hl in Hq. apply settle_above in Hq; [lia|done].
  - rewrite Hl at 2. simpl. rewrite length_app. lia.
Qed.

Lemma settle_queue_ok last q sub :
  queue_ok last sub → queue_ok last (set_outstanding (settle q (sub_outstanding sub)) sub).
Proof.
  intros [H1 H2 H3 H4]. destruct (settle_suffix q (sub_outstanding sub)) as (k & Hl & _).
  split; cbn [set_outstanding sub_sent sub_outstanding].
  - done.
  - rewrite Hl in H2. rewrite length_app in H2. lia.
  - eapply StronglySorted_suffix; [|exact H3]. by exists k.
  - intros x Hx. apply H4. rewrite Hl. apply elem_of_app. by right.
Qed.

(** The state between the two halves of [ack_pane_screen]. *)
Lemma settle_view n c pane q sub b h :
  view_inv n b h → subscription b c pane = Some sub →
  view_inv_but (λ c' pane', c' = c ∧ pane' = pane) n
    (alter_client (alter_sub (λ _, set_outstanding (settle q (sub_outstanding sub)) sub) pane) c b) h.
Proof.
  intros [H1 H2 H3 H4] Hsub. split; cbn [screens alter_client set_clients].
  - intros c' pane' sub'. rewrite subscription_alter_sub. case_decide as E; [|apply H1].
    destruct E as [<- <-]. rewrite Hsub. intros [= <-]. specialize (H1 c pane sub Hsub).
    revert H1. unfold sub_ok, blank_sub. simpl. destruct (sub_representation sub).
    + intros [-> ->]. done.
    + destruct (screens b !! pane); [apply settle_queue_ok|]. by intros [-> ->].
  - exact H2.
  - intros c' pane' sub' q'. rewrite subscription_alter_sub. case_decide as E; [|apply H3].
    destruct E as [<- <-]. rewrite Hsub. intros [= <-]. by apply (H3 c pane sub).
  - intros c' pane' sub' s' HX. rewrite subscription_alter_sub. rewrite decide_False by naive_solver.
    intros Hs'. by apply (H4 c' pane' sub' s' (λ f, f)).
Qed.

(** An acknowledgement of an update in flight leaves the viewer current. *)
Lemma ack_view n c pane q b h :
  view_inv n b h →
  ∃ h', deliver (ack_pane_screen c pane q b).2 h = Some h' ∧
    view_inv n (ack_pane_screen c pane q b).1 h' ∧
    ∀ sub s, subscription b c pane = Some sub → q ∈ sub_outstanding sub →
      screens b !! pane = Some s →
      h' !! (c, pane) = Some (sc_last s) ∧ screens (ack_pane_screen c pane q b).1 !! pane = Some s ∧
      ∃ sub', subscription (ack_pane_screen c pane q b).1 c pane = Some sub' ∧
        sub_sent sub' = Some (sequence (sc_last s)) ∧
        length (sub_outstanding sub') ≤ length (sub_outstanding sub) ∧
        ∀ x, x ∈ sub_outstanding sub' → (q < x)%N ∨ x = sequence (sc_last s).
Proof.
  intros Hv. unfold ack_pane_screen. destruct (subscription b c pane) as [sub|] eqn:Hsub.
  2:{ exists h. split; [done|split; [done|]]. by intros. }
  case_bool_decide as Hin; cbn [negb].
  2:{ exists h. split; [done|split; [done|]]. intros sub' s [= <-]. done. }
  pose proof (settle_view n c pane q sub b h Hv Hsub) as Hv'.
  set (sub' := set_outstanding _ sub) in *.
  set (b' := alter_client (alter_sub (λ _, sub') pane) c b) in *.
  assert (subscription b' c pane = Some sub') as Hsub'
    by (unfold b'; rewrite subscription_alter_sub, decide_True, Hsub by done; done).
  pose proof (vi_sub _ _ _ _ Hv c pane sub Hsub) as Hok. unfold sub_ok, blank_sub in Hok.
  destruct (sub_representation sub) eqn:Hrep.
  { destruct Hok as [_ Hok]. rewrite Hok in Hin. by apply elem_of_nil in Hin. }
  destruct (screens b !! pane) as [s|] eqn:Hs.
  2:{ destruct Hok as [_ Hok]. rewrite Hok in Hin. by apply elem_of_nil in Hin. }
  pose proof (settle_shorter q _ (q_sorted _ _ Hok) Hin) as Hshort.
  pose proof (q_length _ _ Hok) as Hlen.
  assert ((MAX_OUTSTANDING_SCREEN_UPDATES <=? length (sub_outstanding sub')) = false) as ->
    by (apply Nat.leb_gt; simpl; lia).
  rewrite orb_false_r. case_bool_decide as Hcur; cbn [fst snd].
  - exists h. split; [done|split].
    + destruct Hv' as [H1 H2 H3 H4]. split; try done.
      intros c' pane' sub1 s1 _ Hs1 Hr1 Hsc1. destruct (decide (c' = c ∧ pane' = pane)) as [[-> ->]|Hne].
      * left. assert (sub1 = sub') as -> by congruence. assert (s1 = s) as -> by (change (screens b') with (screens b) in Hsc1; congruence). done.
      * by apply (H4 c' pane').
    + intros sub1 s1 [= <-] _ [= <-]. split; [|split; [done|]].
      * destruct (vi_held _ _ _ _ Hv' c pane sub' _ Hsub' Hcur) as (x & Hx & _ & Heq).
        by rewrite Hx, (Heq s).
      * exists sub'. split; [done|split; [done|split; [simpl; lia|]]]. intros x Hx. left.
        by apply (settle_above q _ (q_sorted _ _ Hok)).
  - exists (<[(c, pane) := sc_last s]> h). split; [|split].
    + unfold update_for. cbn [rd_diff rd_screen]. by destruct (sub_sent sub').
    + eapply view_inv_ext; [|apply (send_view _ n c pane sub' s b' h Hv' Hsub')]; try done; [|simpl; lia].
      intros c' pane' [HX Hne]. by apply Hne.
    + intros sub1 s1 [= <-] _ [= <-]. split; [apply lookup_insert_eq|split; [done|]].
      exists (sent_update (sequence (sc_last s)) sub').
      rewrite subscription_alter_sub, decide_True, Hsub' by done.
      split; [done|split; [done|split]].
      * simpl. rewrite length_app. simpl. lia.
      * intros x [Hx|Hx%list_elem_of_singleton]%elem_of_app; [left|by right].
        by apply (settle_above q _ (q_sorted _ _ Hok)).
Qed.

(** ** A subscription *)

Lemma grant_quiet c pane access cols rows0 b : quiet (grant c pane access cols rows0 b).1.2.
Proof.
  unfold grant. destruct (routes b !! pane); [|by repeat constructor].
  destruct (_ && _); [|destruct (bool_decide _); constructor].
  unfold resize_for_control. destruct (_ && _); by repeat constructor.
Qed.

Lemma new_subscription_view n c pane sub b h :
  is_Some (clients b !! c) → blank_sub sub → view_inv n b h →
  view_inv_but (λ c' pane', c' = c ∧ pane' = pane) n
    (alter_client (λ s, set_cl_panes (<[pane := sub]> (cl_panes s)) s) c b) h.
Proof.
  intros Hs Hb [H1 H2 H3 H4].
  destruct (add_subscription c pane sub b Hs) as (_ & _ & _ & _ & S & _). cbn zeta in S.
  set (b1 := alter_client _ c b) in *. split; try done.
  - intros c' pane' sub'. rewrite S. case_decide; [|apply H1]. intros [= <-]. by apply blank_sub_ok.
  - intros c' pane' sub' q. rewrite S. case_decide; [|apply H3]. intros [= <-]. destruct Hb. congruence.
  - intros c' pane' sub' s' HX. rewrite S. rewrite decide_False by done.
    apply (H4 c' pane' sub' s' (λ f, f)).
Qed.

Lemma subscribe_view n c pane access cols rows0 rep b h :
  view_inv n b h →
  ∃ h', deliver (subscribe_pane c pane access cols rows0 rep b).2 h = Some h' ∧
    view_inv n (subscribe_pane c pane access cols rows0 rep b).1 h'.
Proof.
  intros Hv. unfold subscribe_pane. destruct (clients b !! c) as [s|] eqn:Hs; [|by exists h].
  set (sub := new_subscription access cols rows0 rep).
  destruct (add_subscription c pane sub b) as (_ & _ & _ & _ & S & _); [eauto|]. cbn zeta in S.
  pose proof (new_subscription_view n c pane sub b h (ex_intro _ s Hs) (conj eq_refl eq_refl) Hv) as Hv1.
  set (b1 := alter_client _ c b) in *.
  pose proof (grant_spec c pane access cols rows0 b1) as Hgrant.
  pose proof (grant_quiet c pane access cols rows0 b1) as Hq.
  destruct (grant c pane access cols rows0 b1) as [[b2 effects] granted]. cbn [fst snd] in Hq.
  destruct Hgrant as (r' & -> & _). apply (put_route_view _ n pane r') in Hv1.
  assert (subscription (put_route pane r' b1) c pane = Some sub) as Hsub
    by (change (subscription b1 c pane = Some sub); by rewrite S, decide_True).
  set (b2 := put_route pane r' b1) in *.
  assert (∀ shown h', deliver shown h = Some h' →
    deliver (effects ++ shown ++ [Send c (PaneLease pane granted)]) h = Some h') as Hdel.
  { intros shown h' Hd. rewrite deliver_app, deliver_quiet by done. simpl.
    by rewrite deliver_app, Hd. }
  assert (sub_representation sub = AsScreen → screens b2 !! pane = None → view_inv n b2 h) as Hnone.
  { intros _ Hsc. destruct Hv1 as [H1 H2 H3 H4]. split; try done. intros c' pane' sub' s' _ Hs' Hr Hscr.
    apply (H4 c' pane' sub' s'); [|done..]. intros [-> ->]. congruence. }
  assert (rep ≠ AsScreen → view_inv n b2 h) as Hother.
  { intros Hrep. destruct Hv1 as [H1 H2 H3 H4]. split; try done. intros c' pane' sub' s' _ Hs' Hr Hscr.
    apply (H4 c' pane' sub' s'); [|done..]. intros [-> ->]. rewrite Hsub in Hs'. injection Hs' as <-. done. }
  unfold first_screen. destruct (screens b2 !! pane) as [st|] eqn:Hst; [case_bool_decide as Hrep|]; cbn [fst snd].
  - eexists. split; [by apply Hdel|].
    eapply view_inv_ext; [|apply (send_view _ n c pane sub st b2 h Hv1 Hsub Hrep Hst)]; [|done|simpl].
    + intros c' pane' [HX Hne]. by apply Hne.
    + unfold MAX_OUTSTANDING_SCREEN_UPDATES. apply le_n_S, Nat.le_0_l.
  - exists h. split; [by apply Hdel|by apply Hother].
  - exists h. split; [by apply Hdel|]. destruct rep; [by apply Hother|by apply Hnone].
Qed.

(** ** Every input *)

Lemma pane_route_closed_quiet pane b : quiet (pane_route_closed pane b).2.
Proof. unfold pane_route_closed. destruct (routes b !! pane); [|constructor]. by apply quiet_fmap. Qed.

Lemma federation_quiet st b : quiet (federation_updated st b).2.
Proof.
  unfold federation_updated, close_vanished_routes.
  pose proof (each_effects pane_route_closed quiet
    (filter (λ pane, pane_is_gone (state (set_state b st)) pane = true) (keys (routes (set_state b st))))
    (set_state b st, [])) as Heach.
  destruct (each _ _ _) as [b' closed]. cbn [snd] in *. apply quiet_app.
  - apply Forall_forall. intros e (m & Hm & Hin)%list_elem_of_bind.
    unfold broadcast_state in Hm. apply list_elem_of_fmap in Hm as (c & -> & _).
    unfold federation_changes in Hin. apply elem_of_app in Hin as [Hin|Hin];
      apply list_elem_of_omap in Hin as (? & _ & Hin); by case_match; simplify_eq.
  - apply Heach; [constructor|]. intros pane b0 es Hes. apply quiet_app; [done|apply pane_route_closed_quiet].
Qed.

Lemma take_control_quiet c pane free b : quiet (take_control c pane free b).2.
Proof.
  unfold take_control. destruct (clients b !! c) as [s|]; [|constructor].
  destruct (cl_panes s !! pane) as [sub|]; [|by repeat constructor].
  destruct (routes b !! pane) as [r|]; [|constructor].
  destruct (bool_decide _); [constructor|]. destruct (free && _); [by repeat constructor|].
  unfold resize_for_control.
  destruct (_ && _), (bool_decide (rt_access _ = _)), (rt_control r); by repeat constructor.
Qed.

Lemma leased_quiet c pane b l : quiet l → quiet (leased c pane b l).
Proof. unfold leased. destruct (holds_control _ _ _); [done|by repeat constructor]. Qed.

Lemma guarded_quiet c message b : quiet (guarded c message b).
Proof. destruct message; try constructor; repeat apply leased_quiet; by repeat constructor. Qed.

Lemma forwarded_quiet c message : quiet (forwarded c message).
Proof. destruct message; by repeat constructor. Qed.

(** A method that paints nothing and keeps the invariant. *)
Lemma quiet_step n (r : Broker * list Effect) h :
  quiet r.2 → view_inv n r.1 h → ∃ h', deliver r.2 h = Some h' ∧ view_inv n r.1 h'.
Proof. intros Hq Hv. exists h. split; [by apply deliver_quiet|done]. Qed.

Lemma dispatch_view n m c message b h :
  broker_inv n b → view_inv m b h →
  ∃ h', deliver (dispatch c message b).2 h = Some h' ∧ view_inv m (dispatch c message b).1 h'.
Proof.
  intros Hinv Hv. destruct message; cbn [dispatch];
    try (apply quiet_step; [first [apply guarded_quiet|apply forwarded_quiet|by repeat constructor]
                           |first [exact Hv|by apply alter_flags_view]]).
  - by apply subscribe_view.
  - destruct (ack_view m c pane sequence b h Hv) as (h' & ? & ? & _). eauto.
  - apply quiet_step; [|by eapply unsubscribe_view]. unfold unsubscribe_pane.
    destruct (subscription b c pane); [apply release_pane_quiet|constructor].
  - apply quiet_step; [apply take_control_quiet|by apply take_control_view].
  - apply quiet_step; [|by apply resize_pane_view]. unfold resize_pane.
    destruct (holds_control c pane b); by repeat constructor.
  - apply quiet_step; [|by apply alter_flags_view]. cbn. destruct (agent_cards b); by repeat constructor.
Qed.

Lemma step_view n i b h :
  (n < u64_max)%N → broker_inv n b → view_inv n b h →
  ∃ h', deliver (step i b).2 h = Some h' ∧ view_inv (n + 1) (step i b).1 h'.
Proof.
  intros Hn Hinv Hv. assert (view_inv (n + 1) b h) as Hv1 by (eapply view_inv_mono; [|exact Hv]; lia).
  destruct i; cbn [step].
  - apply quiet_step; [constructor|]. by eapply connect_view.
  - apply quiet_step; [apply disconnect_quiet|by eapply disconnect_view].
  - unfold handle. destruct (clients b !! c) as [s|]; [|by exists h]. destruct (cl_greeted s).
    + by eapply dispatch_view.
    + apply quiet_step; unfold handshake; destruct message; try destruct (_ =? _)%N;
        try done; try (by repeat constructor); by apply alter_flags_view.
  - apply quiet_step; [apply federation_quiet|by eapply federation_view].
  - by apply pane_frame_view.
  - apply quiet_step; [|by eapply unclaimed_view]. unfold close_if_unclaimed.
    destruct (routes b !! pane) as [r|]; [|constructor]. destruct (rt_unclaimed r); by repeat constructor.
  - apply quiet_step; [apply pane_route_closed_quiet|by eapply route_closed_view].
  - apply quiet_step.
    + unfold route_downgraded. destruct (routes b !! pane); [|constructor].
      destruct (_ && _); [constructor|by apply quiet_fmap].
    + unfold route_downgraded. destruct (routes b !! pane) as [r|] eqn:Hr; [|done].
      destruct (_ && _); [done|]. cbn [fst]. rewrite (alter_route_put _ _ r) by done. by apply put_route_view.
  - apply quiet_step; unfold agent_cards_updated; case_bool_decide; try done; [constructor|by apply quiet_fmap|].
    revert Hv1. by apply view_same.
Qed.

Lemma new_view v fs qs : view_inv 0 (Broker_new v fs qs) ∅.
Proof.
  split; try done; intros c pane sub; unfold subscription; simpl; rewrite lookup_empty; try done.
Qed.
End render.
