(* ===== verification/BrokerFacts.v ===== *)
(** What the broker guarantees in every reachable state: viewers hold the pane,
    the books agree, and only the holder of a lease acts on a pane. *)

From S2P Require Import Prelude Model Config State Attention AgentMarks Aliases AgentCards.
From S2P Require Import Screen ScreenFacts Operation Protocol Broker BrokerInv BrokerScreens.
From S2P Require Import BrokerRender Examples.
Import Teletype.

Section facts.
Context `{Vt100}.
Context (v : ustr) (fs : list ustr) (qs : list QuickReply).
Implicit Types (b : Broker) (c : ClientId) (pane : PaneId).

(** The broker and the effects after a sequence of inputs to a new one. *)
Definition reached (inputs : list input) : Broker * list Effect :=
  run inputs (Broker_new v fs qs, []).

Lemma run_snoc inputs i w :
  run (inputs ++ [i]) w =
  let w' := run inputs w in ((step i w'.1).1, w'.2 ++ (step i w'.1).2).
Proof. unfold run, each. rewrite foldl_app. simpl. by destruct (step i _). Qed.

Lemma reached_snoc inputs i :
  reached (inputs ++ [i]) =
  ((step i (reached inputs).1).1, (reached inputs).2 ++ (step i (reached inputs).1).2).
Proof. apply run_snoc. Qed.

(** An invariant of the broker and the effects so far, by induction on a run. *)
Lemma reached_ind (P : Broker → list Effect → Prop) :
  P (Broker_new v fs qs) [] →
  (∀ n i b es, (n < u64_max)%N → broker_inv n b → P b es → P (step i b).1 (es ++ (step i b).2)) →
  ∀ inputs, (N.of_nat (length inputs) ≤ u64_max)%N →
    broker_inv (N.of_nat (length inputs)) (reached inputs).1 ∧
    P (reached inputs).1 (reached inputs).2.
Proof.
  intros H0 Hstep inputs. induction inputs as [|i inputs IH] using rev_ind; intros Hlen.
  - split; [apply new_inv|exact H0].
  - rewrite length_app in Hlen. simpl in Hlen. destruct IH as [Hinv HP]; [lia|].
    rewrite reached_snoc. cbn [fst snd].
    assert (N.of_nat (length inputs) < u64_max)%N as Hlt by lia.
    split; [|by eapply Hstep].
    rewrite length_app. replace (N.of_nat (length inputs + length [i])) with (N.of_nat (length inputs) + 1)%N
      by (simpl; lia).
    by apply step_inv.
Qed.

Lemma reached_inv inputs :
  (N.of_nat (length inputs) ≤ u64_max)%N →
  broker_inv (N.of_nat (length inputs)) (reached inputs).1.
Proof. intros Hlen. by apply (reached_ind (λ _ _, True)). Qed.

(** ** The books *)

(** C6. The broker's books agree in every reachable state. A client has a
    subscription exactly where the route of the pane lists it; the holder of a
    lease is one of the subscribers; a route is up for closing exactly when it
    has no subscribers left; and a connection that was never greeted is
    subscribed to nothing. *)
Theorem bookkeeping_agrees (inputs : list input) :
  (N.of_nat (length inputs) ≤ u64_max)%N →
  let b := (reached inputs).1 in
  (∀ c pane, is_Some (subscription b c pane) ↔
    ∃ r, routes b !! pane = Some r ∧ c ∈ rt_subscribers r) ∧
  (∀ pane r c, routes b !! pane = Some r → rt_control r = Some c →
    is_Some (subscription b c pane)) ∧
  (∀ pane r, routes b !! pane = Some r → rt_unclaimed r = true ↔
    ∀ c, subscription b c pane = None) ∧
  ∀ c s, clients b !! c = Some s → cl_greeted s = false →
    s = Client_new ∧ ∀ pane r, routes b !! pane = Some r → c ∉ rt_subscribers r.
Proof.
  intros Hlen b. pose proof (reached_inv inputs Hlen) as Hinv. fold b in Hinv.
  pose proof Hinv as [H1 H2 H3 H4 H5 H6 H7].
  assert (Hsub : ∀ c pane, is_Some (subscription b c pane) ↔ subscribed b c pane)
    by (intros c pane; rewrite H1; tauto).
  split; [exact Hsub|split; [|split]].
  - intros pane r c Hr Hc. apply Hsub. exists r. eauto.
  - intros pane r Hr. rewrite (H4 pane r Hr). split.
    + intros He c. apply eq_None_not_Some. rewrite Hsub. intros (r' & Hr' & Hin).
      assert (r' = r) as -> by congruence. set_solver.
    + intros Hno. apply elem_of_equiv_empty_L. intros c Hc.
      assert (is_Some (subscription b c pane)) as [? ?] by (apply Hsub; exists r; eauto).
      by rewrite Hno in *.
  - intros c s Hs Hg. destruct (H7 c s Hs Hg) as [Hf Hp]. split.
    + destruct s. unfold flags in Hf. simpl in *. simplify_eq. done.
    + intros pane r Hr Hin. assert (is_Some (subscription b c pane)) as [sub Hsub']
        by (apply Hsub; exists r; eauto).
      unfold subscription in Hsub'. rewrite Hs in Hsub'. simpl in Hsub'. by rewrite Hp in Hsub'.
Qed.
End facts.

Section viewers.
Context `{Vt100Laws}.
Context (v : ustr) (fs : list ustr) (qs : list QuickReply).
Implicit Types (c : ClientId) (pane : PaneId).

Abbreviation reached := (reached v fs qs).

(** What viewers have painted of everything the run sent. *)
Lemma reached_view inputs :
  (N.of_nat (length inputs) ≤ u64_max)%N →
  broker_inv (N.of_nat (length inputs)) (reached inputs).1 ∧
  ∃ h, deliver (reached inputs).2 ∅ = Some h ∧ view_inv (N.of_nat (length inputs)) (reached inputs).1 h.
Proof.
  induction inputs as [|i inputs IH] using rev_ind; intros Hlen.
  - split; [apply new_inv|]. exists ∅. split; [done|apply new_view].
  - rewrite length_app in *. simpl in Hlen.
    replace (N.of_nat (length inputs + length [i])) with (N.of_nat (length inputs) + 1)%N by (simpl; lia).
    destruct IH as (Hinv & h & Hd & Hv); [lia|]. rewrite reached_snoc. cbn [fst snd].
    assert (N.of_nat (length inputs) < u64_max)%N as Hlt by lia. split; [by apply step_inv|].
    destruct (step_view _ i _ h Hlt Hinv Hv) as (h' & Hd' & Hv'). exists h'. split; [|done].
    by rewrite deliver_app, Hd.
Qed.

(** What arrived for the pane since its emulator was last given up. *)
Definition frames_of pane (inputs : list input) : list PaintedFrame :=
  (foldl (fed_step pane) (Broker_new v fs qs, []) inputs).2.

Lemma frames_broker pane inputs : (foldl (fed_step pane) (Broker_new v fs qs, []) inputs).1 = (reached inputs).1.
Proof.
  induction inputs as [|i inputs IH] using rev_ind; [done|].
  rewrite foldl_app, reached_snoc. cbn [foldl fst]. rewrite <-IH. by destruct (foldl _ _ inputs).
Qed.

Lemma reached_drawn pane inputs :
  (N.of_nat (length inputs) ≤ u64_max)%N →
  routed (reached inputs).1 ∧ screen_drawn (frames_of pane inputs) (screens (reached inputs).1 !! pane).
Proof.
  induction inputs as [|i inputs IH] using rev_ind; intros Hlen; [by split|].
  rewrite length_app in Hlen. simpl in Hlen. destruct IH as [Hr Hd]; [lia|].
  unfold frames_of in *. rewrite foldl_app, reached_snoc. cbn [foldl fst].
  pose proof (frames_broker pane inputs) as Hb. destruct (foldl _ _ inputs) as [b l]. cbn [fst snd] in *. subst b.
  eapply fed_step_drawn; [|exact Hr|exact Hd]. apply reached_inv. lia.
Qed.

(** C1. What viewers paint is the pane. Whatever the order of connections,
    subscriptions, frames, acknowledgements and departures: the screen the broker
    keeps of a pane is exactly what an emulator shows that is fed, in order, the
    frames that arrived since the last one was given up (because the route
    closed, or the last viewer left a pane that others read as bytes, or a frame
    came that nobody viewed), starting afresh for a full frame and for a new
    size; there is no screen where there were no such frames. Every difference the broker sends applies to the screen
    its viewer holds; and a viewer of a pane either holds that screen of the
    emulator exactly, or has four updates in flight, in order and none newer
    than the screen, whose acknowledgement it owes. *)
Theorem replica_faithful (inputs : list input) :
  (N.of_nat (length inputs) ≤ u64_max)%N →
  let b := (reached inputs).1 in
  (∀ pane, match screens b !! pane with
           | Some s => ∃ p, emulated (frames_of pane inputs) = Some p ∧ sc_parser s = p ∧
               sc_last s = snapshot_of (parser_screen p) (sequence (sc_last s))
           | None => frames_of pane inputs = []
           end) ∧
  ∃ h, deliver (reached inputs).2 ∅ = Some h ∧
  ∀ c pane sub s, subscription b c pane = Some sub → sub_representation sub = AsScreen →
    screens b !! pane = Some s →
    length (sub_outstanding sub) ≤ MAX_OUTSTANDING_SCREEN_UPDATES ∧
    StronglySorted N.lt (sub_outstanding sub) ∧
    (∀ q, q ∈ sub_outstanding sub → (q ≤ sequence (sc_last s))%N) ∧
    (h !! (c, pane) = Some (sc_last s) ∨
     length (sub_outstanding sub) = MAX_OUTSTANDING_SCREEN_UPDATES).
Proof.
  intros Hlen. cbn zeta. split.
  { intros pane. destruct (reached_drawn pane inputs Hlen) as [_ Hd]. unfold screen_drawn in Hd.
    destruct (screens _ !! pane) as [s|]; [|done]. destruct Hd. by exists (sc_parser s). }
  destruct (reached_view inputs Hlen) as (_ & h & Hd & [H1 H2 H3 H4]).
  exists h. split; [done|]. intros c pane sub s Hsub Hrep Hs.
  pose proof (H1 c pane sub Hsub) as Hq. unfold sub_ok in Hq. rewrite Hrep, Hs in Hq.
  destruct Hq as [Q1 Q2 Q3 Q4]. split; [done|split; [done|split]].
  - intros q Hq. destruct (Q4 q Hq) as (x & Hx & ?). specialize (Q1 x Hx). lia.
  - destruct (H4 c pane sub s (λ f, f) Hsub Hrep Hs) as [Hcur|Hfull]; [left|by right].
    destruct (H3 c pane sub _ Hsub Hcur) as (x & Hx & _ & Heq). by rewrite Hx, (Heq s).
Qed.

(** An acknowledgement catches a viewer up. When a viewer acknowledges an
    update that is in flight, it ends holding the emulator's screen exactly, and
    nothing older than what it acknowledged is still counted against it: its
    queue has room again. *)
Theorem ack_catches_up (inputs : list input) c pane q sub s :
  (N.of_nat (length inputs) < u64_max)%N →
  let b := (reached inputs).1 in
  subscription b c pane = Some sub → q ∈ sub_outstanding sub → screens b !! pane = Some s →
  let '(b', es) := reached (inputs ++ [Message c (AckPaneScreen pane q)]) in
  screens b' !! pane = Some s ∧
  (∃ h, deliver es ∅ = Some h ∧ h !! (c, pane) = Some (sc_last s)) ∧
  ∃ sub', subscription b' c pane = Some sub' ∧ sub_sent sub' = Some (sequence (sc_last s)) ∧
    ∀ x, x ∈ sub_outstanding sub' → (q < x)%N ∨ x = sequence (sc_last s).
Proof.
  intros Hlen b Hsub Hin Hs. destruct (reached_view inputs) as (Hinv & h & Hd & Hv); [lia|].
  rewrite reached_snoc. fold b in Hinv, Hv |- *. cbn [step].
  assert (∃ s0, clients b !! c = Some s0 ∧ cl_greeted s0 = true) as (s0 & Hs0 & Hg).
  { unfold subscription in Hsub. destruct (clients b !! c) as [s0|] eqn:Hs0; [|done].
    exists s0. split; [done|]. destruct (cl_greeted s0) eqn:Hg; [done|]. exfalso.
    destruct (inv_greeted _ _ _ Hinv c s0 Hs0 Hg) as [_ Hp]. simpl in Hsub. by rewrite Hp in Hsub. }
  unfold handle. rewrite Hs0, Hg. cbn [dispatch].
  destruct (ack_view _ c pane q b h Hv) as (h' & Hd' & _ & Hack).
  destruct (Hack sub s Hsub Hin Hs) as (Hh' & Hsc & sub' & Hsub' & Hsent & _ & Hout).
  split; [exact Hsc|split].
  - exists h'. split; [|done]. by rewrite deliver_app, Hd.
  - exists sub'. done.
Qed.
End viewers.

(** ** Concrete runs

    Two clients on one pane: the first watches its screen, the second takes the
    lease. *)

Abbreviation ex_reached := (reached (u "0.1") [] []).

Definition hello (c : ClientId) : input := Message c (ClientHello PROTOCOL_VERSION (u "tui")).
Definition ex_frame (seq : N) (s : string) : input := Frame ex_pane seq 4 2 true (u s).
Definition ex_watch : list input :=
  [Connect; Connect; hello 0; hello 1;
   Message 0 (SubscribePane ex_pane Observe 4 2 AsScreen); ex_frame 1 "ab  cd"].

(** The viewer acknowledges nothing while five more frames arrive. *)
Definition ex_behind : list input :=
  ex_watch ++ [ex_frame 2 "ab  ce"; ex_frame 3 "ab  cf"; ex_frame 4 "ab  cg"; ex_frame 5 "ab  ch"].

Lemma bookkeeping_agrees_witness :
  (N.of_nat (length ex_watch) ≤ u64_max)%N ∧
  is_Some (subscription (ex_reached ex_watch).1 0%N ex_pane).
Proof.
  assert (N.of_nat (length ex_watch) ≤ u64_max)%N as Hlen by (vm_compute; discriminate).
  split; [exact Hlen|]. apply (proj1 (bookkeeping_agrees (u "0.1") [] [] ex_watch Hlen)).
  assert (routes (ex_reached ex_watch).1 !! ex_pane =
    Some {| rt_access := Observe; rt_cols := 4; rt_rows := 2; rt_control := None;
            rt_subscribers := {[0%N]}; rt_unclaimed := false |}) as Hr by (vm_compute; reflexivity).
  eexists. split; [exact Hr|]. set_solver.
Defined.

(** What the viewer holds after the run. *)
Definition ex_held (inputs : list input) : option (list (list Run)) :=
  h ← deliver (ex_reached inputs).2 ∅; rows <$> h !! (0%N, ex_pane).
Definition ex_outstanding (inputs : list input) : option (list N) :=
  sub_outstanding <$> subscription (ex_reached inputs).1 0%N ex_pane.

Lemma replica_faithful_witness :
  (N.of_nat (length ex_watch) ≤ u64_max)%N ∧
  ex_held ex_watch =
    (rows ∘ sc_last <$> screens (ex_reached ex_watch).1 !! ex_pane) ∧
  ex_outstanding ex_behind = Some [1; 2; 3; 4]%N ∧
  length (frames_of (u "0.1") [] [] ex_pane ex_behind) = 5 ∧
  is_Some (deliver (ex_reached ex_watch).2 ∅).
Proof.
  assert (N.of_nat (length ex_watch) ≤ u64_max)%N as Hlen by (vm_compute; discriminate).
  split; [exact Hlen|split; [vm_compute; reflexivity|split; [vm_compute; reflexivity|]]].
  split; [vm_compute; reflexivity|].
  destruct (replica_faithful (u "0.1") [] [] ex_watch Hlen) as (_ & h & Hh & _). by exists h.
Defined.

Lemma ack_catches_up_witness :
  ex_outstanding ex_behind = Some [1; 2; 3; 4]%N ∧
  ∃ sub', subscription (ex_reached (ex_behind ++ [Message 0 (AckPaneScreen ex_pane 2)])).1 0%N ex_pane
    = Some sub' ∧ sub_sent sub' = Some 5%N.
Proof.
  split; [vm_compute; reflexivity|].
  destruct (subscription (ex_reached ex_behind).1 0%N ex_pane) as [sub|] eqn:Hsub;
    [|vm_compute in Hsub; discriminate].
  destruct (screens (ex_reached ex_behind).1 !! ex_pane) as [s|] eqn:Hs;
    [|vm_compute in Hs; discriminate].
  assert ((sub_outstanding <$> subscription (ex_reached ex_behind).1 0%N ex_pane) = Some [1; 2; 3; 4]%N)
    as Hout by (vm_compute; reflexivity).
  assert ((sequence ∘ sc_last <$> screens (ex_reached ex_behind).1 !! ex_pane) = Some 5%N)
    as Hseq by (vm_compute; reflexivity).
  rewrite Hsub in Hout. injection Hout as Hout. rewrite Hs in Hseq. injection Hseq as Hseq.
  assert (N.of_nat (length ex_behind) < u64_max)%N as Hlen by (vm_compute; reflexivity).
  assert (2%N ∈ sub_outstanding sub) as Hin by (rewrite Hout; apply list_elem_of_further, list_elem_of_here).
  pose proof (ack_catches_up (u "0.1") [] [] ex_behind 0%N ex_pane 2%N sub s Hlen Hsub Hin Hs) as Hack.
  destruct (reached _ _ _ (ex_behind ++ _)) as [b' es].
  destruct Hack as (_ & _ & sub' & Hsub' & Hsent & _). exists sub'. split; [exact Hsub'|].
  rewrite Hsent. simpl in Hseq. by rewrite Hseq.
Defined.
