(* ===== verification/BrokerLeases.v ===== *)
(** Leases and routes: who may act on a pane, what subscribers are told of it,
    and what the terminal processes behind the routes are asked. *)

From S2P Require Import Prelude Model Config State Attention AgentMarks Aliases AgentCards.
From S2P Require Import Screen ScreenFacts Operation Protocol Broker BrokerInv BrokerScreens.
From S2P Require Import BrokerRender BrokerFacts Examples.

(** What subscribers were last told, and the terminal processes asked for. *)
Abbreviation leases := (gmap (N * PaneId) TerminalAccess).
Abbreviation processes := (gmap PaneId TerminalAccess).

Section leases.
Context `{Vt100}.
Implicit Types (b : Broker) (c : ClientId) (pane : PaneId) (e : Effect) (l : list Effect).

(** ** What each effect does *)

(** The panes whose lease an effect needs. *)
Definition acts_on e : list PaneId :=
  match e with
  | RouteInput pane _ | RouteScroll pane _ _ _ _ _ | DoPastePaneText _ _ pane _
  | DoBeginUpload _ _ pane _ _ _ | DoResumeUpload _ _ _ pane _ | DoBeginDownload _ _ pane _ => [pane]
  | DoTransferBetween _ _ source _ destination _ => [source; destination]
  | _ => []
  end.

Definition resizes e : option PaneId :=
  match e with RouteResize pane _ _ => Some pane | _ => None end.

(** What subscribers were last told of their lease. *)
Definition tell (t : leases) e : leases :=
  match e with
  | Send c (PaneLease pane access) => <[(c, pane) := access]> t
  | _ => t
  end.
Definition hear l (t : leases) : leases := foldl tell t l.

(** The terminal processes that were asked for, and with what access. *)
Definition serve (m : processes) e : processes :=
  match e with
  | OpenRoute pane access _ _ => <[pane := access]> m
  | CloseRoute pane => delete pane m
  | _ => m
  end.
Definition perform l (m : processes) : processes := foldl serve m l.

(** A method's effects, seen by both. *)
Lemma hear_app l1 l2 t : hear (l1 ++ l2) t = hear l2 (hear l1 t).
Proof. apply foldl_app. Qed.
Lemma perform_app l1 l2 m : perform (l1 ++ l2) m = perform l2 (perform l1 m).
Proof. apply foldl_app. Qed.

(** Effects that announce no lease and ask for no process. *)
Definition is_mute e : bool :=
  match e with
  | Send _ (PaneLease _ _) | OpenRoute _ _ _ _ | CloseRoute _ => false
  | _ => true
  end.
Definition mute l : Prop := Forall (λ e, is_mute e = true) l.

Lemma mute_hear l t : mute l → hear l t = t.
Proof.
  intros Hl. revert t. induction Hl as [|e l He Hl IH]; intros t; [done|]. simpl.
  assert (tell t e = t) as ->; [|apply IH].
  destruct e; try reflexivity. by destruct message.
Qed.
Lemma mute_perform l m : mute l → perform l m = m.
Proof.
  intros Hl. revert m. induction Hl as [|e l He Hl IH]; intros m; [done|]. simpl.
  assert (serve m e = m) as ->; [|apply IH]. by destruct e.
Qed.
Lemma mute_app l1 l2 : mute l1 → mute l2 → mute (l1 ++ l2).
Proof. apply Forall_app_2. Qed.
Lemma mute_fmap {A} (f : A → Effect) (k : list A) : (∀ a, is_mute (f a) = true) → mute (f <$> k).
Proof. intros Hf. apply Forall_fmap, Forall_true. done. Qed.

(** Effects that act on no pane. *)
Definition is_passive e : bool :=
  bool_decide (acts_on e = []) && bool_decide (resizes e = None).
Definition passive l : Prop := Forall (λ e, is_passive e = true) l.

Lemma passive_app l1 l2 : passive l1 → passive l2 → passive (l1 ++ l2).
Proof. apply Forall_app_2. Qed.
Lemma passive_fmap {A} (f : A → Effect) (k : list A) :
  (∀ a, is_passive (f a) = true) → passive (f <$> k).
Proof. intros Hf. apply Forall_fmap, Forall_true. done. Qed.

(** Telling every subscriber the same. *)
Lemma hear_all (access : TerminalAccess) pane (k : list ClientId) t c pane' :
  hear ((λ c, Send c (PaneLease pane access)) <$> k) t !! (c, pane') =
  if decide (c ∈ k ∧ pane' = pane) then Some access else t !! (c, pane').
Proof.
  revert t. induction k as [|x k IH]; intros t.
  - rewrite decide_False; [done|]. by intros [?%elem_of_nil _].
  - rewrite fmap_cons. unfold hear in *. cbn [foldl tell]. rewrite IH. destruct (decide (c ∈ k ∧ pane' = pane)) as [E|E].
    + rewrite decide_True; [done|]. split; [right|]; tauto.
    + destruct (decide (c ∈ x :: k ∧ pane' = pane)) as [[Hc ->]|E'].
      * apply elem_of_cons in Hc as [->|Hc]; [apply lookup_insert_eq|tauto].
      * rewrite lookup_insert_ne; [done|]. intros [= -> ->]. apply E'. split; [left|done].
Qed.

(** ** The invariants *)

Definition lease_of (r : Route) c : TerminalAccess :=
  if decide (rt_control r = Some c) then Control else Observe.

(** Every subscriber was last told what is true of its lease. *)
Definition told_ok b (t : leases) : Prop :=
  ∀ pane r c, routes b !! pane = Some r → c ∈ rt_subscribers r →
    t !! (c, pane) = Some (lease_of r c).

(** Behind every route there is the process it names. *)
Definition served_ok b (m : processes) : Prop :=
  ∀ pane r, routes b !! pane = Some r → m !! pane = Some (rt_access r).

Definition desk_ok b (t : leases) (m : processes) : Prop := told_ok b t ∧ served_ok b m.

(** What an input does to the processes before the broker hears of it. *)
Definition suffer (i : input) (m : processes) : processes :=
  match i with
  | RouteClosed pane => delete pane m
  | RouteDowngraded pane => alter (λ _, Observe) pane m
  | _ => m
  end.

Lemma desk_mute b b' l t m :
  mute l → routes b' ⊆ routes b → desk_ok b t m → desk_ok b' (hear l t) (perform l m).
Proof.
  intros Hl Hr [H1 H2]. rewrite mute_hear, mute_perform by done. split.
  - intros pane r c Hr'. apply H1. by eapply lookup_weaken.
  - intros pane r Hr'. apply H2. by eapply lookup_weaken.
Qed.

(** One route rewritten. *)
Lemma desk_put b b' pane r t t' m m' :
  desk_ok b t m → routes b' = <[pane := r]> (routes b) →
  (∀ c, c ∈ rt_subscribers r → t' !! (c, pane) = Some (lease_of r c)) →
  m' !! pane = Some (rt_access r) →
  (∀ c p, p ≠ pane → t' !! (c, p) = t !! (c, p)) → (∀ p, p ≠ pane → m' !! p = m !! p) →
  desk_ok b' t' m'.
Proof.
  intros [H1 H2] Hb Ht Hm Ht' Hm'. split.
  - intros p r' c. rewrite Hb, lookup_insert. case_decide as E; [intros [= <-]; subst p; apply Ht|].
    intros Hr' Hc. rewrite Ht' by congruence. by apply H1.
  - intros p r'. rewrite Hb, lookup_insert. case_decide as E; [intros [= <-]; by subst p|].
    intros Hr'. rewrite Hm' by congruence. by apply H2.
Qed.

(** ** Each method *)

Lemma release_screen_routes pane b : routes (release_screen_if_unwatched pane b) = routes b.
Proof. apply ss_routes, release_screen_shape. Qed.

Lemma drop_control_effects pane r :
  (drop_control pane r).2 =
  (if bool_decide (rt_access r = Control)
   then [CloseRoute pane; OpenRoute pane Observe (rt_cols r) (rt_rows r)] else [])
  ++ ((λ c, Send c (PaneLease pane Observe)) <$> set_iter (rt_subscribers r)).
Proof. unfold drop_control. simpl. by destruct (bool_decide _). Qed.

Lemma announce_mute access pane k m :
  perform ((λ c, Send c (PaneLease pane access)) <$> k) m = m.
Proof. unfold perform. induction k as [|c k IH]; [done|exact IH]. Qed.

Lemma drop_control_desk pane r b t m :
  desk_ok b t m → m !! pane = Some (rt_access r) →
  desk_ok (put_route pane (drop_control pane r).1 b) (hear (drop_control pane r).2 t)
    (perform (drop_control pane r).2 m).
Proof.
  intros Hd Hm. destruct (drop_control_fields pane r) as (Hs & _ & Hc & Ha).
  rewrite drop_control_effects, hear_app, perform_app, announce_mute.
  set (reopen := if bool_decide _ then _ else _).
  assert (hear reopen t = t) as -> by (unfold reopen; by destruct (bool_decide _)).
  eapply desk_put; [exact Hd|done| | | |].
  - intros c Hin. rewrite Hs in Hin. rewrite hear_all, decide_True by (by rewrite elem_of_set_iter).
    unfold lease_of. by rewrite Hc.
  - rewrite Ha. unfold reopen. case_bool_decide as E; [apply lookup_insert_eq|].
    simpl. rewrite Hm. by destruct (rt_access r).
  - intros c p Hp. rewrite hear_all, decide_False; [done|tauto].
  - intros p Hp. unfold reopen. case_bool_decide; [|done]. unfold perform. cbn [foldl serve].
    by rewrite lookup_insert_ne, lookup_delete_ne by done.
Qed.

Lemma release_pane_desk c pane b t m :
  desk_ok b t m →
  desk_ok (release_pane c pane b).1 (hear (release_pane c pane b).2 t)
    (perform (release_pane c pane b).2 m).
Proof.
  intros Hd. unfold release_pane. destruct (routes b !! pane) as [r|] eqn:Hr; [|done].
  pose proof Hd as [H1 H2]. specialize (H1 pane r). specialize (H2 pane r Hr).
  case_bool_decide as Hempty; cbn [fst snd].
  { eapply desk_put; [exact Hd|done| | |done|done]; simpl; [|done].
    intros c' Hc'. rewrite Hempty in Hc'. by apply elem_of_empty in Hc'. }
  set (r1 := set_subscribers _ _ r).
  set (b1 := release_screen_if_unwatched pane (put_route pane r1 b)).
  assert (routes b1 = <[pane := r1]> (routes b)) as Hb1 by (unfold b1; by rewrite release_screen_routes).
  assert (desk_ok b1 t m) as Hd1.
  { eapply desk_put; [exact Hd|exact Hb1| | |done|done]; simpl; [|done].
    intros c' [Hc' _]%elem_of_difference. by apply H1. }
  destruct (negb _); [done|]. rewrite Hb1, lookup_insert_eq.
  pose proof (drop_control_desk pane r1 b1 t m Hd1 H2) as Hdrop.
  by destruct (drop_control pane r1) as [r2 effects].
Qed.

Lemma each_desk {A} (f : A → Broker → Broker * list Effect) k b t m :
  (∀ a b t m, desk_ok b t m → desk_ok (f a b).1 (hear (f a b).2 t) (perform (f a b).2 m)) →
  desk_ok b t m →
  desk_ok (each f (b, []) k).1 (hear (each f (b, []) k).2 t) (perform (each f (b, []) k).2 m).
Proof.
  intros Hf Hd. induction k as [|a k IH] using rev_ind; [done|].
  unfold each in *. rewrite foldl_app. cbn [foldl].
  destruct (foldl _ (b, []) k) as [b1 es]. cbn [fst snd] in *. specialize (Hf a b1 _ _ IH).
  destruct (f a b1) as [b2 es2]. cbn [fst snd] in *. by rewrite hear_app, perform_app.
Qed.

Lemma disconnect_desk c b t m :
  desk_ok b t m →
  desk_ok (disconnect c b).1 (hear (disconnect c b).2 t) (perform (disconnect c b).2 m).
Proof.
  intros Hd. unfold disconnect. destruct (clients b !! c) as [s|]; [|done].
  apply each_desk; [|exact Hd]. intros pane b' t' m'. apply release_pane_desk.
Qed.

Lemma resize_effects pane cols rows0 r t m :
  hear (resize_for_control pane cols rows0 r).2 t = t ∧
  perform (resize_for_control pane cols rows0 r).2 m = m.
Proof. unfold resize_for_control. by destruct (_ && _). Qed.

Lemma lease_of_same r r' c : rt_control r' = rt_control r → lease_of r' c = lease_of r c.
Proof. intros Hc. unfold lease_of. by rewrite Hc. Qed.

Lemma grant_desk c pane access cols rows0 b t m :
  desk_ok b t m →
  let '(b', es, granted) := grant c pane access cols rows0 b in
  desk_ok b' (<[(c, pane) := granted]> (hear es t)) (perform es m).
Proof.
  intros Hd. pose proof Hd as [H1 H2]. unfold grant. destruct (routes b !! pane) as [r|] eqn:Hr.
  - specialize (H1 pane r). specialize (H2 pane r Hr).
    set (r0 := set_subscribers _ false r).
    assert (∀ r' granted, rt_subscribers r' = {[c]} ∪ rt_subscribers r → rt_access r' = rt_access r →
      lease_of r' c = granted → (∀ c', c' ≠ c → lease_of r' c' = lease_of r c') →
      desk_ok (put_route pane r' b) (<[(c, pane) := granted]> t) m) as Hput.
    { intros r' granted Hs Ha Hg Ho. eapply desk_put; [exact Hd|done| |by rewrite Ha| |done].
      - intros c' Hc'. rewrite Hs in Hc'. destruct (decide (c' = c)) as [->|Hne].
        + by rewrite lookup_insert_eq, Hg.
        + rewrite lookup_insert_ne by congruence. rewrite Ho by done. apply H1; [done|].
          apply elem_of_union in Hc' as [?%elem_of_singleton|?]; done.
      - intros c' p Hp. by rewrite lookup_insert_ne by congruence. }
    destruct (bool_decide (access = Control) && bool_decide (rt_control r0 = None)) eqn:E.
    + apply andb_true_iff in E as [_ E%bool_decide_eq_true].
      destruct (resize_fields pane cols rows0 (set_control (Some c) r0)) as (R1 & R2 & R3 & R4).
      destruct (resize_effects pane cols rows0 (set_control (Some c) r0) t m) as [E1 E2].
      destruct (resize_for_control _ _ _ _) as [r1 effects]. cbn [fst snd] in *. rewrite E1, E2.
      apply Hput; [by rewrite R1|by rewrite R4| |]; unfold lease_of; rewrite R3; simpl.
      * by rewrite decide_True.
      * intros c' Hne. simpl in E. rewrite E. by rewrite !decide_False by congruence.
    + clear E. case_bool_decide as Hc; apply Hput; try done; unfold lease_of.
      * by rewrite decide_True.
      * by rewrite decide_False.
  - cbn zeta. eapply desk_put; [exact Hd|done| |apply lookup_insert_eq| |].
    + simpl. intros c' ->%elem_of_singleton. rewrite lookup_insert_eq. f_equal.
      unfold lease_of. simpl. case_bool_decide as Ha; [by rewrite decide_True|].
      rewrite decide_False by done. by destruct access.
    + intros c' p Hp. by rewrite lookup_insert_ne by congruence.
    + intros p Hp. simpl. by rewrite lookup_insert_ne by congruence.
Qed.

Lemma subscribe_desk c pane access cols rows0 rep b t m :
  desk_ok b t m →
  let r := subscribe_pane c pane access cols rows0 rep b in
  desk_ok r.1 (hear r.2 t) (perform r.2 m).
Proof.
  intros Hd. unfold subscribe_pane. destruct (clients b !! c) as [s|]; [|done].
  set (b1 := alter_client _ c b). assert (desk_ok b1 t m) as Hd1 by exact Hd.
  pose proof (grant_desk c pane access cols rows0 b1 t m Hd1) as Hg.
  destruct (grant c pane access cols rows0 b1) as [[b2 effects] granted].
  pose proof (first_screen_shape c pane rep b2) as [Hroutes _ _ _].
  assert (mute (first_screen c pane rep b2).2) as Hmute.
  { unfold first_screen. destruct (screens b2 !! pane); [|constructor].
    case_bool_decide; by repeat constructor. }
  destruct (first_screen _ _ _ _) as [b3 shown]. cbn [fst snd] in *.
  rewrite !hear_app, !perform_app, (mute_hear shown), (mute_perform shown) by done. cbn.
  destruct Hg as [G1 G2]. split; intros p r; rewrite Hroutes; [apply G1|apply G2].
Qed.

Lemma take_control_desk c pane free b t m :
  desk_ok b t m →
  let r := take_control c pane free b in desk_ok r.1 (hear r.2 t) (perform r.2 m).
Proof.
  intros Hd. pose proof Hd as [H1 H2]. unfold take_control.
  destruct (clients b !! c) as [s|]; [|done]. destruct (cl_panes s !! pane) as [sub|]; [|done].
  destruct (routes b !! pane) as [r|] eqn:Hr; [|done].
  specialize (H1 pane r). specialize (H2 pane r Hr).
  case_bool_decide as Hc; [done|]. destruct (free && _) eqn:Hfree; cbn [fst snd].
  { apply andb_true_iff in Hfree as [_ Hh%bool_decide_eq_true]. split; [|exact (proj2 Hd)].
    intros p r' c' Hr' Hc'. unfold hear. cbn [foldl tell]. rewrite lookup_insert.
    case_decide as E; [|exact (proj1 Hd p r' c' Hr' Hc')]. injection E as <- <-. unfold lease_of.
    assert (r' = r) as -> by congruence. by rewrite decide_False. }
  destruct (resize_fields pane (sub_cols sub) (sub_rows sub) (set_control (Some c) r)) as (R1 & R2 & R3 & R4).
  destruct (resize_effects pane (sub_cols sub) (sub_rows sub) (set_control (Some c) r) t m) as [E1 E2].
  destruct (resize_for_control _ _ _ _) as [r1 resized]. cbn [fst snd] in *.
  clear Hfree. set (w := if bool_decide (rt_access r1 = Control) then _ else _).
  assert (rt_subscribers w.1 = rt_subscribers r ∧ rt_control w.1 = Some c ∧ rt_access w.1 = Control)
    as (W1 & W2 & W3).
  { unfold w. case_bool_decide as Ea; simpl; rewrite R1, R3; [|done]. by rewrite Ea. }
  assert (hear w.2 t = t ∧ perform w.2 m !! pane = Some Control ∧
    ∀ p, p ≠ pane → perform w.2 m !! p = m !! p) as (W4 & W5 & W6).
  { unfold w. case_bool_decide as Ea; simpl; [simpl in R4; rewrite <-Ea, R4; done|].
    split; [done|split; [apply lookup_insert_eq|]]. intros p Hp.
    by rewrite lookup_insert_ne, lookup_delete_ne by done. }
  destruct w as [r2 reopened]. cbn [fst snd] in *.
  rewrite !hear_app, !perform_app, E1, E2, W4.
  assert (∀ x, perform (match rt_control r with Some p => [Send p (PaneLease pane Observe)] | None => [] end) x = x)
    as Hprev by (intros x; by destruct (rt_control r)).
  rewrite Hprev. eapply desk_put; [exact Hd|done| | | |]; unfold hear, perform; cbn [foldl tell serve].
  - intros c' Hc'. rewrite W1 in Hc'. unfold lease_of. rewrite W2, lookup_insert.
    destruct (decide ((c, pane) = (c', pane))) as [[= <-]|Hne]; [by rewrite decide_True|].
    assert (c ≠ c') by congruence. rewrite decide_False by congruence.
    specialize (H1 c' Hr Hc'). unfold lease_of in H1.
    destruct (rt_control r) as [p|]; cbn [foldl tell]; [|by rewrite decide_False in H1].
    rewrite lookup_insert. destruct (decide ((p, pane) = (c', pane))) as [E|E]; [done|].
    rewrite H1, decide_False; [done|congruence].
  - by rewrite W3.
  - intros c' p Hp. rewrite lookup_insert_ne by congruence.
    destruct (rt_control r); cbn [foldl tell]; [|done]. by rewrite lookup_insert_ne by congruence.
  - exact W6.
Qed.

Lemma route_closed_desk pane b t m :
  desk_ok b t m →
  let r := pane_route_closed pane b in desk_ok r.1 (hear r.2 t) (perform r.2 m).
Proof.
  intros Hd. unfold pane_route_closed. destruct (routes b !! pane) as [r|]; [|done]. cbn [fst snd].
  apply (desk_mute b); [by apply mute_fmap| |done].
  destruct (forget_all_clients (set_iter (rt_subscribers r)) pane
    (set_screens (set_routes b (delete pane (routes b))) (delete pane (screens b)))) as (R & _).
  rewrite R. simpl. apply delete_subseteq.
Qed.

Lemma guarded_mute c message b : mute (guarded c message b).
Proof.
  destruct message; try constructor; unfold guarded, leased;
    repeat (destruct (holds_control _ _ _)); by repeat constructor.
Qed.

Lemma forwarded_mute c message : mute (forwarded c message).
Proof. destruct message; by repeat constructor. Qed.

(** A method that leaves the routes alone. *)
Lemma desk_idle b t m (r : Broker * list Effect) :
  mute r.2 → routes r.1 = routes b → desk_ok b t m → desk_ok r.1 (hear r.2 t) (perform r.2 m).
Proof. intros Hm Hr. apply desk_mute; [done|by rewrite Hr]. Qed.

Lemma ack_mute c pane q b : mute (ack_pane_screen c pane q b).2.
Proof.
  unfold ack_pane_screen. destruct (subscription b c pane) as [sub|]; [|constructor].
  destruct (negb _); [constructor|]. destruct (screens b !! pane); [|constructor].
  destruct (_ || _); [constructor|]. cbn [snd]. unfold update_for. cbn [rd_diff rd_screen].
  by repeat constructor.
Qed.

Lemma dispatch_desk c message b t m :
  desk_ok b t m →
  desk_ok (dispatch c message b).1 (hear (dispatch c message b).2 t)
    (perform (dispatch c message b).2 m).
Proof.
  intros Hd. destruct message; cbn [dispatch];
    try (apply (desk_idle b); [first [apply guarded_mute|apply forwarded_mute|by repeat constructor]
                              |reflexivity|exact Hd]).
  - by apply subscribe_desk.
  - apply (desk_idle b); [apply ack_mute|apply ss_routes, ack_shape|exact Hd].
  - unfold unsubscribe_pane. destruct (subscription b c pane); [|exact Hd].
    apply release_pane_desk. exact Hd.
  - by apply take_control_desk.
  - unfold resize_pane. destruct (holds_control c pane b) eqn:Hh; [|exact Hd]. cbn [fst snd].
    apply bool_decide_eq_true, bind_Some in Hh as (r & Hr & _). pose proof Hd as [H1 H2].
    eapply (desk_put b _ pane (set_size cols rows r)); [exact Hd| | | |done|done].
    + rewrite (alter_route_put _ _ r) by done. done.
    + intros c' Hc'. exact (H1 pane r c' Hr Hc').
    + exact (H2 pane r Hr).
  - apply (desk_idle b); [|reflexivity|exact Hd]. cbn. destruct (agent_cards b); by repeat constructor.
Qed.

Lemma pane_frame_mute pane q w h full payload b : mute (pane_frame pane q w h full payload b).2.
Proof.
  unfold pane_frame. destruct (routes b !! pane) as [r|]; [|constructor].
  set (frames := (λ c, Send c (PaneFrame _ _ _ _ _ _)) <$> _).
  assert (mute frames) as Hf by (by apply mute_fmap).
  destruct (filter (λ c, watches_screen b pane c = true) _) as [|x l]; [exact Hf|].
  unfold render_for. destruct (advance _ _ _ _ _) as [s' rd].
  pose proof (foldl_ind (λ w : Broker * list Effect, mute w.2) (render_one pane rd) (x :: l)
    (set_screens b (<[pane := s']> (screens b)), [])) as Hfold.
  destruct (foldl _ _ _) as [b' effects]. cbn [fst snd] in *. apply mute_app; [exact Hf|].
  apply Hfold; [constructor|]. intros [b0 es] c Hes. unfold render_one. cbn [snd] in *.
  destruct (subscription b0 c pane) as [sub|]; [|done]. destruct (_ && _); [done|].
  destruct (_ <=? _); [done|]. apply mute_app; [done|]. unfold update_for.
  destruct (rd_diff rd), (sub_sent sub); try destruct (_ =? _)%N; by repeat constructor.
Qed.

Lemma step_desk i b t m :
  desk_ok b t m →
  desk_ok (step i b).1 (hear (step i b).2 t) (perform (step i b).2 (suffer i m)).
Proof.
  intros Hd. pose proof Hd as [H1 H2]. destruct i; cbn [step suffer].
  - exact Hd.
  - by apply disconnect_desk.
  - unfold handle. destruct (clients b !! c) as [s|]; [|exact Hd].
    destruct (cl_greeted s); [by apply dispatch_desk|].
    apply (desk_idle b); [| |exact Hd]; unfold handshake; destruct message; try done;
      try (by repeat constructor); destruct (_ =? _)%N; done || by repeat constructor.
  - unfold federation_updated. set (changes := federation_changes (state b) st).
    set (told := message ← changes; broadcast_state message (set_state b st)).
    assert (mute told) as Htold.
    { apply Forall_forall. intros e (x & Hx & Hin)%list_elem_of_bind.
      unfold broadcast_state in Hx. apply list_elem_of_fmap in Hx as (c & -> & _).
      unfold changes, federation_changes in Hin. apply elem_of_app in Hin as [Hin|Hin];
        apply list_elem_of_omap in Hin as (? & _ & Hin); by case_match; simplify_eq. }
    unfold close_vanished_routes.
    pose proof (each_desk pane_route_closed (filter (λ pane, pane_is_gone st pane = true)
      (keys (routes b))) (set_state b st) t m (λ a b0 t0 m0, route_closed_desk a b0 t0 m0) Hd) as He.
    change (state (set_state b st)) with st. change (routes (set_state b st)) with (routes b).
    destruct (each _ _ _) as [b' closed]. cbn [fst snd] in *.
    by rewrite hear_app, perform_app, (mute_hear told), (mute_perform told).
  - apply (desk_idle b); [apply pane_frame_mute|apply ss_routes, pane_frame_shape|exact Hd].
  - unfold close_if_unclaimed. destruct (routes b !! pane) as [r|]; [|exact Hd].
    destruct (rt_unclaimed r); [|exact Hd]. cbn. split.
    + intros p r' c. simpl. intros [_ Hr']%lookup_delete_Some. by apply H1.
    + intros p r'. simpl. intros [Hne Hr']%lookup_delete_Some. rewrite lookup_delete_ne by done.
      by apply H2.
  - unfold pane_route_closed. destruct (routes b !! pane) as [r|] eqn:Hr; cbn [fst snd].
    + apply (desk_mute (set_routes b (delete pane (routes b)))); [by apply mute_fmap| |].
      * destruct (forget_all_clients (set_iter (rt_subscribers r)) pane
          (set_screens (set_routes b (delete pane (routes b))) (delete pane (screens b)))) as (R & _).
        rewrite R. done.
      * split; [intros p r' c|intros p r']; simpl; intros [Hne Hr']%lookup_delete_Some;
          [by apply H1|]. rewrite lookup_delete_ne by done. by apply H2.
    + split; [exact H1|]. intros p r' Hr'. simpl. rewrite lookup_delete_ne by congruence. by apply H2.
  - unfold route_downgraded. destruct (routes b !! pane) as [r|] eqn:Hr; cbn [fst snd].
    + destruct (_ && _) eqn:Enop; cbn [fst snd].
      * apply andb_true_iff in Enop as [Eo%bool_decide_eq_true _]. split; [exact H1|].
        intros p r' Hr'. simpl. rewrite lookup_alter. case_decide as E; [|by apply H2].
        subst p. rewrite (H2 pane r' Hr'). simpl. congruence.
      * rewrite (alter_route_put _ _ r) by done. rewrite announce_mute.
        eapply desk_put; [exact Hd|done| | | |].
        -- intros c Hc. rewrite hear_all, decide_True by (by rewrite elem_of_set_iter). done.
        -- rewrite lookup_alter_eq, (H2 pane r Hr). done.
        -- intros c p Hp. rewrite hear_all, decide_False; [done|tauto].
        -- intros p Hp. by rewrite lookup_alter_ne.
    + split; [exact H1|]. intros p r' Hr'. simpl. rewrite lookup_alter_ne by congruence. by apply H2.
  - unfold agent_cards_updated. case_bool_decide; [exact Hd|].
    apply (desk_idle b); [by apply mute_fmap|done|exact Hd].
Qed.

(** ** Who acts on a pane *)

(** An effect is covered by a lease: held before what it does to the pane, and
    held afterwards by whoever had it resized. *)
Definition covered c b b' e : Prop :=
  ∀ pane, (pane ∈ acts_on e → holds_control c pane b = true) ∧
          (resizes e = Some pane → holds_control c pane b' = true).

Lemma passive_covered c b b' l e : passive l → e ∈ l → covered c b b' e.
Proof.
  unfold passive. rewrite Forall_forall. intros Hl He%Hl pane. unfold is_passive in He.
  apply andb_true_iff in He as [H1%bool_decide_eq_true H2%bool_decide_eq_true].
  rewrite H1, H2. split; [by intros ?%elem_of_nil|done].
Qed.

Lemma leased_covered c pane b b' l e :
  (holds_control c pane b = true → ∀ x, x ∈ l → covered c b b' x) →
  e ∈ leased c pane b l → covered c b b' e.
Proof.
  unfold leased. destruct (holds_control c pane b) eqn:Hh; [intros Hl He; by apply Hl|].
  intros _ He. by apply (passive_covered c b b' [lease_refusal c pane]); [repeat constructor|].
Qed.

Lemma guarded_covered c message b e : e ∈ guarded c message b → covered c b b e.
Proof.
  intros He. destruct message; simpl in He; try (by apply elem_of_nil in He);
    try (revert He; apply leased_covered; intros Hh x Hx%list_elem_of_singleton p;
         subst x; simpl; split; [intros ->%list_elem_of_singleton; exact Hh|done]).
  revert He. apply leased_covered. intros Hs x. apply leased_covered.
  intros Hd y Hy%list_elem_of_singleton p. subst y. simpl. split; [|done].
  by intros [-> | ->%list_elem_of_singleton]%elem_of_cons.
Qed.

Lemma forwarded_passive c message : passive (forwarded c message).
Proof. destruct message; by repeat constructor. Qed.

Lemma holds_put c pane r b : holds_control c pane (put_route pane r b) = bool_decide (rt_control r = Some c).
Proof. unfold holds_control, put_route. simpl. by rewrite lookup_insert_eq. Qed.

(** The resize that comes with a lease. *)
Lemma resize_covered c pane cols rows0 r b b' e :
  holds_control c pane b' = true → e ∈ (resize_for_control pane cols rows0 r).2 → covered c b b' e.
Proof.
  unfold resize_for_control. destruct (_ && _); intros Hh He; [by apply elem_of_nil in He|].
  apply list_elem_of_singleton in He as ->. intros p. simpl.
  split; [by intros ?%elem_of_nil|]. by intros [= <-].
Qed.

Lemma take_control_covered c pane free b e :
  e ∈ (take_control c pane free b).2 → covered c b (take_control c pane free b).1 e.
Proof.
  unfold take_control. destruct (clients b !! c) as [s|]; [|by intros ?%elem_of_nil].
  destruct (cl_panes s !! pane) as [sub|]; [|by apply passive_covered; repeat constructor].
  destruct (routes b !! pane) as [r|]; [|by intros ?%elem_of_nil].
  destruct (bool_decide _); [by intros ?%elem_of_nil|].
  destruct (free && _); [by apply passive_covered; repeat constructor|].
  destruct (resize_fields pane (sub_cols sub) (sub_rows sub) (set_control (Some c) r)) as (_ & _ & R3 & _).
  pose proof (resize_covered c pane (sub_cols sub) (sub_rows sub) (set_control (Some c) r) b) as Hrc.
  destruct (resize_for_control _ _ _ _) as [r1 resized]. cbn [fst snd] in *.
  set (w := if bool_decide (rt_access r1 = Control) then _ else _).
  assert (rt_control w.1 = Some c ∧ passive w.2) as [W1 W2]
    by (unfold w; destruct (bool_decide _); split; simpl; by repeat constructor).
  destruct w as [r2 reopened]. cbn [fst snd] in *.
  intros [He|He]%elem_of_app.
  - apply Hrc; [|done]. rewrite holds_put. by apply bool_decide_eq_true.
  - revert He. apply passive_covered. apply passive_app; [done|]. apply passive_app; [|by repeat constructor].
    destruct (rt_control r); by repeat constructor.
Qed.

Lemma subscribe_covered c pane access cols rows0 rep b e :
  e ∈ (subscribe_pane c pane access cols rows0 rep b).2 →
  covered c b (subscribe_pane c pane access cols rows0 rep b).1 e.
Proof.
  unfold subscribe_pane. destruct (clients b !! c) as [s|]; [|by intros ?%elem_of_nil].
  set (b1 := alter_client _ c b).
  assert (∀ x, x ∈ (grant c pane access cols rows0 b1).1.2 →
    ∀ b', routes b' = routes (grant c pane access cols rows0 b1).1.1 → covered c b b' x) as Hg.
  { intros x Hx b' Hb'. unfold grant in *. destruct (routes b1 !! pane) as [r|].
    - destruct (_ && _).
      + destruct (resize_fields pane cols rows0 (set_control (Some c)
          (set_subscribers ({[c]} ∪ rt_subscribers r) false r))) as (_ & _ & R3 & _).
        pose proof (resize_covered c pane cols rows0 (set_control (Some c)
          (set_subscribers ({[c]} ∪ rt_subscribers r) false r)) b b') as Hrc.
        destruct (resize_for_control _ _ _ _) as [r1 resized]. cbn [fst snd] in *. apply Hrc; [|done].
        unfold holds_control. rewrite Hb'. unfold put_route; simpl.
        rewrite lookup_insert_eq. simpl. rewrite R3. by apply bool_decide_eq_true.
      + destruct (bool_decide _); by apply elem_of_nil in Hx.
    - revert Hx. by apply passive_covered; repeat constructor. }
  destruct (grant c pane access cols rows0 b1) as [[b2 effects] granted]. cbn [fst snd] in *.
  pose proof (first_screen_shape c pane rep b2) as [Hroutes _ _ _].
  assert (passive (first_screen c pane rep b2).2) as Hpass.
  { unfold first_screen. destruct (screens b2 !! pane); [|constructor].
    case_bool_decide; by repeat constructor. }
  destruct (first_screen _ _ _ _) as [b3 shown]. cbn [fst snd] in *.
  intros [He|He]%elem_of_app; [by apply Hg|]. revert He. apply passive_covered, passive_app; [done|].
  by repeat constructor.
Qed.

Lemma drop_control_passive pane r : passive (drop_control pane r).2.
Proof.
  rewrite drop_control_effects. apply passive_app; [|by apply passive_fmap].
  destruct (bool_decide _); by repeat constructor.
Qed.

Lemma release_pane_passive c pane b : passive (release_pane c pane b).2.
Proof.
  unfold release_pane. destruct (routes b !! pane) as [r|]; [|constructor].
  case_bool_decide; [by repeat constructor|]. destruct (negb _); [constructor|].
  destruct (routes (release_screen_if_unwatched _ _) !! pane) as [r'|]; [|constructor].
  pose proof (drop_control_passive pane r') as Hd. by destruct (drop_control pane r').
Qed.

Lemma mute_screens_passive l :
  (∀ e, e ∈ l → match e with Send _ _ => True | _ => False end) → passive l.
Proof. intros Hl. apply Forall_forall. intros e He%Hl. by destruct e. Qed.

Lemma dispatch_covered c message b e :
  e ∈ (dispatch c message b).2 → covered c b (dispatch c message b).1 e.
Proof.
  destruct message; cbn [dispatch];
    try (first [apply guarded_covered|apply passive_covered; apply forwarded_passive
               |apply passive_covered; by repeat constructor]).
  - apply subscribe_covered.
  - apply passive_covered. unfold ack_pane_screen. destruct (subscription b c pane) as [sub|]; [|constructor].
    destruct (negb _); [constructor|]. destruct (screens b !! pane); [|constructor].
    destruct (_ || _); by repeat constructor.
  - apply passive_covered. unfold unsubscribe_pane.
    destruct (subscription b c pane); [apply release_pane_passive|constructor].
  - apply take_control_covered.
  - unfold resize_pane. destruct (holds_control c pane b) eqn:Hh; cbn [fst snd].
    + intros ->%list_elem_of_singleton p. simpl. split; [by intros ?%elem_of_nil|]. intros [= <-].
      apply bool_decide_eq_true, bind_Some in Hh as (r & Hr & Hc).
      rewrite (alter_route_put _ _ r) by done. rewrite holds_put. by apply bool_decide_eq_true.
    + by apply passive_covered; repeat constructor.
  - apply passive_covered. cbn. destruct (agent_cards b); by repeat constructor.
Qed.

Lemma federation_passive st b : passive (federation_updated st b).2.
Proof.
  unfold federation_updated, close_vanished_routes.
  pose proof (each_effects pane_route_closed passive
    (filter (λ pane, pane_is_gone (state (set_state b st)) pane = true) (keys (routes (set_state b st))))
    (set_state b st, [])) as Heach.
  destruct (each _ _ _) as [b' closed]. cbn [snd] in *. apply passive_app.
  - apply Forall_forall. intros e (m & Hm & _)%list_elem_of_bind.
    unfold broadcast_state in Hm. by apply list_elem_of_fmap in Hm as (c & -> & _).
  - apply Heach; [constructor|]. intros pane b0 es Hes. apply passive_app; [done|].
    unfold pane_route_closed. destruct (routes b0 !! pane); [by apply passive_fmap|constructor].
Qed.

Lemma pane_frame_passive pane q w h full payload b : passive (pane_frame pane q w h full payload b).2.
Proof.
  unfold pane_frame. destruct (routes b !! pane) as [r|]; [|constructor].
  set (frames := (λ c, Send c (PaneFrame _ _ _ _ _ _)) <$> _).
  assert (passive frames) as Hf by (by apply passive_fmap).
  destruct (filter (λ c, watches_screen b pane c = true) _) as [|x l]; [exact Hf|].
  unfold render_for. destruct (advance _ _ _ _ _) as [s' rd].
  pose proof (foldl_ind (λ w : Broker * list Effect, passive w.2) (render_one pane rd) (x :: l)
    (set_screens b (<[pane := s']> (screens b)), [])) as Hfold.
  destruct (foldl _ _ _) as [b' effects]. cbn [fst snd] in *. apply passive_app; [exact Hf|].
  apply Hfold; [constructor|]. intros [b0 es] c Hes. unfold render_one. cbn [snd] in *.
  destruct (subscription b0 c pane) as [sub|]; [|done]. destruct (_ && _); [done|].
  destruct (_ <=? _); [done|]. apply passive_app; [done|]. by repeat constructor.
Qed.

(** Everything that is not a message of a client acts on no pane. *)
Lemma step_passive i b :
  match i with Message _ _ => True | _ => passive (step i b).2 end.
Proof.
  destruct i; cbn [step]; try done.
  - constructor.
  - unfold disconnect. destruct (clients b !! c) as [s|]; [|constructor].
    apply each_effects; [constructor|]. intros p b' es Hes. apply passive_app; [done|].
    apply release_pane_passive.
  - apply federation_passive.
  - apply pane_frame_passive.
  - unfold close_if_unclaimed. destruct (routes b !! pane) as [r|]; [|constructor].
    destruct (rt_unclaimed r); by repeat constructor.
  - unfold pane_route_closed. destruct (routes b !! pane); [by apply passive_fmap|constructor].
  - unfold route_downgraded. destruct (routes b !! pane); [|constructor].
    destruct (_ && _); [constructor|by apply passive_fmap].
  - unfold agent_cards_updated. case_bool_decide; [constructor|by apply passive_fmap].
Qed.

Lemma handle_covered c message b e :
  e ∈ (handle c message b).2 → covered c b (handle c message b).1 e.
Proof.
  unfold handle. destruct (clients b !! c) as [s|]; [|by intros ?%elem_of_nil].
  destruct (cl_greeted s); [apply dispatch_covered|]. apply passive_covered. unfold handshake.
  destruct message; try destruct (_ =? _)%N; by repeat constructor.
Qed.

(** ** The properties *)

(** C7. Only the holder of a lease acts on a pane. Whatever the broker is fed
    and in whatever state it is, input, scrolling, pasting and file transfers
    reach a pane only as the request of the client that holds the pane's lease
    (for a transfer between two panes, both leases), and a pane is resized only
    for the client that holds its lease once the request is done. *)
Theorem lease_guards (i : input) b e pane :
  e ∈ (step i b).2 →
  (pane ∈ acts_on e → ∃ c message, i = Message c message ∧ holds_control c pane b = true) ∧
  (resizes e = Some pane →
    ∃ c message, i = Message c message ∧ holds_control c pane (step i b).1 = true).
Proof.
  intros He. assert ((∃ c message, i = Message c message) ∨ passive (step i b).2) as [(c & message & ->)|Hp].
  { pose proof (step_passive i b) as Hp. destruct i; eauto. }
  - destruct (handle_covered c message b e He pane) as [H1 H2]. split; intros; eauto.
  - destruct (passive_covered 0%N b b _ e Hp He pane) as [_ _].
    unfold passive in Hp. rewrite Forall_forall in Hp. specialize (Hp e He).
    apply andb_true_iff in Hp as [H1%bool_decide_eq_true H2%bool_decide_eq_true].
    rewrite H1, H2. split; [by intros ?%elem_of_nil|done].
Qed.

(** Subscribers know who controls. At every moment of a run, the last lease
    message each subscriber of a pane was sent states the truth: control for
    the client that holds the lease, observation for everyone else, through
    every grant, take-over, departure and downgrade. *)
Theorem lease_announced v fs qs (inputs : list input) pane r c :
  let '(b, es) := reached v fs qs inputs in
  routes b !! pane = Some r → c ∈ rt_subscribers r →
  hear es ∅ !! (c, pane) = Some (if decide (rt_control r = Some c) then Control else Observe).
Proof.
  assert (∃ m, desk_ok (reached v fs qs inputs).1 (hear (reached v fs qs inputs).2 ∅) m) as (m & Ht & _).
  { induction inputs as [|i inputs [m IH]] using rev_ind.
    - exists ∅. split; intros ?; simpl; intros *; by rewrite lookup_empty.
    - rewrite reached_snoc. cbn [fst snd]. eexists. rewrite hear_app. by apply step_desk. }
  destruct (reached v fs qs inputs) as [b es]. exact (Ht pane r c).
Qed.

(** The processes a run has asked for and that have not ended since. *)
Definition serve_input (w : Broker * processes) (i : input) : Broker * processes :=
  ((step i w.1).1, perform (step i w.1).2 (suffer i w.2)).

(** Behind every route there is its process. In a run in which the I/O
    layer opens and closes what it is told to and reports what ends on its own,
    each of the broker's routes has exactly the process it stands for, open with
    the access the broker believes it has. *)
Theorem routes_served v fs qs (inputs : list input) pane r :
  let '(b, m) := foldl serve_input (Broker_new v fs qs, ∅) inputs in
  routes b !! pane = Some r → m !! pane = Some (rt_access r).
Proof.
  assert (∃ t, desk_ok (foldl serve_input (Broker_new v fs qs, ∅) inputs).1 t
    (foldl serve_input (Broker_new v fs qs, ∅) inputs).2) as (t & _ & Hm).
  { induction inputs as [|i inputs [t IH]] using rev_ind.
    - exists ∅. split; intros ?; simpl; intros *; by rewrite lookup_empty.
    - rewrite foldl_app. cbn [foldl]. eexists. by apply step_desk. }
  destruct (foldl _ _ _) as [b m]. exact (Hm pane r).
Qed.
End leases.
