(* ===== verification/BrokerRequests.v ===== *)
(** What a client is answered: the handshake, taking a lease, and the lease a
    subscription is granted on a route that was opened to observe. *)

From S2P Require Import Prelude Model Config State Attention AgentMarks Aliases AgentCards.
From S2P Require Import Screen ScreenFacts Operation Protocol Broker BrokerInv BrokerScreens.
From S2P Require Import BrokerRender BrokerFacts BrokerLeases Examples.
Import Teletype.

Section requests.
Context `{Vt100}.
Implicit Types (b : Broker) (c : ClientId) (pane : PaneId) (e : Effect) (l : list Effect).

(** ** Whom effects speak to *)

Definition spoken (G : ClientId → Prop) l : Prop :=
  Forall (λ e, match e with Send c _ => G c | _ => True end) l.

(** Everybody the routes list satisfies [G]. *)
Definition audience (G : ClientId → Prop) b : Prop :=
  ∀ pane r c, routes b !! pane = Some r → c ∈ rt_subscribers r → G c.

Lemma spoken_app G l1 l2 : spoken G l1 → spoken G l2 → spoken G (l1 ++ l2).
Proof. apply Forall_app_2. Qed.

Lemma spoken_to G (f : ClientId → ServerMessage) (k : list ClientId) :
  (∀ c, c ∈ k → G c) → spoken G ((λ c, Send c (f c)) <$> k).
Proof. intros Hk. apply Forall_fmap, Forall_forall. exact Hk. Qed.

Lemma spoken_iter G (f : ClientId → ServerMessage) pane r b :
  audience G b → routes b !! pane = Some r →
  spoken G ((λ c, Send c (f c)) <$> set_iter (rt_subscribers r)).
Proof. intros Ha Hr. apply spoken_to. intros c Hc%elem_of_set_iter. exact (Ha pane r c Hr Hc). Qed.

Lemma audience_sub G b b' : routes b' ⊆ routes b → audience G b → audience G b'.
Proof. intros Hr Ha pane r c Hr'. apply (Ha pane). by eapply lookup_weaken. Qed.

Lemma audience_put G pane r b :
  audience G b → (∀ c, c ∈ rt_subscribers r → G c) → audience G (put_route pane r b).
Proof.
  intros Ha Hr p r' c. unfold put_route; simpl. rewrite lookup_insert.
  case_decide; [intros [= <-]; apply Hr|apply Ha].
Qed.

Lemma each_both {A} (f : A → Broker → Broker * list Effect) (P : Broker → list Effect → Prop) k w :
  P w.1 w.2 → (∀ a b es, P b es → P (f a b).1 (es ++ (f a b).2)) →
  P (each f w k).1 (each f w k).2.
Proof.
  intros Hp Hf. unfold each. apply (foldl_ind (λ w, P w.1 w.2)); [done|].
  intros w' a Hw. specialize (Hf a w'.1 w'.2 Hw). by destruct (f a w'.1).
Qed.

Lemma drop_control_spoken G pane r b :
  audience G b → routes b !! pane = Some r → spoken G (drop_control pane r).2.
Proof.
  intros Ha Hr. rewrite drop_control_effects. apply spoken_app.
  - destruct (bool_decide _); by repeat constructor.
  - by eapply spoken_iter.
Qed.

Lemma release_pane_spoken G c pane b es :
  audience G b ∧ spoken G es →
  audience G (release_pane c pane b).1 ∧ spoken G (es ++ (release_pane c pane b).2).
Proof.
  intros [Ha Hs]. unfold release_pane. destruct (routes b !! pane) as [r|] eqn:Hr.
  2:{ rewrite app_nil_r. done. }
  case_bool_decide; cbn [fst snd].
  { split; [|apply spoken_app; [done|by repeat constructor]]. apply audience_put; [done|].
    simpl. intros c' [Hc _]%elem_of_difference. exact (Ha pane r c' Hr Hc). }
  set (r1 := set_subscribers _ _ r).
  assert (audience G (release_screen_if_unwatched pane (put_route pane r1 b))) as Ha1.
  { apply (audience_sub _ (put_route pane r1 b)); [by rewrite release_screen_routes|].
    apply audience_put; [done|]. simpl. intros c' [Hc _]%elem_of_difference. exact (Ha pane r c' Hr Hc). }
  set (b1 := release_screen_if_unwatched _ _) in *.
  destruct (negb _); cbn [fst snd]; [by rewrite app_nil_r|].
  destruct (routes b1 !! pane) as [r'|] eqn:Hr'; [|by rewrite app_nil_r].
  pose proof (drop_control_spoken G pane r' b1 Ha1 Hr') as Hd.
  destruct (drop_control_fields pane r') as (Hsub & _).
  destruct (drop_control pane r') as [r2 effects]. cbn [fst snd] in *.
  split; [|by apply spoken_app]. apply audience_put; [done|]. rewrite Hsub. intros c'. exact (Ha1 pane r' c' Hr').
Qed.

Lemma route_closed_spoken G pane b es :
  audience G b ∧ spoken G es →
  audience G (pane_route_closed pane b).1 ∧ spoken G (es ++ (pane_route_closed pane b).2).
Proof.
  intros [Ha Hs]. unfold pane_route_closed. destruct (routes b !! pane) as [r|] eqn:Hr.
  2:{ rewrite app_nil_r. done. }
  cbn [fst snd]. split.
  - eapply audience_sub; [|exact Ha].
    destruct (forget_all_clients (set_iter (rt_subscribers r)) pane
      (set_screens (set_routes b (delete pane (routes b))) (delete pane (screens b)))) as (R & _).
    rewrite R. simpl. apply delete_subseteq.
  - apply spoken_app; [done|]. by eapply spoken_iter.
Qed.

Lemma clients_with_spec p b c : c ∈ clients_with p b ↔ ∃ s, clients b !! c = Some s ∧ p s = true.
Proof.
  unfold clients_with. rewrite list_elem_of_omap. split.
  - intros ([c' s] & Hin%elem_of_entries & Hp). simpl in *. destruct (p s) eqn:E; [|done].
    injection Hp as <-. eauto.
  - intros (s & Hs & Hp). exists (c, s). rewrite elem_of_entries. simpl. by rewrite Hp.
Qed.

(** The clients that have been greeted. *)
Definition greeted b c : Prop := ∃ s, clients b !! c = Some s ∧ cl_greeted s = true.

Lemma inv_audience n b : broker_inv n b → audience (greeted b) b.
Proof.
  intros Hinv pane r c Hr Hc.
  destruct (proj1 (inv_subs _ _ _ Hinv c pane)) as [[sub Hsub]|[]]; [by exists r|].
  unfold subscription in Hsub. destruct (clients b !! c) as [s|] eqn:Hs; [|done]. exists s.
  split; [done|]. destruct (cl_greeted s) eqn:Hg; [done|]. exfalso.
  destruct (inv_greeted _ _ _ Hinv c s Hs Hg) as [_ Hp]. simpl in Hsub. by rewrite Hp in Hsub.
Qed.

Lemma inv_flagged n b p c :
  broker_inv n b → (∀ s, p s = true → flags s = (false, false, false, false) → False) →
  c ∈ clients_with p b → greeted b c.
Proof.
  intros Hinv Hp (s & Hs & Hps)%clients_with_spec. exists s. split; [done|].
  destruct (cl_greeted s) eqn:Hg; [done|]. exfalso.
  destruct (inv_greeted _ _ _ Hinv c s Hs Hg) as [Hf _]. by apply (Hp s).
Qed.

Lemma leased_spoken G c pane b l : G c → spoken G l → spoken G (leased c pane b l).
Proof. intros Hc Hl. unfold leased. destruct (holds_control _ _ _); [done|by repeat constructor]. Qed.

Lemma guarded_spoken G c message b : G c → spoken G (guarded c message b).
Proof.
  intros Hc. destruct message; try constructor; repeat (apply leased_spoken; [exact Hc|]);
    by repeat constructor.
Qed.

Lemma forwarded_spoken G c message : spoken G (forwarded c message).
Proof. destruct message; by repeat constructor. Qed.

Lemma take_control_spoken n c pane free b :
  broker_inv n b → greeted b c → spoken (greeted b) (take_control c pane free b).2.
Proof.
  intros Hinv Hc. unfold take_control. destruct (clients b !! c) as [s|]; [|constructor].
  destruct (cl_panes s !! pane) as [sub|]; [|by repeat constructor].
  destruct (routes b !! pane) as [r|] eqn:Hr; [|constructor].
  destruct (bool_decide _); [constructor|]. destruct (free && _); [by repeat constructor|].
  assert (spoken (greeted b) (resize_for_control pane (sub_cols sub) (sub_rows sub) (set_control (Some c) r)).2)
    as Hres by (unfold resize_for_control; destruct (_ && _); by repeat constructor).
  destruct (resize_for_control _ _ _ _) as [r1 resized]. cbn [snd] in Hres.
  assert (spoken (greeted b) (if bool_decide (rt_access r1 = Control) then (r1, [])
    else (set_access Control r1, [CloseRoute pane; OpenRoute pane Control (rt_cols r1) (rt_rows r1)])).2)
    as Hre by (destruct (bool_decide _); by repeat constructor).
  destruct (if bool_decide (rt_access r1 = Control) then _ else _) as [r2 reopened]. cbn [snd] in *.
  apply spoken_app; [done|]. apply spoken_app; [done|]. apply spoken_app; [|by repeat constructor].
  destruct (rt_control r) as [p|] eqn:Hp; [|constructor]. constructor; [|constructor].
  exact (inv_audience n b Hinv pane r p Hr (inv_control _ _ _ Hinv pane r p Hr Hp)).
Qed.

Lemma subscribe_spoken G c pane access cols rows0 rep b :
  G c → spoken G (subscribe_pane c pane access cols rows0 rep b).2.
Proof.
  intros Hc. unfold subscribe_pane. destruct (clients b !! c) as [s|]; [|constructor].
  set (b1 := alter_client _ c b).
  assert (spoken G (grant c pane access cols rows0 b1).1.2) as Hg.
  { unfold grant. destruct (routes b1 !! pane); [|by repeat constructor].
    destruct (_ && _); [|destruct (bool_decide _); constructor].
    unfold resize_for_control. destruct (_ && _); by repeat constructor. }
  destruct (grant c pane access cols rows0 b1) as [[b2 effects] granted]. cbn [fst snd] in *.
  assert (spoken G (first_screen c pane rep b2).2) as Hf.
  { unfold first_screen. destruct (screens b2 !! pane); [|constructor].
    case_bool_decide; by repeat constructor. }
  destruct (first_screen _ _ _ _) as [b3 shown]. cbn [fst snd] in *.
  apply spoken_app; [done|]. apply spoken_app; [done|]. by repeat constructor.
Qed.

Lemma dispatch_spoken n c message b :
  broker_inv n b → greeted b c → spoken (greeted b) (dispatch c message b).2.
Proof.
  intros Hinv Hc. pose proof (inv_audience n b Hinv) as Ha. destruct message; cbn [dispatch];
    try (first [by apply guarded_spoken|apply forwarded_spoken|by repeat constructor]).
  - by apply subscribe_spoken.
  - unfold ack_pane_screen. destruct (subscription b c pane) as [sub|]; [|constructor].
    destruct (negb _); [constructor|]. destruct (screens b !! pane); [|constructor].
    destruct (_ || _); by repeat constructor.
  - unfold unsubscribe_pane. destruct (subscription b c pane); [|constructor].
    exact (proj2 (release_pane_spoken _ c pane (alter_client (forget_pane pane) c b) []
      (conj Ha (Forall_nil_2 _)))).
  - by eapply take_control_spoken.
  - unfold resize_pane. destruct (holds_control c pane b); by repeat constructor.
  - cbn. destruct (agent_cards b); by repeat constructor.
Qed.

Lemma pane_frame_spoken G pane q w h full payload b :
  audience G b → spoken G (pane_frame pane q w h full payload b).2.
Proof.
  intros Ha. unfold pane_frame. destruct (routes b !! pane) as [r|] eqn:Hr; [|constructor].
  assert (∀ c, c ∈ set_iter (rt_subscribers r) → G c) as Hsub
    by (intros c Hc%elem_of_set_iter; exact (Ha pane r c Hr Hc)).
  set (frames := _ <$> filter _ _).
  assert (spoken G frames) as Hf.
  { apply spoken_to. intros c [_ Hc]%list_elem_of_filter. by apply Hsub. }
  assert (∀ c, c ∈ filter (λ c, watches_screen b pane c = true) (set_iter (rt_subscribers r)) → G c) as Hl
    by (intros c [_ Hc]%list_elem_of_filter; by apply Hsub).
  destruct (filter (λ c, watches_screen b pane c = true) _) as [|x l]; [exact Hf|].
  unfold render_for. destruct (advance _ _ _ _ _) as [s' rd].
  set (w0 := (set_screens b (<[pane := s']> (screens b)), [])).
  assert (∀ k w, (∀ c, c ∈ k → G c) → spoken G w.2 → spoken G (foldl (render_one pane rd) w k).2) as Hfold.
  { induction k as [|c k IH]; intros [b0 es] Hk Hes; [done|]. cbn [foldl]. apply IH; [intros; apply Hk; by right|].
    unfold render_one. cbn [snd] in *. destruct (subscription b0 c pane) as [sub|]; [|done].
    destruct (_ && _); [done|]. destruct (_ <=? _); [done|]. apply spoken_app; [done|].
    constructor; [|constructor]. apply Hk. left. }
  specialize (Hfold (x :: l) w0 Hl (Forall_nil_2 _)).
  destruct (foldl _ _ _) as [b' effects]. cbn [snd] in *. by apply spoken_app.
Qed.

Lemma step_spoken n i b :
  broker_inv n b → match i with Message c _ => greeted b c | _ => True end →
  spoken (greeted b) (step i b).2.
Proof.
  intros Hinv Hi. pose proof (inv_audience n b Hinv) as Ha. destruct i; cbn [step].
  - constructor.
  - unfold disconnect. destruct (clients b !! c) as [s|]; [|constructor].
    apply (each_both (release_pane c) (λ b' es, audience (greeted b) b' ∧ spoken (greeted b) es)).
    + by repeat constructor.
    + intros p b' es. apply release_pane_spoken.
  - unfold handle. destruct (clients b !! c) as [s|] eqn:Hs; [|constructor].
    destruct Hi as (s' & Hs' & Hg). assert (s' = s) as -> by congruence. rewrite Hg.
    eapply dispatch_spoken; [exact Hinv|by exists s].
  - unfold federation_updated. set (told := message ← _; _).
    assert (spoken (greeted b) told) as Ht.
    { apply Forall_forall. intros e (m & Hm & _)%list_elem_of_bind. unfold broadcast_state in Hm.
      apply list_elem_of_fmap in Hm as (c & -> & Hc). change (clients_with cl_state (set_state b st))
        with (clients_with cl_state b) in Hc. eapply inv_flagged; [exact Hinv| |exact Hc].
      intros s Hs Hf. unfold flags in Hf. congruence. }
    unfold close_vanished_routes.
    destruct (each_both pane_route_closed (λ b' es, audience (greeted b) b' ∧ spoken (greeted b) es)
      (filter (λ pane, pane_is_gone (state (set_state b st)) pane = true) (keys (routes (set_state b st))))
      (set_state b st, [])) as [_ Hc]; [by repeat constructor|intros p b' es; apply route_closed_spoken|].
    destruct (each _ _ _) as [b' closed]. by apply spoken_app.
  - by apply pane_frame_spoken.
  - unfold close_if_unclaimed. destruct (routes b !! pane) as [r|]; [|constructor].
    destruct (rt_unclaimed r); by repeat constructor.
  - exact (proj2 (route_closed_spoken _ pane b [] (conj Ha (Forall_nil_2 _)))).
  - unfold route_downgraded. destruct (routes b !! pane) as [r|] eqn:Hr; [|constructor].
    destruct (_ && _); [constructor|]. by eapply spoken_iter.
  - unfold agent_cards_updated. case_bool_decide; [constructor|]. apply spoken_to. intros c Hc.
    eapply inv_flagged; [exact Hinv| |exact Hc]. intros s Hs Hf. unfold flags in Hf. congruence.
Qed.

Lemma step_unspoken n i b c m s :
  broker_inv n b → clients b !! c = Some s → cl_greeted s = false → Send c m ∈ (step i b).2 →
  ∃ message, i = Message c message.
Proof.
  intros Hinv Hs Hg Hin. assert (¬ greeted b c) as Hng by (intros (s' & Hs' & ?); congruence).
  assert (Hsp : match i with Message c' _ => greeted b c' | _ => True end → False).
  { intros Hi. pose proof (step_spoken n i b Hinv Hi) as Hsp. unfold spoken in Hsp.
    rewrite Forall_forall in Hsp. by apply Hsp in Hin. }
  destruct i; try (by destruct Hsp). cbn [step] in Hin. unfold handle in Hin.
  destruct (clients b !! c0) as [s0|] eqn:Hs0; [|by apply elem_of_nil in Hin].
  destruct (cl_greeted s0) eqn:Hg0; [exfalso; apply Hsp; by exists s0|].
  exists message. f_equal. unfold handshake in Hin.
  destruct message; try destruct (_ =? _)%N; cbn [snd] in Hin; unfold refuse, error_to in Hin;
    rewrite ?elem_of_cons, ?elem_of_nil in Hin; naive_solver.
Qed.

(** Nothing is said before the handshake. To a connection that has not been
    greeted the broker sends something only in answer to that connection's own
    message: either the message is a hello in this protocol's version, the answer
    is the server's hello and the connection is greeted; or the answer is an
    error, the connection is dropped, and nothing else in the broker changed. *)
Theorem handshake_first v fs qs (inputs : list input) i c m s :
  (N.of_nat (length inputs) ≤ u64_max)%N →
  let b := (reached v fs qs inputs).1 in
  clients b !! c = Some s → cl_greeted s = false → Send c m ∈ (step i b).2 →
  ∃ message, i = Message c message ∧
    ((∃ name, message = ClientHello PROTOCOL_VERSION name) ∧
     (step i b).2 = [Send c (hello_message b)] ∧ greeted (step i b).1 c ∨
     ∃ reason, (step i b).2 = [error_to c reason; Disconnect c reason] ∧ (step i b).1 = b).
Proof.
  intros Hlen b Hs Hg Hin. pose proof (reached_inv v fs qs inputs Hlen) as Hinv. fold b in Hinv.
  destruct (step_unspoken _ i b c m s Hinv Hs Hg Hin) as [message ->].
  exists message. split; [done|]. cbn [step] in *. unfold handle in *. rewrite Hs, Hg in *.
  unfold handshake in *. destruct message; try (right; eexists; split; reflexivity).
  destruct (protocol =? PROTOCOL_VERSION)%N eqn:E; [|right; eexists; split; reflexivity].
  left. apply N.eqb_eq in E as ->. split; [by eexists|split; [done|]].
  exists (set_greeted s). split; [|done]. simpl. by rewrite lookup_alter_eq, Hs.
Qed.

(** ** Taking a lease *)

Lemma resize_spec pane cols rows0 r :
  let w := resize_for_control pane cols rows0 r in
  rt_cols w.1 = cols ∧ rt_rows w.1 = rows0 ∧
  ∀ e, e ∈ w.2 ↔ (rt_cols r, rt_rows r) ≠ (cols, rows0) ∧ e = RouteResize pane cols rows0.
Proof.
  unfold resize_for_control. destruct (_ && _) eqn:E; cbn [fst snd].
  - apply andb_true_iff in E as [E1%N.eqb_eq E2%N.eqb_eq]. split; [done|split; [done|]].
    intros e. rewrite elem_of_nil. naive_solver congruence.
  - split; [done|split; [done|]]. intros e. rewrite list_elem_of_singleton. split; [|tauto].
    intros ->. split; [|done]. intros [= <- <-]. by rewrite !N.eqb_refl in E.
Qed.

(** Taking control takes it. For a client subscribed to the pane there is
    always an answer: nothing if it already holds the lease; a refusal that
    changes nothing if it asked only for a free lease and somebody holds it; and
    otherwise it holds the lease of a route that is open for control at the
    client's own size, with the same subscribers. The terminal process is
    reopened exactly when it was open to observe and resized exactly when its
    size differs, and only the previous holder and the new one are told. *)
Theorem take_control_takes v fs qs (inputs : list input) c pane free sub :
  (N.of_nat (length inputs) ≤ u64_max)%N →
  let b := (reached v fs qs inputs).1 in
  subscription b c pane = Some sub →
  ∃ r, routes b !! pane = Some r ∧
  let '(b', es) := step (Message c (TakePaneControl pane free)) b in
  if decide (rt_control r = Some c) then b' = b ∧ es = []
  else if decide (free = true ∧ rt_control r ≠ None)
  then b' = b ∧ es = [Send c (PaneLease pane Observe)]
  else (∃ r', b' = put_route pane r' b ∧ rt_control r' = Some c ∧ rt_access r' = Control ∧
         rt_cols r' = sub_cols sub ∧ rt_rows r' = sub_rows sub ∧
         rt_subscribers r' = rt_subscribers r) ∧
       ∀ e, e ∈ es ↔
         e = Send c (PaneLease pane Control) ∨
         (∃ p, rt_control r = Some p ∧ e = Send p (PaneLease pane Observe)) ∨
         (rt_access r = Observe ∧
           (e = CloseRoute pane ∨ e = OpenRoute pane Control (sub_cols sub) (sub_rows sub))) ∨
         ((rt_cols r, rt_rows r) ≠ (sub_cols sub, sub_rows sub) ∧
           e = RouteResize pane (sub_cols sub) (sub_rows sub)).
Proof.
  intros Hlen b Hsub. pose proof (reached_inv v fs qs inputs Hlen) as Hinv. fold b in Hinv.
  destruct (proj2 (inv_subs _ _ _ Hinv c pane) (or_introl (ex_intro _ sub Hsub))) as (r & Hr & Hin).
  destruct (inv_audience _ _ Hinv pane r c Hr Hin) as (s & Hs & Hg).
  exists r. split; [done|]. cbn [step]. unfold handle. rewrite Hs, Hg. cbn [dispatch].
  unfold take_control. rewrite Hs. unfold subscription in Hsub. rewrite Hs in Hsub. simpl in Hsub.
  rewrite Hsub, Hr. clearbody b. clear Hlen.
  destruct (bool_decide (rt_control r = Some c)) eqn:E1;
    [apply bool_decide_eq_true in E1; cbv beta iota; by rewrite decide_True by done|].
  apply bool_decide_eq_false in E1.
  destruct (free && _) eqn:E2.
  { apply andb_true_iff in E2 as [-> E2%bool_decide_eq_true].
    cbv beta iota. rewrite decide_False by done. rewrite decide_True; [done|].
    split; [done|]. intros E. rewrite E in E2. by destruct E2. }
  assert (¬ (free = true ∧ rt_control r ≠ None)) as E4.
  { intros [-> Hh]. simpl in E2. apply bool_decide_eq_false in E2. apply E2.
    destruct (rt_control r); [eauto|done]. }
  destruct (resize_fields pane (sub_cols sub) (sub_rows sub) (set_control (Some c) r)) as (R1 & R2 & R3 & R4).
  destruct (resize_spec pane (sub_cols sub) (sub_rows sub) (set_control (Some c) r)) as (S1 & S2 & S3).
  destruct (resize_for_control _ _ _ _) as [r1 resized]. cbn [fst snd] in *. simpl in R1, R3, R4, S3.
  clear E2. destruct (bool_decide (rt_access r1 = Control)) eqn:E3; rewrite R4 in E3;
    cbv beta iota; rewrite !decide_False by done.
  - apply bool_decide_eq_true in E3. split.
    + exists r1. split_and!; congruence.
    + intros e. rewrite !elem_of_app, S3, list_elem_of_singleton.
      assert (e ∈ match rt_control r with Some p => [Send p (PaneLease pane Observe)] | None => [] end
        ↔ ∃ p, rt_control r = Some p ∧ e = Send p (PaneLease pane Observe)) as ->
        by (destruct (rt_control r); [rewrite list_elem_of_singleton|rewrite elem_of_nil]; naive_solver).
      rewrite elem_of_nil, E3. naive_solver.
  - apply bool_decide_eq_false in E3. split.
    + eexists. split; [reflexivity|]. simpl. split_and!; congruence.
    + intros e. rewrite !elem_of_app, S3, !elem_of_cons, elem_of_nil, S1, S2.
      assert (e ∈ match rt_control r with Some p => [Send p (PaneLease pane Observe)] | None => [] end
        ↔ ∃ p, rt_control r = Some p ∧ e = Send p (PaneLease pane Observe)) as ->
        by (destruct (rt_control r); [rewrite list_elem_of_singleton|rewrite elem_of_nil]; naive_solver).
      destruct (rt_access r); [|done]. tauto.
Qed.

(** A subscription does not reopen a route. A client that subscribes for
    control to a pane whose route is open only to observe, and whose lease is
    free, is granted the lease and told so, while the terminal process keeps
    observing: it is neither closed nor reopened. What the client types then
    passes the lease check towards a process that has no input, and asking for
    control does nothing, because the client already holds it. *)
Theorem control_on_observing_process c pane cols rows0 rep b r :
  greeted b c → routes b !! pane = Some r → rt_access r = Observe → rt_control r = None →
  let '(b', es) := step (Message c (SubscribePane pane Control cols rows0 rep)) b in
  (∃ r', routes b' !! pane = Some r' ∧ rt_control r' = Some c ∧ rt_access r' = Observe) ∧
  Send c (PaneLease pane Control) ∈ es ∧
  (∀ access w h, OpenRoute pane access w h ∉ es) ∧
  (∀ payload, step (Message c (PaneInput pane payload)) b' = (b', [RouteInput pane payload])) ∧
  ∀ free, step (Message c (TakePaneControl pane free)) b' = (b', []).
Proof.
  intros (s & Hs & Hg) Hr Ha Hc. cbn [step]. unfold handle at 1. rewrite Hs, Hg. cbn [dispatch].
  unfold subscribe_pane. rewrite Hs. set (sub := new_subscription Control cols rows0 rep).
  set (b1 := alter_client _ c b).
  assert (clients b1 !! c = Some (set_cl_panes (<[pane := sub]> (cl_panes s)) s)) as Hs1
    by (unfold b1; simpl; by rewrite lookup_alter_eq, Hs).
  assert (∃ r1, grant c pane Control cols rows0 b1 =
      (put_route pane r1 b1, (grant c pane Control cols rows0 b1).1.2, Control) ∧
      rt_control r1 = Some c ∧ rt_access r1 = Observe ∧
      ∀ access w h, OpenRoute pane access w h ∉ (grant c pane Control cols rows0 b1).1.2)
    as (r1 & Hgr & Hc1 & Ha1 & Hno).
  { unfold grant. change (routes b1) with (routes b). rewrite Hr. simpl. rewrite Hc. simpl.
    unfold resize_for_control. destruct (_ && _); eexists; (split; [reflexivity|]);
      (split; [done|split; [done|]]); intros access w h Hin;
      cbn [fst snd] in Hin; rewrite ?list_elem_of_singleton, ?elem_of_nil in Hin; done. }
  rewrite Hgr. set (effects := (grant c pane Control cols rows0 b1).1.2) in *. clearbody effects.
  pose proof (first_screen_shape c pane rep (put_route pane r1 b1)) as [Hro _ Hfl Hsub].
  assert (∀ access w h, OpenRoute pane access w h ∉ (first_screen c pane rep (put_route pane r1 b1)).2)
    as Hno2.
  { intros access w h Hin. unfold first_screen in Hin.
    destruct (screens (put_route pane r1 b1) !! pane);
      [destruct (bool_decide (rep = AsScreen))|]; cbn [snd] in Hin;
      rewrite ?list_elem_of_singleton, ?elem_of_nil in Hin; done. }
  destruct (first_screen _ _ _ _) as [b2 shown]. cbn [fst snd] in *.
  assert (routes b2 !! pane = Some r1) as Hr2 by (rewrite Hro; apply lookup_insert_eq).
  assert (∃ s2 sub2, clients b2 !! c = Some s2 ∧ cl_greeted s2 = true ∧ cl_panes s2 !! pane = Some sub2)
    as (s2 & sub2 & Hs2 & Hg2 & Hsub2).
  { specialize (Hfl c). change (clients (put_route pane r1 b1)) with (clients b1) in Hfl.
    rewrite Hs1 in Hfl. simpl in Hfl. destruct (clients b2 !! c) as [s2|] eqn:Hs2; [|done].
    injection Hfl as Hf _ _ _. exists s2.
    destruct (proj2 (Hsub c pane)) as [sub2 Hsub2].
    { exists sub. unfold subscription. change (clients (put_route pane r1 b1)) with (clients b1).
      rewrite Hs1. simpl. by rewrite lookup_insert_eq. }
    unfold subscription in Hsub2. rewrite Hs2 in Hsub2. exists sub2. split; [done|split; [congruence|done]]. }
  split; [by exists r1|split; [|split; [|split]]].
  - rewrite !elem_of_app, list_elem_of_singleton. tauto.
  - intros access w h. rewrite !elem_of_app, list_elem_of_singleton.
    intros [Hin|[Hin|Hin]]; [by eapply Hno|by eapply Hno2|done].
  - intros payload. unfold handle. rewrite Hs2, Hg2. cbn [dispatch guarded]. unfold leased.
    assert (holds_control c pane b2 = true) as ->; [|done].
    apply bool_decide_eq_true. rewrite Hr2. exact Hc1.
  - intros free. unfold handle. rewrite Hs2, Hg2. cbn [dispatch]. unfold take_control.
    rewrite Hs2, Hsub2, Hr2, bool_decide_eq_true_2 by done. done.
Qed.
End requests.

(** ** Concrete runs *)

(** The first client holds the lease of a pane both watch. *)
Definition ex_contended : list input :=
  [Connect; Connect; hello 0; hello 1;
   Message 0 (SubscribePane ex_pane Control 4 2 AsScreen);
   Message 1 (SubscribePane ex_pane Observe 8 3 Frames)].

Lemma ex_contended_sub :
  subscription (ex_reached ex_contended).1 1%N ex_pane = Some (new_subscription Observe 8 3 Frames).
Proof. vm_compute. reflexivity. Qed.

Lemma control_on_observing_process_witness :
  (rt_access <$> routes (ex_reached ex_watch).1 !! ex_pane) = Some Observe ∧
  let '(b', es) := step (Message 1 (SubscribePane ex_pane Control 4 2 Frames)) (ex_reached ex_watch).1 in
  ∃ r, routes b' !! ex_pane = Some r ∧ rt_control r = Some 1%N ∧ rt_access r = Observe.
Proof.
  split; [vm_compute; reflexivity|].
  assert (routes (ex_reached ex_watch).1 !! ex_pane =
    Some {| rt_access := Observe; rt_cols := 4; rt_rows := 2; rt_control := None;
            rt_subscribers := {[0%N]}; rt_unclaimed := false |}) as Hr by (vm_compute; reflexivity).
  assert (cl_greeted <$> clients (ex_reached ex_watch).1 !! 1%N = Some true) as Hg by (vm_compute; reflexivity).
  assert (greeted (ex_reached ex_watch).1 1) as Hgr.
  { destruct (clients (ex_reached ex_watch).1 !! 1%N) as [s|] eqn:E; [|discriminate Hg].
    injection Hg as Hg. exists s. split; [exact E|exact Hg]. }
  pose proof (control_on_observing_process 1%N ex_pane 4%N 2%N Frames (ex_reached ex_watch).1 _
    Hgr Hr eq_refl eq_refl) as Hctl.
  destruct (step (Message 1 (SubscribePane ex_pane Control 4 2 Frames)) (ex_reached ex_watch).1) as [b' es].
  exact (proj1 Hctl).
Defined.

Lemma lease_guards_witness :
  holds_control 0 ex_pane (ex_reached ex_contended).1 = true ∧
  ∃ c message, Message 0 (PaneInput ex_pane (u "ls")) = Message c message ∧
    holds_control c ex_pane (ex_reached ex_contended).1 = true.
Proof.
  split; [vm_compute; reflexivity|].
  assert (RouteInput ex_pane (u "ls") ∈
    (step (Message 0 (PaneInput ex_pane (u "ls"))) (ex_reached ex_contended).1).2) as Hin.
  { assert ((step (Message 0 (PaneInput ex_pane (u "ls"))) (ex_reached ex_contended).1).2
      = [RouteInput ex_pane (u "ls")]) as -> by (vm_compute; reflexivity). left. }
  exact (proj1 (lease_guards (Message 0 (PaneInput ex_pane (u "ls"))) (ex_reached ex_contended).1
    (RouteInput ex_pane (u "ls")) ex_pane Hin) (list_elem_of_here _ _)).
Defined.

Lemma lease_announced_witness :
  let '(b, es) := ex_reached ex_contended in
  match routes b !! ex_pane with
  | Some r => (1%N ∈ rt_subscribers r) ∧
      hear es ∅ !! (1%N, ex_pane) = Some (if decide (rt_control r = Some 1%N) then Control else Observe)
  | None => False
  end.
Proof.
  pose proof (λ r, lease_announced (u "0.1") [] [] ex_contended ex_pane r 1%N) as Ha.
  assert (routes (ex_reached ex_contended).1 !! ex_pane =
    Some {| rt_access := Control; rt_cols := 4; rt_rows := 2; rt_control := Some 0%N;
            rt_subscribers := {[0%N; 1%N]}; rt_unclaimed := false |}) as Hr by (vm_compute; reflexivity).
  destruct (ex_reached ex_contended) as [b es]. cbn [fst] in Hr. rewrite Hr.
  assert (1%N ∈ ({[0%N; 1%N]} : gset N)) as Hin by (clear; set_solver).
  split; [exact Hin|]. exact (Ha _ Hr Hin).
Defined.

Lemma routes_served_witness :
  let '(b, m) := foldl serve_input (Broker_new (u "0.1") [] [], ∅) ex_contended in
  rt_access <$> routes b !! ex_pane = Some Control ∧ m !! ex_pane = Some Control.
Proof.
  pose proof (λ r, routes_served (u "0.1") [] [] ex_contended ex_pane r) as Ha.
  assert (rt_access <$> routes (foldl serve_input (Broker_new (u "0.1") [] [], ∅) ex_contended).1 !! ex_pane
    = Some Control) as Hr by (vm_compute; reflexivity).
  destruct (foldl serve_input _ ex_contended) as [b m]. cbn [fst] in Hr. split; [exact Hr|].
  destruct (routes b !! ex_pane) as [r|] eqn:E; [|discriminate Hr]. injection Hr as Hr.
  rewrite (Ha r eq_refl). by rewrite Hr.
Defined.

Lemma handshake_first_witness :
  clients (ex_reached [Connect]).1 !! 0%N = Some Client_new ∧
  ∃ message, hello 0 = Message 0 message ∧
    ((∃ name, message = ClientHello PROTOCOL_VERSION name) ∧
     (step (hello 0) (ex_reached [Connect]).1).2 = [Send 0 (hello_message (ex_reached [Connect]).1)] ∧
     greeted (step (hello 0) (ex_reached [Connect]).1).1 0 ∨
     ∃ reason, (step (hello 0) (ex_reached [Connect]).1).2 = [error_to 0 reason; Disconnect 0 reason] ∧
       (step (hello 0) (ex_reached [Connect]).1).1 = (ex_reached [Connect]).1).
Proof.
  assert (clients (ex_reached [Connect]).1 !! 0%N = Some Client_new) as Hs by (vm_compute; reflexivity).
  split; [exact Hs|].
  apply (handshake_first (u "0.1") [] [] [Connect] (hello 0) 0%N (hello_message (ex_reached [Connect]).1)
    Client_new); [vm_compute; discriminate|exact Hs|reflexivity|].
  assert ((step (hello 0) (ex_reached [Connect]).1).2 = [Send 0 (hello_message (ex_reached [Connect]).1)])
    as -> by (vm_compute; reflexivity).
  left.
Defined.

Lemma take_control_takes_witness :
  subscription (ex_reached ex_contended).1 1%N ex_pane = Some (new_subscription Observe 8 3 Frames) ∧
  ∃ r, routes (ex_reached ex_contended).1 !! ex_pane = Some r ∧ rt_control r = Some 0%N.
Proof.
  split; [exact ex_contended_sub|].
  assert (N.of_nat (length ex_contended) ≤ u64_max)%N as Hlen by (vm_compute; discriminate).
  destruct (take_control_takes (u "0.1") [] [] ex_contended 1%N ex_pane false _ Hlen ex_contended_sub)
    as (r & Hr & _).
  exists r. split; [exact Hr|].
  assert (rt_control <$> routes (ex_reached ex_contended).1 !! ex_pane = Some (Some 0%N)) as Hc
    by (vm_compute; reflexivity).
  rewrite Hr in Hc. by injection Hc.
Defined.
