(* ===== verification/BrokerFederation.v ===== *)
(** The federation through the broker: what a client rebuilds from the messages
    it is sent, and what becomes of the routes of panes that are gone. *)

From S2P Require Import Prelude Model Config State StateFacts Attention AgentMarks Aliases.
From S2P Require Import AgentCards Screen ScreenFacts Operation Protocol Broker BrokerInv.
From S2P Require Import BrokerScreens BrokerRender BrokerFacts BrokerLeases BrokerRequests.
From S2P Require Import Examples.
Import Teletype.

(** What a client does to its copy of the federation on a message: the arms of
    [src/src/client.rs]'s reader that concern it. *)
Definition client_apply (federation : FederationState) (message : ServerMessage) : FederationState :=
  match message with
  | FederationFull whole => whole
  | TargetState target one =>
      {| fed_revision := u64_saturating_add (fed_revision federation) 1;
         State.targets := match one with
                    | Some one => <[target := one]> (State.targets federation)
                    | None => delete target (State.targets federation)
                    end |}
  | _ => federation
  end.

Section federation.
Context `{Vt100}.
Implicit Types (b : Broker) (c : ClientId) (pane : PaneId) (e : Effect) (l : list Effect)
  (f g : FederationState).

(** A client's copy after an effect. *)
Definition follow c f e : FederationState :=
  match e with
  | Send c' message => if decide (c' = c) then client_apply f message else f
  | _ => f
  end.

(** Two federations a client cannot tell apart. *)
Definition agree f g : Prop :=
  ∀ k, client_view <$> State.targets f !! k = client_view <$> State.targets g !! k.

(** Effects that say nothing of the federation. *)
Definition is_dull e : bool :=
  match e with
  | Send _ (FederationFull _) | Send _ (TargetState _ _) => false
  | _ => true
  end.
Definition dull l : Prop := Forall (λ e, is_dull e = true) l.

Lemma dull_follow c l f : dull l → foldl (follow c) f l = f.
Proof.
  induction 1 as [|e l He Hl IH]; [done|]. simpl.
  assert (follow c f e = f) as ->; [|done].
  destruct e; try reflexivity. simpl. case_decide; [|done]. by destruct message.
Qed.

Lemma dull_app l1 l2 : dull l1 → dull l2 → dull (l1 ++ l2).
Proof. apply Forall_app_2. Qed.

Lemma dull_fmap {A} (h : A → Effect) (k : list A) : (∀ a, is_dull (h a) = true) → dull (h <$> k).
Proof. intros Hf. apply Forall_fmap, Forall_true. done. Qed.

(** ** What the other methods keep *)

(** The federation is the same and nobody new is subscribed to it. *)
Record keeps b b' : Prop := {
  kp_state : state b' = state b;
  kp_flag : ∀ c s', clients b' !! c = Some s' → cl_state s' = true →
    ∃ s, clients b !! c = Some s ∧ cl_state s = true;
}.

#[export] Instance keeps_refl : Reflexive keeps.
Proof. split; eauto. Qed.
#[export] Instance keeps_trans : Transitive keeps.
Proof.
  intros b1 b2 b3 [S1 F1] [S2 F2]. split; [congruence|]. intros c s Hs Hf.
  destruct (F2 c s Hs Hf) as (s2 & Hs2 & Hf2). eauto.
Qed.

Lemma keeps_alter h c b :
  (∀ s, cl_state (h s) = cl_state s) → keeps b (alter_client h c b).
Proof.
  intros Hh. split; [done|]. intros c' s'. unfold alter_client; simpl. rewrite lookup_alter.
  case_decide; [|eauto]. subst. intros (s & Hs & ->)%fmap_Some. rewrite Hh. eauto.
Qed.

Lemma keeps_foldl {A} (h : Broker → A → Broker) k b :
  (∀ b a, keeps b (h b a)) → keeps b (foldl h b k).
Proof.
  intros Hh. apply (foldl_ind (λ b', keeps b b')); [reflexivity|].
  intros b' a Hb. etrans; [exact Hb|apply Hh].
Qed.

Lemma keeps_each {A} (h : A → Broker → Broker * list Effect) k b :
  (∀ a b, keeps b (h a b).1) → keeps b (each h (b, []) k).1.
Proof.
  intros Hh. apply (each_both h (λ b' _, keeps b b')); [reflexivity|].
  intros a b' es Hb. etrans; [exact Hb|apply Hh].
Qed.

(** ** Closed routes *)

Lemma pane_route_closed_spec pane b :
  let w := pane_route_closed pane b in
  (∀ p, routes w.1 !! p = if decide (p = pane) then None else routes b !! p) ∧
  keeps b w.1 ∧
  ∀ e, e ∈ w.2 ↔ ∃ r c, routes b !! pane = Some r ∧ c ∈ rt_subscribers r ∧ e = Send c (PaneClosed pane).
Proof.
  unfold pane_route_closed. destruct (routes b !! pane) as [r|] eqn:Hr; cbn [fst snd].
  - destruct (forget_all_clients (set_iter (rt_subscribers r)) pane
      (set_screens (set_routes b (delete pane (routes b))) (delete pane (screens b)))) as (R & _).
    split; [|split].
    + intros p. rewrite R. simpl. rewrite lookup_delete.
      destruct (decide (pane = p)) as [<-|Hne]; [by rewrite decide_True|by rewrite decide_False].
    + etrans; [|apply keeps_foldl; intros b0 c; by apply keeps_alter]. split; eauto.
    + intros e. rewrite list_elem_of_fmap. setoid_rewrite elem_of_set_iter. naive_solver.
  - split; [|split; [done|]].
    + intros p. case_decide as E; [by subst|done].
    + intros e. rewrite elem_of_nil. naive_solver.
Qed.

Lemma each_closed k b :
  let w := each pane_route_closed (b, []) k in
  (∀ p, routes w.1 !! p = if decide (p ∈ k) then None else routes b !! p) ∧
  ∀ e, e ∈ w.2 ↔ ∃ p r c, p ∈ k ∧ routes b !! p = Some r ∧ c ∈ rt_subscribers r ∧
    e = Send c (PaneClosed p).
Proof.
  induction k as [|pane k IH] using rev_ind; cbn zeta in *.
  - split; [intros p; rewrite decide_False; [done|by intros ?%elem_of_nil]|].
    intros e. simpl. rewrite elem_of_nil. split; [done|]. by intros (p & r & c & ?%elem_of_nil & _).
  - unfold each in *. rewrite foldl_app. cbn [foldl].
    destruct (foldl _ (b, []) k) as [b1 es]. cbn [fst snd] in *. destruct IH as [R E].
    destruct (pane_route_closed_spec pane b1) as (R1 & _ & E1).
    destruct (pane_route_closed pane b1) as [b2 es2]. cbn [fst snd] in *. split.
    + intros p. rewrite R1, R. destruct (decide (p = pane)) as [->|Hne].
      * rewrite decide_True; [done|]. apply elem_of_app. right. by left.
      * destruct (decide (p ∈ k)) as [Hp|Hp].
        -- rewrite decide_True; [done|]. apply elem_of_app. by left.
        -- rewrite decide_False; [done|]. rewrite elem_of_app, list_elem_of_singleton. tauto.
    + intros e. rewrite elem_of_app, E, E1. split.
      * intros [(p & r & c & Hp & Hr & Hc & ->)|(r & c & Hr & Hc & ->)].
        -- exists p, r, c. rewrite elem_of_app. tauto.
        -- rewrite R in Hr. destruct (decide (pane ∈ k)); [done|].
           exists pane, r, c. rewrite elem_of_app, list_elem_of_singleton. tauto.
      * intros (p & r & c & Hp & Hr & Hc & ->). destruct (decide (p ∈ k)) as [Hk|Hk].
        -- left. by exists p, r, c.
        -- right. apply elem_of_app in Hp as [?| ->%list_elem_of_singleton]; [done|].
           exists r, c. by rewrite R, decide_False.
Qed.

Lemma elem_of_gone st b pane :
  pane ∈ filter (λ pane, pane_is_gone st pane = true) (keys (routes b)) ↔
  pane_is_gone st pane = true ∧ is_Some (routes b !! pane).
Proof. rewrite list_elem_of_filter, elem_of_keys. done. Qed.

(** What [pane_is_gone] decides. *)
Lemma pane_is_gone_spec st pane :
  pane_is_gone st pane = true ↔
  State.targets st !! target_session pane = None ∨
  ∃ t s, State.targets st !! target_session pane = Some t ∧ connection t = Live ∧
    snapshot t = Some s ∧ State.panes s !! pane = None.
Proof.
  unfold pane_is_gone. destruct (State.targets st !! target_session pane) as [t|]; [|tauto].
  unfold is_live. destruct (bool_decide (connection t = Live)) eqn:E; cbn [negb];
    [apply bool_decide_eq_true in E|apply bool_decide_eq_false in E].
  - destruct (snapshot t) as [s|] eqn:Es; [|naive_solver].
    rewrite negb_true_iff, bool_decide_eq_false, <-eq_None_not_Some. naive_solver.
  - naive_solver.
Qed.

(** A new federation closes exactly the routes of panes that are gone. A
    pane is gone when its target left the federation, or is live and its
    snapshot no longer lists the pane; a target in backoff, or one without a
    snapshot, proves nothing. Each route of a pane that is gone is dropped and
    each of its subscribers is told so; every other route is untouched, and
    nobody is told anything of its closing. *)
Theorem vanished_routes_closed st b :
  let w := step (Federation st) b in
  (∀ pane, routes w.1 !! pane = if pane_is_gone st pane then None else routes b !! pane) ∧
  (∀ pane, pane_is_gone st pane = true ↔
    State.targets st !! target_session pane = None ∨
    ∃ t s, State.targets st !! target_session pane = Some t ∧ connection t = Live ∧
      snapshot t = Some s ∧ State.panes s !! pane = None) ∧
  (∀ c pane, Send c (PaneClosed pane) ∈ w.2 ↔
    pane_is_gone st pane = true ∧ ∃ r, routes b !! pane = Some r ∧ c ∈ rt_subscribers r).
Proof.
  cbn zeta. cbn [step]. unfold federation_updated, close_vanished_routes.
  change (state (set_state b st)) with st. change (routes (set_state b st)) with (routes b).
  set (told := message ← _; _).
  assert (∀ c pane, Send c (PaneClosed pane) ∉ told) as Htold.
  { intros c pane (m & Hm & Hin)%list_elem_of_bind. unfold broadcast_state in Hm.
    apply list_elem_of_fmap in Hm as (c' & [= _ <-] & _).
    unfold federation_changes in Hin. apply elem_of_app in Hin as [Hin|Hin];
      apply list_elem_of_omap in Hin as (? & _ & Hin); by case_match. }
  destruct (each_closed (filter (λ pane, pane_is_gone st pane = true) (keys (routes b)))
    (set_state b st)) as [R E]. cbn zeta in R, E.
  destruct (each _ _ _) as [b' closed]. cbn [fst snd] in *.
  split; [|split; [intros; apply pane_is_gone_spec|]].
  - intros pane. rewrite R. change (routes (set_state b st)) with (routes b).
    destruct (decide _) as [Hv|Hv]; rewrite elem_of_gone in Hv.
    + by destruct Hv as [-> _].
    + destruct (pane_is_gone st pane); [|done]. apply eq_None_not_Some. tauto.
  - intros c pane. rewrite elem_of_app, E. setoid_rewrite elem_of_gone.
    change (routes (set_state b st)) with (routes b). split.
    + intros [Hin|(p & r & c' & [Hg _] & Hr & Hc & [= <- <-])]; [by destruct (Htold c pane)|eauto].
    + intros (Hg & r & Hr & Hc). right. exists pane, r, c. rewrite Hr. eauto 10.
Qed.

(** ** Following the federation *)

(** Messages that state what the new federation has for a target. *)
Definition states g (m : ServerMessage) : Prop :=
  ∃ k, m = TargetState k (State.targets g !! k).

Definition about (k : TargetSession) (m : ServerMessage) : Prop :=
  match m with TargetState k' _ => k' = k | _ => False end.

#[export] Instance about_dec k m : Decision (about k m).
Proof. destruct m; simpl; apply _. Defined.

Lemma apply_all g (ms : list ServerMessage) f k :
  Forall (states g) ms →
  (Exists (about k) ms → State.targets (foldl client_apply f ms) !! k = State.targets g !! k) ∧
  (¬ Exists (about k) ms → State.targets (foldl client_apply f ms) !! k = State.targets f !! k).
Proof.
  induction ms as [|m ms IH] using rev_ind; intros Hms.
  { split; [by intros ?%Exists_nil|done]. }
  apply Forall_app in Hms as [Hms [[k' ->] _]%Forall_cons]. destruct (IH Hms) as [I1 I2].
  rewrite foldl_app, Exists_app. cbn [foldl].
  assert (State.targets (client_apply (foldl client_apply f ms)
      (TargetState k' (State.targets g !! k'))) !! k =
    if decide (k' = k) then State.targets g !! k
    else State.targets (foldl client_apply f ms) !! k) as ->.
  { cbn [client_apply State.targets]. destruct (State.targets g !! k') as [t|] eqn:Ht; case_decide as E.
    - subst. rewrite Ht. apply lookup_insert_eq.
    - by apply lookup_insert_ne.
    - subst. rewrite Ht. apply lookup_delete_eq.
    - by apply lookup_delete_ne. }
  assert (Exists (about k) [TargetState k' (State.targets g !! k')] ↔ k' = k) as ->
    by (rewrite Exists_cons, Exists_nil; simpl; tauto).
  case_decide; [split; [done|tauto]|]. split; [intros [?|?]; [by apply I1|done]|intros; apply I2; tauto].
Qed.

Lemma changes_state old new : Forall (states new) (federation_changes old new).
Proof.
  apply Forall_forall. intros m [Hm|Hm]%elem_of_app; apply list_elem_of_omap in Hm.
  - destruct Hm as ([k t] & Hin%elem_of_entries & Hm). exists k. cbn [fst snd] in Hm.
    destruct (State.targets old !! k) as [p|]; [destruct (differs_for_clients p t)|];
      simplify_eq; by rewrite Hin.
  - destruct Hm as (k & _ & Hm). exists k. case_decide as E; [done|]. injection Hm as <-.
    apply eq_None_not_Some in E. by rewrite E.
Qed.

Lemma changes_about old new k :
  ¬ Exists (about k) (federation_changes old new) →
  client_view <$> State.targets old !! k = client_view <$> State.targets new !! k.
Proof.
  intros Hno. assert (∀ m, m ∈ federation_changes old new → ¬ about k m) as Hno'.
  { intros m Hm Ha. apply Hno, Exists_exists. eauto. }
  destruct (State.targets new !! k) as [t|] eqn:Hnew.
  - destruct (State.targets old !! k) as [p|] eqn:Hold.
    + destruct (differs_for_clients p t) eqn:Hd.
      * exfalso. apply (Hno' (TargetState k (Some t))); [|done]. apply elem_of_app. left.
        apply list_elem_of_omap. exists (k, t). rewrite elem_of_entries. cbn [fst snd].
        by rewrite Hold, Hd.
      * simpl. f_equal. by apply differs_for_clients_iff.
    + exfalso. apply (Hno' (TargetState k (Some t))); [|done]. apply elem_of_app. left.
      apply list_elem_of_omap. exists (k, t). rewrite elem_of_entries. cbn [fst snd]. by rewrite Hold.
  - destruct (State.targets old !! k) as [p|] eqn:Hold; [|done].
    exfalso. apply (Hno' (TargetState k None)); [|done]. apply elem_of_app. right.
    apply list_elem_of_omap. exists k. rewrite elem_of_keys, Hold. split; [by eexists|].
    rewrite decide_False; [done|]. rewrite Hnew. by intros [? ?].
Qed.

Lemma apply_changes f old new : agree f old → agree (foldl client_apply f (federation_changes old new)) new.
Proof.
  intros Ha k. destruct (apply_all new (federation_changes old new) f k (changes_state old new)) as [H1 H2].
  destruct (decide (Exists (about k) (federation_changes old new))) as [E|E].
  - by rewrite H1.
  - rewrite H2 by done. rewrite (Ha k). by apply changes_about.
Qed.

Lemma follow_broadcast c m (k : list ClientId) f :
  NoDup k →
  foldl (follow c) f ((λ c, Send c m) <$> k) = if decide (c ∈ k) then client_apply f m else f.
Proof.
  revert f. induction k as [|x k IH]; intros f Hk; [done|]. apply NoDup_cons in Hk as [Hx Hk].
  rewrite fmap_cons. cbn [foldl follow]. rewrite IH by done.
  destruct (decide (x = c)) as [->|Hne].
  - rewrite decide_False by done. rewrite decide_True; [done|left].
  - destruct (decide (c ∈ k)) as [Hc|Hc].
    + rewrite decide_True; [done|by right].
    + rewrite decide_False; [done|]. rewrite elem_of_cons. intros [->|?]; done.
Qed.

Lemma NoDup_clients_with p b : NoDup (clients_with p b).
Proof.
  assert (clients_with p b = filter (λ c, p <$> clients b !! c = Some true) (keys (clients b))) as ->;
    [|apply NoDup_filter, NoDup_keys].
  unfold clients_with. rewrite <-NoDup_entries_keys.
  assert (∀ x, x ∈ entries (clients b) → clients b !! x.1 = Some x.2) as He
    by (intros [c s] Hin; by apply elem_of_entries in Hin).
  induction (entries (clients b)) as [|[c s] k IH]; [done|].
  rewrite fmap_cons, filter_cons. cbn [omap list_omap fst snd].
  pose proof (He (c, s) (list_elem_of_here _ _)) as Hc. cbn [fst snd] in Hc.
  rewrite <-IH by (intros x Hin; apply He; by right).
  destruct (decide (p <$> clients b !! c = Some true)) as [E|E]; rewrite Hc in E; simpl in E;
    destruct (p s); done.
Qed.

Lemma follow_told c b (ms : list ServerMessage) f s :
  clients b !! c = Some s → cl_state s = true →
  foldl (follow c) f (m ← ms; broadcast_state m b) = foldl client_apply f ms.
Proof.
  intros Hs Hf. revert f. induction ms as [|m ms IH]; intros f; [done|].
  rewrite bind_cons, foldl_app.
  assert (∀ f, foldl (follow c) f (broadcast_state m b) = client_apply f m) as ->; [|apply IH].
  intros f'. unfold broadcast_state. rewrite follow_broadcast by apply NoDup_clients_with.
  rewrite decide_True; [done|]. apply clients_with_spec. eauto.
Qed.

(** ** Every other input *)

Lemma release_pane_keeps c pane b : keeps b (release_pane c pane b).1.
Proof.
  unfold release_pane. destruct (routes b !! pane) as [r|]; [|done].
  case_bool_decide; [split; eauto|]. set (b1 := release_screen_if_unwatched _ _).
  assert (keeps b b1) as Hb1
    by (unfold b1, release_screen_if_unwatched; case_goal; split; eauto).
  destruct (negb _); [done|]. destruct (routes b1 !! pane) as [r'|]; [|done].
  destruct (drop_control pane r') as [r2 effects]. etrans; [exact Hb1|]. split; eauto.
Qed.

Lemma release_pane_dull c pane b : dull (release_pane c pane b).2.
Proof.
  unfold release_pane. destruct (routes b !! pane) as [r|]; [|constructor].
  case_bool_decide; [by repeat constructor|]. destruct (negb _); [constructor|].
  destruct (routes (release_screen_if_unwatched _ _) !! pane) as [r'|]; [|constructor].
  assert (dull (drop_control pane r').2) as Hd; [|by destruct (drop_control pane r')].
  rewrite drop_control_effects. apply dull_app; [|by apply dull_fmap].
  destruct (bool_decide _); by repeat constructor.
Qed.

Lemma put_keeps pane r b : keeps b (put_route pane r b).
Proof. split; eauto. Qed.

Lemma take_control_keeps c pane free b :
  keeps b (take_control c pane free b).1 ∧ dull (take_control c pane free b).2.
Proof.
  unfold take_control. destruct (clients b !! c) as [s|]; [|split; [done|constructor]].
  destruct (cl_panes s !! pane) as [sub|]; [|split; [done|by repeat constructor]].
  destruct (routes b !! pane) as [r|]; [|split; [done|constructor]].
  destruct (bool_decide _); [split; [done|constructor]|].
  destruct (free && _); [split; [done|by repeat constructor]|].
  unfold resize_for_control.
  destruct (_ && _), (rt_control r); cbn -[bool_decide];
    case_bool_decide; split; try apply put_keeps; by repeat constructor.
Qed.

Lemma subscribe_keeps c pane access cols rows0 rep b :
  keeps b (subscribe_pane c pane access cols rows0 rep b).1 ∧
  dull (subscribe_pane c pane access cols rows0 rep b).2.
Proof.
  unfold subscribe_pane. destruct (clients b !! c) as [s|]; [|split; [done|constructor]].
  set (b1 := alter_client _ c b). assert (keeps b b1) as H1 by (by apply keeps_alter).
  assert (keeps b1 (grant c pane access cols rows0 b1).1.1 ∧ dull (grant c pane access cols rows0 b1).1.2)
    as [H2 D2].
  { unfold grant, resize_for_control. destruct (routes b1 !! pane).
    - destruct (_ && _); [destruct (_ && _)|destruct (bool_decide _)];
        (split; [apply put_keeps|by repeat constructor]).
    - split; [apply put_keeps|by repeat constructor]. }
  destruct (grant c pane access cols rows0 b1) as [[b2 effects] granted]. cbn [fst snd] in *.
  assert (keeps b2 (first_screen c pane rep b2).1 ∧ dull (first_screen c pane rep b2).2) as [H3 D3].
  { unfold first_screen. destruct (screens b2 !! pane); [|split; [done|constructor]].
    case_bool_decide; (split; [try done; by apply keeps_alter|by repeat constructor]). }
  destruct (first_screen _ _ _ _) as [b3 shown]. cbn [fst snd] in *. split.
  - etrans; [exact H1|]. by etrans.
  - apply dull_app; [done|]. apply dull_app; [done|]. by repeat constructor.
Qed.

Lemma leased_dull c pane b l : dull l → dull (leased c pane b l).
Proof. intros Hl. unfold leased. destruct (holds_control _ _ _); [done|by repeat constructor]. Qed.

Lemma guarded_dull c message b : dull (guarded c message b).
Proof. destruct message; try constructor; repeat apply leased_dull; by repeat constructor. Qed.

Lemma forwarded_dull c message : dull (forwarded c message).
Proof. destruct message; by repeat constructor. Qed.

Lemma ack_keeps c pane q b :
  keeps b (ack_pane_screen c pane q b).1 ∧ dull (ack_pane_screen c pane q b).2.
Proof.
  unfold ack_pane_screen. destruct (subscription b c pane) as [sub|]; [|split; [done|constructor]].
  destruct (negb _); [split; [done|constructor]|].
  set (b1 := alter_client (alter_sub _ pane) c b).
  assert (keeps b b1) as H1 by (by apply keeps_alter).
  destruct (screens b !! pane); [|split; [done|constructor]].
  destruct (_ || _); [split; [done|constructor]|]. split.
  - etrans; [exact H1|]. by apply keeps_alter.
  - unfold update_for. by repeat constructor.
Qed.

Lemma dispatch_keeps c message b :
  message ≠ SubscribeState →
  keeps b (dispatch c message b).1 ∧ dull (dispatch c message b).2.
Proof.
  intros Hne. destruct message; cbn [dispatch]; try done;
    try (split; [first [reflexivity|by apply keeps_alter]
                |first [apply guarded_dull|apply forwarded_dull|by repeat constructor]]).
  - apply subscribe_keeps.
  - apply ack_keeps.
  - unfold unsubscribe_pane. destruct (subscription b c pane); [|split; [done|constructor]].
    split; [|apply release_pane_dull]. etrans; [|apply release_pane_keeps]. by apply keeps_alter.
  - apply take_control_keeps.
  - unfold resize_pane. destruct (holds_control c pane b); [|split; [done|by repeat constructor]].
    split; [|by repeat constructor]. etrans; [by apply (keeps_alter (alter_sub (set_sub_size cols rows) pane) c)|].
    split; eauto.
  - split; [by apply keeps_alter|]. cbn. destruct (agent_cards b); by repeat constructor.
Qed.

Lemma pane_frame_keeps pane q w h full payload b :
  keeps b (pane_frame pane q w h full payload b).1 ∧ dull (pane_frame pane q w h full payload b).2.
Proof.
  unfold pane_frame. destruct (routes b !! pane) as [r|]; [|split; [done|constructor]].
  set (frames := (λ c, Send c (PaneFrame _ _ _ _ _ _)) <$> _).
  assert (dull frames) as Hf by (by apply dull_fmap).
  destruct (filter (λ c, watches_screen b pane c = true) _) as [|x l]; [split; [split; eauto|exact Hf]|].
  unfold render_for. destruct (advance _ _ _ _ _) as [s' rd].
  pose proof (foldl_ind (λ w : Broker * list Effect, keeps b w.1 ∧ dull w.2) (render_one pane rd) (x :: l)
    (set_screens b (<[pane := s']> (screens b)), [])) as Hfold.
  destruct (foldl _ _ _) as [b' effects]. cbn [fst snd] in *.
  destruct Hfold as [Hk Hd]; [split; [split; eauto|constructor]| |split; [done|by apply dull_app]].
  intros [b0 es] c [Hk Hd]. unfold render_one. cbn [fst snd] in *.
  destruct (subscription b0 c pane) as [sub|]; [|done]. destruct (_ && _); [done|].
  destruct (_ <=? _); [done|]. cbn [fst snd]. split.
  - etrans; [exact Hk|]. by apply keeps_alter.
  - apply dull_app; [done|]. unfold update_for.
    destruct (rd_diff rd), (sub_sent sub); try destruct (_ =? _)%N; by repeat constructor.
Qed.

Lemma step_keeps i b :
  match i with
  | Message c SubscribeState => True
  | Federation _ => True
  | _ => keeps b (step i b).1 ∧ dull (step i b).2
  end.
Proof.
  destruct i; cbn [step]; try done.
  - split; [|constructor]. split; [done|]. intros c s'. unfold connect; simpl. rewrite lookup_insert.
    case_decide; [by intros [= <-]|eauto].
  - unfold disconnect. destruct (clients b !! c) as [s|]; [|split; [done|constructor]]. split.
    + etrans; [|apply keeps_each; intros; apply release_pane_keeps]. split; [done|].
      intros c' s'. simpl. intros [_ ?]%lookup_delete_Some. eauto.
    + apply each_effects; [constructor|]. intros p b' es Hes. apply dull_app; [done|apply release_pane_dull].
  - assert (message ≠ SubscribeState → keeps b (handle c message b).1 ∧ dull (handle c message b).2) as Hh.
    { intros Hne. unfold handle. destruct (clients b !! c) as [s|]; [|split; [done|constructor]].
      destruct (cl_greeted s); [by apply dispatch_keeps|].
      unfold handshake. destruct message; try (split; [done|by repeat constructor]).
      destruct (_ =? _)%N; (split; [try done; by apply keeps_alter|by repeat constructor]). }
    destruct message; try done; by apply Hh.
  - apply pane_frame_keeps.
  - unfold close_if_unclaimed. destruct (routes b !! pane) as [r|]; [|split; [done|constructor]].
    destruct (rt_unclaimed r); (split; [split; eauto|by repeat constructor]).
  - destruct (pane_route_closed_spec pane b) as (_ & Hk & He). split; [exact Hk|].
    apply Forall_forall. intros e (r & c & _ & _ & ->)%He. done.
  - unfold route_downgraded. destruct (routes b !! pane) as [r|]; [|split; [done|constructor]].
    destruct (_ && _); [split; [done|constructor]|]. split; [split; eauto|by apply dull_fmap].
  - unfold agent_cards_updated. case_bool_decide; [split; [done|constructor]|].
    split; [split; eauto|by apply dull_fmap].
Qed.

(** Every client subscribed to the federation has what the broker has. *)
Definition followed b l : Prop :=
  ∀ c s, clients b !! c = Some s → cl_state s = true →
    agree (foldl (follow c) FederationState_default l) (state b).

Lemma step_followed i b l : followed b l → followed (step i b).1 (l ++ (step i b).2).
Proof.
  intros Hf. assert (keeps b (step i b).1 ∧ dull (step i b).2 → followed (step i b).1 (l ++ (step i b).2))
    as Hdull.
  { intros [[Hst Hfl] Hd] c s' Hs' Hc. destruct (Hfl c s' Hs' Hc) as (s & Hs & Hcs).
    rewrite foldl_app, dull_follow, Hst by done. by eapply Hf. }
  pose proof (step_keeps i b) as Hkeep.
  destruct i; try (by apply Hdull); cbn [step].
  - destruct message; try (by apply Hdull). clear Hdull Hkeep. unfold handle.
    destruct (clients b !! c) as [s|] eqn:Hs; [|by rewrite app_nil_r].
    destruct (cl_greeted s).
    + cbn [dispatch subscribe_state fst snd]. intros c' s' Hs' Hc'. rewrite foldl_app.
      cbn [foldl follow]. unfold alter_client in Hs'; simpl in Hs'. rewrite lookup_alter in Hs'.
      destruct (decide (c = c')) as [E|E]; [done|]. exact (Hf c' s' Hs' Hc').
    + cbn [handshake refuse fst snd]. intros c' s' Hs' Hc'. rewrite foldl_app, dull_follow
        by (by repeat constructor). by eapply Hf.
  - clear Hdull Hkeep. unfold federation_updated, close_vanished_routes.
    set (told := m ← _; _). set (k := filter _ _).
    destruct (each_closed k (set_state b st)) as [_ E].
    pose proof (keeps_each pane_route_closed k (set_state b st)
      (λ a b0, proj1 (proj2 (pane_route_closed_spec a b0)))) as [Hst Hfl].
    destruct (each _ _ k) as [b' closed]. cbn [fst snd] in *. intros c s' Hs' Hc'.
    destruct (Hfl c s' Hs' Hc') as (s & Hs & Hcs). rewrite Hst, !foldl_app.
    assert (dull closed) as Hd by (apply Forall_forall; by intros e (p & r & c0 & _ & _ & _ & ->)%E).
    rewrite (dull_follow _ closed) by done. unfold told. rewrite (follow_told c (set_state b st) _ _ s Hs Hcs).
    apply apply_changes. by eapply Hf.
Qed.

(** C8. Clients follow the federation. At every moment of a run, a client that
    subscribed to the federation and applied the messages it was sent, the first
    whole and then one target at a time, has exactly the broker's targets, and
    for each of them everything but the clocks a client has no use for. *)
Theorem federation_followed v fs qs (inputs : list input) c s :
  let '(b, es) := reached v fs qs inputs in
  clients b !! c = Some s → cl_state s = true →
  ∀ k, client_view <$> State.targets (foldl (follow c) FederationState_default es) !! k =
       client_view <$> State.targets (state b) !! k.
Proof.
  assert (followed (reached v fs qs inputs).1 (reached v fs qs inputs).2) as Hf.
  { induction inputs as [|i inputs IH] using rev_ind.
    - intros c' s'. simpl. by rewrite lookup_empty.
    - rewrite reached_snoc. cbn [fst snd]. by apply step_followed. }
  destruct (reached v fs qs inputs) as [b es]. exact (Hf c s).
Qed.
End federation.

(** A subscriber is told the federation, then that its target dropped. *)
Definition ex_follow : list input :=
  [Connect; hello 0; Federation ex_working; Message 0 SubscribeState; Federation ex_dropped].

Lemma federation_followed_witness :
  let '(b, es) := ex_reached ex_follow in
  connection <$> State.targets (state b) !! ex_key = Some (Backoff 1) ∧
  client_view <$> State.targets (foldl (follow 0) FederationState_default es) !! ex_key =
  client_view <$> State.targets (state b) !! ex_key.
Proof.
  pose proof (λ s, federation_followed (u "0.1") [] [] ex_follow 0%N s) as Hf.
  assert (cl_state <$> clients (ex_reached ex_follow).1 !! 0%N = Some true) as Hs by (vm_compute; reflexivity).
  assert (connection <$> State.targets (state (ex_reached ex_follow).1) !! ex_key = Some (Backoff 1)) as Hc
    by (vm_compute; reflexivity).
  destruct (ex_reached ex_follow) as [b es]. cbn [fst snd] in *. split; [exact Hc|].
  destruct (clients b !! 0%N) as [s|] eqn:E; [|discriminate Hs]. injection Hs as Hs.
  exact (Hf s eq_refl Hs ex_key).
Defined.
