(* ===== verification/WorkspaceMove.v ===== *)
(** Relocating a workspace: [src/src/workspace_move.rs].

    A session with Herdr's API is not part of the sources: [ApiSession] is one,
    a state and what it answers to a request. *)

From S2P Require Import Prelude Json Operation.

Definition MAX_LAYOUT_DEPTH : nat := 64.
Definition MAX_RECREATED_PANES : nat := 64.

Record SplitMove := {
  sm_pane : ustr;
  sm_target_pane : ustr;
  sm_direction : SplitDirection;
  sm_ratio : option f64_bits;
}.

Record TabMovePlan := { anchor_pane : ustr; splits : list SplitMove }.

Record WorkspaceMoveSummary := {
  moved_tabs : nat;
  moved_panes : nat;
  source_closed : bool;
}.
Definition WorkspaceMoveSummary_default : WorkspaceMoveSummary :=
  {| moved_tabs := 0; moved_panes := 0; source_closed := false |}.

Record WorkspaceRecreateSummary := {
  recreated_workspace : ustr;
  recreated_tabs : nat;
  recreated_panes : nat;
}.

Class ApiSession (V S : Type) := request : ustr → V → S → result ustr V * S.

Definition too_deep : ustr := u "exported layout is nested too deeply".
Definition no_first : ustr := u "exported layout split has no first child".
Definition no_second : ustr := u "exported layout split has no second child".
Definition bad_direction : ustr := u "exported layout split has an unsupported direction".
Definition bad_node : ustr := u "exported layout contained an unsupported node".

Section plan.
Context {V : Type} `{JsonValue V}.

(** The source counts the depth up to [MAX_LAYOUT_DEPTH]; [room] is what is
    left of it. *)
Definition whole_room : nat := S MAX_LAYOUT_DEPTH.

Definition string_field (node : V) (key : string) : option ustr := json_get node (u key) ≫= as_str.
(** A chain of [get] and [and_then]. *)
Fixpoint json_path (v : V) (keys : list string) : option V :=
  match keys with
  | [] => Some v
  | key :: keys' =>
      match json_get v (u key) with Some v' => json_path v' keys' | None => None end
  end.
Definition string_at (v : V) (keys : list string) : option ustr := json_path v keys ≫= as_str.

Definition node_type (node : V) : option ustr := string_field node "type".
Definition is_node (kind : string) (node : V) : bool := bool_decide (node_type node = Some (u kind)).
Definition node_direction (node : V) : option SplitDirection :=
  string_field node "direction" ≫= from_api_value.
Definition node_ratio (node : V) : option f64_bits := json_get node (u "ratio") ≫= as_f64.

Fixpoint leftmost_pane (room : nat) (node : V) : result ustr ustr :=
  match room with
  | O => Err too_deep
  | S room' =>
      if is_node "pane" node
      then ok_or (string_field node "pane_id") (u "exported layout pane has no identifier")
      else if is_node "split" node
      then first ← ok_or (json_get node (u "first")) no_first; leftmost_pane room' first
      else Err bad_node
  end.

(** The splits the walk pushes, in order. *)
Fixpoint collect_splits (room : nat) (node : V) : result ustr (list SplitMove) :=
  match room with
  | O => Err too_deep
  | S room' =>
      if is_node "pane" node then Ok []
      else if is_node "split" node then
        first ← ok_or (json_get node (u "first")) no_first;
        second ← ok_or (json_get node (u "second")) no_second;
        direction ← ok_or (node_direction node) bad_direction;
        pane ← leftmost_pane room' second;
        target_pane ← leftmost_pane room' first;
        in_first ← collect_splits room' first;
        in_second ← collect_splits room' second;
        Ok ({| sm_pane := pane; sm_target_pane := target_pane; sm_direction := direction;
               sm_ratio := node_ratio node |} :: in_first ++ in_second)
      else Err bad_node
  end.

Definition plan_tab_move (root : V) : result ustr TabMovePlan :=
  anchor ← leftmost_pane whole_room root;
  moves ← collect_splits whole_room root;
  Ok {| anchor_pane := anchor; splits := moves |}.
End plan.

(** ** Recreation *)

Record ExportedTab (V : Type) := { tab_label : option ustr; tab_root : V }.
Arguments tab_label {V}. Arguments tab_root {V}.
Record RecreatableTab (V : Type) := { new_label : option ustr; new_root : V }.
Arguments new_label {V}. Arguments new_root {V}.

Section recreate.
Context {V : Type} `{JsonValue V} `{JsonBuild V}.

(** A string the source keeps only when it says something. *)
Definition said (node : V) (key : string) : option ustr :=
  s ← string_field node key; if bool_decide (s = []) then None else Some s.

Definition entry_of (key : string) (value : option ustr) : list (ustr * V) :=
  match value with Some s => [(u key, json_string s)] | None => [] end.

Fixpoint recreatable_layout (room : nat) (node : V) : result ustr (V * nat) :=
  match room with
  | O => Err too_deep
  | S room' =>
      if is_node "pane" node then
        Ok (json_object ((u "type", json_string (u "pane"))
              :: entry_of "cwd" (said node "cwd") ++ entry_of "label" (said node "label")), 1)
      else if is_node "split" node then
        direction ← ok_or (node_direction node) bad_direction;
        first ← ok_or (json_get node (u "first")) no_first;
        second ← ok_or (json_get node (u "second")) no_second;
        '(first, first_panes) ← recreatable_layout room' first;
        '(second, second_panes) ← recreatable_layout room' second;
        Ok (json_object [(u "type", json_string (u "split"));
                         (u "direction", json_string (cli_value direction));
                         (u "ratio", json_f64 (default f64_half (node_ratio node)));
                         (u "first", first); (u "second", second)],
            first_panes + second_panes)
      else Err bad_node
  end.

(** The loop of [recreatable_layouts], with what it has gathered. *)
Fixpoint gather_layouts (layouts : list (RecreatableTab V)) (panes : nat)
    (exported : list (ExportedTab V)) : result ustr (list (RecreatableTab V) * nat) :=
  match exported with
  | [] => Ok (layouts, panes)
  | tab :: exported' =>
      '(root, tab_panes) ← recreatable_layout whole_room (tab_root tab);
      let panes := panes + tab_panes in
      if MAX_RECREATED_PANES <? panes
      then Err (u "recreating this workspace would start more than "
                ++ display_N (N.of_nat MAX_RECREATED_PANES) ++ u " panes")
      else gather_layouts (layouts ++ [{| new_label := tab_label tab; new_root := root |}]) panes
             exported'
  end.
Definition recreatable_layouts : list (ExportedTab V) → result ustr (list (RecreatableTab V) * nat) :=
  gather_layouts [] 0.
End recreate.

(** ** Talking to Herdr *)

(** A computation that talks over one session and may fail. *)
Definition api (S A : Type) : Type := S → result ustr A * S.
#[export] Instance api_ret {S} : MRet (api S) := λ A a s, (Ok a, s).
#[export] Instance api_bind {S} : MBind (api S) := λ A B f m s,
  match m s with
  | (Ok a, s') => f a s'
  | (Err e, s') => (Err e, s')
  end.
Definition lift {S A} (r : result ustr A) : api S A := λ s, (r, s).

Fixpoint each_api {S A W} (f : W → A → api S W) (w : W) (l : list A) : api S W :=
  match l with
  | [] => mret w
  | a :: l' => w' ← f w a; each_api f w' l'
  end.

Section session.
Context {V S : Type} `{JsonValue V} `{JsonBuild V} `{ApiSession V S}.

Definition optional_json (s : option ustr) : V :=
  match s with Some s => json_string s | None => json_null end.

Definition export_tab (exported : list (ExportedTab V)) (tab : V)
    : api S (list (ExportedTab V)) :=
  tab_id ← lift (ok_or (string_field tab "tab_id") (u "Herdr listed a tab without an identifier"));
  layout ← request (u "layout.export") (json_object [(u "tab_id", json_string tab_id)]);
  root ← lift (ok_or (json_path layout ["layout"; "root"])
                 (u "Herdr exported a tab without a layout"));
  mret (exported ++ [{| tab_label := said tab "label"; tab_root := root |}]).

Definition export_workspace_tabs (workspace : ustr) : api S (list (ExportedTab V)) :=
  listed ← request (u "tab.list") (json_object [(u "workspace_id", json_string workspace)]);
  let tabs := default [] (json_path listed ["tabs"] ≫= as_array) in
  if bool_decide (length tabs = 0) then lift (Err (u "the source workspace has no tabs"))
  else each_api export_tab [] tabs.

Definition record_move (source_pane : ustr) (response : V)
    (w : gmap ustr ustr * WorkspaceMoveSummary) : gmap ustr ustr * WorkspaceMoveSummary :=
  (match string_at response ["move_result"; "pane"; "pane_id"] with
   | Some moved => <[source_pane := moved]> w.1
   | None => w.1
   end,
   {| moved_tabs := moved_tabs w.2; moved_panes := moved_panes w.2 + 1;
      source_closed := source_closed w.2
        || bool_decide (is_Some (string_at response ["move_result"; "closed_workspace_id"])) |}).

Definition move_split (created_tab : ustr) (w : gmap ustr ustr * WorkspaceMoveSummary)
    (split : SplitMove) : api S (gmap ustr ustr * WorkspaceMoveSummary) :=
  let target_pane := default (sm_target_pane split) (w.1 !! sm_target_pane split) in
  placed ← request (u "pane.move") (json_object [
    (u "pane_id", json_string (sm_pane split));
    (u "destination", json_object [
      (u "type", json_string (u "tab")); (u "tab_id", json_string created_tab);
      (u "split", json_string (cli_value (sm_direction split)));
      (u "target_pane_id", json_string target_pane);
      (u "ratio", match sm_ratio split with Some r => json_f64 r | None => json_null end)])]);
  mret (record_move (sm_pane split) placed w).

Definition move_tab (destination_workspace : ustr) (w : gmap ustr ustr * WorkspaceMoveSummary)
    (tab : ExportedTab V) : api S (gmap ustr ustr * WorkspaceMoveSummary) :=
  plan ← lift (plan_tab_move (tab_root tab));
  opened ← request (u "pane.move") (json_object [
    (u "pane_id", json_string (anchor_pane plan));
    (u "destination", json_object [
      (u "type", json_string (u "new_tab"));
      (u "workspace_id", json_string destination_workspace);
      (u "label", optional_json (tab_label tab))])]);
  let w := record_move (anchor_pane plan) opened w in
  created_tab ← lift (ok_or (string_at opened ["move_result"; "created_tab"; "tab_id"])
                 (u "Herdr did not report the created destination tab"));
  let w := (w.1, {| moved_tabs := moved_tabs w.2 + 1; moved_panes := moved_panes w.2;
                    source_closed := source_closed w.2 |}) in
  each_api (move_split created_tab) w (splits plan).

(** [open] is what opening the session yields. *)
Definition move_workspace (open : result ustr S) (source_workspace destination_workspace : ustr)
    : result ustr (WorkspaceMoveSummary * S) :=
  if bool_decide (source_workspace = destination_workspace)
  then Err (u "a workspace cannot be moved into itself")
  else
    session ← open;
    match (exported ← export_workspace_tabs source_workspace;
           each_api (move_tab destination_workspace) (∅, WorkspaceMoveSummary_default) exported)
            session with
    | (Ok w, s) => Ok (w.2, s)
    | (Err e, _) => Err e
    end.
End session.

(** Applying the recreated layouts, one tab at a time, on the destination. *)
Section apply.
Context {V S : Type} `{JsonValue V} `{JsonBuild V} `{ApiSession V S}.

Definition apply_params (workspace : ustr) (first_tab : option ustr) (tabs : nat)
    (tab : RecreatableTab V) : V :=
  json_object
    (match first_tab, tabs with
     | Some tab_id, 0 => [(u "tab_id", json_string tab_id)]
     | _, _ => [(u "workspace_id", json_string workspace)]
     end
     ++ [(u "tab_label", optional_json (new_label tab)); (u "root", new_root tab);
         (u "focus", json_bool false)]).

Definition apply_tab (workspace : ustr) (first_tab : option ustr) (total tabs : nat)
    (tab : RecreatableTab V) : api S nat := λ s,
  match request (u "layout.apply") (apply_params workspace first_tab tabs tab) s with
  | (Ok _, s') => (Ok (tabs + 1), s')
  | (Err e, s') =>
      (Err (e ++ u "; workspace " ++ workspace ++ u " on the destination holds "
            ++ display_N (N.of_nat tabs) ++ u " of " ++ display_N (N.of_nat total)
            ++ u " recreated tab(s)"), s')
  end.

Definition recreate_on (label : option ustr) (layouts : list (RecreatableTab V)) (panes : nat)
    : api S WorkspaceRecreateSummary :=
  created ← request (u "workspace.create")
              (json_object [(u "label", optional_json label); (u "focus", json_bool false)]);
  workspace ← lift (ok_or (string_at created ["workspace"; "workspace_id"])
                      (u "Herdr did not report the created destination workspace"));
  let first_tab := string_at created ["tab"; "tab_id"] in
  tabs ← each_api (apply_tab workspace first_tab (length layouts)) 0 layouts;
  mret {| recreated_workspace := workspace; recreated_tabs := tabs; recreated_panes := panes |}.

(** The summary, with the sessions as they are left; nothing is asked of the
    destination before the source has been read and reduced. *)
Definition recreate_workspace (open_source open_destination : result ustr S)
    (source_workspace : ustr) (label : option ustr)
    : result ustr (WorkspaceRecreateSummary * S) :=
  source ← open_source;
  match export_workspace_tabs source_workspace source with
  | (Err e, _) => Err e
  | (Ok exported, _) =>
      '(layouts, panes) ← recreatable_layouts exported;
      destination ← open_destination;
      match recreate_on label layouts panes destination with
      | (Ok summary, s) => Ok (summary, s)
      | (Err e, _) => Err e
      end
  end.
End apply.
