(* ===== verification/WorkspaceMoveFacts.v ===== *)
(** What relocating a workspace preserves: a plan rebuilds the tree it was made
    from, and a recreation carries nothing but the structure. *)

From S2P Require Import Prelude Json Operation WorkspaceMove.

(** ** Trees *)

(** A tab as Herdr arranges it. *)
Inductive layout :=
  | LPane (id : ustr)
  | LSplit (direction : SplitDirection) (ratio : option f64_bits) (first second : layout).

Fixpoint leaves (t : layout) : list ustr :=
  match t with
  | LPane id => [id]
  | LSplit _ _ first second => leaves first ++ leaves second
  end.
Fixpoint first_leaf (t : layout) : ustr :=
  match t with LPane id => id | LSplit _ _ first _ => first_leaf first end.

(** The moves that rebuild a tree from its first pane. *)
Fixpoint moves (t : layout) : list SplitMove :=
  match t with
  | LPane _ => []
  | LSplit direction ratio first second =>
      {| sm_pane := first_leaf second; sm_target_pane := first_leaf first;
         sm_direction := direction; sm_ratio := ratio |} :: moves first ++ moves second
  end.

(** Herdr's [pane.move] beside a pane: the region of the target pane is split,
    and the moved pane takes its second half. *)
Fixpoint place (m : SplitMove) (t : layout) : option layout :=
  match t with
  | LPane id =>
      if bool_decide (id = sm_target_pane m)
      then Some (LSplit (sm_direction m) (sm_ratio m) (LPane id) (LPane (sm_pane m)))
      else None
  | LSplit direction ratio first second =>
      match place m first with
      | Some first' => Some (LSplit direction ratio first' second)
      | None => LSplit direction ratio first <$> place m second
      end
  end.

Definition place_all (ms : list SplitMove) (t : layout) : option layout :=
  foldl (λ o m, o ≫= place m) (Some t) ms.
Definition replay (p : TabMovePlan) : option layout := place_all (splits p) (LPane (anchor_pane p)).

Lemma place_all_cons m ms t : place_all (m :: ms) t = (place m t ≫= place_all ms).
Proof.
  unfold place_all. simpl. destruct (place m t) as [t'|]; simpl; [done|].
  by induction ms as [|m' ms IH].
Qed.

Lemma place_all_app ms1 ms2 t : place_all (ms1 ++ ms2) t = (place_all ms1 t ≫= place_all ms2).
Proof.
  revert t. induction ms1 as [|m ms1 IH]; intros t; [done|].
  cbn [app]. rewrite !place_all_cons. destruct (place m t); simpl; [apply IH|done].
Qed.

Lemma place_absent m t : sm_target_pane m ∉ leaves t → place m t = None.
Proof.
  induction t as [id|d r f IHf s IHs]; simpl; intros Hn.
  - rewrite bool_decide_eq_false_2; [done|]. intros ->. apply Hn. left.
  - rewrite elem_of_app in Hn. rewrite IHf by tauto. by rewrite IHs by tauto.
Qed.

(** Moves whose targets are in the first half stay in it. *)
Lemma place_all_first d r ms f f' s :
  place_all ms f = Some f' → place_all ms (LSplit d r f s) = Some (LSplit d r f' s).
Proof.
  revert f. induction ms as [|m ms IH]; intros f; [by intros [= ->]|].
  rewrite !place_all_cons. simpl. destruct (place m f) as [f1|]; simpl; [apply IH|done].
Qed.

(** Moves whose targets are not in the first half act on the second. *)
Lemma place_all_second d r ms f s s' :
  Forall (λ m, sm_target_pane m ∉ leaves f) ms → place_all ms s = Some s' →
  place_all ms (LSplit d r f s) = Some (LSplit d r f s').
Proof.
  intros Hms. revert s. induction Hms as [|m ms Hm Hms IH]; intros s; [by intros [= ->]|].
  rewrite !place_all_cons. simpl. rewrite (place_absent m f) by done.
  destruct (place m s) as [s1|]; simpl; [apply IH|done].
Qed.

Lemma first_leaf_in t : first_leaf t ∈ leaves t.
Proof. induction t; simpl; [left|]. apply elem_of_app. by left. Qed.

Lemma moves_targets t : Forall (λ m, sm_target_pane m ∈ leaves t) (moves t).
Proof.
  induction t as [|d r f IHf s IHs]; simpl; [constructor|]. constructor.
  - apply elem_of_app. left. apply first_leaf_in.
  - apply Forall_app. split; eapply Forall_impl; try eassumption; intros m Hm; apply elem_of_app; tauto.
Qed.

Lemma replay_moves t :
  NoDup (leaves t) → place_all (moves t) (LPane (first_leaf t)) = Some t.
Proof.
  induction t as [id|d r f IHf s IHs]; simpl; [done|]. intros (Hf & Hdisj & Hs)%NoDup_app.
  rewrite place_all_cons. simpl. rewrite bool_decide_eq_true_2 by done. simpl.
  rewrite place_all_app, (place_all_first _ _ _ _ f) by (by apply IHf). simpl.
  apply place_all_second; [|by apply IHs].
  eapply Forall_impl; [apply moves_targets|]. intros m Hm Hm'. by apply (Hdisj _ Hm').
Qed.

Lemma moves_panes t : first_leaf t :: (sm_pane <$> moves t) ≡ₚ leaves t.
Proof.
  induction t as [|d r f IHf s IHs]; simpl; [done|].
  rewrite fmap_app. rewrite <-IHf, <-IHs. simpl.
  constructor. by rewrite Permutation_middle.
Qed.

(** ** Reading an exported tree *)

Section read.
Context {V : Type} `{JsonValue V}.

Fixpoint read_layout (room : nat) (node : V) : option layout :=
  match room with
  | O => None
  | S room' =>
      if is_node "pane" node then LPane <$> string_field node "pane_id"
      else if is_node "split" node then
        first ← json_get node (u "first"); second ← json_get node (u "second");
        direction ← node_direction node;
        first ← read_layout room' first; second ← read_layout room' second;
        Some (LSplit direction (node_ratio node) first second)
      else None
  end.

Lemma read_leftmost room node t :
  read_layout room node = Some t → leftmost_pane room node = Ok (first_leaf t).
Proof.
  revert node t. induction room as [|room IH]; intros node t; simpl; [done|].
  destruct (is_node "pane" node).
  - destruct (string_field node "pane_id"); simpl; [by intros [= <-]|done].
  - destruct (is_node "split" node); [|done].
    destruct (json_get node (u "first")) as [f|]; simpl; [|done].
    destruct (json_get node (u "second")) as [s|]; simpl; [|done].
    destruct (node_direction node); simpl; [|done].
    destruct (read_layout room f) as [tf|] eqn:Ef; simpl; [|done].
    destruct (read_layout room s); simpl; [|done]. intros [= <-]. simpl. by apply IH.
Qed.

Lemma read_collect room node t :
  read_layout room node = Some t → collect_splits room node = Ok (moves t).
Proof.
  revert node t. induction room as [|room IH]; intros node t; simpl; [done|].
  destruct (is_node "pane" node).
  - destruct (string_field node "pane_id"); simpl; [by intros [= <-]|done].
  - destruct (is_node "split" node); [|done].
    destruct (json_get node (u "first")) as [f|]; simpl; [|done].
    destruct (json_get node (u "second")) as [s|]; simpl; [|done].
    destruct (node_direction node); simpl; [|done].
    destruct (read_layout room f) as [tf|] eqn:Ef; simpl; [|done].
    destruct (read_layout room s) as [ts|] eqn:Es; simpl; [|done]. intros [= <-].
    rewrite (read_leftmost _ _ _ Ef), (read_leftmost _ _ _ Es), (IH _ _ Ef), (IH _ _ Es). done.
Qed.

Lemma collect_read room node a ms :
  leftmost_pane room node = Ok a → collect_splits room node = Ok ms →
  is_Some (read_layout room node).
Proof.
  revert node a ms. induction room as [|room IH]; intros node a ms; simpl; [done|].
  destruct (is_node "pane" node).
  - destruct (string_field node "pane_id"); simpl; [eauto|done].
  - destruct (is_node "split" node); [|done].
    destruct (json_get node (u "first")) as [f|]; simpl; [|done].
    destruct (json_get node (u "second")) as [s|]; simpl; [|done].
    intros _. destruct (node_direction node); simpl; [|done].
    destruct (leftmost_pane room s) as [as_|] eqn:Ls; simpl; [|done].
    destruct (leftmost_pane room f) as [af|] eqn:Lf; simpl; [|done].
    destruct (collect_splits room f) as [mf|] eqn:Cf; simpl; [|done].
    destruct (collect_splits room s) as [ms'|] eqn:Cs; simpl; [|done]. intros _.
    destruct (IH _ _ _ Lf Cf) as [tf ->]. destruct (IH _ _ _ Ls Cs) as [ts ->]. simpl. eauto.
Qed.

(** C31. A move plan rebuilds the tab. A plan is made exactly for the exported
    trees that can be read (panes with identifiers, splits with two children and
    a known direction, at most 64 levels deep). It moves every pane of the tree
    exactly once; and where no pane occurs twice, carrying it out, each move
    splitting the region of one pane already placed, yields the exported tree
    again, with its directions and ratios. *)
Theorem plan_rebuilds_tab (root : V) :
  match plan_tab_move root, read_layout whole_room root with
  | Ok p, Some t =>
      anchor_pane p :: (sm_pane <$> splits p) ≡ₚ leaves t ∧
      (NoDup (leaves t) → replay p = Some t)
  | Err _, None => True
  | _, _ => False
  end.
Proof.
  unfold plan_tab_move. generalize whole_room as room. intros room.
  destruct (read_layout room root) as [t|] eqn:Et.
  - rewrite (read_leftmost _ _ _ Et), (read_collect _ _ _ Et). simpl.
    split; [apply moves_panes|apply replay_moves].
  - destruct (leftmost_pane room root) as [a|] eqn:La; simpl; [|done].
    destruct (collect_splits room root) as [ms|] eqn:Cm; simpl; [|done].
    destruct (collect_read _ _ _ _ La Cm) as [t Ht]. congruence.
Qed.
End read.

(** ** Recreation *)

(** What of a tab may cross to another session. *)
Inductive sketch :=
  | KPane (cwd label : option ustr)
  | KSplit (direction : SplitDirection) (ratio : f64_bits) (first second : sketch).

Fixpoint sketch_panes (k : sketch) : nat :=
  match k with KPane _ _ => 1 | KSplit _ _ a b => sketch_panes a + sketch_panes b end.

Section recreate.
Context {V : Type} `{JsonLaws V}.

Fixpoint read_sketch (room : nat) (node : V) : option sketch :=
  match room with
  | O => None
  | S room' =>
      if is_node "pane" node then Some (KPane (said node "cwd") (said node "label"))
      else if is_node "split" node then
        first ← json_get node (u "first"); second ← json_get node (u "second");
        direction ← node_direction node;
        first ← read_sketch room' first; second ← read_sketch room' second;
        Some (KSplit direction (default f64_half (node_ratio node)) first second)
      else None
  end.

(** A tree whose objects hold no other key than these: no identifier, no
    command, no environment. *)
Definition only_keys (v : V) (keys : list string) : Prop :=
  ∀ k, is_Some (json_get v k) → k ∈ (u <$> keys).
Inductive bare : V → Prop :=
  | bare_pane v : only_keys v ["type"; "cwd"; "label"] → bare v
  | bare_split v a b :
      only_keys v ["type"; "direction"; "ratio"; "first"; "second"] →
      json_get v (u "first") = Some a → json_get v (u "second") = Some b →
      bare a → bare b → bare v.

Lemma assoc_last_key {A} (kvs : list (ustr * A)) k : is_Some (assoc_last kvs k) → k ∈ kvs.*1.
Proof.
  induction kvs as [|[k' v] kvs IH]; simpl; [by intros [? ?]|].
  destruct (assoc_last kvs k); [intros _; right; apply IH; eauto|].
  destruct (decide (k' = k)) as [->|]; [left|by intros [? ?]].
Qed.

Definition pane_object (cwd label : option ustr) : V :=
  json_object ((u "type", json_string (u "pane")) :: entry_of "cwd" cwd ++ entry_of "label" label).
Definition split_object (direction : SplitDirection) (ratio : f64_bits) (a b : V) : V :=
  json_object [(u "type", json_string (u "split")); (u "direction", json_string (cli_value direction));
               (u "ratio", json_f64 ratio); (u "first", a); (u "second", b)].

Lemma pane_object_spec cwd label :
  (∀ s, cwd = Some s → s ≠ []) → (∀ s, label = Some s → s ≠ []) →
  is_node "pane" (pane_object cwd label) = true ∧
  said (pane_object cwd label) "cwd" = cwd ∧ said (pane_object cwd label) "label" = label ∧
  bare (pane_object cwd label).
Proof.
  intros Hc Hl. unfold is_node, node_type, said, string_field, pane_object.
  rewrite !get_object. split; [|split; [|split]].
  - assert (assoc_last ((u "type", json_string (u "pane")) :: entry_of "cwd" cwd ++ entry_of "label" label)
      (u "type") = Some (json_string (u "pane"))) as -> by (destruct cwd, label; reflexivity).
    simpl. rewrite as_str_string. by apply bool_decide_eq_true.
  - destruct cwd as [c|]; simpl.
    + assert (assoc_last ((u "type", json_string (u "pane")) :: (u "cwd", json_string c) :: entry_of "label" label)
        (u "cwd") = Some (json_string c)) as E by (destruct label; reflexivity).
      simpl in E. rewrite E. simpl. rewrite as_str_string. simpl.
      rewrite bool_decide_eq_false_2; [done|by apply Hc].
    + assert (assoc_last ((u "type", json_string (u "pane")) :: entry_of "label" label)
        (u "cwd") = None) as E by (destruct label; reflexivity).
      simpl in E. by rewrite E.
  - destruct label as [l|].
    + assert (assoc_last ((u "type", json_string (u "pane")) :: entry_of "cwd" cwd ++ entry_of "label" (Some l))
        (u "label") = Some (json_string l)) as -> by (destruct cwd; reflexivity).
      simpl. rewrite as_str_string. simpl. rewrite bool_decide_eq_false_2; [done|by apply Hl].
    + assert (assoc_last ((u "type", json_string (u "pane")) :: entry_of "cwd" cwd ++ entry_of "label" None)
        (u "label") = None) as -> by (destruct cwd; reflexivity). done.
  - constructor. intros k. rewrite get_object. intros Hk%assoc_last_key. revert Hk.
    destruct cwd, label; simpl; rewrite !elem_of_cons, ?elem_of_nil; tauto.
Qed.

Lemma split_object_spec direction ratio a b :
  let v := split_object direction ratio a b in
  is_node "pane" v = false ∧ is_node "split" v = true ∧ node_direction v = Some direction ∧
  node_ratio v = Some ratio ∧ json_get v (u "first") = Some a ∧ json_get v (u "second") = Some b ∧
  only_keys v ["type"; "direction"; "ratio"; "first"; "second"].
Proof.
  cbn zeta. unfold is_node, node_type, node_direction, node_ratio, string_field, split_object.
  rewrite !get_object.
  assert (∀ (x y z w : V), let l := [(u "type", x); (u "direction", y); (u "ratio", z); (u "first", w); (u "second", b)] in
    assoc_last l (u "type") = Some x ∧ assoc_last l (u "direction") = Some y ∧
    assoc_last l (u "ratio") = Some z ∧ assoc_last l (u "first") = Some w ∧
    assoc_last l (u "second") = Some b) as Hl by (intros; vm_compute; tauto).
  destruct (Hl (json_string (u "split")) (json_string (cli_value direction)) (json_f64 ratio) a)
    as (-> & -> & -> & -> & ->). cbn [mbind option_bind].
  rewrite !as_str_string, as_f64_number. cbn [mbind option_bind]. rewrite cli_value_roundtrip.
  split; [by apply bool_decide_eq_false|split; [by apply bool_decide_eq_true|]].
  split; [done|split; [done|split; [done|split; [done|]]]].
  intros k. rewrite get_object. by intros Hk%assoc_last_key.
Qed.

Lemma said_nonempty node key s : said node key = Some s → s ≠ [].
Proof.
  unfold said. destruct (string_field node key) as [x|]; simpl; [|done].
  case_bool_decide; [done|]. by intros [= <-].
Qed.

(** One tab: what is made of it reads back as the same sketch. *)
Lemma recreatable_spec room node :
  match recreatable_layout room node, read_sketch room node with
  | Ok (v, n), Some k => n = sketch_panes k ∧ bare v ∧ read_sketch room v = Some k
  | Err _, None => True
  | _, _ => False
  end.
Proof.
  revert node. induction room as [|room IH]; intros node; [done|].
  cbn [recreatable_layout read_sketch]. destruct (is_node "pane" node) eqn:Ep.
  - change (json_object _) with (pane_object (said node "cwd") (said node "label")).
    destruct (pane_object_spec (said node "cwd") (said node "label")) as (P1 & P2 & P3 & P4);
      [apply said_nonempty..|].
    rewrite P1, P2, P3. done.
  - destruct (is_node "split" node); [|done].
    destruct (json_get node (u "first")) as [f|];
      destruct (json_get node (u "second")) as [s|];
      destruct (node_direction node) as [d|]; simpl; try done.
    pose proof (IH f) as IHf. pose proof (IH s) as IHs.
    destruct (recreatable_layout room f) as [[vf nf]|]; destruct (read_sketch room f) as [kf|];
      simpl; try done.
    destruct (recreatable_layout room s) as [[vs ns]|]; destruct (read_sketch room s) as [ks|];
      simpl; try done.
    destruct IHf as (-> & Bf & Rf). destruct IHs as (-> & Bs & Rs).
    change (json_object _) with (split_object d (default f64_half (node_ratio node)) vf vs).
    destruct (split_object_spec d (default f64_half (node_ratio node)) vf vs)
      as (S1 & S2 & S3 & S4 & S5 & S6 & S7).
    split; [done|split; [exact (bare_split _ vf vs S7 S5 S6 Bf Bs)|]].
    rewrite S1, S2, S3, S4, S5, S6. simpl. by rewrite Rf, Rs.
Qed.

Definition reads (tab : ExportedTab V) (k : sketch) : Prop :=
  read_sketch whole_room (tab_root tab) = Some k.
Definition recreates (tab : RecreatableTab V) (k : sketch) : Prop :=
  read_sketch whole_room (new_root tab) = Some k ∧ bare (new_root tab).
Definition total_panes (ks : list sketch) : nat := sum_list (sketch_panes <$> ks).

Lemma total_panes_snoc ks k : total_panes (ks ++ [k]) = total_panes ks + sketch_panes k.
Proof. unfold total_panes. rewrite fmap_app, sum_list_with_app. simpl. unfold id. lia. Qed.

Lemma gather_spec exported : ∀ done_tabs layouts ks,
  Forall2 reads done_tabs ks → Forall2 recreates layouts ks →
  new_label <$> layouts = tab_label <$> done_tabs → total_panes ks ≤ MAX_RECREATED_PANES →
  match gather_layouts layouts (total_panes ks) exported with
  | Ok (layouts', panes) =>
      ∃ ks', Forall2 reads (done_tabs ++ exported) ks' ∧ Forall2 recreates layouts' ks' ∧
        new_label <$> layouts' = tab_label <$> (done_tabs ++ exported) ∧
        panes = total_panes ks' ∧ panes ≤ MAX_RECREATED_PANES
  | Err _ =>
      (∃ tab, tab ∈ exported ∧ read_sketch whole_room (tab_root tab) = None) ∨
      ∃ tabs ks', tabs `prefix_of` done_tabs ++ exported ∧ Forall2 reads tabs ks' ∧
        MAX_RECREATED_PANES < total_panes ks'
  end.
Proof.
  induction exported as [|tab exported IH]; intros done_tabs layouts ks Hr Hn Hl Hm; cbn [gather_layouts].
  { exists ks. rewrite app_nil_r. done. }
  pose proof (recreatable_spec whole_room (tab_root tab)) as Hspec.
  destruct (recreatable_layout whole_room (tab_root tab)) as [[root n]|] eqn:E;
    destruct (read_sketch whole_room (tab_root tab)) as [k|] eqn:Ek; try done; cbn [mbind result_bind].
  2:{ left. exists tab. split; [left|done]. }
  destruct Hspec as (-> & Hb & Hread).
  assert (Forall2 reads (done_tabs ++ [tab]) (ks ++ [k])) as Hr' by (apply Forall2_app; [done|by repeat constructor]).
  destruct (MAX_RECREATED_PANES <? total_panes ks + sketch_panes k) eqn:Eb.
  - right. exists (done_tabs ++ [tab]), (ks ++ [k]). split; [|split; [done|]].
    + exists exported. by rewrite <-app_assoc.
    + rewrite total_panes_snoc. by apply Nat.ltb_lt.
  - apply Nat.ltb_ge in Eb. rewrite <-total_panes_snoc in *.
    specialize (IH (done_tabs ++ [tab]) (layouts ++ [{| new_label := tab_label tab; new_root := root |}]) (ks ++ [k])).
    rewrite <-app_assoc in IH. cbn [app] in IH.
    assert (Forall2 recreates (layouts ++ [{| new_label := tab_label tab; new_root := root |}]) (ks ++ [k]))
      as Hn' by (apply Forall2_app; [done|]; constructor; [split; [exact Hread|exact Hb]|constructor]).
    destruct (gather_layouts _ _ exported) as [[layouts' panes]|].
    + apply IH; try done. by rewrite !fmap_app, Hl.
    + destruct IH as [(t & Ht & Hnone)|IH]; try done;
        [by rewrite !fmap_app, Hl| |by right].
      left. exists t. split; [by right|done].
Qed.

(** A recreation carries nothing but the structure. The layouts sent to the
    other session are one for each tab, under the same labels, and read back as
    exactly the directions, ratios, working directories and pane labels of the
    tabs they come from; their objects hold no other key, hence no identifier, no
    command and no environment; and together they start as many panes as there
    were, at most 64. It is refused exactly when a tab cannot be read or when
    there would be more. *)
Theorem recreation_carries_structure (exported : list (ExportedTab V)) :
  match recreatable_layouts exported with
  | Ok (layouts, panes) =>
      ∃ ks, Forall2 reads exported ks ∧ Forall2 recreates layouts ks ∧
        new_label <$> layouts = tab_label <$> exported ∧
        panes = total_panes ks ∧ panes ≤ MAX_RECREATED_PANES
  | Err _ =>
      (∃ tab, tab ∈ exported ∧ read_sketch whole_room (tab_root tab) = None) ∨
      ∃ tabs ks, tabs `prefix_of` exported ∧ Forall2 reads tabs ks ∧
        MAX_RECREATED_PANES < total_panes ks
  end.
Proof. apply (gather_spec exported [] [] []); try constructor. unfold total_panes. simpl. apply Nat.le_0_l. Qed.
End recreate.

Import Concrete.

(** A tab with an editor in a directory of its own, beside a shell that carries
    a command and an environment. *)
Definition ex_exported : ExportedTab json := {|
  tab_label := Some (u "main");
  tab_root := JObject [
    (u "type", json_string (u "split")); (u "direction", json_string (u "right"));
    (u "ratio", json_f64 f64_half);
    (u "first", JObject [
       (u "type", json_string (u "pane")); (u "pane_id", json_string (u "p1"));
       (u "cwd", json_string (u "/srv")); (u "label", json_string (u "editor"))]);
    (u "second", JObject [
       (u "type", json_string (u "pane")); (u "pane_id", json_string (u "p2"));
       (u "command", json_string (u "serve")); (u "env", json_string (u "TOKEN=1"))])] |}.

(** What crosses: the split, the directory and the label; neither an identifier
    nor the command nor the environment. *)
Definition ex_recreated : RecreatableTab json := {|
  new_label := Some (u "main");
  new_root := JObject [
    (u "type", json_string (u "split")); (u "direction", json_string (u "right"));
    (u "ratio", json_f64 f64_half);
    (u "first", JObject [
       (u "type", json_string (u "pane")); (u "cwd", json_string (u "/srv"));
       (u "label", json_string (u "editor"))]);
    (u "second", JObject [(u "type", json_string (u "pane"))])] |}.

Lemma ex_recreated_layouts : recreatable_layouts [ex_exported] = Ok ([ex_recreated], 2).
Proof. vm_compute. reflexivity. Qed.

Lemma recreation_carries_structure_witness :
  ∃ ks, Forall2 reads [ex_exported] ks ∧ Forall2 recreates [ex_recreated] ks ∧
    total_panes ks = 2.
Proof.
  pose proof (recreation_carries_structure [ex_exported]) as H. rewrite ex_recreated_layouts in H.
  destruct H as (ks & Hr & Hc & _ & Hp & _). exists ks. by repeat split.
Defined.
