(* ===== verification/Transport.v ===== *)
(** Reaching a Herdr server: [src/src/transport.rs], and one of its terminals:
    [src/src/terminal.rs].

    What lies outside the sources are classes: the processes that are run, the connections
    to a socket, serde_json, the formatting of a fraction of seconds. A deadline is what a
    wait comes back with: [Elapsed], or what it waited for. A [Command] is a program and
    its arguments. *)

From S2P Require Import Prelude Text Json Net Config Model State Protocol WorkspaceMove.

Record DiscoveredSession := { ds_name : ustr; ds_running : bool; ds_session_dir : ustr; ds_socket_path : ustr }.
Record SessionDiscovery := { sd_sessions : list DiscoveredSession; sd_herdr_bin : ustr }.

Inductive Timed (A : Type) := Elapsed | InTime (a : A).
#[global] Arguments Elapsed {A}.
#[global] Arguments InTime {A} _.

Class Display := {
  debug : ustr → ustr;              (** [{:?}] of a string *)
  as_secs_f64 : Duration → ustr;    (** [{}] of the seconds of a duration *)
}.
Class JsonText (V : Type) := {
  from_str : ustr → option V;
  from_slice : bytes → option V;
  to_vec : V → option bytes;
  to_string : V → ustr;
  json_array : list V → V;
}.

Record Command := { program : ustr; arguments : list ustr }.
Record Output := { out_success : bool; out_status : ustr; out_stdout : bytes }.
(** A program that cannot be started is an error, with its text. *)
Class Processes (W : Type) := output : Command → W → result ustr Output * W.

(** ** Errors *)

Definition unavailable (message : ustr) : SnapshotError := {| err_kind := ErrUnavailable; err_message := message |}.
Definition incompatible (message : ustr) : SnapshotError := {| err_kind := ErrIncompatible; err_message := message |}.
Definition timed_out `{Display} (after : Duration) : SnapshotError :=
  {| err_kind := ErrTimeout; err_message := u "timed out after " ++ as_secs_f64 after ++ u " seconds" |}.

(** ** The command line of a target *)

(** [str::replace] of a quotation mark. *)
Definition quote_posix (value : ustr) : ustr :=
  [39%N] ++ (value ≫= λ c, if (c =? 39)%N then [39; 34; 39; 34; 39]%N else [c]) ++ [39%N].
Definition render_remote_command (executable : ustr) (args : list ustr) : ustr :=
  Net.join (u " ") (quote_posix <$> executable :: args).
Definition herdr_args (t : Target) (operation_args : list ustr) : list ustr :=
  match tgt_session t with Some session => [u "--session"; session] | None => [] end ++ operation_args.
Definition ssh_flags (c : TransportConfig) : list ustr :=
  (if batch_mode c then [u "-o"; u "BatchMode=yes"] else [])
  ++ [u "-o"; u "ConnectTimeout=" ++ display_N (connect_timeout_seconds c)].
Definition build_ssh_command (destination : ustr) (c : TransportConfig) (remote_command : ustr) : Command :=
  {| program := ssh_bin c; arguments := ssh_flags c ++ [u "--"; destination; remote_command] |}.
Definition build_herdr_command (t : Target) (c : TransportConfig) (executable : ustr) (operation_args : list ustr) : Command :=
  let args := herdr_args t operation_args in
  match tgt_ssh t with
  | Some destination => build_ssh_command destination c (render_remote_command executable args)
  | None => {| program := executable; arguments := args |}
  end.

(** ** Answers *)

Definition find_map {A B} (f : A → option B) (l : list A) : option B := head (omap f l).
Definition parse_last_json `{JsonText V} (text : ustr) : result ustr V :=
  ok_or (find_map from_str (reverse (lines text))) (u "Herdr did not return a JSON response").
Definition LIMIT : nat := 500.
Definition compact_json `{JsonText V} (value : V) : ustr :=
  let normalized := Net.join (u " ") (split_whitespace (to_string value)) in
  if length normalized <=? LIMIT then normalized else take LIMIT normalized ++ [8230%N].

Record AttemptFailure := { af_message : ustr; protocol_mismatch : bool }.
Definition other (message : ustr) : AttemptFailure := {| af_message := message; protocol_mismatch := false |}.
Definition api_failure {V} `{JsonValue V, JsonText V} (response : V) : option AttemptFailure :=
  error ← json_get response (u "error");
  Some {| af_message := u "Herdr API error: " ++ compact_json error;
          protocol_mismatch := bool_decide ((json_get error (u "code") ≫= as_str) = Some (u "protocol_mismatch")) |}.

(** ** Snapshots *)

Section snapshots.
Context {V W : Type} `{JsonValue V, JsonText V, Processes W, Display}.
Context (t : Target) (c : TransportConfig).

Definition collect_snapshot_once (executable : ustr) (w : W) : result AttemptFailure V * W :=
  let '(ran, w) := output (build_herdr_command t c executable [u "api"; u "snapshot"]) w in
  (match ran with
   | Err error => Err (other (u "failed to start target " ++ debug (tgt_name t) ++ u ": " ++ error))
   | Ok out =>
       let response := parse_last_json (from_utf8_lossy (out_stdout out)) in
       match (match response with Ok response => api_failure response | Err _ => None end) with
       | Some failure => Err failure
       | None =>
           if negb (out_success out)
           then Err (other (u "command exited with " ++ out_status out ++ u " (diagnostic output redacted)"))
           else
             match response with
             | Err error => Err (other error)
             | Ok response =>
                 ok_or (json_path response ["result"; "snapshot"]%string)
                   (other (u "Herdr response did not contain result.snapshot"))
             end
       end
   end, w).

Fixpoint collect_from (mismatches candidates : list ustr) (w : W) : result SnapshotError (TransportSnapshot V) * W :=
  match candidates with
  | [] => (Err (incompatible (u "no compatible Herdr client candidate; " ++ Net.join (u "; ") mismatches)), w)
  | executable :: candidates =>
      let '(collected, w) := collect_snapshot_once executable w in
      match collected with
      | Ok snapshot => (Ok {| ts_snapshot := snapshot; ts_herdr_bin := executable |}, w)
      | Err failure =>
          let told := executable ++ u ": " ++ af_message failure in
          if protocol_mismatch failure then collect_from (mismatches ++ [told]) candidates w
          else (Err (unavailable told), w)
      end
  end.
Definition collect_snapshot : W → result SnapshotError (TransportSnapshot V) * W := collect_from [] (tgt_herdr_bins t).

(** [CliSnapshotTransport::snapshot]. *)
Definition snapshot_within (command_timeout : Duration) (elapsed : bool) (w : W)
    : result SnapshotError (TransportSnapshot V) * W :=
  let '(collected, w) := collect_snapshot w in
  (if elapsed then Err (timed_out command_timeout) else collected, w).

Definition run_herdr_operation (executable : ustr) (operation_args : list ustr) (command_timeout : Duration) (elapsed : bool) (w : W)
    : result SnapshotError () * W :=
  let '(ran, w) := output (build_herdr_command t c executable operation_args) w in
  (if elapsed then Err (timed_out command_timeout)
   else
     match ran with
     | Err _ => Err (unavailable (u "failed to start the Herdr action"))
     | Ok out =>
         if out_success out then Ok ()
         else Err (unavailable (u "Herdr action exited with " ++ out_status out ++ u " (diagnostic output redacted)"))
     end, w).
End snapshots.

(** ** Discovery of sessions *)

(** What serde reads as a list of sessions. *)
Class SessionLists (V : Type) := read_session_list : V → option (list DiscoveredSession).

Definition valid_discovered_session (s : DiscoveredSession) : bool :=
  negb (bool_decide (ds_name s = [])) && negb (contains slash (ds_name s)) && negb (existsb is_control (ds_name s))
  && starts_with slash (ds_socket_path s) && negb (contains 58 (ds_socket_path s))
  && negb (existsb is_control (ds_socket_path s)).
(** [dedup_by] on names: of equal neighbours, the first is kept. *)
Fixpoint dedup_names (previous : option ustr) (l : list DiscoveredSession) : list DiscoveredSession :=
  match l with
  | [] => []
  | s :: l => if bool_decide (previous = Some (ds_name s)) then dedup_names previous l
              else s :: dedup_names (Some (ds_name s)) l
  end.
Definition name_le (a b : DiscoveredSession) : Prop := cmp_le (ds_name a) (ds_name b).
#[export] Instance name_le_dec : RelDecision name_le.
Proof. intros a b. unfold name_le. apply _. Defined.
Definition MAX_DISCOVERY_BYTES : nat := 1024 * 1024.

Definition targets_for_discovered_sessions (t : Target) (sessions : list DiscoveredSession) : list Target :=
  (λ s, {| tgt_name := tgt_name t; tgt_ssh := tgt_ssh t; tgt_discover_sessions := false;
           tgt_session := Some (ds_name s); tgt_socket := Some (ds_socket_path s);
           tgt_herdr_bins := tgt_herdr_bins t; tgt_tags := tgt_tags t; tgt_roots := tgt_roots t |}) <$> sessions.

Section discovery.
Context {V W : Type} `{JsonValue V, JsonText V, SessionLists V, Processes W, Display}.
Context (c : TransportConfig).

Definition hosted (t : Target) : Target :=
  {| tgt_name := tgt_name t; tgt_ssh := tgt_ssh t; tgt_discover_sessions := tgt_discover_sessions t;
     tgt_session := None; tgt_socket := None; tgt_herdr_bins := tgt_herdr_bins t;
     tgt_tags := tgt_tags t; tgt_roots := tgt_roots t |}.
Definition discover_sessions_once (t : Target) (executable : ustr) (w : W) : result ustr (list DiscoveredSession) * W :=
  let '(ran, w) := output (build_herdr_command (hosted t) c executable [u "session"; u "list"; u "--json"]) w in
  (match ran with
   | Err _ => Err (u "failed to start Herdr session discovery")
   | Ok out =>
       if negb (out_success out) then Err (u "Herdr session discovery exited unsuccessfully (diagnostics redacted)")
       else if MAX_DISCOVERY_BYTES <? length (out_stdout out) then Err (u "Herdr session discovery exceeded the size limit")
       else
         value ← parse_last_json (from_utf8_lossy (out_stdout out));
         sessions ← ok_or (read_session_list value) (u "Herdr session discovery returned an invalid response");
         let kept := filter (λ s, ds_running s && valid_discovered_session s) sessions in
         Ok (dedup_names None (stable_sort name_le kept))
   end, w).
Fixpoint discover_from (t : Target) (failures candidates : list ustr) (w : W) : result SnapshotError SessionDiscovery * W :=
  match candidates with
  | [] => (Err (unavailable (u "session discovery failed; " ++ Net.join (u "; ") failures)), w)
  | executable :: candidates =>
      let '(found, w) := discover_sessions_once t executable w in
      match found with
      | Ok sessions => (Ok {| sd_sessions := sessions; sd_herdr_bin := executable |}, w)
      | Err error => discover_from t (failures ++ [executable ++ u ": " ++ error]) candidates w
      end
  end.
Definition discover_sessions (t : Target) : W → result SnapshotError SessionDiscovery * W := discover_from t [] (tgt_herdr_bins t).
Definition discover_running_sessions (t : Target) (elapsed : bool) (w : W) : result SnapshotError SessionDiscovery * W :=
  let '(found, w) := discover_sessions t w in
  (if elapsed then Err (timed_out (transport_command_timeout_seconds c * 1000000000)) else found, w).
Definition expand_discovered_target (t : Target) (elapsed : bool) (w : W) : list Target :=
  if negb (tgt_discover_sessions t) then [t]
  else match (discover_running_sessions t elapsed w).1 with
       | Ok discovery => targets_for_discovered_sessions t (sd_sessions discovery)
       | Err _ => [t]
       end.
End discovery.

(** Each target is expanded by a task of its own; [runs] is what the task of the target at
    an index finds, [None] if the task is lost. *)
Definition expand_discovered_sessions {V W} `{JsonValue V, JsonText V, SessionLists V, Processes W, Display}
    (runs : nat → option (bool * W)) (config : Config) : Config :=
  let expanded := imap (λ i t, match runs i with
                               | Some (elapsed, w) => expand_discovered_target (cfg_transport config) t elapsed w
                               | None => [t]
                               end) (cfg_targets config) in
  {| cfg_transport := cfg_transport config; cfg_notifications := cfg_notifications config;
     cfg_quick_replies := cfg_quick_replies config; cfg_transfers := cfg_transfers config; cfg_web := cfg_web config;
     cfg_devices := cfg_devices config; cfg_targets := concat expanded |}.

(** ** The API socket *)

Definition MAX_API_REQUEST_BYTES : nat := 1024 * 1024.
Definition MAX_SOCKET_LINE : nat := 1024 * 1024.

(** One connection after another to the socket of an endpoint: whether connecting and
    writing work, and what is read up to a line feed ([None]: the read failed; empty: it is
    closed). *)
Class Sockets (S : Type) := {
  connect : S → Timed bool * S;
  write_all : bytes → S → Timed bool * S;
  read_until_newline : S → Timed (option bytes) * S;
}.

Definition wait `{Display} {A} (after : Duration) (r : Timed A) : result SnapshotError A :=
  match r with Elapsed => Err (timed_out after) | InTime a => Ok a end.
Definition ensure (ok : bool) (message : ustr) : result SnapshotError () :=
  if ok then Ok () else Err (unavailable message).

Section sockets.
Context {V S : Type} `{JsonValue V, JsonBuild V, JsonText V, Sockets S, Display}.

(** A step on the connection, and the error that ends the exchange. *)
Definition Io (A : Type) : Type := S → result SnapshotError A * S.
Definition io_bind {A B} (m : Io A) (f : A → Io B) : Io B := λ s,
  let '(r, s) := m s in match r with Ok a => f a s | Err e => (Err e, s) end.
Definition io_pure {A} (r : result SnapshotError A) : Io A := λ s, (r, s).
Definition waiting {A} (after : Duration) (m : S → Timed A * S) : Io A := λ s, let '(r, s) := m s in (wait after r, s).

Definition connect_endpoint (after : Duration) : Io () :=
  io_bind (waiting after connect) (λ ok, io_pure (ensure ok (u "failed to connect to the Herdr socket"))).
(** [read_socket_line]. *)
Definition parsed_line (line : option bytes) : result SnapshotError V :=
  match line with
  | None => Err (unavailable (u "Herdr socket read failed"))
  | Some [] => Err (unavailable (u "Herdr socket closed"))
  | Some line =>
      if MAX_SOCKET_LINE <? length line then Err (unavailable (u "Herdr socket record exceeded size limit"))
      else ok_or (from_slice line) (unavailable (u "Herdr socket returned invalid JSON"))
  end.
Definition read_socket_line (after : Duration) : Io V :=
  io_bind (waiting after read_until_newline) (λ line, io_pure (parsed_line line)).

(** [ApiSession::request]; the session's state is the number of its last request. *)
Definition request_id (method : ustr) (number : N) : ustr := u "super-herdr:" ++ method ++ u ":" ++ display_N number.
Definition request_json (method : ustr) (number : N) (params : V) : V :=
  json_object [(u "id", json_string (request_id method number)); (u "method", json_string method); (u "params", params)].
Definition answer_of (method id : ustr) (response : V) : result SnapshotError V :=
  if negb (bool_decide ((json_get response (u "id") ≫= as_str) = Some id))
  then Err (unavailable (u "Herdr returned an unexpected " ++ method ++ u " response"))
  else if bool_decide (is_Some (json_get response (u "error")))
  then Err (unavailable (u "Herdr rejected " ++ method ++ u " (diagnostics redacted)"))
  else ok_or (json_get response (u "result")) (unavailable (method ++ u " returned no result")).
Definition encoded_request (method : ustr) (number : N) (params : V) : result SnapshotError bytes :=
  encoded ← ok_or (to_vec (request_json method number params)) (unavailable (u "failed to encode " ++ method));
  if MAX_API_REQUEST_BYTES <? length encoded + 1
  then Err (unavailable (method ++ u " exceeds Herdr's API request size limit"))
  else Ok (encoded ++ [10%N]).
Definition exchange (request_timeout : Duration) (method : ustr) (number : N) (params : V) : Io V :=
  io_bind (io_pure (encoded_request method number params)) (λ encoded,
  io_bind (connect_endpoint request_timeout) (λ _,
  io_bind (waiting request_timeout (write_all encoded)) (λ ok,
  io_bind (io_pure (ensure ok (u "failed to write " ++ method))) (λ _,
  io_bind (read_socket_line request_timeout) (λ response,
  io_pure (answer_of method (request_id method number) response)))))).
Definition u64_saturating_succ (n : N) : N := u64_saturating_add n 1.
Definition session_request (request_timeout : Duration) (method : ustr) (params : V) (w : N * S)
    : result SnapshotError V * (N * S) :=
  let number := u64_saturating_succ w.1 in
  let '(answer, s) := exchange request_timeout method number params w.2 in (answer, (number, s)).

(** [send_pane_input]; [opened] is what opening the endpoint came to. *)
Definition pane_input_params (pane_id text : ustr) : V :=
  json_object [(u "pane_id", json_string pane_id); (u "text", json_string text); (u "keys", json_array [])].
Definition send_pane_input (command_timeout : Duration) (elapsed : bool) (opened : result SnapshotError ()) (pane_id text : ustr) : Io () := λ s,
  let params := pane_input_params pane_id text in
  let fits := match to_vec params with Some encoded => length encoded <? MAX_API_REQUEST_BYTES | None => false end in
  let '(sent, s) :=
    if negb fits then (Err (unavailable (u "paste exceeds Herdr's API request size limit")), s)
    else match opened with
         | Err e => (Err e, s)
         | Ok _ => let '(answer, (_, s)) := session_request command_timeout (u "pane.send_input") params (0%N, s) in
                   (match answer with Ok _ => Ok () | Err e => Err e end, s)
         end in
  (if elapsed then Err (timed_out command_timeout) else sent, s).

(** ** Following a server's events *)

Definition EVENT_SUBSCRIPTIONS : list ustr :=
  u <$> ["workspace.created"; "workspace.updated"; "workspace.metadata_updated"; "workspace.renamed"; "workspace.moved";
         "workspace.reordered"; "workspace.closed"; "workspace.focused"; "tab.created"; "tab.closed"; "tab.focused";
         "tab.renamed"; "tab.moved"; "pane.created"; "pane.updated"; "pane.closed"; "pane.focused"; "pane.moved";
         "pane.exited"; "pane.agent_detected"; "layout.updated"]%string.
Definition EVENTS_ID : ustr := u "super-herdr:events".
Definition event_subscription_request (pane_ids : list ustr) : V :=
  json_object [
    (u "id", json_string EVENTS_ID); (u "method", json_string (u "events.subscribe"));
    (u "params", json_object [(u "subscriptions", json_array (
       ((λ event, json_object [(u "type", json_string event)]) <$> EVENT_SUBSCRIPTIONS)
       ++ ((λ pane, json_object [(u "type", json_string (u "pane.agent_status_changed")); (u "pane_id", json_string pane)]) <$> pane_ids)))])].
(** [open_socket_event_stream], once the endpoint is open. *)
Definition subscribe_events (connect_timeout : Duration) (pane_ids : list ustr) : Io () :=
  io_bind (connect_endpoint connect_timeout) (λ _,
  io_bind (io_pure (ok_or (to_vec (event_subscription_request pane_ids)) (unavailable (u "failed to encode event subscription")))) (λ encoded,
  io_bind (λ s, let '(r, s) := write_all (encoded ++ [10%N]) s in
                (match r with InTime true => Ok () | _ => Err (unavailable (u "failed to write event subscription")) end, s)) (λ _,
  io_bind (read_socket_line connect_timeout) (λ acknowledgement,
  io_pure (ensure (bool_decide (json_get acknowledgement (u "error") = None
                                ∧ (json_get acknowledgement (u "id") ≫= as_str) = Some EVENTS_ID))
            (u "Herdr rejected the event subscription (diagnostics redacted)")))))).
(** [SocketChangeStream::next] on the lines to come: what it returns and how many of them it
    has read; [None] when it still waits after the last. *)
Fixpoint next_change (coming : list (option bytes)) : option (result SnapshotError () * nat) :=
  match coming with
  | [] => None
  | line :: coming =>
      match parsed_line line with
      | Err e => Some (Err e, 1)
      | Ok event =>
          if bool_decide (is_Some (json_get event (u "event") ≫= as_str)) then Some (Ok (), 1)
          else (λ r, (r.1, r.2 + 1)) <$> next_change coming
      end
  end.
End sockets.

(** What the operations on workspaces and plugins ask of a session is answered by this one. *)
#[export] Instance api_session {V S} `{JsonValue V, JsonBuild V, JsonText V, Sockets S, Display} (request_timeout : Duration)
    : ApiSession V (N * S) := λ method params w,
  let '(answer, w) := session_request request_timeout method params w in
  (match answer with Ok v => Ok v | Err e => Err (err_message e) end, w).

(** ** The tunnel to a socket behind ssh *)

Definition forward_command (c : TransportConfig) (destination local_socket socket : ustr) : Command :=
  {| program := ssh_bin c;
     arguments := ssh_flags c ++ [u "-o"; u "ExitOnForwardFailure=yes"; u "-N"; u "-L"; local_socket ++ u ":" ++ socket;
                                  u "--"; destination] |}.
(** What one turn of the wait sees: whether the state of ssh could be asked, whether it has
    exited, whether the socket accepts, and the time. *)
Record Turn := { inspected : bool; exited : bool; accepts : bool; at_ : N }.
Definition MS : N := 1000000.
Fixpoint await_forward `{Display} (connect_timeout deadline : Duration) (turns : list Turn) : option (result SnapshotError ()) :=
  match turns with
  | [] => None
  | turn :: turns =>
      if negb (inspected turn) then Some (Err (unavailable (u "failed to inspect SSH socket forwarding")))
      else if exited turn then Some (Err (unavailable (u "SSH socket forwarding exited (diagnostics redacted)")))
      else if accepts turn then Some (Ok ())
      else if (at_ turn <? deadline)%N then await_forward connect_timeout deadline turns
      else Some (Err (timed_out connect_timeout))
  end.
(** [open_socket_endpoint]: the path to connect to and the tunnel that must be kept, if one
    is needed. [directory] is the temporary directory, [started] whether ssh was, at [now]. *)
Definition open_socket_endpoint `{Display} (t : Target) (c : TransportConfig) (connect_timeout : Duration)
    (directory : option ustr) (started : bool) (now : N) (turns : list Turn)
    : option (result SnapshotError (ustr * option Command)) :=
  match tgt_socket t with
  | None => Some (Err (unavailable (u "Herdr API socket is not configured")))
  | Some socket =>
      match tgt_ssh t with
      | None => Some (Ok (socket, None))
      | Some destination =>
          match directory with
          | None => Some (Err (unavailable (u "failed to create socket forwarding directory")))
          | Some directory =>
              let local_socket := directory ++ u "/herdr.sock" in
              let forward := forward_command c destination local_socket socket in
              if negb started then Some (Err (unavailable (u "failed to start SSH socket forwarding")))
              else (λ r, match r with Ok _ => Ok (local_socket, Some forward) | Err e => Err e end)
                     <$> await_forward connect_timeout (now + connect_timeout)%N turns
          end
      end
  end.

(** ** A terminal of a pane *)

Inductive TerminalEvent :=
  | TerminalFrame (sequence width height : N) (full : bool) (payload : bytes)
  | TerminalClosed.
(** What serde reads as a line of the terminal session. *)
Inductive TerminalEnvelope :=
  | EnvelopeFrame (seq : N) (encoding : ustr) (width height : N) (full : bool) (payload : ustr)
  | EnvelopeClosed (reason : option ustr).
Class TerminalLines := read_envelope : bytes → option TerminalEnvelope.
(** The standard alphabet. *)
Class Base64 := { base64_encode : bytes → ustr; base64_decode : ustr → option bytes }.
Inductive TerminalError := BadEnvelope | UnsupportedEncoding | BadPayload | NotEncoded.

Definition parse_terminal_event `{TerminalLines, Base64} (line : bytes) : result TerminalError TerminalEvent :=
  envelope ← ok_or (read_envelope line) BadEnvelope;
  match envelope with
  | EnvelopeFrame seq encoding width height full payload =>
      if bool_decide (encoding = u "ansi")
      then decoded ← ok_or (base64_decode payload) BadPayload; Ok (TerminalFrame seq width height full decoded)
      else Err UnsupportedEncoding
  | EnvelopeClosed _ => Ok TerminalClosed
  end.

Section terminal.
Context {V : Type} `{JsonValue V, JsonBuild V, JsonText V, Base64}.

Definition encode_command (type : string) (fields : list (ustr * V)) : result TerminalError bytes :=
  line ← ok_or (to_vec (json_object ((u "type", json_string (u type)) :: fields))) NotEncoded;
  Ok (line ++ [10%N]).
Definition terminal_input_command (input : bytes) : result TerminalError bytes :=
  encode_command "terminal.input" [(u "bytes", json_string (base64_encode input))].
Definition terminal_resize_command (columns rows : N) : result TerminalError bytes :=
  encode_command "terminal.resize"
    [(u "cols", json_u64 (N.max columns 1)); (u "rows", json_u64 (N.max rows 1));
     (u "cell_width_px", json_u64 0); (u "cell_height_px", json_u64 0)].
Definition scroll_label (direction : TerminalScrollDirection) : ustr :=
  match direction with ScrollUp => u "up" | ScrollDown => u "down" end.
Definition terminal_scroll_command (direction : TerminalScrollDirection) (lines column row modifiers : N) : result TerminalError bytes :=
  encode_command "terminal.scroll"
    [(u "direction", json_string (scroll_label direction)); (u "lines", json_u64 (N.max lines 1));
     (u "source", json_string (u "wheel")); (u "column", json_u64 column); (u "row", json_u64 row);
     (u "modifiers", json_u64 modifiers)].
Definition terminal_release_command : result TerminalError bytes := encode_command "terminal.release" [].
End terminal.

Definition terminal_operation_args (pane : PaneId) (access : TerminalAccess) (rows columns : N) : list ustr :=
  [u "terminal"; u "session"; match access with Observe => u "observe" | Control => u "control" end; server_local_id pane;
   u "--cols"; display_N (N.max columns 1); u "--rows"; display_N (N.max rows 1)].
(** The command [spawn_terminal] starts; its input is a pipe only for control. *)
Definition spawn_terminal (t : Target) (c : TransportConfig) (executable : ustr) (pane : PaneId) (access : TerminalAccess) (rows columns : N)
    : Command * bool :=
  (build_herdr_command t c executable (terminal_operation_args pane access rows columns), bool_decide (access = Control)).
