(* ===== verification/TransportFacts.v ===== *)
(** What reaches a Herdr server, and what comes back from it. *)

From S2P Require Import Prelude Text Json Net Config Model State Identity WorkspaceMove Transport.

(** ** Arguments through a shell *)

(** How a shell cuts a line into words, with the word it is in: the rules of POSIX for
    blanks, single quotes, and double quotes around nothing it would expand. *)
Class Shell := lex : option ustr → ustr → option (list ustr).
Class ShellLaws `{Shell} := {
  lex_end : lex None [] = Some [];
  lex_last word : lex (Some word) [] = Some [word];
  lex_blank word text : lex (Some word) (32%N :: text) = cons word <$> lex None text;
  lex_single word q text : 39%N ∉ q → lex word ([39%N] ++ q ++ [39%N] ++ text) = lex (Some (default [] word ++ q)) text;
  lex_double word q text :
    Forall (λ c, c ∉ [33; 34; 36; 92; 96]%N) q → lex word ([34%N] ++ q ++ [34%N] ++ text) = lex (Some (default [] word ++ q)) text;
}.

Section shell.
Context `{ShellLaws}.

Lemma lex_quoted word value text : lex word (quote_posix value ++ text) = lex (Some (default [] word ++ value)) text.
Proof.
  unfold quote_posix. cut (∀ q word, 39%N ∉ q →
    lex word ([39%N] ++ q ++ (value ≫= λ c, if (c =? 39)%N then [39; 34; 39; 34; 39]%N else [c]) ++ [39%N] ++ text)
    = lex (Some (default [] word ++ q ++ value)) text).
  { intros Hcut. pose proof (Hcut [] word (not_elem_of_nil _)) as Heq. simpl in Heq. rewrite <-!app_assoc. exact Heq. }
  induction value as [|c value IH]; intros q w Hq.
  - rewrite app_nil_r. cbn [mbind list_bind]. rewrite app_nil_l. by rewrite lex_single.
  - cbn [mbind list_bind]. destruct (N.eqb_spec c 39) as [->|Hc].
    + change ([39; 34; 39; 34; 39]%N) with ([39%N] ++ [34%N] ++ [39%N] ++ [34%N] ++ [39%N]). rewrite <-!app_assoc.
      rewrite (lex_single w q _) by done.
      rewrite (lex_double _ [39%N] _) by (repeat constructor; set_solver).
      etrans; [apply (IH [] (Some ((default [] w ++ q) ++ [39%N])) (not_elem_of_nil _))|].
      cbn [default from_option id]. by rewrite <-!app_assoc.
    + pose proof (IH (q ++ [c]) w) as Heq. rewrite <-!app_assoc in Heq. rewrite <-!app_assoc. rewrite Heq; [done|].
      rewrite elem_of_app, list_elem_of_singleton. naive_solver.
Qed.
Lemma lex_words words : lex None (Net.join (u " ") (quote_posix <$> words)) = Some words.
Proof.
  induction words as [|w words IH]; [apply lex_end|]. destruct words as [|w' words].
  - cbn [fmap list_fmap Net.join]. rewrite <-(app_nil_r (quote_posix w)), lex_quoted. apply lex_last.
  - change (Net.join (u " ") (quote_posix <$> w :: w' :: words))
      with (quote_posix w ++ [32%N] ++ Net.join (u " ") (quote_posix <$> w' :: words)).
    rewrite lex_quoted. cbn [app]. by rewrite lex_blank, IH.
Qed.

(** C12. The arguments Herdr is run with are the ones that were meant, whatever they hold
    (quotes, spaces, dollar signs, line feeds), on this machine and behind ssh alike: the
    shell of the other host reads the one string it is given as exactly the executable, the
    session and the arguments of the operation. *)
Theorem herdr_sees_arguments t c executable args :
  let argv := executable :: match tgt_session t with Some s => [u "--session"; s] | None => [] end ++ args in
  let cmd := build_herdr_command t c executable args in
  match tgt_ssh t with
  | None => program cmd :: arguments cmd = argv
  | Some destination =>
      ∃ remote, program cmd = ssh_bin c ∧ arguments cmd = ssh_flags c ++ [u "--"; destination; remote] ∧ lex None remote = Some argv
  end.
Proof.
  intros argv cmd. unfold cmd, build_herdr_command. destruct (tgt_ssh t) as [d|]; [|done].
  eexists. split; [done|]. split; [done|]. apply lex_words.
Qed.
End shell.

(** ** Discovered sessions *)

#[local] Instance name_le_trans : Transitive name_le.
Proof. intros a b c. unfold name_le. apply cmp_le_trans. Qed.
#[local] Instance name_le_total : Total name_le.
Proof. intros a b. unfold name_le. apply cmp_le_total. Qed.

Lemma dedup_sorted previous l :
  StronglySorted name_le l → (∀ p, previous = Some p → Forall (λ s, cmp_le p (ds_name s)) l) →
  NoDup (ds_name <$> dedup_names previous l) ∧ (∀ p, previous = Some p → p ∉ ds_name <$> dedup_names previous l)
  ∧ dedup_names previous l ⊆ l.
Proof.
  revert previous. induction l as [|s l IH]; intros previous Hs Hp; [split_and!; [constructor|set_solver|done]|].
  apply StronglySorted_inv in Hs as [Hs Hall]. cbn [dedup_names].
  assert (∀ p, Some (ds_name s) = Some p → Forall (λ s, cmp_le p (ds_name s)) l) as Hnext.
  { intros p [= <-]. exact Hall. }
  case_bool_decide as Heq.
  - destruct (IH previous Hs) as (? & ? & ?); [|split_and!; [done..|set_solver]].
    intros p Hpp. specialize (Hp p Hpp). by apply Forall_cons in Hp as [_ ?].
  - destruct (IH (Some (ds_name s)) Hs Hnext) as (Hnd & Hnot & Hsub). rewrite fmap_cons. split_and!.
    + constructor; [by apply Hnot|done].
    + intros p -> [->|Hin]%elem_of_cons; [done|]. specialize (Hp p eq_refl). apply Forall_cons in Hp as [Hle _].
      apply list_elem_of_fmap in Hin as (s' & -> & Hin). apply Heq. f_equal.
      assert (cmp_le (ds_name s) (ds_name s')) as Hge by (eapply (proj1 (Forall_forall _ _) Hall); by apply Hsub).
      by apply (anti_symm cmp_le).
    + intros x [->|Hx]%elem_of_cons; [left|right; by apply Hsub].
Qed.

(** A host's sessions, as [discover_sessions_once] keeps them. *)
Definition well_listed (sessions : list DiscoveredSession) : Prop :=
  NoDup (ds_name <$> sessions) ∧ Forall (λ s, ds_running s = true ∧ valid_discovered_session s = true) sessions.

Section discovery.
Context {V W : Type} `{JsonValue V, JsonText V, SessionLists V, Processes W, Display}.

Lemma discovered_once_well_listed c t executable w sessions :
  (discover_sessions_once c t executable w).1 = Ok sessions → well_listed sessions.
Proof.
  unfold discover_sessions_once. destruct (output _ w) as [[out|?] w']; cbn [fst]; [|done].
  destruct (out_success out); [|done]. cbn [negb]. destruct (_ <? _); [done|].
  destruct (parse_last_json _) as [v|?]; [|done]. cbn [mbind result_bind]. destruct (read_session_list v) as [l|]; [|done].
  cbn [mbind result_bind ok_or]. intros [= <-]. set (kept := filter _ l).
  assert (StronglySorted name_le (stable_sort name_le kept)) as Hs by (apply stable_sort_sorted; apply _).
  destruct (dedup_sorted None _ Hs) as (Hnd & _ & Hsub); [done|]. split; [done|].
  apply Forall_forall. intros s Hin%Hsub. rewrite (stable_sort_Permutation name_le) in Hin.
  apply list_elem_of_filter in Hin as [Hkept _]. by apply Is_true_true, andb_true_iff in Hkept.
Qed.
Lemma discovered_well_listed c t elapsed w d :
  (discover_running_sessions c t elapsed w).1 = Ok d → well_listed (sd_sessions d).
Proof.
  unfold discover_running_sessions, discover_sessions. generalize (@nil ustr) as failures, (tgt_herdr_bins t) as candidates.
  intros failures candidates. revert failures w. induction candidates as [|e candidates IH]; intros failures w; cbn [discover_from].
  { by destruct elapsed. }
  destruct (discover_sessions_once c t e w) as [[sessions|?] w'] eqn:E; [|apply IH].
  destruct elapsed; [done|]. intros [= <-]. simpl. eapply (discovered_once_well_listed c t e w). by rewrite E.
Qed.

Lemma discovered_target_valid names t s :
  validate_target names t = Ok () → valid_discovered_session s = true →
  ∀ t', t' ∈ targets_for_discovered_sessions t [s] → validate_target names t' = Ok ().
Proof.
  intros Hv Hs t' ->%list_elem_of_singleton. unfold valid_discovered_session in Hs.
  rewrite !andb_true_iff, !negb_true_iff, bool_decide_eq_false in Hs. destruct Hs as [[[[[Hne Hslash] Hc] Habs] Hcolon] Hsc].
  revert Hv. unfold validate_target, validate_session, validate_socket. cbn [tgt_name tgt_herdr_bins tgt_tags tgt_roots tgt_ssh tgt_session tgt_socket].
  autorewrite with herdr_check. rewrite Hslash, Hc, Habs, Hcolon, Hsc, !bool_decide_eq_false.
  intros Hv. destruct_and!. split_and!; try done; [|by right]. intros Hempty. by rewrite Hempty in Habs.
Qed.
End discovery.

(** ** Expanding a configuration *)

(** What an expanded target keeps of the configured one. *)
Definition expanded_from (t t' : Target) : Prop :=
  tgt_name t' = tgt_name t ∧ tgt_ssh t' = tgt_ssh t ∧ tgt_tags t' = tgt_tags t ∧ tgt_roots t' = tgt_roots t
  ∧ tgt_herdr_bins t' = tgt_herdr_bins t.

Lemma elem_of_imap_concat {A B} (f : nat → A → list B) l y :
  y ∈ concat (imap f l) ↔ ∃ i x, l !! i = Some x ∧ y ∈ f i x.
Proof.
  revert f. induction l as [|x l IH]; intros f; [set_solver|]. rewrite imap_cons. cbn [concat].
  rewrite elem_of_app, IH. split.
  - intros [Hy|(i & x' & Hl & Hy)]; [by exists 0, x|by exists (S i), x'].
  - intros ([|i] & x' & Hl & Hy); [injection Hl as ->; by left|right; by exists i, x'].
Qed.
Lemma expanded_keys_apart f ts :
  NoDup (tgt_name <$> ts) →
  (∀ i t, t ∈ ts → NoDup (target_key <$> f i t) ∧ ∀ t', t' ∈ f i t → tgt_name t' = tgt_name t) →
  NoDup (target_key <$> concat (imap f ts)).
Proof.
  revert f. induction ts as [|t ts IH]; intros f Hnd Hf; [constructor|]. rewrite imap_cons. cbn [concat].
  rewrite fmap_cons in Hnd. apply NoDup_cons in Hnd as [Hnot Hnd]. rewrite fmap_app. apply NoDup_app. split_and!.
  - by apply (Hf 0 t), list_elem_of_here.
  - intros k (t1 & -> & H1)%list_elem_of_fmap (t2 & Heq & H2)%list_elem_of_fmap.
    apply elem_of_imap_concat in H2 as (i & t' & Hi & H2). apply list_elem_of_lookup_2 in Hi.
    destruct (Hf 0 t (list_elem_of_here _ _)) as [_ Hn1], (Hf (S i) t' (list_elem_of_further _ _ _ Hi)) as [_ Hn2].
    apply Hnot, list_elem_of_fmap. exists t'. split; [|done]. rewrite <-(Hn1 _ H1), <-(Hn2 _ H2).
    by apply (f_equal ts_target) in Heq.
  - apply IH; [done|]. intros i t' Ht'. apply (Hf (S i)). by right.
Qed.

Section expansion.
Context {V W : Type} `{JsonValue V, JsonText V, SessionLists V, Processes W, Display}.

Lemma expanded_target c t elapsed w names :
  validate_target names t = Ok () →
  NoDup (target_key <$> expand_discovered_target c t elapsed w)
  ∧ ∀ t', t' ∈ expand_discovered_target c t elapsed w → expanded_from t t' ∧ validate_target names t' = Ok ().
Proof.
  intros Hv. unfold expand_discovered_target.
  assert (NoDup (target_key <$> [t]) ∧ ∀ t', t' ∈ [t] → expanded_from t t' ∧ validate_target names t' = Ok ()) as Hself.
  { split; [apply NoDup_singleton|]. by intros t' ->%list_elem_of_singleton. }
  destruct (tgt_discover_sessions t); [|done]. cbn [negb].
  destruct (discover_running_sessions c t elapsed w).1 as [d|?] eqn:E; [|done]. clear Hself.
  apply discovered_well_listed in E as [Hnd Hall]. unfold targets_for_discovered_sessions. split.
  - rewrite <-list_fmap_compose. apply (NoDup_fmap_1 (λ k, ts_session k)). by rewrite <-list_fmap_compose.
  - intros t' (s & -> & Hs)%list_elem_of_fmap. split; [done|]. rewrite Forall_forall in Hall.
    destruct (Hall s Hs) as [_ Hvalid]. by apply (discovered_target_valid names t s Hv Hvalid), list_elem_of_singleton.
Qed.

(** C18. Splitting hosts into the sessions found on them keeps a federation sound: whatever
    the hosts answer and whichever discoveries fail, are late or are lost, the expanded
    targets still pass the checks of a configuration, each keeps the name, host, tags,
    roots and programs of the one it comes from, no two are the same session of the same
    target, and the federation started on them holds each of them. *)
Theorem expansion_keeps_identities runs config :
  validate config = Ok () →
  let expanded := expand_discovered_sessions runs config in
  NoDup (target_key <$> cfg_targets expanded)
  ∧ (∀ t', t' ∈ cfg_targets expanded → validate_target [] t' = Ok () ∧ ∃ t, t ∈ cfg_targets config ∧ expanded_from t t')
  ∧ size (targets (initial_federation (cfg_targets expanded))) = length (cfg_targets expanded).
Proof.
  intros Hv%validate_targets_ok. cbv zeta. unfold expand_discovered_sessions. cbn [cfg_targets].
  set (f := λ i t, match runs i with Some (elapsed, w) => expand_discovered_target (cfg_transport config) t elapsed w | None => [t] end).
  pose proof (validate_targets_all _ _ Hv) as [Hnames _].
  assert (∀ i t, t ∈ cfg_targets config → NoDup (target_key <$> f i t)
            ∧ ∀ t', t' ∈ f i t → expanded_from t t' ∧ validate_target [] t' = Ok ()) as Hf.
  { intros i t Ht. pose proof (validate_targets_each _ _ Hv t Ht) as Hvt. unfold f.
    destruct (runs i) as [[elapsed w]|]; [by apply expanded_target|].
    split; [apply NoDup_singleton|]. by intros t' ->%list_elem_of_singleton. }
  assert (NoDup (target_key <$> concat (imap f (cfg_targets config)))) as Hkeys.
  { apply expanded_keys_apart; [done|]. intros i t Ht. destruct (Hf i t Ht) as [? Hall]. split; [done|].
    intros t' Ht'. by apply (Hall t' Ht'). }
  split_and!; [done| |by apply federation_size].
  intros t' (i & t & Ht%list_elem_of_lookup_2 & Ht')%elem_of_imap_concat. destruct (Hf i t Ht) as [_ Hall].
  destruct (Hall t' Ht'). split; [done|]. by exists t.
Qed.
End expansion.

(** ** Requests *)

Section requests.
Context {V S : Type} `{JsonValue V, JsonBuild V, JsonText V, Sockets S, Display}.

(** Everything a request that fails can say. *)
Definition request_failures (request_timeout : Duration) (method : ustr) : list SnapshotError :=
  timed_out request_timeout
  :: (unavailable <$> [
        u "failed to encode " ++ method; method ++ u " exceeds Herdr's API request size limit";
        u "failed to connect to the Herdr socket"; u "failed to write " ++ method;
        u "Herdr socket read failed"; u "Herdr socket closed"; u "Herdr socket record exceeded size limit";
        u "Herdr socket returned invalid JSON"; u "Herdr returned an unexpected " ++ method ++ u " response";
        u "Herdr rejected " ++ method ++ u " (diagnostics redacted)"; method ++ u " returned no result"]).
Definition Outcome {A} (fails : list SnapshotError) (P : A → S → Prop) (r : result SnapshotError A * S) : Prop :=
  match r.1 with Ok a => P a r.2 | Err e => e ∈ fails end.

Lemma io_bind_outcome {A B} fails (m : Io A) (f : A → Io B) s P Q :
  Outcome fails P (m s) → (∀ a s', P a s' → Outcome fails Q (f a s')) → Outcome fails Q (io_bind m f s).
Proof. unfold Outcome, io_bind. intros Hm Hf. destruct (m s) as [[a|e] s']; simpl in *; [by apply Hf|done]. Qed.
Lemma outcome_mono {A} fails (P Q : A → S → Prop) r :
  Outcome fails P r → (∀ a s, P a s → Q a s) → Outcome fails Q r.
Proof. unfold Outcome. destruct r as [[a|e] s]; naive_solver. Qed.
Lemma waiting_outcome {A} fails after (m : S → Timed A * S) s :
  timed_out after ∈ fails → Outcome fails (λ a s', m s = (InTime a, s')) (waiting after m s).
Proof. unfold Outcome, waiting. intros Hin. by destruct (m s) as [[|a] s']. Qed.
Lemma ensure_outcome {A} fails ok message s (x : A) (P : S → Prop) :
  unavailable message ∈ fails → (ok = true → P s) → Outcome fails (λ (_ : ()) s', P s') (io_pure (ensure ok message) s).
Proof. unfold Outcome, io_pure, ensure. destruct ok; naive_solver. Qed.

(** A request line, what came back on the same connection, and the answer in it. *)
Definition answered (method : ustr) (number : N) (params : V) (s : S) (v : V) (s' : S) : Prop :=
  ∃ encoded line response s1 s2,
    to_vec (request_json method number params) = Some encoded ∧ length encoded < MAX_API_REQUEST_BYTES
    ∧ connect s = (InTime true, s1) ∧ write_all (encoded ++ [10%N]) s1 = (InTime true, s2)
    ∧ read_until_newline s2 = (InTime (Some line), s') ∧ length line ≤ MAX_SOCKET_LINE
    ∧ from_slice line = Some response
    ∧ (json_get response (u "id") ≫= as_str) = Some (request_id method number)
    ∧ json_get response (u "error") = None ∧ json_get response (u "result") = Some v.

Lemma answer_of_outcome after method id response s (P : V → Prop) :
  (∀ v, (json_get response (u "id") ≫= as_str) = Some id → json_get response (u "error") = None
        → json_get response (u "result") = Some v → P v) →
  Outcome (request_failures after method) (λ v s', s' = s ∧ P v) (io_pure (answer_of method id response) s).
Proof.
  intros HP. unfold Outcome, io_pure, answer_of. cbn [fst snd].
  case_bool_decide as Hid; cbn [negb]; [|unfold request_failures; set_solver +].
  case_bool_decide as Herr; [unfold request_failures; set_solver +|].
  destruct (json_get response (u "result")) as [v|] eqn:Hr; [|unfold request_failures; set_solver +].
  split; [done|]. apply HP; [done| |done]. by apply eq_None_not_Some.
Qed.
Lemma parsed_line_outcome after method line s :
  Outcome (request_failures after method)
    (λ response s', s' = s ∧ ∃ l, line = Some l ∧ length l ≤ MAX_SOCKET_LINE ∧ from_slice l = Some response)
    (io_pure (parsed_line line) s).
Proof.
  unfold Outcome, io_pure, parsed_line. cbn [fst snd].
  destruct line as [[|b l]|]; [unfold request_failures; set_solver +| |unfold request_failures; set_solver +].
  destruct (Nat.ltb_spec MAX_SOCKET_LINE (length (b :: l))); [unfold request_failures; set_solver +|].
  destruct (from_slice (b :: l)) eqn:Hf; [|unfold request_failures; set_solver +]. split; [done|]. by exists (b :: l).
Qed.
Lemma encoded_outcome after method number params s :
  Outcome (request_failures after method)
    (λ b s', s' = s ∧ ∃ encoded, b = encoded ++ [10%N] ∧ to_vec (request_json method number params) = Some encoded
                                 ∧ length encoded < MAX_API_REQUEST_BYTES)
    (io_pure (encoded_request method number params) s).
Proof.
  unfold Outcome, io_pure, encoded_request. cbn [fst snd]. destruct (to_vec _) as [encoded|] eqn:He;
    [|unfold request_failures; set_solver +]. cbn [ok_or mbind result_bind].
  destruct (Nat.ltb_spec MAX_API_REQUEST_BYTES (length encoded + 1)); [unfold request_failures; set_solver +|].
  split; [done|]. exists encoded. split_and!; [done..|lia].
Qed.

Lemma read_outcome after method s :
  Outcome (request_failures after method)
    (λ response s', ∃ line, read_until_newline s = (InTime (Some line), s') ∧ length line ≤ MAX_SOCKET_LINE
                            ∧ from_slice line = Some response)
    (read_socket_line after s).
Proof.
  unfold read_socket_line. eapply io_bind_outcome; [apply waiting_outcome; left|].
  intros line s' Hread. cbv beta in Hread. eapply outcome_mono; [apply parsed_line_outcome|].
  intros response ? [-> (l & -> & ? & ?)]. by exists l.
Qed.
Lemma connect_outcome after method s :
  Outcome (request_failures after method) (λ _ s', connect s = (InTime true, s')) (connect_endpoint after s).
Proof.
  unfold connect_endpoint. eapply io_bind_outcome; [apply waiting_outcome; left|].
  intros ok s' Hok. cbv beta in Hok. apply (ensure_outcome _ _ _ _ ()); [unfold request_failures; set_solver +|by intros ->].
Qed.

Lemma exchange_outcome after method number params s :
  Outcome (request_failures after method) (answered method number params s) (exchange after method number params s).
Proof.
  unfold exchange. eapply io_bind_outcome; [apply encoded_outcome|].
  intros ? ? [-> (encoded & -> & Hvec & Hlen)]. eapply io_bind_outcome; [apply connect_outcome|].
  intros [] s1 Hconnect. cbv beta in Hconnect. eapply io_bind_outcome; [apply waiting_outcome; left|].
  intros ok s2 Hwrite. cbv beta in Hwrite.
  apply (io_bind_outcome _ _ _ _ (λ _ s', s' = s2 ∧ ok = true)).
  { apply (ensure_outcome _ _ _ _ () (λ s', s' = s2 ∧ ok = true)); [unfold request_failures; set_solver +|done]. }
  intros [] ? [-> ->]. eapply io_bind_outcome; [apply read_outcome|].
  intros response s' (line & Hread & Hline & Hslice). eapply outcome_mono.
  { apply (answer_of_outcome _ _ _ _ _ (λ v, json_get response (u "error") = None ∧ json_get response (u "result") = Some v
      ∧ (json_get response (u "id") ≫= as_str) = Some (request_id method number))); naive_solver. }
  intros v ? (-> & ? & ? & ?). exists encoded, line, response, s1, s2. naive_solver.
Qed.

Lemma request_id_inj method n n' : request_id method n = request_id method n' → n = n'.
Proof. unfold request_id. intros Heq%app_inv_head%app_inv_head%app_inv_head. by apply display_N_inj. Qed.

(** C11. A request to Herdr that fails says nothing of what Herdr or a terminal said: its
    error is one of a few fixed sentences that hold the method's name at most, whatever came
    over the socket. A request that succeeds was written whole, within the size limit, as
    one line on a connection of its own, and its result comes from the one line read from
    that connection, which names this very request: its number was not used in the session
    before (until the numbers run out). *)
Theorem requests_answered_or_redacted after method params n s :
  let '(answer, (number, s')) := session_request after method params (n, s) in
  number = N.min (n + 1) u64_max
  ∧ match answer with
    | Ok v => answered method number params s v s'
    | Err e => e ∈ request_failures after method
    end
  ∧ ((n < u64_max)%N → ∀ earlier, (earlier ≤ n)%N → request_id method number ≠ request_id method earlier).
Proof.
  unfold session_request. cbn [fst snd]. set (number := u64_saturating_succ n).
  pose proof (exchange_outcome after method number params s) as Hx. unfold Outcome in Hx.
  destruct (exchange after method number params s) as [answer s']. cbn [fst snd] in Hx. split_and!; [done|done|].
  intros Hn earlier He Heq%request_id_inj. unfold number, u64_saturating_succ, u64_saturating_add in Heq. lia.
Qed.
End requests.

(** ** Waiting for the tunnel *)

(** The wait for an ssh tunnel ends: with a turn every 25 milliseconds or less often, it
    takes no more turns than the deadline holds, and two. *)
Theorem tunnel_wait_ends `{Display} connect_timeout now turns :
  (∀ i turn, turns !! i = Some turn → (now + N.of_nat i * (25 * MS) ≤ at_ turn)%N) →
  (connect_timeout / (25 * MS) + 2 ≤ N.of_nat (length turns))%N →
  is_Some (await_forward connect_timeout (now + connect_timeout) turns).
Proof.
  set (most := (connect_timeout / (25 * MS))%N).
  assert (connect_timeout < (most + 1) * (25 * MS))%N as Hmost.
  { pose proof (N.mod_lt connect_timeout (25 * MS)) as Hlt. pose proof (N.div_mod connect_timeout (25 * MS)).
    unfold most. unfold MS in *. lia. }
  cut (∀ k, (k ≤ most + 1)%N →
    (∀ i turn, turns !! i = Some turn → (now + (k + N.of_nat i) * (25 * MS) ≤ at_ turn)%N) →
    (most + 2 ≤ k + N.of_nat (length turns))%N →
    is_Some (await_forward connect_timeout (now + connect_timeout) turns)).
  { intros Hcut Htime Hlen. apply (Hcut 0%N); [lia| |lia]. intros i turn Hi. rewrite N.add_0_l. by apply Htime. }
  induction turns as [|turn turns IH]; intros k Hk Htime Hlen; [cbn [length] in Hlen; lia|].
  cbn [await_forward]. destruct (inspected turn); [|done]. destruct (exited turn); [done|]. destruct (accepts turn); [done|].
  cbn [negb]. destruct (N.ltb_spec (at_ turn) (now + connect_timeout)) as [Hlt|]; [|done].
  pose proof (Htime 0 turn eq_refl) as H0. apply (IH (k + 1)%N).
  - unfold MS in *. nia.
  - intros i t Hi. specialize (Htime (S i) t Hi). lia.
  - cbn [length] in Hlen. lia.
Qed.

(** Records that are no events are skipped, whatever their number; the first event, or the
    first line that cannot be read, ends the wait. *)
Theorem next_change_exact {V} `{JsonValue V, JsonText V} skipped line coming :
  Forall (λ l, ∃ v, parsed_line (V := V) l = Ok v ∧ (json_get v (u "event") ≫= as_str) = None) skipped →
  next_change (V := V) (skipped ++ line :: coming) =
    match parsed_line (V := V) line with
    | Err e => Some (Err e, S (length skipped))
    | Ok event =>
        match json_get event (u "event") ≫= as_str with
        | Some _ => Some (Ok (), S (length skipped))
        | None => (λ r, (r.1, r.2 + S (length skipped))) <$> next_change (V := V) coming
        end
    end.
Proof.
  induction 1 as [|l skipped (v & Hl & Hv) _ IH].
  - cbn [app next_change length]. destruct (parsed_line line) as [event|e]; [|done].
    destruct (json_get event (u "event") ≫= as_str); by rewrite ?bool_decide_eq_true_2, ?bool_decide_eq_false_2 by (done || intros []; done).
  - cbn [app next_change]. rewrite Hl, Hv, bool_decide_eq_false_2 by (intros []; done). rewrite IH. cbn [length].
    destruct (parsed_line line) as [event|e]; [|cbn; do 2 f_equal; lia].
    destruct (json_get event (u "event") ≫= as_str); [cbn; do 2 f_equal; lia|].
    destruct (next_change coming) as [[? ?]|]; [|done]. cbn. do 2 f_equal. lia.
Qed.

(** ** Concrete shells, hosts and sockets *)

Module Runs.
Import Json.Concrete.

(** The words of a line without expansions. *)
Inductive LexMode := Blank | Word (word : ustr) | Single (word : ustr) | Double (word : ustr).
Fixpoint cut (mode : LexMode) (text : ustr) : option (list ustr) :=
  match text with
  | [] => match mode with Blank => Some [] | Word word => Some [word] | _ => None end
  | c :: text =>
      match mode with
      | Blank => if (c =? 32)%N then cut Blank text else if (c =? 39)%N then cut (Single []) text
                 else if (c =? 34)%N then cut (Double []) text else cut (Word [c]) text
      | Word word => if (c =? 32)%N then cons word <$> cut Blank text else if (c =? 39)%N then cut (Single word) text
                     else if (c =? 34)%N then cut (Double word) text else cut (Word (word ++ [c])) text
      | Single word => if (c =? 39)%N then cut (Word word) text else cut (Single (word ++ [c])) text
      | Double word => if (c =? 34)%N then cut (Word word) text
                       else if bool_decide (c ∈ [33; 36; 92; 96]%N) then None else cut (Double (word ++ [c])) text
      end
  end.
#[export] Instance posix : Shell := λ word, cut (match word with None => Blank | Some word => Word word end).
Lemma cut_single q word text : 39%N ∉ q → cut (Single word) (q ++ 39%N :: text) = cut (Word (word ++ q)) text.
Proof.
  revert word. induction q as [|c q IH]; intros word Hq; [by rewrite app_nil_r|].
  apply not_elem_of_cons in Hq as [Hc Hq]. cbn [app cut]. rewrite (proj2 (N.eqb_neq c 39)) by done.
  by rewrite IH, <-app_assoc.
Qed.
Lemma cut_double q word text :
  Forall (λ c, c ∉ [33; 34; 36; 92; 96]%N) q → cut (Double word) (q ++ 34%N :: text) = cut (Word (word ++ q)) text.
Proof.
  intros Hq. revert word. induction Hq as [|c q Hc _ IH]; intros word; [by rewrite app_nil_r|].
  cbn [app cut]. rewrite (proj2 (N.eqb_neq c 34)) by set_solver. rewrite bool_decide_eq_false_2 by set_solver.
  by rewrite IH, <-app_assoc.
Qed.
#[export] Instance posix_laws : ShellLaws.
Proof.
  split; [done|done|done| |]; intros [word|] q text Hq; unfold lex, posix; cbn [app cut].
  all: rewrite ?cut_single, ?cut_double by done; done.
Qed.

Definition box : Target := {|
  tgt_name := u "box"; tgt_ssh := Some (u "me@box"); tgt_discover_sessions := true; tgt_session := Some (u "it's; rm -rf $HOME");
  tgt_socket := None; tgt_herdr_bins := [u "herdr"]; tgt_tags := []; tgt_roots := [] |}.

Lemma herdr_sees_arguments_witness :
  ∃ remote, arguments (build_herdr_command box TransportConfig_default (u "herdr") [u "api"; u "snapshot"])
            = [u "-o"; u "BatchMode=yes"; u "-o"; u "ConnectTimeout=10"; u "--"; u "me@box"; remote]
  ∧ lex None remote = Some [u "herdr"; u "--session"; u "it's; rm -rf $HOME"; u "api"; u "snapshot"].
Proof.
  destruct (herdr_sees_arguments box TransportConfig_default (u "herdr") [u "api"; u "snapshot"]) as (remote & _ & Hargs & Hlex).
  exists remote. split; [exact Hargs|exact Hlex].
Defined.

(** Two sessions run on the host, one is listed twice, one is stopped, one is named for a
    path. *)
Definition found (name socket : string) (running : bool) : DiscoveredSession :=
  {| ds_name := u name; ds_running := running; ds_session_dir := u "/s"; ds_socket_path := u socket |}.
#[export] Instance display : Display := {| debug s := s; as_secs_f64 d := display_N (d / 1000000000) |}.
Definition reply : json := JObject [(u "id", JString (u "super-herdr:pane.list:1")); (u "result", JNumber 7)].
Definition refusal : json := JObject [(u "id", JString (u "super-herdr:pane.list:1")); (u "error", JString (u "the secret"))].
#[export] Instance texts : JsonText json := {|
  from_str _ := Some JNull; to_vec _ := Some (u "request"); to_string _ := u "json"; json_array := JArray;
  from_slice line := if bool_decide (line = u "reply") then Some reply else if bool_decide (line = u "refusal") then Some refusal else None |}.
#[export] Instance lists : SessionLists json :=
  λ _, Some [found "work" "/s/work" true; found "default" "/s/default" true; found "old" "/s/old" false;
                               found "../x" "/s/x" true; found "work" "/s/other" true].
#[export] Instance hosts : Processes () :=
  λ _ w, (Ok {| out_success := true; out_status := u "0"; out_stdout := u "{}" |}, w).
Definition configured : Config := {|
  cfg_transport := TransportConfig_default; cfg_notifications := NotificationsConfig_default; cfg_quick_replies := None;
  cfg_transfers := TransferConfig_default; cfg_web := WebConfig_default; cfg_devices := [];
  cfg_targets := [ {| tgt_name := u "box"; tgt_ssh := Some (u "me@box"); tgt_discover_sessions := true; tgt_session := None;
                      tgt_socket := None; tgt_herdr_bins := [u "herdr"]; tgt_tags := []; tgt_roots := [] |};
                   {| tgt_name := u "local"; tgt_ssh := None; tgt_discover_sessions := true; tgt_session := None;
                      tgt_socket := None; tgt_herdr_bins := [u "herdr"]; tgt_tags := []; tgt_roots := [] |} ] |}.
(** The discovery on this machine is late. *)
Definition tasks (i : nat) : option (bool * ()) := Some (1 =? i, ()).
Definition expanded : Config := expand_discovered_sessions (V := json) tasks configured.

Lemma expansion_keeps_identities_witness :
  validate configured = Ok ()
  ∧ target_key <$> cfg_targets expanded
    = [TargetSession_new (u "box") (u "default"); TargetSession_new (u "box") (u "work"); TargetSession_new (u "local") (u "default")]
  ∧ (tgt_socket <$> cfg_targets expanded) = [Some (u "/s/default"); Some (u "/s/work"); None]
  ∧ NoDup (target_key <$> cfg_targets expanded).
Proof.
  assert (validate configured = Ok ()) as Hv by (vm_compute; reflexivity).
  split; [exact Hv|]. split; [vm_compute; reflexivity|]. split; [vm_compute; reflexivity|].
  exact (proj1 (expansion_keeps_identities (V := json) tasks configured Hv)).
Defined.

(** A server that answers every line with one. *)
#[export] Instance scripted : Sockets bytes := {|
  connect line := (InTime true, line); write_all _ line := (InTime true, line);
  read_until_newline line := (InTime (Some line), line) |}.
Lemma requests_answered_or_redacted_witness :
  session_request (V := json) 0 (u "pane.list") (JNumber 1) (0%N, u "reply") = (Ok (JNumber 7), (1%N, u "reply"))
  ∧ session_request (V := json) 0 (u "pane.list") (JNumber 1) (0%N, u "refusal")
    = (Err (unavailable (u "Herdr rejected pane.list (diagnostics redacted)")), (1%N, u "refusal"))
  ∧ answered (V := json) (u "pane.list") 1 (JNumber 1) (u "reply") (JNumber 7) (u "reply").
Proof.
  split; [vm_compute; reflexivity|]. split; [vm_compute; reflexivity|].
  exact (proj1 (proj2 (requests_answered_or_redacted (V := json) 0 (u "pane.list") (JNumber 1) 0 (u "reply")))).
Defined.
End Runs.
