(* ===== verification/Notifications.v ===== *)
(** Desktop notifications: the queue of [src/src/notifications.rs].

    Time is an instant in milliseconds; showing a notification is left to the
    desktop.

    Notifications are paced: the queue never announces an event twice, and
    never more often than it is configured to. *)

From S2P Require Import Prelude Model Config Examples Attention.

Definition COALESCE_WINDOW : N := 500.
Definition MAX_PENDING_METADATA : nat := 16.

Record NotificationQueue := {
  nq_config : NotificationsConfig;
  last_seen_id : option N;
  pending : list AttentionEvent;
  pending_count : nat;
  queued_at : option N;
  last_attempt : option N;
}.

Record NotificationDelivery := {
  nd_title : ustr;
  nd_body : ustr;
  nd_pane : option PaneId;
  nd_timeout : N;
}.

Definition NotificationQueue_new (config : NotificationsConfig) (seen : option N)
    : NotificationQueue := {|
  nq_config := config; last_seen_id := seen; pending := []; pending_count := 0;
  queued_at := None; last_attempt := None;
|}.

Definition clear_pending (q : NotificationQueue) : NotificationQueue := {|
  nq_config := nq_config q; last_seen_id := last_seen_id q; pending := []; pending_count := 0;
  queued_at := None; last_attempt := last_attempt q;
|}.

Definition reconfigure (config : NotificationsConfig) (q : NotificationQueue)
    : NotificationQueue * bool :=
  if bool_decide (nq_config q = config) then (q, false)
  else (clear_pending {| nq_config := config; last_seen_id := last_seen_id q; pending := pending q;
                         pending_count := pending_count q; queued_at := queued_at q;
                         last_attempt := last_attempt q |}, true).

Definition should_notify (config : NotificationsConfig) (kind : AttentionEventKind) : bool :=
  match kind with
  | NeedsAttention => needs_attention config
  | Working => working config
  | Completed => completed config
  | StatusChanged => status_changed config
  | Disappeared => disappeared config
  end.

Definition already_seen (event : AttentionEvent) (q : NotificationQueue) : bool :=
  match last_seen_id q with Some id => (ev_id event <=? id)%N | None => false end.

Definition enqueue (event : AttentionEvent) (now : N) (q : NotificationQueue)
    : NotificationQueue * bool :=
  if already_seen event q then (q, false)
  else if negb (enabled (nq_config q)) || negb (should_notify (nq_config q) (ev_kind event))
  then ({| nq_config := nq_config q; last_seen_id := Some (ev_id event); pending := pending q;
           pending_count := pending_count q; queued_at := queued_at q;
           last_attempt := last_attempt q |}, false)
  else ({| nq_config := nq_config q; last_seen_id := Some (ev_id event);
           pending := keep_last MAX_PENDING_METADATA (pending q ++ [event]);
           pending_count := pending_count q + 1;
           queued_at := Some (default now (queued_at q));
           last_attempt := last_attempt q |}, true).

Definition notification_title (count : nat) (latest : AttentionEvent) : ustr :=
  if 1 <? count then display_N (N.of_nat count) ++ u " Super-Herdr agent updates"
  else match ev_kind latest with
       | NeedsAttention => u "Agent needs attention"
       | Working => u "Agent started working"
       | Completed => u "Agent completed"
       | StatusChanged => u "Agent status changed"
       | Disappeared => u "Agent disappeared"
       end.

(** [" · "]. *)
Definition middle_dot : ustr := u " " ++ [183%N] ++ u " ".

Definition notification_body (count : nat) (latest : AttentionEvent) : ustr :=
  (if 1 <? count then u "Latest of " ++ display_N (N.of_nat count) ++ u ": " else [])
  ++ bounded_metadata (ev_agent latest) 128 ++ middle_dot ++ bounded_metadata (ev_workspace latest) 128
  ++ [10%N] ++ bounded_metadata (target (ev_pane latest)) 128 ++ u "/"
  ++ bounded_metadata (session (ev_pane latest)) 128 ++ middle_dot ++ kind_label (ev_kind latest).

(** When the pending events may be delivered. *)
Definition ready_at (queued : N) (q : NotificationQueue) : N :=
  N.max (queued + COALESCE_WINDOW)
    match last_attempt q with
    | Some attempt => attempt + minimum_interval_seconds (nq_config q) * 1000
    | None => queued
    end.

Definition take_ready (now : N) (q : NotificationQueue)
    : NotificationQueue * option NotificationDelivery :=
  if negb (enabled (nq_config q)) || bool_decide (pending_count q = 0) then (q, None)
  else match queued_at q with
       | None => (q, None)
       | Some queued =>
           if (now <? ready_at queued q)%N then (q, None)
           else match last (pending q) with
                | None => (q, None)
                | Some latest =>
                    let q' := clear_pending q in
                    ({| nq_config := nq_config q'; last_seen_id := last_seen_id q';
                        pending := pending q'; pending_count := pending_count q';
                        queued_at := queued_at q'; last_attempt := Some now |},
                     Some {| nd_title := notification_title (pending_count q) latest;
                             nd_body := notification_body (pending_count q) latest;
                             nd_pane := Some (ev_pane latest);
                             nd_timeout := command_timeout_seconds (nq_config q) |})
                end
       end.

Definition test_delivery (config : NotificationsConfig) : result ustr NotificationDelivery :=
  if negb (enabled config) then Err (u "notifications are disabled in configuration")
  else Ok {| nd_title := u "Super-Herdr notification test";
             nd_body := u "Native metadata-only notification delivery is working";
             nd_pane := None; nd_timeout := command_timeout_seconds config |}.

(** ** A run of the queue, with what it announced *)

Inductive queue_input :=
  | Observed (event : AttentionEvent) (now : N)
  | Polled (now : N)
  | Reconfigured (config : NotificationsConfig).

Definition input_time (i : queue_input) : option N :=
  match i with Observed _ now | Polled now => Some now | Reconfigured _ => None end.

(** One delivery: when, under which minimum interval, the events it announces
    with the moment the first of them was queued, and what it says. *)
Record announcement := {
  an_now : N;
  an_interval : N;
  an_first : N;
  an_batch : list AttentionEvent;
  an_delivery : NotificationDelivery;
}.

Record history := {
  hs_queue : NotificationQueue;
  hs_first : N;                        (* when the first event of the batch came *)
  hs_batch : list AttentionEvent;      (* accepted and not yet announced or dropped *)
  hs_accepted : list AttentionEvent;
  hs_announced : list announcement;
}.

Definition history_new (config : NotificationsConfig) (seen : option N) : history := {|
  hs_queue := NotificationQueue_new config seen; hs_first := 0; hs_batch := [];
  hs_accepted := []; hs_announced := [];
|}.

Definition feed (h : history) (i : queue_input) : history :=
  let q := hs_queue h in
  match i with
  | Observed event now =>
      let '(q', accepted) := enqueue event now q in
      if accepted
      then {| hs_queue := q';
              hs_first := if bool_decide (hs_batch h = []) then now else hs_first h;
              hs_batch := hs_batch h ++ [event]; hs_accepted := hs_accepted h ++ [event];
              hs_announced := hs_announced h |}
      else {| hs_queue := q'; hs_first := hs_first h; hs_batch := hs_batch h;
              hs_accepted := hs_accepted h; hs_announced := hs_announced h |}
  | Polled now =>
      match take_ready now q with
      | (q', Some delivery) =>
          {| hs_queue := q'; hs_first := hs_first h; hs_batch := [];
             hs_accepted := hs_accepted h;
             hs_announced := hs_announced h ++
               [{| an_now := now; an_interval := minimum_interval_seconds (nq_config q);
                   an_first := hs_first h; an_batch := hs_batch h; an_delivery := delivery |}] |}
      | (q', None) =>
          {| hs_queue := q'; hs_first := hs_first h; hs_batch := hs_batch h;
             hs_accepted := hs_accepted h; hs_announced := hs_announced h |}
      end
  | Reconfigured config =>
      let '(q', changed) := reconfigure config q in
      {| hs_queue := q'; hs_first := hs_first h;
         hs_batch := if changed then [] else hs_batch h;
         hs_accepted := hs_accepted h; hs_announced := hs_announced h |}
  end.

(** Announcements at least the interval apart that held at the later one. *)
Inductive spaced : list announcement → Prop :=
  | spaced_nil : spaced []
  | spaced_one a : spaced [a]
  | spaced_snoc l a b :
      spaced (l ++ [a]) → (an_now a + an_interval b * 1000 ≤ an_now b)%N → spaced (l ++ [a] ++ [b]).

Definition says (a : announcement) : Prop :=
  ∃ latest, last (an_batch a) = Some latest ∧
    nd_pane (an_delivery a) = Some (ev_pane latest) ∧
    nd_title (an_delivery a) = notification_title (length (an_batch a)) latest ∧
    nd_body (an_delivery a) = notification_body (length (an_batch a)) latest ∧
    (an_first a + COALESCE_WINDOW ≤ an_now a)%N.

Record paced (seen : option N) (h : history) : Prop := {
  pc_pending : pending (hs_queue h) = keep_last MAX_PENDING_METADATA (hs_batch h);
  pc_count : pending_count (hs_queue h) = length (hs_batch h);
  pc_queued : queued_at (hs_queue h) = if bool_decide (hs_batch h = []) then None else Some (hs_first h);
  pc_attempt : last_attempt (hs_queue h) = an_now <$> last (hs_announced h);
  pc_spaced : spaced (hs_announced h);
  pc_says : Forall says (hs_announced h);
  pc_ids : StronglySorted N.lt (ev_id <$> hs_accepted h);
  pc_seen : ∀ e, e ∈ hs_accepted h → match seen with Some s => (s < ev_id e)%N | None => True end;
  pc_last : match last_seen_id (hs_queue h) with
            | Some s => (∀ e, e ∈ hs_accepted h → (ev_id e ≤ s)%N) ∧
                        match seen with Some s0 => (s0 ≤ s)%N | None => True end
            | None => seen = None ∧ hs_accepted h = []
            end;
  pc_once : (mjoin (an_batch <$> hs_announced h) ++ hs_batch h) `sublist_of` hs_accepted h;
}.

Lemma paced_new config seen : paced seen (history_new config seen).
Proof.
  split; simpl; try done; try constructor.
  - intros e ?%elem_of_nil. done.
  - destruct seen; [|done]. split; [by intros e ?%elem_of_nil|done].
Qed.

Lemma last_keep_last {A} n (l : list A) : 0 < n → last (keep_last n l) = last l.
Proof.
  intros Hn. destruct l as [|x l] using rev_ind; [by destruct n|].
  destruct (keep_last_suffix n (l ++ [x])) as [k Hk].
  assert (keep_last n (l ++ [x]) ≠ []) as Hne.
  { intros E. apply (f_equal length) in E. rewrite length_keep_last, length_app in E. simpl in E. lia. }
  destruct (keep_last n (l ++ [x])) as [|y m] using rev_ind; [done|].
  rewrite Hk, app_assoc, !last_snoc. done.
Qed.

Lemma observed_paced seen h event now : paced seen h → paced seen (feed h (Observed event now)).
Proof.
  intros [P1 P2 P3 P4 P5 P6 P7 P8 P9 P10]. cbn [feed]. unfold enqueue, already_seen.
  destruct (match last_seen_id (hs_queue h) with Some id => (ev_id event <=? id)%N | None => false end)
    eqn:Eseen; [by destruct h|].
  assert (match seen with Some s => (s < ev_id event)%N | None => True end ∧
    ∀ e, e ∈ hs_accepted h → (ev_id e < ev_id event)%N) as [Hnew Hall].
  { destruct (last_seen_id (hs_queue h)) as [s|].
    - apply N.leb_gt in Eseen. destruct P9 as [P9 P9']. split.
      + destruct seen; [lia|done].
      + intros e He%P9. lia.
    - destruct P9 as [-> ->]. split; [done|]. by intros e ?%elem_of_nil. }
  destruct (negb _ || negb _); cbn [hs_queue hs_first hs_batch hs_accepted hs_announced].
  - split; try done. cbn. split; [intros e He%Hall; lia|]. destruct seen; [lia|done].
  - split; cbn; try done.
    + rewrite P1. apply keep_last_app.
    + rewrite P2, length_app. done.
    + rewrite P3. destruct (hs_batch h) as [|x l]; [done|].
      rewrite !bool_decide_eq_false_2 by done. done.
    + rewrite fmap_app. apply StronglySorted_snoc; [done|].
      intros y (e & -> & He)%list_elem_of_fmap. by apply Hall.
    + intros e [He| ->%list_elem_of_singleton]%elem_of_app; [by apply P8|exact Hnew].
    + split; [|destruct seen; [lia|done]].
      intros e [He%Hall| ->%list_elem_of_singleton]%elem_of_app; lia.
    + rewrite app_assoc. by apply sublist_app.
Qed.

Lemma polled_paced seen h now : paced seen h → paced seen (feed h (Polled now)).
Proof.
  intros HP. pose proof HP as [P1 P2 P3 P4 P5 P6 P7 P8 P9 P10]. cbn [feed]. unfold take_ready.
  destruct (negb _ || _) eqn:E; [by destruct h|]. apply orb_false_iff in E as [_ E%bool_decide_eq_false].
  rewrite P3. destruct (bool_decide (hs_batch h = [])) eqn:Eb; [by destruct h|].
  apply bool_decide_eq_false in Eb.
  destruct (now <? ready_at (hs_first h) (hs_queue h))%N eqn:Er; [by destruct h|]. apply N.ltb_ge in Er.
  rewrite P1, last_keep_last by (unfold MAX_PENDING_METADATA; lia).
  destruct (last (hs_batch h)) as [latest|] eqn:El; [|by destruct h].
  split; cbn; try done.
  - by rewrite last_snoc.
  - destruct (hs_announced h) as [|a l _] eqn:Ea using rev_ind; [constructor|].
    rewrite <-app_assoc. constructor; [done|]. cbn [an_now an_interval].
    rewrite last_snoc in P4. unfold ready_at in Er. rewrite P4 in Er. simpl in Er. lia.
  - apply Forall_app. split; [done|]. constructor; [|constructor]. exists latest.
    cbn [an_batch an_delivery an_first an_now nd_pane nd_title nd_body]. rewrite P2.
    split_and!; try done. unfold ready_at in Er. lia.
  - rewrite fmap_app, join_app. simpl. by rewrite !app_nil_r.
Qed.

Lemma reconfigured_paced seen h config : paced seen h → paced seen (feed h (Reconfigured config)).
Proof.
  intros HP. pose proof HP as [P1 P2 P3 P4 P5 P6 P7 P8 P9 P10]. cbn [feed]. unfold reconfigure.
  destruct (bool_decide (nq_config (hs_queue h) = config)); [by destruct h|]. split; cbn; try done.
  rewrite app_nil_r. etrans; [|exact P10]. apply sublist_inserts_r. done.
Qed.

(** Notifications are paced. Over any sequence of observed events, polls and
    changes of configuration: only events newer than the last one seen are
    accepted, in increasing order; every accepted event is announced at most
    once, in order; each notification states the number of events accepted since
    the previous one (or since the configuration changed) and names the latest
    of them, no sooner than half a second after the first was queued; and two
    notifications in a row are at least the configured interval apart. What is
    kept while waiting is at most sixteen events, whatever arrives. *)
Theorem notifications_paced config seen (inputs : list queue_input) :
  let h := foldl feed (history_new config seen) inputs in
  StronglySorted N.lt (ev_id <$> hs_accepted h) ∧
  (∀ e, e ∈ hs_accepted h → match seen with Some s => (s < ev_id e)%N | None => True end) ∧
  (mjoin (an_batch <$> hs_announced h) ++ hs_batch h) `sublist_of` hs_accepted h ∧
  Forall says (hs_announced h) ∧ spaced (hs_announced h) ∧
  pending_count (hs_queue h) = length (hs_batch h) ∧
  pending (hs_queue h) = keep_last MAX_PENDING_METADATA (hs_batch h).
Proof.
  cbn zeta. assert (paced seen (foldl feed (history_new config seen) inputs)) as [].
  { apply (foldl_ind (paced seen)); [apply paced_new|]. intros h [] Hh;
      [by apply observed_paced|by apply polled_paced|by apply reconfigured_paced]. }
  split_and!; done.
Qed.
