(* ===== verification/Pairing.v ===== *)
(** Device pairing: [src/src/pairing.rs] and its part of
    [src/src/daemon/server.rs].

    Time is a wall clock in milliseconds, read once by every operation that
    reads it. SHA-256 and the TOML reader and writer are not part of the sources
    and are classes; so is nothing else: random bytes, the outcome of a write
    and whether the browser still waits are arguments of the operations. *)

From S2P Require Import Prelude Text Net Config.

(** ** Codes, tokens and their comparison *)

Definition CODE_ALPHABET : ustr := u "ABCDEFGHJKLMNPQRSTUVWXYZ23456789".
Definition CODE_CHARACTERS : nat := 8.
Definition TOKEN_BYTES : nat := 32.
Definition CODE_LIFETIME : N := 300 * 1000.
Definition PAIRING_APPROVAL_LIFETIME : N := 60 * 1000.
Definition MAX_ATTEMPTS : N := 5.
Definition MAX_PENDING_PAIRING_APPROVALS : nat := 16.

(** [{:02x}] of every byte. *)
Definition hex_digit (n : N) : N := if (n <? 10)%N then (48 + n)%N else (87 + n)%N.
Definition hex (b : bytes) : ustr := b ≫= λ byte, [hex_digit (byte / 16); hex_digit (byte mod 16)].

(** A token from the bytes the kernel gave, when it gave them. *)
Definition token (random : option bytes) : option ustr := hex <$> random.

Definition pairing_code (random : option bytes) : option ustr :=
  b ← random;
    let code := (λ byte, default 0%N (CODE_ALPHABET !! N.to_nat (byte mod 32))) <$> b in
    Some (take 4 code ++ u "-" ++ drop 4 code).

Definition normalize_code (entered : ustr) : ustr :=
  take CODE_CHARACTERS (to_ascii_uppercase_char <$> filter (λ c, is_ascii_alphanumeric c) entered).

Class Sha256 := sha256 : bytes → bytes.
Definition fingerprint `{Sha256} (tok : ustr) : ustr := hex (sha256 (utf8 tok)).

Definition matches (left right : ustr) : bool :=
  let left := utf8 left in
  let right := utf8 right in
  if negb (length left =? length right) then false
  else (foldl (λ difference lr, N.lor difference (N.lxor lr.1 lr.2)) 0 (zip left right) =? 0)%N.

Record PendingPairing := { code : ustr; code_expires_at : N; attempts : N }.

Definition PendingPairing_new (random : option bytes) (now : N) : option PendingPairing :=
  (λ c, {| code := c; code_expires_at := now + CODE_LIFETIME; attempts := 0 |}) <$> pairing_code random.
Definition expired (p : PendingPairing) (now : N) : bool := (code_expires_at p <=? now)%N.
Definition accepts (p : PendingPairing) (entered : ustr) (now : N) : bool :=
  negb (expired p now) && matches (normalize_code entered) (normalize_code (code p)).
Definition record_failure (p : PendingPairing) : PendingPairing * bool :=
  let n := u32_saturating_add (attempts p) 1 in
  ({| code := code p; code_expires_at := code_expires_at p; attempts := n |}, (MAX_ATTEMPTS <=? n)%N).
Definition attempts_remaining (p : PendingPairing) : N := MAX_ATTEMPTS - attempts p.

(** ** Devices and their names *)

Definition device_name (offered : ustr) : ustr :=
  let cleaned :=
    take 48 (filter (λ c, is_ascii_alphanumeric c
                          || bool_decide (c ∈ [32; 45; 95; 46])%N) offered) in
  let trimmed := trim cleaned in
  if bool_decide (trimmed = []) then u "paired device" else trimmed.

Definition taken (name : ustr) (existing : list Device) : bool :=
  existsb (λ d, bool_decide (dev_name d = name)) existing.

(** The names tried after the offered one, from a number on; [None] when [fuel]
    of them are taken. *)
Fixpoint free_suffix (fuel : nat) (suffix : N) (base : ustr) (existing : list Device) : option ustr :=
  match fuel with
  | O => None
  | S fuel' =>
      let candidate := base ++ u " " ++ display_N suffix in
      if taken candidate existing then free_suffix fuel' (suffix + 1) base existing
      else Some candidate
  end.

(** Each device takes at most one of the names, so as many attempts as there
    are devices, and one more, are enough. *)
Definition unique_device_name (offered : ustr) (existing : list Device) : ustr :=
  let base := device_name offered in
  if negb (taken base existing) then base
  else default base (free_suffix (S (length existing)) 2 base existing).

(** ** The configuration file's devices *)

(** What [Config::parse] makes of a text, when it accepts it, as far as devices
    are concerned, and the text of one [[[devices]]] entry. *)
Class DeviceToml := {
  parse_devices : ustr → option (list Device);
  device_entry : Device → ustr;
}.

Definition end_line (text : ustr) : ustr :=
  if bool_decide (last text = Some 10%N) then text else text ++ [10%N].

(** Appending an entry adds that device, if the result is accepted at all. *)
Class DeviceTomlLaws `{DeviceToml} := parse_appended : ∀ text devices d devices',
  parse_devices text = Some devices →
  parse_devices (end_line text ++ [10%N] ++ device_entry d) = Some devices' →
  devices' = devices ++ [d].

Inductive AddDeviceError := Unreadable | AlreadyPaired (name : ustr) | InvalidResult | NotWritten.

Section pairing.
Context `{Sha256} `{DeviceToml}.

(** [Config::add_device_file] on the text of the file, if it can be read;
    [written] is how writing the new one turns out. *)
Definition add_device_file (file : option ustr) (written : bool) (device : Device)
    : result AddDeviceError ustr :=
  text ← ok_or file Unreadable;
  devices ← ok_or (parse_devices text) Unreadable;
  if taken (dev_name device) devices then Err (AlreadyPaired (dev_name device))
  else
    let text := end_line text ++ [10%N] ++ device_entry device in
    _ ← ok_or (parse_devices text) InvalidResult;
    if written then Ok text else Err NotWritten.

(** ** The daemon's state of pairing *)

Record PendingPairingApproval := { appr_name : ustr; appr_expires_at : N }.

(** A matched code on its way to the event loop ([Input::PairingRequested]). *)
Record PairingRequest := {
  req_attempt : ustr; req_name : ustr; req_confirmation : ustr; req_expires_at : N;
}.

Record PairingState := {
  has_config_path : bool;
  config_file : option ustr;       (** [None]: it cannot be read *)
  held_devices : list Device;      (** what was last read *)
  pending_pairing : option PendingPairing;
  bridge_pairing : option (option ustr);
  requests : list PairingRequest;
  approvals : gmap ustr PendingPairingApproval;
}.

(** What an operation says, and to whom: the client that asked, the browser that
    waits for the decision, every client that watches. *)
Inductive PairingOutput :=
  | CodeIssued (code : ustr) (expires_in_seconds : N)
  | IssueFailed
  | Approval (attempt name confirmation : ustr) (expires_in_seconds : N)
  | Decided (attempt : ustr) (approved : bool) (message : ustr)
  | Answer (attempt : ustr) (answer : result ustr ustr).

Definition set_pending (p : option PendingPairing) (s : PairingState) : PairingState := {|
  has_config_path := has_config_path s; config_file := config_file s;
  held_devices := held_devices s; pending_pairing := p; bridge_pairing := bridge_pairing s;
  requests := requests s; approvals := approvals s |}.
Definition set_bridge (c : option ustr) (s : PairingState) : PairingState := {|
  has_config_path := has_config_path s; config_file := config_file s;
  held_devices := held_devices s; pending_pairing := pending_pairing s;
  bridge_pairing := (λ _, c) <$> bridge_pairing s;
  requests := requests s; approvals := approvals s |}.
Definition set_held (l : list Device) (s : PairingState) : PairingState := {|
  has_config_path := has_config_path s; config_file := config_file s;
  held_devices := l; pending_pairing := pending_pairing s; bridge_pairing := bridge_pairing s;
  requests := requests s; approvals := approvals s |}.
Definition set_requests (l : list PairingRequest) (s : PairingState) : PairingState := {|
  has_config_path := has_config_path s; config_file := config_file s;
  held_devices := held_devices s; pending_pairing := pending_pairing s;
  bridge_pairing := bridge_pairing s; requests := l; approvals := approvals s |}.
Definition set_approvals (m : gmap ustr PendingPairingApproval) (s : PairingState) : PairingState := {|
  has_config_path := has_config_path s; config_file := config_file s;
  held_devices := held_devices s; pending_pairing := pending_pairing s;
  bridge_pairing := bridge_pairing s; requests := requests s; approvals := m |}.
Definition set_file (f : option ustr) (s : PairingState) : PairingState := {|
  has_config_path := has_config_path s; config_file := f;
  held_devices := held_devices s; pending_pairing := pending_pairing s;
  bridge_pairing := bridge_pairing s; requests := requests s; approvals := approvals s |}.

(** [DevicePolicy::current]. *)
Definition current (s : PairingState) : PairingState * list Device :=
  match (if has_config_path s then config_file s ≫= parse_devices else None) with
  | Some devices => (set_held devices s, devices)
  | None => (s, held_devices s)
  end.

(** [DevicePolicy::admits]. *)
Definition admits (tok : ustr) (s : PairingState) : PairingState * bool :=
  let offered := fingerprint tok in
  let '(s, devices) := current s in
  (s, existsb (λ d, matches (token_sha256 d) offered) devices).

Definition issue_pairing_code (random : option bytes) (now : N) (s : PairingState)
    : PairingState * list PairingOutput :=
  match PendingPairing_new random now with
  | Some p =>
      (set_bridge (Some (code p)) (set_pending (Some p) s),
       [CodeIssued (code p) ((code_expires_at p - now) / 1000)])
  | None => (s, [IssueFailed])
  end.

Inductive PairError :=
  NoConfigFile | BadConfirmation | NoRandomness | NoCodeWaiting | CodeExpired | TooManyWrongCodes
  | WrongCode (remaining : N).

(** [DevicePolicy::pair]; [Ok] is a browser left waiting for the approval. *)
Definition pair_device (entered offered confirmation : ustr) (random : option bytes) (now : N)
    (s : PairingState) : PairingState * result PairError ustr :=
  if negb (has_config_path s) then (s, Err NoConfigFile)
  else if negb (utf8_len confirmation =? 6) || negb (forallb is_ascii_digit confirmation)
  then (s, Err BadConfirmation)
  else
    let '(s, devices) := current s in
    let name := unique_device_name offered devices in
    match token random with
    | None => (s, Err NoRandomness)
    | Some attempt =>
        match pending_pairing s with
        | None => (s, Err NoCodeWaiting)
        | Some p =>
            if expired p now then (set_bridge None (set_pending None s), Err CodeExpired)
            else if negb (accepts p entered now) then
              let '(p, spent) := record_failure p in
              if spent then (set_bridge None (set_pending None s), Err TooManyWrongCodes)
              else (set_pending (Some p) s, Err (WrongCode (attempts_remaining p)))
            else
              let s := set_bridge None (set_pending None s) in
              (set_requests (requests s ++ [{| req_attempt := attempt; req_name := name;
                                               req_confirmation := confirmation;
                                               req_expires_at := now + PAIRING_APPROVAL_LIFETIME |}]) s,
               Ok attempt)
        end
    end.

(** The event loop takes the oldest request. *)
Definition pairing_requested (now : N) (s : PairingState) : PairingState * list PairingOutput :=
  match requests s with
  | [] => (s, [])
  | r :: rest =>
      let s := set_requests rest s in
      if MAX_PENDING_PAIRING_APPROVALS <=? size (approvals s)
      then (s, [Answer (req_attempt r) (Err (u "too many device approvals are already waiting"))])
      else
        (set_approvals (<[req_attempt r := {| appr_name := req_name r;
                                              appr_expires_at := req_expires_at r |}]> (approvals s)) s,
         [Approval (req_attempt r) (req_name r) (req_confirmation r)
            ((req_expires_at r - now) / 1000)])
  end.

(** [closed]: the browser no longer waits; [delivered]: it takes the token. *)
Definition decide_pairing (attempt : ustr) (approve : bool) (random : option bytes)
    (closed written delivered : bool) (message_of : AddDeviceError → ustr) (now : N)
    (s : PairingState) : PairingState * list PairingOutput :=
  match approvals s !! attempt with
  | None => (s, [Decided attempt false (u "that device approval is no longer waiting")])
  | Some pending =>
      let s := set_approvals (delete attempt (approvals s)) s in
      if (appr_expires_at pending <=? now)%N || closed then
        (s, [Answer attempt (Err (u "device approval expired"));
             Decided attempt false (u "device approval expired")])
      else if negb approve then
        (s, [Answer attempt (Err (u "device approval was rejected"));
             Decided attempt false (appr_name pending ++ u " was not paired")])
      else
        let result :=
          _ ← ok_or (if has_config_path s then Some () else None)
                (u "this daemon has no configuration file to record a device in");
          tok ← ok_or (token random) (u "failed to open /dev/urandom");
          match add_device_file (config_file s) written
                  {| dev_name := appr_name pending; token_sha256 := fingerprint tok;
                     paired_at_ms := now |} with
          | Ok text => Ok (tok, text)
          | Err e => Err (message_of e)
          end in
        match result with
        | Ok (tok, text) =>
            (set_file (Some text) s,
             [Answer attempt (Ok tok);
              Decided attempt delivered
                (if delivered then appr_name pending ++ u " paired"
                 else u "the browser left before approval completed")])
        | Err message => (s, [Answer attempt (Err message); Decided attempt false message])
        end
  end.

Definition approval_over (closed : gset ustr) (now : N) (s : PairingState) (attempt : ustr) : bool :=
  match approvals s !! attempt with
  | Some p => (appr_expires_at p <=? now)%N || bool_decide (attempt ∈ closed)
  | None => false
  end.
Definition expired_approvals (closed : gset ustr) (now : N) (s : PairingState) : list ustr :=
  filter (λ attempt, approval_over closed now s attempt) (keys (approvals s)).
Definition sweep_pairing_approvals (closed : gset ustr) (now : N) (s : PairingState)
    : PairingState * list PairingOutput :=
  foldl (λ w attempt,
      (set_approvals (delete attempt (approvals w.1)) w.1,
       w.2 ++ [Answer attempt (Err (u "device approval expired"));
               Decided attempt false (u "device approval expired")]))
    (s, []) (expired_approvals closed now s).
End pairing.
