(* ===== verification/PairingFacts.v ===== *)
(** What pairing guarantees: codes are compared exactly and however they are
    typed, device names are free, and no device is recorded but through a live
    code and a timely approval. *)

From S2P Require Import Prelude Text Net Config Pairing.

(** ** Comparison *)

Lemma fold_difference_zero (l : list (N * N)) (d : N) :
  foldl (λ difference lr, N.lor difference (N.lxor lr.1 lr.2)) d l = 0%N ↔
  d = 0%N ∧ Forall (λ lr, lr.1 = lr.2) l.
Proof.
  revert d. induction l as [|[a b] l IH]; intros d; simpl.
  - split; [by intros ->|by intros [-> _]].
  - rewrite IH, N.lor_eq_0_iff, N.lxor_eq_0_iff, Forall_cons. naive_solver.
Qed.

Lemma zip_all_eq (l k : bytes) :
  length l = length k → Forall (λ lr, lr.1 = lr.2) (zip l k) ↔ l = k.
Proof.
  revert k. induction l as [|x l IH]; intros [|y k]; simpl; try done.
  intros [= Hlen]. rewrite Forall_cons, IH by done. simpl. split; [by intros [-> ->]|naive_solver].
Qed.

(** The comparison that never stops early is equality of the bytes. *)
Lemma matches_utf8 left right : matches left right = true ↔ utf8 left = utf8 right.
Proof.
  unfold matches. destruct (Nat.eqb_spec (length (utf8 left)) (length (utf8 right))) as [Hl|Hl]; simpl.
  - rewrite N.eqb_eq, fold_difference_zero, zip_all_eq by done. naive_solver.
  - split; [done|]. intros Heq. by rewrite Heq in Hl.
Qed.

Lemma matches_refl s : matches s s = true.
Proof. by apply matches_utf8. Qed.


(** ** Codes *)

Definition in_range (lo hi c : N) : bool := ((lo <=? c) && (c <=? hi))%N.
Lemma in_range_spec lo hi c : in_range lo hi c = true ↔ (lo ≤ c ≤ hi)%N.
Proof. unfold in_range. rewrite andb_true_iff, !N.leb_le. lia. Qed.

Lemma alphanumeric_spec c :
  is_ascii_alphanumeric c = true ↔ (48 ≤ c ≤ 57 ∨ 65 ≤ c ≤ 90 ∨ 97 ≤ c ≤ 122)%N.
Proof.
  unfold is_ascii_alphanumeric. rewrite !orb_true_iff.
  rewrite (in_range_spec 48 57 c : is_ascii_digit c = true ↔ _).
  rewrite (in_range_spec 65 90 c : is_ascii_uppercase c = true ↔ _).
  rewrite (in_range_spec 97 122 c : is_ascii_lowercase c = true ↔ _). lia.
Qed.

Lemma uppercase_spec c :
  to_ascii_uppercase_char c = (if in_range 97 122 c then c - 32 else c)%N.
Proof. done. Qed.

Definition normalized (s : ustr) : Prop := Forall (λ c, 48 ≤ c ≤ 57 ∨ 65 ≤ c ≤ 90)%N s.

Lemma normalize_code_normalized entered : normalized (normalize_code entered).
Proof.
  unfold normalized, normalize_code. apply Forall_take, Forall_fmap, Forall_forall.
  intros c [Hc%Is_true_true%alphanumeric_spec _]%list_elem_of_filter. simpl. rewrite uppercase_spec.
  destruct (in_range 97 122 c) eqn:E; [apply in_range_spec in E; lia|].
  apply not_true_iff_false in E. rewrite in_range_spec in E. lia.
Qed.

Lemma normalized_fixed s : normalized s → length s ≤ CODE_CHARACTERS → normalize_code s = s.
Proof.
  intros Hs Hlen. unfold normalize_code. rewrite filter_all.
  - rewrite (Forall_fmap_ext_1 _ id); [by rewrite list_fmap_id, take_ge|].
    eapply Forall_impl; [done|]. intros c Hc; simpl in Hc. rewrite uppercase_spec.
    destruct (in_range 97 122 c) eqn:E; [apply in_range_spec in E; lia|done].
  - intros c Hc. apply Is_true_true, alphanumeric_spec. eapply Forall_forall in Hs; [|done].
    simpl in Hs. lia.
Qed.

(** Separators and case do not matter. *)
Lemma normalize_code_app a b :
  length (filter (λ c, is_ascii_alphanumeric c) (a ++ b)) ≤ CODE_CHARACTERS →
  normalize_code (a ++ b) = normalize_code a ++ normalize_code b.
Proof.
  unfold normalize_code. rewrite filter_app, length_app. intros Hlen.
  rewrite fmap_app, !take_ge; [done|..]; rewrite ?length_app, ?length_fmap; lia.
Qed.

Lemma accepts_spec p entered now :
  accepts p entered now = true ↔
  (now < code_expires_at p)%N ∧ normalize_code entered = normalize_code (code p).
Proof.
  unfold accepts, expired. rewrite andb_true_iff, negb_true_iff, N.leb_gt, matches_utf8.
  split; [|by intros [? ->]]. intros [Ht Heq]. split; [done|].
  apply utf8_inj; [..|done]; (eapply Forall_impl; [apply normalize_code_normalized|]);
    intros c Hc; apply ascii_scalar; simpl in Hc; lia.
Qed.

(** The letters drawn from the kernel's bytes. *)
Definition code_letters (b : bytes) : ustr := (λ byte, default 0%N (CODE_ALPHABET !! N.to_nat (byte mod 32))) <$> b.

Lemma code_letters_normalized b : normalized (code_letters b).
Proof.
  unfold code_letters, normalized. apply Forall_fmap, Forall_forall. intros byte _. simpl.
  pose proof (N.mod_lt byte 32 ltac:(done)) as Hm.
  assert (is_Some (CODE_ALPHABET !! N.to_nat (byte mod 32))) as [c Hc].
  { apply lookup_lt_is_Some_2. change (length CODE_ALPHABET) with 32.
    generalize dependent (byte mod 32)%N. lia. }
  rewrite Hc. simpl. apply list_elem_of_lookup_2 in Hc.
  assert (Forall (λ c, in_range 48 57 c || in_range 65 90 c = true) CODE_ALPHABET) as Hall
    by (apply Forall_forall; apply (proj1 (Forall_forall _ _)); vm_compute; repeat constructor).
  eapply Forall_forall in Hall; [|done]. simpl in Hall.
  apply orb_true_iff in Hall as [?%in_range_spec|?%in_range_spec]; auto.
Qed.

Lemma issued_code_letters b now p :
  length b = CODE_CHARACTERS → PendingPairing_new (Some b) now = Some p →
  normalize_code (code p) = code_letters b.
Proof.
  intros Hb Hp.
  assert (code p = take 4 (code_letters b) ++ u "-" ++ drop 4 (code_letters b)) as ->
    by (by injection Hp as <-).
  unfold CODE_CHARACTERS in *.
  pose proof (code_letters_normalized b) as Hn.
  assert (length (code_letters b) = 8) as Hl by (unfold code_letters; by rewrite length_fmap).
  assert (∀ s, normalized s → filter (λ c, is_ascii_alphanumeric c) s = s) as Hf.
  { intros s Hs. apply filter_all. intros c Hc. apply Is_true_true, alphanumeric_spec.
    eapply Forall_forall in Hs; [|done]. simpl in Hs. lia. }
  unfold normalize_code. rewrite !filter_app.
  rewrite (Hf (take 4 _)), (Hf (drop 4 _)) by (unfold normalized in *; auto using Forall_take, Forall_drop).
  change (filter (λ c, is_ascii_alphanumeric c) (u "-")) with ([] : ustr). rewrite app_nil_l.
  rewrite take_drop. pose proof (normalized_fixed (code_letters b) Hn) as Hfix.
  unfold normalize_code in Hfix. rewrite Hf in Hfix by done. apply Hfix. unfold CODE_CHARACTERS. lia.
Qed.

(** ** Device names *)

Lemma taken_spec name existing : taken name existing = true ↔ name ∈ dev_name <$> existing.
Proof.
  unfold taken. rewrite existsb_exists, list_elem_of_fmap. setoid_rewrite bool_decide_eq_true.
  setoid_rewrite <-list_elem_of_In. naive_solver.
Qed.

Definition candidate (base : ustr) (suffix : N) : ustr := base ++ u " " ++ display_N suffix.
#[export] Instance candidate_inj base : Inj (=) (=) (candidate base).
Proof. intros m n Heq. by apply app_inv_head, app_inv_head, (inj display_N) in Heq. Qed.

Lemma free_suffix_Some fuel suffix base existing name :
  free_suffix fuel suffix base existing = Some name →
  taken name existing = false ∧ ∃ n, (suffix ≤ n)%N ∧ name = candidate base n ∧
    ∀ m, (suffix ≤ m < n)%N → taken (candidate base m) existing = true.
Proof.
  revert suffix. induction fuel as [|fuel IH]; intros suffix; cbn [free_suffix]; [done|].
  fold (candidate base suffix). destruct (taken (candidate base suffix) existing) eqn:Et.
  - intros (Hf & n & Hn & -> & Hm)%IH. split; [done|]. exists n. split; [lia|]. split; [done|].
    intros m Hr. destruct (decide (m = suffix)) as [->|]; [done|]. apply Hm. lia.
  - intros [= <-]. split; [done|]. exists suffix. split; [lia|]. split; [done|]. lia.
Qed.

Lemma free_suffix_None fuel suffix base existing :
  free_suffix fuel suffix base existing = None →
  ∀ m, (suffix ≤ m < suffix + N.of_nat fuel)%N → taken (candidate base m) existing = true.
Proof.
  revert suffix. induction fuel as [|fuel IH]; intros suffix; cbn [free_suffix]; [lia|].
  fold (candidate base suffix). destruct (taken (candidate base suffix) existing) eqn:Et; [|done].
  intros Hn m Hm. destruct (decide (m = suffix)) as [->|]; [done|]. apply (IH (suffix + 1)%N Hn). lia.
Qed.

(** Every device takes at most one of the numbered names. *)
Lemma free_suffix_enough suffix base existing :
  free_suffix (S (length existing)) suffix base existing ≠ None.
Proof.
  intros Hn. set (names := candidate base ∘ (λ i, suffix + N.of_nat i)%N <$> seq 0 (S (length existing))).
  assert (NoDup names) as Hnd.
  { apply NoDup_fmap_2; [|apply NoDup_seq]. intros i j Hij%(inj (candidate base)). lia. }
  assert (names ⊆ dev_name <$> existing) as Hsub.
  { intros name (i & -> & Hi%elem_of_seq)%list_elem_of_fmap. apply taken_spec.
    apply (free_suffix_None _ _ _ _ Hn). lia. }
  assert (length names ≤ length (dev_name <$> existing)) as Hlen
    by (by apply submseteq_length, NoDup_submseteq).
  unfold names in Hlen. rewrite !length_fmap, length_seq in Hlen. lia.
Qed.

(** The search for a device's name ends, with a name no paired device has:
    the offered name, cleaned up, when it is free; else the first free one of
    that name numbered from two, which is never later than the number of paired
    devices and two. *)
Theorem unique_device_name_free (offered : ustr) (existing : list Device) :
  let base := device_name offered in
  let name := unique_device_name offered existing in
  name ∉ dev_name <$> existing ∧
  (base ∉ dev_name <$> existing → name = base) ∧
  (base ∈ dev_name <$> existing →
     ∃ n, (2 ≤ n < 3 + N.of_nat (length existing))%N ∧ name = candidate base n ∧
          ∀ m, (2 ≤ m < n)%N → candidate base m ∈ dev_name <$> existing).
Proof.
  intros base name. unfold name, unique_device_name. fold base.
  destruct (taken base existing) eqn:Et; simpl negb; cbv iota.
  - apply taken_spec in Et.
    destruct (free_suffix _ 2 base existing) as [found|] eqn:E;
      [|by destruct (free_suffix_enough 2 base existing)]. simpl default.
    pose proof (free_suffix_Some _ _ _ _ _ E) as (Hf & n & Hn & -> & Hm).
    split; [by rewrite <-taken_spec, Hf|]. split; [done|]. intros _. exists n.
    setoid_rewrite <-taken_spec. split; [|done]. split; [done|].
    destruct (decide (n < 3 + N.of_nat (length existing))%N) as [|Hge]; [done|exfalso].
    assert (free_suffix (S (length existing)) 2 base existing = None) as HN; [|congruence].
    assert (∀ fuel k, (k + N.of_nat fuel ≤ n)%N → (2 ≤ k)%N → free_suffix fuel k base existing = None) as Hall.
    { intros fuel. induction fuel as [|fuel IH]; intros k Hk H2; cbn [free_suffix]; [done|].
      fold (candidate base k). rewrite Hm by lia. apply IH; lia. }
    apply Hall; lia.
  - rewrite <-taken_spec, Et. split; [done|]. split; [done|]. done.
Qed.

(** ** Runs *)

Inductive pairing_event :=
  | Issued (issued_code : ustr) (at_ : N)
  | Rejected (at_ : N)
  | Matched (attempt name entered : ustr) (at_ : N)
  | Approved (attempt : ustr) (at_ : N)
  | Recorded (attempt tok : ustr) (at_ : N).

Section runs.
Context `{Sha256} `{DeviceToml}.
Implicit Types (s : PairingState) (log : list pairing_event).

Definition issue_events (now : N) (outs : list PairingOutput) : list pairing_event :=
  omap (λ o, match o with CodeIssued c _ => Some (Issued c now) | _ => None end) outs.
Definition pair_events (entered name : ustr) (now : N) (r : result PairError ustr)
    : list pairing_event :=
  match r with
  | Ok attempt => [Matched attempt name entered now]
  | Err TooManyWrongCodes | Err (WrongCode _) => [Rejected now]
  | Err _ => []
  end.
Definition decide_events (attempt : ustr) (approve : bool) (now : N) (outs : list PairingOutput)
    : list pairing_event :=
  (if approve then [Approved attempt now] else []) ++
  omap (λ o, match o with Answer a (Ok tok) => Some (Recorded a tok now) | _ => None end) outs.

(** One operation of the daemon, with what it leaves in the log; the file may
    also change under it. The kernel fills the whole array it is given. *)
Inductive pairing_step : PairingState → list pairing_event → PairingState → Prop :=
  | step_issue s random now s' outs :
      (∀ b, random = Some b → length b = CODE_CHARACTERS) →
      issue_pairing_code random now s = (s', outs) → pairing_step s (issue_events now outs) s'
  | step_pair s entered offered confirmation random now s' r :
      pair_device entered offered confirmation random now s = (s', r) →
      pairing_step s (pair_events entered (unique_device_name offered (current s).2) now r) s'
  | step_requested s now s' outs :
      pairing_requested now s = (s', outs) → pairing_step s [] s'
  | step_decide s attempt approve random closed written delivered message_of now s' outs :
      decide_pairing attempt approve random closed written delivered message_of now s = (s', outs) →
      pairing_step s (decide_events attempt approve now outs) s'
  | step_sweep s closed now s' outs :
      sweep_pairing_approvals closed now s = (s', outs) → pairing_step s [] s'
  | step_admits s tok s' admitted : admits tok s = (s', admitted) → pairing_step s [] s'
  | step_edited s file : pairing_step s [] (set_file file s).

Definition fresh_pairing s : Prop :=
  pending_pairing s = None ∧ requests s = [] ∧ approvals s = ∅.

(** What has happened, oldest first. *)
Inductive pairing_run : list pairing_event → PairingState → Prop :=
  | run_start s : fresh_pairing s → pairing_run [] s
  | run_step log s events s' :
      pairing_run log s → pairing_step s events s' → pairing_run (log ++ events) s'.

(** ** What a run respects *)

Definition is_issued (e : pairing_event) : bool := match e with Issued _ _ => true | _ => false end.
Definition is_rejected (e : pairing_event) : bool := match e with Rejected _ => true | _ => false end.
Definition is_recorded (e : pairing_event) : bool := match e with Recorded _ _ _ => true | _ => false end.
Definition is_matched (e : pairing_event) : bool := match e with Matched _ _ _ _ => true | _ => false end.
Definition count (f : pairing_event → bool) log : nat := sum_list_with (λ e, Nat.b2n (f e)) log.

Lemma count_app f log log' : count f (log ++ log') = count f log + count f log'.
Proof. apply sum_list_with_app. Qed.

Lemma count_one f e : count f [e] = Nat.b2n (f e).
Proof. unfold count; simpl. lia. Qed.
Ltac count_simpl := rewrite ?count_app, ?count_one in *; simpl Nat.b2n in *.

(** The letters and digits of a text, capitals all of them: a code is eight of
    them, and an entry spells it when it starts with them. *)
Definition typed (text : ustr) : ustr :=
  to_ascii_uppercase_char <$> filter (λ c, is_ascii_alphanumeric c) text.
Definition spells (entered c : ustr) : Prop :=
  length (typed c) = 8 ∧ typed c `prefix_of` typed entered.

(** The code that waits: the last one issued, and nobody has entered it. *)
Definition quiet (e : pairing_event) : Prop := is_issued e = false ∧ is_matched e = false.
Definition live_code log (c : ustr) (issued : N) : Prop :=
  ∃ earlier later, log = earlier ++ Issued c issued :: later ∧ Forall quiet later.

Lemma live_code_app log log' c issued :
  live_code log c issued → Forall quiet log' → live_code (log ++ log') c issued.
Proof.
  intros (l1 & l2 & -> & Hl) Hq. exists l1, (l2 ++ log').
  rewrite <-app_assoc. split; [done|]. by apply Forall_app.
Qed.
Lemma live_code_snoc log c issued : live_code (log ++ [Issued c issued]) c issued.
Proof. by exists log, []. Qed.

Lemma normalize_code_typed text : normalize_code text = take 8 (typed text).
Proof. done. Qed.
Lemma accepts_spells p entered now :
  length (typed (code p)) = 8 → accepts p entered now = true →
  (now < code_expires_at p)%N ∧ spells entered (code p).
Proof.
  intros Hl [Ht Heq]%accepts_spec. split; [done|]. split; [done|].
  rewrite !normalize_code_typed, (take_ge (typed (code p))) in Heq by lia.
  rewrite <-Heq. apply prefix_take.
Qed.
Lemma issued_code_typed random c :
  (∀ b, random = Some b → length b = CODE_CHARACTERS) → pairing_code random = Some c →
  length (typed c) = 8.
Proof.
  intros Hr Hc. destruct random as [b|]; [|done].
  assert (c = take 4 (code_letters b) ++ u "-" ++ drop 4 (code_letters b)) as -> by (by injection Hc as <-).
  assert (∀ l, typed l = to_ascii_uppercase_char <$> filter (λ c, is_ascii_alphanumeric c) l) as Ht by done.
  rewrite Ht, !filter_app.
  change (filter (λ c, is_ascii_alphanumeric c) (u "-")) with ([] : ustr).
  rewrite app_nil_l, <-filter_app, take_drop, length_fmap, filter_all.
  - unfold code_letters. rewrite length_fmap. by apply Hr.
  - intros ch Hch. apply Is_true_true, alphanumeric_spec.
    pose proof (code_letters_normalized b) as Hn. eapply Forall_forall in Hn; [|done]. simpl in Hn. lia.
Qed.

(** An event is preceded by one that justifies it. *)
Definition justified log (e : pairing_event) : Prop :=
  match e with
  | Matched _ _ entered at_ => ∃ c issued,
      live_code log c issued ∧ spells entered c ∧ (at_ < issued + CODE_LIFETIME)%N
  | Recorded attempt _ at_ =>
      Approved attempt at_ ∈ log ∧
      ∃ name entered matched, Matched attempt name entered matched ∈ log ∧
        (at_ < matched + PAIRING_APPROVAL_LIFETIME)%N
  | _ => True
  end.
Definition all_justified log : Prop := ∀ before e after, log = before ++ e :: after → justified before e.

Lemma all_justified_snoc log e : all_justified log → justified log e → all_justified (log ++ [e]).
Proof.
  intros Hl He before e' after Heq.
  destruct after as [|x after _] using rev_ind.
  - by apply app_inj_tail in Heq as [-> ->].
  - rewrite app_comm_cons, app_assoc in Heq. apply app_inj_tail in Heq as [-> _]. by eapply Hl.
Qed.

Definition pending_room s : nat :=
  match pending_pairing s with Some p => 5 - N.to_nat (attempts p) | None => 0 end.

Record pairing_inv log s : Prop := {
  inv_justified : all_justified log;
  inv_pending p : pending_pairing s = Some p →
    (attempts p < MAX_ATTEMPTS)%N ∧ length (typed (code p)) = 8 ∧
    ∃ issued, live_code log (code p) issued ∧ code_expires_at p = (issued + CODE_LIFETIME)%N;
  inv_requests r : r ∈ requests s → ∃ entered matched,
    Matched (req_attempt r) (req_name r) entered matched ∈ log ∧
    req_expires_at r = (matched + PAIRING_APPROVAL_LIFETIME)%N;
  inv_approvals attempt p : approvals s !! attempt = Some p → ∃ entered matched,
    Matched attempt (appr_name p) entered matched ∈ log ∧
    appr_expires_at p = (matched + PAIRING_APPROVAL_LIFETIME)%N;
  inv_bound : size (approvals s) ≤ MAX_PENDING_PAIRING_APPROVALS;
  inv_used : count is_recorded log + size (approvals s) + length (requests s)
             + Nat.b2n (bool_decide (is_Some (pending_pairing s))) ≤ count is_issued log;
  inv_wrong : count is_rejected log + pending_room s ≤ 5 * count is_issued log;
}.

(** The parts of the state the invariant reads. *)
Lemma pairing_inv_ext log s s' :
  pending_pairing s' = pending_pairing s → requests s' = requests s → approvals s' = approvals s →
  pairing_inv log s → pairing_inv log s'.
Proof. intros Hp Hr Ha [? ? ? ? ? Hu Hw]. unfold pending_room in *. split; unfold pending_room; by rewrite ?Hp, ?Hr, ?Ha. Qed.

Lemma current_fields s :
  let s' := (current s).1 in
  pending_pairing s' = pending_pairing s ∧ requests s' = requests s ∧ approvals s' = approvals s ∧
  has_config_path s' = has_config_path s ∧ config_file s' = config_file s ∧
  bridge_pairing s' = bridge_pairing s.
Proof. unfold current. by case_match. Qed.

(** What a longer log keeps. *)
Lemma inv_mono log e s : pairing_inv log s → justified log e →
  is_issued e = false → is_rejected e = false → is_recorded e = false → is_matched e = false →
  pairing_inv (log ++ [e]) s.
Proof.
  intros [? Hp Hr Ha ? Hu Hw] Hj H1 H2 H3 H4. split; [by apply all_justified_snoc|..|done| |].
  - intros p (? & ? & i & ? & ?)%Hp. do 2 (split; [done|]). exists i.
    split; [|done]. apply live_code_app; [done|]. by repeat constructor.
  - intros r (en & m & ? & ?)%Hr. exists en, m. by rewrite elem_of_app; auto.
  - intros a p (en & m & ? & ?)%Ha. exists en, m. by rewrite elem_of_app; auto.
  - count_simpl. rewrite H1, H3. simpl. lia.
  - count_simpl. rewrite H1, H2. simpl. lia.
Qed.

(** Nothing of the log is lost. *)
Lemma inv_grow log log' s :
  pairing_inv log s → all_justified (log ++ log') →
  (is_Some (pending_pairing s) → Forall quiet log') →
  count is_recorded (log ++ log') + size (approvals s) + length (requests s)
    + Nat.b2n (bool_decide (is_Some (pending_pairing s))) ≤ count is_issued (log ++ log') →
  count is_rejected (log ++ log') + pending_room s ≤ 5 * count is_issued (log ++ log') →
  pairing_inv (log ++ log') s.
Proof.
  intros [? Hp Hr Ha ? _ _] Hj Hq Hu Hw. split; [done|..|done|done|done].
  - intros p Hs. destruct (Hp p Hs) as (? & ? & i & ? & ?). do 2 (split; [done|]). exists i.
    split; [|done]. apply live_code_app; [done|]. apply Hq. by rewrite Hs.
  - intros r (en & m & ? & ?)%Hr. exists en, m. by rewrite elem_of_app; auto.
  - intros a p (en & m & ? & ?)%Ha. exists en, m. by rewrite elem_of_app; auto.
Qed.

Lemma inv_nil log s : pairing_inv log s → pairing_inv (log ++ []) s.
Proof. by rewrite app_nil_r. Qed.

(** Dropping the code that waits. *)
Lemma inv_drop_code log s : pairing_inv log s → pairing_inv log (set_bridge None (set_pending None s)).
Proof.
  intros [? Hp ? ? ? Hu Hw]. split; try done; simpl in *.
  - lia.
  - unfold pending_room in *; simpl. lia.
Qed.

Lemma inv_issue log s random now s' outs :
  (∀ b, random = Some b → length b = CODE_CHARACTERS) →
  pairing_inv log s → issue_pairing_code random now s = (s', outs) →
  pairing_inv (log ++ issue_events now outs) s'.
Proof.
  intros Hrandom Hinv. unfold issue_pairing_code, PendingPairing_new.
  destruct (pairing_code random) as [c|] eqn:Ec; simpl; intros [= <- <-]; [|by apply inv_nil].
  destruct Hinv as [Hj Hp Hr Ha Hb Hu Hw].
  assert (all_justified (log ++ [Issued c now])) as Hj' by by apply all_justified_snoc.
  split; simpl; [done|..].
  - intros p [= <-]. split; [done|]. split; [by eapply issued_code_typed|].
    exists now. split; [|done]. apply live_code_snoc.
  - intros r (en & m & ? & ?)%Hr. exists en, m. by rewrite elem_of_app; auto.
  - intros a p (en & m & ? & ?)%Ha. exists en, m. by rewrite elem_of_app; auto.
  - done.
  - count_simpl. revert Hu. unfold Nat.b2n. case_match; lia.
  - count_simpl. unfold pending_room in *. simpl. lia.
Qed.

Lemma inv_pair log s entered offered confirmation random now s' r :
  pairing_inv log s → pair_device entered offered confirmation random now s = (s', r) →
  pairing_inv (log ++ pair_events entered (unique_device_name offered (current s).2) now r) s'.
Proof.
  intros Hinv. unfold pair_device.
  case_match; [intros [= <- <-]; by apply inv_nil|].
  case_match; [intros [= <- <-]; by apply inv_nil|].
  destruct (current s) as [s1 devices] eqn:Ec. simpl.
  assert (pairing_inv log s1) as Hinv1.
  { pose proof (current_fields s) as (? & ? & ? & _). rewrite Ec in *. simpl in *.
    by eapply pairing_inv_ext. }
  clear Hinv Ec. set (name := unique_device_name offered devices). clearbody name.
  destruct (token random) as [attempt|]; [|intros [= <- <-]; by apply inv_nil].
  destruct (pending_pairing s1) as [p|] eqn:Ep; [|intros [= <- <-]; by apply inv_nil].
  destruct (expired p now) eqn:Ex; [intros [= <- <-]; apply inv_nil; by apply inv_drop_code|].
  pose proof (inv_pending _ _ Hinv1 p Ep) as (Hatt & Hshape & issued & Hiss & Hexp).
  unfold expired in Ex. apply N.leb_gt in Ex.
  destruct (accepts p entered now) eqn:Eacc; simpl negb; cbv iota.
  - assert (justified log (Matched attempt name entered now)) as Hm.
    { apply accepts_spells in Eacc as [_ Hs]; [|done]. exists (code p), issued. by rewrite <-Hexp. }
    intros [= <- <-]. pose proof (inv_drop_code _ _ Hinv1) as [Hj Hp Hr Ha Hb Hu Hw].
    split; simpl in *; [by apply all_justified_snoc|done|..].
    + intros r [(en & m & ? & ?)%Hr| ->%list_elem_of_singleton]%elem_of_app.
      * exists en, m. by rewrite elem_of_app; auto.
      * exists entered, now. simpl. split; [|done]. apply elem_of_app. right. by left.
    + intros a p' (en & m & ? & ?)%Ha. exists en, m. by rewrite elem_of_app; auto.
    + done.
    + destruct Hinv1 as [_ _ _ _ _ Hu1 _]. rewrite Ep, bool_decide_eq_true_2 in Hu1 by eauto.
      rewrite length_app. count_simpl. simpl in *. lia.
    + count_simpl. unfold pending_room in *. simpl in *. lia.
  - unfold record_failure, u32_saturating_add, u32_max, MAX_ATTEMPTS in *.
    destruct Hinv1 as [Hj Hp Hr Ha Hb Hu Hw]. rewrite Ep, bool_decide_eq_true_2 in Hu by eauto.
    unfold pending_room in Hw. rewrite Ep in Hw. simpl in Hu.
    assert (N.min (attempts p + 1) 4294967295 = attempts p + 1)%N as Hmin by lia.
    rewrite Hmin. destruct (N.leb_spec 5 (attempts p + 1)) as [Hs|Hs].
    + intros [= <- <-]. simpl. apply inv_grow.
      * apply inv_drop_code. by split; [..|rewrite Ep, bool_decide_eq_true_2 by eauto|unfold pending_room; rewrite Ep].
      * by apply all_justified_snoc.
      * by repeat constructor.
      * simpl. count_simpl. lia.
      * simpl. count_simpl. unfold pending_room; simpl. lia.
    + intros [= <- <-]. simpl. apply inv_grow.
      * split; simpl; [done| |done|done|done|done|unfold pending_room; simpl; lia].
        intros q [= <-]. simpl. split; [unfold MAX_ATTEMPTS; lia|]. split; [done|]. eauto.
      * by apply all_justified_snoc.
      * by repeat constructor.
      * simpl. count_simpl. lia.
      * simpl. count_simpl. unfold pending_room; simpl. lia.
Qed.

Lemma inv_requested log s now s' outs :
  pairing_inv log s → pairing_requested now s = (s', outs) → pairing_inv log s'.
Proof.
  intros Hinv. unfold pairing_requested. destruct (requests s) as [|r rest] eqn:Er.
  { by intros [= <- <-]. }
  destruct Hinv as [Hj Hp Hr Ha Hb Hu Hw]. rewrite Er in *. simpl in Hu.
  change (approvals (set_requests rest s)) with (approvals s).
  destruct (Nat.leb_spec MAX_PENDING_PAIRING_APPROVALS (size (approvals s))); intros [= <- <-].
  - split; simpl; [done|done| |done|done|lia|done]. intros r' Hr'. apply Hr. by right.
  - split; simpl; [done|done|..].
    + intros r' Hr'. apply Hr. by right.
    + intros a p [[<- <-]|[_ ?]]%lookup_insert_Some; [|by apply Ha]. simpl. apply Hr. by left.
    + etrans; [apply size_insert_le|]. lia.
    + pose proof (size_insert_le (req_attempt r) {| appr_name := req_name r; appr_expires_at := req_expires_at r |} (approvals s)). lia.
    + done.
Qed.

(** Taking an approval out. *)
Lemma inv_take_approval log s attempt :
  pairing_inv log s → pairing_inv log (set_approvals (delete attempt (approvals s)) s).
Proof.
  intros [Hj Hp Hr Ha Hb Hu Hw].
  assert (size (delete attempt (approvals s)) ≤ size (approvals s)) as Hle by apply size_delete_le.
  split; simpl; [done|done|done| |lia|lia|done].
  intros a p [_ ?]%lookup_delete_Some. by apply Ha.
Qed.

Lemma inv_approved log s attempt (approve : bool) now :
  pairing_inv log s → pairing_inv (log ++ (if approve then [Approved attempt now] else []) ++ []) s.
Proof.
  intros Hinv. rewrite app_nil_r. destruct approve; [by apply inv_mono|by apply inv_nil].
Qed.

Lemma inv_decide log s attempt approve random closed written delivered message_of now s' outs :
  pairing_inv log s →
  decide_pairing attempt approve random closed written delivered message_of now s = (s', outs) →
  pairing_inv (log ++ decide_events attempt approve now outs) s'.
Proof.
  intros Hinv. unfold decide_pairing, decide_events.
  destruct (approvals s !! attempt) as [p|] eqn:Ea; [|intros [= <- <-]; by apply inv_approved].
  pose proof (inv_take_approval _ _ attempt Hinv) as Htake.
  case_match; [intros [= <- <-]; by apply inv_approved|].
  destruct approve; simpl negb; cbv iota; [|intros [= <- <-]; by apply (inv_approved _ _ attempt false 0)].
  match goal with |- context [match ?r with Ok _ => _ | Err _ => _ end = _] => destruct r as [[tok text]|e] end.
  2: { intros [= <- <-]. by apply (inv_approved _ _ attempt true). }
  intros [= <- <-]. simpl.
  pose proof (inv_approvals _ _ Hinv _ _ Ea) as (en & m & Hm & Hexp).
  match goal with H : _ || _ = false |- _ => apply orb_false_iff in H as [Hlt _] end.
  apply N.leb_gt in Hlt. rewrite Hexp in Hlt.
  apply (pairing_inv_ext _ (set_approvals (delete attempt (approvals s)) s)); [done..|].
  change [Approved attempt now; Recorded attempt tok now]
    with ([Approved attempt now] ++ [Recorded attempt tok now]). rewrite app_assoc.
  assert (pairing_inv (log ++ [Approved attempt now]) (set_approvals (delete attempt (approvals s)) s))
    as Hinv' by by apply inv_mono.
  apply inv_grow; [done|..].
  - apply all_justified_snoc; [apply (inv_justified _ _ Hinv')|]. split.
    + apply elem_of_app. right. by left.
    + exists (appr_name p), en, m. rewrite elem_of_app. auto.
  - by repeat constructor.
  - destruct Hinv as [_ _ _ _ _ Hu _]. count_simpl.
    cbn [approvals set_approvals requests pending_pairing].
    rewrite map_size_delete_Some by eauto.
    assert (size (approvals s) ≠ 0) by (intros Hz; apply map_size_empty_inv in Hz; by rewrite Hz in Ea).
    lia.
  - destruct Hinv' as [_ _ _ _ _ _ Hw]. count_simpl. unfold pending_room in *. simpl in *. lia.
Qed.

Lemma inv_sweep log s closed now s' outs :
  pairing_inv log s → sweep_pairing_approvals closed now s = (s', outs) → pairing_inv log s'.
Proof.
  unfold sweep_pairing_approvals. generalize (expired_approvals closed now s) as l.
  intros l Hinv Heq. change s' with (s', outs).1. rewrite <-Heq. clear Heq s' outs.
  apply (foldl_ind (λ w, pairing_inv log w.1)); [done|]. intros [w outs] attempt Hw; simpl in *.
  by apply inv_take_approval.
Qed.

Lemma pairing_run_inv log s : pairing_run log s → pairing_inv log s.
Proof.
  induction 1 as [s (Hp & Hr & Ha)|log s events s' _ IH Hstep].
  { split; unfold pending_room; rewrite ?Hp, ?Hr, ?Ha; [by intros []|done| |done|..].
    { by intros r ?%elem_of_nil. }
    all: rewrite ?map_size_empty; unfold MAX_PENDING_PAIRING_APPROVALS, count; simpl; lia. }
  destruct Hstep.
  - by eapply inv_issue.
  - by eapply inv_pair.
  - apply inv_nil. by eapply inv_requested.
  - by eapply inv_decide.
  - apply inv_nil. by eapply inv_sweep.
  - apply inv_nil. match goal with H : admits _ _ = _ |- _ => revert H end. unfold admits.
    destruct (current s) as [s1 devices] eqn:Ec. intros [= <- _].
    pose proof (current_fields s) as (? & ? & ? & _). rewrite Ec in *. simpl in *.
    by eapply pairing_inv_ext.
  - apply inv_nil. by eapply pairing_inv_ext; [..|done].
Qed.

(** C34. However codes are issued, entered, approved and swept, and however the
    file changes meanwhile: a device's token is handed out and recorded only
    when somebody approved that very attempt at that moment, less than a minute
    after a browser had made that attempt by entering the code: its entry starts, case
    and everything but letters and digits aside, with the eight characters of the
    last code issued, which nobody had entered before and which was issued less
    than five minutes before the entry. Every recorded device uses up a code of its own:
    the devices recorded, the approvals waiting (never more than 16), the matched
    codes on their way and the code that waits are together at most the codes
    issued. And at most five wrong entries are let through per code issued. *)
Theorem pairing_needs_code_and_approval log s :
  pairing_run log s →
  (∀ before after attempt tok at_, log = before ++ Recorded attempt tok at_ :: after →
     Approved attempt at_ ∈ before ∧
     ∃ name entered matched earlier between,
       before = earlier ++ Matched attempt name entered matched :: between ∧
       (at_ < matched + PAIRING_APPROVAL_LIFETIME)%N ∧
       ∃ c issued, live_code earlier c issued ∧ spells entered c ∧
         (matched < issued + CODE_LIFETIME)%N) ∧
  count is_recorded log + size (approvals s) + length (requests s)
    + Nat.b2n (bool_decide (is_Some (pending_pairing s))) ≤ count is_issued log ∧
  size (approvals s) ≤ MAX_PENDING_PAIRING_APPROVALS ∧
  count is_rejected log ≤ 5 * count is_issued log.
Proof.
  intros [Hj _ _ _ Hb Hu Hw]%pairing_run_inv. split; [|repeat split; [done..|lia]].
  intros before after attempt tok at_ Heq.
  destruct (Hj before _ after Heq) as (Happ & name & entered & m & Hm & Hlt). split; [done|].
  apply list_elem_of_split in Hm as (earlier & between & ->).
  exists name, entered, m, earlier, between. split; [done|]. split; [done|].
  apply (Hj earlier (Matched attempt name entered m) (between ++ Recorded attempt tok at_ :: after)).
  by rewrite Heq, <-app_assoc.
Qed.

(** ** What a decision records *)

Context `{!DeviceTomlLaws}.

Lemma add_device_file_Ok file written device text :
  add_device_file file written device = Ok text →
  written = true ∧ ∃ old devices, file = Some old ∧ parse_devices old = Some devices ∧
    dev_name device ∉ dev_name <$> devices ∧ parse_devices text = Some (devices ++ [device]).
Proof.
  unfold add_device_file. destruct file as [old|]; simpl; [|done].
  destruct (parse_devices old) as [devices|] eqn:Ep; simpl; [|done].
  destruct (taken (dev_name device) devices) eqn:Et; [done|].
  destruct (parse_devices (end_line old ++ _)) as [devices'|] eqn:Ep'; simpl; [|done].
  destruct written; [|done]. intros [= <-]. split; [done|]. exists old, devices.
  split; [done|]. split; [done|]. rewrite <-taken_spec, Et. split; [done|].
  rewrite Ep'. f_equal. by eapply parse_appended.
Qed.

Lemma admits_spec tok s devices :
  has_config_path s = true → (config_file s ≫= parse_devices) = Some devices →
  (admits tok s).2 = true ↔ ∃ d, d ∈ devices ∧ utf8 (token_sha256 d) = utf8 (fingerprint tok).
Proof.
  intros Hc Hd. unfold admits, current. rewrite Hc, Hd. simpl. rewrite existsb_exists.
  setoid_rewrite matches_utf8. setoid_rewrite <-list_elem_of_In. done.
Qed.

(** What a decision does. Either the token handed to the browser is recorded:
    the attempt was waiting, in time and approved, the file could be read and
    written, no device had the name; the file then lists the devices it listed
    and that one, under the token's digest, and whoever shows the token is
    admitted, beside those admitted before. That happens even when the browser
    leaves before it takes the token, and is then announced as not approved. Or
    the file is untouched, nobody gets a token, and the decision is announced as
    not approved. Either way the attempt no longer waits. *)
Theorem decision_exact attempt approve random closed written delivered message_of now s s' outs :
  decide_pairing attempt approve random closed written delivered message_of now s = (s', outs) →
  approvals s' = delete attempt (approvals s) ∧
  ((∃ p tok old devices, approvals s !! attempt = Some p ∧ (now < appr_expires_at p)%N ∧
      closed = false ∧ approve = true ∧ written = true ∧ token random = Some tok ∧
      config_file s = Some old ∧ parse_devices old = Some devices ∧
      appr_name p ∉ dev_name <$> devices ∧
      (config_file s' ≫= parse_devices) = Some (devices ++ [{| dev_name := appr_name p;
        token_sha256 := fingerprint tok; paired_at_ms := now |}]) ∧
      Answer attempt (Ok tok) ∈ outs ∧ (∃ message, Decided attempt delivered message ∈ outs) ∧
      ∀ shown, (admits shown s').2 = true ↔
        (admits shown s).2 = true ∨ utf8 (fingerprint tok) = utf8 (fingerprint shown)) ∨
   (config_file s' = config_file s ∧ (∀ tok, Answer attempt (Ok tok) ∉ outs) ∧
    ∃ message, Decided attempt false message ∈ outs)).
Proof.
  unfold decide_pairing. destruct (approvals s !! attempt) as [p|] eqn:Ea.
  2: { intros [= <- <-]. split; [by rewrite delete_id|]. right. split; [done|]. set_solver. }
  case_match eqn:Eexp.
  { intros [= <- <-]. split; [done|]. right. split; [done|]. set_solver. }
  apply orb_false_iff in Eexp as [Hlt%N.leb_gt ->].
  destruct approve; simpl negb; cbv iota.
  2: { intros [= <- <-]. split; [done|]. right. split; [done|]. set_solver. }
  change (has_config_path (set_approvals (delete attempt (approvals s)) s)) with (has_config_path s).
  change (config_file (set_approvals (delete attempt (approvals s)) s)) with (config_file s).
  destruct (has_config_path s) eqn:Ec; simpl.
  2: { intros [= <- <-]. split; [done|]. right. split; [done|]. set_solver. }
  destruct (token random) as [tok|] eqn:Et; simpl.
  2: { intros [= <- <-]. split; [done|]. right. split; [done|]. set_solver. }
  destruct (add_device_file _ written _) as [text|e] eqn:Ef.
  2: { intros [= <- <-]. split; [done|]. right. split; [done|]. set_solver. }
  apply add_device_file_Ok in Ef as (-> & old & devices & Hold & Hdev & Hname & Htext).
  intros [= <- <-]. split; [done|]. left. exists p, tok, old, devices.
  do 8 (split; [done|]). split; [exact Hname|]. split; [exact Htext|].
  split; [by left|]. split; [eexists; right; by left|].
  intros shown.
  rewrite (admits_spec shown (set_file (Some text) (set_approvals (delete attempt (approvals s)) s))
             _ Ec Htext).
  rewrite (admits_spec shown s devices Ec) by (by rewrite Hold).
  setoid_rewrite elem_of_app. setoid_rewrite list_elem_of_singleton. split.
  - intros (d & [Hd| ->] & Hm); [left; by exists d|by right].
  - intros [(d & Hd & Hm)|Hm]; [by exists d; auto|eexists; split; [by right|done]].
Qed.
End runs.

(** ** A concrete world

    A digest that keeps its input, and a file whose every character but the
    line feeds is one device. *)
Module Toy.
#[export] Instance digest : Sha256 := λ b, b.

Definition device_triple (d : Device) : ustr * ustr * N := (dev_name d, token_sha256 d, paired_at_ms d).
Definition triple_device (t : ustr * ustr * N) : Device :=
  {| dev_name := t.1.1; token_sha256 := t.1.2; paired_at_ms := t.2 |}.
Definition device_char (d : Device) : N := 10 + Npos (encode (device_triple d)).
Definition char_device (c : N) : option Device :=
  match (c - 10)%N with Npos code => triple_device <$> decode code | N0 => None end.

#[export] Instance toml : DeviceToml := {|
parse_devices text := mapM char_device (filter (λ c, c ≠ 10%N) text);
device_entry d := [device_char d];
|}.

Lemma char_device_char d : char_device (device_char d) = Some d.
Proof.
  unfold char_device, device_char. rewrite N.add_comm, N.add_sub. rewrite decode_encode. by destruct d.
Qed.

Lemma mapM_snoc {A B} (f : A → option B) l x k y :
  mapM f l = Some k → f x = Some y → mapM f (l ++ [x]) = Some (k ++ [y]).
Proof.
  rewrite !mapM_Some. intros Hl Hx. apply Forall2_app; [done|]. by constructor.
Qed.

#[export] Instance toml_laws : DeviceTomlLaws.
Proof.
  intros text devices d devices'. unfold parse_devices, device_entry, toml.
  assert (filter (λ c, c ≠ 10%N) (end_line text) = filter (λ c, c ≠ 10%N) text) as Hl.
  { unfold end_line. case_bool_decide; [done|]. rewrite filter_app, filter_cons_False by naive_solver.
    by rewrite app_nil_r. }
  assert (filter (λ c, c ≠ 10%N) ([10%N] ++ [device_char d]) = [device_char d]) as Hc.
  { simpl app. rewrite filter_cons_False by naive_solver.
    by rewrite filter_cons_True by (unfold device_char; lia). }
  rewrite filter_app, Hl, Hc. intros Hd.
  rewrite (mapM_snoc _ _ _ _ _ Hd (char_device_char d)). by intros [= <-].
Qed.

(** The bytes 0, 1, 2, ... from the kernel: the code is [ABCD-EFGH]. *)
Definition random : option bytes := Some [0; 1; 2; 3; 4; 5; 6; 7]%N.
Lemma random_eight b : random = Some b → length b = CODE_CHARACTERS.
Proof. by intros [= <-]. Qed.
Definition start : PairingState := {|
  has_config_path := true; config_file := Some []; held_devices := []; pending_pairing := None;
  bridge_pairing := Some None; requests := []; approvals := ∅ |}.

Definition issued : PairingState := (issue_pairing_code random 0 start).1.
Definition mistyped : PairingState := (pair_device (u "abcd") (u "phone") (u "123456") random 10 issued).1.
Definition matched : PairingState :=
  (pair_device (u "abcd efgh") (u "phone") (u "123456") random 20 mistyped).1.
Definition waiting : PairingState := (pairing_requested 30 matched).1.
Definition attempt : ustr := hex [0; 1; 2; 3; 4; 5; 6; 7]%N.
Definition decided : PairingState * list PairingOutput :=
  decide_pairing attempt true random false true true (λ _, []) 40 waiting.

Example code_shown : code <$> pending_pairing issued = Some (u "ABCD-EFGH").
Proof. vm_compute. reflexivity. Qed.
Example one_failure : attempts <$> pending_pairing mistyped = Some 1%N.
Proof. vm_compute. reflexivity. Qed.
End Toy.

Import Toy.

(** A code is issued, mistyped once, matched, asked about and approved. *)
Lemma pairing_run_example : ∃ log s,
  pairing_run log s ∧ (∃ tok, Recorded attempt tok 40 ∈ log) ∧ count is_issued log = 1.
Proof.
  assert (pairing_run [] start) as H0 by by constructor.
  pose proof (run_step _ _ _ _ H0 (step_issue start random 0 _ _ random_eight eq_refl)) as H1.
  pose proof (run_step _ _ _ _ H1 (step_pair issued (u "abcd") (u "phone") (u "123456") random 10
                                     _ _ eq_refl)) as H2.
  pose proof (run_step _ _ _ _ H2 (step_pair mistyped (u "abcd efgh") (u "phone") (u "123456") random 20
                                     _ _ eq_refl)) as H3.
  pose proof (run_step _ _ _ _ H3 (step_requested matched 30 _ _ eq_refl)) as H4.
  pose proof (run_step _ _ _ _ H4 (step_decide waiting attempt true random false true true (λ _, []) 40
                                     _ _ eq_refl)) as H5.
  eexists _, _. split; [exact H5|]. split.
  - exists attempt. apply elem_of_app. right. vm_compute. right. by left.
  - vm_compute. reflexivity.
Qed.

Lemma pairing_needs_code_and_approval_witness :
  ∃ log s, pairing_run log s ∧ (∃ tok, Recorded attempt tok 40 ∈ log) ∧ count is_rejected log ≤ 5.
Proof.
  destruct pairing_run_example as (log & s & Hrun & Hrec & Hcount).
  exists log, s. split; [done|]. split; [done|].
  destruct (pairing_needs_code_and_approval log s Hrun) as (_ & _ & _ & Hw). by rewrite Hcount in Hw.
Defined.

Lemma decision_exact_witness :
  decide_pairing attempt true random false true true (λ _, []) 40 waiting = decided ∧
  approvals decided.1 = delete attempt (approvals waiting).
Proof.
  split; [reflexivity|].
  apply (decision_exact attempt true random false true true (λ _, []) 40 waiting decided.1 decided.2).
  exact (surjective_pairing decided).
Defined.

(** The device is in the file, under its digest, though the browser left. *)
Example left_behind :
  let '(s, outs) := decide_pairing attempt true random false true false (λ _, []) 40 waiting in
  (config_file s ≫= parse_devices) =
    Some [{| dev_name := u "phone"; token_sha256 := fingerprint attempt; paired_at_ms := 40 |}] ∧
  Decided attempt false (u "the browser left before approval completed") ∈ outs.
Proof. vm_compute. split; [reflexivity|]. right. by left. Qed.
