(* ===== verification/Client.v ===== *)
(** The client's side of the wire: [src/src/client.rs].

    Greeting a daemon and reading what it says; a file streamed from disk under an offer;
    and the window that holds a streaming sender back while the socket is behind, as a step
    relation over the senders and the task that writes, one step for each access to what
    they share. *)

From S2P Require Import Prelude Model Text Config State Protocol BrokerFederation Pairing.

(** ** Greeting and reading *)

Inductive ConnectError :=
  | NotGreeted | NotRead | HandshakeClosed | BadGreeting (e : WireError) | OtherProtocol (protocol : N)
  | RefusedConnection (message : ustr) | SomethingElse.

(** [take(MAX_MESSAGE_BYTES)] and [read_until]: the line with its line feed, if it has one
    within the limit, and what is left to read. *)
Fixpoint up_to_newline (b : bytes) : bytes :=
  match b with [] => [] | c :: b => if (c =? newline)%N then [c] else c :: up_to_newline b end.
Definition read_line (b : bytes) : bytes * bytes :=
  let line := up_to_newline (take MAX_MESSAGE_BYTES b) in (line, drop (length line) b).
(** The line without its line feed; [None] when it has none. *)
Definition whole_line (line : bytes) : option bytes := strip_suffix [newline] line.

Record Receiving := { federation : FederationState; heard : list ServerMessage }.
(** The arms of the reader: the federation is kept, everything else is an event. *)
Definition receive_one (r : Receiving) (message : ServerMessage) : Receiving :=
  match message with
  | FederationFull _ | TargetState _ _ => {| federation := client_apply (federation r) message; heard := heard r |}
  | other => {| federation := federation r; heard := heard r ++ [other] |}
  end.

Section wire.
Context `{Serde ClientMessage, Serde ServerMessage}.

Definition hello (name : ustr) : result WireError bytes := encode (ClientHello PROTOCOL_VERSION name).
(** What the daemon's first line makes of the connection, and what is left to read. *)
Definition greeted (input : bytes) : result ConnectError bytes :=
  let '(line, rest) := read_line input in
  match whole_line line with
  | None => Err HandshakeClosed
  | Some line =>
      match decode line with
      | Err e => Err (BadGreeting e)
      | Ok (ServerHello protocol _ _ _) => if (protocol =? PROTOCOL_VERSION)%N then Ok rest else Err (OtherProtocol protocol)
      | Ok (ErrorMessage _ message) => Err (RefusedConnection message)
      | Ok _ => Err SomethingElse
      end
  end.
(** The reading task: until the stream ends, breaks a line, or holds one that is no message.
    Every line takes a byte, so [fuel] above the bytes there are is enough. *)
Fixpoint receive (fuel : nat) (input : bytes) (r : Receiving) : Receiving :=
  match fuel with
  | O => r
  | S fuel =>
      let '(line, rest) := read_line input in
      match whole_line line with
      | None => r
      | Some line =>
          match decode line with
          | Err _ => r
          | Ok message => receive fuel rest (receive_one r message)
          end
      end
  end.
Definition FederationState_default : FederationState := {| fed_revision := 0; targets := ∅ |}.
(** [written]: whether the greeting could be written. *)
Definition connect (written : bool) (input : bytes) : result ConnectError Receiving :=
  if negb written then Err NotGreeted
  else
    rest ← greeted input;
    Ok (receive (S (length rest)) rest {| federation := FederationState_default; heard := [] |}).
End wire.

(** ** Streaming a file *)

Inductive StreamError := CannotOpen | StoppedReading | ConnectionClosed | Grew | Changed.

Section stream.
Context `{Sha256}.

(** [reads] is what each read of the file gives ([None]: it fails; no bytes: the end), and
    [rooms] whether the wait before each chunk ends with room or with the connection. *)
Fixpoint send_reads (request length_ : N) (read : bytes) (reads : list (option bytes)) (rooms : list bool)
    : list ClientMessage * result StreamError () :=
  match reads with
  | [] | None :: _ => ([], Err StoppedReading)
  | Some [] :: _ =>
      if (N.of_nat (length read) =? length_)%N then ([FinishUpload request (hex (sha256 read))], Ok ()) else ([], Err Changed)
  | Some chunk :: reads =>
      match rooms with
      | [] | false :: _ => ([], Err ConnectionClosed)
      | true :: rooms =>
          let read := read ++ chunk in
          if (length_ <? N.of_nat (length read))%N then ([], Err Grew)
          else let '(sent, outcome) := send_reads request length_ read reads rooms in (UploadChunk request chunk :: sent, outcome)
      end
  end.
Definition send_file (request length_ : N) (opened : bool) (reads : list (option bytes)) (rooms : list bool)
    : list ClientMessage * result StreamError () :=
  if opened then send_reads request length_ [] reads rooms else ([], Err CannotOpen).
Definition stream_file_upload (request length_ : N) (opened : bool) (reads : list (option bytes)) (rooms : list bool)
    : list ClientMessage * result StreamError () :=
  let '(sent, outcome) := send_file request length_ opened reads rooms in
  match outcome with Ok _ => (sent, Ok ()) | Err e => (sent ++ [CancelUpload request], Err e) end.
End stream.

(** ** The window *)

Definition UPLOAD_WINDOW_BYTES : N := 4 * 1024 * 1024.
Definition UPLOAD_CHUNK_BYTES : N := 512 * 1024.
Definition message_bytes (m : ClientMessage) : N := match m with UploadChunk _ b => N.of_nat (length b) | _ => 0 end.

(** Where a streaming sender is in [room_to_send] and [send]. *)
Inductive At :=
  | Elsewhere          (** reading the file *)
  | Enabled            (** registered with [drained] *)
  | SawOpen            (** [closed] was read false *)
  | Awaiting           (** [queued] was read full *)
  | Room               (** may send *)
  | Counted (n : N)    (** its chunk is counted and not yet in the channel *)
  | Told.              (** the connection closed *)
Record Sender := { at_ : At; notified : bool }.
Definition registered (s : Sender) : bool := match at_ s with Enabled | SawOpen | Awaiting => true | _ => false end.
(** [notify_waiters]. *)
Definition wake (s : Sender) : Sender := {| at_ := at_ s; notified := registered s || notified s |}.

(** Where the writing task is. *)
Inductive Writer :=
  | Waiting                     (** for a message *)
  | Writing (n : N)             (** a message of that many bytes *)
  | Written (n : N) (wrote : bool)
  | Subtracted (wrote : bool)   (** about to notify *)
  | Breaking                    (** out of its loop *)
  | Closing                     (** [closed] is stored; about to notify *)
  | Ended
  | Aborted.                    (** with the client it belonged to *)

Record Window := { queued : N; closed : bool; channel : list N; senders : list Sender; writer : Writer }.
Definition set_sender (i : nat) (a : At) (notified : bool) (w : Window) : Window :=
  {| queued := queued w; closed := closed w; channel := channel w; senders := <[i := {| at_ := a; notified := notified |}]> (senders w);
     writer := writer w |}.
Definition set_writer (t : Writer) (w : Window) : Window :=
  {| queued := queued w; closed := closed w; channel := channel w; senders := senders w; writer := t |}.
Definition set_queued (q : N) (w : Window) : Window :=
  {| queued := q; closed := closed w; channel := channel w; senders := senders w; writer := writer w |}.
Definition set_channel (c : list N) (w : Window) : Window :=
  {| queued := queued w; closed := closed w; channel := c; senders := senders w; writer := writer w |}.
Definition notify (w : Window) : Window :=
  {| queued := queued w; closed := closed w; channel := channel w; senders := wake <$> senders w; writer := writer w |}.
Definition store_closed (w : Window) : Window :=
  {| queued := queued w; closed := true; channel := channel w; senders := senders w; writer := writer w |}.
(** Whether there is still somebody to take what is put in the channel. *)
Definition receiving (t : Writer) : bool := match t with Breaking | Closing | Ended | Aborted => false | _ => true end.
Definition push (n : N) (w : Window) : Window := if receiving (writer w) then set_channel (channel w ++ [n]) w else w.

(** What is done, and by whom. *)
Inductive Act := Sends (i : nat) | Writes | Says | Pastes | Drops.
Definition is_at (w : Window) (i : nat) (a : At) (n : bool) : Prop := senders w !! i = Some {| at_ := a; notified := n |}.

Inductive step (w : Window) : Act → Window → Prop :=
  (* a streaming sender *)
  | enables i n : is_at w i Elsewhere n → step w (Sends i) (set_sender i Enabled false w)
  | sees_open i n : is_at w i Enabled n → closed w = false → step w (Sends i) (set_sender i SawOpen n w)
  | sees_closed i n : is_at w i Enabled n → closed w = true → step w (Sends i) (set_sender i Told n w)
  | sees_room i n : is_at w i SawOpen n → (queued w < UPLOAD_WINDOW_BYTES)%N → step w (Sends i) (set_sender i Room n w)
  | sees_full i n : is_at w i SawOpen n → (UPLOAD_WINDOW_BYTES ≤ queued w)%N → step w (Sends i) (set_sender i Awaiting n w)
  | woken i : is_at w i Awaiting true → step w (Sends i) (set_sender i Enabled false w)
  | counts i n k : is_at w i Room n → (0 < k ≤ UPLOAD_CHUNK_BYTES)%N →
      step w (Sends i) (set_queued (queued w + k) (set_sender i (Counted k) n w))
  | pushes i n k : is_at w i (Counted k) n → step w (Sends i) (push k (set_sender i Elsewhere n w))
  (* the writing task; a message that cannot be encoded is passed over like one that was written *)
  | takes k rest : writer w = Waiting → channel w = k :: rest → step w Writes (set_channel rest (set_writer (Writing k) w))
  | hangs_up : writer w = Waiting → channel w = [] → Forall (λ s, at_ s = Elsewhere ∨ at_ s = Told) (senders w) → step w Writes (set_writer Breaking w)
  | writes k wrote : writer w = Writing k → step w Writes (set_writer (Written k wrote) w)
  | frees k wrote : writer w = Written k wrote → (0 < k)%N →
      step w Writes (set_writer (Subtracted wrote) (set_queued (queued w - k) w))
  | frees_nothing wrote : writer w = Written 0 wrote → step w Writes (set_writer (if wrote then Waiting else Breaking) w)
  | notifies wrote : writer w = Subtracted wrote → step w Writes (set_writer (if wrote then Waiting else Breaking) (notify w))
  | closes : writer w = Breaking → step w Writes (set_channel [] (set_writer Closing (store_closed w)))
  | tells : writer w = Closing → step w Writes (set_writer Ended (notify w))
  (* everything else a frontend sends: small messages, and chunks that are in memory *)
  | says : step w Says (push 0 w)
  | pastes k : (0 < k ≤ UPLOAD_CHUNK_BYTES)%N → step w Pastes (push k (set_queued (queued w + k) w))
  (* the client is dropped: its tasks end where they wait *)
  | drops : writer w = Waiting ∨ (∃ k, writer w = Writing k) → step w Drops (set_channel [] (set_writer Aborted w)).

Definition start (k : nat) : Window :=
  {| queued := 0; closed := false; channel := []; senders := replicate k {| at_ := Elsewhere; notified := false |}; writer := Waiting |}.
(** Runs whose acts are all allowed. *)
Inductive run (allowed : Act → Prop) : Window → Window → Prop :=
  | stays w : run allowed w w
  | goes w a w' w'' : allowed a → step w a w' → run allowed w' w'' → run allowed w w''.

(** ** What is counted *)

Fixpoint total (f : Sender → N) (l : list Sender) : N := match l with [] => 0 | s :: l => f s + total f l end%N.
Lemma total_insert f l i s s' : l !! i = Some s → (total f (<[i := s']> l) + f s = total f l + f s')%N.
Proof.
  revert i. induction l as [|x l IH]; intros [|i] Hi; [done|done| |].
  - injection Hi as ->. change (<[0 := s']> (s :: l)) with (s' :: l). cbn [total]. lia.
  - specialize (IH i Hi). change (<[S i := s']> (x :: l)) with (x :: <[i := s']> l). cbn [total]. lia.
Qed.
Lemma total_wake f l : (∀ s, f (wake s) = f s) → total f (wake <$> l) = total f l.
Proof. intros Hf. induction l as [|s l IH]; [done|]. cbn in *. by rewrite Hf, IH. Qed.
Fixpoint in_channel (l : list N) : N := match l with [] => 0 | k :: l => k + in_channel l end%N.
Lemma in_channel_snoc l k : in_channel (l ++ [k]) = (in_channel l + k)%N.
Proof. induction l as [|x l IH]; cbn [app in_channel]; lia. Qed.

Definition counted (s : Sender) : N := match at_ s with Counted k => k | _ => 0 end.
Definition in_room (s : Sender) : N := match at_ s with Room => 1 | _ => 0 end.
Definition in_hand (t : Writer) : N := match t with Writing k | Written k _ => k | _ => 0 end.

(** Every byte that is counted is in the channel, in the writer's hands, or about to be put
    in the channel. *)
Definition Books (w : Window) : Prop :=
  receiving (writer w) = true → queued w = (in_channel (channel w) + total counted (senders w) + in_hand (writer w))%N.
(** Room for a chunk is kept for every sender that may send. *)
Definition Bounded (w : Window) : Prop :=
  (queued w + UPLOAD_CHUNK_BYTES * total in_room (senders w)
   ≤ UPLOAD_WINDOW_BYTES - 1 + UPLOAD_CHUNK_BYTES * N.of_nat (length (senders w)))%N.
(** A sender that waits and was not woken waits for something that will wake it. *)
Definition Heard (w : Window) : Prop := ∀ i a, is_at w i a false →
  (a = SawOpen ∨ a = Awaiting → closed w = false ∨ writer w = Closing)
  ∧ (a = Awaiting → (UPLOAD_WINDOW_BYTES ≤ queued w)%N ∨ ∃ wrote, writer w = Subtracted wrote).

Lemma is_at_set w i j a n a' n' :
  is_at (set_sender i a n w) j a' n' → (i = j ∧ a' = a ∧ n' = n) ∨ (i ≠ j ∧ is_at w j a' n').
Proof.
  unfold is_at, set_sender. cbn [senders]. intros [(-> & Heq & _)|[Hne Hj]]%list_lookup_insert_Some; [left|right; done].
  by injection Heq as <- <-.
Qed.
Lemma is_at_notify w j a n :
  is_at (notify w) j a n → ∃ n', is_at w j a n' ∧ n = (match a with Enabled | SawOpen | Awaiting => true | _ => false end || n').
Proof.
  unfold is_at, notify. cbn [senders]. rewrite list_lookup_fmap. intros (s & Heq & Hs)%fmap_Some.
  exists (notified s). unfold wake, registered in Hs. injection Hs as -> ->. by destruct s.
Qed.
Lemma total_room_le l : (total in_room l ≤ N.of_nat (length l))%N.
Proof.
  induction l as [|s l IH]; [done|]. assert (in_room s ≤ 1)%N by (unfold in_room; by destruct (at_ s)).
  change (total in_room (s :: l)) with (in_room s + total in_room l)%N. cbn [length]. lia.
Qed.
Lemma total_set f w i a n a' n' :
  is_at w i a n →
  (total f (senders (set_sender i a' n' w)) + f {| at_ := a; notified := n |} = total f (senders w) + f {| at_ := a'; notified := n' |})%N.
Proof. intros Hi. unfold set_sender. cbn [senders]. by apply total_insert. Qed.
Lemma senders_set_length w i a n : length (senders (set_sender i a n w)) = length (senders w).
Proof. unfold set_sender. cbn [senders]. by rewrite length_insert. Qed.

Lemma books_start k : Books (start k).
Proof.
  intros _. unfold start. cbn [queued channel senders writer in_hand].
  assert (total counted (replicate k {| at_ := Elsewhere; notified := false |}) = 0%N) as ->; [|done].
  induction k as [|k IH]; [done|]. cbn in *. by rewrite IH.
Qed.
Lemma books_move w i a n a' n' :
  is_at w i a n → counted {| at_ := a; notified := n |} = counted {| at_ := a'; notified := n' |} → Books w →
  Books (set_sender i a' n' w).
Proof.
  intros Hi Heq Hb Hr. specialize (Hb Hr). pose proof (total_set counted w i a n a' n' Hi) as Ht. rewrite Heq in Ht.
  cbn [queued channel writer set_sender] in *. lia.
Qed.
Lemma books_step w a w' : Books w → step w a w' → Books w'.
Proof.
  intros Hb Hs.
  destruct Hs as [i n Hi|i n Hi _|i n Hi _|i n Hi _|i n Hi _|i Hi|i n k Hi Hk|i n k Hi|k rest Ht Hc|Ht _ _|k wrote Ht|k wrote Ht Hk|wrote Ht|wrote Ht|Ht|Ht| |k Hk|_].
  1-6: by eapply books_move.
  - intros Hr. specialize (Hb Hr). pose proof (total_set counted w i _ _ (Counted k) n Hi) as Ht.
    unfold set_queued, set_sender in *. cbn [queued channel senders writer] in *. change (counted {| at_ := Room; notified := n |}) with 0%N in Ht.
    change (counted {| at_ := Counted k; notified := n |}) with k in Ht. lia.
  - intros Hr. unfold push in *. change (writer (set_sender i Elsewhere n w)) with (writer w) in *.
    destruct (receiving (writer w)) eqn:Hw; [|unfold set_sender in Hr; cbn [writer] in Hr; congruence].
    specialize (Hb Hw). pose proof (total_set counted w i _ _ Elsewhere n Hi) as Ht.
    unfold set_channel, set_sender in *. cbn [queued channel senders writer] in *. rewrite in_channel_snoc.
    change (counted {| at_ := Elsewhere; notified := n |}) with 0%N in Ht. change (counted {| at_ := Counted k; notified := n |}) with k in Ht. lia.
  - intros _. unfold Books in Hb. rewrite Ht, Hc in Hb. specialize (Hb eq_refl). cbn in *. lia.
  - done.
  - intros _. unfold Books in Hb. rewrite Ht in Hb. exact (Hb eq_refl).
  - intros _. unfold Books in Hb. rewrite Ht in Hb. specialize (Hb eq_refl). cbn in *. lia.
  - unfold Books in *. rewrite Ht in Hb. specialize (Hb eq_refl). destruct wrote; [|done]. intros _. exact Hb.
  - unfold Books in *. rewrite Ht in Hb. specialize (Hb eq_refl). destruct wrote; [|done]. intros _.
    cbn [notify set_writer queued channel senders writer in_hand] in *. by rewrite total_wake.
  - done.
  - done.
  - intros Hr. unfold push in *. destruct (receiving (writer w)) eqn:Hw; [|congruence]. specialize (Hb Hw). cbn in *.
    rewrite in_channel_snoc. lia.
  - intros Hr. unfold push in *. change (writer (set_queued (queued w + k) w)) with (writer w) in *.
    destruct (receiving (writer w)) eqn:Hw; [|cbn in Hr; congruence]. specialize (Hb Hw). cbn in *. rewrite in_channel_snoc. lia.
  - done.
Qed.

Lemma bounded_start k : Bounded (start k).
Proof.
  unfold Bounded, start. cbn [queued senders]. pose proof (total_room_le (replicate k {| at_ := Elsewhere; notified := false |})) as Hle.
  rewrite length_replicate in *.
  assert (total in_room (replicate k {| at_ := Elsewhere; notified := false |}) = 0%N) as ->; [|unfold UPLOAD_WINDOW_BYTES; lia].
  clear Hle. induction k as [|k IH]; [done|]. cbn in *. by rewrite IH.
Qed.
Lemma bounded_move w i a n a' n' :
  is_at w i a n → (in_room {| at_ := a'; notified := n' |} ≤ in_room {| at_ := a; notified := n |})%N → Bounded w → Bounded (set_sender i a' n' w).
Proof.
  intros Hi Hle Hb. pose proof (total_set in_room w i a n a' n' Hi) as Ht. unfold Bounded in *. rewrite senders_set_length.
  change (queued (set_sender i a' n' w)) with (queued w).
  assert (total in_room (senders (set_sender i a' n' w)) ≤ total in_room (senders w))%N by lia. nia.
Qed.
Lemma bounded_same w w' : (queued w' ≤ queued w)%N → total in_room (senders w') = total in_room (senders w) →
  length (senders w') = length (senders w) → Bounded w → Bounded w'.
Proof. unfold Bounded. intros Hq -> ->. lia. Qed.
Lemma push_same k w : queued (push k w) = queued w ∧ senders (push k w) = senders w.
Proof. unfold push. by destruct (receiving (writer w)). Qed.
Lemma push_senders k w : senders (push k w) = senders w.
Proof. apply push_same. Qed.
Lemma bounded_step w a w' : a ≠ Pastes → Bounded w → step w a w' → Bounded w'.
Proof.
  intros Ha Hb Hs.
  destruct Hs as [i n Hi|i n Hi _|i n Hi _|i n Hi Hq|i n Hi _|i Hi|i n k Hi Hk|i n k Hi|k rest Ht Hc|Ht _ _|k wrote Ht|k wrote Ht Hk|wrote Ht|wrote Ht|Ht|Ht| |k Hk|_].
  4: { pose proof (total_set in_room w i _ _ Room n Hi) as Ht. pose proof (total_room_le (senders (set_sender i Room n w))) as Hle.
       unfold Bounded in *. rewrite senders_set_length in *. change (queued (set_sender i Room n w)) with (queued w).
       unfold UPLOAD_WINDOW_BYTES in *. nia. }
  1-5: by eapply bounded_move.
  - pose proof (total_set in_room w i _ _ (Counted k) n Hi) as Ht. unfold Bounded in *.
    change (senders (set_queued (queued w + k) (set_sender i (Counted k) n w))) with (senders (set_sender i (Counted k) n w)).
    rewrite senders_set_length. change (queued (set_queued (queued w + k) (set_sender i (Counted k) n w))) with (queued w + k)%N.
    change (in_room {| at_ := Room; notified := n |}) with 1%N in Ht. change (in_room {| at_ := Counted k; notified := n |}) with 0%N in Ht. nia.
  - assert (Bounded (set_sender i Elsewhere n w)) as Hb' by by eapply bounded_move.
    destruct (push_same k (set_sender i Elsewhere n w)) as [Hq Hss]. apply (bounded_same (set_sender i Elsewhere n w)); [by rewrite Hq|by rewrite Hss..|done].
  - by apply (bounded_same w).
  - by apply (bounded_same w).
  - by apply (bounded_same w).
  - apply (bounded_same w); [cbn; lia|done..].
  - by apply (bounded_same w).
  - apply (bounded_same w); [done| |cbn; by rewrite length_fmap|done]. cbn. by apply total_wake.
  - by apply (bounded_same w).
  - apply (bounded_same w); [done| |cbn; by rewrite length_fmap|done]. cbn. by apply total_wake.
  - destruct (push_same 0 w) as [Hq Hss]. apply (bounded_same w); [by rewrite Hq|by rewrite Hss..|done].
  - done.
  - by apply (bounded_same w).
Qed.

(** ** Waking up *)

Lemma heard_start k : Heard (start k).
Proof.
  intros i a Hi. unfold is_at, start in Hi. cbn [senders] in Hi. apply lookup_replicate in Hi as [[= ->] _].
  split; [by intros [?|?]|done].
Qed.
(** Acts that leave senders alone and take nothing from what wakes them. *)
Lemma heard_same w w' :
  senders w' = senders w → closed w' = closed w ∨ writer w' = Closing → writer w ≠ Closing →
  ((UPLOAD_WINDOW_BYTES ≤ queued w)%N ∨ (∃ wrote, writer w = Subtracted wrote) →
   (UPLOAD_WINDOW_BYTES ≤ queued w')%N ∨ ∃ wrote, writer w' = Subtracted wrote) →
  Heard w → Heard w'.
Proof.
  intros Hs Hc Hw Hq Hh i a Hi. unfold is_at in Hi. rewrite Hs in Hi. destruct (Hh i a Hi) as [H1 H2]. split.
  - intros Ha. destruct Hc as [->|]; [|by right]. destruct (H1 Ha) as [|]; [by left|done].
  - intros Ha. by apply Hq, H2.
Qed.
Lemma heard_move w i a n a' n' :
  is_at w i a n →
  (n' = false → (a' = SawOpen ∨ a' = Awaiting → closed w = false ∨ writer w = Closing)
                ∧ (a' = Awaiting → (UPLOAD_WINDOW_BYTES ≤ queued w)%N ∨ ∃ wrote, writer w = Subtracted wrote)) →
  Heard w → Heard (set_sender i a' n' w).
Proof.
  intros Hi Hnew Hh j b Hj. apply is_at_set in Hj as [(-> & -> & <-)|[Hne Hj]]; [by apply Hnew|exact (Hh j b Hj)].
Qed.
(** Once everybody is notified, nobody who is registered is left. *)
Lemma heard_notified w t : Heard (set_writer t (notify w)).
Proof.
  intros i a Hi. change (is_at (notify w) i a false) in Hi. apply is_at_notify in Hi as (n & _ & Hn).
  destruct a; try discriminate Hn; (split; [by intros [?|?]|done]).
Qed.
Lemma heard_push k w : Heard w → Heard (push k w).
Proof. intros Hh. unfold push. destruct (receiving (writer w)); [|done]. exact Hh. Qed.

Lemma heard_step w a w' : a ≠ Drops → Heard w → step w a w' → Heard w'.
Proof.
  intros Ha Hh Hs.
  destruct Hs as [i n Hi|i n Hi Hc|i n Hi _|i n Hi Hq|i n Hi Hq|i Hi|i n k Hi Hk|i n k Hi|k rest Ht Hc|Ht _ _|k wrote Ht|k wrote Ht Hk|wrote Ht|wrote Ht|Ht|Ht| |k Hk|_].
  - eapply heard_move; [done| |done]. intros _. split; [by intros [?|?]|done].
  - eapply heard_move; [done| |done]. intros _. split; [by left|done].
  - eapply heard_move; [done| |done]. intros _. split; [by intros [?|?]|done].
  - eapply heard_move; [done| |done]. intros _. split; [by intros [?|?]|done].
  - eapply heard_move; [done| |done]. intros ->. destruct (Hh i SawOpen Hi) as [H1 _]. split; [|by left]. intros _. apply H1. by left.
  - eapply heard_move; [done| |done]. intros _. split; [by intros [?|?]|done].
  - assert (Heard (set_sender i (Counted k) n w)) as Hm.
    { eapply heard_move; [done| |done]. intros _. split; [by intros [?|?]|done]. }
    intros j b Hj. destruct (Hm j b Hj) as [H1 H2]. split; [exact H1|]. intros Hb.
    destruct (H2 Hb) as [Hq|Hq]; [left|by right]. cbn [queued set_queued set_sender] in *. lia.
  - apply heard_push. eapply heard_move; [done| |done]. intros _. split; [by intros [?|?]|done].
  - apply (heard_same w); [done|by left|by rewrite Ht| |done]. intros [?|[? Hx]]; [by left|]. rewrite Ht in Hx. done.
  - apply (heard_same w); [done|by left|by rewrite Ht| |done]. intros [?|[? Hx]]; [by left|]. rewrite Ht in Hx. done.
  - apply (heard_same w); [done|by left|by rewrite Ht| |done]. intros [?|[? Hx]]; [by left|]. rewrite Ht in Hx. done.
  - apply (heard_same w); [done|by left|by rewrite Ht| |done]. intros _. right. by exists wrote.
  - apply (heard_same w); [done|by left|by rewrite Ht| |done]. intros [?|[? Hx]]; [by left|]. rewrite Ht in Hx. done.
  - apply heard_notified.
  - apply (heard_same w); [done|by right|by rewrite Ht| |done]. intros [?|[? Hx]]; [by left|]. rewrite Ht in Hx. done.
  - apply heard_notified.
  - by apply heard_push.
  - apply heard_push. intros j b Hj. destruct (Hh j b Hj) as [H1 H2]. split; [exact H1|]. intros Hb.
    destruct (H2 Hb) as [Hq|Hq]; [left|by right]. cbn [queued set_queued]. lia.
  - done.
Qed.

(** ** Runs *)

Lemma run_invariant (I : Window → Prop) (allowed : Act → Prop) w w' :
  (∀ w a w', allowed a → I w → step w a w' → I w') → I w → run allowed w w' → I w'.
Proof. intros Hstep Hw Hr. induction Hr as [|w a w1 w2 Ha Hs _ IH]; [done|]. apply IH. by eapply Hstep. Qed.
Lemma run_app allowed w1 w2 w3 : run allowed w1 w2 → run allowed w2 w3 → run allowed w1 w3.
Proof. induction 1; [done|]. intros Hr. econstructor; [done..|]. auto. Qed.
Lemma run_senders w w' a : step w a w' → length (senders w') = length (senders w).
Proof.
  intros Hs. destruct Hs; rewrite ?push_senders; cbn [senders set_queued set_writer set_channel store_closed notify];
    by rewrite ?senders_set_length, ?length_fmap.
Qed.

(** The memory a frontend spends on uploads is bounded by the window, whatever the disk
    and the socket do: with any number of files streaming at once and every interleaving
    of their senders with the writing task, less than the window and one chunk for each of
    them is queued; the count is exactly what is queued, in the writer's hands or about to
    be put in the queue, so giving room back never takes more than was counted; and without
    the streaming files' check (chunks of a clipboard that are in memory already) only the
    bound is lost, not the count. *)
Theorem upload_window_bounded k w :
  run (λ _, True) (start k) w →
  (receiving (writer w) = true →
     queued w = (in_channel (channel w) + total counted (senders w) + in_hand (writer w))%N ∧ (in_hand (writer w) ≤ queued w)%N)
  ∧ (run (λ a, a ≠ Pastes) (start k) w → (queued w < UPLOAD_WINDOW_BYTES + UPLOAD_CHUNK_BYTES * N.of_nat k)%N).
Proof.
  intros Hr. split.
  - intros Ht. assert (Books w) as Hb.
    { eapply run_invariant; [|apply books_start|exact Hr]. intros ?????. by eapply books_step. }
    specialize (Hb Ht). split; [done|]. lia.
  - intros Hr'. assert (Bounded w ∧ length (senders w) = k) as [Hb Hk].
    { revert Hr'. apply (run_invariant (λ w, Bounded w ∧ length (senders w) = k)).
      - intros w1 a w2 Ha [Hb Hl] Hs. split; [by eapply bounded_step|]. by rewrite (run_senders _ _ _ Hs).
      - split; [apply bounded_start|]. unfold start. cbn [senders]. apply length_replicate. }
    unfold Bounded in Hb. rewrite Hk in Hb. unfold UPLOAD_WINDOW_BYTES, UPLOAD_CHUNK_BYTES in *. lia.
Qed.

Definition Shut (w : Window) : Prop := (writer w = Ended → closed w = true) ∧ writer w ≠ Aborted.
Lemma push_writer k w : writer (push k w) = writer w.
Proof. unfold push. by destruct (receiving (writer w)). Qed.
Lemma push_closed k w : closed (push k w) = closed w.
Proof. unfold push. by destruct (receiving (writer w)). Qed.
Lemma shut_step w a w' : a ≠ Drops → Shut w ∧ (writer w = Closing → closed w = true) → step w a w' →
  Shut w' ∧ (writer w' = Closing → closed w' = true).
Proof.
  intros Ha [[H1 H2] H3] Hs. unfold Shut.
  destruct Hs; rewrite ?push_writer, ?push_closed; cbn [writer closed set_sender set_queued set_writer set_channel store_closed notify];
    try (destruct wrote); split_and!; try done; try (by rewrite ?H; intros); auto.
Qed.

Section woken.
Context (i : nat).

(** What may happen while the sender [i] waits. *)
Definition around (a : Act) : Prop := a = Writes ∨ ∃ j, j ≠ i ∧ a = Sends j.
Definition wakes (w : Window) : Prop := ∃ w', run around w w' ∧ is_at w' i Awaiting true.
Lemma wakes_step w a w' : around a → step w a w' → wakes w' → wakes w.
Proof. intros Ha Hs (w2 & Hr & Hi). exists w2. split; [|done]. by econstructor. Qed.
Lemma wakes_writes w w' : step w Writes w' → wakes w' → wakes w.
Proof. apply wakes_step. by left. Qed.
Lemma wakes_notified w t : is_at w i Awaiting false → wakes (set_writer t (notify w)).
Proof.
  intros Hi. exists (set_writer t (notify w)). split; [constructor|]. unfold is_at, notify in *. cbn [senders set_writer].
  rewrite list_lookup_fmap, Hi. done.
Qed.
Lemma wakes_closing w : writer w = Closing → is_at w i Awaiting false → wakes w.
Proof. intros Hw Hi. eapply wakes_writes; [by apply tells|]. by apply wakes_notified. Qed.
Lemma wakes_breaking w : writer w = Breaking → is_at w i Awaiting false → wakes w.
Proof. intros Hw Hi. eapply wakes_writes; [by apply closes|]. by apply wakes_closing. Qed.
Lemma wakes_subtracted w wrote : writer w = Subtracted wrote → is_at w i Awaiting false → wakes w.
Proof. intros Hw Hi. eapply wakes_writes; [by apply notifies|]. by apply wakes_notified. Qed.
Lemma wakes_written w k wrote : (0 < k)%N → writer w = Written k wrote → is_at w i Awaiting false → wakes w.
Proof. intros Hk Hw Hi. eapply wakes_writes; [by eapply frees|]. by eapply wakes_subtracted. Qed.
Lemma wakes_writing w k : (0 < k)%N → writer w = Writing k → is_at w i Awaiting false → wakes w.
Proof. intros Hk Hw Hi. eapply wakes_writes; [by apply (writes w k true)|]. by eapply wakes_written. Qed.
Lemma wakes_taking w k rest : (0 < k)%N → writer w = Waiting → channel w = k :: rest → is_at w i Awaiting false → wakes w.
Proof. intros Hk Hw Hc Hi. eapply wakes_writes; [by eapply takes|]. by eapply wakes_writing. Qed.

Lemma total_positive f l : (0 < total f l)%N → ∃ j s, l !! j = Some s ∧ (0 < f s)%N.
Proof.
  induction l as [|s l IH]; cbn [total]; [lia|]. intros Hpos. destruct (decide (0 < f s)%N); [by exists 0, s|].
  destruct IH as (j & s' & ? & ?); [lia|]. by exists (S j), s'.
Qed.
(** With nothing in the channel, the bytes that fill the window are about to be put there. *)
Lemma wakes_empty w :
  writer w = Waiting → channel w = [] → is_at w i Awaiting false → Books w → (UPLOAD_WINDOW_BYTES ≤ queued w)%N → wakes w.
Proof.
  intros Hw Hc Hi Hb Hq. unfold Books in Hb. rewrite Hw, Hc in Hb. specialize (Hb eq_refl). cbn [in_channel in_hand] in Hb.
  destruct (total_positive counted (senders w)) as (j & [a n] & Hj & Hpos); [unfold UPLOAD_WINDOW_BYTES in *; lia|].
  destruct a as [| | | | |k|]; try (unfold counted in Hpos; cbn in Hpos; lia). change (0 < k)%N in Hpos.
  assert (j ≠ i) as Hne by (intros ->; unfold is_at in Hi; congruence).
  eapply wakes_step; [right; by exists j|by apply (pushes w j n k)|].
  assert (push k (set_sender j Elsewhere n w) = set_channel [k] (set_sender j Elsewhere n w)) as ->.
  { unfold push. cbn [writer set_sender channel]. by rewrite Hw, Hc. }
  eapply (wakes_taking _ k []); [done|done|done|]. unfold is_at. cbn [senders set_channel set_sender]. by rewrite list_lookup_insert_ne.
Qed.
Lemma wakes_waiting l w :
  channel w = l → writer w = Waiting → is_at w i Awaiting false → Books w → (UPLOAD_WINDOW_BYTES ≤ queued w)%N → wakes w.
Proof.
  revert w. induction l as [|k l IH]; intros w Hc Hw Hi Hb Hq; [by apply wakes_empty|].
  destruct (decide (0 < k)%N); [by eapply wakes_taking|]. assert (k = 0%N) as -> by lia.
  pose proof (takes w 0 l Hw Hc) as H1. pose proof (writes (set_channel l (set_writer (Writing 0) w)) 0 true eq_refl) as H2.
  pose proof (frees_nothing (set_writer (Written 0 true) (set_channel l (set_writer (Writing 0) w))) true eq_refl) as H3.
  eapply wakes_writes; [exact H1|]. eapply wakes_writes; [exact H2|]. eapply wakes_writes; [exact H3|].
  apply IH; [done|done|done| |done]. eapply books_step; [|exact H3]. eapply books_step; [|exact H2]. by eapply books_step.
Qed.
End woken.

(** C10. No sender is left waiting for room. Wherever the senders and the writing task are in
    their steps, as long as the client lives, a sender that found the window full and was
    not woken is woken by what the writing task and the other senders do next, without the
    frontend sending anything more; when the connection breaks instead, it is told. *)
Theorem waiting_sender_is_woken k i w :
  run (λ a, a ≠ Drops) (start k) w → is_at w i Awaiting false →
  ∃ w', run (around i) w w' ∧ is_at w' i Awaiting true.
Proof.
  intros Hr Hi.
  assert (Books w) as Hb by (eapply run_invariant; [|apply books_start|exact Hr]; intros ?????; by eapply books_step).
  assert (Heard w) as Hh by (eapply run_invariant; [|apply heard_start|exact Hr]; intros ?????; by eapply heard_step).
  assert (Shut w ∧ (writer w = Closing → closed w = true)) as [[Hended Haborted] _].
  { refine (run_invariant (λ w, Shut w ∧ (writer w = Closing → closed w = true)) _ (start k) w _ _ Hr).
    - intros ?????. by eapply shut_step.
    - by split_and!. }
  destruct (Hh i Awaiting Hi) as [Hopen Hfull]. specialize (Hfull eq_refl). specialize (Hopen (or_intror eq_refl)).
  change (wakes i w). destruct (writer w) as [|n|n wrote|wrote| | | |] eqn:Hw.
  - destruct Hfull as [Hfull|[? ?]]; [|done]. by eapply wakes_waiting.
  - destruct (decide (0 < n)%N); [by eapply wakes_writing|]. assert (n = 0%N) as -> by lia.
    destruct Hfull as [Hfull|[? ?]]; [|done].
    pose proof (writes w 0 true Hw) as H1. pose proof (frees_nothing (set_writer (Written 0 true) w) true eq_refl) as H2.
    eapply wakes_writes; [exact H1|]. eapply wakes_writes; [exact H2|]. eapply wakes_waiting; [done|done|done| |done].
    eapply books_step; [|exact H2]. by eapply books_step.
  - destruct (decide (0 < n)%N); [by eapply wakes_written|]. assert (n = 0%N) as -> by lia.
    destruct Hfull as [Hfull|[? ?]]; [|done]. pose proof (frees_nothing w wrote Hw) as H1.
    eapply wakes_writes; [exact H1|]. destruct wrote; [|by apply wakes_breaking].
    eapply wakes_waiting; [done|done|done| |done]. by eapply books_step.
  - by eapply wakes_subtracted.
  - by apply wakes_breaking.
  - by apply wakes_closing.
  - destruct Hopen as [Hopen|]; [|done]. rewrite Hended in Hopen; done.
  - done.
Qed.

(** ** A client that is dropped *)

(** Dropping the client ends its writing task where it waits, and nothing closes the window:
    a sender that waits for room then waits for ever. *)
Theorem dropped_client_strands_sender :
  ∃ w, run (λ _, True) (start 1) w ∧ is_at w 0 Awaiting false ∧ closed w = false
       ∧ ∀ w', run (λ _, True) w w' → is_at w' 0 Awaiting false.
Proof.
  eexists. split.
  - do 8 (eapply goes; [exact I|apply (pastes _ UPLOAD_CHUNK_BYTES); unfold UPLOAD_CHUNK_BYTES; lia|]).
    eapply goes; [exact I|by apply (enables _ 0 false)|]. eapply goes; [exact I|by apply (sees_open _ 0 false)|].
    eapply goes; [exact I|apply (sees_full _ 0 false); [done|vm_compute; discriminate]|].
    eapply goes; [exact I|apply drops; by left|apply stays].
  - split_and!; [done|done|]. intros w' Hr.
    cut (writer w' = Aborted ∧ is_at w' 0 Awaiting false); [by intros [_ ?]|].
    refine (run_invariant (λ w, writer w = Aborted ∧ is_at w 0 Awaiting false) _ _ w' _ _ Hr); [|by split].
    intros w1 a w2 _ [Hw Hi] Hs. unfold is_at in *.
    destruct Hs; try congruence; rewrite ?push_writer, ?push_senders; cbn [senders writer set_sender set_queued set_channel set_writer];
      (split; [done|]); try done; try (destruct i as [|i]; [unfold is_at in *; congruence|by rewrite list_lookup_insert_ne]).
Qed.

(** ** What a streamed file comes to *)

(** A streamed upload attests to the file it sent, or is withdrawn. When it succeeds, the
    chunks are what the reads gave until the end of the file, in order, as many bytes as
    were offered, and the one digest after them is of exactly those bytes. When the file
    cannot be read to its end, grew or shrank, or the connection closed, no digest is sent:
    never more bytes than offered, and a cancellation last. *)
Theorem streamed_upload_attests `{Sha256} request length_ opened reads rooms :
  let '(sent, outcome) := stream_file_upload request length_ opened reads rooms in
  ∃ chunks, (Some <$> chunks) `prefix_of` reads ∧ Forall (λ chunk, chunk ≠ []) chunks
    ∧ match outcome with
      | Ok _ => sent = (UploadChunk request <$> chunks) ++ [FinishUpload request (hex (sha256 (concat chunks)))]
                ∧ N.of_nat (length (concat chunks)) = length_ ∧ (Some <$> chunks) ++ [Some []] `prefix_of` reads
      | Err _ => sent = (UploadChunk request <$> chunks) ++ [CancelUpload request] ∧ (N.of_nat (length (concat chunks)) ≤ length_)%N
      end.
Proof.
  cut (∀ read rooms, (N.of_nat (length read) ≤ length_)%N →
    let '(sent, outcome) := send_reads request length_ read reads rooms in
    ∃ chunks, (Some <$> chunks) `prefix_of` reads ∧ Forall (λ chunk, chunk ≠ []) chunks
      ∧ match outcome with
        | Ok _ => sent = (UploadChunk request <$> chunks) ++ [FinishUpload request (hex (sha256 (read ++ concat chunks)))]
                  ∧ N.of_nat (length (read ++ concat chunks)) = length_ ∧ (Some <$> chunks) ++ [Some []] `prefix_of` reads
        | Err _ => sent = (UploadChunk request <$> chunks) ∧ (N.of_nat (length (read ++ concat chunks)) ≤ length_)%N
        end).
  { intros Hcut. unfold stream_file_upload, send_file. destruct opened.
    - specialize (Hcut [] rooms ltac:(cbn; lia)). destruct (send_reads _ _ _ _ _) as [sent [[]|e]].
      + destruct Hcut as (chunks & ? & ? & ? & ? & ?). exists chunks. by split_and!.
      + destruct Hcut as (chunks & ? & ? & -> & ?). exists chunks. by split_and!.
    - exists []. split_and!; [apply prefix_nil|constructor|done|cbn; lia]. }
  clear rooms. induction reads as [|[[|b chunk]|] reads IH]; intros read rooms Hread; cbn [send_reads].
  - exists []. rewrite app_nil_r. split_and!; [apply prefix_nil|constructor|done|done].
  - destruct (N.eqb_spec (N.of_nat (length read)) length_) as [Heq|Hne]; exists []; rewrite app_nil_r.
    + split_and!; [apply prefix_nil|constructor|done|done|]. cbn. by exists reads.
    + split_and!; [apply prefix_nil|constructor|done|done].
  - destruct rooms as [|[] rooms]; try (exists []; rewrite app_nil_r; split_and!; [apply prefix_nil|constructor|done|done]).
    destruct (N.ltb_spec length_ (N.of_nat (length (read ++ b :: chunk)))) as [Hlt|Hle].
    + exists []. rewrite app_nil_r. split_and!; [apply prefix_nil|constructor|done|done].
    + specialize (IH (read ++ b :: chunk) rooms Hle). destruct (send_reads _ _ _ _ _) as [sent outcome].
      destruct IH as (chunks & Hpre & Hne & Hout). exists ((b :: chunk) :: chunks). rewrite !fmap_cons.
      assert (read ++ concat ((b :: chunk) :: chunks) = (read ++ b :: chunk) ++ concat chunks) as -> by by rewrite <-app_assoc.
      split_and!; [by apply prefix_cons|by constructor|]. destruct outcome as [[]|e].
      * destruct Hout as (-> & ? & ?). split_and!; [done|done|by apply prefix_cons].
      * destruct Hout as (-> & ?). by split_and!.
  - exists []. rewrite app_nil_r. split_and!; [apply prefix_nil|constructor|done|done].
Qed.

(** ** What a client holds *)

(** A line of the stream that reads as a message; JSON has no line feed in it. *)
Definition reads_as `{Serde ServerMessage} (line : bytes) (m : ServerMessage) : Prop :=
  ∃ text, line = text ++ [newline] ∧ newline ∉ text ∧ decode text = Ok m.
(** Where reading stops: no whole line is left within the limit, or one that is no message. *)
Definition stops `{Serde ServerMessage} (rest : bytes) : Prop :=
  match whole_line (read_line rest).1 with
  | None => True
  | Some text => is_ok (decode (M := ServerMessage) text) = false
  end.
Definition is_state (m : ServerMessage) : bool := match m with FederationFull _ | TargetState _ _ => true | _ => false end.

Lemma read_line_whole line rest :
  newline ∉ line → length line < MAX_MESSAGE_BYTES → read_line (line ++ newline :: rest) = (line ++ [newline], rest).
Proof.
  intros Hline Hlen. unfold read_line.
  assert (∀ limit, length line < limit → up_to_newline (take limit (line ++ newline :: rest)) = line ++ [newline]) as Hup.
  { clear Hlen. induction line as [|c line IH]; intros [|limit] Hlimit; cbn [length] in Hlimit; try lia; [done|].
    apply not_elem_of_cons in Hline as [Hc Hline]. cbn [app take up_to_newline]. rewrite (proj2 (N.eqb_neq c newline)) by done.
    rewrite IH; [done|done|lia]. }
  rewrite Hup by done. f_equal. change (line ++ newline :: rest) with (line ++ [newline] ++ rest). rewrite app_assoc. apply drop_app_length.
Qed.
Lemma whole_line_snoc line : whole_line (line ++ [newline]) = Some line.
Proof. unfold whole_line, strip_suffix. rewrite reverse_snoc. cbn. by rewrite reverse_involutive. Qed.

Section held.
Context `{Serde ClientMessage, Serde ServerMessage}.
Implicit Types (m : ServerMessage).

Lemma decode_short text m : decode text = Ok m → length text < MAX_MESSAGE_BYTES.
Proof. unfold decode. by destruct (Nat.leb_spec MAX_MESSAGE_BYTES (length text)). Qed.
(** What a daemon encodes is such a line, when what it wrote reads back. *)
Lemma encoded_reads m line : encode m = Ok line →
  (∀ text, to_vec m = Some text → newline ∉ text ∧ from_slice text = Some m) → reads_as line m.
Proof.
  unfold encode, reads_as, decode. destruct (to_vec m) as [text|] eqn:Hm; [|done]. cbn [ok_or mbind result_bind].
  destruct (Nat.leb_spec MAX_MESSAGE_BYTES (length text)) as [|Hlen]; [done|]. intros [= <-] Hback.
  destruct (Hback text eq_refl) as [Hnl Hfrom]. exists text. split_and!; [done|done|].
  rewrite (proj2 (Nat.leb_gt _ _)) by done. by rewrite Hfrom.
Qed.
Lemma receive_stops rest r fuel : stops rest → receive fuel rest r = r.
Proof.
  unfold stops. destruct fuel as [|fuel]; [done|]. cbn [receive]. generalize (read_line rest) as lr. intros [line rest'].
  cbn [fst]. destruct (whole_line line) as [text|]; [|done]. by destruct (decode text).
Qed.
Lemma receive_line line m rest r fuel :
  reads_as line m → receive (S fuel) (line ++ rest) r = receive fuel rest (receive_one r m).
Proof.
  intros (text & -> & Hnl & Hdecode). pose proof (decode_short text m Hdecode) as Hlen.
  pose proof (read_line_whole text rest Hnl Hlen) as Hread.
  replace ((text ++ [newline]) ++ rest) with (text ++ newline :: rest) by by rewrite <-app_assoc.
  cbn [receive]. rewrite Hread, whole_line_snoc, Hdecode. reflexivity.
Qed.
Lemma receive_all ms lines rest r fuel :
  Forall2 reads_as lines ms → stops rest → length ms < fuel →
  receive fuel (concat lines ++ rest) r = foldl receive_one r ms.
Proof.
  intros Hall Hstops. revert r fuel.
  induction Hall as [|line m lines ms Hline _ IH]; intros r [|fuel] Hfuel; cbn [length] in Hfuel; [lia| |lia|].
  - by apply receive_stops.
  - cbn [concat]. rewrite <-app_assoc, (receive_line line m) by done. apply IH. lia.
Qed.
Lemma lines_long ms lines : Forall2 reads_as lines ms → length ms ≤ length (concat lines).
Proof.
  induction 1 as [|line m lines ms (text & -> & _) _ IH]; [done|]. cbn [length concat].
  rewrite !length_app. cbn [length]. lia.
Qed.
Lemma received_parts ms r :
  federation (foldl receive_one r ms) = foldl client_apply (federation r) ms
  ∧ heard (foldl receive_one r ms) = heard r ++ filter (λ m, is_state m = false) ms.
Proof.
  revert r. induction ms as [|m ms IH]; intros r; [by rewrite app_nil_r|]. cbn [foldl].
  destruct (IH (receive_one r m)) as [Hf Hh]. rewrite Hf, Hh. split; [by destruct m|].
  destruct m; rewrite filter_cons; cbn [is_state]; (case_decide; [|done] || idtac); cbn [receive_one heard]; by rewrite <-?app_assoc.
Qed.

(** C21. A client holds what its daemon says. Attached over a stream whose lines read as any
    messages, up to a line that reads as none or the end, to a daemon of its own protocol: the
    client's federation is the changes read, applied in order to an empty one, and the
    frontend hears every other message read, once and in order, and nothing more. A daemon of
    another protocol, and one that refuses, is not attached to. *)
Theorem client_holds_what_is_said protocol version features replies greeting ms lines rest :
  reads_as greeting (ServerHello protocol version features replies) → Forall2 reads_as lines ms → stops rest →
  connect true (greeting ++ concat lines ++ rest)
  = (if (protocol =? PROTOCOL_VERSION)%N
     then Ok {| federation := foldl client_apply FederationState_default ms; heard := filter (λ m, is_state m = false) ms |}
     else Err (OtherProtocol protocol))
  ∧ ∀ request message refusal, reads_as refusal (ErrorMessage request message) →
      connect true (refusal ++ concat lines ++ rest) = Err (RefusedConnection message).
Proof.
  intros Hgreeting Hall Hstops.
  assert (∀ line m, reads_as line m → greeted (line ++ concat lines ++ rest) =
            match m with
            | ServerHello protocol _ _ _ => if (protocol =? PROTOCOL_VERSION)%N then Ok (concat lines ++ rest) else Err (OtherProtocol protocol)
            | ErrorMessage _ message => Err (RefusedConnection message) | _ => Err SomethingElse end) as Hgreeted.
  { intros line m (text & -> & Hnl & Hdecode). unfold greeted. rewrite <-app_assoc. cbn [app].
    rewrite (read_line_whole text _ Hnl (decode_short text m Hdecode)). by rewrite whole_line_snoc, Hdecode. }
  unfold connect. cbn [negb]. split.
  - rewrite (Hgreeted _ _ Hgreeting). destruct (protocol =? PROTOCOL_VERSION)%N; [|done]. cbn [mbind result_bind].
    pose proof (lines_long ms lines Hall) as Hlong.
    rewrite (receive_all ms lines) by (done || (rewrite length_app; lia)).
    destruct (received_parts ms {| federation := FederationState_default; heard := [] |}) as [Hf Hh].
    destruct (foldl receive_one _ ms) as [f h]. cbn in Hf, Hh. by rewrite Hf, Hh.
  - intros request message refusal Hrefusal. by rewrite (Hgreeted _ _ Hrefusal).
Qed.
End held.

(** ** Concrete runs *)

Module Runs.

(** The window is full and the sender waits. *)
Definition filled : Window :=
  {| queued := 4194304; closed := false; channel := replicate 8 UPLOAD_CHUNK_BYTES;
     senders := [{| at_ := Awaiting; notified := false |}]; writer := Waiting |}.
Lemma fills : run (λ a, a ≠ Drops) (start 1) filled.
Proof.
  do 8 (eapply (goes _ _ Pastes); [discriminate|apply (pastes _ UPLOAD_CHUNK_BYTES); unfold UPLOAD_CHUNK_BYTES; lia|]).
  eapply (goes _ _ (Sends 0)); [discriminate|by apply (enables _ 0 false)|]. eapply (goes _ _ (Sends 0)); [discriminate|by apply (sees_open _ 0 false)|].
  eapply (goes _ _ (Sends 0)); [discriminate|apply (sees_full _ 0 false); [done|vm_compute; discriminate]|]. apply stays.
Qed.
Lemma waiting_sender_is_woken_witness : ∃ w', run (around 0) filled w' ∧ is_at w' 0 Awaiting true.
Proof. apply (waiting_sender_is_woken 1 0 filled fills). reflexivity. Defined.

(** One sender has sent a chunk, which the writing task has taken. *)
Definition streaming : Window :=
  {| queued := 5; closed := false; channel := []; senders := [{| at_ := Elsewhere; notified := false |}]; writer := Writing 5 |}.
Lemma streams : run (λ a, a ≠ Pastes) (start 1) streaming.
Proof.
  eapply (goes _ _ (Sends 0)); [discriminate|by apply (enables _ 0 false)|]. eapply (goes _ _ (Sends 0)); [discriminate|by apply (sees_open _ 0 false)|].
  eapply (goes _ _ (Sends 0)); [discriminate|by apply (sees_room _ 0 false)|]. eapply (goes _ _ (Sends 0)); [discriminate|apply (counts _ 0 false 5); [done|unfold UPLOAD_CHUNK_BYTES; lia]|].
  eapply (goes _ _ (Sends 0)); [discriminate|by apply (pushes _ 0 false 5)|]. eapply (goes _ _ Writes); [discriminate|by apply (takes _ 5 [])|]. apply stays.
Qed.
Lemma run_any allowed w w' : run allowed w w' → run (λ _, True) w w'.
Proof. induction 1; [apply stays|by eapply goes]. Qed.
Lemma upload_window_bounded_witness :
  queued streaming = (in_channel (channel streaming) + total counted (senders streaming) + in_hand (writer streaming))%N
  ∧ (queued streaming < UPLOAD_WINDOW_BYTES + UPLOAD_CHUNK_BYTES)%N.
Proof.
  destruct (upload_window_bounded 1 streaming (run_any _ _ _ streams)) as [Hbooks Hbound].
  split; [exact (proj1 (Hbooks eq_refl))|exact (Hbound streams)].
Defined.

(** A daemon that says hello, what it knows, a target that came and that downloads ended. *)
#[export] Instance client_serde : Serde ClientMessage := {| to_vec _ := Some []; from_slice _ := None |}.
Definition machine : TargetSession := TargetSession_new (u "host") (u "dev").
Definition here : TargetRuntimeState := TargetRuntimeState_new {|
  tgt_name := u "host"; tgt_ssh := None; tgt_discover_sessions := false; tgt_session := Some (u "dev"); tgt_socket := None;
  tgt_herdr_bins := [u "herdr"]; tgt_tags := []; tgt_roots := [] |}.
Definition known : FederationState := {| fed_revision := 5; targets := {[ TargetSession_new (u "host") (u "ops") := here ]} |}.
#[export] Instance server_serde : Serde ServerMessage := {|
  to_vec m := None;
  from_slice line := match line with
                     | [0; p]%N => Some (ServerHello p [] [] [])
                     | [1; n]%N => Some (DownloadFinished n)
                     | [2; _]%N => Some (FederationFull known)
                     | [3; _]%N => Some (TargetState machine (Some here))
                     | _ => None end |}.
Definition said : list ServerMessage := [DownloadFinished 7; FederationFull known; TargetState machine (Some here); DownloadFinished 8].
Lemma limit_large : 2 < MAX_MESSAGE_BYTES.
Proof.
  unfold MAX_MESSAGE_BYTES. change 2 with (N.to_nat 2). apply Nat.compare_lt_iff. rewrite <-N2Nat.inj_compare. reflexivity.
Qed.
Lemma reads a b (m : ServerMessage) : from_slice [a; b] = Some m → newline ∉ [a; b] → reads_as [a; b; newline] m.
Proof.
  intros Hm Hnl. exists [a; b]. split_and!; [done|done|]. unfold decode.
  change (length [a; b]) with 2. rewrite (proj2 (Nat.leb_gt _ _) limit_large). by rewrite Hm.
Qed.
Lemma client_holds_what_is_said_witness :
  connect true ([0; 3; 10] ++ [1; 7; 10; 2; 0; 10; 3; 0; 10; 1; 8; 10] ++ [])%N
  = Ok {| federation := {| fed_revision := 6; targets := <[machine := here]> (targets known) |};
          heard := [DownloadFinished 7; DownloadFinished 8] |}
  ∧ connect true ([0; 4; 10] ++ [] ++ [])%N = Err (OtherProtocol 4).
Proof.
  split.
  - apply (client_holds_what_is_said 3 [] [] [] [0; 3; 10]%N said
             [[1; 7; 10]; [2; 0; 10]; [3; 0; 10]; [1; 8; 10]]%N []); [|repeat constructor|done].
    all: by apply reads; [|apply (bool_decide_unpack _); vm_compute].
  - apply (client_holds_what_is_said 4 [] [] [] [0; 4; 10]%N [] [] []); [|constructor|done].
    by apply reads; [|apply (bool_decide_unpack _); vm_compute].
Defined.
End Runs.
