(* ===== verification/Bridge.v ===== *)
(** The public rendezvous: [src/crates/bridge/src/lib.rs].

    The relay's tables, each locked region one operation; the packets that cross
    the tunnel; and the HTTP heads it reads and rewrites. Sockets and tasks are
    not modelled: a bounded channel is the list of what it holds, absent once
    its receiver is gone, and what a task does between two waits is one
    operation. A registered host and a device each have a channel of their own,
    named by the number they were given. Time is an instant in milliseconds. *)

From S2P Require Import Prelude Text Net Config Pairing.

Definition HOST_PATH : ustr := u "/_bridge/host/".
Definition DEVICE_PATH : ustr := u "/r/".
Definition ROUTE_CHARACTERS : nat := 32.
Definition SECRET_CHARACTERS : nat := 64.
Definition MAX_HTTP_HEAD_BYTES : nat := 64 * 256.
Definition MAX_TUNNEL_CHUNK_BYTES : nat := 128 * 256.
Definition MAX_PAIR_BODY_BYTES : nat := 4 * 256.
Definition MAX_PAIR_RESPONSE_BYTES : nat := 64 * 256.
Definition PACKET_QUEUE_DEPTH : nat := 32.
Definition MAX_ROUTES : nat := 16 * 256.
Definition MAX_DEVICES_PER_ROUTE : nat := 16.
Definition MAX_PAIR_SOURCES : nat := 16 * 256.
Definition MAX_PAIR_ATTEMPTS_PER_SOURCE : N := 10.
Definition PAIR_ATTEMPT_WINDOW : N := 10 * 60 * 1000.
Definition PAIRING_CODE_LIFETIME : N := 300 * 1000.

(** ** Packets *)

Definition OPEN : N := 1.
Definition DEVICE_DATA : N := 2.
Definition DEVICE_CLOSED : N := 3.
Definition HOST_DATA : N := 4.
Definition HOST_CLOSED : N := 5.
Definition PAIRING_CODE : N := 6.
Definition PACKET_HEAD_BYTES : nat := 9.

Record Packet := { kind : N; connection : N; payload : bytes }.
#[export] Instance Packet_eq_dec : EqDecision Packet.
Proof. solve_decision. Defined.

(** A WebSocket message; only binary ones carry packets. *)
Inductive Message := Binary (b : bytes) | OtherMessage.

(** [u64::to_be_bytes] and [u64::from_be_bytes], for any width. *)
Fixpoint to_be_bytes (width : nat) (n : N) : bytes :=
  match width with
  | O => []
  | S width' => to_be_bytes width' (n / 256) ++ [n mod 256]%N
  end.
Definition from_be_bytes (b : bytes) : N := foldl (λ n byte, 256 * n + byte)%N 0%N b.

Definition encode_packet (p : Packet) : Message :=
  Binary (kind p :: to_be_bytes 8 (connection p) ++ payload p).

Definition decode_packet (m : Message) : option Packet :=
  match m with
  | Binary b =>
      if (length b <? PACKET_HEAD_BYTES) || (PACKET_HEAD_BYTES + MAX_TUNNEL_CHUNK_BYTES <? length b)
      then None
      else
        k ← b !! 0;
        Some {| kind := k; connection := from_be_bytes (take 8 (drop 1 b));
                payload := drop PACKET_HEAD_BYTES b |}
  | OtherMessage => None
  end.

Definition bare (kind_ connection_ : N) : Packet :=
  {| kind := kind_; connection := connection_; payload := [] |}.

(** ** Checks *)

Definition ensure_route (route : ustr) : bool :=
  (utf8_len route =? ROUTE_CHARACTERS) && forallb is_ascii_hexdigit route.
Definition ensure_secret (secret : ustr) : bool :=
  (utf8_len secret =? SECRET_CHARACTERS) && forallb is_ascii_hexdigit secret.

Definition constant_time_eq (left right : bytes) : bool :=
  (length left =? length right)
  && (foldl (λ difference lr, N.lor difference (N.lxor lr.1 lr.2)) 0 (zip left right) =? 0)%N.

Inductive BaseUrlError := BaseNoScheme | BaseNotBare | BaseNotHttps.

Definition validate_base_url (url : ustr) : result BaseUrlError ustr :=
  let url := trim_end_char slash (trim url) in
  '(scheme, authority) ← ok_or (split_once (u "://") url) BaseNoScheme;
  if bool_decide (authority = [])
     || existsb (λ c, bool_decide (c ∈ [47; 63; 35]))%N authority
  then Err BaseNotBare
  else if bool_decide (scheme = u "https") then Ok url
  else if bool_decide (scheme = u "http")
          && (has_prefix (u "127.0.0.1:") authority || bool_decide (authority = u "127.0.0.1")
              || has_prefix (u "localhost:") authority || bool_decide (authority = u "localhost"))
  then Ok url
  else Err BaseNotHttps.

(** ** The relay's state *)

Record LiveRoute := { secret_digest : bytes; generation : N }.
Record CodeRoute := { cr_route : ustr; cr_generation : N; cr_expires_at : N }.
Record AttemptWindow := { opened_at : N; window_attempts : N }.

Record RelayState := {
  routes : gmap ustr LiveRoute;
  codes : gmap ustr (list CodeRoute);
  pair_attempts : gmap ustr AttemptWindow;
  next_generation : N;
  next_connection : N;
  hosts : gmap N (list Packet);       (** each registered host's channel *)
  live_devices : gmap N (gset N);     (** the device table of each registration *)
  device_queues : gmap N (list Packet);
}.
Definition RelayState_default : RelayState := {|
  routes := ∅; codes := ∅; pair_attempts := ∅; next_generation := 0; next_connection := 0;
  hosts := ∅; live_devices := ∅; device_queues := ∅ |}.

Definition set_routes (m : gmap ustr LiveRoute) (s : RelayState) : RelayState := {|
  routes := m; codes := codes s; pair_attempts := pair_attempts s;
  next_generation := next_generation s; next_connection := next_connection s;
  hosts := hosts s; live_devices := live_devices s; device_queues := device_queues s |}.
Definition set_codes (m : gmap ustr (list CodeRoute)) (s : RelayState) : RelayState := {|
  routes := routes s; codes := m; pair_attempts := pair_attempts s;
  next_generation := next_generation s; next_connection := next_connection s;
  hosts := hosts s; live_devices := live_devices s; device_queues := device_queues s |}.
Definition set_pair_attempts (m : gmap ustr AttemptWindow) (s : RelayState) : RelayState := {|
  routes := routes s; codes := codes s; pair_attempts := m;
  next_generation := next_generation s; next_connection := next_connection s;
  hosts := hosts s; live_devices := live_devices s; device_queues := device_queues s |}.
Definition set_counters (generation_ connection_ : N) (s : RelayState) : RelayState := {|
  routes := routes s; codes := codes s; pair_attempts := pair_attempts s;
  next_generation := generation_; next_connection := connection_;
  hosts := hosts s; live_devices := live_devices s; device_queues := device_queues s |}.
Definition set_channels (h : gmap N (list Packet)) (l : gmap N (gset N)) (q : gmap N (list Packet))
    (s : RelayState) : RelayState := {|
  routes := routes s; codes := codes s; pair_attempts := pair_attempts s;
  next_generation := next_generation s; next_connection := next_connection s;
  hosts := h; live_devices := l; device_queues := q |}.

(** [mpsc::Sender::try_send]: it fails when the channel is full or its receiver
    is gone. *)
Definition try_send (channel : N) (p : Packet) (m : gmap N (list Packet)) : gmap N (list Packet) * bool :=
  match m !! channel with
  | Some queue =>
      if length queue <? PACKET_QUEUE_DEPTH then (<[channel := queue ++ [p]]> m, true) else (m, false)
  | None => (m, false)
  end.
Definition send_device (c : N) (p : Packet) (s : RelayState) : RelayState * bool :=
  let '(q, sent) := try_send c p (device_queues s) in
  (set_channels (hosts s) (live_devices s) q s, sent).
Definition send_host (g : N) (p : Packet) (s : RelayState) : RelayState * bool :=
  let '(h, sent) := try_send g p (hosts s) in
  (set_channels h (live_devices s) (device_queues s) s, sent).

Definition devices_of (g : N) (s : RelayState) : gset N := default ∅ (live_devices s !! g).
Definition set_devices (g : N) (d : gset N) (s : RelayState) : RelayState :=
  set_channels (hosts s) (<[g := d]> (live_devices s)) (device_queues s) s.

(** Tell every device of a registration that its host is gone, and forget them. *)
Definition close_devices (g : N) (s : RelayState) : RelayState :=
  set_devices g ∅ (foldl (λ s c, (send_device c (bare HOST_CLOSED c) s).1) s (set_iter (devices_of g s))).

Section relay.
Context `{Sha256}.

Inductive RegisterError := BadRoute | BadSecret | RouteTaken | RoutesExhausted.

(** [RelayState::remove_codes]. *)
Definition without_route (route : ustr) (g : N) (m : gmap ustr (list CodeRoute)) : gmap ustr (list CodeRoute) :=
  filter (λ kv, kv.2 ≠ [])
    ((filter (λ held, cr_route held ≠ route ∨ cr_generation held ≠ g)) <$> m).
Definition remove_codes (route : ustr) (g : N) (s : RelayState) : RelayState :=
  set_codes (without_route route g (codes s)) s.

(** The locked part of [RelayState::register], with the generation replaced.
    The host's channel exists before. *)
Definition register_locked (route secret : ustr) (s : RelayState)
    : RelayState * result RegisterError (N * option N) :=
  if negb (ensure_route route) then (s, Err BadRoute)
  else if negb (ensure_secret secret) then (s, Err BadSecret)
  else
    let digest := sha256 (utf8 secret) in
    let g := next_generation s in
    let s := set_counters (u64_wrapping_add g 1) (next_connection s) s in
    let insert s :=
      set_channels (<[g := []]> (hosts s)) (<[g := ∅]> (live_devices s)) (device_queues s)
        (set_routes (<[route := {| secret_digest := digest; generation := g |}]> (routes s)) s) in
    match routes s !! route with
    | Some existing =>
        if negb (constant_time_eq (secret_digest existing) digest) then (s, Err RouteTaken)
        else (insert (close_devices (generation existing) s), Ok (g, Some (generation existing)))
    | None =>
        if MAX_ROUTES <=? size (routes s) then (s, Err RoutesExhausted)
        else (insert s, Ok (g, None))
    end.

(** [RelayState::register]. *)
Definition register (route secret : ustr) (s : RelayState) : RelayState * result RegisterError N :=
  match register_locked route secret s with
  | (s, Ok (g, Some replaced)) => (remove_codes route replaced s, Ok g)
  | (s, Ok (g, None)) => (s, Ok g)
  | (s, Err e) => (s, Err e)
  end.

(** The locked part of [RelayState::unregister]. *)
Definition unregister_locked (route : ustr) (g : N) (s : RelayState) : RelayState :=
  match routes s !! route with
  | Some live =>
      if (generation live =? g)%N
      then close_devices g (set_routes (delete route (routes s)) s)
      else s
  | None => s
  end.
Definition unregister (route : ustr) (g : N) (s : RelayState) : RelayState :=
  remove_codes route g (unregister_locked route g s).

Definition live_route (route : ustr) (s : RelayState) : option LiveRoute := routes s !! route.
(** The route, if this generation of it is still the live one. *)
Definition live_at (route : ustr) (g : N) (s : RelayState) : option LiveRoute :=
  live ← live_route route s; if (generation live =? g)%N then Some live else None.

(** ** Pairing codes *)

Definition unexpired (now : N) (m : gmap ustr (list CodeRoute)) : gmap ustr (list CodeRoute) :=
  filter (λ kv, kv.2 ≠ []) ((filter (λ held, (now < cr_expires_at held)%N)) <$> m).

(** [RelayState::register_code]. *)
Definition register_code (route : ustr) (g : N) (offered : bytes) (now : N) (s : RelayState) : RelayState :=
  let m := without_route route g (unexpired now (codes s)) in
  if bool_decide (offered = []) then set_codes m s
  else match from_utf8 offered with
       | None => set_codes m s
       | Some offered =>
           let code := normalize_code offered in
           if negb (utf8_len code =? CODE_CHARACTERS) then set_codes m s
           else set_codes (<[code := default [] (m !! code)
                                     ++ [{| cr_route := route; cr_generation := g;
                                            cr_expires_at := now + PAIRING_CODE_LIFETIME |}]]> m) s
       end.

(** [RelayState::route_for_code]. *)
Definition route_for_code (offered : ustr) (now : N) (s : RelayState)
    : RelayState * option (ustr * LiveRoute) :=
  let code := normalize_code offered in
  if negb (utf8_len code =? CODE_CHARACTERS) then (s, None)
  else
    let s := set_codes (unexpired now (codes s)) s in
    match codes s !! code with
    | Some [held] =>
        (s, live ← live_at (cr_route held) (cr_generation held) s; Some (cr_route held, live))
    | _ => (s, None)
    end.

(** ** Pairing attempts *)

Definition open_windows (now : N) (m : gmap ustr AttemptWindow) : gmap ustr AttemptWindow :=
  filter (λ kv, (now - opened_at kv.2 < PAIR_ATTEMPT_WINDOW)%N) m.

(** [RelayState::admit_pair_attempt]. *)
Definition admit_pair_attempt (source : ustr) (now : N) (s : RelayState) : RelayState * bool :=
  let m := open_windows now (pair_attempts s) in
  match m !! source with
  | None =>
      if MAX_PAIR_SOURCES <=? size m then (set_pair_attempts m s, false)
      else (set_pair_attempts (<[source := {| opened_at := now; window_attempts := 1 |}]> m) s, true)
  | Some w =>
      if (MAX_PAIR_ATTEMPTS_PER_SOURCE <=? window_attempts w)%N then (set_pair_attempts m s, false)
      else (set_pair_attempts
              (<[source := {| opened_at := opened_at w;
                              window_attempts := u32_saturating_add (window_attempts w) 1 |}]> m) s, true)
  end.

(** ** Devices *)

(** A browser's connection is given a number and a channel, if the host has room. *)
Definition insert_device (g : N) (s : RelayState) : RelayState * option N :=
  let c := next_connection s in
  let s := set_counters (next_generation s) (u64_wrapping_add c 1) s in
  if MAX_DEVICES_PER_ROUTE <=? size (devices_of g s) then (s, None)
  else
    let s := set_channels (hosts s) (live_devices s) (<[c := []]> (device_queues s)) s in
    (set_devices g ({[c]} ∪ devices_of g s) s, Some c).

(** The connection's number is forgotten and its channel closed. *)
Definition forget_device (g c : N) (s : RelayState) : RelayState :=
  let s := set_devices g (devices_of g s ∖ {[c]}) s in
  set_channels (hosts s) (live_devices s) (delete c (device_queues s)) s.

(** The host is told of the connection, with the request as it was rewritten. *)
Definition open_device (live : LiveRoute) (request : bytes) (s : RelayState) : RelayState * option N :=
  let g := generation live in
  match insert_device g s with
  | (s, None) => (s, None)
  | (s, Some c) =>
      let '(s, sent) := send_host g {| kind := OPEN; connection := c; payload := request |} s in
      if sent then (s, Some c) else (forget_device g c s, None)
  end.

(** What the device sends, while its connection lasts. *)
Definition device_data (g c : N) (data : bytes) (s : RelayState) : RelayState * bool :=
  send_host g {| kind := DEVICE_DATA; connection := c; payload := data |} s.

(** The end of a device's connection, of which the host is told. *)
Definition close_device (g c : N) (s : RelayState) : RelayState :=
  forget_device g c (send_host g (bare DEVICE_CLOSED c) s).1.
(** The device ended it: the loop tells the host, and so does what follows the loop. *)
Definition device_ended (g c : N) (s : RelayState) : RelayState :=
  close_device g c (send_host g (bare DEVICE_CLOSED c) s).1.

(** One message from the host registered on a route as generation [g]. *)
Definition host_message (route : ustr) (g : N) (m : Message) (now : N) (s : RelayState) : RelayState :=
  match decode_packet m with
  | None => s
  | Some p =>
      if (kind p =? PAIRING_CODE)%N then
        match live_at route g s with
        | Some _ => register_code route g (payload p) now s
        | None => s
        end
      else if negb ((kind p =? HOST_DATA) || (kind p =? HOST_CLOSED))%N then s
      else
        match live_at route g s with
        | None => s
        | Some _ =>
            if bool_decide (connection p ∈ devices_of g s) then
              let '(s, sent) := send_device (connection p) p s in
              if sent then s
              else (send_host g (bare DEVICE_CLOSED (connection p))
                      (set_devices g (devices_of g s ∖ {[connection p]}) s)).1
            else s
        end
  end.

(** The host's socket ends: its channel closes and the route is given up. *)
Definition host_gone (route : ustr) (g : N) (s : RelayState) : RelayState :=
  unregister route g (set_channels (delete g (hosts s)) (live_devices s) (device_queues s) s).
End relay.

(** ** HTTP heads *)

Record ParsedRequest := { pr_method : ustr; pr_path : ustr; pr_length : N }.

(** [find_map]. *)
Fixpoint find_map {A B} (f : A → option B) (l : list A) : option B :=
  match l with
  | [] => None
  | a :: l' => match f a with Some b => Some b | None => find_map f l' end
  end.

(** The value of the first line that is a given header and reads as something. *)
Definition header_value {A} (name : string) (read : ustr → option A) (text : ustr) : option A :=
  find_map (λ line, '(n, value) ← split_once (u ":") line;
                    if eq_ignore_ascii_case n (u name) then read value else None) (lines text).

Definition parse_request (head_ : bytes) : option ParsedRequest :=
  text ← from_utf8 head_;
  match split_whitespace (default [] (head (lines text))) with
  | method :: path :: _ =>
      Some {| pr_method := method; pr_path := path;
              pr_length := default 0%N (header_value "content-length"
                             (λ value, parse_unsigned u64_max (trim value)) text) |}
  | _ => None
  end.

Definition crlf : ustr := [13; 10]%N.
Definition forwarded_header : ustr := u "X-Forwarded-Proto: https" ++ crlf.

Definition rewrite_request_target (head_ : bytes) (local_target : ustr) : option bytes :=
  text ← from_utf8 head_;
  '(first, rest) ← split_once [10%N] text;
  match split_whitespace first with
  | method :: _ :: version :: _ =>
      let rewritten := utf8 (method ++ u " " ++ local_target ++ u " " ++ version ++ crlf) ++ utf8 rest in
      if length rewritten <? 2 then None
      else
        let insertion := length rewritten - 2 in
        let rewritten := take insertion rewritten ++ forwarded_header ++ drop insertion rewritten in
        if length rewritten <=? MAX_HTTP_HEAD_BYTES then Some rewritten else None
  | _ => None
  end.

Definition rewrite_device_request (head_ : bytes) (path : ustr) : option (ustr * bytes) :=
  rest ← strip_prefix DEVICE_PATH path;
  let '(route, suffix) := default (rest, []) (split_once [slash] rest) in
  let route := default [] (head (split_on 63 route)) in
  if negb (ensure_route route) then None
  else
    let query := snd <$> split_once (u "?") path in
    let local_path := slash :: suffix in
    let local_target :=
      match query with
      | Some query => if contains 63 local_path then local_path else local_path ++ u "?" ++ query
      | None => local_path
      end in
    rewritten ← rewrite_request_target head_ local_target;
    if length rewritten <=? MAX_HTTP_HEAD_BYTES then Some (route, rewritten) else None.

Definition bearer_secret (head_ : bytes) : option ustr :=
  text ← from_utf8 head_;
  header_value "authorization" (λ value, strip_prefix (u "Bearer ") (trim value)) text.

Definition pairing_source (head_ : bytes) : ustr :=
  match from_utf8 head_ with
  | None => u "direct"
  | Some text =>
      default (u "direct")
        (header_value "cf-connecting-ip" (λ value, display_ip <$> parse_ip (trim value)) text)
  end.

(** Keep a device's cookie under its own route, and never in the clear. *)
Definition scope_line (route_path line : ustr) : ustr :=
  (if has_prefix (u "set-cookie:") (to_ascii_lowercase line) then
     let line := replace_first (u "Path=/") (u "Path=" ++ route_path) line in
     if contains_str (u "; secure") (to_ascii_lowercase line) then line else line ++ u "; Secure"
   else line) ++ crlf.
Definition scope_pairing_response (response : bytes) (route : ustr) : option bytes :=
  text ← from_utf8 response;
  '(head_, body) ← split_once (crlf ++ crlf) text;
  if negb (match head (lines head_) with
           | Some status => has_prefix (u "HTTP/1.1 204 ") status
           | None => false
           end) then None
  else
    let route_path := DEVICE_PATH ++ route in
    Some (utf8 ((lines head_ ≫= scope_line route_path)
                ++ u "x-super-herdr-route: " ++ route_path ++ crlf ++ crlf ++ body)).

(** What a browser asks the bridge for. *)
Inductive PublicRequest :=
  | LoginPage
  | Health
  | TooManyAttempts
  | PairDevice (length_ : N)
  | HostSocket (route secret : ustr)
  | ToDevice (live : LiveRoute) (request : bytes)
  | Unavailable (status : string)
  | Dropped.

(** The dispatch of [handle_public_connection], up to what it then does. *)
Definition public_request (head_ : bytes) (now : N) (s : RelayState) : RelayState * PublicRequest :=
  match parse_request head_ with
  | None => (s, Dropped)
  | Some r =>
      if bool_decide (pr_method r = u "GET")
         && (bool_decide (pr_path r = u "/") || bool_decide (pr_path r = u "/index.html"))
      then (s, LoginPage)
      else if bool_decide (pr_path r = u "/_bridge/health") then (s, Health)
      else if bool_decide (pr_method r = u "POST") && bool_decide (pr_path r = u "/_bridge/pair") then
        let '(s, admitted) := admit_pair_attempt (pairing_source head_) now s in
        (s, if admitted then PairDevice (pr_length r) else TooManyAttempts)
      else
        match strip_prefix HOST_PATH (pr_path r) with
        | Some rest =>
            let route := default [] (head (split_at (λ c, (c =? 47) || (c =? 63))%N rest)) in
            let secret := default [] (bearer_secret head_) in
            (s, if ensure_route route && ensure_secret secret then HostSocket route secret else Dropped)
        | None =>
            match rewrite_device_request head_ (pr_path r) with
            | None => (s, Unavailable "404 Not Found")
            | Some (route, request) =>
                (s, match live_route route s with
                    | Some live => ToDevice live request
                    | None => Unavailable "503 Service Unavailable"
                    end)
            end
        end
  end.

(** ** Pairing through the bridge: [pair_device] *)

Inductive PairRefusal := BadLength | CodeUnreadable | NoSuchCode | Busy | RequestUnreadable | Offline.

(** The waiting connection, once the code's host is known. *)
Definition offer_pairing (head_ body : bytes) (route : ustr) (live : LiveRoute) (s : RelayState)
    : RelayState * result PairRefusal (ustr * LiveRoute * N) :=
  let g := generation live in
  match insert_device g s with
  | (s, None) => (s, Err Busy)
  | (s, Some c) =>
      match rewrite_request_target head_ (u "/pair") with
      | None => (forget_device g c s, Err RequestUnreadable)
      | Some request =>
          let request := request ++ body in
          if MAX_TUNNEL_CHUNK_BYTES <? length request then (forget_device g c s, Err Offline)
          else
            let '(s, sent) := send_host g {| kind := OPEN; connection := c; payload := request |} s in
            if sent then (s, Ok (route, live, c)) else (forget_device g c s, Err Offline)
      end
  end.

(** From the request and its body, in which [entered] is the text found at
    ["code"], to the waiting connection. *)
Definition enter_code (head_ body : bytes) (entered : option ustr) (now : N) (s : RelayState)
    : RelayState * result PairRefusal (ustr * LiveRoute * N) :=
  if (length body =? 0) || (MAX_PAIR_BODY_BYTES <? length body) then (s, Err BadLength)
  else match entered with
  | None => (s, Err CodeUnreadable)
  | Some entered =>
      match route_for_code entered now s with
      | (s, None) => (s, Err NoSuchCode)
      | (s, Some (route, live)) => offer_pairing head_ body route live s
      end
  end.

(** What the host answers, from the packets that came; [closed] when they end
    because the channel closed, and not because the time was up. *)
Fixpoint collect_response (packets : list Packet) (closed : bool) (response : bytes) : option bytes :=
  match packets with
  | [] => if closed then Some response else None
  | p :: rest =>
      if (kind p =? HOST_DATA)%N then
        if MAX_PAIR_RESPONSE_BYTES <? length response + length (payload p) then None
        else collect_response rest closed (response ++ payload p)
      else if (kind p =? HOST_CLOSED)%N then Some response
      else collect_response rest closed response
  end.

(** The connection is closed, the code is spent unless the answer asks for
    another name, and the answer is passed on. *)
Definition finish_pairing (route : ustr) (live : LiveRoute) (c : N) (response : option bytes) (s : RelayState)
    : RelayState * option bytes :=
  let g := generation live in
  let s := close_device g c s in
  match response with
  | None | Some [] => (s, None)
  | Some response =>
      (if has_prefix (u "HTTP/1.1 409 Conflict" ++ crlf) response then s else remove_codes route g s,
       Some (default response (scope_pairing_response response route)))
  end.

Definition ex_route : ustr := repeat 97%N 32.

(** A device's request, as the host sees it. *)
Example rewritten_request :
  rewrite_device_request
    (utf8 (u "GET /r/" ++ ex_route ++ u "/events?x=1 HTTP/1.1" ++ crlf ++ u "Host: b" ++ crlf ++ crlf))
    (u "/r/" ++ ex_route ++ u "/events?x=1")
  = Some (ex_route, utf8 (u "GET /events?x=1 HTTP/1.1" ++ crlf ++ u "Host: b" ++ crlf
                          ++ u "X-Forwarded-Proto: https" ++ crlf ++ crlf)).
Proof. vm_compute. reflexivity. Qed.

Example scoped_response :
  scope_pairing_response
    (utf8 (u "HTTP/1.1 204 No Content" ++ crlf ++ u "set-cookie: sh_device=1; Path=/; HttpOnly" ++ crlf ++ crlf))
    ex_route
  = Some (utf8 (u "HTTP/1.1 204 No Content" ++ crlf
                ++ u "set-cookie: sh_device=1; Path=/r/" ++ ex_route ++ u "; HttpOnly; Secure" ++ crlf
                ++ u "x-super-herdr-route: /r/" ++ ex_route ++ crlf ++ crlf)).
Proof. vm_compute. reflexivity. Qed.

(** A head that ends its lines with a bare line feed, which the bridge accepts,
    is mangled: the inserted header joins the last one. *)
Example bare_line_feeds_mangled :
  rewrite_device_request
    (utf8 (u "GET /r/" ++ ex_route ++ u "/ HTTP/1.1" ++ [10%N] ++ u "Host: b" ++ [10%N; 10%N]))
    (u "/r/" ++ ex_route ++ u "/")
  = Some (ex_route, utf8 (u "GET / HTTP/1.1" ++ crlf
                          ++ u "Host: bX-Forwarded-Proto: https" ++ crlf ++ [10%N; 10%N])).
Proof. vm_compute. reflexivity. Qed.
