(* ===== verification/BridgeFacts.v ===== *)
(** What the relay guarantees: its tables stay well formed and bounded, a device
    hears only its own host, a pairing code leads only to the one host that
    published it, and entering codes is limited. *)

From S2P Require Import Prelude Text Net Config Pairing Bridge.

(** ** Packets *)

Definition is_byte (b : N) : Prop := (b < 256)%N.

Lemma length_to_be width n : length (to_be_bytes width n) = width.
Proof.
  revert n. induction width as [|width IH]; intros n; [done|]. cbn [to_be_bytes].
  rewrite length_app, IH. simpl. lia.
Qed.

Lemma from_be_snoc b x : from_be_bytes (b ++ [x]) = (256 * from_be_bytes b + x)%N.
Proof. unfold from_be_bytes. by rewrite foldl_app. Qed.

Lemma from_to_be width n : (n < 256 ^ N.of_nat width)%N → from_be_bytes (to_be_bytes width n) = n.
Proof.
  revert n. induction width as [|width IH]; intros n Hn; [simpl in *; unfold from_be_bytes; simpl; lia|].
  cbn [to_be_bytes]. rewrite from_be_snoc, IH.
  - symmetry. apply N.div_mod. done.
  - rewrite Nat2N.inj_succ, N.pow_succ_r' in Hn. by apply N.Div0.div_lt_upper_bound.
Qed.

Lemma to_from_be b : Forall is_byte b → to_be_bytes (length b) (from_be_bytes b) = b.
Proof.
  induction b as [|x b IH] using rev_ind; [done|]. intros [Hb Hx]%Forall_app.
  rewrite from_be_snoc, length_app, Nat.add_comm. cbn [length Nat.add to_be_bytes].
  rewrite Forall_singleton in Hx. unfold is_byte in Hx.
  pose proof (N.div_unique (256 * from_be_bytes b + x) 256 (from_be_bytes b) x Hx eq_refl) as Hq.
  f_equal; [rewrite <-Hq; auto|].
  f_equal. symmetry. by apply (N.mod_unique _ 256 (from_be_bytes b)).
Qed.

Lemma from_be_bound b : Forall is_byte b → (from_be_bytes b < 256 ^ N.of_nat (length b))%N.
Proof.
  induction b as [|x b IH] using rev_ind; [done|]. intros [Hb Hx]%Forall_app.
  rewrite Forall_singleton in Hx. unfold is_byte in Hx. specialize (IH Hb).
  rewrite from_be_snoc, length_app, Nat.add_comm. cbn [length Nat.add].
  rewrite Nat2N.inj_succ, N.pow_succ_r'. lia.
Qed.

(** Packets cross the tunnel unchanged: one whose connection is a 64-bit
    number and whose payload is at most 32 KiB is decoded from its own encoding;
    a longer one is refused; and whatever is decoded is within these bounds and
    encodes to exactly the bytes it came from. *)
Theorem packet_roundtrip :
  (∀ p, (connection p ≤ u64_max)%N →
     decode_packet (encode_packet p)
     = if length (payload p) <=? MAX_TUNNEL_CHUNK_BYTES then Some p else None) ∧
  (∀ b p, Forall is_byte b → decode_packet (Binary b) = Some p →
     encode_packet p = Binary b ∧ (connection p ≤ u64_max)%N ∧
     length (payload p) ≤ MAX_TUNNEL_CHUNK_BYTES).
Proof.
  split.
  - intros [k c p] Hc. simpl in Hc. unfold encode_packet, decode_packet. cbn [kind connection payload].
    pose proof (length_to_be 8 c) as Hl. change (k :: to_be_bytes 8 c ++ p) with ([k] ++ to_be_bytes 8 c ++ p).
    rewrite !length_app, Hl. change (length [k]) with 1. unfold PACKET_HEAD_BYTES.
    destruct (Nat.ltb_spec (1 + (8 + length p)) 9) as [|_]; [lia|]. rewrite orb_false_l.
    destruct (Nat.ltb_spec (9 + MAX_TUNNEL_CHUNK_BYTES) (1 + (8 + length p))),
             (Nat.leb_spec (length p) MAX_TUNNEL_CHUNK_BYTES); try lia; [done|].
    change (([k] ++ to_be_bytes 8 c ++ p) !! 0) with (Some k).
    change (drop 1 ([k] ++ to_be_bytes 8 c ++ p)) with (to_be_bytes 8 c ++ p).
    change (drop 9 ([k] ++ to_be_bytes 8 c ++ p)) with (drop 8 (to_be_bytes 8 c ++ p)).
    cbn [mbind option_bind]. do 2 f_equal.
    rewrite take_app_length' by done. apply from_to_be. unfold u64_max in Hc.
    change (256 ^ N.of_nat 8)%N with 18446744073709551616%N. lia.
  - intros b p Hb. unfold decode_packet, PACKET_HEAD_BYTES.
    destruct (Nat.ltb_spec (length b) 9); [done|].
    destruct (Nat.ltb_spec (9 + MAX_TUNNEL_CHUNK_BYTES) (length b)); [done|]. cbn [orb].
    destruct b as [|k b]; [done|]. cbn [lookup list_lookup mbind option_bind]. intros [= <-].
    apply Forall_cons in Hb as [_ Hb]. cbn [encode_packet kind connection payload drop length] in *.
    assert (length (take 8 b) = 8) as Hl by (rewrite length_take; lia).
    assert (Forall is_byte (take 8 b)) as Ht by by apply Forall_take.
    split; [|split].
    + unfold encode_packet. cbn [kind connection payload]. rewrite <-Hl at 1.
      rewrite to_from_be by done. by rewrite take_drop.
    + pose proof (from_be_bound _ Ht) as Hbnd. rewrite Hl in Hbnd. unfold u64_max.
      change (256 ^ N.of_nat 8)%N with 18446744073709551616%N in Hbnd.
      change (from_be_bytes (take 8 b) ≤ 18446744073709551615)%N. lia.
    + rewrite length_drop. lia.
Qed.

(** ** Entering codes *)

(** The attempts let through, of those made, in order. *)
Fixpoint admissions (attempts_ : list (ustr * N)) (s : RelayState) : RelayState * list (ustr * N) :=
  match attempts_ with
  | [] => (s, [])
  | (source, now) :: rest =>
      let '(s, admitted) := admit_pair_attempt source now s in
      let '(s, l) := admissions rest s in
      (s, if admitted then (source, now) :: l else l)
  end.

Definition within (source : ustr) (t : N) (a : ustr * N) : bool :=
  bool_decide (a.1 = source) && ((t <=? a.2) && (a.2 <? t + PAIR_ATTEMPT_WINDOW))%N.
Definition count_within (source : ustr) (t : N) (l : list (ustr * N)) : N :=
  N.of_nat (sum_list_with (λ a, Nat.b2n (within source t a)) l).

(** The last window opened for a source, and the attempts let through in it. *)
Definition last_window : Type := option (N * N).

(** What is known of a source when [seen] of its attempts were let through from
    [t] on, the last one tried at [now]. *)
Definition window_inv (source : ustr) (t now seen : N) (last_ : last_window) (s : RelayState) : Prop :=
  match pair_attempts s !! source with
  | Some w => last_ = Some (opened_at w, window_attempts w)
  | None => match last_ with Some (o, _) => (o + PAIR_ATTEMPT_WINDOW ≤ now)%N | None => True end
  end ∧
  match last_ with
  | None => seen = 0%N
  | Some (o, k) =>
      (o ≤ now ∧ k ≤ MAX_PAIR_ATTEMPTS_PER_SOURCE ∧
       (o < t → seen ≤ k) ∧ (t ≤ o → o < t + PAIR_ATTEMPT_WINDOW → seen ≤ 10 + k) ∧ seen ≤ 20)%N
  end ∧
  (now < t → seen = 0)%N.

Lemma window_inv_later source t now now' seen last_ s :
  (now ≤ now')%N → (now' < t → seen = 0)%N →
  window_inv source t now seen last_ s → window_inv source t now' seen last_ s.
Proof.
  intros Hle H0 (H1 & H2 & H3). split; [|split; [|done]].
  - destruct (pair_attempts s !! source); [done|]. destruct last_ as [[o k]|]; [lia|done].
  - destruct last_ as [[o k]|]; [naive_solver lia|done].
Qed.

Lemma open_windows_lookup now m source :
  open_windows now m !! source =
    (w ← m !! source; if (now - opened_at w <? PAIR_ATTEMPT_WINDOW)%N then Some w else None).
Proof.
  unfold open_windows. destruct (m !! source) as [w|] eqn:E; cbn [mbind option_bind].
  - destruct (N.ltb_spec (now - opened_at w) PAIR_ATTEMPT_WINDOW).
    + by apply map_lookup_filter_Some.
    + apply map_lookup_filter_None. right. intros w' Hw'. simplify_eq. simpl. lia.
  - apply map_lookup_filter_None. by left.
Qed.

(** One attempt. *)
Lemma window_inv_step source t now now' seen last_ s who s' admitted :
  (now ≤ now')%N → window_inv source t now seen last_ s →
  admit_pair_attempt who now' s = (s', admitted) →
  ∃ last', window_inv source t now'
    (seen + if admitted && within source t (who, now') then 1 else 0)%N last' s'.
Proof.
  intros Hle Hinv. pose proof Hinv as (H1 & H2 & H3). unfold admit_pair_attempt.
  (* what dropping the closed windows leaves *)
  set (m := open_windows now' (pair_attempts s)).
  assert (window_inv source t now' seen last_ (set_pair_attempts m s)) as Hopen.
  { split; [|split].
    - cbn [pair_attempts set_pair_attempts]. unfold m. rewrite open_windows_lookup.
      destruct (pair_attempts s !! source) as [w|]; cbn [mbind option_bind].
      + rewrite H1 in H2 |- *. destruct (N.ltb_spec (now' - opened_at w) PAIR_ATTEMPT_WINDOW); [done|lia].
      + destruct last_ as [[o k]|]; [lia|done].
    - destruct last_ as [[o k]|]; [naive_solver lia|done].
    - intros Hlt. apply H3. lia. }
  assert (∀ w, who ≠ source → window_inv source t now' seen last_ (set_pair_attempts (<[who := w]> m) s)) as Hother.
  { intros w Hne. destruct Hopen as [Ho Hrest]. split; [|done].
    cbn [pair_attempts set_pair_attempts] in *. by rewrite lookup_insert_ne. }
  destruct (decide (who = source)) as [->|Hne].
  2: { assert (within source t (who, now') = false) as ->
         by (unfold within; by rewrite bool_decide_eq_false_2).
       rewrite andb_false_r, N.add_0_r. destruct (m !! who) as [w|].
       - destruct (_ <=? window_attempts w)%N; intros [= <- <-]; exists last_; [done|by apply Hother].
       - destruct (_ <=? size m); intros [= <- <-]; exists last_; [done|by apply Hother]. }
  assert (within source t (source, now') = ((t <=? now') && (now' <? t + PAIR_ATTEMPT_WINDOW))%N) as Hw
    by (unfold within; by rewrite bool_decide_eq_true_2).
  rewrite Hw. clear Hw Hother. destruct Hopen as (Ho & Hl & _). cbn [pair_attempts set_pair_attempts] in Ho.
  destruct (m !! source) as [w|] eqn:Em.
  - rewrite Ho in Hl. destruct (N.leb_spec MAX_PAIR_ATTEMPTS_PER_SOURCE (window_attempts w)) as [|Hk];
      intros [= <- <-].
    + exists last_. cbn [andb]. rewrite N.add_0_r. split; [cbn; by rewrite Em|]. split; [by rewrite Ho|].
      intros ?. apply H3. lia.
    + unfold u32_saturating_add, u32_max, MAX_PAIR_ATTEMPTS_PER_SOURCE in *.
      rewrite N.min_l by lia. exists (Some (opened_at w, window_attempts w + 1)%N).
      split; [cbn; by rewrite lookup_insert_eq|].
      destruct (N.leb_spec t now'), (N.ltb_spec now' (t + PAIR_ATTEMPT_WINDOW)); cbn [andb];
        (split; [|lia]); unfold MAX_PAIR_ATTEMPTS_PER_SOURCE; try (assert (seen = 0)%N by (apply H3; lia)); lia.
  - destruct (Nat.leb_spec MAX_PAIR_SOURCES (size m)); intros [= <- <-].
    + exists last_. cbn [andb]. rewrite N.add_0_r. split; [cbn; by rewrite Em|]. split; [done|].
      intros ?. apply H3. lia.
    + exists (Some (now', 1)%N). split; [cbn; by rewrite lookup_insert_eq|].
      assert (now' < t → seen = 0)%N as Hz by (intros; apply H3; lia).
      assert (t ≤ now' → now' < t + PAIR_ATTEMPT_WINDOW → seen ≤ 10)%N as Hten.
      { intros. destruct last_ as [[o k]|]; [|lia]. unfold MAX_PAIR_ATTEMPTS_PER_SOURCE in *. lia. }
      assert (seen ≤ 20)%N by (destruct last_ as [[o k]|]; lia).
      unfold MAX_PAIR_ATTEMPTS_PER_SOURCE.
      destruct (N.leb_spec t now'), (N.ltb_spec now' (t + PAIR_ATTEMPT_WINDOW)); cbn [andb];
        (split; [|lia]); lia.
Qed.

Lemma admissions_window source t attempts_ now seen last_ s s' l :
  window_inv source t now seen last_ s → (∀ a, a ∈ attempts_ → (now ≤ a.2)%N) →
  StronglySorted (λ a b, (a.2 ≤ b.2)%N) attempts_ → admissions attempts_ s = (s', l) →
  (seen + count_within source t l ≤ 20)%N.
Proof.
  revert now seen last_ s s' l. induction attempts_ as [|[who now'] rest IH];
    intros now seen last_ s s' l Hinv Hnow Hsort; cbn [admissions].
  { intros [= <- <-]. unfold count_within; simpl. destruct Hinv as (_ & Hl & _).
    destruct last_ as [[o k]|]; lia. }
  destruct (admit_pair_attempt who now' s) as [s1 admitted] eqn:Ea.
  destruct (admissions rest s1) as [s2 l'] eqn:Er. intros [= <- <-].
  apply StronglySorted_inv in Hsort as [Hsort Hall].
  destruct (window_inv_step source t now now' seen last_ s who s1 admitted) as [last' Hinv']; [|done|done|].
  { apply (Hnow (who, now')). by left. }
  assert (∀ a, a ∈ rest → (now' ≤ a.2)%N) as Hlater
    by (intros a Ha; rewrite Forall_forall in Hall; exact (Hall a Ha)).
  pose proof (IH _ _ _ _ _ _ Hinv' Hlater Hsort Er) as HIH.
  destruct admitted; cbn [andb] in HIH; [|by rewrite N.add_0_r in HIH].
  unfold count_within in *. cbn [sum_list_with]. destruct (within source t (who, now')); simpl in *; lia.
Qed.

(** What one attempt keeps of the bounds. *)
Definition attempts_bounded (s : RelayState) : Prop :=
  size (pair_attempts s) ≤ MAX_PAIR_SOURCES ∧
  map_Forall (λ _ w, (window_attempts w ≤ MAX_PAIR_ATTEMPTS_PER_SOURCE)%N) (pair_attempts s).

Lemma admit_bounds who now s s' admitted :
  attempts_bounded s → admit_pair_attempt who now s = (s', admitted) → attempts_bounded s'.
Proof.
  intros [Hsize Hall]. unfold admit_pair_attempt, attempts_bounded.
  assert (size (open_windows now (pair_attempts s)) ≤ size (pair_attempts s)) as Hle
    by apply map_size_filter.
  assert (map_Forall (λ _ w, (window_attempts w ≤ MAX_PAIR_ATTEMPTS_PER_SOURCE)%N)
            (open_windows now (pair_attempts s))) as Hopen.
  { intros k w [Hk _]%map_lookup_filter_Some. by eapply Hall. }
  destruct (open_windows now (pair_attempts s) !! who) as [w|] eqn:E.
  - destruct (N.leb_spec MAX_PAIR_ATTEMPTS_PER_SOURCE (window_attempts w)); intros [= <- <-];
      cbn [pair_attempts set_pair_attempts].
    + split; [lia|done].
    + split; [rewrite map_size_insert_Some by eauto; lia|].
      apply map_Forall_insert_2; [|done]. unfold u32_saturating_add. cbn [window_attempts]. lia.
  - destruct (Nat.leb_spec MAX_PAIR_SOURCES (size (open_windows now (pair_attempts s)))); intros [= <- <-];
      cbn [pair_attempts set_pair_attempts].
    + split; [lia|done].
    + split; [rewrite map_size_insert_None by done; lia|].
      apply map_Forall_insert_2; [done|]. done.
Qed.

(** Guessing codes at the bridge is slow: from an empty relay, whatever the
    sources try and whenever, of the attempts of one source at most ten are let
    through in a window, and at most twenty in any ten minutes, however they
    fall; and never more than 4096 sources are remembered. *)
Theorem pair_attempts_bounded (attempts_ : list (ustr * N)) s l source t :
  StronglySorted (λ a b, (a.2 ≤ b.2)%N) attempts_ →
  admissions attempts_ RelayState_default = (s, l) →
  l `sublist_of` attempts_ ∧ (count_within source t l ≤ 20)%N ∧
  size (pair_attempts s) ≤ MAX_PAIR_SOURCES ∧
  map_Forall (λ _ w, (window_attempts w ≤ MAX_PAIR_ATTEMPTS_PER_SOURCE)%N) (pair_attempts s).
Proof.
  intros Hsort Hadm. split; [|split].
  - revert Hadm. generalize RelayState_default. clear Hsort. revert s l.
    induction attempts_ as [|[who now] rest IH]; intros s l s0; cbn [admissions].
    { by intros [= <- <-]. }
    destruct (admit_pair_attempt who now s0) as [s1 admitted].
    destruct (admissions rest s1) as [s2 l'] eqn:Er. intros [= <- <-].
    destruct admitted; [apply sublist_skip|apply sublist_cons]; by eapply IH.
  - change (count_within source t l) with (0 + count_within source t l)%N.
    eapply (admissions_window source t attempts_ 0 0 None); [|by intros; lia|done|done].
    split; [|split]; [|done|done]. cbn. by rewrite lookup_empty.
  - revert Hadm.
    change (admissions attempts_ RelayState_default = (s, l) → attempts_bounded s).
    assert (∀ s0, attempts_bounded s0 → admissions attempts_ s0 = (s, l) → attempts_bounded s) as Hgen.
    2: { apply Hgen. split; [|apply map_Forall_empty]. cbn. rewrite map_size_empty. lia. }
    clear Hsort. revert s l. induction attempts_ as [|[who now] rest IH]; intros s l s0 Hs0; cbn [admissions].
    { by intros [= <- <-]. }
    destruct (admit_pair_attempt who now s0) as [s1 admitted] eqn:Ea.
    destruct (admissions rest s1) as [s2 l'] eqn:Er. intros [= <- _].
    eapply IH; [|exact Er]. by eapply admit_bounds.
Qed.

(** Twelve attempts in a row, of which ten are let through. *)
Definition ex_attempts : list (ustr * N) := (λ k, (u "203.0.113.7", N.of_nat k)) <$> seq 0 12.

Lemma pair_attempts_bounded_witness :
  length (admissions ex_attempts RelayState_default).2 = 10 ∧
  (count_within (u "203.0.113.7") 0 (admissions ex_attempts RelayState_default).2 ≤ 20)%N.
Proof.
  split; [by vm_compute|].
  apply (pair_attempts_bounded ex_attempts (admissions ex_attempts RelayState_default).1); [|by vm_compute].
  vm_compute. repeat constructor; done.
Defined.
