(* ===== verification/BridgeRelay.v ===== *)
(** The relay as it runs: what happens to it, in any order, and what stays true
    of its tables, its channels and its pairing codes. *)

From S2P Require Import Prelude Text Net Config Pairing Bridge BridgeFacts.

(** What can happen to the relay. The host and device tasks act for the
    generation, the connection and the route they were started with, live or not. *)
Inductive RelayEvent :=
  | Registered (route secret : ustr)
  | HostSent (route : ustr) (g : N) (m : Message) (now : N)
  | HostRead (g : N)
  | HostLeft (route : ustr) (g : N)
  | DeviceOpened (live : LiveRoute) (request : bytes)
  | DeviceSent (g c : N) (data : bytes)
  | DeviceRead (c : N)
  | DeviceLeft (g c : N)
  | DeviceEnded (g c : N)
  | CodeEntered (head_ body : bytes) (entered : option ustr) (now : N)
  | PairingAnswered (route : ustr) (live : LiveRoute) (c : N) (response : option bytes)
  | PairAttempted (source : ustr) (now : N).

(** [mpsc::Receiver::recv]: the oldest packet is taken. *)
Definition received (channel : N) (m : gmap N (list Packet)) : gmap N (list Packet) := alter tail channel m.

Section run.
Context `{Sha256}.

Definition relay_step (e : RelayEvent) (s : RelayState) : RelayState :=
  match e with
  | Registered route secret => (register route secret s).1
  | HostSent route g m now => host_message route g m now s
  | HostRead g => set_channels (received g (hosts s)) (live_devices s) (device_queues s) s
  | HostLeft route g => host_gone route g s
  | DeviceOpened live request => (open_device live request s).1
  | DeviceSent g c data => (device_data g c data s).1
  | DeviceRead c => set_channels (hosts s) (live_devices s) (received c (device_queues s)) s
  | DeviceLeft g c => close_device g c s
  | DeviceEnded g c => device_ended g c s
  | CodeEntered head_ body entered now => (enter_code head_ body entered now s).1
  | PairingAnswered route live c response => (finish_pairing route live c response s).1
  | PairAttempted source now => (admit_pair_attempt source now s).1
  end.

Definition relay_run (events : list RelayEvent) : RelayState :=
  foldl (λ s e, relay_step e s) RelayState_default events.
End run.

(** ** What stays true of the tables and the channels *)

Definition from_host (p : Packet) : Prop := kind p = HOST_DATA ∨ kind p = HOST_CLOSED.
Definition queue_ok (q : list Packet) : Prop := length q ≤ PACKET_QUEUE_DEPTH.

(** What a relay that [n] things have happened to is. *)
Record relay_ok (n : N) (s : RelayState) : Prop := {
  ok_routes : size (routes s) ≤ MAX_ROUTES;
  ok_route_names : map_Forall (λ route live, ensure_route route = true ∧ (generation live < next_generation s)%N) (routes s);
  ok_generations : ∀ r1 r2 l1 l2, routes s !! r1 = Some l1 → routes s !! r2 = Some l2 →
    generation l1 = generation l2 → r1 = r2;
  ok_attempts : attempts_bounded s;
  ok_hosts : map_Forall (λ _ q, queue_ok q) (hosts s);
  ok_queues : map_Forall (λ c q, queue_ok q ∧ Forall (λ p, connection p = c ∧ from_host p) q) (device_queues s);
  ok_tables : map_Forall (λ _ (d : gset N), size d ≤ MAX_DEVICES_PER_ROUTE) (live_devices s);
  ok_devices : ∀ g c, c ∈ devices_of g s → (c < next_connection s)%N;
  ok_owner : ∀ g1 g2 c, c ∈ devices_of g1 s → c ∈ devices_of g2 s → g1 = g2;
  ok_codes : map_Forall (λ code l, l ≠ [] ∧ utf8_len code = CODE_CHARACTERS) (codes s);
  ok_counters : (next_generation s ≤ n ∧ next_connection s ≤ n)%N;
}.

Lemma relay_ok_later n n' s : (n ≤ n')%N → relay_ok n s → relay_ok n' s.
Proof. intros Hle []. split; try done. lia. Qed.

Lemma devices_of_insert g d g' s h q :
  devices_of g' (set_channels h (<[g := d]> (live_devices s)) q s) = if decide (g = g') then d else devices_of g' s.
Proof.
  unfold devices_of. cbn [live_devices set_channels].
  case_decide; [subst; by rewrite lookup_insert_eq|by rewrite lookup_insert_ne].
Qed.

Lemma try_send_ok (P : N → list Packet → Prop) c p m :
  (∀ q, m !! c = Some q → length q < PACKET_QUEUE_DEPTH → P c q → P c (q ++ [p])) →
  map_Forall P m → map_Forall P (try_send c p m).1.
Proof.
  intros HP Hm. unfold try_send. destruct (m !! c) as [q|] eqn:E; [|done].
  destruct (Nat.ltb_spec (length q) PACKET_QUEUE_DEPTH); [|done].
  apply map_Forall_insert_2; [|done]. apply HP; [done|done|by eapply Hm].
Qed.

Lemma queue_ok_push q p : length q < PACKET_QUEUE_DEPTH → queue_ok (q ++ [p]).
Proof. unfold queue_ok. rewrite length_app. simpl. lia. Qed.

(** The channels alone: what keeps them keeps the relay. *)
Lemma set_channels_ok n h l q s :
  relay_ok n s →
  map_Forall (λ _ q, queue_ok q) h →
  map_Forall (λ c q, queue_ok q ∧ Forall (λ p, connection p = c ∧ from_host p) q) q →
  map_Forall (λ _ (d : gset N), size d ≤ MAX_DEVICES_PER_ROUTE) l →
  (∀ g, devices_of g (set_channels h l q s) ⊆ devices_of g s) →
  relay_ok n (set_channels h l q s).
Proof. intros [] Hh Hq Hl Hd. split; try done; set_solver. Qed.

Lemma send_device_ok n c p s :
  connection p = c → from_host p → relay_ok n s → relay_ok n (send_device c p s).1.
Proof.
  intros Hc Hk Hs. unfold send_device. destruct (try_send c p (device_queues s)) as [q sent] eqn:E.
  cbn [fst]. replace q with (try_send c p (device_queues s)).1 by by rewrite E.
  apply set_channels_ok; try apply Hs; [|done].
  apply try_send_ok; [|apply Hs]. intros q0 _ Hlen [_ Hq0]. split; [by apply queue_ok_push|].
  apply Forall_app. split; [done|]. by apply Forall_singleton.
Qed.

Lemma send_host_ok n g p s : relay_ok n s → relay_ok n (send_host g p s).1.
Proof.
  intros Hs. unfold send_host. destruct (try_send g p (hosts s)) as [h sent] eqn:E.
  cbn [fst]. replace h with (try_send g p (hosts s)).1 by by rewrite E.
  apply set_channels_ok; try apply Hs; [|done].
  apply try_send_ok; [|apply Hs]. intros q0 _ Hlen _. by apply queue_ok_push.
Qed.

Lemma size_devices n g s : relay_ok n s → size (devices_of g s) ≤ MAX_DEVICES_PER_ROUTE.
Proof.
  intros Hs. unfold devices_of. destruct (live_devices s !! g) as [d|] eqn:E; [by eapply (ok_tables n s Hs)|].
  cbn [default from_option]. rewrite size_empty. lia.
Qed.

Lemma set_devices_ok n g d s : d ⊆ devices_of g s → relay_ok n s → relay_ok n (set_devices g d s).
Proof.
  intros Hd Hs. unfold set_devices. apply set_channels_ok; try apply Hs.
  - apply map_Forall_insert_2; [|apply Hs]. etrans; [by apply subseteq_size|by eapply size_devices].
  - intros g'. rewrite devices_of_insert. case_decide; by subst.
Qed.

Lemma drop_channels_ok n h q s :
  h ⊆ hosts s → q ⊆ device_queues s → relay_ok n s → relay_ok n (set_channels h (live_devices s) q s).
Proof.
  intros Hh Hq Hs. apply set_channels_ok; try apply Hs; [| |done].
  - intros k x Hk. eapply (ok_hosts n s Hs k). by eapply lookup_weaken.
  - intros k x Hk. eapply (ok_queues n s Hs k). by eapply lookup_weaken.
Qed.

Lemma received_ok (P : N → list Packet → Prop) c m :
  (∀ c p q, P c (p :: q) → P c q) → map_Forall P m → map_Forall P (received c m).
Proof.
  intros HP Hm k x. unfold received. destruct (decide (c = k)) as [->|Hne].
  - rewrite lookup_alter_eq. destruct (m !! k) as [q|] eqn:E; [|done]. cbn. intros [= <-].
    specialize (Hm _ _ E). destruct q as [|p q]; [done|]. by eapply HP.
  - rewrite lookup_alter_ne by done. apply Hm.
Qed.

Lemma close_devices_ok n g s : relay_ok n s → relay_ok n (close_devices g s).
Proof.
  intros Hs. unfold close_devices.
  assert (∀ l s, relay_ok n s →
    relay_ok n (foldl (λ s c, (send_device c (bare HOST_CLOSED c) s).1) s l)) as Hfold.
  { induction l as [|c l IH]; intros s' Hs'; [done|]. cbn [foldl]. apply IH.
    apply send_device_ok; [done|by right|done]. }
  apply set_devices_ok; [set_solver|]. by apply Hfold.
Qed.

(** ** The table of codes *)

Definition codes_at (code : ustr) (m : gmap ustr (list CodeRoute)) : list CodeRoute := default [] (m !! code).
Definition codes_ok (m : gmap ustr (list CodeRoute)) : Prop :=
  map_Forall (λ code l, l ≠ [] ∧ utf8_len code = CODE_CHARACTERS) m.

Section kept.
Context (P : CodeRoute → Prop) `{!∀ held, Decision (P held)}.

(** What [retain], inside and then outside, leaves. *)
Definition kept (m : gmap ustr (list CodeRoute)) : gmap ustr (list CodeRoute) :=
  filter (λ kv, kv.2 ≠ []) (filter P <$> m).

Lemma codes_at_kept code m : codes_at code (kept m) = filter P (codes_at code m).
Proof.
  unfold codes_at, kept. destruct (filter _ (filter P <$> m) !! code) as [l|] eqn:E.
  - apply map_lookup_filter_Some in E as [E _]. rewrite lookup_fmap in E.
    destruct (m !! code); by simplify_eq/=.
  - apply map_lookup_filter_None in E as [E|E]; rewrite lookup_fmap in E;
      destruct (m !! code) as [l|]; try done.
    simpl in *. specialize (E _ eq_refl). simpl in E. destruct (filter P l) eqn:El; [done|]. by destruct E.
Qed.

Lemma kept_ok m : codes_ok m → codes_ok (kept m).
Proof.
  intros Hm code l [E Hl]%map_lookup_filter_Some. rewrite lookup_fmap in E.
  destruct (m !! code) as [l'|] eqn:El; simplify_eq/=. split; [done|]. by eapply Hm.
Qed.
End kept.

Lemma register_code_ok `{Sha256} route g offered now s :
  codes_ok (codes s) → codes_ok (codes (register_code route g offered now s)).
Proof.
  intros Hs. unfold register_code.
  assert (codes_ok (without_route route g (unexpired now (codes s)))) as Hm by by apply kept_ok, kept_ok.
  case_bool_decide; [done|]. destruct (from_utf8 offered) as [text|]; [|done].
  destruct (Nat.eqb_spec (utf8_len (normalize_code text)) CODE_CHARACTERS) as [E|]; cbn [negb]; [|done].
  apply map_Forall_insert_2; [|done]. split; [|done]. by destruct (default _ _).
Qed.

Lemma set_codes_ok n m s : codes_ok m → relay_ok n s → relay_ok n (set_codes m s).
Proof. intros Hm []. by split. Qed.
Lemma set_pair_attempts_ok n m s :
  attempts_bounded (set_pair_attempts m s) → relay_ok n s → relay_ok n (set_pair_attempts m s).
Proof. intros Hm []. by split. Qed.

(** ** Every operation keeps the relay *)

Lemma send_device_frame c p s :
  (send_device c p s).1 = set_channels (hosts s) (live_devices s) (try_send c p (device_queues s)).1 s.
Proof. unfold send_device. by destruct (try_send _ _ _). Qed.

Lemma close_devices_frame g s :
  ∃ q, close_devices g s = set_channels (hosts s) (<[g := ∅]> (live_devices s)) q s.
Proof.
  unfold close_devices, set_devices.
  assert (∀ l s, ∃ q, foldl (λ s c, (send_device c (bare HOST_CLOSED c) s).1) s l
                      = set_channels (hosts s) (live_devices s) q s) as Hfold.
  { induction l as [|c l IH]; intros s'; [exists (device_queues s'); by destruct s'|].
    cbn [foldl]. rewrite send_device_frame. edestruct IH as [q ->]. by exists q. }
  destruct (Hfold (set_iter (devices_of g s)) s) as [q ->]. by exists q.
Qed.

(** The counters, short of wrapping around. *)
Lemma wrapping_succ n c : (n < u64_max)%N → (c ≤ n)%N → u64_wrapping_add c 1 = (c + 1)%N.
Proof. intros Hn Hc. unfold u64_wrapping_add, u64_max in *. rewrite N.mod_small; lia. Qed.

Lemma count_ok n g c s :
  (next_generation s ≤ g ≤ n)%N → (next_connection s ≤ c ≤ n)%N →
  relay_ok n s → relay_ok n (set_counters g c s).
Proof.
  intros Hg Hc []. split; try done.
  - intros r l Hl. cbn. split; [by eapply ok_route_names0|].
    assert (generation l < next_generation s)%N by by eapply ok_route_names0. lia.
  - intros g' c' Hin. cbn. assert (c' < next_connection s)%N by by eapply ok_devices0. lia.
  - cbn. lia.
Qed.

(** A route given to a new generation. *)
Lemma insert_route_ok n route g digest s :
  ensure_route route = true → (g < next_generation s)%N →
  (∀ r l, routes s !! r = Some l → generation l ≠ g) →
  size (routes s) < MAX_ROUTES ∨ is_Some (routes s !! route) →
  relay_ok n s →
  relay_ok n
    (set_channels (<[g := []]> (hosts s)) (<[g := ∅]> (live_devices s)) (device_queues s)
       (set_routes (<[route := {| secret_digest := digest; generation := g |}]> (routes s)) s)).
Proof.
  intros Hroute Hg Hgen Hsize Hs.
  assert (relay_ok n (set_routes (<[route := {| secret_digest := digest; generation := g |}]> (routes s)) s)) as Hr.
  { destruct Hs. split; try done; cbn [routes set_routes next_generation].
    - destruct (routes s !! route) as [l|] eqn:E.
      + by rewrite map_size_insert_Some.
      + rewrite map_size_insert_None by done. destruct Hsize as [|[? [=]]]. lia.
    - by apply map_Forall_insert_2.
    - intros r1 r2 l1 l2. rewrite !lookup_insert.
      repeat case_decide; intros; simplify_eq/=; try done; try (by eapply ok_generations0); naive_solver. }
  apply set_channels_ok; [done| |apply Hs| |].
  - apply map_Forall_insert_2; [unfold queue_ok; cbn; lia|apply Hs].
  - apply map_Forall_insert_2; [rewrite size_empty; lia|apply Hs].
  - intros g'. change (live_devices s)
      with (live_devices (set_routes (<[route := {| secret_digest := digest; generation := g |}]> (routes s)) s)).
    rewrite devices_of_insert. case_decide; set_solver.
Qed.

Lemma register_ok `{Sha256} n route secret s :
  (n < u64_max)%N → relay_ok n s → relay_ok (n + 1) (register route secret s).1.
Proof.
  intros Hn Hs. pose proof (relay_ok_later n (n + 1) s ltac:(lia) Hs) as Hlater.
  pose proof (ok_counters n s Hs) as [Hg Hc].
  unfold register, register_locked.
  destruct (ensure_route route) eqn:Er; [|done]. destruct (ensure_secret secret); [|done]. cbn [negb].
  rewrite (wrapping_succ n) by done. set (g := next_generation s) in *.
  assert (relay_ok (n + 1) (set_counters (g + 1) (next_connection s) s)) as Hcount
    by (apply count_ok; [subst g; lia|lia|done]).
  assert (∀ r l, routes s !! r = Some l → generation l ≠ g) as Hgen.
  { intros r l Hl. assert (generation l < g)%N by by eapply (ok_route_names n s Hs). lia. }
  cbn [routes set_counters]. destruct (routes s !! route) as [existing|] eqn:E.
  - destruct (constant_time_eq _ _); cbn [negb fst]; [|done].
    pose proof (close_devices_ok _ (generation existing) _ Hcount) as Hclosed.
    destruct (close_devices_frame (generation existing) (set_counters (g + 1) (next_connection s) s)) as [q Eq].
    rewrite Eq in *. apply set_codes_ok; [apply kept_ok, Hs|].
    apply insert_route_ok; [done|cbn; lia|done|right; by exists existing|done].
  - destruct (Nat.leb_spec MAX_ROUTES (size (routes s))); cbn [fst]; [done|].
    apply (insert_route_ok _ _ _ _ (set_counters (g + 1) (next_connection s) s));
      [done|cbn; lia|done|by left|done].
Qed.

Lemma delete_route_ok n route s : relay_ok n s → relay_ok n (set_routes (delete route (routes s)) s).
Proof.
  intros []. split; try done; cbn [routes set_routes next_generation].
  - pose proof (map_size_delete route (routes s)). destruct (routes s !! route); cbn in *; lia.
  - by apply map_Forall_delete.
  - intros r1 r2 l1 l2 [_ H1]%lookup_delete_Some [_ H2]%lookup_delete_Some. by eapply ok_generations0.
Qed.

Lemma unregister_ok `{Sha256} n route g s : relay_ok n s → relay_ok n (unregister route g s).
Proof.
  intros Hs. unfold unregister, remove_codes.
  assert (relay_ok n (unregister_locked route g s)) as Hl.
  { unfold unregister_locked. destruct (routes s !! route) as [live|]; [|done].
    destruct (generation live =? g)%N; [|done]. by apply close_devices_ok, delete_route_ok. }
  apply set_codes_ok; [apply kept_ok, Hl|done].
Qed.

Lemma insert_device_ok n g s :
  (n < u64_max)%N → relay_ok n s → relay_ok (n + 1) (insert_device g s).1.
Proof.
  intros Hn Hs. pose proof (relay_ok_later n (n + 1) s ltac:(lia) Hs) as Hlater.
  pose proof (ok_counters n s Hs) as [Hg Hc]. unfold insert_device. cbv zeta.
  rewrite (wrapping_succ n) by done. set (c := next_connection s) in *.
  set (s1 := set_counters (next_generation s) (c + 1) s).
  assert (relay_ok (n + 1) s1) as H1 by (apply count_ok; [lia|subst c; lia|done]).
  destruct (Nat.leb_spec MAX_DEVICES_PER_ROUTE (size (devices_of g s1))) as [|Hsize]; [done|].
  cbn [fst]. set (s2 := set_channels (hosts s1) (live_devices s1) (<[c := []]> (device_queues s1)) s1).
  assert (∀ g', c ∉ devices_of g' s) as Hfresh.
  { intros g' Hin. assert (c < c)%N by by eapply (ok_devices n s Hs). lia. }
  set (s3 := set_devices g ({[c]} ∪ devices_of g s2) s2).
  assert (∀ g', devices_of g' s3 = if decide (g = g') then {[c]} ∪ devices_of g' s else devices_of g' s) as Hd.
  { intros g'. unfold s3, set_devices. rewrite devices_of_insert. case_decide; by subst. }
  split; try apply H1.
  - apply map_Forall_insert_2; [|apply H1]. split; [unfold queue_ok; cbn; lia|done].
  - apply map_Forall_insert_2; [|apply H1].
    rewrite size_union, size_singleton by (pose proof (Hfresh g); set_solver). exact Hsize.
  - intros g' c'. rewrite Hd. cbn. intros Hin.
    assert (c' = c ∨ c' ∈ devices_of g' s) as [->|Hold] by (case_decide; set_solver); [lia|].
    assert (c' < c)%N by by eapply (ok_devices n s Hs). lia.
  - intros g1 g2 c'. rewrite !Hd. intros Hin1 Hin2.
    assert (∀ g', c ∈ (if decide (g = g') then {[c]} ∪ devices_of g' s else devices_of g' s) → g' = g) as Hc'.
    { intros g'. pose proof (Hfresh g'). intros Hx. case_decide; [congruence|set_solver]. }
    destruct (decide (c' = c)) as [->|Hne]; [by rewrite (Hc' g1), (Hc' g2)|].
    apply (ok_owner n s Hs g1 g2 c'); [destruct (decide (g = g1))|destruct (decide (g = g2))]; set_solver.
Qed.

Lemma forget_device_ok n g c s : relay_ok n s → relay_ok n (forget_device g c s).
Proof.
  intros Hs. unfold forget_device.
  apply (drop_channels_ok _ _ _ (set_devices g (devices_of g s ∖ {[c]}) s)); [done|apply delete_subseteq|].
  apply set_devices_ok; [set_solver|done].
Qed.

Lemma open_device_ok n live request s :
  (n < u64_max)%N → relay_ok n s → relay_ok (n + 1) (open_device live request s).1.
Proof.
  intros Hn Hs. pose proof (insert_device_ok n (generation live) s Hn Hs) as Hi. unfold open_device.
  destruct (insert_device (generation live) s) as [s1 [c|]]; [|done]. cbn [fst] in Hi.
  pose proof (send_host_ok _ (generation live) {| kind := OPEN; connection := c; payload := request |} s1 Hi) as H2.
  destruct (send_host _ _ s1) as [s2 []]; [done|]. by apply forget_device_ok.
Qed.

Lemma close_device_ok n g c s : relay_ok n s → relay_ok n (close_device g c s).
Proof. intros Hs. by apply forget_device_ok, send_host_ok. Qed.

Lemma route_for_code_ok n offered now s : relay_ok n s → relay_ok n (route_for_code offered now s).1.
Proof.
  intros Hs. unfold route_for_code. destruct (negb _); [done|].
  assert (relay_ok n (set_codes (unexpired now (codes s)) s)) as Hu
    by (apply set_codes_ok; [apply kept_ok, Hs|done]).
  by destruct (codes _ !! _) as [[|? [|]]|].
Qed.

Lemma offer_pairing_ok n head_ body route live s :
  (n < u64_max)%N → relay_ok n s → relay_ok (n + 1) (offer_pairing head_ body route live s).1.
Proof.
  intros Hn Hs. unfold offer_pairing.
  pose proof (insert_device_ok n (generation live) s Hn Hs) as Hi.
  destruct (insert_device (generation live) s) as [s2 [c|]]; [|done]. cbn [fst] in Hi.
  destruct (rewrite_request_target head_ (u "/pair")) as [request|]; [|by apply forget_device_ok].
  destruct (_ <? _); [by apply forget_device_ok|].
  pose proof (send_host_ok _ (generation live)
    {| kind := OPEN; connection := c; payload := request ++ body |} s2 Hi) as H2.
  destruct (send_host _ _ s2) as [s3 []]; [done|]. by apply forget_device_ok.
Qed.

Lemma enter_code_ok n head_ body entered now s :
  (n < u64_max)%N → relay_ok n s → relay_ok (n + 1) (enter_code head_ body entered now s).1.
Proof.
  intros Hn Hs. pose proof (relay_ok_later n (n + 1) s ltac:(lia) Hs) as Hlater. unfold enter_code.
  destruct (_ || _); [done|]. destruct entered as [entered|]; [|done].
  pose proof (route_for_code_ok n entered now s Hs) as Hr.
  destruct (route_for_code entered now s) as [s1 [[route live]|]]; cbn [fst] in *;
    [by apply offer_pairing_ok|apply (relay_ok_later n); [lia|done]].
Qed.

Lemma finish_pairing_ok n route live c response s :
  relay_ok n s → relay_ok n (finish_pairing route live c response s).1.
Proof.
  intros Hs. pose proof (close_device_ok n (generation live) c s Hs) as Hc. unfold finish_pairing.
  destruct response as [[|b response]|]; [done| |done]. cbn [fst]. destruct (has_prefix _ _); [done|].
  apply set_codes_ok; [apply kept_ok, Hc|done].
Qed.

Lemma host_message_ok `{Sha256} n route g m now s : relay_ok n s → relay_ok n (host_message route g m now s).
Proof.
  intros Hs. unfold host_message. destruct (decode_packet m) as [p|]; [|done].
  destruct (kind p =? PAIRING_CODE)%N.
  { destruct (live_at route g s); [|done].
    pose proof (register_code_ok route g (payload p) now s (ok_codes n s Hs)) as Hc.
    revert Hc. unfold register_code.
    case_bool_decide; [intros; by apply set_codes_ok|].
    destruct (from_utf8 (payload p)) as [text|]; [|intros; by apply set_codes_ok].
    destruct (negb _); intros; by apply set_codes_ok. }
  destruct (((kind p =? HOST_DATA) || (kind p =? HOST_CLOSED))%N) eqn:Ek; cbn [negb]; [|done].
  destruct (live_at route g s); [|done]. case_bool_decide as Hin; [|done].
  assert (relay_ok n (send_device (connection p) p s).1) as H1.
  { apply send_device_ok; [done| |done]. unfold from_host.
    apply orb_true_iff in Ek as [Ek|Ek]; apply N.eqb_eq in Ek; auto. }
  destruct (send_device (connection p) p s) as [s1 sent]. cbn [fst] in H1. destruct sent; [done|].
  apply send_host_ok, set_devices_ok; [set_solver|done].
Qed.

Lemma relay_step_ok `{Sha256} n e s : (n < u64_max)%N → relay_ok n s → relay_ok (n + 1) (relay_step e s).
Proof.
  intros Hn Hs. pose proof (relay_ok_later n (n + 1) s ltac:(lia) Hs) as Hlater.
  destruct e as [route secret|route g m now|g|route g|live request|g c data|c|g c|g c|head_ body entered now|route live c response|source now];
    cbn [relay_step].
  - by apply register_ok.
  - by apply host_message_ok.
  - apply set_channels_ok; try apply Hlater; [|done].
    apply received_ok; [|apply Hs]. unfold queue_ok. cbn. intros; lia.
  - apply unregister_ok, drop_channels_ok; [apply delete_subseteq|done|done].
  - by apply open_device_ok.
  - by apply send_host_ok.
  - apply set_channels_ok; try apply Hlater; [|done].
    apply received_ok; [|apply Hs]. intros c' p q [Hq [_ Hf]%Forall_cons]. split; [|done].
    unfold queue_ok in *. cbn in Hq. lia.
  - by apply close_device_ok.
  - by apply close_device_ok, send_host_ok.
  - by apply enter_code_ok.
  - by apply finish_pairing_ok.
  - destruct (admit_pair_attempt source now s) as [s' admitted] eqn:E. cbn [fst].
    pose proof (admit_bounds _ _ _ _ _ (ok_attempts n s Hs) E) as Hb. revert Hb. unfold admit_pair_attempt in E.
    destruct (open_windows now (pair_attempts s) !! source) as [w|]; [destruct (_ <=? _)%N|destruct (_ <=? _)];
      injection E as <- <-; intros; by apply set_pair_attempts_ok.
Qed.

Lemma relay_ok_default n : relay_ok n RelayState_default.
Proof.
  assert (∀ g, devices_of g RelayState_default = ∅) as Hd
    by (intros g; unfold devices_of, RelayState_default; cbn [live_devices]; by rewrite lookup_empty).
  split; lazymatch goal with |- map_Forall _ _ => apply map_Forall_empty | _ => idtac end.
  - apply Nat.leb_le. by vm_compute.
  - intros r1 r2 l1 l2 H1. unfold RelayState_default in H1. cbn [routes] in H1. by rewrite lookup_empty in H1.
  - split; [apply Nat.leb_le; by vm_compute|apply map_Forall_empty].
  - intros g c. rewrite Hd. set_solver.
  - intros g1 g2 c. rewrite Hd. set_solver.
  - cbn. lia.
Qed.

Lemma relay_run_ok `{Sha256} events :
  (N.of_nat (length events) ≤ u64_max)%N → relay_ok (N.of_nat (length events)) (relay_run events).
Proof.
  unfold relay_run. induction events as [|e events IH] using rev_ind; intros Hlen; [apply relay_ok_default|].
  rewrite foldl_app, length_app. cbn [foldl length]. rewrite length_app in Hlen. cbn [length] in Hlen.
  rewrite Nat2N.inj_add. apply relay_step_ok; [lia|]. apply IH. lia.
Qed.

(** ** Pairing codes, as the hosts published them *)

(** The code each registration last published, and when it stops being good. *)
Notation Published := (gmap (ustr * N) (ustr * N)).

Definition code_of (offered : bytes) : option ustr :=
  text ← from_utf8 offered;
  if utf8_len (normalize_code text) =? CODE_CHARACTERS then Some (normalize_code text) else None.

Section published.
Context `{Sha256}.

Definition published_step (e : RelayEvent) (s : RelayState) (pub : Published) : Published :=
  match e with
  | Registered route secret =>
      match register_locked route secret s with
      | (_, Ok (_, Some replaced)) => delete (route, replaced) pub
      | _ => pub
      end
  | HostSent route g m now =>
      match decode_packet m with
      | Some p =>
          if (kind p =? PAIRING_CODE)%N && bool_decide (is_Some (live_at route g s)) then
            match code_of (payload p) with
            | Some code => <[(route, g) := (code, now + PAIRING_CODE_LIFETIME)%N]> pub
            | None => delete (route, g) pub
            end
          else pub
      | None => pub
      end
  | HostLeft route g => delete (route, g) pub
  | PairingAnswered route live _ (Some (b :: response)) =>
      if has_prefix (u "HTTP/1.1 409 Conflict" ++ crlf) (b :: response) then pub
      else delete (route, generation live) pub
  | _ => pub
  end.

Definition published_run (events : list RelayEvent) : RelayState * Published :=
  foldl (λ sp e, (relay_step e sp.1, published_step e sp.1 sp.2)) (RelayState_default, ∅) events.
End published.

Definition event_time (e : RelayEvent) : option N :=
  match e with
  | HostSent _ _ _ now | CodeEntered _ _ _ now | PairAttempted _ now => Some now
  | _ => None
  end.

(** The table holds what was published and is still good, each once, and nothing
    that was not published. *)
Record codes_match (now : N) (m : gmap ustr (list CodeRoute)) (pub : Published) : Prop := {
  cm_published : ∀ code held, held ∈ codes_at code m →
    pub !! (cr_route held, cr_generation held) = Some (code, cr_expires_at held);
  cm_held : ∀ k code expiry, pub !! k = Some (code, expiry) → (now < expiry)%N →
    {| cr_route := k.1; cr_generation := k.2; cr_expires_at := expiry |} ∈ codes_at code m;
  cm_once : ∀ code, NoDup (codes_at code m);
}.

Lemma codes_match_later now now' m pub : (now ≤ now')%N → codes_match now m pub → codes_match now' m pub.
Proof. intros Hle []. split; try done. intros k code expiry Hk Hlt. apply cm_held0; [done|lia]. Qed.

Lemma codes_match_without now route g m pub :
  codes_match now m pub → codes_match now (without_route route g m) (delete (route, g) pub).
Proof.
  intros []. split; intros; change (without_route route g m)
      with (kept (λ held, cr_route held ≠ route ∨ cr_generation held ≠ g) m) in *; rewrite codes_at_kept in *.
  - apply list_elem_of_filter in H as [Hne Hin]. rewrite lookup_delete_ne by (intros [= -> ->]; naive_solver).
    by apply cm_published0.
  - apply lookup_delete_Some in H as [Hne Hk]. apply list_elem_of_filter. split; [|by apply cm_held0].
    destruct k as [r' g']. cbn. destruct (decide (r' = route)) as [->|]; [|by left].
    right. intros ->. by apply Hne.
  - by apply NoDup_filter.
Qed.

Lemma codes_match_unexpired now m pub : codes_match now m pub → codes_match now (unexpired now m) pub.
Proof.
  intros []. split; intros; change (unexpired now m) with (kept (λ held, (now < cr_expires_at held)%N) m) in *;
    rewrite codes_at_kept in *.
  - apply list_elem_of_filter in H as [_ Hin]. by apply cm_published0.
  - apply list_elem_of_filter. split; [done|]. by apply cm_held0.
  - by apply NoDup_filter.
Qed.

Lemma codes_match_publish now route g code expiry m pub :
  pub !! (route, g) = None → codes_match now m pub →
  codes_match now
    (<[code := codes_at code m ++ [{| cr_route := route; cr_generation := g; cr_expires_at := expiry |}]]> m)
    (<[(route, g) := (code, expiry)]> pub).
Proof.
  intros Hnone [].
  assert (∀ c held, held ∈ codes_at c m → (route, g) ≠ (cr_route held, cr_generation held)) as Hnot.
  { intros c held Hin Heq. specialize (cm_published0 _ _ Hin). by rewrite <-Heq, Hnone in cm_published0. }
  assert (∀ c, codes_at c (<[code := codes_at code m ++
             [{| cr_route := route; cr_generation := g; cr_expires_at := expiry |}]]> m)
          = codes_at c m ++ (if decide (code = c)
                             then [{| cr_route := route; cr_generation := g; cr_expires_at := expiry |}] else [])) as Hat.
  { intros c. unfold codes_at at 1. rewrite lookup_insert. case_decide; [by subst|]. by rewrite app_nil_r. }
  split.
  - intros c held. rewrite Hat. intros [Hin|Hin]%elem_of_app.
    + rewrite lookup_insert_ne by by eapply Hnot. by apply cm_published0.
    + case_decide as Hc; [|by apply not_elem_of_nil in Hin]. apply list_elem_of_singleton in Hin as ->.
      cbn. by rewrite lookup_insert_eq, Hc.
  - intros k c e. rewrite Hat. intros [[<- [= -> ->]]|[_ Hk]]%lookup_insert_Some Hlt; apply elem_of_app.
    + right. rewrite decide_True by done. by left.
    + left. by apply cm_held0.
  - intros c. rewrite Hat. apply NoDup_app. split; [done|split].
    + intros held Hin. case_decide; [|apply not_elem_of_nil].
      rewrite list_elem_of_singleton. intros ->. by eapply Hnot.
    + case_decide; [apply NoDup_singleton|apply NoDup_nil_2].
Qed.

Section code_runs.
Context `{Sha256}.

Lemma codes_of_send_host g p s : codes (send_host g p s).1 = codes s.
Proof. unfold send_host. by destruct (try_send _ _ _). Qed.
Lemma codes_of_close_device g c s : codes (close_device g c s) = codes s.
Proof. apply codes_of_send_host. Qed.
Lemma codes_of_close_devices g s : codes (close_devices g s) = codes s.
Proof. by destruct (close_devices_frame g s) as [q ->]. Qed.
Lemma codes_of_insert_device g s : codes (insert_device g s).1 = codes s.
Proof. unfold insert_device. by destruct (_ <=? _). Qed.

Lemma codes_of_open_device live request s : codes (open_device live request s).1 = codes s.
Proof.
  unfold open_device. pose proof (codes_of_insert_device (generation live) s) as Hi.
  destruct (insert_device _ s) as [s1 [c|]]; [|done]. cbn [fst] in Hi. rewrite <-Hi.
  pose proof (codes_of_send_host (generation live) {| kind := OPEN; connection := c; payload := request |} s1) as H1.
  by destruct (send_host _ _ s1) as [s2 []].
Qed.

Lemma codes_of_offer_pairing head_ body route live s : codes (offer_pairing head_ body route live s).1 = codes s.
Proof.
  unfold offer_pairing. pose proof (codes_of_insert_device (generation live) s) as Hi.
  destruct (insert_device _ s) as [s1 [c|]]; [|done]. cbn [fst] in Hi. rewrite <-Hi.
  destruct (rewrite_request_target _ _) as [request|]; [|done]. destruct (_ <? _); [done|].
  pose proof (codes_of_send_host (generation live)
    {| kind := OPEN; connection := c; payload := request ++ body |} s1) as H1.
  by destruct (send_host _ _ s1) as [s2 []].
Qed.

Lemma codes_of_enter_code head_ body entered now s :
  codes (enter_code head_ body entered now s).1 = codes s ∨
  codes (enter_code head_ body entered now s).1 = unexpired now (codes s).
Proof.
  unfold enter_code. destruct (_ || _); [by left|]. destruct entered as [entered|]; [|by left].
  unfold route_for_code. destruct (negb _); [by left|]. right.
  destruct (codes _ !! _) as [[|held [|]]|]; try done.
  destruct (live_at _ _ _) as [live|]; [|done]. cbn [mbind option_bind]. by rewrite codes_of_offer_pairing.
Qed.

Lemma codes_match_step e s pub now :
  (∀ t, event_time e = Some t → t = now) → codes_match now (codes s) pub →
  codes_match now (codes (relay_step e s)) (published_step e s pub).
Proof.
  intros Ht Hm.
  destruct e as [route secret|route g m t|g|route g|live request|g c data|c|g c|g c|head_ body entered t|route live c response|source t];
    cbn [relay_step published_step].
  - unfold register, register_locked. destruct (ensure_route route); [|done].
    destruct (ensure_secret secret); [|done]. cbn [negb routes set_counters].
    destruct (routes s !! route) as [existing|]; [|by destruct (_ <=? _)].
    destruct (constant_time_eq _ _); cbn [negb fst]; [|done].
    unfold remove_codes. cbn [codes set_codes set_channels set_routes].
    rewrite codes_of_close_devices. by apply codes_match_without.
  - rewrite (Ht t eq_refl) in *. unfold host_message. destruct (decode_packet m) as [p|]; [|done].
    destruct (kind p =? PAIRING_CODE)%N; cbn [andb].
    + destruct (live_at route g s) as [live|]; [|done].
      rewrite bool_decide_eq_true_2 by by exists live.
      assert (codes_match now (without_route route g (unexpired now (codes s))) (delete (route, g) pub)) as Hw
        by by apply codes_match_without, codes_match_unexpired.
      unfold register_code, code_of. case_bool_decide as Hempty; [by rewrite Hempty|].
      destruct (from_utf8 (payload p)) as [text|]; [|done]. cbn [mbind option_bind].
      destruct (utf8_len (normalize_code text) =? CODE_CHARACTERS); cbn [negb]; [|done].
      rewrite <-(insert_delete_eq pub). apply codes_match_publish; [|done]. by rewrite lookup_delete_eq.
    + destruct ((kind p =? HOST_DATA)%N || (kind p =? HOST_CLOSED)%N); cbn [negb]; [|done].
      destruct (live_at route g s); [|done]. case_bool_decide; [|done].
      pose proof (send_device_frame (connection p) p s) as Hd.
      destruct (send_device (connection p) p s) as [s1 []]; cbn [fst] in Hd; [by rewrite Hd|].
      rewrite codes_of_send_host. by rewrite Hd.
  - done.
  - unfold host_gone, unregister, remove_codes. cbn [codes set_codes].
    match goal with |- context [codes (unregister_locked _ _ ?s1)] =>
      assert (codes (unregister_locked route g s1) = codes s) as -> end.
    { unfold unregister_locked. destruct (routes _ !! route); [|done]. destruct (_ =? _)%N; [|done].
      by rewrite codes_of_close_devices. }
    by apply codes_match_without.
  - by rewrite codes_of_open_device.
  - unfold device_data. by rewrite codes_of_send_host.
  - done.
  - by rewrite codes_of_close_device.
  - unfold device_ended. by rewrite codes_of_close_device, codes_of_send_host.
  - rewrite <-(Ht t eq_refl) in *.
    destruct (codes_of_enter_code head_ body entered t s) as [->| ->]; [done|]. by apply codes_match_unexpired.
  - unfold finish_pairing. destruct response as [[|b response]|]; cbn [fst]; rewrite ?codes_of_close_device; try done.
    destruct (has_prefix _ _); cbn [fst]; [by rewrite codes_of_close_device|].
    unfold remove_codes. cbn [codes set_codes]. rewrite codes_of_close_device. by apply codes_match_without.
  - unfold admit_pair_attempt.
    destruct (open_windows t (pair_attempts s) !! source); [destruct (_ <=? _)%N|destruct (_ <=? _)]; done.
Qed.

Lemma published_run_state events : (published_run events).1 = relay_run events.
Proof.
  unfold published_run, relay_run. generalize RelayState_default, (∅ : Published).
  induction events as [|e events IH]; intros s pub; [done|]. cbn [foldl]. by rewrite IH.
Qed.

Lemma codes_match_run events now :
  StronglySorted N.le (omap event_time events) → Forall (λ t, (t ≤ now)%N) (omap event_time events) →
  codes_match now (codes (relay_run events)) (published_run events).2.
Proof.
  rewrite <-published_run_state. unfold published_run.
  revert now. induction events as [|e events IH] using rev_ind; intros now Hsort Hnow.
  { split; cbn; unfold codes_at; intros; rewrite ?lookup_empty in *; try done;
      [by apply not_elem_of_nil in H0|apply NoDup_nil_2]. }
  rewrite foldl_app, omap_app in *. cbn [foldl fst snd]. cbn [omap list_omap] in *.
  destruct (event_time e) as [t|] eqn:Et.
  - apply StronglySorted_app in Hsort as (Hle & Hsort & _). apply Forall_app in Hnow as [_ [Ht _]%Forall_cons].
    apply (codes_match_later t); [done|]. apply codes_match_step; [naive_solver|]. apply IH; [done|].
    apply Forall_forall. intros t' Hin. apply Hle; [done|by left].
  - rewrite app_nil_r in *. apply codes_match_step; [naive_solver|]. by apply IH.
Qed.
End code_runs.

(** What is found for a code. *)
Lemma route_for_code_found offered now s :
  (route_for_code offered now s).2 =
    if negb (utf8_len (normalize_code offered) =? CODE_CHARACTERS) then None
    else match codes_at (normalize_code offered) (unexpired now (codes s)) with
         | [held] => live ← live_at (cr_route held) (cr_generation held) s; Some (cr_route held, live)
         | _ => None
         end.
Proof.
  unfold route_for_code, codes_at. destruct (negb _); [done|]. cbn [codes set_codes].
  by destruct (unexpired now (codes s) !! normalize_code offered) as [[|held [|]]|].
Qed.

(** ** The promises *)

Section promises.
Context `{Sha256}.

(** C35. The relay's tables are well formed and bounded whatever happens, in
    whatever order, for as long as the counters last: at most 4096 routes, each
    with a well-formed name and a generation of its own, already given out; at
    most 16 devices on a registration, each on one registration only, with a
    number already given out; every channel within its 32 packets, a device's
    holding only host packets addressed to it; every published code eight
    characters long. *)
Theorem relay_well_formed (events : list RelayEvent) :
  (N.of_nat (length events) ≤ u64_max)%N → relay_ok (N.of_nat (length events)) (relay_run events).
Proof. apply relay_run_ok. Qed.

(** A device hears only its own host: when a message from a host changes what
    waits for a device, the host's registration is the live one of its route, the
    device is in its table and in no other registration's, and what was added is
    that one message, addressed to the device. *)
Theorem device_hears_only_its_host (events : list RelayEvent) route g m now c :
  (N.of_nat (length events) ≤ u64_max)%N →
  device_queues (host_message route g m now (relay_run events)) !! c ≠ device_queues (relay_run events) !! c →
  ∃ p q, decode_packet m = Some p ∧ from_host p ∧ connection p = c ∧
    is_Some (live_at route g (relay_run events)) ∧
    (∀ g', c ∈ devices_of g' (relay_run events) ↔ g' = g) ∧
    device_queues (relay_run events) !! c = Some q ∧
    device_queues (host_message route g m now (relay_run events)) !! c = Some (q ++ [p]).
Proof.
  intros Hlen. pose proof (relay_run_ok events Hlen) as Hs. set (s := relay_run events) in *.
  unfold host_message. destruct (decode_packet m) as [p|]; [|done].
  destruct (kind p =? PAIRING_CODE)%N.
  { destruct (live_at route g s); [|done]. unfold register_code.
    case_bool_decide; [done|]. destruct (from_utf8 _); [|done]. by destruct (negb _). }
  destruct (((kind p =? HOST_DATA) || (kind p =? HOST_CLOSED))%N) eqn:Ek; cbn [negb]; [|done].
  destruct (live_at route g s) as [live|]; [|done]. case_bool_decide as Hin; [|done].
  assert (∀ g' d s', device_queues (send_host g' d s').1 = device_queues s') as Hhost
    by (intros; unfold send_host; by destruct (try_send _ _ _)).
  unfold send_device, try_send. destruct (device_queues s !! connection p) as [q|] eqn:Eq.
  2: { rewrite Hhost. done. }
  destruct (length q <? PACKET_QUEUE_DEPTH); [|by rewrite Hhost].
  cbn [device_queues set_channels]. intros Hne. destruct (decide (connection p = c)) as [<-|Hc].
  2: { by rewrite lookup_insert_ne in Hne. }
  exists p, q. split_and!; try done.
  - apply orb_true_iff in Ek as [Ek|Ek]; apply N.eqb_eq in Ek; [by left|by right].
  - intros g'. split; [|by intros ->]. intros Hin'. by eapply (ok_owner _ _ Hs).
  - by rewrite lookup_insert_eq.
Qed.

(** A pairing code leads where its host said: with instants that do not go
    back, the route found for what a person enters is the one whose live
    registration last published that code less than five minutes ago, and it is
    found exactly when no other registration's last published code is the same
    and still good. *)
Theorem code_lookup_refines (events : list RelayEvent) offered now route live :
  StronglySorted N.le (omap event_time events) → Forall (λ t, (t ≤ now)%N) (omap event_time events) →
  (route_for_code offered now (relay_run events)).2 = Some (route, live) ↔
    utf8_len (normalize_code offered) = CODE_CHARACTERS ∧
    live_route route (relay_run events) = Some live ∧
    ∀ k, (∃ expiry, (published_run events).2 !! k = Some (normalize_code offered, expiry) ∧ (now < expiry)%N)
         ↔ k = (route, generation live).
Proof.
  intros Hsort Hnow. pose proof (codes_match_run events now Hsort Hnow) as Hm.
  apply codes_match_unexpired in Hm as [Hpub Hheld Honce].
  assert (∀ c held, held ∈ codes_at c (unexpired now (codes (relay_run events))) →
                    (now < cr_expires_at held)%N) as Hgood.
  { intros c held. change (unexpired now (codes (relay_run events)))
      with (kept (λ held, (now < cr_expires_at held)%N) (codes (relay_run events))).
    rewrite codes_at_kept. by intros [? _]%list_elem_of_filter. }
  set (s := relay_run events) in *. set (pub := (published_run events).2) in *.
  rewrite route_for_code_found. set (code := normalize_code offered) in *.
  destruct (Nat.eqb_spec (utf8_len code) CODE_CHARACTERS) as [Elen|Elen]; cbn [negb]; [|naive_solver].
  specialize (Honce code). pose proof (Hpub code) as Hpubc. pose proof (Hgood code) as Hgoodc.
  assert (∀ k expiry, pub !! k = Some (code, expiry) → (now < expiry)%N →
    {| cr_route := k.1; cr_generation := k.2; cr_expires_at := expiry |}
      ∈ codes_at code (unexpired now (codes s))) as Hheldc by (intros; by apply Hheld).
  clear Hpub Hgood Hheld Hnow Hsort. unfold codes_at in *.
  set (l := default [] (unexpired now (codes s) !! code)) in *.
  unfold live_at. split.
  - destruct l as [|held [|]]; try done. intros Hlive. split; [done|].
    destruct (live_route (cr_route held) s) as [live'|] eqn:El; [|done]. cbn [mbind option_bind] in Hlive.
    destruct (N.eqb_spec (generation live') (cr_generation held)) as [Eg|]; [|done]. simplify_eq/=.
    split; [done|]. intros [r g]. split.
    + intros (expiry & Hk & Hlt). specialize (Hheldc _ _ Hk Hlt). apply list_elem_of_singleton in Hheldc as <-.
      by rewrite Eg.
    + intros [= -> ->]. exists (cr_expires_at held). rewrite Eg.
      split; [apply Hpubc|apply Hgoodc]; by left.
  - intros (_ & Hlive & Honly). destruct (proj2 (Honly (route, generation live)) eq_refl) as (expiry & Hk & Hlt).
    specialize (Hheldc _ _ Hk Hlt). cbn [fst snd] in Hheldc.
    assert (∀ held, held ∈ l → held = {| cr_route := route; cr_generation := generation live; cr_expires_at := expiry |}) as Hall.
    { intros held Hin. pose proof (Hpubc _ Hin) as Hp.
      assert ((cr_route held, cr_generation held) = (route, generation live)) as Ek
        by (apply Honly; eauto). rewrite Ek, Hk in Hp. destruct held; naive_solver. }
    destruct l as [|h1 [|h2 l']]; [by apply not_elem_of_nil in Hheldc| |].
    + rewrite (Hall h1) by by left. cbn [cr_route cr_generation]. rewrite Hlive. cbn [mbind option_bind].
      by rewrite N.eqb_refl.
    + exfalso. apply NoDup_cons in Honce as [Hn _]. apply Hn.
      rewrite (Hall h1) by by left. rewrite (Hall h2) by (right; by left). by left.
Qed.
End promises.

(** ** A run *)

Definition plain_digest : Sha256 := λ b, b.
Definition ex_secret : ustr := repeat 98%N 64.
Definition ex_live : LiveRoute := {| secret_digest := ex_secret; generation := 0 |}.

(** A host registers, publishes a code, and a device connects. *)
Definition ex_events : list RelayEvent :=
  [Registered ex_route ex_secret;
   HostSent ex_route 0 (encode_packet {| kind := PAIRING_CODE; connection := 0; payload := utf8 (u "abcd-2345") |}) 10;
   DeviceOpened ex_live (utf8 (u "GET / HTTP/1.1"))].

Definition ex_answer : Message :=
  encode_packet {| kind := HOST_DATA; connection := 0; payload := utf8 (u "hello") |}.

Lemma relay_well_formed_witness :
  (3 ≤ u64_max)%N ∧ relay_ok 3 (@relay_run plain_digest ex_events).
Proof. split; [by unfold u64_max|]. apply (@relay_well_formed plain_digest ex_events). by unfold u64_max. Defined.

Lemma device_hears_only_its_host_witness :
  ∃ p q, decode_packet ex_answer = Some p ∧ from_host p ∧ connection p = 0%N ∧
    is_Some (live_at ex_route 0 (@relay_run plain_digest ex_events)) ∧
    (∀ g', (0%N ∈ devices_of g' (@relay_run plain_digest ex_events)) ↔ g' = 0%N) ∧
    device_queues (@relay_run plain_digest ex_events) !! 0%N = Some q ∧
    device_queues (host_message ex_route 0 ex_answer 20 (@relay_run plain_digest ex_events)) !! 0%N = Some (q ++ [p]).
Proof.
  apply (@device_hears_only_its_host plain_digest ex_events ex_route 0 ex_answer 20 0);
    [by unfold u64_max|by vm_compute].
Defined.

Lemma code_lookup_refines_witness :
  (@route_for_code (u "ABCD2345") 20 (@relay_run plain_digest ex_events)).2 = Some (ex_route, ex_live) ∧
  (∀ k, (∃ expiry, (@published_run plain_digest ex_events).2 !! k = Some (u "ABCD2345", expiry) ∧ (20 < expiry)%N)
        ↔ k = (ex_route, 0%N)).
Proof.
  assert ((@route_for_code (u "ABCD2345") 20 (@relay_run plain_digest ex_events)).2 = Some (ex_route, ex_live)) as Hf
    by by vm_compute.
  split; [exact Hf|].
  apply (@code_lookup_refines plain_digest ex_events (u "ABCD2345") 20 ex_route ex_live) in Hf as (_ & _ & Hk);
    [exact Hk| |]; vm_compute; repeat constructor; done.
Defined.
