(* ===== verification/Clipboard.v ===== *)
(** Names, flavors and receipts of a transfer: [src/src/clipboard.rs].

    What the clipboard bridge decides before and after bytes move: which flavor a
    clipboard offers, what a staged file may be called, which directories the
    bridge may remove, and how it reads what a host reports. Running clipboard
    tools and shells is not modelled; their output is an argument. *)

From S2P Require Import Prelude Text.

(** ** Flavors *)

Record Marker := { offset : nat; marker_bytes : bytes }.
Record ClipboardMedia := {
  mime : ustr;
  extension : option ustr;
  signatures : list (list Marker);
}.

(** [Marker::matches]: the window at the offset, if the payload reaches that far. *)
Definition marker_matches (m : Marker) (payload : bytes) : bool :=
  (offset m + length (marker_bytes m) <=? length payload)
  && bool_decide (take (length (marker_bytes m)) (drop (offset m) payload) = marker_bytes m).

Definition PNG : ClipboardMedia := {|
  mime := u "image/png"; extension := Some (u "png");
  signatures := [[{| offset := 0; marker_bytes := [137; 80; 78; 71; 13; 10; 26; 10]%N |}]] |}.
Definition JPEG : ClipboardMedia := {|
  mime := u "image/jpeg"; extension := Some (u "jpg");
  signatures := [[{| offset := 0; marker_bytes := [255; 216; 255]%N |}]] |}.
Definition WEBP : ClipboardMedia := {|
  mime := u "image/webp"; extension := Some (u "webp");
  signatures := [[{| offset := 0; marker_bytes := u "RIFF" |}; {| offset := 8; marker_bytes := u "WEBP" |}]] |}.
Definition GIF : ClipboardMedia := {|
  mime := u "image/gif"; extension := Some (u "gif");
  signatures := [[{| offset := 0; marker_bytes := u "GIF87a" |}]; [{| offset := 0; marker_bytes := u "GIF89a" |}]] |}.
Definition TIFF : ClipboardMedia := {|
  mime := u "image/tiff"; extension := Some (u "tif");
  signatures := [[{| offset := 0; marker_bytes := [73; 73; 42; 0]%N |}];
                 [{| offset := 0; marker_bytes := [77; 77; 0; 42]%N |}]] |}.
Definition PDF : ClipboardMedia := {|
  mime := u "application/pdf"; extension := Some (u "pdf");
  signatures := [[{| offset := 0; marker_bytes := u "%PDF-" |}]] |}.
Definition SVG : ClipboardMedia := {|
  mime := u "image/svg+xml"; extension := Some (u "svg"); signatures := [] |}.
Definition OPAQUE : ClipboardMedia := {|
  mime := u "application/octet-stream"; extension := None; signatures := [] |}.
Definition KNOWN_MEDIA : list ClipboardMedia := [PNG; JPEG; WEBP; GIF; TIFF; PDF; SVG].

(** [Iterator::find]. *)
Definition find_first {A} (p : A → bool) (l : list A) : option A := head (filter p l).

Definition media_for_mime (named : ustr) : ClipboardMedia :=
  default OPAQUE (find_first (λ media, bool_decide (mime media = named)) KNOWN_MEDIA).

(** [ClipboardMedia::validate]: whether the payload can be what it claims. *)
Definition media_validate (media : ClipboardMedia) (payload : bytes) : bool :=
  bool_decide (signatures media = [])
  || existsb (forallb (λ m, marker_matches m payload)) (signatures media).

Inductive NameError := BadExtension | BadLength (bytes_ : nat) | BadDots | NotOneComponent.

Definition payload_name (media : ClipboardMedia) : result NameError ustr :=
  match extension media with
  | None => Ok (u "payload")
  | Some e =>
      if bool_decide (e = []) || negb (forallb is_ascii_alphanumeric e) then Err BadExtension
      else Ok (u "payload." ++ e)
  end.

(** ** What a clipboard offers *)

Definition MAXIMUM_REPORTED_TYPES : nat := 12.
Definition MAXIMUM_TYPE_NAME_CHARS : nat := 80.

Definition is_ascii_graphic (c : N) : bool := ((33 <=? c) && (c <=? 126))%N.

Fixpoint collect_names (raw names : list ustr) : list ustr :=
  match raw with
  | [] => names
  | candidate :: raw' =>
      let cleaned := trim (take MAXIMUM_TYPE_NAME_CHARS
                             (filter (λ c, is_ascii_graphic c || (c =? 32)%N) candidate)) in
      if bool_decide (cleaned = []) || bool_decide (cleaned ∈ names) then collect_names raw' names
      else
        let names := names ++ [cleaned] in
        if MAXIMUM_REPORTED_TYPES <=? length names then names else collect_names raw' names
  end.
Definition collect_type_names (raw : list ustr) : list ustr := collect_names raw [].

Definition offered_media (names : list ustr) : list ClipboardMedia :=
  filter (λ media, existsb (λ name, bool_decide (name = mime media)) names) KNOWN_MEDIA.

(** The flavor [read_offered_media] reads, if it reads one. *)
Definition chosen_media (names : list ustr) : option ClipboardMedia :=
  match find_first (λ media, existsb (λ name, bool_decide (name = mime media)) names) KNOWN_MEDIA with
  | Some media => Some media
  | None => if bool_decide (names = []) then Some PNG else None
  end.

Definition MACOS_CLASSES : list (ustr * ustr) :=
  [(u "image/png", u "PNGf"); (u "image/jpeg", u "JPEG"); (u "image/gif", u "GIFf");
   (u "image/tiff", u "TIFF"); (u "application/pdf", u "PDF "); (u "text/rtf", u "RTF ")].
Definition MACOS_REPORTED_CLASSES : list (ustr * ustr) := [(u "file reference", u "furl")].

Definition macos_field (field : ustr) : option ustr :=
  rest ← strip_prefix (171%N :: u "class ") field;
  class ← strip_suffix [187%N] rest;
  let class := trim_end class in
  Some (from_option fst (u "class:" ++ class)
          (find_first (λ nc, bool_decide (trim_end nc.2 = class)) (MACOS_CLASSES ++ MACOS_REPORTED_CLASSES))).
Definition macos_type_fields (report : ustr) : list ustr := omap macos_field (trim <$> split_on 44 report).

(** ** Files a clipboard points at *)

(** [u8::from_str_radix] in base 16, of two bytes: a leading [+] is a sign. *)
Definition hex_byte (a b : N) : option N :=
  if (a =? 43)%N then to_digit 16 b
  else x ← to_digit 16 a; y ← to_digit 16 b; Some (16 * x + y)%N.

Fixpoint percent_bytes (b : bytes) : bytes :=
  match b with
  | [] => []
  | c :: rest =>
      match rest with
      | h1 :: h2 :: rest' =>
          if (c =? 37)%N then
            match hex_byte h1 h2 with
            | Some value => value :: percent_bytes rest'
            | None => c :: percent_bytes rest
            end
          else c :: percent_bytes rest
      | _ => c :: percent_bytes rest
      end
  end.
Definition percent_decoded (path : ustr) : ustr := default path (from_utf8 (percent_bytes (utf8 path))).

Definition file_reference (line : ustr) : option ustr :=
  match strip_prefix (u "file://") line with
  | Some rest => path ← strip_prefix [slash] rest; Some (percent_decoded (slash :: path))
  | None => if starts_with slash line then Some line else None
  end.
Definition local_file_references (text : ustr) : list ustr :=
  omap file_reference
    (filter (λ line, line ≠ [] ∧ ¬ starts_with 35 line) (trim <$> lines text)).

(** ** What a staged file may be called, and what may be removed *)

Definition MAX_TRANSFER_NAME_BYTES : nat := 240.

(** [StagedName::resolve]. *)
Definition resolve_name (requested : option ustr) (media : ClipboardMedia) : result NameError ustr :=
  match requested with
  | None => payload_name media
  | Some requested =>
      if bool_decide (requested = []) || (MAX_TRANSFER_NAME_BYTES <? utf8_len requested)
      then Err (BadLength (utf8_len requested))
      else if bool_decide (requested = u ".") || bool_decide (requested = u "..")
              || contains_str (u "..") requested
      then Err BadDots
      else if contains slash requested || existsb is_control requested then Err NotOneComponent
      else Ok requested
  end.

Definition STAGING_PREFIX : ustr := u "super-herdr-clipboard.".

Definition removable_upload_directory (path : ustr) : option ustr :=
  directory ← fst <$> rsplit_once slash path;
  let name := from_option snd directory (rsplit_once slash directory) in
  if negb (starts_with slash directory) || negb (has_prefix STAGING_PREFIX name)
     || existsb is_control directory
  then None
  else Some directory.

(** ** What a host reports *)

Record Receipt := { receipt_path : ustr; receipt_bytes : N; receipt_digest : ustr }.

Definition is_line_end (c : N) : bool := ((c =? 13) || (c =? 10))%N.
Fixpoint drop_while (p : N → bool) (s : ustr) : ustr :=
  match s with
  | c :: s' => if p c then drop_while p s' else s
  | [] => []
  end.
Definition trim_end_matches (p : N → bool) (s : ustr) : ustr := reverse (drop_while p (reverse s)).

Definition is_sha256_text (digest : ustr) : bool :=
  (utf8_len digest =? 64) && forallb is_ascii_hexdigit digest.

Definition parse_remote_upload_receipt (b : bytes) : option Receipt :=
  text ← from_utf8 b;
  let fields := split_on 9 (trim_end_matches is_line_end text) in
  let path := default [] (fields !! 0) in
  let size := default [] (fields !! 1) in
  let digest := default [] (fields !! 2) in
  if bool_decide (is_Some (fields !! 3)) || negb (starts_with slash path) || existsb is_control path
     || negb (is_sha256_text digest)
  then None
  else
    n ← parse_unsigned u64_max size;
    Some {| receipt_path := path; receipt_bytes := n; receipt_digest := to_ascii_lowercase digest |}.

Definition parse_source_header (line : ustr) : option (N * ustr) :=
  '(length_, digest) ← split_once [9%N] (trim_end_char 10 line);
  n ← parse_unsigned u64_max (trim length_);
  let digest := trim digest in
  if is_sha256_text digest then Some (n, digest) else None.

(** The name a file is offered under, if its path may be asked for at all. *)
Definition source_name (path : ustr) : option ustr :=
  if bool_decide (path = []) || existsb is_control path then None
  else
    let name := from_option snd path (rsplit_once slash path) in
    if bool_decide (name = []) then None else Some name.

Example names_resolved :
  resolve_name (Some (u "report 2.pdf")) OPAQUE = Ok (u "report 2.pdf") ∧
  resolve_name (Some (u "a/b")) OPAQUE = Err NotOneComponent ∧
  resolve_name (Some (u "..")) OPAQUE = Err BadDots ∧
  resolve_name None PNG = Ok (u "payload.png").
Proof. by vm_compute. Qed.

(** A sign is not part of a percent escape, and it is decoded as one. *)
Example signed_escape_decoded : percent_decoded (u "/tmp/a%+1") = u "/tmp/a" ++ [1%N].
Proof. by vm_compute. Qed.

Example references_followed :
  local_file_references (u "# copied" ++ [10%N] ++ u "file:///tmp/a%20b" ++ [13; 10]%N
                         ++ u "https://example.org/x" ++ [10%N] ++ u "/tmp/c")
  = [u "/tmp/a b"; u "/tmp/c"].
Proof. by vm_compute. Qed.
