(* ===== verification/Staging.v ===== *)
(** Moving bytes onto a host: [src/src/clipboard.rs] from a source to a staged
    file, and [src/src/daemon/server.rs] ([RelayReader], [relay], [between]) for
    what is checked about it.

    A machine is the files of this one and whatever the remote hosts are; what a
    remote host does with the staging scripts is the class [RemoteHost]. What can
    go wrong around an attempt is a record of faults. A channel is the list of
    what will arrive on it before it closes. *)

From S2P Require Import Prelude Text Pairing Clipboard.

Definition STREAM_CHUNK_BYTES : N := 64 * 1024.

(** ** One attempt's plan *)

Inductive Staging := Fresh (name : option ustr) | Resume (path : ustr) (staged : N).
Record TransferPlan := { media : ClipboardMedia; staging : Staging; plan_length : N }.

Definition plan_staged (p : TransferPlan) : N :=
  match staging p with Fresh _ => 0 | Resume _ n => n end.
Definition plan_remaining (p : TransferPlan) : N :=
  match staging p with Fresh _ => plan_length p | Resume _ n => plan_length p - n end.

Record UploadedFile := { up_path : ustr; up_bytes : N; up_digest : ustr }.
Inductive Transferred := Complete (file : UploadedFile) | TInterrupted (path : ustr) (staged : N).

(** ** What bytes are read from *)

(** [AsyncRead]: at most the bytes wanted, none at the end, [None] on an error. *)
Class AsyncRead (R : Type) := read : N → R → R * option bytes.

Inductive RelayItem := Chunk (b : bytes) | Finish (digest : ustr) | Cancel.

Record RelayReader := {
  chunks : list RelayItem;
  pending : bytes;               (** what is left of the chunk at hand *)
  attested : option ustr;
  cancelled : bool;
}.
Definition RelayReader_new (items : list RelayItem) : RelayReader :=
  {| chunks := items; pending := []; attested := None; cancelled := false |}.

Fixpoint poll_chunks (wanted : N) (items : list RelayItem) (attested_ : option ustr) (cancelled_ : bool)
    : RelayReader * bytes :=
  match items with
  | [] => ({| chunks := []; pending := []; attested := attested_; cancelled := cancelled_ |}, [])
  | Finish digest :: rest =>
      ({| chunks := rest; pending := []; attested := Some digest; cancelled := cancelled_ |}, [])
  | Cancel :: rest => ({| chunks := rest; pending := []; attested := attested_; cancelled := true |}, [])
  | Chunk b :: rest =>
      if bool_decide (b = []) then poll_chunks wanted rest attested_ cancelled_
      else ({| chunks := rest; pending := drop (N.to_nat wanted) b;
               attested := attested_; cancelled := cancelled_ |}, take (N.to_nat wanted) b)
  end.

(** [RelayReader::poll_read]. *)
#[export] Instance RelayReader_read : AsyncRead RelayReader := λ wanted r,
  if bool_decide (pending r = []) then
    let '(r, b) := poll_chunks wanted (chunks r) (attested r) (cancelled r) in (r, Some b)
  else
    ({| chunks := chunks r; pending := drop (N.to_nat wanted) (pending r);
        attested := attested r; cancelled := cancelled r |},
     Some (take (N.to_nat wanted) (pending r))).

Inductive Trailer := TDigest (digest : ustr) | Overrun | Missing.

(** [RelayReader::trailer]; [late] when the wait for it is over first. *)
Definition trailer (late : bool) (r : RelayReader) : RelayReader * Trailer :=
  match attested r with
  | Some digest =>
      ({| chunks := chunks r; pending := pending r; attested := None; cancelled := cancelled r |},
       TDigest digest)
  | None =>
      if negb (bool_decide (pending r = [])) then (r, Overrun)
      else
        let rest items := {| chunks := items; pending := []; attested := None; cancelled := cancelled r |} in
        match chunks r with
        | item :: items =>
            if late then (r, Missing)
            else match item with
                 | Finish digest => (rest items, TDigest digest)
                 | Chunk _ => (rest items, Overrun)
                 | Cancel => ({| chunks := items; pending := []; attested := None; cancelled := true |}, Missing)
                 end
        | [] => (r, Missing)
        end
  end.

(** A file being read off a host: a stream of what arrives, [None] an error. *)
Record SourceFile := {
  sf_name : ustr; sf_length : N; sf_digest : ustr;
  sf_stream : list (option bytes);
}.
Fixpoint poll_stream (wanted : N) (l : list (option bytes)) : list (option bytes) * option bytes :=
  match l with
  | [] => ([], Some [])
  | None :: rest => (rest, None)
  | Some b :: rest =>
      if bool_decide (b = []) then poll_stream wanted rest
      else
        let left_ := drop (N.to_nat wanted) b in
        (if bool_decide (left_ = []) then rest else Some left_ :: rest, Some (take (N.to_nat wanted) b))
  end.
#[export] Instance SourceFile_read : AsyncRead SourceFile := λ wanted s,
  let '(stream, b) := poll_stream wanted (sf_stream s) in
  ({| sf_name := sf_name s; sf_length := sf_length s; sf_digest := sf_digest s; sf_stream := stream |}, b).

(** ** Faults *)

Record Faults := {
  starts : bool;                        (** the process starts, the staging directory is made *)
  broken_write : option (nat * nat);    (** this write fails, after so many of its bytes *)
  ends_badly : bool;                    (** shutting the input down, or flushing, fails *)
  reads_back : bool;                    (** the local file can be read back *)
  late : bool;                          (** the trailer does not come in time *)
  directory : ustr;                     (** the staging directory made here *)
}.

Section copying.
Context `{AsyncRead R}.

(** The loop of [remote_attempt] and [local_attempt]: what was delivered, and
    whether a read or a write failed. *)
Fixpoint copy (fuel : nat) (expected : N) (broken : option (nat * nat)) (delivered : bytes) (source : R)
    : R * bytes * bool :=
  match fuel with
  | O => (source, delivered, false)
  | S fuel' =>
      let written := N.of_nat (length delivered) in
      if (written <? expected)%N then
        match read (N.min (expected - written) STREAM_CHUNK_BYTES) source with
        | (source, None) => (source, delivered, true)
        | (source, Some []) => (source, delivered, false)
        | (source, Some b) =>
            match broken with
            | Some (O, partly) => (source, delivered ++ take partly b, true)
            | Some (S k, partly) => copy fuel' expected (Some (k, partly)) (delivered ++ b) source
            | None => copy fuel' expected None (delivered ++ b) source
            end
        end
      else (source, delivered, false)
  end.

(** Every pass of the loop delivers a byte, so this many passes are enough. *)
Definition copy_all (expected : N) (broken : option (nat * nat)) (source : R) : R * bytes * bool :=
  copy (S (N.to_nat expected)) expected broken [] source.
End copying.

(** ** Machines *)

Inductive Heading := NewFile (name : ustr) | ExistingFile (path : ustr).

(** What a remote host does when asked: run a staging script on a heading and the
    bytes after it, tell a file's size, remove a directory. It answers with a
    receipt, if one can be read, and whether the command succeeded. *)
Class RemoteHost (H : Type) := {
  run_stage : ustr → Heading → bytes → H → H * (option Receipt * bool);
  run_size : ustr → ustr → H → option N;
  run_remove : ustr → ustr → H → H;
  remote_files : ustr → H → gmap ustr bytes;
}.

(** The scripts measure and hash the file they stored, and remove nothing but the
    directory they are given. *)
Class RemoteHostLaws H `{RemoteHost H, Sha256} := {
  stage_receipt : ∀ d h b s s' receipt ok, run_stage d h b s = (s', (Some receipt, ok)) →
    ∃ content, remote_files d s' !! receipt_path receipt = Some content ∧
      receipt_bytes receipt = N.of_nat (length content) ∧
      receipt_digest receipt = hex (sha256 content);
}.

Section hosts.
Context {H : Type} `{RemoteHost H} `{Sha256}.

Record Machine := { local_files : gmap ustr bytes; remotes : H }.
Definition set_local (m : gmap ustr bytes) (s : Machine) : Machine :=
  {| local_files := m; remotes := remotes s |}.
Definition set_remotes (r : H) (s : Machine) : Machine := {| local_files := local_files s; remotes := r |}.

(** The files of a target: over SSH, or of this machine. *)
Definition files_of (ssh : option ustr) (s : Machine) : gmap ustr bytes :=
  match ssh with Some d => remote_files d (remotes s) | None => local_files s end.

Definition remove_directory (directory_ : ustr) (m : gmap ustr bytes) : gmap ustr bytes :=
  filter (λ kv, has_prefix (directory_ ++ [slash]) kv.1 = false) m.
Definition discard_local_upload (path : ustr) (s : Machine) : Machine :=
  match removable_upload_directory path with
  | Some d => set_local (remove_directory d (local_files s)) s
  | None => s
  end.
Definition remove_remote_upload (destination path : ustr) (s : Machine) : Machine :=
  match removable_upload_directory path with
  | Some d => set_remotes (run_remove destination d (remotes s)) s
  | None => s
  end.
Definition discard_upload (ssh : option ustr) (path : ustr) (s : Machine) : Machine :=
  match ssh with
  | Some destination => remove_remote_upload destination path s
  | None => discard_local_upload path s
  end.

Definition staged_bytes (ssh : option ustr) (path : ustr) (s : Machine) : option N :=
  _ ← removable_upload_directory path;
  match ssh with
  | Some destination => run_size destination path (remotes s)
  | None => content ← local_files s !! path; Some (N.of_nat (length content))
  end.

Inductive UploadError :=
  | NameRefused (e : NameError) | NotStagedHere | HostFailed | StoredTooMuch (total declared : N).

Definition file_receipt (path : ustr) (s : Machine) : option (N * ustr) :=
  content ← local_files s !! path; Some (N.of_nat (length content), hex (sha256 content)).

Section attempt.
Context `{AsyncRead R}.

Definition remote_attempt (destination : ustr) (heading : Heading) (p : TransferPlan) (f : Faults)
    (source : R) (s : Machine) : R * Machine * result UploadError Receipt :=
  if negb (starts f) then (source, s, Err HostFailed)
  else
    let '(source, delivered, failure) := copy_all (plan_remaining p) (broken_write f) source in
    let '(r, (receipt, success)) := run_stage destination heading delivered (remotes s) in
    let s := set_remotes r s in
    (source, s,
     if failure || ends_badly f then ok_or receipt HostFailed
     else if success then ok_or receipt HostFailed
     else Err HostFailed).

Definition local_attempt (heading : Heading) (p : TransferPlan) (f : Faults) (source : R) (s : Machine)
    : R * Machine * result UploadError Receipt :=
  if negb (starts f) then (source, s, Err HostFailed)
  else
    let path := match heading with
                | NewFile name => directory f ++ slash :: name
                | ExistingFile path => path
                end in
    let '(source, delivered, failure) := copy_all (plan_remaining p) (broken_write f) source in
    let s := set_local (<[path := default [] (local_files s !! path) ++ delivered]> (local_files s)) s in
    match (if reads_back f then file_receipt path s else None) with
    | None => (source, s, Err HostFailed)
    | Some (stored, digest) =>
        if (failure || ends_badly f) && (stored =? 0)%N
        then (source, discard_local_upload path s, Err HostFailed)
        else (source, s, Ok {| receipt_path := path; receipt_bytes := stored; receipt_digest := digest |})
    end.

Definition finish_attempt (ssh : option ustr) (p : TransferPlan) (receipt : Receipt) (s : Machine)
    : Machine * result UploadError Transferred :=
  let total := receipt_bytes receipt in
  if (total <? plan_length p)%N then (s, Ok (TInterrupted (receipt_path receipt) total))
  else if (plan_length p <? total)%N then
    (discard_upload ssh (receipt_path receipt) s, Err (StoredTooMuch total (plan_length p)))
  else (s, Ok (Complete {| up_path := receipt_path receipt; up_bytes := total;
                           up_digest := receipt_digest receipt |})).

Definition heading_of (p : TransferPlan) : result UploadError Heading :=
  match staging p with
  | Fresh name =>
      match resolve_name name (media p) with
      | Ok name => Ok (NewFile name)
      | Err e => Err (NameRefused e)
      end
  | Resume path _ =>
      match removable_upload_directory path with
      | Some _ => Ok (ExistingFile path)
      | None => Err NotStagedHere
      end
  end.

Definition upload_stream (ssh : option ustr) (p : TransferPlan) (f : Faults) (source : R) (s : Machine)
    : R * Machine * result UploadError Transferred :=
  match heading_of p with
  | Err e => (source, s, Err e)
  | Ok heading =>
      let '(source, s, receipt) :=
        match ssh with
        | Some destination => remote_attempt destination heading p f source s
        | None => local_attempt heading p f source s
        end in
      match receipt with
      | Err e => (source, s, Err e)
      | Ok receipt => let '(s, r) := finish_attempt ssh p receipt s in (source, s, r)
      end
  end.
End attempt.

(** ** The relay of a client's upload *)

Inductive Refusal :=
  UploadFailed (e : UploadError) | EndedEarly (staged declared : N) | DigestMismatch | SentMore (declared : N).
Inductive Relayed :=
  | Done (path : ustr) (bytes_ : N) | Refused (why : Refusal)
  | Interrupted (path : ustr) (staged : N) | Withdrawn.

Definition relay (ssh : option ustr) (p : TransferPlan) (items : list RelayItem) (f : Faults) (s : Machine)
    : Machine * Relayed :=
  let '(source, s, uploaded) := upload_stream ssh p f (RelayReader_new items) s in
  match uploaded with
  | Err e => (s, if cancelled source then Withdrawn else Refused (UploadFailed e))
  | Ok (TInterrupted path staged) =>
      if cancelled source then (discard_upload ssh path s, Withdrawn)
      else if bool_decide (is_Some (attested source)) then
        (discard_upload ssh path s, Refused (EndedEarly staged (plan_length p)))
      else (s, Interrupted path staged)
  | Ok (Complete file) =>
      let '(source, end_) := trailer (late f) source in
      let refuse why := (discard_upload ssh (up_path file) s, Refused why) in
      match end_ with
      | TDigest digest =>
          if bool_decide (digest = up_digest file) then (s, Done (up_path file) (up_bytes file))
          else refuse DigestMismatch
      | Overrun => refuse (SentMore (plan_length p))
      | Missing =>
          if cancelled source then (discard_upload ssh (up_path file) s, Withdrawn)
          else (s, Interrupted (up_path file) (up_bytes file))
      end
  end.

(** The plan of an attempt to continue, made from what the host still holds. *)
Definition resume_plan (ssh : option ustr) (media_ : ClipboardMedia) (name : option ustr) (length_ : N)
    (path : option ustr) (s : Machine) : Machine * TransferPlan :=
  let fresh := {| media := media_; staging := Fresh name; plan_length := length_ |} in
  match path with
  | None => (s, fresh)
  | Some path =>
      let staged := default 0%N (staged_bytes ssh path s) in
      if (0 <? staged)%N
      then (s, {| media := media_; staging := Resume path staged; plan_length := length_ |})
      else (discard_upload ssh path s, fresh)
  end.

(** ** Between two targets *)

Inductive BetweenError :=
  | AboveCeiling (length_ ceiling : N) | BetweenFailed (e : UploadError)
  | StoppedAfter (staged length_ : N) | NotWhatWasSent.

Definition accept_copy (ssh : option ustr) (stored : UploadedFile) (attested_ : ustr) (s : Machine)
    : Machine * result BetweenError (ustr * N) :=
  if bool_decide (up_digest stored = attested_) then (s, Ok (up_path stored, up_bytes stored))
  else (discard_upload ssh (up_path stored) s, Err NotWhatWasSent).

(** [between], once the source is open. *)
Definition between (reading : SourceFile) (ssh : option ustr) (name : option ustr) (ceiling : N) (f : Faults)
    (s : Machine) : Machine * result BetweenError (ustr * N) :=
  if (ceiling <? sf_length reading)%N then (s, Err (AboveCeiling (sf_length reading) ceiling))
  else
    let p := {| media := OPAQUE; staging := Fresh (Some (default (sf_name reading) name));
                plan_length := sf_length reading |} in
    let '(source, s, written) := upload_stream ssh p f reading s in
    match written with
    | Err e => (s, Err (BetweenFailed e))
    | Ok (TInterrupted path staged) => (discard_upload ssh path s, Err (StoppedAfter staged (sf_length reading)))
    | Ok (Complete stored) => accept_copy ssh stored (sf_digest reading) s
    end.

(** ** A payload held in memory *)

(** [upload_media]; [in_time] when the remote exchange is not cut off. *)
Definition upload_media (ssh : option ustr) (media_ : ClipboardMedia) (payload : bytes) (in_time : bool)
    (f : Faults) (s : Machine) : Machine * option UploadedFile :=
  if negb (media_validate media_ payload) then (s, None)
  else match resolve_name None media_ with
  | Err _ => (s, None)
  | Ok name =>
      let expected := hex (sha256 payload) in
      match ssh with
      | Some destination =>
          if negb (starts f) then (s, None)
          else
            let '(r, (receipt, success)) := run_stage destination (NewFile name) payload (remotes s) in
            let s := set_remotes r s in
            match receipt with
            | Some receipt =>
                if negb (success && in_time) then (s, None)
                else if negb (receipt_bytes receipt =? N.of_nat (length payload))%N
                        || negb (bool_decide (receipt_digest receipt = expected))
                then (remove_remote_upload destination (receipt_path receipt) s, None)
                else (s, Some {| up_path := receipt_path receipt; up_bytes := receipt_bytes receipt;
                                 up_digest := receipt_digest receipt |})
            | None => (s, None)
            end
      | None =>
          if negb (starts f) then (s, None)
          else
            let path := directory f ++ slash :: name in
            let written := match broken_write f with Some (_, partly) => take partly payload | None => payload end in
            let s := set_local (<[path := written]> (local_files s)) s in
            if bool_decide (is_Some (broken_write f)) || ends_badly f || negb (reads_back f) then (s, None)
            else match file_receipt path s with
                 | Some (stored, digest) =>
                     if negb (stored =? N.of_nat (length payload))%N || negb (bool_decide (digest = expected))
                     then (discard_local_upload path s, None)
                     else (s, Some {| up_path := path; up_bytes := N.of_nat (length payload); up_digest := expected |})
                 | None => (s, None)
                 end
      end
  end.
End hosts.
Arguments Machine : clear implicits.
