(* ===== verification/StagingFacts.v ===== *)
(** What moving bytes onto a host guarantees: names that stay in their
    directory, receipts read as they were written, a loop that ends, and uploads
    that are reported done only when the stored file is the one attested to. *)

From S2P Require Import Prelude Text Pairing Clipboard Staging.

(** ** What a sender sends *)

(** The bytes up to the first item that is not a chunk, and what follows them. *)
Fixpoint bytes_before (items : list RelayItem) : bytes :=
  match items with
  | Chunk b :: rest => b ++ bytes_before rest
  | _ => []
  end.
Fixpoint ending (items : list RelayItem) : list RelayItem :=
  match items with
  | Chunk _ :: rest => ending rest
  | _ => items
  end.
Definition outstanding (r : RelayReader) : bytes := pending r ++ bytes_before (chunks r).

(** What a reader at its end learned from the item it stopped at. *)
Definition attests (items : list RelayItem) (held : option ustr) : option ustr :=
  match items with Finish digest :: _ => Some digest | _ => held end.
Definition cancels (items : list RelayItem) (held : bool) : bool :=
  match items with Cancel :: _ => true | _ => held end.

Lemma poll_chunks_spec wanted items a c r b :
  (0 < wanted)%N → poll_chunks wanted items a c = (r, b) →
  (length b ≤ N.to_nat wanted) ∧
  (b ≠ [] → bytes_before items = b ++ outstanding r ∧ ending (chunks r) = ending items ∧
            attested r = a ∧ cancelled r = c) ∧
  (b = [] → bytes_before items = [] ∧ pending r = [] ∧ attested r = attests (ending items) a ∧
            cancelled r = cancels (ending items) c ∧ chunks r = tail (ending items)).
Proof.
  intros Hw. induction items as [|item items IH]; cbn [poll_chunks].
  { intros [= <- <-]. naive_solver lia. }
  destruct item as [chunk|digest|]; [|intros [= <- <-]; cbn; naive_solver lia..].
  case_bool_decide as Hc; [subst chunk; apply IH|]. intros [= <- <-].
  assert (take (N.to_nat wanted) chunk ≠ []) as Hne.
  { destruct chunk as [|x chunk]; [done|]. destruct (N.to_nat wanted) eqn:E; [lia|done]. }
  split; [rewrite length_take; lia|]. split; [|done]. intros _. cbn. unfold outstanding. cbn.
  by rewrite app_assoc, take_drop.
Qed.

Lemma relay_read_spec wanted r r' b :
  (0 < wanted)%N → read wanted r = (r', Some b) →
  (length b ≤ N.to_nat wanted) ∧
  (b ≠ [] → outstanding r = b ++ outstanding r' ∧ ending (chunks r') = ending (chunks r) ∧
            attested r' = attested r ∧ cancelled r' = cancelled r) ∧
  (b = [] → outstanding r = [] ∧ pending r' = [] ∧
            attested r' = attests (ending (chunks r)) (attested r) ∧
            cancelled r' = cancels (ending (chunks r)) (cancelled r) ∧
            chunks r' = tail (ending (chunks r))).
Proof.
  intros Hw. unfold read, RelayReader_read. case_bool_decide as Hp.
  - destruct (poll_chunks wanted (chunks r) (attested r) (cancelled r)) as [r1 b1] eqn:E.
    intros [= -> ->]. unfold outstanding at 1 3. rewrite Hp. by apply poll_chunks_spec.
  - intros [= <- <-].
    assert (take (N.to_nat wanted) (pending r) ≠ []) as Hne.
    { destruct (pending r) as [|x l]; [done|]. destruct (N.to_nat wanted) eqn:E; [lia|done]. }
    split; [rewrite length_take; lia|]. split; [|done]. intros _. unfold outstanding. cbn.
    by rewrite app_assoc, take_drop.
Qed.

Lemma relay_read_ok wanted (r r' : RelayReader) o : read wanted r = (r', o) → is_Some o.
Proof.
  unfold read, RelayReader_read. case_bool_decide; [|by intros [= _ <-]].
  destruct (poll_chunks _ _ _ _). by intros [= _ <-].
Qed.

(** ** The loop *)

(** How the loop over a client's transfer ends: with every expected byte moved,
    at the end of what was sent, or at a write that failed. *)
Inductive copied (expected : N) (delivered : bytes) (r : RelayReader) : RelayReader → bytes → bool → Prop :=
  | copied_all r' moved :
      outstanding r = moved ++ outstanding r' →
      N.of_nat (length (delivered ++ moved)) = expected →
      ending (chunks r') = ending (chunks r) → attested r' = attested r → cancelled r' = cancelled r →
      copied expected delivered r r' (delivered ++ moved) false
  | copied_short r' :
      (N.of_nat (length (delivered ++ outstanding r)) < expected)%N →
      pending r' = [] →
      attested r' = attests (ending (chunks r)) (attested r) →
      cancelled r' = cancels (ending (chunks r)) (cancelled r) →
      chunks r' = tail (ending (chunks r)) →
      copied expected delivered r r' (delivered ++ outstanding r) false
  | copied_broken r' moved rest :
      outstanding r = moved ++ rest → (N.of_nat (length (delivered ++ moved)) ≤ expected)%N →
      ending (chunks r') = ending (chunks r) → attested r' = attested r → cancelled r' = cancelled r →
      copied expected delivered r r' (delivered ++ moved) true.

Lemma copy_copied fuel expected broken delivered r r' d failed :
  (N.to_nat expected - length delivered < fuel) → (N.of_nat (length delivered) ≤ expected)%N →
  copy fuel expected broken delivered r = (r', d, failed) → copied expected delivered r r' d failed.
Proof.
  revert broken delivered r. induction fuel as [|fuel IH]; intros broken delivered r Hfuel Hle; [lia|].
  cbn [copy]. destruct (N.ltb_spec (N.of_nat (length delivered)) expected) as [Hlt|Hge].
  2: { intros [= <- <- <-]. rewrite <-(app_nil_r delivered) at 2. apply copied_all; try done.
       rewrite app_nil_r. lia. }
  set (wanted := N.min (expected - N.of_nat (length delivered)) STREAM_CHUNK_BYTES).
  assert (0 < wanted)%N as Hw by (unfold wanted, STREAM_CHUNK_BYTES; lia).
  destruct (read wanted r) as [r1 o] eqn:Er.
  destruct (relay_read_ok _ _ _ _ Er) as [b ->]. destruct (relay_read_spec _ _ _ _ Hw Er) as (Hlen & Hsome & Hnone).
  destruct b as [|x b].
  { intros [= <- <- <-]. destruct (Hnone eq_refl) as (Ho & Hp & Ha & Hc & Ht).
    rewrite <-(app_nil_r delivered) at 2. rewrite <-Ho. apply copied_short; try done.
    rewrite Ho, app_nil_r. lia. }
  specialize (Hsome ltac:(done)) as (Ho & He & Ha & Hc). clear Hnone.
  set (b' := x :: b) in *.
  assert (length (delivered ++ b') ≤ N.to_nat expected) as Hfit.
  { rewrite length_app. unfold wanted in Hlen. lia. }
  assert (∀ broken', copy fuel expected broken' (delivered ++ b') r1 = (r', d, failed) →
                     copied expected delivered r r' d failed) as Hgo.
  { intros broken' Hcopy. apply IH in Hcopy; [|rewrite length_app; subst b'; cbn [length]; lia|lia].
    destruct Hcopy as [r' moved H1 H2 H3 H4 H5|r' H1 H2 H3 H4 H5|r' moved rest H1 H2 H3 H4 H5]; rewrite <-app_assoc in *.
    - apply copied_all; [by rewrite Ho, H1, app_assoc|done|congruence..].
    - rewrite <-Ho in *. apply copied_short; try done; congruence.
    - apply (copied_broken _ _ _ _ _ rest); [by rewrite Ho, H1, app_assoc|done|congruence..]. }
  destruct broken as [[[|k] partly]|]; [|apply Hgo|apply Hgo].
  intros [= <- <- <-].
  apply (copied_broken _ _ _ _ _ (drop partly b' ++ outstanding r1)); [|..|done|done|done].
  - rewrite app_assoc, take_drop. done.
  - rewrite length_app in Hfit |- *. rewrite length_take. lia.
Qed.

Lemma copy_all_copied expected broken r r' d failed :
  copy_all expected broken r = (r', d, failed) → copied expected [] r r' d failed.
Proof. apply copy_copied; simpl; lia. Qed.

(** Without a fault, a transfer that sends enough is moved whole. *)
Lemma copied_whole expected r r' d :
  copied expected [] r r' d false → (expected ≤ N.of_nat (length (outstanding r)))%N →
  d = take (N.to_nat expected) (outstanding r).
Proof.
  intros Hc Hle. inversion Hc as [r1 moved H1 H2 H3 H4 H5|r1 H1 H2 H3 H4 H5|]; subst; cbn [app] in *.
  - rewrite H1. rewrite take_app_length'; [done|]. lia.
  - lia.
Qed.

Lemma copy_not_broken fuel expected delivered (r : RelayReader) :
  (copy fuel expected None delivered r).2 = false.
Proof.
  revert delivered r. induction fuel as [|fuel IH]; intros delivered r; cbn [copy]; [done|].
  destruct (_ <? expected)%N; [|done].
  destruct (read _ r) as [r1 o] eqn:Er. destruct (relay_read_ok _ _ _ _ Er) as [b ->].
  destruct b; [done|apply IH].
Qed.

(** A digest a reader learns of was sent. *)
Lemma ending_subseteq items : ending items ⊆ items.
Proof. induction items as [|[]]; cbn; [done|set_solver|done..]. Qed.

Lemma attested_sent expected items source d failed late_ source' digest :
  copied expected [] (RelayReader_new items) source d failed →
  trailer late_ source = (source', TDigest digest) → Finish digest ∈ items.
Proof.
  intros Hc Ht. pose proof (ending_subseteq items) as Hsub.
  assert (attests (ending items) None = Some digest → Finish digest ∈ items) as Hend.
  { destruct (ending items) as [|[] rest]; [done|done| |done]. intros [= ->]. set_solver. }
  assert (ending (chunks source) = ending items ∧ attested source = None ∨
          attested source = attests (ending items) None ∧ chunks source = tail (ending items)) as Hcase
    by (inversion Hc; subst; [left|right|left]; done).
  unfold trailer in Ht. destruct (attested source) as [held|] eqn:Ea.
  { injection Ht as _ ->. destruct Hcase as [[_ [=]]|[Hh _]]. by apply Hend. }
  destruct (negb _); [done|]. destruct (chunks source) as [|[b|held|] rest] eqn:Ek; [done|..];
    destruct late_; try done. injection Ht as _ ->.
  destruct Hcase as [[He _]|[_ Hk]]; cbn [ending] in *; [rewrite <-He in Hsub; set_solver|].
  destruct (ending items); cbn in Hk; set_solver.
Qed.

(** ** What a host holds after an attempt *)

Section hosts.
Context {H : Type} `{RemoteHost H} `{Sha256} `{!RemoteHostLaws H}.

(** A receipt tells the truth about a file. *)
Definition receipt_true (ssh : option ustr) (receipt : Receipt) (s : Machine H) : Prop :=
  ∃ content, files_of ssh s !! receipt_path receipt = Some content ∧
    receipt_bytes receipt = N.of_nat (length content) ∧ receipt_digest receipt = hex (sha256 content).

Section attempt.
Context {R : Type} `{AsyncRead R}.

Lemma remote_attempt_true destination heading p f (source : R) s source' s' receipt :
  remote_attempt destination heading p f source s = (source', s', Ok receipt) →
  receipt_true (Some destination) receipt s' ∧
  ∃ d failed, copy_all (plan_remaining p) (broken_write f) source = (source', d, failed).
Proof.
  unfold remote_attempt. destruct (starts f); cbn [negb]; [|done].
  destruct (copy_all _ _ source) as [[source1 d] failed] eqn:Ec.
  destruct (run_stage destination heading d (remotes s)) as [h [o success]] eqn:Es.
  intros Heq. destruct o as [receipt0|].
  2: { exfalso. destruct (failed || ends_badly f); [|destruct success]; simplify_eq/=. }
  assert (receipt0 = receipt ∧ source1 = source' ∧ set_remotes h s = s') as (-> & -> & <-)
    by (destruct (failed || ends_badly f); [|destruct success]; by simplify_eq/=).
  split; [|by exists d, failed]. destruct (stage_receipt _ _ _ _ _ _ _ Es) as (content & ? & ? & ?).
  by exists content.
Qed.

Lemma file_receipt_true path (s : Machine H) n digest :
  file_receipt path s = Some (n, digest) →
  ∃ content, local_files s !! path = Some content ∧ n = N.of_nat (length content) ∧ digest = hex (sha256 content).
Proof.
  unfold file_receipt. destruct (local_files s !! path) as [content|]; [|done].
  cbn [mbind option_bind]. intros [= <- <-]. by exists content.
Qed.

Lemma local_attempt_true heading p f (source : R) (s : Machine H) source' s' receipt :
  local_attempt heading p f source s = (source', s', Ok receipt) →
  receipt_true None receipt s' ∧
  ∃ d failed, copy_all (plan_remaining p) (broken_write f) source = (source', d, failed).
Proof.
  unfold local_attempt. destruct (starts f); cbn [negb]; [|done].
  destruct (copy_all _ _ source) as [[source1 d] failed] eqn:Ec.
  set (path := match heading with NewFile name => _ | ExistingFile path => path end).
  set (s1 := set_local _ s). destruct (reads_back f); [|done].
  destruct (file_receipt path s1) as [[n digest]|] eqn:Ef; [|done].
  destruct ((failed || ends_badly f) && (n =? 0)%N); [done|]. intros [= <- <- <-].
  split; [|by exists d, failed]. by apply file_receipt_true in Ef.
Qed.

Lemma upload_stream_reported ssh p f (source : R) (s : Machine H) source' s' t :
  upload_stream ssh p f source s = (source', s', Ok t) →
  (∃ content, match t with
     | Complete file => files_of ssh s' !! up_path file = Some content ∧
         up_bytes file = N.of_nat (length content) ∧ up_bytes file = plan_length p ∧
         up_digest file = hex (sha256 content)
     | TInterrupted path n => files_of ssh s' !! path = Some content ∧
         n = N.of_nat (length content) ∧ (n < plan_length p)%N
     end) ∧
  ∃ d failed, copy_all (plan_remaining p) (broken_write f) source = (source', d, failed).
Proof.
  unfold upload_stream. destruct (heading_of p) as [heading|]; [|done].
  set (attempt := match ssh with Some _ => _ | None => _ end).
  destruct attempt as [[source1 s1] [receipt|]] eqn:Ea; [|done].
  assert (receipt_true ssh receipt s1 ∧
          ∃ d failed, copy_all (plan_remaining p) (broken_write f) source = (source1, d, failed))
    as [(content & Hf & Hn & Hd) Hcopy].
  { unfold attempt in Ea. destruct ssh; [by eapply remote_attempt_true|by eapply local_attempt_true]. }
  unfold finish_attempt. destruct (N.ltb_spec (receipt_bytes receipt) (plan_length p)).
  - intros [= <- <- <-]. split; [by exists content|done].
  - destruct (N.ltb_spec (plan_length p) (receipt_bytes receipt)); [done|].
    intros [= <- <- <-]. split; [|done]. exists content. cbn. split_and!; try done. lia.
Qed.
End attempt.

(** C38. An upload reported done was stored whole and as attested: at the path
    reported there is a file of exactly the declared length, and its digest is
    one the sender attested to in this attempt. *)
Theorem relay_done_verified ssh p items f (s : Machine H) s' path n :
  relay ssh p items f s = (s', Done path n) →
  ∃ content digest, files_of ssh s' !! path = Some content ∧
    n = N.of_nat (length content) ∧ n = plan_length p ∧
    Finish digest ∈ items ∧ digest = hex (sha256 content).
Proof.
  unfold relay. destruct (upload_stream ssh p f (RelayReader_new items) s) as [[source s1] [t|e]] eqn:Eu.
  2: { destruct (cancelled source); done. }
  destruct (upload_stream_reported _ _ _ _ _ _ _ _ Eu) as [[content Ht] (d & failed & Ec)].
  apply copy_all_copied in Ec. destruct t as [file|path' staged].
  2: { destruct (cancelled source); [done|]. by case_bool_decide. }
  destruct Ht as (Hf & Hn & Hp & Hd).
  destruct (trailer (late f) source) as [source' []] eqn:Etr; [|done|by destruct (cancelled source')].
  case_bool_decide as Hdig; [|done]. intros [= <- <- <-].
  exists content, digest. split_and!; try done; [|by rewrite Hdig].
  by eapply attested_sent.
Qed.
End hosts.

(** ** Names and directories *)

(** A directory the bridge made: under some absolute directory, with its prefix. *)
Definition made_here (directory_ : ustr) : Prop :=
  ∃ parent suffix, directory_ = slash :: parent ++ slash :: STAGING_PREFIX ++ suffix ∧
    slash ∉ suffix ∧ ¬ Exists is_control directory_.

Lemma existsb_false {A} (p : A → bool) l : existsb p l = false ↔ ¬ Exists p l.
Proof.
  induction l as [|x l IH]; cbn [existsb].
  { split; [|done]. intros _ Hx. by apply Exists_nil in Hx. }
  rewrite orb_false_iff, IH, Exists_cons. destruct (p x); naive_solver.
Qed.

Lemma slash_not_in_prefix : slash ∉ STAGING_PREFIX.
Proof. by apply (bool_decide_unpack (slash ∉ STAGING_PREFIX)); vm_compute. Qed.

(** The one component under a staging directory, and nothing else, is removable. *)
Lemma made_here_removable d name :
  made_here d → slash ∉ name → removable_upload_directory (d ++ slash :: name) = Some d.
Proof.
  intros (parent & suffix & -> & Hsuffix & Hc) Hname. unfold removable_upload_directory.
  set (d := slash :: parent ++ slash :: STAGING_PREFIX ++ suffix) in *.
  assert (rsplit_once slash (d ++ slash :: name) = Some (d, name)) as -> by by apply rsplit_once_Some.
  cbn [fmap option_fmap option_map fst mbind option_bind].
  assert (rsplit_once slash d = Some (slash :: parent, STAGING_PREFIX ++ suffix)) as ->.
  { apply rsplit_once_Some. split; [done|]. intros [Hin|Hin]%elem_of_app; [|done].
    by apply slash_not_in_prefix in Hin. }
  cbn [from_option snd]. rewrite has_prefix_app.
  apply existsb_false in Hc. rewrite Hc. done.
Qed.

Lemma removable_made_here path d :
  removable_upload_directory path = Some d →
  starts_with slash d = true ∧ ¬ Exists is_control d ∧
  (∃ name, path = d ++ slash :: name ∧ slash ∉ name) ∧
  ∃ above suffix, d = above ++ STAGING_PREFIX ++ suffix ∧ slash ∉ suffix ∧ (above = [] ∨ last above = Some slash).
Proof.
  unfold removable_upload_directory.
  destruct (rsplit_once slash path) as [[d' name]|] eqn:E; [|done]. cbn [fmap option_fmap option_map fst mbind option_bind].
  apply rsplit_once_Some in E as [-> Hname].
  destruct (starts_with slash d') eqn:Es; cbn [negb orb]; [|done].
  destruct (has_prefix STAGING_PREFIX _) eqn:Ep; cbn [negb orb]; [|done].
  destruct (existsb is_control d') eqn:Ec; [done|]. intros [= <-].
  split; [done|]. split; [by apply existsb_false|]. split; [by exists name|].
  unfold has_prefix in Ep. apply bool_decide_eq_true in Ep as [suffix Hs].
  apply strip_prefix_Some in Hs. destruct (rsplit_once slash d') as [[above tail_]|] eqn:Er; cbn in Hs.
  - apply rsplit_once_Some in Er as [-> Hn]. subst tail_. exists (above ++ [slash]), suffix.
    split; [by rewrite <-app_assoc|]. split; [set_solver|]. right. apply last_snoc.
  - exists [], suffix. split; [done|]. split; [|by left]. intros Hin.
    assert (slash ∈ d') as Hd by (rewrite Hs; set_solver).
    by apply (rsplit_once_None slash d') in Hd.
Qed.

(** Text of one path component and one line. *)
Definition plain (s : ustr) : Prop := Forall (λ c, c ≠ slash ∧ is_control c = false) s.

Lemma plain_by s : forallb (λ c, negb (c =? slash)%N && negb (is_control c)) s = true → plain s.
Proof.
  rewrite forallb_forall. intros Hs. apply Forall_forall. intros c Hin.
  apply list_elem_of_In, Hs, andb_true_iff in Hin as [H1%negb_true_iff%N.eqb_neq H2%negb_true_iff]. done.
Qed.

Lemma alphanumeric_plain e : forallb is_ascii_alphanumeric e = true → plain e.
Proof.
  rewrite forallb_forall. intros He. apply Forall_forall. intros c Hin. apply list_elem_of_In, He in Hin.
  unfold is_ascii_alphanumeric, is_ascii_digit, is_ascii_uppercase, is_ascii_lowercase in Hin.
  unfold slash, is_control. split; [by intros ->|].
  apply orb_false_iff. split; [apply N.leb_gt|apply andb_false_iff; left; apply N.leb_gt];
    rewrite !orb_true_iff, !andb_true_iff, !N.leb_le in Hin; lia.
Qed.

Lemma resolve_name_plain requested media_ name :
  resolve_name requested media_ = Ok name →
  plain name ∧ name ≠ [] ∧ name ≠ u "." ∧ name ≠ u "..".
Proof.
  unfold resolve_name, payload_name. destruct requested as [r|].
  - destruct (_ || _) eqn:E1; [done|]. destruct (bool_decide (r = u ".") || _ || _) eqn:E2; [done|].
    destruct (contains slash r || existsb is_control r) eqn:E3; [done|]. intros [= <-].
    apply orb_false_iff in E1 as [E1 _], E2 as [E2 _], E3 as [E3 E4].
    apply orb_false_iff in E2 as [E2 E5]. apply bool_decide_eq_false in E1, E2, E5.
    split; [|done]. apply Forall_forall. intros c Hin. split.
    + intros ->. unfold contains in E3. by apply bool_decide_eq_false in E3.
    + destruct (is_control c) eqn:Ec; [|done]. apply existsb_false in E4. destruct E4.
      apply Exists_exists. exists c. by rewrite Ec.
  - destruct (extension media_) as [e|].
    + destruct (bool_decide (e = []) || negb (forallb is_ascii_alphanumeric e)) eqn:E1; [done|]. intros Heq.
      assert (name = u "payload." ++ e) as -> by congruence. clear Heq.
      apply orb_false_iff in E1 as [E1 E2]. apply negb_false_iff in E2.
      split; [|done]. unfold plain. apply Forall_app. split; [by apply plain_by; vm_compute|].
      by apply alphanumeric_plain.
    + intros Heq. assert (name = u "payload") as -> by congruence.
      split; [by apply plain_by; vm_compute|done].
Qed.

Lemma plain_no_slash s : plain s → slash ∉ s.
Proof. intros Hs Hin. eapply Forall_forall in Hin; [|exact Hs]. by destruct Hin. Qed.

(** A staged file stays where the bridge put it: whatever a caller asks for, a
    name that is accepted is the one asked for, one component, and one line ahead
    of the payload from which the staging script reads exactly it; and the file
    under it, in a directory of the bridge's, is removed with that directory and
    no other. *)
Theorem staged_name_stays requested media_ name d payload_ :
  resolve_name requested media_ = Ok name → made_here d →
  (∀ r, requested = Some r → name = r) ∧
  name ≠ [] ∧ name ≠ u "." ∧ name ≠ u ".." ∧ slash ∉ name ∧
  split_once [10%N] (name ++ [10%N] ++ payload_) = Some (name, payload_) ∧
  removable_upload_directory (d ++ slash :: name) = Some d.
Proof.
  intros Hname Hd. destruct (resolve_name_plain _ _ _ Hname) as (Hplain & H1 & H2 & H3).
  split; [|split; [done|split; [done|split; [done|split; [by apply plain_no_slash|split]]]]].
  - intros r ->. unfold resolve_name in Hname.
    destruct (_ || _); [done|]. destruct (_ || _ || _); [done|]. destruct (_ || _); by simplify_eq/=.
  - apply split_once_char. split; [done|]. intros Hin. eapply Forall_forall in Hin; [|exact Hplain].
    destruct Hin as [_ Hin]. by vm_compute in Hin.
  - apply made_here_removable; [done|by apply plain_no_slash].
Qed.

(** ** Receipts *)

Lemma trim_end_matches_snoc p s c : p c = true → trim_end_matches p (s ++ [c]) = trim_end_matches p s.
Proof. intros Hc. unfold trim_end_matches. rewrite reverse_snoc. cbn [drop_while]. by rewrite Hc. Qed.
Lemma trim_end_matches_keep p s : (∀ c, last s = Some c → p c = false) → trim_end_matches p s = s.
Proof.
  intros Hs. unfold trim_end_matches. rewrite <-head_reverse in Hs.
  destruct (reverse s) as [|c t] eqn:E; cbn [drop_while]; [by rewrite <-(reverse_involutive s), E|].
  rewrite (Hs c eq_refl), <-E. apply reverse_involutive.
Qed.

Lemma lowercase_cases c :
  (to_ascii_lowercase_char c = c ∧ ¬ (65 ≤ c ≤ 90)%N) ∨ (to_ascii_lowercase_char c = c + 32 ∧ 65 ≤ c ≤ 90)%N.
Proof.
  unfold to_ascii_lowercase_char. destruct (N.leb_spec 65 c), (N.leb_spec c 90);
    [right|left|left|left]; (split; [done|lia]).
Qed.
Lemma lowercase_hexdigit c : is_ascii_hexdigit c = true → is_ascii_hexdigit (to_ascii_lowercase_char c) = true.
Proof.
  destruct (lowercase_cases c) as [[-> _]|[-> Hc]]; [done|].
  unfold is_ascii_hexdigit, is_ascii_digit. rewrite !orb_true_iff, !andb_true_iff, !N.leb_le. lia.
Qed.
Lemma lowercase_idem c : to_ascii_lowercase_char (to_ascii_lowercase_char c) = to_ascii_lowercase_char c.
Proof.
  destruct (lowercase_cases c) as [[Hl _]|[-> Hc]]; [by rewrite !Hl|].
  destruct (lowercase_cases (c + 32)) as [[? _]|[_ ?]]; [done|lia].
Qed.

Lemma utf8_len_ascii s : Forall (λ c, c < 128)%N s → utf8_len s = length s.
Proof.
  induction 1 as [|c s Hc Hs IH]; [done|]. unfold utf8_len in *. cbn [sum_list_with length]. rewrite IH.
  unfold utf8_width. destruct (N.leb_spec c 127); lia.
Qed.

Lemma parse_digits_le limit acc s n : (acc ≤ limit)%N → parse_digits limit acc s = Some n → (n ≤ limit)%N.
Proof.
  revert acc. induction s as [|c s IH]; intros acc Hacc; cbn [parse_digits]; [by intros [= <-]|].
  destruct (to_digit 10 c); [|done]. destruct (N.leb_spec (10 * acc + n0) limit); [by apply IH|done].
Qed.
Lemma parse_unsigned_le limit s n : parse_unsigned limit s = Some n → (n ≤ limit)%N.
Proof. unfold parse_unsigned. case_bool_decide; [done|]. apply parse_digits_le. lia. Qed.

Definition receipt_ok (r : Receipt) : Prop :=
  starts_with slash (receipt_path r) = true ∧ ¬ Exists is_control (receipt_path r) ∧
  (receipt_bytes r ≤ u64_max)%N ∧ is_sha256_text (receipt_digest r) = true ∧
  to_ascii_lowercase (receipt_digest r) = receipt_digest r.

(** What the staging scripts print for a receipt. *)
Definition printed_receipt (r : Receipt) : bytes :=
  utf8 (receipt_path r ++ 9%N :: display_N (receipt_bytes r) ++ 9%N :: receipt_digest r ++ [10%N]).

Lemma hexdigit_range c : is_ascii_hexdigit c = true → (48 ≤ c ≤ 102)%N.
Proof.
  unfold is_ascii_hexdigit, is_ascii_digit. rewrite !orb_true_iff, !andb_true_iff, !N.leb_le. lia.
Qed.
Lemma sha256_text_chars s : is_sha256_text s = true → Forall (λ c, 48 ≤ c ≤ 102)%N s.
Proof.
  unfold is_sha256_text. rewrite andb_true_iff, forallb_forall. intros [_ Hs].
  apply Forall_forall. intros c Hin. by apply hexdigit_range, Hs, list_elem_of_In.
Qed.

(** A host's receipt is read as it was written: what the staging script prints
    for a path without control characters, a size and a digest is read back
    exactly; and whatever is read as a receipt names an absolute path on one
    line, a 64-bit size and a SHA-256 digest in lower case. *)
Theorem receipt_roundtrip :
  (∀ r, receipt_ok r → Forall is_scalar (receipt_path r) →
     parse_remote_upload_receipt (printed_receipt r) = Some r) ∧
  (∀ b r, parse_remote_upload_receipt b = Some r → receipt_ok r).
Proof.
  split.
  - intros [path n digest] (Habs & Hctl & Hn & Hd & Hlow) Hsc. cbn [receipt_path receipt_bytes receipt_digest] in *.
    unfold printed_receipt, parse_remote_upload_receipt. cbn [receipt_path receipt_bytes receipt_digest].
    pose proof (sha256_text_chars _ Hd) as Hhex. destruct (display_N_value n) as (_ & Hne & Hdec).
    assert (∀ l lo hi, Forall (λ c, lo ≤ c ≤ hi)%N l → (hi < 55296)%N → Forall is_scalar l) as Hascii.
    { intros l lo hi Hl Hhi. eapply Forall_impl; [exact Hl|]. intros c [_ Hc]. unfold is_scalar.
      destruct (N.ltb_spec c 55296); [done|lia]. }
    assert (Forall is_scalar (path ++ 9%N :: display_N n ++ 9%N :: digest ++ [10%N])) as Hall.
    { apply Forall_app. split; [done|]. apply Forall_cons. split; [by vm_compute|].
      apply Forall_app. split; [apply (Hascii _ _ _ Hdec); lia|]. apply Forall_cons. split; [by vm_compute|].
      apply Forall_app. split; [apply (Hascii _ _ _ Hhex); lia|]. apply Forall_singleton. by vm_compute. }
    rewrite from_utf8_utf8 by done. cbn [mbind option_bind].
    assert (∀ l lo hi, Forall (λ c, lo ≤ c ≤ hi)%N l → (9 < lo)%N → 9%N ∉ l) as Htab.
    { intros l lo hi Hl Hlo Hin. eapply Forall_forall in Hl; [|exact Hin]. lia. }
    assert (9%N ∉ path) as Hpath.
    { intros Hin. apply Hctl, Exists_exists. exists 9%N. split; [done|by vm_compute]. }
    set (body := path ++ 9%N :: display_N n ++ 9%N :: digest).
    replace (path ++ 9%N :: display_N n ++ 9%N :: digest ++ [10%N]) with (body ++ [10%N])
      by (unfold body; rewrite <-!app_assoc; cbn [app]; by rewrite <-!app_assoc).
    rewrite trim_end_matches_snoc by done.
    assert (trim_end_matches is_line_end body = body) as ->.
    { apply trim_end_matches_keep. intros c Hlast. unfold body in Hlast.
      change (9%N :: display_N n ++ 9%N :: digest) with ((9%N :: display_N n) ++ 9%N :: digest) in Hlast.
      rewrite app_assoc, last_app_cons in Hlast. apply last_Some_elem_of in Hlast.
      apply elem_of_cons in Hlast as [->|Hin]; [done|]. eapply Forall_forall in Hhex; [|exact Hin].
      unfold is_line_end. destruct (N.eqb_spec c 13), (N.eqb_spec c 10); cbn; [lia..|done]. }
    unfold body. rewrite split_on_cons by done. rewrite split_on_cons by (eapply Htab; [exact Hdec|lia]).
    rewrite split_on_none by (eapply Htab; [exact Hhex|lia]).
    cbn [lookup list_lookup default from_option id].
    rewrite bool_decide_eq_false_2 by (intros [? [=]]). rewrite Habs, Hd.
    apply existsb_false in Hctl. rewrite Hctl. cbn [negb orb]. rewrite parse_display by done.
    cbn [mbind option_bind]. by rewrite Hlow.
  - intros b r. unfold parse_remote_upload_receipt. destruct (from_utf8 b) as [text|]; [|done].
    cbn [mbind option_bind]. set (fields := split_on 9 _). 
    destruct (bool_decide (is_Some (fields !! 3))); cbn [orb]; [done|].
    destruct (starts_with slash _) eqn:Habs; cbn [negb orb]; [|done].
    destruct (existsb is_control _) eqn:Hctl; cbn [orb]; [done|].
    destruct (is_sha256_text _) eqn:Hd; cbn [negb]; [|done].
    destruct (parse_unsigned u64_max _) as [n|] eqn:Hn; [|done]. cbn [mbind option_bind]. intros [= <-].
    split; [done|]. split; [by apply existsb_false|]. cbn [receipt_bytes receipt_digest].
    split; [by eapply parse_unsigned_le|]. unfold to_ascii_lowercase. split.
    + unfold is_sha256_text in *. apply andb_true_iff in Hd as [Hlen Hhex].
      rewrite forallb_forall in Hhex. apply andb_true_iff. split.
      * assert (∀ l, (∀ c, In c l → is_ascii_hexdigit c = true) → utf8_len l = length l) as Hlen'.
        { intros l Hl. apply utf8_len_ascii, Forall_forall. intros c Hin.
          pose proof (hexdigit_range c (Hl c ltac:(by apply list_elem_of_In))). lia. }
        rewrite Hlen' in Hlen by done. rewrite Hlen'; [by rewrite length_map|].
        intros c (x & <- & Hin)%in_map_iff. by apply lowercase_hexdigit, Hhex.
      * apply forallb_forall. intros c (x & <- & Hin)%in_map_iff. apply lowercase_hexdigit. by apply Hhex.
    + rewrite map_map. apply map_ext. apply lowercase_idem.
Qed.

(** ** Coming back for a transfer *)

(** The pieces a sender cuts what it has left into, the empty ones left out. *)
Fixpoint pieces (sizes : list nat) (b : bytes) : list RelayItem :=
  match sizes with
  | [] => []
  | k :: sizes' =>
      let rest := pieces sizes' (drop k b) in
      if bool_decide (take k b = []) then rest else Chunk (take k b) :: rest
  end.

Lemma sum_list_app l l' : sum_list (l ++ l') = sum_list l + sum_list l'.
Proof. induction l as [|n l IH]; [done|]. cbn [app]. unfold sum_list in *. cbn [sum_list_with]. lia. Qed.

Lemma bytes_before_pieces sizes b l :
  bytes_before (pieces sizes b ++ l) = take (sum_list sizes) b ++ bytes_before l.
Proof.
  revert b. induction sizes as [|k sizes IH]; intros b; [done|]. cbn [pieces].
  change (sum_list (k :: sizes)) with (k + sum_list sizes). rewrite <-take_take_drop, <-app_assoc.
  case_bool_decide as Hk; [rewrite Hk; apply IH|]. cbn [app bytes_before]. by rewrite IH.
Qed.
Lemma ending_pieces sizes b l : ending (pieces sizes b ++ l) = ending l.
Proof.
  revert b. induction sizes as [|k sizes IH]; intros b; [done|]. cbn [pieces]. case_bool_decide; apply IH.
Qed.

Definition faultless (directory_ : ustr) : Faults :=
  {| starts := true; broken_write := None; ends_badly := false; reads_back := true; late := false;
     directory := directory_ |}.

Section returning.
Context {H : Type} {host : RemoteHost H} {sha : Sha256}.

(** An attempt at a local target that nothing disturbs, by where it writes. *)
Definition attempt_path (p : TransferPlan) (name d : ustr) : ustr :=
  match staging p with Fresh _ => d ++ slash :: name | Resume path _ => path end.

(** What is left in the channel is the end of what was there. *)
Lemma copy_suffix fuel expected delivered (r r' : RelayReader) d failed :
  copy fuel expected None delivered r = (r', d, failed) → chunks r' `suffix_of` chunks r.
Proof.
  revert delivered r. induction fuel as [|fuel IH]; intros delivered r; cbn [copy]; [by intros [= <- _ _]|].
  destruct (_ <? expected)%N; [|by intros [= <- _ _]].
  set (wanted := N.min _ _). destruct (read wanted r) as [r1 o] eqn:Er.
  assert (chunks r1 `suffix_of` chunks r) as Hs.
  { unfold read, RelayReader_read in Er. case_bool_decide; [|by injection Er as <- _].
    destruct (poll_chunks wanted (chunks r) (attested r) (cancelled r)) as [r2 b] eqn:Ep.
    injection Er as <- _. revert Ep. generalize (chunks r). induction l as [|item l IHl]; cbn [poll_chunks].
    { by intros [= <- _]. }
    destruct item; try (intros [= <- _]; by apply suffix_cons_r).
    case_bool_decide; [intros; by apply suffix_cons_r, IHl|]. intros [= <- _]. by apply suffix_cons_r. }
  destruct o as [[|x b]|]; try (by intros [= <- _ _]).
  intros Hc. etrans; [by eapply IH|done].
Qed.

Definition no_empty (items : list RelayItem) : Prop := Forall (λ i, i ≠ Chunk []) items.

Lemma nothing_before items : no_empty items → bytes_before items = [] → ending items = items.
Proof.
  intros Hne Hb. destruct items as [|[b| |] items]; try done. cbn in Hb.
  apply app_eq_nil in Hb as [-> _]. by apply Forall_cons in Hne as [Hne _].
Qed.

Lemma no_empty_pieces sizes b l : no_empty l → no_empty (pieces sizes b ++ l).
Proof.
  intros Hl. revert b. induction sizes as [|k sizes IH]; intros b; [done|]. cbn [pieces].
  case_bool_decide as Hk; [apply IH|]. cbn [app]. apply Forall_cons. split; [by intros [= ?]|apply IH].
Qed.

(** An attempt at a local target that nothing disturbs writes what it is sent
    behind what is already there. *)
Lemma local_upload p name d items (s : Machine H) held :
  (∀ requested, staging p = Fresh requested → resolve_name requested (media p) = Ok name) →
  (∀ path n, staging p = Resume path n → is_Some (removable_upload_directory path)) →
  held = default [] (local_files s !! attempt_path p name d) →
  plan_staged p = N.of_nat (length held) →
  (N.of_nat (length (held ++ bytes_before items)) ≤ plan_length p)%N → no_empty items →
  let content := held ++ bytes_before items in
  let n := N.of_nat (length content) in
  ∃ r', upload_stream None p (faultless d) (RelayReader_new items) s =
      (r', set_local (<[attempt_path p name d := content]> (local_files s)) s,
       Ok (if (n <? plan_length p)%N then TInterrupted (attempt_path p name d) n
           else Complete {| up_path := attempt_path p name d; up_bytes := n; up_digest := hex (sha256 content) |})) ∧
    if (n <? plan_length p)%N
    then attested r' = attests (ending items) None ∧ cancelled r' = cancels (ending items) false
    else attested r' = None ∧ cancelled r' = false ∧ pending r' = [] ∧ chunks r' = ending items.
Proof.
  intros Hfresh Hresume Hheld Hstaged Hle Hne content n. unfold upload_stream.
  set (path := attempt_path p name d) in *.
  assert (∃ heading, heading_of p = Ok heading ∧
    match heading with NewFile name => d ++ slash :: name | ExistingFile path => path end = path) as (heading & -> & Hpath).
  { unfold heading_of, path, attempt_path in *. destruct (staging p) as [requested|path0 k].
    - rewrite (Hfresh requested) by done. by eexists.
    - destruct (Hresume path0 k eq_refl) as [dir ->]. by eexists. }
  assert (plan_remaining p = plan_length p - N.of_nat (length held))%N as Hrem.
  { rewrite <-Hstaged. unfold plan_remaining, plan_staged. destruct (staging p); lia. }
  unfold local_attempt. cbn [starts faultless negb broken_write ends_badly reads_back directory].
  rewrite Hpath. unfold copy_all.
  destruct (copy (S (N.to_nat (plan_remaining p))) (plan_remaining p) None [] (RelayReader_new items))
    as [[r' moved] failed] eqn:Ec.
  assert (failed = false) as -> by (pose proof (copy_not_broken (S (N.to_nat (plan_remaining p)))
    (plan_remaining p) [] (RelayReader_new items)) as Hb; by rewrite Ec in Hb).
  pose proof (copy_suffix _ _ _ _ _ _ _ Ec) as [before Hsuffix].
  apply copy_copied in Ec; [|cbn; lia|cbn; lia]. rewrite length_app in Hle.
  assert (moved = bytes_before items ∧
    if (n <? plan_length p)%N
    then attested r' = attests (ending items) None ∧ cancelled r' = cancels (ending items) false
    else attested r' = None ∧ cancelled r' = false ∧ pending r' = [] ∧ chunks r' = ending items) as [-> Hr'].
  { clear Hheld Hpath. unfold n, content. rewrite length_app.
    inversion Ec as [r1 m H1 H2 H3 H4 H5|r1 H1 H2 H3 H4 H5|]; subst; cbn [app] in *;
      change (outstanding (RelayReader_new items)) with (bytes_before items) in *;
      cbn [chunks attested cancelled RelayReader_new] in *.
    - assert (outstanding r' = []) as Hout.
      { apply nil_length_inv. rewrite H1, length_app in Hle. lia. }
      rewrite Hout, app_nil_r in H1. split; [done|]. rewrite H1.
      destruct (N.ltb_spec (N.of_nat (length held + length m)) (plan_length p)); [lia|].
      unfold outstanding in Hout. apply app_eq_nil in Hout as [Hp Hb].
      split_and!; try done. rewrite <-H3. symmetry. apply nothing_before; [|done].
      rewrite Hsuffix in Hne. by apply Forall_app in Hne as [_ ?].
    - split; [done|]. destruct (N.ltb_spec (N.of_nat (length held + length (bytes_before items))) (plan_length p)); [done|lia]. }
  exists r'. split; [|done]. unfold file_receipt. cbn [local_files set_local].
  rewrite lookup_insert_eq. cbn [mbind option_bind orb andb]. rewrite <-Hheld.
  unfold finish_attempt. cbn [receipt_bytes receipt_path receipt_digest]. fold content n.
  destruct (N.ltb_spec n (plan_length p)); [done|].
  destruct (N.ltb_spec (plan_length p) n) as [Hgt|]; [|done].
  unfold n, content in Hgt. rewrite length_app in Hgt. lia.
Qed.

Lemma relay_cut p name d items (s : Machine H) held :
  (∀ requested, staging p = Fresh requested → resolve_name requested (media p) = Ok name) →
  (∀ path n, staging p = Resume path n → is_Some (removable_upload_directory path)) →
  held = default [] (local_files s !! attempt_path p name d) →
  plan_staged p = N.of_nat (length held) →
  (N.of_nat (length (held ++ bytes_before items)) ≤ plan_length p)%N → no_empty items → ending items = [] →
  relay None p items (faultless d) s =
    (set_local (<[attempt_path p name d := held ++ bytes_before items]> (local_files s)) s,
     Interrupted (attempt_path p name d) (N.of_nat (length (held ++ bytes_before items)))).
Proof.
  intros Hfresh Hresume Hheld Hstaged Hle Hne Hend.
  destruct (local_upload p name d items s held) as (r' & Hu & Hr'); [done..|]. unfold relay. rewrite Hu.
  rewrite Hend in Hr'. destruct (N.ltb_spec (N.of_nat (length (held ++ bytes_before items))) (plan_length p)).
  - destruct Hr' as [-> ->]. done.
  - destruct Hr' as (Ha & Hc & Hp & Hk). unfold trailer. rewrite Ha, Hp, Hk. cbn. by rewrite Hc.
Qed.

Lemma relay_whole p name d items (s : Machine H) held :
  (∀ requested, staging p = Fresh requested → resolve_name requested (media p) = Ok name) →
  (∀ path n, staging p = Resume path n → is_Some (removable_upload_directory path)) →
  held = default [] (local_files s !! attempt_path p name d) →
  plan_staged p = N.of_nat (length held) →
  N.of_nat (length (held ++ bytes_before items)) = plan_length p → no_empty items →
  ending items = [Finish (hex (sha256 (held ++ bytes_before items)))] →
  relay None p items (faultless d) s =
    (set_local (<[attempt_path p name d := held ++ bytes_before items]> (local_files s)) s,
     Done (attempt_path p name d) (plan_length p)).
Proof.
  intros Hfresh Hresume Hheld Hstaged Hlen Hne Hend.
  destruct (local_upload p name d items s held) as (r' & Hu & Hr'); [done..|lia|done|]. unfold relay. rewrite Hu.
  rewrite Hlen, N.ltb_irrefl in *. destruct Hr' as (Ha & Hc & Hp & Hk).
  unfold trailer. rewrite Ha, Hp, Hk, Hend. cbn. by rewrite bool_decide_eq_true_2.
Qed.

Context (media_ : ClipboardMedia) (requested : option ustr) (content : bytes).

(** A sender that loses its connection at every attempt but the last, and each
    time comes back to send what is missing, in pieces of any sizes, the host
    giving each new beginning a directory of its own. *)
Fixpoint returning (cuts : list (list nat * ustr)) (sizes : list nat) (last_directory : ustr)
    (path : option ustr) (s : Machine H) : Machine H * Relayed :=
  let '(s, p) := resume_plan None media_ requested (N.of_nat (length content)) path s in
  let missing := drop (N.to_nat (plan_staged p)) content in
  match cuts with
  | [] =>
      relay None p (pieces (sizes ++ [length missing]) missing ++ [Finish (hex (sha256 content))])
        (faultless last_directory) s
  | (cut, d) :: cuts' =>
      match relay None p (pieces cut missing) (faultless d) s with
      | (s, Interrupted path _) => returning cuts' sizes last_directory (Some path) s
      | other => other
      end
  end.

Definition unused (name : ustr) (directories : list ustr) (s : Machine H) : Prop :=
  NoDup directories ∧ ∀ d, d ∈ directories → made_here d ∧ local_files s !! (d ++ slash :: name) = None.

(** What a host holds between two attempts. *)
Definition begun (path : option ustr) (s : Machine H) : Prop :=
  match path with
  | None => True
  | Some path => is_Some (removable_upload_directory path) ∧
                 ∃ n, local_files s !! path = Some (take n content)
  end.

(** The plan made for an attempt, and what is held where it will write. *)
Lemma resume_plan_ready name ds path s s' p :
  resolve_name requested media_ = Ok name → unused name ds s → begun path s →
  resume_plan None media_ requested (N.of_nat (length content)) path s = (s', p) →
  unused name ds s' ∧ media p = media_ ∧ plan_length p = N.of_nat (length content) ∧
  (∀ requested', staging p = Fresh requested' → resolve_name requested' (media p) = Ok name) ∧
  (∀ path n, staging p = Resume path n → is_Some (removable_upload_directory path)) ∧
  (∀ path n, staging p = Resume path n → is_Some (local_files s' !! path)) ∧
  ∀ d, d ∈ ds → ∃ n, n ≤ length content ∧ plan_staged p = N.of_nat n ∧
    take n content = default [] (local_files s' !! attempt_path p name d) ∧
    is_Some (removable_upload_directory (attempt_path p name d)).
Proof.
  intros Hname [Hnd Hun] Hbegun. unfold resume_plan.
  assert (∀ m s', s' = set_local m s → m ⊆ local_files s → 
    let p := {| media := media_; staging := Fresh requested; plan_length := N.of_nat (length content) |} in
    unused name ds s' ∧ media p = media_ ∧ plan_length p = N.of_nat (length content) ∧
    (∀ requested', staging p = Fresh requested' → resolve_name requested' (media p) = Ok name) ∧
    (∀ path n, staging p = Resume path n → is_Some (removable_upload_directory path)) ∧
  (∀ path n, staging p = Resume path n → is_Some (local_files s' !! path)) ∧
    ∀ d, d ∈ ds → ∃ n, n ≤ length content ∧ plan_staged p = N.of_nat n ∧
      take n content = default [] (local_files s' !! attempt_path p name d) ∧
      is_Some (removable_upload_directory (attempt_path p name d))) as Hanew.
  { intros m s1 -> Hm p1. assert (unused name ds (set_local m s)) as Hun'.
    { split; [done|]. intros d Hd. destruct (Hun d Hd) as [? Hnone]. split; [done|]. cbn.
      destruct (m !! (d ++ slash :: name)) as [x|] eqn:E; [|done].
      pose proof (lookup_weaken _ _ _ _ E Hm). congruence. }
    split; [done|]. split; [done|]. split; [done|]. split; [by intros ? [= <-]|]. split; [done|]. split; [done|].
    intros d Hd. exists 0. cbn [attempt_path p1 staging]. destruct Hun' as [_ Hun']. destruct (Hun' d Hd) as [Hmade ->].
    split; [lia|]. split; [done|]. split; [done|]. exists d. apply made_here_removable; [done|].
    by eapply plain_no_slash, resolve_name_plain. }
  destruct path as [path|].
  2: { intros [= <- <-]. apply (Hanew (local_files s)); [by destruct s|done]. }
  destruct Hbegun as [[dir Hdir] [n Hfile]].
  assert (default 0%N (staged_bytes None path s) = N.of_nat (length (take n content))) as Hstaged.
  { unfold staged_bytes. rewrite Hdir. cbn [mbind option_bind]. by rewrite Hfile. }
  rewrite Hstaged. destruct (N.ltb_spec 0 (N.of_nat (length (take n content)))).
  - intros [= <- <-]. cbn. split; [done|]. split; [done|]. split; [done|]. split; [done|].
    split; [by intros ? ? [= <- <-]; exists dir|].
    split; [intros ? ? [= <- <-]; rewrite Hfile; by eexists|]. intros d Hd. exists (length (take n content)).
    rewrite length_take. split; [lia|]. split; [done|]. rewrite Hfile. cbn. split; [|by exists dir].
    destruct (Nat.min_spec n (length content)) as [[_ ->]|[? ->]]; [done|]. by rewrite !take_ge by lia.
  - intros [= <- <-]. unfold discard_upload, discard_local_upload. rewrite Hdir.
    apply (Hanew (remove_directory dir (local_files s))); [done|]. apply map_filter_subseteq.
Qed.

(** C39. A transfer survives its sender's connections: at a local target that
    nothing disturbs, a sender that is cut off any number of times, anywhere, and
    comes back each time to send what the host does not hold yet, ends with its
    upload done, and the file at the path it is told is exactly its content. *)
Theorem interrupted_upload_completes name cuts sizes last_directory (s : Machine H) :
  resolve_name requested media_ = Ok name →
  unused name (cuts.*2 ++ [last_directory]) s →
  ∃ s' path, returning cuts sizes last_directory None s = (s', Done path (N.of_nat (length content))) ∧
    local_files s' !! path = Some content.
Proof.
  intros Hname. assert (begun None s) as Hbegun by done. revert Hbegun.
  generalize (@None ustr) as path. revert s.
  induction cuts as [|[cut d] cuts IH]; intros s path Hbegun Hun; cbn [returning];
    destruct (resume_plan None media_ requested (N.of_nat (length content)) path s) as [s1 p] eqn:Ep;
    destruct (resume_plan_ready name _ _ _ _ _ Hname Hun Hbegun Ep) as (Hun1 & Hm & Hl & Hfresh & Hresume & Hthere & Hat).
  - destruct (Hat last_directory) as (n & Hn & Hs & Hheld & Hrem); [by left|].
    rewrite Hs, Nat2N.id.
    set (items := pieces (sizes ++ [length (drop n content)]) (drop n content) ++ [Finish (hex (sha256 content))]).
    assert (bytes_before items = drop n content) as Hb.
    { unfold items. rewrite bytes_before_pieces. cbn [bytes_before]. rewrite app_nil_r.
      apply take_ge. rewrite sum_list_app. cbn. lia. }
    assert (take n content ++ bytes_before items = content) as Hall by (rewrite Hb; apply take_drop).
    rewrite (relay_whole p name last_directory items s1 (take n content)); try done.
    + rewrite Hall. eexists _, _. split; [by rewrite Hl|]. cbn. apply lookup_insert_eq.
    + rewrite Hs, length_take. lia.
    + by rewrite Hall, Hl.
    + apply no_empty_pieces. by apply Forall_singleton.
    + rewrite Hall. unfold items. by rewrite ending_pieces.
  - destruct (Hat d) as (n & Hn & Hs & Hheld & Hrem); [by left|]. rewrite Hs, Nat2N.id.
    assert (bytes_before (pieces cut (drop n content)) = take (sum_list cut) (drop n content)) as Hb.
    { rewrite <-(app_nil_r (pieces _ _)), bytes_before_pieces. apply app_nil_r. }
    rewrite (relay_cut p name d _ s1 (take n content)); try done.
    + apply IH.
      * split; [done|]. rewrite Hb, take_take_drop. cbn. rewrite lookup_insert_eq. by eexists.
      * destruct Hun1 as [Hnd Hun1]. cbn [fmap list_fmap snd app] in *. apply NoDup_cons in Hnd as [Hnew Hnd].
        split; [done|]. intros d' Hd'. destruct (Hun1 d') as [Hmade Hnone]; [by right|]. split; [done|].
        cbn. rewrite lookup_insert_ne; [done|]. intros Heq. 
        unfold attempt_path in Heq. destruct (staging p) as [|path' k] eqn:Ek.
        -- apply app_inj_2 in Heq as [-> _]; done.
        -- (* the file resumed exists, the other does not *)
           destruct (Hthere path' k eq_refl) as [x Hx]. congruence.
    + rewrite Hs, length_take. lia.
    + rewrite Hb, take_take_drop, length_take, Hl. lia.
    + rewrite <-(app_nil_r (pieces _ _)). apply no_empty_pieces. constructor.
    + rewrite <-(app_nil_r (pieces _ _)). by rewrite ending_pieces.
Qed.
End returning.

(** ** Copies between targets, and payloads held in memory *)

Section copies.
Context {H : Type} {host : RemoteHost H} {sha : Sha256} {laws : RemoteHostLaws H}.

(** A copy between two targets is kept only when both agree about it: it is
    within the ceiling and of the length the source declared, and what the
    destination stored has the digest the source declared. *)
Theorem between_verified reading ssh name ceiling f (s : Machine H) s' path n :
  between reading ssh name ceiling f s = (s', Ok (path, n)) →
  (n ≤ ceiling)%N ∧ n = sf_length reading ∧
  ∃ content, files_of ssh s' !! path = Some content ∧ n = N.of_nat (length content) ∧
    sf_digest reading = hex (sha256 content).
Proof.
  unfold between. destruct (N.ltb_spec ceiling (sf_length reading)) as [|Hc]; [done|].
  set (p := {| media := OPAQUE; staging := _; plan_length := _ |}).
  destruct (upload_stream ssh p f reading s) as [[source s1] [t|e]] eqn:Eu; [|done].
  destruct (upload_stream_reported _ _ _ _ _ _ _ _ Eu) as [[content Ht] _].
  destruct t as [file|path' staged]; [|done]. destruct Ht as (Hf & Hn & Hp & Hd).
  unfold accept_copy. case_bool_decide as Hdig; [|done]. intros [= <- <- <-].
  cbn in Hp. split; [lia|]. split; [done|]. exists content. split_and!; try done. congruence.
Qed.

(** The same for a clipboard's payload. *)
Lemma upload_media_verified ssh media_ payload_ in_time f (s : Machine H) s' file :
  upload_media ssh media_ payload_ in_time f s = (s', Some file) →
  media_validate media_ payload_ = true ∧
  ∃ content, files_of ssh s' !! up_path file = Some content ∧
    length content = length payload_ ∧ hex (sha256 content) = hex (sha256 payload_).
Proof.
  unfold upload_media. destruct (media_validate media_ payload_); cbn [negb]; [|done].
  destruct (resolve_name None media_) as [name|]; [|done]. intros Hup. split; [done|]. revert Hup.
  destruct ssh as [destination|]; (destruct (starts f); cbn [negb]; [|done]).
  - destruct (run_stage destination (NewFile name) payload_ (remotes s)) as [r [[receipt|] success]] eqn:Es; [|done].
    destruct (success && in_time); cbn [negb]; [|done].
    destruct (N.eqb_spec (receipt_bytes receipt) (N.of_nat (length payload_))) as [En|]; cbn [negb orb]; [|done].
    case_bool_decide as Ed; cbn [negb]; [|done]. intros [= <- <-].
    destruct (stage_receipt _ _ _ _ _ _ _ Es) as (content & Hf & Hn & Hd). exists content.
    split; [done|]. split; [lia|congruence].
  - set (path := directory f ++ slash :: name). destruct (bool_decide _ || _ || _); [done|].
    set (s1 := set_local _ s). destruct (file_receipt path s1) as [[n digest]|] eqn:Ef; [|done].
    destruct (N.eqb_spec n (N.of_nat (length payload_))) as [En|]; cbn [negb orb]; [|done].
    case_bool_decide as Ed; cbn [negb]; [|done]. intros [= <- <-].
    destruct (file_receipt_true _ _ _ _ Ef) as (content & Hf & Hn & Hd). exists content.
    split; [done|]. split; [lia|congruence].
Qed.
End copies.

(** ** A host *)

Module Toy.
(** A remote host of one staging directory, that hashes nothing. *)
#[export] Instance plain_digest : Sha256 := λ b, b.
Definition staged_path (name : ustr) : ustr := u "/tmp/super-herdr-clipboard.a/" ++ name.
#[export] Instance shell : RemoteHost (gmap ustr bytes) := {|
  run_stage := λ _ heading b files,
    let path := match heading with NewFile name => staged_path name | ExistingFile path => path end in
    let content := default [] (files !! path) ++ b in
    (<[path := content]> files,
     (Some {| receipt_path := path; receipt_bytes := N.of_nat (length content);
              receipt_digest := hex (sha256 content) |}, true));
  run_size := λ _ path files, content ← files !! path; Some (N.of_nat (length content));
  run_remove := λ _ d files, remove_directory d files;
  remote_files := λ _ files, files;
|}.
#[export] Instance shell_laws : RemoteHostLaws (gmap ustr bytes).
Proof.
  split. intros d h b s s' receipt ok Heq. unfold run_stage, shell in Heq.
  set (path := match h with NewFile name => _ | ExistingFile path => path end) in Heq.
  injection Heq as <- <- _. cbn [remote_files shell receipt_path receipt_bytes receipt_digest].
  rewrite lookup_insert_eq. by eexists.
Qed.

Definition machine : Machine (gmap ustr bytes) := {| local_files := ∅; remotes := ∅ |}.
Definition host_name : option ustr := Some (u "host").
Definition made (c : N) : ustr := u "/tmp/super-herdr-clipboard." ++ [c].
Definition hello : bytes := u "hello".
Definition plan : TransferPlan := {| media := OPAQUE; staging := Fresh (Some (u "greeting")); plan_length := 5 |}.
Definition sent : list RelayItem := [Chunk (u "hel"); Chunk (u "lo"); Finish (hex hello)].
Definition greeting : SourceFile :=
  {| sf_name := u "greeting"; sf_length := 5; sf_digest := hex hello; sf_stream := [Some hello] |}.

Lemma made_made c : c ≠ slash → is_control c = false → made_here (made c).
Proof.
  intros Hc Hctl. exists (u "tmp"), [c]. split; [done|]. split; [set_solver|].
  apply existsb_false. unfold made. rewrite existsb_app. apply orb_false_iff. split; [by vm_compute|].
  cbn [existsb]. by rewrite Hctl.
Qed.
End Toy.
Import Toy.

Lemma relay_done_verified_witness :
  ∃ content digest, files_of Toy.host_name (relay Toy.host_name Toy.plan Toy.sent (faultless []) Toy.machine).1
                      !! Toy.staged_path (u "greeting") = Some content ∧
    5%N = N.of_nat (length content) ∧ 5%N = plan_length Toy.plan ∧
    Finish digest ∈ Toy.sent ∧ digest = hex (sha256 content).
Proof.
  apply (relay_done_verified Toy.host_name Toy.plan Toy.sent (faultless []) Toy.machine).
  etrans; [apply surjective_pairing|]. f_equal.
Defined.

Lemma between_verified_witness :
  (5 ≤ 10)%N ∧ 5%N = sf_length Toy.greeting ∧
  ∃ content, files_of Toy.host_name (between Toy.greeting Toy.host_name None 10 (faultless []) Toy.machine).1
               !! Toy.staged_path (u "greeting") = Some content ∧
    5%N = N.of_nat (length content) ∧ sf_digest Toy.greeting = hex (sha256 content).
Proof.
  apply (between_verified Toy.greeting Toy.host_name None 10 (faultless []) Toy.machine).
  etrans; [apply surjective_pairing|]. f_equal.
Defined.

Lemma staged_name_stays_witness :
  (∀ r, Some (u "a b.txt") = Some r → u "a b.txt" = r) ∧
  u "a b.txt" ≠ [] ∧ u "a b.txt" ≠ u "." ∧ u "a b.txt" ≠ u ".." ∧ slash ∉ u "a b.txt" ∧
  split_once [10%N] (u "a b.txt" ++ [10%N] ++ u "payload") = Some (u "a b.txt", u "payload") ∧
  removable_upload_directory (Toy.made 97 ++ slash :: u "a b.txt") = Some (Toy.made 97).
Proof.
  apply (staged_name_stays (Some (u "a b.txt")) OPAQUE); [by vm_compute|].
  apply Toy.made_made; [done|by vm_compute].
Defined.

(** Cut off after three bytes, then twice more, once before anything was sent. *)
Lemma interrupted_upload_completes_witness :
  ∃ s' path,
    returning OPAQUE (Some (u "greeting")) Toy.hello
      [([2; 1], Toy.made 97); ([], Toy.made 98); ([1], Toy.made 99)] [] (Toy.made 100) None Toy.machine
    = (s', Done path 5) ∧
    local_files s' !! path = Some Toy.hello.
Proof.
  apply (interrupted_upload_completes OPAQUE (Some (u "greeting")) Toy.hello (u "greeting")); [by vm_compute|].
  split; [by apply (bool_decide_unpack _); vm_compute|].
  intros d Hd. split; [|done].
  repeat (apply elem_of_cons in Hd as [->|Hd]; [by apply Toy.made_made; vm_compute|]).
  by apply elem_of_nil in Hd.
Defined.

(** An attempt to continue that fails before the host answers is reported as a
    refusal, and what was staged before stays where it is. *)
Example refused_resume_leaves_bytes :
  let path := Toy.made 97 ++ u "/greeting" in
  let s : Machine (gmap ustr bytes) := {| local_files := {[path := u "hel"]}; remotes := ∅ |} in
  let p := {| media := OPAQUE; staging := Resume path 3; plan_length := 5 |} in
  let f := {| starts := false; broken_write := None; ends_badly := false; reads_back := true; late := false;
              directory := [] |} in
  relay None p [Chunk (u "lo"); Finish (hex Toy.hello)] f s = (s, Refused (UploadFailed HostFailed)) ∧
  local_files s !! path = Some (u "hel").
Proof. by vm_compute. Qed.
