(* ===== verification/Retention.v ===== *)
(** The daemon's account of transfers: [src/src/daemon/server.rs], from
    [begin_relay] to [forget_retained].

    What each request and each ended attempt does to the transfers kept for a
    sender that may come back, to the queues offered for them, and to the reads in
    progress. What the daemon starts or says is output; the attempts themselves
    are [Staging.relay]. Time is an instant in milliseconds. *)

From S2P Require Import Prelude Text Model Config Protocol Clipboard Staging.

Definition RETAIN_TIMEOUT : N := 10 * 60 * 1000.
Definition MAX_RETAINED_TRANSFERS : nat := 4.

Record Retained := {
  ret_pane : PaneId;
  ret_mime : ustr;
  ret_name : option ustr;
  ret_length : N;
  ret_path : option ustr;
  ret_staged : N;
  in_flight : bool;
  expires_at : N;
}.
Definition set_in_flight (b : bool) (r : Retained) : Retained := {|
  ret_pane := ret_pane r; ret_mime := ret_mime r; ret_name := ret_name r; ret_length := ret_length r;
  ret_path := ret_path r; ret_staged := ret_staged r; in_flight := b; expires_at := expires_at r |}.
Definition set_staged (n : N) (r : Retained) : Retained := {|
  ret_pane := ret_pane r; ret_mime := ret_mime r; ret_name := ret_name r; ret_length := ret_length r;
  ret_path := ret_path r; ret_staged := n; in_flight := in_flight r; expires_at := expires_at r |}.
Definition set_interrupted (path : ustr) (staged expiry : N) (r : Retained) : Retained := {|
  ret_pane := ret_pane r; ret_mime := ret_mime r; ret_name := ret_name r; ret_length := ret_length r;
  ret_path := Some path; ret_staged := staged; in_flight := false; expires_at := expiry |}.

Record Transfers := {
  offers : gset (N * N);              (** queues handed over, by client and request *)
  retained : gmap ustr Retained;
  downloads : gset (N * N);           (** reads and copies in progress *)
}.
Definition Transfers_default : Transfers := {| offers := ∅; retained := ∅; downloads := ∅ |}.
Definition set_offers (o : gset (N * N)) (t : Transfers) : Transfers :=
  {| offers := o; retained := retained t; downloads := downloads t |}.
Definition set_retained (m : gmap ustr Retained) (t : Transfers) : Transfers :=
  {| offers := offers t; retained := m; downloads := downloads t |}.
Definition set_downloads (d : gset (N * N)) (t : Transfers) : Transfers :=
  {| offers := offers t; retained := retained t; downloads := d |}.

Inductive TransferOutput :=
  | Say (client : N) (message : ServerMessage)
  | StartAttempt (client request : N) (transfer : ustr) (target : Target) (kept : Retained)
  | DiscardBytes (target : Target) (path : ustr)
  | StartRead (client request : N) (target : Target) (path : ustr)
  | StartCopy (client request : N) (from to : Target) (path : ustr) (name : option ustr)
  | Grant (client request : N) (chunks : N)
  | StopTask (client request : N).

(** What the operations read of the daemon: the clients that can be written to,
    the targets, the ceiling. *)
Record Surroundings := {
  outboxes : gset N;
  known_targets : gmap TargetSession Target;
  ceiling : N;
}.

Section operations.
Context (w : Surroundings).

(** [Daemon::tell] and [Daemon::refuse]. *)
Definition tell (client : N) (message : ServerMessage) : list TransferOutput :=
  if bool_decide (client ∈ outboxes w) then [Say client message] else [].
Definition refuse (client request : N) (message : ustr) : list TransferOutput :=
  tell client (ErrorMessage (Some request) message).

Definition transfer_target (client request : N) (pane : PaneId) : result (list TransferOutput) Target :=
  let key := target_session pane in
  match known_targets w !! key with
  | Some target => Ok target
  | None => Err (refuse client request (display_target_session key ++ u " is not a configured target"))
  end.

(** Drop a kept transfer, and its bytes with it. *)
Definition forget_retained (transfer : ustr) (t : Transfers) : Transfers * list TransferOutput :=
  match retained t !! transfer with
  | None => (t, [])
  | Some kept =>
      (set_retained (delete transfer (retained t)) t,
       match ret_path kept with
       | None => []
       | Some path =>
           match known_targets w !! target_session (ret_pane kept) with
           | None => []
           | Some target => [DiscardBytes target path]
           end
       end)
  end.

Definition lapsed (now : N) (kept : Retained) : bool := negb (in_flight kept) && (expires_at kept <=? now)%N.
Definition sweep_retained (now : N) (t : Transfers) : Transfers * list TransferOutput :=
  foldl (λ to transfer, let '(t, out) := forget_retained transfer to.1 in (t, to.2 ++ out)) (t, [])
    (filter (λ transfer, from_option (lapsed now) false (retained t !! transfer)) (keys (retained t))).

Fixpoint evict_loop (fuel : nat) (t : Transfers) : Transfers * list TransferOutput :=
  match fuel with
  | O => (t, [])
  | S fuel' =>
      if MAX_RETAINED_TRANSFERS <=? size (retained t) then
        match min_by_key (λ kv : ustr * Retained, expires_at kv.2)
                (filter (λ kv, in_flight kv.2 = false) (entries (retained t))) with
        | None => (t, [])
        | Some oldest =>
            let '(t, out) := forget_retained oldest.1 t in
            let '(t, more) := evict_loop fuel' t in (t, out ++ more)
        end
      else (t, [])
  end.
(** Each pass forgets one, so as many passes as there are kept are enough. *)
Definition evict_retained (t : Transfers) : Transfers * list TransferOutput := evict_loop (size (retained t)) t.

Definition begin_relay (client request : N) (pane : PaneId) (mime_ : ustr) (name : option ustr) (length_ : N)
    (token_ : option ustr) (now : N) (t : Transfers) : Transfers * list TransferOutput :=
  if negb (bool_decide ((client, request) ∈ offers t))
  then (t, refuse client request (u "no transfer is in progress"))
  else
    let t := set_offers (offers t ∖ {[(client, request)]}) t in
    if (ceiling w <? length_)%N
    then (t, refuse client request (u "refusing a " ++ display_N length_ ++ u " byte upload; the limit is "
                                    ++ display_N (ceiling w)))
    else match transfer_target client request pane with
    | Err out => (t, out)
    | Ok target =>
        match token_ with
        | None => (t, refuse client request (u "the daemon could not generate a transfer token"))
        | Some transfer =>
            let '(t, swept) := sweep_retained now t in
            let '(t, evicted) := evict_retained t in
            let kept := {| ret_pane := pane; ret_mime := mime_; ret_name := name; ret_length := length_;
                           ret_path := None; ret_staged := 0; in_flight := true;
                           expires_at := now + RETAIN_TIMEOUT |} in
            (set_retained (<[transfer := kept]> (retained t)) t,
             swept ++ evicted ++ tell client (UploadAccepted request transfer 0)
             ++ [StartAttempt client request transfer target kept])
        end
    end.

Definition resume_relay (client request : N) (transfer : ustr) (pane : PaneId) (length_ : N) (now : N)
    (t : Transfers) : Transfers * list TransferOutput :=
  if negb (bool_decide ((client, request) ∈ offers t))
  then (t, refuse client request (u "no transfer is in progress"))
  else
    let t := set_offers (offers t ∖ {[(client, request)]}) t in
    let '(t, swept) := sweep_retained now t in
    match retained t !! transfer with
    | None => (t, swept ++ refuse client request (u "there is no transfer to resume under that token"))
    | Some kept =>
        if in_flight kept
        then (t, swept ++ refuse client request (u "that transfer is still being carried"))
        else if negb (bool_decide (ret_pane kept = pane)) || negb (ret_length kept =? length_)%N
        then (t, swept ++ refuse client request (u "that token belongs to a different transfer"))
        else match transfer_target client request pane with
        | Err out => (t, swept ++ out)
        | Ok target =>
            (set_retained (<[transfer := set_in_flight true kept]> (retained t)) t,
             swept ++ [StartAttempt client request transfer target (set_in_flight true kept)])
        end
    end.

(** [Input::ResumeOffset]: the host said what it holds. *)
Definition resume_offset (client request : N) (transfer : ustr) (staged : N) (t : Transfers)
    : Transfers * list TransferOutput :=
  (set_retained (alter (set_staged staged) transfer (retained t)) t,
   tell client (UploadAccepted request transfer staged)).

Definition relay_finished (client request : N) (transfer : ustr) (outcome : Relayed)
    (refusal : Refusal → ustr) (now : N) (t : Transfers) : Transfers * list TransferOutput :=
  let without := set_retained (delete transfer (retained t)) t in
  match outcome with
  | Done path n => (without, tell client (UploadComplete request path n))
  | Refused why => (without, refuse client request (refusal why))
  | Withdrawn => (without, [])
  | Interrupted path staged =>
      match retained t !! transfer with
      | None => (t, [])
      | Some kept =>
          (set_retained (<[transfer := set_interrupted path staged (now + RETAIN_TIMEOUT) kept]> (retained t)) t,
           tell client (UploadInterrupted request transfer staged))
      end
  end.

Definition begin_download (client request : N) (pane : PaneId) (path : ustr) (t : Transfers)
    : Transfers * list TransferOutput :=
  if bool_decide ((client, request) ∈ downloads t)
  then (t, refuse client request (u "that request is already reading a file"))
  else match transfer_target client request pane with
  | Err out => (t, out)
  | Ok target =>
      if bool_decide (client ∈ outboxes w)
      then (set_downloads ({[(client, request)]} ∪ downloads t) t, [StartRead client request target path])
      else (t, [])
  end.

Definition begin_between (client request : N) (source : PaneId) (path : ustr) (destination : PaneId)
    (name : option ustr) (t : Transfers) : Transfers * list TransferOutput :=
  if bool_decide ((client, request) ∈ downloads t)
  then (t, refuse client request (u "that request is already moving a file"))
  else match transfer_target client request source with
  | Err out => (t, out)
  | Ok from =>
      match transfer_target client request destination with
      | Err out => (t, out)
      | Ok to =>
          if bool_decide (client ∈ outboxes w)
          then (set_downloads ({[(client, request)]} ∪ downloads t) t,
                [StartCopy client request from to path name])
          else (t, [])
      end
  end.

Definition pull_download (client request chunks_ : N) (t : Transfers) : Transfers * list TransferOutput :=
  (t, if bool_decide ((client, request) ∈ downloads t) then [Grant client request chunks_]
      else refuse client request (u "no file is being read")).

Definition stop_download (client request : N) (t : Transfers) : Transfers * list TransferOutput :=
  if bool_decide ((client, request) ∈ downloads t)
  then (set_downloads (downloads t ∖ {[(client, request)]}) t, [StopTask client request])
  else (t, []).

(** [Effect::CancelUpload]. *)
Definition cancel_upload (client request : N) (t : Transfers) : Transfers * list TransferOutput :=
  stop_download client request (set_offers (offers t ∖ {[(client, request)]}) t).

(** [Input::UploadOffered] and [Input::DownloadEnded]. *)
Definition upload_offered (client request : N) (t : Transfers) : Transfers :=
  set_offers ({[(client, request)]} ∪ offers t) t.
Definition download_ended (client request : N) (t : Transfers) : Transfers :=
  set_downloads (downloads t ∖ {[(client, request)]}) t.

(** The transfers' part of [Input::Disconnected]: the client's offers are dropped
    and its reads stopped; what is kept for it stays. *)
Definition client_left (client : N) (t : Transfers) : Transfers * list TransferOutput :=
  let t := set_offers (filter (λ cr, cr.1 ≠ client) (offers t)) t in
  foldl (λ to cr, let '(t, out) := stop_download cr.1 cr.2 to.1 in (t, to.2 ++ out)) (t, [])
    (filter (λ cr, cr.1 = client) (set_iter (downloads t))).

(** [Daemon::discard_retained], when the daemon stops. *)
Definition discard_retained (t : Transfers) : Transfers * list TransferOutput :=
  (set_retained ∅ t,
   omap (λ kept, path ← ret_path kept; target ← known_targets w !! target_session (ret_pane kept);
                 Some (DiscardBytes target path)) (values (retained t))).
End operations.
