(* ===== verification/RetentionFacts.v ===== *)
(** What the daemon's account of transfers guarantees: one attempt at a time for
    each transfer, for the pane and length it was begun with, and a bound on what
    is kept. *)

From S2P Require Import Prelude Text Model Config Protocol Clipboard Staging Retention.

(** ** Forgetting *)

Definition starts_of (out : list TransferOutput) : list (N * N * ustr) :=
  omap (λ o, match o with StartAttempt c r transfer _ _ => Some (c, r, transfer) | _ => None end) out.

Lemma starts_of_app o1 o2 : starts_of (o1 ++ o2) = starts_of o1 ++ starts_of o2.
Proof. apply omap_app. Qed.

Section forgetting.
Context (w : Surroundings).

Lemma starts_of_tell c m : starts_of (tell w c m) = [].
Proof. unfold tell. by case_bool_decide. Qed.
Lemma starts_of_refuse c r m : starts_of (refuse w c r m) = [].
Proof. apply starts_of_tell. Qed.

Lemma forget_spec transfer t :
  retained (forget_retained w transfer t).1 = delete transfer (retained t) ∧
  offers (forget_retained w transfer t).1 = offers t ∧ downloads (forget_retained w transfer t).1 = downloads t ∧
  starts_of (forget_retained w transfer t).2 = [].
Proof.
  unfold forget_retained. destruct (retained t !! transfer) as [kept|] eqn:E; cbn.
  - split; [done|]. split; [done|]. split; [done|].
    destruct (ret_path kept); [|done]. by destruct (known_targets w !! _).
  - by rewrite delete_id.
Qed.

(** What sweeping and evicting leave: every transfer in flight, and nothing new. *)
Definition spared (t t' : Transfers) : Prop :=
  retained t' ⊆ retained t ∧
  (∀ transfer kept, retained t !! transfer = Some kept → in_flight kept = true → retained t' !! transfer = Some kept) ∧
  offers t' = offers t ∧ downloads t' = downloads t.

Lemma spared_refl t : spared t t.
Proof. by split_and!. Qed.
Lemma spared_trans t1 t2 t3 : spared t1 t2 → spared t2 t3 → spared t1 t3.
Proof.
  intros (H1 & H2 & H3 & H4) (G1 & G2 & G3 & G4). split; [by etrans|]. split; [naive_solver|]. by rewrite G3, G4.
Qed.

Lemma forget_spared transfer t :
  (∀ kept, retained t !! transfer = Some kept → in_flight kept = false) → spared t (forget_retained w transfer t).1.
Proof.
  intros Hnot. destruct (forget_spec transfer t) as (Hr & Ho & Hd & _). split; [|split; [|done]].
  - rewrite Hr. apply delete_subseteq.
  - intros transfer' kept Hk Hf. rewrite Hr. apply lookup_delete_Some. split; [|done].
    intros ->. by rewrite (Hnot kept Hk) in Hf.
Qed.

Lemma sweep_spared now t :
  spared t (sweep_retained w now t).1 ∧ starts_of (sweep_retained w now t).2 = [].
Proof.
  unfold sweep_retained. set (l := filter _ _).
  assert (∀ transfer, transfer ∈ l → from_option (lapsed now) false (retained t !! transfer) = true) as Hl
    by (intros transfer [H%Is_true_true _]%list_elem_of_filter; done).
  assert (∀ to : Transfers * list TransferOutput, spared t to.1 → starts_of to.2 = [] →
    spared t (foldl (λ to transfer, let '(t, out) := forget_retained w transfer to.1 in (t, to.2 ++ out)) to l).1 ∧
    starts_of (foldl (λ to transfer, let '(t, out) := forget_retained w transfer to.1 in (t, to.2 ++ out)) to l).2 = []) as Hgo.
  2: { apply Hgo; [apply spared_refl|done]. }
  clear -Hl. clearbody l. induction l as [|transfer l IH]; intros to Ht Ho; [done|]. cbn [foldl]. apply IH.
  - intros; apply Hl. by right.
  - destruct (forget_retained w transfer to.1) as [t1 out] eqn:E. cbn [fst].
    eapply spared_trans; [exact Ht|]. replace t1 with (forget_retained w transfer to.1).1 by by rewrite E.
    apply forget_spared. intros kept Hk. destruct Ht as (Hsub & _). pose proof (lookup_weaken _ _ _ _ Hk Hsub) as Hk'.
    specialize (Hl transfer ltac:(by left)). rewrite Hk' in Hl. cbn in Hl. unfold lapsed in Hl.
    by apply andb_true_iff in Hl as [Hl%negb_true_iff _].
  - destruct (forget_spec transfer to.1) as (_ & _ & _ & Hs).
    destruct (forget_retained w transfer to.1) as [t1 out]. cbn [snd] in *. by rewrite starts_of_app, Ho, Hs.
Qed.

Lemma evict_spared fuel t :
  spared t (evict_loop w fuel t).1 ∧ starts_of (evict_loop w fuel t).2 = [] ∧
  (size (retained t) ≤ fuel →
   size (retained (evict_loop w fuel t).1) < MAX_RETAINED_TRANSFERS ∨
   map_Forall (λ _ kept, in_flight kept = true) (retained (evict_loop w fuel t).1)).
Proof.
  revert t. induction fuel as [|fuel IH]; intros t; cbn [evict_loop].
  { split; [apply spared_refl|]. split; [done|]. intros Hs. left. unfold MAX_RETAINED_TRANSFERS. cbn. lia. }
  destruct (Nat.leb_spec MAX_RETAINED_TRANSFERS (size (retained t))) as [Hle|].
  2: { split; [apply spared_refl|]. split; [done|]. by left. }
  pose proof (min_by_key_spec (λ kv : ustr * Retained, expires_at kv.2)
                (filter (λ kv, in_flight kv.2 = false) (entries (retained t)))) as Hmin.
  destruct (min_by_key _ _) as [[transfer kept]|].
  - destruct Hmin as [[Hnot Hin%elem_of_entries]%list_elem_of_filter _]. cbn [fst snd] in *.
    pose proof (forget_spared transfer t) as Hf. destruct (forget_spec transfer t) as (Hr & _ & _ & Hs).
    destruct (forget_retained w transfer t) as [t1 out]. cbn [fst snd] in *.
    destruct (IH t1) as (Hsp & Hout & Hbound). destruct (evict_loop w fuel t1) as [t2 more]. cbn [fst snd] in *.
    split; [eapply spared_trans; [apply Hf; naive_solver|done]|].
    split; [by rewrite starts_of_app, Hs, Hout|]. intros Hfuel. apply Hbound. rewrite Hr.
    rewrite map_size_delete_Some by eauto. lia.
  - split; [apply spared_refl|]. split; [done|]. intros _. right. intros transfer kept Hk.
    destruct (in_flight kept) eqn:E; [done|]. exfalso.
    assert ((transfer, kept) ∈ filter (λ kv, in_flight kv.2 = false) (entries (retained t))) as Hin
      by (apply list_elem_of_filter; split; [done|by apply elem_of_entries]).
    rewrite Hmin in Hin. by apply elem_of_nil in Hin.
Qed.
End forgetting.

(** ** Runs *)

Inductive TransferEvent :=
  | Offered (client request : N)
  | Begun (client request : N) (pane : PaneId) (mime_ : ustr) (name : option ustr) (length_ : N)
      (token_ : option ustr) (now : N)
  | Resumed (client request : N) (transfer : ustr) (pane : PaneId) (length_ now : N)
  | OffsetTold (client request : N) (transfer : ustr) (staged : N)
  | AttemptEnded (client request : N) (transfer : ustr) (outcome : Relayed) (now : N)
  | DownloadBegun (client request : N) (pane : PaneId) (path : ustr)
  | CopyBegun (client request : N) (source : PaneId) (path : ustr) (destination : PaneId) (name : option ustr)
  | Pulled (client request chunks_ : N)
  | Stopped (client request : N)
  | UploadCancelled (client request : N)
  | DownloadOver (client request : N)
  | ClientLeft (client : N)
  | Swept (now : N).

Lemma NoDup_snd_inj {A B} (l : list (A * B)) a a' b : NoDup l.*2 → (a, b) ∈ l → (a', b) ∈ l → a = a'.
Proof.
  induction l as [|[x y] l IH]; intros Hnd H1 H2; [by apply elem_of_nil in H1|].
  cbn in Hnd. apply NoDup_cons in Hnd as [Hn Hnd].
  apply elem_of_cons in H1 as [H1|H1], H2 as [H2|H2]; simplify_eq; try done; [| |by apply IH].
  - destruct Hn. apply list_elem_of_fmap. by exists (a', y).
  - destruct Hn. apply list_elem_of_fmap. by exists (a, y).
Qed.

Section events.
Context (refusal : Refusal → ustr).

Definition transfer_event (w : Surroundings) (e : TransferEvent) (t : Transfers) : Transfers * list TransferOutput :=
  match e with
  | Offered c r => (upload_offered c r t, [])
  | Begun c r pane mime_ name length_ token_ now => begin_relay w c r pane mime_ name length_ token_ now t
  | Resumed c r transfer pane length_ now => resume_relay w c r transfer pane length_ now t
  | OffsetTold c r transfer staged => resume_offset w c r transfer staged t
  | AttemptEnded c r transfer outcome now => relay_finished w c r transfer outcome refusal now t
  | DownloadBegun c r pane path => begin_download w c r pane path t
  | CopyBegun c r source path destination name => begin_between w c r source path destination name t
  | Pulled c r chunks_ => pull_download w c r chunks_ t
  | Stopped c r => stop_download c r t
  | UploadCancelled c r => cancel_upload c r t
  | DownloadOver c r => (download_ended c r t, [])
  | ClientLeft c => client_left c t
  | Swept now => sweep_retained w now t
  end.

(** The attempts running, the most that ever ran at once, and all that was said
    and started. *)
Record TransferRun := {
  run_transfers : Transfers;
  running : list (N * N * ustr);
  peak : nat;
  said : list TransferOutput;
}.
Definition TransferRun_start : TransferRun :=
  {| run_transfers := Transfers_default; running := []; peak := 0; said := [] |}.

Definition ended (e : TransferEvent) : option (N * N * ustr) :=
  match e with AttemptEnded c r transfer _ _ => Some (c, r, transfer) | _ => None end.
Definition token_used (r : TransferRun) (transfer : ustr) : Prop :=
  is_Some (retained (run_transfers r) !! transfer) ∨ transfer ∈ (starts_of (said r)).*2.

(** Attempts end once each, and a token is one never seen before. *)
Definition possible (e : TransferEvent) (r : TransferRun) : Prop :=
  match e with
  | AttemptEnded c q transfer _ _ => (c, q, transfer) ∈ running r
  | Begun _ _ _ _ _ _ (Some transfer) _ => ¬ token_used r transfer
  | _ => True
  end.

Definition transfer_step (w : Surroundings) (e : TransferEvent) (r : TransferRun) : TransferRun :=
  let '(t, out) := transfer_event w e (run_transfers r) in
  let running_ := (match ended e with
                   | Some attempt => filter (λ a, a ≠ attempt) (running r)
                   | None => running r
                   end) ++ starts_of out in
  {| run_transfers := t; running := running_; peak := peak r `max` length running_; said := said r ++ out |}.

Inductive transfers_run : TransferRun → Prop :=
  | transfers_start : transfers_run TransferRun_start
  | transfers_next w e r : transfers_run r → possible e r → transfers_run (transfer_step w e r).

(** What an output says of the pane and the length of a transfer. *)
Definition identity_of (o : TransferOutput) : option (ustr * (PaneId * N)) :=
  match o with
  | StartAttempt _ _ transfer _ kept => Some (transfer, (ret_pane kept, ret_length kept))
  | _ => None
  end.

Record run_inv (r : TransferRun) : Prop := {
  inv_running : NoDup (running r).*2;
  inv_flight : ∀ transfer, transfer ∈ (running r).*2 ↔
    ∃ kept, retained (run_transfers r) !! transfer = Some kept ∧ in_flight kept = true;
  inv_size : size (retained (run_transfers r)) ≤ MAX_RETAINED_TRANSFERS `max` peak r;
  inv_kept : ∀ transfer kept, retained (run_transfers r) !! transfer = Some kept →
    ∃ o, o ∈ said r ∧ identity_of o = Some (transfer, (ret_pane kept, ret_length kept));
  inv_identity : ∀ o1 o2 transfer i1 i2, o1 ∈ said r → o2 ∈ said r →
    identity_of o1 = Some (transfer, i1) → identity_of o2 = Some (transfer, i2) → i1 = i2;
}.

(** An event that starts nothing and loses no attempt. *)
Lemma quiet_altered_inv r t out :
  run_inv r → starts_of out = [] →
  (∀ x k, retained t !! x = Some k → ∃ k', retained (run_transfers r) !! x = Some k' ∧
     ret_pane k' = ret_pane k ∧ ret_length k' = ret_length k ∧ in_flight k' = in_flight k) →
  (∀ x k, retained (run_transfers r) !! x = Some k → in_flight k = true →
     ∃ k', retained t !! x = Some k' ∧ in_flight k' = true) →
  run_inv {| run_transfers := t; running := running r ++ starts_of out;
             peak := peak r `max` length (running r ++ starts_of out); said := said r ++ out |}.
Proof.
  intros [Hnd Hfl Hsz Hk Hid] Hout Hsub Hkeep. rewrite Hout, app_nil_r.
  assert (∀ o i, o ∈ out → identity_of o = Some i → False) as Hno.
  { intros o i Ho Hi. destruct o; try done. assert ((client, request, transfer) ∈ starts_of out) as Hin.
    { apply list_elem_of_omap. by exists (StartAttempt client request transfer target kept). }
    rewrite Hout in Hin. by apply elem_of_nil in Hin. }
  split; cbn.
  - done.
  - intros transfer. rewrite Hfl. split; intros (kept & Hr & Hf).
    + by eapply Hkeep.
    + destruct (Hsub transfer kept Hr) as (k' & Hk' & _ & _ & Hf'). exists k'. by rewrite Hf'.
  - assert (size (retained t) ≤ size (retained (run_transfers r))) as Hle; [|lia].
    apply dom_subseteq_size. intros x [k Hx]%elem_of_dom. destruct (Hsub x k Hx) as (k' & Hk' & _).
    apply elem_of_dom. by exists k'.
  - intros transfer kept Hr. destruct (Hsub transfer kept Hr) as (k' & Hk' & <- & <- & _).
    destruct (Hk transfer k' Hk') as (o & Ho & Hi). exists o. split; [|done]. apply elem_of_app. by left.
  - intros o1 o2 transfer i1 i2 [H1|H1]%elem_of_app [H2|H2]%elem_of_app E1 E2;
      [exact (Hid o1 o2 transfer i1 i2 H1 H2 E1 E2)|exfalso..]; eapply Hno; eassumption.
Qed.

Lemma quiet_inv r t out :
  run_inv r → starts_of out = [] →
  retained t ⊆ retained (run_transfers r) →
  (∀ transfer kept, retained (run_transfers r) !! transfer = Some kept → in_flight kept = true →
                    retained t !! transfer = Some kept) →
  run_inv {| run_transfers := t; running := running r ++ starts_of out;
             peak := peak r `max` length (running r ++ starts_of out); said := said r ++ out |}.
Proof.
  intros Hr Hout Hsub Hkeep. apply quiet_altered_inv; [done|done| |].
  - intros x k Hx. exists k. split; [by eapply lookup_weaken|done].
  - intros x k Hx Hf. exists k. split; [by apply Hkeep|done].
Qed.

Lemma all_in_flight_size r t :
  run_inv r → retained t ⊆ retained (run_transfers r) → map_Forall (λ _ kept, in_flight kept = true) (retained t) →
  size (retained t) ≤ length (running r).
Proof.
  intros [Hnd Hfl _ _ _] Hsub Hall. rewrite <-size_dom.
  assert (dom (retained t) ⊆ (list_to_set ((running r).*2) : gset ustr)) as Hd.
  { intros transfer [kept Hk]%elem_of_dom. apply elem_of_list_to_set, Hfl. exists kept.
    split; [by eapply lookup_weaken|by eapply Hall]. }
  etrans; [by apply subseteq_size|]. rewrite size_list_to_set by done. by rewrite length_fmap.
Qed.

(** An attempt begins. *)
Lemma start_inv r t c q transfer target kept :
  run_inv r → in_flight kept = true → transfer ∉ (running r).*2 →
  retained t = <[transfer := kept]> (retained (run_transfers r)) →
  size (retained t) ≤ MAX_RETAINED_TRANSFERS `max` (peak r `max` S (length (running r))) →
  (∀ o i, o ∈ said r → identity_of o = Some (transfer, i) → i = (ret_pane kept, ret_length kept)) →
  run_inv {| run_transfers := t; running := running r ++ [(c, q, transfer)];
             peak := peak r `max` length (running r ++ [(c, q, transfer)]);
             said := said r ++ [StartAttempt c q transfer target kept] |}.
Proof.
  intros [Hnd Hfl Hsz Hk Hid] Hin Hnew Ht Hsize Hsame. split; cbn [run_transfers running peak said].
  - rewrite fmap_app. apply NoDup_app. split; [done|]. split; [|apply NoDup_singleton].
    intros x Hx ->%list_elem_of_singleton. done.
  - intros x. rewrite fmap_app, elem_of_app. cbn [fmap list_fmap snd]. rewrite list_elem_of_singleton, Hfl, Ht. split.
    + intros [(k & Hr & Hf)| ->]; [|exists kept; by rewrite lookup_insert_eq].
      exists k. split; [|done]. rewrite lookup_insert_ne; [done|]. intros ->. apply Hnew, Hfl. by exists k.
    + intros (k & [[<- <-]|[Hne Hr]]%lookup_insert_Some & Hf); [by right|]. left. by exists k.
  - rewrite length_app. cbn [length]. rewrite Nat.add_1_r. done.
  - intros x k. rewrite Ht. intros [[<- <-]|[Hne Hr]]%lookup_insert_Some.
    + exists (StartAttempt c q transfer target kept). split; [|done]. apply elem_of_app. right. by left.
    + destruct (Hk x k Hr) as (o & Ho & Hi). exists o. split; [|done]. apply elem_of_app. by left.
  - assert (∀ o x i, o ∈ [StartAttempt c q transfer target kept] → identity_of o = Some (x, i) →
              x = transfer ∧ i = (ret_pane kept, ret_length kept)) as Hnewid
      by (intros o x i ->%list_elem_of_singleton [= <- <-]; done).
    intros o1 o2 x i1 i2 [H1|H1]%elem_of_app [H2|H2]%elem_of_app E1 E2.
    + exact (Hid o1 o2 x i1 i2 H1 H2 E1 E2).
    + destruct (Hnewid _ _ _ H2 E2) as [-> ->]. by eapply Hsame.
    + destruct (Hnewid _ _ _ H1 E1) as [-> ->]. symmetry. by eapply Hsame.
    + destruct (Hnewid _ _ _ H1 E1) as [-> ->]. by destruct (Hnewid _ _ _ H2 E2) as [_ ->].
Qed.

(** An attempt ends: its transfer is dropped, or kept but no longer in flight. *)
Lemma end_inv r t c q transfer out :
  run_inv r → (c, q, transfer) ∈ running r → starts_of out = [] →
  (retained t = delete transfer (retained (run_transfers r)) ∨
   ∃ kept path staged expiry, retained (run_transfers r) !! transfer = Some kept ∧
     retained t = <[transfer := set_interrupted path staged expiry kept]> (retained (run_transfers r))) →
  run_inv {| run_transfers := t; running := filter (λ a, a ≠ (c, q, transfer)) (running r) ++ starts_of out;
             peak := peak r `max` length (filter (λ a, a ≠ (c, q, transfer)) (running r) ++ starts_of out);
             said := said r ++ out |}.
Proof.
  intros [Hnd Hfl Hsz Hk Hid] Hrun Hout Ht. rewrite Hout, app_nil_r.
  assert (∀ o i, o ∈ out → identity_of o = Some i → False) as Hno.
  { intros o i Ho Hi. destruct o; try done. assert ((client, request, transfer0) ∈ starts_of out) as Hin.
    { apply list_elem_of_omap. by exists (StartAttempt client request transfer0 target kept). }
    rewrite Hout in Hin. by apply elem_of_nil in Hin. }
  assert (∀ x, x ∈ (filter (λ a, a ≠ (c, q, transfer)) (running r)).*2 ↔ x ∈ (running r).*2 ∧ x ≠ transfer) as Hleft.
  { intros x. rewrite !list_elem_of_fmap. split.
    - intros ([[c' q'] x'] & -> & [Hne Hin]%list_elem_of_filter). cbn. split; [by exists (c', q', x')|].
      intros ->. apply Hne.
      assert ((c', q') = (c, q)) as [= -> ->]; [|done].
      by eapply (NoDup_snd_inj (running r)).
    - intros [([[c' q'] x'] & -> & Hin) Hne]. exists (c', q', x'). split; [done|].
      apply list_elem_of_filter. split; [|done]. intros [= -> -> ->]. done. }
  split; cbn [run_transfers running peak said].
  - eapply sublist_NoDup; [exact Hnd|]. apply (fmap_sublist snd), sublist_filter.
  - intros x. rewrite Hleft, Hfl. destruct Ht as [->|(kept & path & staged & expiry & Hkept & ->)].
    + split.
      * intros [(k & Hr & Hf) Hne]. exists k. by rewrite lookup_delete_ne.
      * intros (k & [Hne Hr]%lookup_delete_Some & Hf). split; [by exists k|done].
    + split.
      * intros [(k & Hr & Hf) Hne]. exists k. by rewrite lookup_insert_ne.
      * intros (k & [[<- <-]|[Hne Hr]]%lookup_insert_Some & Hf); [done|]. split; [by exists k|done].
  - assert (size (retained t) ≤ size (retained (run_transfers r))) as Hle.
    { destruct Ht as [->|(kept & path & staged & expiry & Hkept & ->)].
      - apply map_subseteq_size, delete_subseteq.
      - by rewrite map_size_insert_Some by eauto. }
    lia.
  - intros x k Hx. assert (∃ k', retained (run_transfers r) !! x = Some k' ∧ ret_pane k' = ret_pane k ∧
                                 ret_length k' = ret_length k) as (k' & Hk' & <- & <-).
    { destruct Ht as [Ht|(kept & path & staged & expiry & Hkept & Ht)]; rewrite Ht in Hx.
      - apply lookup_delete_Some in Hx as [_ Hx]. by exists k.
      - apply lookup_insert_Some in Hx as [[<- <-]|[_ Hx]]; [by exists kept|by exists k]. }
    destruct (Hk x k' Hk') as (o & Ho & Hi). exists o. split; [|done]. apply elem_of_app. by left.
  - intros o1 o2 x i1 i2 [H1|H1]%elem_of_app [H2|H2]%elem_of_app E1 E2;
      [exact (Hid o1 o2 x i1 i2 H1 H2 E1 E2)|exfalso..]; eapply Hno; eassumption.
Qed.

(** Transfers are forgotten, something is said, and an attempt begins. *)
Lemma forget_and_start_inv r t0 t1 t c q transfer target kept out :
  run_inv r → retained t0 = retained (run_transfers r) → spared t0 t1 → starts_of out = [] →
  in_flight kept = true → transfer ∉ (running r).*2 →
  retained t = <[transfer := kept]> (retained t1) →
  size (retained t) ≤ MAX_RETAINED_TRANSFERS `max` (peak r `max` S (length (running r))) →
  (∀ o i, o ∈ said r → identity_of o = Some (transfer, i) → i = (ret_pane kept, ret_length kept)) →
  run_inv {| run_transfers := t; running := running r ++ starts_of (out ++ [StartAttempt c q transfer target kept]);
             peak := peak r `max` length (running r ++ starts_of (out ++ [StartAttempt c q transfer target kept]));
             said := said r ++ out ++ [StartAttempt c q transfer target kept] |}.
Proof.
  intros Hr H0 (Hsub & Hkeep & _) Hout Hfl Hnew Ht Hsize Hsame. rewrite H0 in Hsub, Hkeep.
  pose proof (quiet_inv r t1 out Hr Hout Hsub Hkeep) as Hq. rewrite Hout, app_nil_r in Hq.
  set (r1 := {| run_transfers := t1; running := running r; peak := _; said := _ |}) in Hq.
  pose proof (start_inv r1 t c q transfer target kept Hq Hfl Hnew Ht) as Hs.
  assert (starts_of (out ++ [StartAttempt c q transfer target kept]) = [(c, q, transfer)]) as ->
    by by rewrite starts_of_app, Hout.
  replace (said r ++ out ++ [StartAttempt c q transfer target kept])
    with (said r1 ++ [StartAttempt c q transfer target kept]) by (symmetry; apply app_assoc).
  replace (peak r `max` length (running r ++ [(c, q, transfer)]))
    with (peak r1 `max` length (running r1 ++ [(c, q, transfer)]))
    by (cbn [peak running r1]; rewrite length_app; cbn [length]; lia).
  apply Hs.
  - cbn [peak running r1]. lia.
  - cbn [said r1]. intros o i [Ho|Ho]%elem_of_app Hi; [by eapply Hsame|].
    exfalso. destruct o; try done. cbn in Hi. injection Hi as -> _.
    assert ((client, request, transfer) ∈ starts_of out) as Hin.
    { apply list_elem_of_omap. by exists (StartAttempt client request transfer target0 kept0). }
    rewrite Hout in Hin. by apply elem_of_nil in Hin.
Qed.

Lemma stop_quiet c q t : retained (stop_download c q t).1 = retained t ∧ starts_of (stop_download c q t).2 = [].
Proof. unfold stop_download. by case_bool_decide. Qed.

Lemma client_left_quiet c t : retained (client_left c t).1 = retained t ∧ starts_of (client_left c t).2 = [].
Proof.
  unfold client_left. set (t0 := set_offers _ t).
  assert (∀ l (to : Transfers * list TransferOutput), retained to.1 = retained t → starts_of to.2 = [] →
    let res := foldl (λ to cr, let '(t, out) := stop_download cr.1 cr.2 to.1 in (t, to.2 ++ out)) to l in
    retained res.1 = retained t ∧ starts_of res.2 = []) as Hgo; [|by apply Hgo].
  clear t0. induction l as [|[c' q] l IH]; intros to H1 H2; [done|]. cbn [foldl fst snd]. apply IH.
  - destruct (stop_quiet c' q to.1) as [Hr _]. destruct (stop_download c' q to.1). cbn [fst snd] in *. congruence.
  - destruct (stop_quiet c' q to.1) as [_ Hs]. destruct (stop_download c' q to.1). cbn [fst snd] in *.
    by rewrite starts_of_app, H2, Hs.
Qed.

Lemma transfer_target_said w c q pane out : transfer_target w c q pane = Err out → starts_of out = [].
Proof. unfold transfer_target. destruct (known_targets w !! _); [done|]. intros [= <-]. apply starts_of_refuse. Qed.

Lemma transfer_step_inv w e r : run_inv r → possible e r → run_inv (transfer_step w e r).
Proof.
  intros Hr Hp. pose proof Hr as [Hnd Hfl Hsz Hk Hid]. unfold transfer_step.
  assert (∀ t out, retained t = retained (run_transfers r) → starts_of out = [] →
    run_inv {| run_transfers := t; running := running r ++ starts_of out;
               peak := peak r `max` length (running r ++ starts_of out); said := said r ++ out |}) as Hsame.
  { intros t out Ht Hout. apply quiet_inv; try done; rewrite Ht; done. }
  destruct e as [c q|c q pane mime_ name length_ token_ now|c q transfer pane length_ now|c q transfer staged
                |c q transfer outcome now|c q pane path|c q source path destination name|c q n|c q|c q|c q|c|now];
    cbn [transfer_event ended].
  - by apply Hsame.
  - (* an upload begins *)
    unfold begin_relay. case_bool_decide; cbn [negb]; [|by apply Hsame; [|apply starts_of_refuse]].
    destruct (ceiling w <? length_)%N; [by apply Hsame; [|apply starts_of_refuse]|].
    destruct (transfer_target w c q pane) as [target|out] eqn:Et;
      [|apply Hsame; [done|by eapply transfer_target_said]].
    destruct token_ as [transfer|]; [|by apply Hsame; [|apply starts_of_refuse]].
    set (t0 := set_offers _ (run_transfers r)).
    destruct (sweep_spared w now t0) as [Hs1 Ho1]. destruct (sweep_retained w now t0) as [t1 swept].
    cbn [fst snd] in *. unfold evict_retained.
    destruct (evict_spared w (size (retained t1)) t1) as (Hs2 & Ho2 & Hb).
    destruct (evict_loop w (size (retained t1)) t1) as [t2 evicted]. cbn [fst snd] in *.
    set (kept := {| ret_pane := pane |}). set (t3 := set_retained _ t2).
    pose proof (spared_trans _ _ _ Hs1 Hs2) as Hs.
    assert (∀ said_ start : list TransferOutput, swept ++ evicted ++ said_ ++ start = (swept ++ evicted ++ said_) ++ start)
      as -> by (intros; by rewrite <-!app_assoc).
    cbn [possible] in Hp. unfold token_used in Hp.
    apply (forget_and_start_inv r t0 t2); try done.
    + by rewrite !starts_of_app, Ho1, Ho2, starts_of_tell.
    + intros Hin. apply Hp. left. apply Hfl in Hin as (k & Hkk & _). by eexists.
    + assert (retained t3 !! transfer = Some kept) as _ by apply lookup_insert_eq.
      cbn [retained set_retained t3].
      assert (size (<[transfer := kept]> (retained t2)) ≤ S (size (retained t2))) as Hins by apply size_insert_le.
      destruct (Hb ltac:(done)) as [Hlt|Hall]; [lia|].
      pose proof (all_in_flight_size r t2 Hr (proj1 Hs) Hall). lia.
    + intros o i Ho Hi. exfalso. apply Hp. right. destruct o; try done. cbn in Hi. injection Hi as -> _.
      apply list_elem_of_fmap. exists (client, request, transfer). split; [done|].
      apply list_elem_of_omap. by eexists.
  - (* an upload is resumed *)
    unfold resume_relay. case_bool_decide; cbn [negb]; [|by apply Hsame; [|apply starts_of_refuse]].
    set (t0 := set_offers _ (run_transfers r)).
    destruct (sweep_spared w now t0) as [Hs1 Ho1]. destruct (sweep_retained w now t0) as [t1 swept].
    cbn [fst snd] in *. pose proof Hs1 as (Hsub & Hkeep & _).
    assert (∀ out, starts_of out = [] → run_inv {| run_transfers := t1;
      running := running r ++ starts_of (swept ++ out);
      peak := peak r `max` length (running r ++ starts_of (swept ++ out)); said := said r ++ swept ++ out |}) as Hno.
    { intros out Hout. apply quiet_inv; try done. by rewrite starts_of_app, Ho1, Hout. }
    destruct (retained t1 !! transfer) as [kept|] eqn:Ekept; [|apply Hno, starts_of_refuse].
    destruct (in_flight kept) eqn:Efl; [apply Hno, starts_of_refuse|].
    destruct (negb _ || negb _) eqn:Ematch; [apply Hno, starts_of_refuse|].
    destruct (transfer_target w c q pane) as [target|out] eqn:Et; [|by eapply Hno, transfer_target_said].
    pose proof (lookup_weaken _ _ _ _ Ekept Hsub) as Hthere.
    apply (forget_and_start_inv r t0 t1); try done.
    + intros Hin. apply Hfl in Hin as (k & Hkk & Hkf). cbn in Hthere. congruence.
    + cbn [retained set_retained]. rewrite map_size_insert_Some by eauto.
      pose proof (map_subseteq_size _ _ Hsub). cbn in *. lia.
    + intros o i Ho Hi. destruct (Hk transfer kept Hthere) as (o' & Ho' & Hi'). cbn.
      exact (Hid o o' transfer _ _ Ho Ho' Hi Hi').
  - (* the host said what it holds *)
    unfold resume_offset. apply quiet_altered_inv; [done|apply starts_of_tell|..]; cbn [retained set_retained].
    + intros x k. rewrite lookup_alter. case_decide as Hx; [subst x|by eauto].
      destruct (retained (run_transfers r) !! transfer) as [kept|]; [|done].
      cbn. intros [= <-]. by exists kept.
    + intros x k Hx Hf. rewrite lookup_alter. case_decide as Hxt; [subst x|by eauto].
      rewrite Hx. by eexists.
  - unfold relay_finished. cbn [possible] in Hp.
    destruct outcome as [path n|why|path staged|]; try (apply (end_inv r _ _ _ transfer);
      [done|done|apply starts_of_tell|by left]).
    + destruct (retained (run_transfers r) !! transfer) as [kept|] eqn:E.
      * apply (end_inv r _ _ _ transfer); [done|done|apply starts_of_tell|]. right. by eexists kept, _, _, _.
      * apply (end_inv r _ _ _ transfer); [done|done|done|]. left. by rewrite delete_id.
    + by apply (end_inv r _ _ _ transfer); [done|done|done|left].
  - unfold begin_download. case_bool_decide; [by apply Hsame; [|apply starts_of_refuse]|].
    destruct (transfer_target w c q pane) as [target|out] eqn:Et; [|apply Hsame; [done|by eapply transfer_target_said]].
    by case_bool_decide; apply Hsame.
  - unfold begin_between. case_bool_decide; [by apply Hsame; [|apply starts_of_refuse]|].
    destruct (transfer_target w c q source) as [target|out] eqn:Et; [|apply Hsame; [done|by eapply transfer_target_said]].
    destruct (transfer_target w c q destination) as [target'|out] eqn:Et'; [|apply Hsame; [done|by eapply transfer_target_said]].
    by case_bool_decide; apply Hsame.
  - unfold pull_download. case_bool_decide; apply Hsame; try done. apply starts_of_refuse.
  - destruct (stop_quiet c q (run_transfers r)) as [H1 H2]. destruct (stop_download _ _ _). by apply Hsame.
  - unfold cancel_upload. set (t0 := set_offers _ _). destruct (stop_quiet c q t0) as [H1 H2].
    destruct (stop_download _ _ _). by apply Hsame.
  - by apply Hsame.
  - destruct (client_left_quiet c (run_transfers r)) as [H1 H2]. destruct (client_left _ _). by apply Hsame.
  - destruct (sweep_spared w now (run_transfers r)) as [(H1 & H2 & _) H3]. destruct (sweep_retained _ _ _).
    by apply quiet_inv.
Qed.

Lemma transfers_run_inv r : transfers_run r → run_inv r.
Proof.
  induction 1; [|by apply transfer_step_inv]. split; cbn.
  - apply NoDup_nil_2.
  - intros transfer. split; [by intros ?%elem_of_nil|]. intros (kept & Hk & _). by rewrite lookup_empty in Hk.
  - rewrite map_size_empty. lia.
  - intros transfer kept Hk. by rewrite lookup_empty in Hk.
  - by intros o1 o2 transfer i1 i2 ?%elem_of_nil.
Qed.

(** C40. One attempt carries a transfer at a time: whatever clients ask and however
    attempts end, no token has two attempts running, the tokens with one running
    are exactly those kept and marked in flight, and every attempt ever started
    under a token is for the pane and the length the first one was for. *)
Theorem one_attempt_per_transfer r :
  transfers_run r →
  NoDup (running r).*2 ∧
  (∀ transfer, transfer ∈ (running r).*2 ↔
     ∃ kept, retained (run_transfers r) !! transfer = Some kept ∧ in_flight kept = true) ∧
  (∀ c1 r1 target1 kept1 c2 r2 target2 kept2 transfer,
     StartAttempt c1 r1 transfer target1 kept1 ∈ said r → StartAttempt c2 r2 transfer target2 kept2 ∈ said r →
     ret_pane kept1 = ret_pane kept2 ∧ ret_length kept1 = ret_length kept2).
Proof.
  intros [Hnd Hfl _ _ Hid]%transfers_run_inv. split; [done|]. split; [done|].
  intros c1 r1 target1 kept1 c2 r2 target2 kept2 transfer H1 H2.
  assert ((ret_pane kept1, ret_length kept1) = (ret_pane kept2, ret_length kept2)) as [= -> ->];
    [exact (Hid _ _ transfer _ _ H1 H2 eq_refl eq_refl)|done].
Qed.

(** What is kept for senders who may come back is bounded: never more
    transfers than four, or than the most attempts that were carried at once
    where that is more. *)
Theorem retention_bounded r :
  transfers_run r → size (retained (run_transfers r)) ≤ MAX_RETAINED_TRANSFERS `max` peak r.
Proof. by intros ?%transfers_run_inv%inv_size. Qed.
End events.

(** ** A run *)

Module Runs.
Definition pane : PaneId := QId (u "host") (u "dev") (u "p1").
Definition target : Target :=
  {| tgt_name := u "host"; tgt_ssh := None; tgt_discover_sessions := false; tgt_session := None;
     tgt_socket := None; tgt_herdr_bins := []; tgt_tags := []; tgt_roots := [] |}.
Definition surroundings : Surroundings :=
  {| outboxes := {[1%N]}; known_targets := {[target_session pane := target]}; ceiling := 100 |}.
Definition quiet_refusal : Refusal → ustr := λ _, [].
Definition step (e : TransferEvent) (r : TransferRun) : TransferRun := transfer_step quiet_refusal surroundings e r.
Definition begin (k : N) (r : TransferRun) : TransferRun :=
  step (Begun 1 k pane (u "text/plain") None 5 (Some [k]) 0) (step (Offered 1 k) r).
Definition interrupt (k : N) (r : TransferRun) : TransferRun :=
  step (AttemptEnded 1 k [k] (Interrupted (u "/tmp/super-herdr-clipboard.a/payload") 2) 0) r.

Definition begun : TransferRun := begin 65 TransferRun_start.

Lemma begun_runs : transfers_run quiet_refusal begun.
Proof.
  unfold begun, begin, step.
  apply transfers_next; [apply transfers_next; [apply transfers_start|done]|].
  intros [[kept Hk]|Hin]; [by vm_compute in Hk|by apply elem_of_nil in Hin].
Qed.

(** Five transfers begun together and then interrupted are all kept. *)
Definition five : list N := [65; 66; 67; 68; 69]%N.
Example five_kept :
  size (retained (run_transfers (foldr interrupt (foldr begin TransferRun_start five) five))) = 5 ∧
  forallb (λ kept, negb (in_flight kept))
    (values (retained (run_transfers (foldr interrupt (foldr begin TransferRun_start five) five)))) = true.
Proof. by vm_compute. Qed.
End Runs.

Lemma one_attempt_per_transfer_witness :
  NoDup (running Runs.begun).*2 ∧
  (∀ transfer, transfer ∈ (running Runs.begun).*2 ↔
     ∃ kept, retained (run_transfers Runs.begun) !! transfer = Some kept ∧ in_flight kept = true).
Proof.
  destruct (one_attempt_per_transfer Runs.quiet_refusal Runs.begun Runs.begun_runs) as (H1 & H2 & _). by split.
Defined.

Lemma retention_bounded_witness :
  size (retained (run_transfers Runs.begun)) ≤ MAX_RETAINED_TRANSFERS `max` peak Runs.begun.
Proof. apply (retention_bounded Runs.quiet_refusal). apply Runs.begun_runs. Defined.
