(* ===== verification/FileSave.v ===== *)
(** Fetching a file off a target: the daemon's [download]
    ([src/src/daemon/server.rs]), the receiving end ([src/src/file_save.rs]) and
    what the frontend does between them ([src/src/tui.rs], the [Download]
    messages and the prompt that asks for a file).

    The daemon's task, its loop and the client run at their own pace: each turn of
    one is a step, and what travels between them is three queues. The local disk
    is the files by path; whether an access to it works is an argument. *)

From S2P Require Import Prelude Text Model Pairing Clipboard Staging Config Protocol.

(** ** The receiving end *)

Definition SAVE_WINDOW_CHUNKS : N := 8.

Record FileSave := {
  fs_request : N;
  destination : ustr;
  fs_length : N;
  fs_digest : ustr;
  received : N;
  written : bytes;        (** the temporary file, and what was hashed *)
  fs_outstanding : N;
}.
(** [SaveProgress::Saved] is what [save_finish] returns. *)
Inductive SaveProgress := Pull (chunks_ : N) | Waiting.
Inductive SaveError :=
  NoName | AlreadyExists (path : ustr) | NotCreated | MoreThanOffered | NotWritten
  | StoppedShort (received_ length_ : N) | DigestDiffers | NotPersisted.

(** [Path::file_name]: the last component, unless it is [..]. *)
Definition file_name (path : ustr) : option ustr :=
  name ← last (filter (λ part, part ≠ [] ∧ part ≠ u ".") (split_on slash path));
  if bool_decide (name = u "..") then None else Some name.
(** [Path::join] of a relative component. *)
Definition join_path (directory_ name : ustr) : ustr :=
  if bool_decide (directory_ = []) || has_suffix [slash] directory_ then directory_ ++ name
  else directory_ ++ slash :: name.

Definition save_begin (request : N) (directory_ name : ustr) (length_ : N) (digest : ustr) (created : bool)
    (files : gmap ustr bytes) : result SaveError FileSave :=
  match (name ← file_name name;
         if bool_decide (name = []) || bool_decide (name = u ".") || bool_decide (name = u "..")
         then None else Some name) with
  | None => Err NoName
  | Some name =>
      let path := join_path directory_ name in
      if bool_decide (is_Some (files !! path)) then Err (AlreadyExists path)
      else if negb created then Err NotCreated
      else Ok {| fs_request := request; destination := path; fs_length := length_; fs_digest := digest;
                 received := 0; written := []; fs_outstanding := 0 |}
  end.

Definition set_outstanding (n : N) (s : FileSave) : FileSave := {|
  fs_request := fs_request s; destination := destination s; fs_length := fs_length s; fs_digest := fs_digest s;
  received := received s; written := written s; fs_outstanding := n |}.

Definition save_start (s : FileSave) : FileSave * SaveProgress :=
  (set_outstanding SAVE_WINDOW_CHUNKS s, Pull SAVE_WINDOW_CHUNKS).

Definition save_chunk (b : bytes) (writes : bool) (s : FileSave) : result SaveError (FileSave * SaveProgress) :=
  let n := N.of_nat (length b) in
  if (fs_length s - received s <? n)%N then Err MoreThanOffered
  else if negb writes then Err NotWritten
  else
    let s := {| fs_request := fs_request s; destination := destination s; fs_length := fs_length s;
                fs_digest := fs_digest s; received := received s + n; written := written s ++ b;
                fs_outstanding := fs_outstanding s - 1 |} in
    if (fs_length s <=? received s)%N || (0 <? fs_outstanding s)%N then Ok (s, Waiting)
    else Ok (set_outstanding SAVE_WINDOW_CHUNKS s, Pull SAVE_WINDOW_CHUNKS).

Section saving.
Context `{Sha256}.

(** [FileSave::finish]; [flushed] when the file can be flushed and renamed. *)
Definition save_finish (s : FileSave) (flushed : bool) (files : gmap ustr bytes)
    : gmap ustr bytes * result SaveError ustr :=
  if negb (received s =? fs_length s)%N then (files, Err (StoppedShort (received s) (fs_length s)))
  else if negb (bool_decide (fs_digest s = []))
          && negb (bool_decide (hex (sha256 (written s)) = fs_digest s)) then (files, Err DigestDiffers)
  else if negb flushed then (files, Err NotWritten)
  else if bool_decide (is_Some (files !! destination s)) then (files, Err NotPersisted)
  else (<[destination s := written s]> files, Ok (destination s)).

(** ** The daemon's end *)

Definition DOWNLOAD_CHUNK_BYTES : N := 256 * 1024.
Definition MAX_OUTSTANDING_CHUNKS : N := 8.

Record DownloadTask := {
  dl_request : N; dl_source : SourceFile; dl_sent : N; dl_credit : N; dl_over : bool;
}.
Definition download_start (request : N) (source : SourceFile) : DownloadTask * list ServerMessage :=
  ({| dl_request := request; dl_source := source; dl_sent := 0; dl_credit := 0; dl_over := false |},
   [DownloadOffer request (sf_name source) (sf_length source) (sf_digest source)]).

Inductive Turn :=
  | Idle                                                                (** waiting for a grant, or over *)
  | Turned (d : DownloadTask) (grants : list N) (out : list ServerMessage)
  | Failed (read_ : bool).                                              (** an error, or a file that ends early *)

(** One pass of the loop of [download], with the grants that wait. *)
Definition download_turn (d : DownloadTask) (grants : list N) : Turn :=
  if dl_over d then Idle
  else if (dl_sent d <? sf_length (dl_source d))%N then
    if (dl_credit d =? 0)%N then
      match grants with
      | [] => Idle
      | granted :: grants =>
          Turned {| dl_request := dl_request d; dl_source := dl_source d; dl_sent := dl_sent d;
                    dl_credit := N.min (u32_saturating_add (dl_credit d) granted) MAX_OUTSTANDING_CHUNKS;
                    dl_over := false |} grants []
      end
    else
      match read (N.min (sf_length (dl_source d) - dl_sent d) DOWNLOAD_CHUNK_BYTES) (dl_source d) with
      | (_, None) => Failed false
      | (_, Some []) => Failed true
      | (source, Some b) =>
          Turned {| dl_request := dl_request d; dl_source := source; dl_sent := dl_sent d + N.of_nat (length b);
                    dl_credit := dl_credit d - 1; dl_over := false |} grants [DownloadChunk (dl_request d) b]
      end
  else
    Turned {| dl_request := dl_request d; dl_source := dl_source d; dl_sent := dl_sent d;
              dl_credit := dl_credit d; dl_over := true |} grants [DownloadFinished (dl_request d)].

(** ** The frontend *)

(** What the frontend keeps of a save, and the message it shows. *)
Inductive SaveNotice :=
  | NoNotice | Asking | SavingTo (path : ustr) | CannotSave (e : SaveError) | Broken (e : SaveError)
  | Saved (path : ustr) | NotSaved (e : SaveError) | NothingToCancel | SaveCancelled | Reported (message : ustr).
Record Saves := {
  file_save : option FileSave;
  file_save_request : option N;
  notice : SaveNotice;
}.
Definition Saves_default : Saves := {| file_save := None; file_save_request := None; notice := NoNotice |}.
Inductive SaveCommand := PullDownload (request chunks_ : N) | CancelDownload (request : N).

(** The prompt's answer: asked for under a new request, unless a file is being
    saved, when it says so and nothing changes. *)
Definition ask_save (request : N) (c : Saves) : Saves * bool :=
  if bool_decide (is_Some (file_save c)) then (c, false)
  else ({| file_save := file_save c; file_save_request := Some request; notice := Asking |}, true).

Definition cancel_file_save (c : Saves) : Saves * list SaveCommand :=
  match file_save_request c with
  | None => ({| file_save := file_save c; file_save_request := None; notice := NothingToCancel |}, [])
  | Some request =>
      ({| file_save := None; file_save_request := None; notice := SaveCancelled |}, [CancelDownload request])
  end.

(** What goes right on this machine while a message is handled. *)
Record Disk := { creates : bool; writes : bool; flushes : bool }.

Definition client_offered (request : N) (directory_ name : ustr) (length_ : N) (digest : ustr) (works : Disk)
    (c : Saves) (files : gmap ustr bytes) : Saves * list SaveCommand :=
  if negb (bool_decide (file_save_request c = Some request)) then (c, [])
  else match save_begin request directory_ name length_ digest (creates works) files with
  | Ok s =>
      let '(s, progress) := save_start s in
      ({| file_save := Some s; file_save_request := file_save_request c; notice := SavingTo (destination s) |},
       match progress with Pull n => [PullDownload request n] | Waiting => [] end)
  | Err e =>
      ({| file_save := file_save c; file_save_request := None; notice := CannotSave e |},
       [CancelDownload request])
  end.

Definition client_chunk (request : N) (b : bytes) (works : Disk) (c : Saves) : Saves * list SaveCommand :=
  match file_save c with
  | None => (c, [])
  | Some s =>
      if negb (fs_request s =? request)%N then (c, [])
      else match save_chunk b (writes works) s with
      | Ok (s, progress) =>
          ({| file_save := Some s; file_save_request := file_save_request c; notice := notice c |},
           match progress with Pull n => [PullDownload request n] | Waiting => [] end)
      | Err e =>
          ({| file_save := None; file_save_request := None; notice := Broken e |}, [CancelDownload request])
      end
  end.

(** [Option::take] comes before the comparison of requests. *)
Definition client_finished (request : N) (works : Disk) (c : Saves) (files : gmap ustr bytes)
    : Saves * gmap ustr bytes :=
  let taken := {| file_save := None; file_save_request := file_save_request c; notice := notice c |} in
  match file_save c with
  | None => (taken, files)
  | Some s =>
      if negb (fs_request s =? request)%N then (taken, files)
      else
        let '(files, outcome) := save_finish s (flushes works) files in
        ({| file_save := None; file_save_request := None;
            notice := match outcome with Ok path => Saved path | Err e => NotSaved e end |}, files)
  end.

(** The messages a save is about; an error is only shown. *)
Definition client_message (directory_ : ustr) (works : Disk) (m : ServerMessage) (c : Saves)
    (files : gmap ustr bytes) : Saves * list SaveCommand * gmap ustr bytes :=
  match m with
  | DownloadOffer request name length_ digest =>
      (client_offered request directory_ name length_ digest works c files, files)
  | DownloadChunk request b => (client_chunk request b works c, files)
  | DownloadFinished request =>
      let '(c, files) := client_finished request works c files in (c, [], files)
  | ErrorMessage _ message =>
      ({| file_save := file_save c; file_save_request := file_save_request c; notice := Reported message |},
       [], files)
  | _ => (c, [], files)
  end.

(** ** The two together *)

Record Fetching := {
  task : DownloadTask;
  listed : bool;                    (** the daemon still knows the request *)
  grants_ : list N;                 (** the task's own queue *)
  arriving : list ServerMessage;    (** the client's outbox *)
  commands : list SaveCommand;      (** what the daemon has not read yet *)
  client_ : Saves;
  disk : gmap ustr bytes;
}.

Definition no_file_read : ustr := u "no file is being read".
Definition over (d : DownloadTask) : DownloadTask := {|
  dl_request := dl_request d; dl_source := dl_source d; dl_sent := dl_sent d; dl_credit := dl_credit d;
  dl_over := true |}.

(** One turn of the task, of the daemon's loop, or of the client. *)
Inductive fetch_step (directory_ : ustr) (works : Disk) : Fetching → Fetching → Prop :=
  | TaskTurns s d grants out :
      download_turn (task s) (grants_ s) = Turned d grants out →
      fetch_step directory_ works s {|
        task := d; listed := listed s; grants_ := grants; arriving := arriving s ++ out;
        commands := commands s; client_ := client_ s; disk := disk s |}
  | TaskFails s early message :
      download_turn (task s) (grants_ s) = Failed early →
      fetch_step directory_ works s {|
        task := over (task s); listed := listed s; grants_ := grants_ s;
        arriving := arriving s ++ [ErrorMessage (Some (dl_request (task s))) message];
        commands := commands s; client_ := client_ s; disk := disk s |}
  | TaskEnded s :
      dl_over (task s) = true → listed s = true →
      fetch_step directory_ works s {|
        task := task s; listed := false; grants_ := grants_ s; arriving := arriving s;
        commands := commands s; client_ := client_ s; disk := disk s |}
  | DaemonReads s command rest :
      commands s = command :: rest →
      fetch_step directory_ works s
        match command with
        | PullDownload request n =>
            if listed s && (request =? dl_request (task s))%N then {|
              task := task s; listed := listed s; grants_ := grants_ s ++ [n]; arriving := arriving s;
              commands := rest; client_ := client_ s; disk := disk s |}
            else {|
              task := task s; listed := listed s; grants_ := grants_ s;
              arriving := arriving s ++ [ErrorMessage (Some request) no_file_read];
              commands := rest; client_ := client_ s; disk := disk s |}
        | CancelDownload request =>
            if listed s && (request =? dl_request (task s))%N then {|
              task := over (task s); listed := false; grants_ := grants_ s; arriving := arriving s;
              commands := rest; client_ := client_ s; disk := disk s |}
            else {|
              task := task s; listed := listed s; grants_ := grants_ s; arriving := arriving s;
              commands := rest; client_ := client_ s; disk := disk s |}
        end
  | ClientReads s message rest c sent_ files :
      arriving s = message :: rest →
      client_message directory_ works message (client_ s) (disk s) = (c, sent_, files) →
      fetch_step directory_ works s {|
        task := task s; listed := listed s; grants_ := grants_ s; arriving := rest;
        commands := commands s ++ sent_; client_ := c; disk := files |}.

(** A client that asked for [source] under [request], and the task it started. *)
Definition fetch_start (request : N) (source : SourceFile) (files : gmap ustr bytes) : Fetching :=
  let '(d, out) := download_start request source in
  {| task := d; listed := true; grants_ := []; arriving := out; commands := [];
     client_ := (ask_save request Saves_default).1; disk := files |}.
End saving.
