(* ===== verification/FileSaveFacts.v ===== *)
(** What fetching a file guarantees: a saved file is the one its host offered,
    nothing that was there is replaced, a client is never sent more than the
    window it opened, and a fetch that nothing interferes with ends with the file
    on disk. *)

From S2P Require Import Prelude Text Model Pairing Clipboard Staging Config Protocol FileSave.

(** ** Names *)

Lemma split_at_pieces p s : Forall (λ piece, Forall (λ c, p c = false) piece) (split_at p s).
Proof.
  induction s as [|c s IH]; cbn [split_at]; [by repeat constructor|].
  destruct (p c) eqn:E; [by constructor|].
  destruct (split_at p s) as [|piece rest]; [by repeat constructor|].
  inversion_clear IH. by repeat constructor.
Qed.

Lemma file_name_component path name :
  file_name path = Some name → name ≠ [] ∧ name ≠ u "." ∧ name ≠ u ".." ∧ slash ∉ name.
Proof.
  unfold file_name. destruct (last _) as [piece|] eqn:E; cbn [mbind option_bind]; [|done].
  case_bool_decide as Hdots; [done|]. intros [= ->].
  apply last_Some_elem_of, list_elem_of_filter in E as [[Hne Hdot] Hin].
  split; [done|]. split; [done|]. split; [done|]. intros Hs.
  pose proof (split_at_pieces (λ c', c' =? slash)%N path) as Hall.
  rewrite Forall_forall in Hall. specialize (Hall _ Hin). rewrite Forall_forall in Hall.
  by specialize (Hall _ Hs).
Qed.

(** ** A client, whatever it is sent *)

Inductive SaveEvent := Asks (request : N) | Cancels | Hears (m : ServerMessage) (works : Disk).

Section client.
Context `{Sha256} (directory_ : ustr).

Definition client_event (cf : Saves * gmap ustr bytes) (e : SaveEvent) : Saves * gmap ustr bytes :=
  match e with
  | Asks request => ((ask_save request cf.1).1, cf.2)
  | Cancels => ((cancel_file_save cf.1).1, cf.2)
  | Hears m works => let '(c, _, files) := client_message directory_ works m cf.1 cf.2 in (c, files)
  end.
Definition client_run (events : list SaveEvent) (files : gmap ustr bytes) : Saves * gmap ustr bytes :=
  foldl client_event (Saves_default, files) events.

(** The offer a destination, a length and a digest come from. *)
Definition offered (events : list SaveEvent) (path : ustr) (length_ : N) (digest : ustr) : Prop :=
  ∃ request name base works, Hears (DownloadOffer request name length_ digest) works ∈ events ∧
    file_name name = Some base ∧ path = join_path directory_ base.
(** A file that is the one a host offered: of the length it declared, of the
    digest it attested to, if it attested to one. *)
Definition genuine (events : list SaveEvent) (path : ustr) (b : bytes) : Prop :=
  ∃ digest, offered events path (N.of_nat (length b)) digest ∧ (digest = [] ∨ hex (sha256 b) = digest).

Lemma offered_app events more path length_ digest :
  offered events path length_ digest → offered (events ++ more) path length_ digest.
Proof. intros (r & n & base & w & Hin & ?). exists r, n, base, w. split; [set_solver|done]. Qed.

Definition save_inv (events : list SaveEvent) (files0 : gmap ustr bytes) (cf : Saves * gmap ustr bytes) : Prop :=
  files0 ⊆ cf.2 ∧
  (∀ path b, cf.2 !! path = Some b → files0 !! path = None → genuine events path b) ∧
  (∀ s, file_save cf.1 = Some s →
     received s = N.of_nat (length (written s)) ∧ offered events (destination s) (fs_length s) (fs_digest s)).

(** What [save_chunk] and [save_finish] do, as far as files are concerned. *)
Lemma save_chunk_spec b w s s' progress :
  save_chunk b w s = Ok (s', progress) →
  fs_request s' = fs_request s ∧ destination s' = destination s ∧ fs_length s' = fs_length s ∧
  fs_digest s' = fs_digest s ∧ written s' = written s ++ b ∧ received s' = (received s + N.of_nat (length b))%N ∧
  (N.of_nat (length b) ≤ fs_length s - received s)%N.
Proof.
  unfold save_chunk. destruct (N.ltb_spec (fs_length s - received s) (N.of_nat (length b))); [done|].
  destruct w; [|done]. cbn [negb]. set (s1 := {| fs_request := _ |}).
  destruct (_ || _); intros [= <- <-]; done.
Qed.

Lemma save_finish_spec s w files files' outcome :
  save_finish s w files = (files', outcome) →
  files' = files ∨
  (files !! destination s = None ∧ files' = <[destination s := written s]> files ∧
   received s = fs_length s ∧ (fs_digest s = [] ∨ hex (sha256 (written s)) = fs_digest s)).
Proof.
  unfold save_finish. destruct (N.eqb_spec (received s) (fs_length s)); cbn [negb]; [|intros [= <- <-]; by left].
  destruct (negb (bool_decide (fs_digest s = [])) && _) eqn:Ed; [intros [= <- <-]; by left|].
  destruct w; cbn [negb]; [|intros [= <- <-]; by left].
  destruct (bool_decide (is_Some _)) eqn:Hf; [intros [= <- <-]; by left|]. intros [= <- <-]. right.
  apply bool_decide_eq_false in Hf. split; [by apply eq_None_not_Some|]. split; [done|]. split; [done|].
  apply andb_false_iff in Ed as [Ed|Ed]; apply negb_false_iff, bool_decide_eq_true in Ed; auto.
Qed.

Lemma save_begin_spec (request : N) (name : ustr) (length_ : N) (digest : ustr) (w : bool) (files : gmap ustr bytes) (s : FileSave) :
  save_begin request directory_ name length_ digest w files = Ok s →
  ∃ base, file_name name = Some base ∧ files !! join_path directory_ base = None ∧
    s = {| fs_request := request; destination := join_path directory_ base; fs_length := length_;
           fs_digest := digest; received := 0; written := []; fs_outstanding := 0 |}.
Proof.
  unfold save_begin. destruct (file_name name) as [base|] eqn:E; cbn [mbind option_bind]; [|done].
  destruct (_ || _); [done|]. case_bool_decide as Hf; [done|]. destruct w; [|done]. intros [= <-].
  exists base. split; [done|]. split; [by apply eq_None_not_Some|done].
Qed.

Lemma client_event_inv events files0 cf e :
  save_inv events files0 cf → save_inv (events ++ [e]) files0 (client_event cf e).
Proof.
  intros (Hsub & Hnew & Hsave).
  assert (∀ path b, genuine events path b → genuine (events ++ [e]) path b) as Hgen.
  { intros path b (digest & Ho & Hd). exists digest. split; [by apply offered_app|done]. }
  assert (∀ c, (file_save c = None ∨ file_save c = file_save cf.1) → save_inv (events ++ [e]) files0 (c, cf.2)) as Hkeep.
  { intros c Hc. split; [done|]. split; [by eauto|]. cbn. intros s Hs. destruct Hc as [Hc|Hc]; [congruence|].
    rewrite Hc in Hs. destruct (Hsave _ Hs). split; [done|by apply offered_app]. }
  destruct e as [request| |m works]; cbn [client_event].
  - apply Hkeep. unfold ask_save. case_bool_decide; by right.
  - apply Hkeep. unfold cancel_file_save. destruct (file_save_request cf.1); [by left|by right].
  - unfold client_message. destruct m; try (apply Hkeep; by right).
    + unfold client_offered. destruct (negb _); [by apply Hkeep; right|].
      destruct (save_begin _ _ _ _ _ _ _) as [s|e] eqn:E; [|by apply Hkeep; right].
      destruct (save_begin_spec _ _ _ _ _ _ _ E) as (base & Hb & Hfree & ->).
      cbn. split; [done|]. split; [by eauto|]. cbn. intros s [= <-]. cbn. split; [done|].
      eexists _, _, base, works. split; [apply elem_of_app; right; by apply list_elem_of_singleton|done].
    + unfold client_chunk. destruct (file_save cf.1) as [s|] eqn:Es; [|by apply Hkeep; right].
      destruct (negb _); [by apply Hkeep; right|].
      destruct (save_chunk _ _ s) as [[s' progress]|e] eqn:E; [|by apply Hkeep; left].
      destruct (save_chunk_spec _ _ _ _ _ E) as (_ & Hd & Hl & Hg & Hw & Hr & _).
      destruct (Hsave s eq_refl) as [Hlen Ho].
      split; [done|]. split; [by eauto|]. cbn. intros s1 [= <-]. rewrite Hd, Hl, Hg, Hw, Hr, Hlen, length_app.
      split; [lia|by apply offered_app].
    + unfold client_finished. destruct (file_save cf.1) as [s|] eqn:Es; [|by apply Hkeep; left].
      destruct (negb _); [by apply Hkeep; left|].
      destruct (save_finish s _ _) as [files outcome] eqn:E. cbn.
      destruct (save_finish_spec _ _ _ _ _ E) as [->|(Hfree & -> & Hlen & Hd)]; [by apply Hkeep; left|].
      destruct (Hsave s eq_refl) as [Hr Ho].
      split; [etrans; [exact Hsub|by apply insert_subseteq]|]. split; [|done]. cbn.
      intros path b. destruct (decide (path = destination s)) as [->|Hne].
      * rewrite lookup_insert_eq. intros [= <-] _. exists (fs_digest s). split; [|done].
        apply offered_app. by rewrite <- Hr, Hlen.
      * rewrite lookup_insert_ne by done. eauto.
Qed.

Lemma client_run_inv events files : save_inv events files (client_run events files).
Proof.
  induction events as [|e events IH] using rev_ind.
  - split; [done|]. split; [|done]. cbn. intros path b ? ?. congruence.
  - unfold client_run in *. rewrite foldl_app. cbn [foldl]. by apply client_event_inv.
Qed.

(** C37. A saved file is the one that was offered: whatever a client is sent, in
    whatever order, and whatever its user asks for or cancels, every file that was
    there stays as it was, and a file that is new has the length its offer declared
    and the digest it attested to, and sits directly in the directory saved into,
    under the last component of the name offered. *)
Theorem saves_verified events files :
  files ⊆ (client_run events files).2 ∧
  (∀ path b, (client_run events files).2 !! path = Some b → files !! path = None →
     ∃ request name base works digest,
       Hears (DownloadOffer request name (N.of_nat (length b)) digest) works ∈ events ∧
       path = join_path directory_ base ∧ file_name name = Some base ∧
       base ≠ [] ∧ base ≠ u "." ∧ base ≠ u ".." ∧ slash ∉ base ∧
       (digest = [] ∨ hex (sha256 b) = digest)).
Proof.
  destruct (client_run_inv events files) as (Hsub & Hnew & _). split; [done|].
  intros path b Hb Hf. destruct (Hnew _ _ Hb Hf) as (digest & (r & n & base & w & Hin & Hn & Hp) & Hd).
  destruct (file_name_component _ _ Hn) as (?&?&?&?). by exists r, n, base, w, digest.
Qed.
End client.

(** ** Flow control *)

Definition sum_N (l : list N) : N := foldr N.add 0%N l.
Lemma sum_N_app l l' : sum_N (l ++ l') = (sum_N l + sum_N l')%N.
Proof. unfold sum_N. induction l; cbn [foldr app] in *; lia. Qed.

Definition is_chunk (m : ServerMessage) : bool := match m with DownloadChunk _ _ => true | _ => false end.
Definition is_offer (m : ServerMessage) : bool := match m with DownloadOffer _ _ _ _ => true | _ => false end.
Definition pulled (c : SaveCommand) : N := match c with PullDownload _ n => n | CancelDownload _ => 0 end.
(** The chunks that wait in the client's outbox. *)
Definition chunks_in (l : list ServerMessage) : N := N.of_nat (count_occ Bool.bool_dec (is_chunk <$> l) true).
Lemma chunks_in_cons m l : chunks_in (m :: l) = ((if is_chunk m then 1 else 0) + chunks_in l)%N.
Proof. unfold chunks_in. cbn. destruct (is_chunk m); cbn; lia. Qed.
Lemma chunks_in_app l l' : chunks_in (l ++ l') = (chunks_in l + chunks_in l')%N.
Proof. induction l as [|m l IH]; [done|]. cbn [app]. rewrite !chunks_in_cons. lia. Qed.

Lemma chunks_in_error l r m : chunks_in (l ++ [ErrorMessage r m]) = chunks_in l.
Proof. rewrite chunks_in_app. unfold chunks_in. cbn. lia. Qed.

(** Everything the client has opened and not yet been sent, or not yet read. *)
Definition window (s : Fetching) : N :=
  dl_credit (task s) + sum_N (grants_ s) + sum_N (pulled <$> commands s) + chunks_in (arriving s).

Definition no_offer (l : list ServerMessage) : Prop := Forall (λ m, is_offer m = false) l.
Definition window_inv (s : Fetching) : Prop :=
  (∃ request name length_ digest rest, arriving s = DownloadOffer request name length_ digest :: rest ∧
     no_offer rest ∧ window s = 0 ∧ file_save (client_ s) = None)%N ∨
  (no_offer (arriving s) ∧
   match file_save (client_ s) with
   | Some f => (window s ≤ fs_outstanding f ≤ SAVE_WINDOW_CHUNKS)%N
   | None => (window s ≤ SAVE_WINDOW_CHUNKS)%N
   end).

(** What a turn of the task does to the window. *)
Lemma download_turn_window d grants d' grants' out :
  download_turn d grants = Turned d' grants' out →
  (dl_credit d' + sum_N grants' + chunks_in out ≤ dl_credit d + sum_N grants)%N ∧ no_offer out.
Proof.
  unfold download_turn. destruct (dl_over d); [done|]. destruct (_ <? _)%N.
  - destruct (N.eqb_spec (dl_credit d) 0) as [Hc|Hc].
    + destruct grants as [|granted grants]; [done|]. intros [= <- <- <-]. split; [|constructor].
      unfold u32_saturating_add. cbn [dl_credit sum_N foldr]. rewrite Hc.
      change (chunks_in []) with 0%N. unfold sum_N. unfold MAX_OUTSTANDING_CHUNKS. lia.
    + destruct (read _ _) as [source [[|x b]|]]; [done| |done]. intros [= <- <- <-].
      split; [|repeat constructor]. rewrite chunks_in_cons. change (chunks_in []) with 0%N. cbn. lia.
  - intros [= <- <- <-]. split; [|repeat constructor].
    rewrite chunks_in_cons. change (chunks_in []) with 0%N. cbn. lia.
Qed.

Section fetching.
Context `{Sha256} (directory_ : ustr) (works : Disk).
Abbreviation step := (fetch_step directory_ works).

(** The window only narrows while messages that are not offers move about. *)
Lemma window_narrows s s' more :
  window_inv s → (arriving s' = arriving s ++ more) → no_offer more → client_ s' = client_ s →
  (window s' ≤ window s)%N → window_inv s'.
Proof.
  intros Hinv Ha Hmore Hc Hw. destruct Hinv as [(r & n & l & d & rest & Hr & Ho & H0 & Hf)|[Ho Hs]].
  - left. exists r, n, l, d, (rest ++ more). rewrite Ha, Hr, Hc. split; [done|]. split; [by apply Forall_app|].
    split; [lia|done].
  - right. rewrite Ha, Hc. split; [by apply Forall_app|]. destruct (file_save _); lia.
Qed.

Lemma client_reads_window s message rest c sent_ files :
  window_inv s → arriving s = message :: rest →
  client_message directory_ works message (client_ s) (disk s) = (c, sent_, files) →
  window_inv {| task := task s; listed := listed s; grants_ := grants_ s; arriving := rest;
                commands := commands s ++ sent_; client_ := c; disk := files |}.
Proof.
  intros Hinv Ha. unfold window_inv, window in *. cbn [task grants_ arriving commands client_].
  rewrite fmap_app, sum_N_app. rewrite Ha, chunks_in_cons in Hinv.
  destruct Hinv as [(r & n & l & d & rest' & Hr & Ho & H0 & Hf)|[Ho Hs]].
  { (* the offer *)
    injection Hr as -> ->. cbn [client_message is_chunk] in *. unfold client_offered.
    destruct (negb _). { intros [= <- <- <-]. right. split; [done|]. rewrite Hf. cbn. unfold SAVE_WINDOW_CHUNKS. lia. }
    destruct (save_begin _ _ _ _ _ _ _) as [f|e] eqn:E.
    - destruct (save_begin_spec _ _ _ _ _ _ _ _ E) as (base & _ & _ & ->).
      cbn [save_start]. intros [= <- <- <-]. right. split; [done|].
      cbn -[chunks_in sum_N]. cbn [sum_N foldr]. unfold SAVE_WINDOW_CHUNKS. lia.
    - intros [= <- <- <-]. right. split; [done|]. cbn [file_save]. rewrite Hf. cbn. unfold SAVE_WINDOW_CHUNKS. lia. }
  inversion Ho as [|? ? Hm Hrest]; subst. intros Hc. right. split; [done|].
  destruct message; try (injection Hc as <- <- <-; cbn -[chunks_in sum_N] in *; cbn [sum_N foldr] in *;
                         destruct (file_save _); lia).
  - done.
  - cbn [client_message] in Hc. unfold client_chunk in Hc. cbn [is_chunk] in *.
    destruct (file_save (client_ s)) as [f|] eqn:Ef; cbn in *.
    2: { injection Hc as <- <- <-. rewrite Ef. cbn in *. lia. }
    destruct (negb _). { injection Hc as <- <- <-. rewrite Ef. cbn in *. lia. }
    destruct (save_chunk _ _ f) as [[f' progress]|e] eqn:E; injection Hc as <- <- <-; cbn [file_save].
    2: { cbn in *. unfold SAVE_WINDOW_CHUNKS in *. lia. }
    revert E. unfold save_chunk. destruct (_ <? _)%N; [done|]. destruct (writes works); [|done]. cbn [negb].
    destruct (_ || _) eqn:Eo; intros [= <- <-]; cbn in *; unfold SAVE_WINDOW_CHUNKS in *; [lia|].
    apply orb_false_iff in Eo as [_ Eo]. apply N.ltb_ge in Eo. lia.
  - cbn [client_message] in Hc. unfold client_finished in Hc. cbn [is_chunk] in *.
    destruct (file_save (client_ s)) as [f|] eqn:Ef.
    2: { injection Hc as <- <- <-. cbn in *. lia. }
    destruct (negb _). { injection Hc as <- <- <-. cbn in *. unfold SAVE_WINDOW_CHUNKS in *. lia. }
    destruct (save_finish _ _ _) as [files' outcome]. injection Hc as <- <- <-. cbn in *.
    unfold SAVE_WINDOW_CHUNKS in *. lia.
Qed.

Lemma fetch_step_window s s' : window_inv s → step s s' → window_inv s'.
Proof.
  intros Hinv Hstep. destruct Hstep as [s d grants out Ht|s early message Ht|s Ho Hl|s command rest Hc|s message rest c sent_ files Ha Hc].
  - destruct (download_turn_window _ _ _ _ _ Ht) as [Hw Ho].
    apply (window_narrows s _ out); [done..|]. unfold window. cbn [task grants_ arriving commands].
    rewrite chunks_in_app. lia.
  - eapply (window_narrows s); [done..|repeat constructor|done|]. unfold window. cbn [task grants_ arriving commands over dl_credit].
    rewrite chunks_in_error. lia.
  - apply (window_narrows s _ []); [done|by rewrite app_nil_r|constructor|done|reflexivity].
  - destruct command as [request n|request]; destruct (listed s && _).
    + apply (window_narrows s _ []); [done|by rewrite app_nil_r|constructor|done|].
      unfold window. cbn [task grants_ arriving commands]. rewrite Hc, sum_N_app. cbn [fmap list_fmap pulled sum_N foldr].
      unfold sum_N. lia.
    + eapply (window_narrows s); [done..|repeat constructor|done|].
      unfold window. cbn [task grants_ arriving commands]. rewrite Hc, chunks_in_error.
      cbn [fmap list_fmap pulled sum_N foldr]. unfold sum_N. lia.
    + apply (window_narrows s _ []); [done|by rewrite app_nil_r|constructor|done|].
      unfold window. cbn [task grants_ arriving commands over dl_credit]. rewrite Hc. cbn [fmap list_fmap pulled sum_N foldr]. unfold sum_N. lia.
    + apply (window_narrows s _ []); [done|by rewrite app_nil_r|constructor|done|].
      unfold window. cbn [task grants_ arriving commands]. rewrite Hc. cbn [fmap list_fmap pulled sum_N foldr]. unfold sum_N. lia.
  - by eapply client_reads_window.
Qed.

(** A client is never sent more than it opened: however the turns of a fetch
    fall, whatever the source does, and whether or not the save holds, the chunks
    that wait in its outbox are never more than the window of eight. *)
Theorem window_respected request source files s :
  rtc step (fetch_start request source files) s →
  (chunks_in (arriving s) ≤ SAVE_WINDOW_CHUNKS)%N.
Proof.
  intros Hrun. assert (window_inv s) as Hinv.
  { refine (rtc_ind_r window_inv _ _ _ s Hrun); [|by intros; eapply fetch_step_window].
    left. exists request, (sf_name source), (sf_length source), (sf_digest source), [].
    split; [done|]. split; [constructor|done]. }
  destruct Hinv as [(?&?&?&?&?&_&_&H0&_)|[_ Hs]].
  - unfold window in H0. lia.
  - unfold window in Hs. destruct (file_save _); lia.
Qed.
End fetching.

(** ** Completion *)

(** Every run from here comes to [P]: it is not stuck before, and cannot go on for ever. *)
Inductive inevitable {A} (R : A → A → Prop) (P : A → Prop) : A → Prop :=
  | inevitable_now x : P x → inevitable R P x
  | inevitable_later x : (∃ y, R x y) → (∀ y, R x y → inevitable R P y) → inevitable R P x.

Lemma inevitable_measure {A} (R : A → A → Prop) (P I : A → Prop) (mu : A → nat) :
  (∀ x, I x → (∃ y, R x y) ∧ ∀ y, R x y → P y ∨ (I y ∧ mu y < mu x)) →
  ∀ x, I x → inevitable R P x.
Proof.
  intros Hstep x. induction (Nat.lt_wf_0_projected mu x) as [x _ IH]. intros Hx.
  destruct (Hstep x Hx) as [He Hall]. apply inevitable_later; [done|]. intros y Hy.
  destruct (Hall y Hy) as [HP|[HI Hlt]]; [by apply inevitable_now|by apply IH].
Qed.

(** A source whose bytes all arrive, in whatever pieces. *)
Definition streams (source : SourceFile) (content : bytes) : Prop :=
  ∃ pieces, sf_stream source = Some <$> pieces ∧ content = concat pieces.

Lemma poll_stream_whole wanted pieces :
  (0 < wanted)%N → concat pieces ≠ [] →
  ∃ b rest, poll_stream wanted (Some <$> pieces) = (Some <$> rest, Some b) ∧
    b ≠ [] ∧ concat pieces = b ++ concat rest.
Proof.
  intros Hw. induction pieces as [|piece pieces IH]; [done|]. intros Hne.
  cbn [fmap list_fmap poll_stream]. case_bool_decide as Hp.
  - subst piece. by apply IH.
  - exists (take (N.to_nat wanted) piece).
    exists (if bool_decide (drop (N.to_nat wanted) piece = []) then pieces
            else drop (N.to_nat wanted) piece :: pieces).
    split; [by case_bool_decide|]. split.
    { destruct piece; [done|]. destruct (N.to_nat wanted) eqn:E; [lia|done]. }
    cbn [concat]. case_bool_decide as Hd; cbn [concat].
    + rewrite <- (take_drop (N.to_nat wanted) piece) at 1. by rewrite Hd, app_nil_r.
    + by rewrite app_assoc, take_drop.
Qed.

Lemma read_whole wanted source content :
  (0 < wanted)%N → streams source content → content ≠ [] →
  ∃ source' b rest, read wanted source = (source', Some b) ∧ b ≠ [] ∧ content = b ++ rest ∧
    streams source' rest ∧ sf_length source' = sf_length source.
Proof.
  intros Hw (pieces & Hs & ->) Hne. destruct (poll_stream_whole wanted pieces Hw Hne) as (b & rest & Hp & Hb & Hc).
  unfold read, SourceFile_read. rewrite Hs, Hp. eexists _, b, (concat rest). split; [done|].
  split; [done|]. split; [done|]. split; [by exists rest|done].
Qed.

Section completion.
Context `{Sha256} (directory_ base : ustr) (request : N) (source : SourceFile) (content : bytes).
Context (files : gmap ustr bytes).
Context (Hname : file_name (sf_name source) = Some base).
Context (Hfree : files !! join_path directory_ base = None).
Context (Hstream : streams source content) (Hlength : sf_length source = N.of_nat (length content)).
Context (Hdigest : sf_digest source = hex (sha256 content)).

(** A machine where files can be created, written and flushed. *)
Definition sound_disk : Disk := {| creates := true; writes := true; flushes := true |}.
Abbreviation step := (fetch_step directory_ sound_disk).

Definition fetched (s : Fetching) : Prop :=
  disk s = <[join_path directory_ base := content]> files ∧ file_save (client_ s) = None ∧
  notice (client_ s) = Saved (join_path directory_ base).

Definition is_error (m : ServerMessage) : Prop := match m with ErrorMessage _ _ => True | _ => False end.
Definition pulls_here (c : SaveCommand) : Prop := match c with PullDownload r _ => r = request | _ => False end.
Definition trailing (ended : bool) (errors : list ServerMessage) : list ServerMessage :=
  if ended then DownloadFinished request :: errors else [].

(** The task: what is left of the source, and what it counted. *)
Definition task_inv (d : DownloadTask) (sent_ rest : bytes) : Prop :=
  streams (dl_source d) rest ∧ content = sent_ ++ rest ∧ dl_sent d = N.of_nat (length sent_) ∧
  sf_length (dl_source d) = N.of_nat (length content) ∧ dl_request d = request ∧
  (dl_over d = true → rest = []).

Definition asked_inv (s : Fetching) : Prop :=
  task_inv (task s) [] content ∧ dl_credit (task s) = 0%N ∧ grants_ s = [] ∧ commands s = [] ∧
  (dl_over (task s) = false → listed s = true) ∧
  arriving s = DownloadOffer request (sf_name source) (N.of_nat (length content)) (hex (sha256 content))
               :: trailing (dl_over (task s)) [] ∧
  file_save (client_ s) = None ∧ file_save_request (client_ s) = Some request.

Definition saving_inv (s : Fetching) : Prop := ∃ f chunks_ rest errors,
  task_inv (task s) (written f ++ concat chunks_) rest ∧ Forall (.≠ []) chunks_ ∧
  (dl_over (task s) = false → listed s = true) ∧
  arriving s = (DownloadChunk request <$> chunks_) ++ trailing (dl_over (task s)) errors ∧
  Forall is_error errors ∧ Forall pulls_here (commands s) ∧
  file_save (client_ s) = Some f ∧ fs_request f = request ∧ destination f = join_path directory_ base ∧
  fs_length f = N.of_nat (length content) ∧ fs_digest f = hex (sha256 content) ∧
  received f = N.of_nat (length (written f)) ∧ (fs_outstanding f ≤ SAVE_WINDOW_CHUNKS)%N ∧
  (received f < fs_length f → 0 < fs_outstanding f)%N ∧
  (dl_over (task s) = false →
   fs_outstanding f = dl_credit (task s) + sum_N (grants_ s) + sum_N (pulled <$> commands s)
                      + N.of_nat (length chunks_))%N.

Definition fetch_inv (s : Fetching) : Prop := disk s = files ∧ (asked_inv s ∨ saving_inv s).

Definition weight (m : ServerMessage) : nat := match m with ErrorMessage _ _ => 1 | _ => 3 end.
Definition work (s : Fetching) : nat :=
  4 * (length content - N.to_nat (dl_sent (task s))) + (if dl_over (task s) then 0 else 4)
  + (if listed s then 1 else 0) + sum_list (weight <$> arriving s) + 2 * length (commands s) + length (grants_ s).

Lemma sum_weight_app l l' : sum_list (weight <$> (l ++ l')) = sum_list (weight <$> l) + sum_list (weight <$> l').
Proof. rewrite fmap_app. induction (weight <$> l) as [|x l0 IH]; cbn in *; lia. Qed.

(** The task's turns. *)
Lemma turn_spec d grants sent_ rest :
  task_inv d sent_ rest →
  (dl_over d = true ∧ download_turn d grants = Idle) ∨
  (dl_over d = false ∧ rest ≠ [] ∧ dl_credit d = 0%N ∧ grants = [] ∧ download_turn d grants = Idle) ∨
  (dl_over d = false ∧ ∃ d' grants' out, download_turn d grants = Turned d' grants' out ∧
     ((rest = [] ∧ out = [DownloadFinished request] ∧ grants' = grants ∧ task_inv d' sent_ [] ∧ dl_over d' = true) ∨
      (rest ≠ [] ∧ dl_over d' = false ∧
       ((∃ n, grants = n :: grants' ∧ out = [] ∧ task_inv d' sent_ rest ∧
              dl_credit d = 0%N ∧ dl_credit d' = N.min n SAVE_WINDOW_CHUNKS) ∨
        (∃ b rest', b ≠ [] ∧ out = [DownloadChunk request b] ∧ grants' = grants ∧ task_inv d' (sent_ ++ b) rest' ∧
              dl_credit d = dl_credit d' + 1)%N)))).
Proof.
  intros (Hs & Hc & Hsent & Hlen & Hr & Hover). unfold download_turn.
  destruct (dl_over d) eqn:Eo; [by left|]. right. rewrite Hsent, Hlen.
  assert (length content = length sent_ + length rest) as Hl by (rewrite Hc; apply length_app).
  destruct (N.ltb_spec (N.of_nat (length sent_)) (N.of_nat (length content))) as [Hlt|Hge].
  - assert (rest ≠ []) as Hrest by (intros ->; cbn in Hl; lia).
    destruct (N.eqb_spec (dl_credit d) 0) as [H0|H0].
    + destruct grants as [|n grants]; [by left|]. right. split; [done|]. eexists _, _, _. split; [done|].
      right. split; [done|]. split; [done|]. left. exists n. split; [done|]. split; [done|].
      split; [by repeat split|]. split; [done|]. cbn [dl_credit]. rewrite H0.
      unfold u32_saturating_add, u32_max, MAX_OUTSTANDING_CHUNKS, SAVE_WINDOW_CHUNKS. lia.
    + right. split; [done|]. unfold DOWNLOAD_CHUNK_BYTES.
      destruct (read_whole (N.min (N.of_nat (length content) - N.of_nat (length sent_)) (256 * 1024)) (dl_source d) rest)
        as (source' & b & rest' & Hread & Hb & Hrest' & Hs' & Hl'); [lia|done..|].
      rewrite Hread. destruct b as [|x b]; [done|]. eexists _, _, _. split; [done|].
      right. split; [done|]. split; [done|]. right. exists (x :: b), rest'. rewrite Hr.
      split; [done|]. split; [done|]. split; [done|]. split; [|cbn; lia].
      split; [done|]. rewrite <- app_assoc, <- Hrest'. split; [done|].
      cbn [dl_sent dl_source dl_request dl_over]. rewrite length_app.
      split; [lia|]. split; [congruence|]. done.
  - right. split; [done|]. eexists _, _, _. split; [done|]. left.
    assert (rest = []) as -> by (destruct rest; [done|cbn in Hl; lia]).
    rewrite Hr. split; [done|]. split; [done|]. split; [done|]. split; [|done]. by repeat split.
Qed.

Lemma client_turn s : arriving s ≠ [] → ∃ s', step s s'.
Proof.
  destruct (arriving s) as [|m rest] eqn:E; [done|]. intros _.
  destruct (client_message directory_ sound_disk m (client_ s) (disk s)) as [[c sent_] files'] eqn:Ec.
  eexists. by eapply ClientReads.
Qed.

Lemma fetch_progress s : fetch_inv s → ∃ s', step s s'.
Proof.
  intros [_ [Hi|Hi]].
  { apply client_turn. destruct Hi as (_&_&_&_&_&Ha&_). by rewrite Ha. }
  destruct Hi as (f & chunks_ & rest & errors & Ht & Hne & Hl & Ha & _ & _ & Hf & _ & _ & Hlen & _ & Hr & _ & Hpos & Hsum).
  destruct (decide (arriving s = [])) as [Hnil|]; [|by apply client_turn].
  destruct (commands s) as [|command more] eqn:Ec; [|by eexists; eapply DaemonReads].
  rewrite Ha in Hnil. apply app_eq_nil in Hnil as [Hchunks Htrail].
  apply fmap_nil_inv in Hchunks as ->.
  destruct (turn_spec _ (grants_ s) _ _ Ht) as [[Ho _]|[(Ho & Hrest & H0 & Hg & _)|(_ & d' & g' & out & Hturn & _)]].
  - by rewrite Ho in Htrail.
  - exfalso. specialize (Hsum Ho). rewrite H0, Hg in Hsum. cbn in Hsum.
    destruct Ht as (_ & Hc & _). cbn in Hc. rewrite app_nil_r in Hc.
    apply (f_equal length) in Hc. rewrite length_app in Hc. destruct rest; [done|]. cbn in Hc. lia.
  - eexists. by eapply TaskTurns.
Qed.

(** What the task's turns do. *)
Definition turned (s : Fetching) (d : DownloadTask) (grants : list N) (out : list ServerMessage) : Fetching := {|
  task := d; listed := listed s; grants_ := grants; arriving := arriving s ++ out;
  commands := commands s; client_ := client_ s; disk := disk s |}.

Lemma turn_work s sent_ rest d grants out :
  task_inv (task s) sent_ rest → download_turn (task s) (grants_ s) = Turned d grants out →
  work (turned s d grants out) < work s.
Proof.
  intros Ht Hturn. pose proof Ht as (_ & Hc & Hsent & _). apply (f_equal length) in Hc. rewrite length_app in Hc.
  destruct (turn_spec _ (grants_ s) _ _ Ht) as [[Ho Hidle]|[(Ho & _ & _ & _ & Hidle)|(Ho & d' & g' & out' & Hturn' & Hcases)]];
    [congruence..|].
  rewrite Hturn in Hturn'. injection Hturn' as <- <- <-.
  unfold work, turned. cbn [task listed grants_ arriving commands]. rewrite sum_weight_app, Ho, Hsent.
  destruct Hcases as [(-> & -> & -> & (_&_&Hs'&_) & ->)|(Hrest & -> & [(n & -> & -> & (_&_&Hs'&_) & _)|(b & rest' & Hb & -> & -> & (_&Hc'&Hs'&_) & _)])];
    rewrite Hs'; cbn [fmap list_fmap weight sum_list length]; [cbn; lia|cbn; lia|].
  apply (f_equal length) in Hc'. rewrite !length_app in *. destruct b; [done|]. cbn in *. lia.
Qed.

Lemma asked_turns s d grants out :
  asked_inv s → download_turn (task s) (grants_ s) = Turned d grants out → asked_inv (turned s d grants out).
Proof.
  intros (Ht & H0 & Hg & Hcom & Hl & Ha & Hf & Hreq) Hturn.
  destruct (turn_spec _ (grants_ s) _ _ Ht) as [[Ho Hidle]|[(Ho & _ & _ & _ & Hidle)|(Ho & d' & g' & out' & Hturn' & Hcases)]];
    [congruence..|].
  rewrite Hturn in Hturn'. injection Hturn' as <- <- <-.
  destruct Hcases as [(Hnil & -> & -> & Ht' & Ho')|(Hrest & _ & [(n & Hgn & _)|(b & rest' & _ & _ & _ & _ & Hcredit)])];
    [|congruence|lia].
  assert (dl_credit d = 0%N) as Hcredit.
  { revert Hturn. unfold download_turn. rewrite Ho. destruct Ht as (_ & Hc & -> & -> & _). rewrite Hnil.
    cbn [length]. rewrite N.ltb_irrefl. intros [= <- _]. done. }
  unfold asked_inv, turned. cbn [task listed grants_ arriving commands client_].
  rewrite Hnil, Ho', Ha, Ho in *. done.
Qed.

Lemma saving_turns s d grants out :
  saving_inv s → download_turn (task s) (grants_ s) = Turned d grants out → saving_inv (turned s d grants out).
Proof.
  intros (f & chunks_ & rest & errors & Ht & Hne & Hl & Ha & Herr & Hcom & Hf & Hreq & Hdest & Hlen & Hdig & Hr & Hout & Hpos & Hsum) Hturn.
  destruct (turn_spec _ (grants_ s) _ _ Ht) as [[Ho Hidle]|[(Ho & _ & _ & _ & Hidle)|(Ho & d' & g' & out' & Hturn' & Hcases)]];
    [congruence..|].
  rewrite Hturn in Hturn'. injection Hturn' as <- <- <-. specialize (Hsum Ho). specialize (Hl Ho).
  rewrite Ho in Ha. cbn [trailing] in Ha. rewrite app_nil_r in Ha.
  destruct Hcases as [(-> & -> & -> & Ht' & Ho')|(Hrest & Ho' & [(n & Hg & -> & Ht' & H0 & Hcredit)|(b & rest' & Hb & -> & -> & Ht' & Hcredit)])].
  - exists f, chunks_, [], []. unfold turned. cbn [task listed grants_ arriving commands client_].
    rewrite Ho', Ha. naive_solver.
  - exists f, chunks_, rest, []. unfold turned. cbn [task listed grants_ arriving commands client_].
    rewrite Ho', Ha. cbn [trailing]. rewrite Hg in Hsum. cbn [sum_N foldr] in Hsum. fold (sum_N grants) in Hsum.
    repeat (split; [done|]). intros _. unfold SAVE_WINDOW_CHUNKS in *. lia.
  - exists f, (chunks_ ++ [b]), rest', []. unfold turned. cbn [task listed grants_ arriving commands client_].
    rewrite Ho', Ha, fmap_app. cbn [trailing]. rewrite app_nil_r, length_app, concat_app. cbn [concat length].
    rewrite app_nil_r, app_assoc. split; [done|]. split; [by apply Forall_app; repeat constructor|].
    repeat (split; [done|]). intros _. lia.
Qed.

Lemma fetch_turns s d grants out :
  fetch_inv s → download_turn (task s) (grants_ s) = Turned d grants out →
  fetch_inv (turned s d grants out) ∧ work (turned s d grants out) < work s.
Proof.
  intros [Hd [Hi|Hi]] Hturn; (split; [split; [done|]|]).
  - left. by apply asked_turns.
  - destruct Hi as (Ht & _). by eapply turn_work.
  - right. by apply saving_turns.
  - destruct Hi as (f & c & r & e & Ht & _). by eapply turn_work.
Qed.

Lemma fetch_never_fails s early : fetch_inv s → download_turn (task s) (grants_ s) ≠ Failed early.
Proof.
  intros [_ Hi]. assert (∃ sent_ rest, task_inv (task s) sent_ rest) as (sent_ & rest & Ht).
  { destruct Hi as [(Ht&_)|(f&c&r&e&Ht&_)]; eauto. }
  destruct (turn_spec _ (grants_ s) _ _ Ht) as [[_ ->]|[(_&_&_&_&->)|(_&?&?&?&->&_)]]; done.
Qed.

(** What the client does with what it reads. *)
Lemma offer_read s rest c sent_ files' :
  asked_inv s → disk s = files → arriving s = DownloadOffer request (sf_name source) (N.of_nat (length content)) (hex (sha256 content)) :: rest →
  client_message directory_ sound_disk
    (DownloadOffer request (sf_name source) (N.of_nat (length content)) (hex (sha256 content))) (client_ s) (disk s)
    = (c, sent_, files') →
  let s' := {| task := task s; listed := listed s; grants_ := grants_ s; arriving := rest;
               commands := commands s ++ sent_; client_ := c; disk := files' |} in
  fetch_inv s' ∧ work s' < work s.
Proof.
  intros (Ht & H0 & Hg & Hcom & Hl & Ha & Hf & Hreq) Hd Harr Hc s'.
  cbn [client_message] in Hc. unfold client_offered in Hc. rewrite bool_decide_true in Hc by done. cbn [negb] in Hc.
  unfold save_begin in Hc. rewrite Hname in Hc. cbn [mbind option_bind] in Hc.
  destruct (file_name_component _ _ Hname) as (Hb1 & Hb2 & Hb3 & _).
  rewrite (bool_decide_false (base = [])), (bool_decide_false (base = u ".")), (bool_decide_false (base = u "..")) in Hc by done.
  cbn [orb] in Hc. rewrite Hd, (bool_decide_false (is_Some _)) in Hc by (by rewrite Hfree; intros [? ?]).
  cbn in Hc. injection Hc as <- <- <-. rewrite Harr in Ha. injection Ha as ->.
  split; [split; [done|]; right|].
  - unfold saving_inv, s'. cbn [task listed grants_ arriving commands client_ file_save].
    exists (set_outstanding SAVE_WINDOW_CHUNKS {| fs_request := request; destination := join_path directory_ base;
      fs_length := N.of_nat (length content); fs_digest := hex (sha256 content); received := 0; written := [];
      fs_outstanding := 0 |}), [], content, []. split; [exact Ht|]. rewrite Hg, Hcom, H0. split; [constructor|]. split; [done|]. split; [done|]. split; [constructor|].
    split; [by repeat constructor|]. split; [done|]. cbn. repeat (split; [done|]). done.
  - unfold work, s'. cbn [task listed grants_ arriving commands client_]. rewrite Hcom, Harr.
    cbn [fmap list_fmap weight sum_list length app]. cbn. lia.
Qed.

Lemma chunk_read s f b chunks_ rest errors c sent_ files' more :
  disk s = files → file_save (client_ s) = Some f → fs_request f = request →
  task_inv (task s) (written f ++ concat (b :: chunks_)) rest → b ≠ [] → Forall (.≠ []) chunks_ →
  (dl_over (task s) = false → listed s = true) →
  more = (DownloadChunk request <$> chunks_) ++ trailing (dl_over (task s)) errors →
  arriving s = DownloadChunk request b :: more →
  Forall is_error errors → Forall pulls_here (commands s) →
  destination f = join_path directory_ base → fs_length f = N.of_nat (length content) →
  fs_digest f = hex (sha256 content) → received f = N.of_nat (length (written f)) →
  (fs_outstanding f ≤ SAVE_WINDOW_CHUNKS)%N →
  (dl_over (task s) = false →
   fs_outstanding f = dl_credit (task s) + sum_N (grants_ s) + sum_N (pulled <$> commands s)
                      + N.of_nat (length (b :: chunks_)))%N →
  client_message directory_ sound_disk (DownloadChunk request b) (client_ s) (disk s) = (c, sent_, files') →
  let s' := {| task := task s; listed := listed s; grants_ := grants_ s; arriving := more;
               commands := commands s ++ sent_; client_ := c; disk := files' |} in
  fetch_inv s' ∧ work s' < work s.
Proof.
  intros Hd Hf Hreq Ht Hb Hne Hl Hmore Ha Herr Hcom Hdest Hlen Hdig Hr Hout Hsum Hc s'.
  cbn [client_message] in Hc. unfold client_chunk in Hc. rewrite Hf, Hreq, N.eqb_refl in Hc. cbn [negb] in Hc.
  assert (length content = length (written f) + length b + length (concat chunks_) + length rest) as Hlc.
  { destruct Ht as (_ & Hcc & _). rewrite Hcc at 1. cbn [concat]. rewrite !length_app. lia. }
  unfold save_chunk in Hc. rewrite Hlen, Hr in Hc.
  destruct (N.ltb_spec (N.of_nat (length content) - N.of_nat (length (written f))) (N.of_nat (length b))); [lia|].
  cbn [negb sound_disk writes fs_length received fs_outstanding] in Hc.
  assert (written f ++ concat (b :: chunks_) = (written f ++ b) ++ concat chunks_) as Happ by (cbn [concat]; by rewrite app_assoc).
  rewrite Happ in Ht. cbn [length] in Hsum.
  destruct (_ || _)%N eqn:Eo in Hc; injection Hc as <- <- <-.
  - split; [split; [done|]; right|].
    + unfold saving_inv, s'. cbn [task listed grants_ arriving commands client_ file_save]. rewrite app_nil_r.
      eexists {| fs_outstanding := _ |}, chunks_, rest, errors. split; [exact Ht|]. split; [done|]. split; [done|].
      split; [exact Hmore|]. split; [done|]. split; [done|]. split; [done|].
      cbn [fs_request destination fs_length fs_digest received written fs_outstanding]. rewrite length_app.
      split; [done|]. split; [done|]. split; [done|]. split; [done|]. split; [lia|]. split; [lia|].
      split; [|intros Ho; specialize (Hsum Ho); lia].
      intros Hlt. apply orb_true_iff in Eo as [Eo|Eo]; [apply N.leb_le in Eo; lia|by apply N.ltb_lt in Eo].
    + unfold work, s'. cbn [task listed grants_ arriving commands]. rewrite app_nil_r, Ha.
      cbn [fmap list_fmap weight sum_list]. cbn. lia.
  - apply orb_false_iff in Eo as [_ Eo]. apply N.ltb_ge in Eo.
    split; [split; [done|]; right|].
    + unfold saving_inv, s'. cbn [task listed grants_ arriving commands client_ file_save].
      eexists (set_outstanding SAVE_WINDOW_CHUNKS {| fs_outstanding := _ |}), chunks_, rest, errors.
      split; [exact Ht|]. split; [done|]. split; [done|]. split; [exact Hmore|]. split; [done|].
      split; [apply Forall_app; by repeat constructor|]. split; [done|].
      cbn [set_outstanding fs_request destination fs_length fs_digest received written fs_outstanding]. rewrite length_app.
      split; [done|]. split; [done|]. split; [done|]. split; [done|]. split; [lia|]. split; [done|]. split; [done|].
      intros Ho. specialize (Hsum Ho). rewrite fmap_app, sum_N_app. cbn [fmap list_fmap pulled sum_N foldr]. lia.
    + unfold work, s'. cbn [task listed grants_ arriving commands]. rewrite length_app, Ha.
      cbn [fmap list_fmap weight sum_list length]. cbn. lia.
Qed.

Lemma finish_read s f rest errors c sent_ files' more :
  disk s = files → file_save (client_ s) = Some f → fs_request f = request →
  task_inv (task s) (written f ++ []) rest → dl_over (task s) = true →
  destination f = join_path directory_ base → fs_length f = N.of_nat (length content) →
  fs_digest f = hex (sha256 content) → received f = N.of_nat (length (written f)) →
  arriving s = DownloadFinished request :: errors →
  client_message directory_ sound_disk (DownloadFinished request) (client_ s) (disk s) = (c, sent_, files') →
  fetched {| task := task s; listed := listed s; grants_ := grants_ s; arriving := more;
             commands := commands s ++ sent_; client_ := c; disk := files' |}.
Proof.
  intros Hd Hf Hreq (_ & Hcontent & _ & _ & _ & Hrest) Ho Hdest Hlen Hdig Hr Ha Hc.
  specialize (Hrest Ho). subst rest. rewrite !app_nil_r in Hcontent.
  cbn [client_message] in Hc. unfold client_finished in Hc. rewrite Hf, Hreq, N.eqb_refl in Hc. cbn [negb] in Hc.
  unfold save_finish in Hc. rewrite Hr, Hlen, <- Hcontent, N.eqb_refl, Hdig in Hc. cbn [negb] in Hc.
  rewrite (bool_decide_true (hex (sha256 content) = hex (sha256 content))), andb_false_r in Hc by done.
  cbn [negb sound_disk flushes] in Hc.
  rewrite Hd, Hdest, (bool_decide_false (is_Some _)) in Hc by (by rewrite Hfree; intros [? ?]).
  by injection Hc as <- <- <-.
Qed.

Lemma daemon_read s command more s' :
  fetch_inv s → commands s = command :: more →
  (∃ n, command = PullDownload request n ∧
    s' = if listed s then
           {| task := task s; listed := listed s; grants_ := grants_ s ++ [n]; arriving := arriving s;
              commands := more; client_ := client_ s; disk := disk s |}
         else
           {| task := task s; listed := listed s; grants_ := grants_ s;
              arriving := arriving s ++ [ErrorMessage (Some request) no_file_read];
              commands := more; client_ := client_ s; disk := disk s |}) →
  fetch_inv s' ∧ work s' < work s.
Proof.
  intros [Hd Hi] Hcmd (n & -> & ->).
  destruct Hi as [(_&_&_&Hnil&_)|Hi]; [congruence|].
  destruct Hi as (f & chunks_ & rest & errors & Ht & Hne & Hl & Ha & Herr & Hcom & Hf & Hreq & Hdest & Hlen & Hdig & Hr & Hout & Hpos & Hsum).
  rewrite Hcmd in *. inversion Hcom as [|? ? _ Hmore]; subst. cbn [fmap list_fmap pulled sum_N foldr] in Hsum.
  destruct (listed s) eqn:El; (split; [split; [done|]; right|]).
  - exists f, chunks_, rest, errors. cbn [task listed grants_ arriving commands client_]. rewrite ?El, ?Hcmd in *.
    repeat (split; [done|]). intros Ho. specialize (Hsum Ho). rewrite sum_N_app. cbn [sum_N foldr].
    unfold sum_N in *. lia.
  - unfold work. cbn [task listed grants_ arriving commands]. rewrite El, Hcmd, length_app. cbn [length]. lia.
  - exists f, chunks_, rest, (errors ++ [ErrorMessage (Some request) no_file_read]).
    cbn [task listed grants_ arriving commands client_]. rewrite ?El, ?Hcmd in *.
    destruct (dl_over (task s)) eqn:Ho; [|by specialize (Hl eq_refl)].
    split; [done|]. split; [done|]. split; [done|]. split.
    { rewrite Ha, <- app_assoc. done. }
    split; [apply Forall_app; by repeat constructor|]. repeat (split; [done|]). done.
  - unfold work. cbn [task listed grants_ arriving commands]. rewrite El, Hcmd, sum_weight_app.
    cbn [fmap list_fmap weight sum_list length]. cbn. lia.
Qed.

Lemma fetch_preserved s s' : fetch_inv s → step s s' → fetched s' ∨ (fetch_inv s' ∧ work s' < work s).
Proof.
  intros Hinv Hstep. pose proof Hstep as Hstep'.
  destruct Hstep' as [s d grants out Ht|s early message Ht|s Ho Hl|s command rest Hc|s message rest c sent_ files' Ha Hc].
  - right. by apply fetch_turns.
  - by destruct (fetch_never_fails s early Hinv).
  - right. destruct Hinv as [Hd Hi]. split; [split; [done|]|unfold work; cbn; rewrite Hl; lia].
    destruct Hi as [Hi|(f & Hi)]; [left|right; exists f]; unfold asked_inv in *; cbn in *; rewrite Ho in *; naive_solver.
  - right. apply (daemon_read s command rest); [done..|]. destruct Hinv as [Hd Hi].
    destruct Hi as [(_&_&_&Hnil&_)|(f&chunks_&r&errors&Ht&_&_&_&_&Hcom&_)]; [congruence|].
    rewrite Hc in Hcom. inversion Hcom as [|? ? Hp _]; subst. destruct command as [r' n|r']; [|done].
    cbn in Hp. subst r'. exists n. split; [done|].
    destruct Ht as (_&_&_&_&->&_). rewrite N.eqb_refl, andb_true_r. done.
  - destruct Hinv as [Hd [Hi|Hi]].
    + right. pose proof Hi as (_&_&_&_&_&Ha'&_). rewrite Ha in Ha'. injection Ha' as -> ->.
      by eapply offer_read.
    + destruct Hi as (f & chunks_ & rest' & errors & Ht & Hne & Hl & Ha' & Herr & Hcom & Hf & Hreq & Hdest & Hlen & Hdig & Hr & Hout & Hpos & Hsum).
      rewrite Ha in Ha'. destruct chunks_ as [|b chunks_].
      * destruct (dl_over (task s)) eqn:Ho; [|done]. cbn [fmap list_fmap app trailing] in Ha'. injection Ha' as -> ->.
        left. by eapply (finish_read s f).
      * cbn [fmap list_fmap app] in Ha'. injection Ha' as -> ->. inversion Hne; subst.
        right. by eapply (chunk_read s f b chunks_ rest' errors).
Qed.

Lemma fetch_inevitable : inevitable step fetched (fetch_start request source files).
Proof.
  apply (inevitable_measure step fetched fetch_inv work).
  - intros s Hinv. split; [by apply fetch_progress|]. intros s' Hs'. by apply fetch_preserved.
  - split; [done|]. left. unfold fetch_start, asked_inv. cbn. rewrite Hlength, Hdigest. by repeat split.
Qed.
End completion.

(** C36. A fetch comes to its end: once a file is asked for, if its bytes all arrive
    from the host in whatever pieces, if they are what the host described and if
    this machine can write them under a name that is free, then however the turns of
    the daemon's task, of its loop and of the client fall, the fetch is never stuck,
    does not go on for ever, and ends with the file saved. *)
Theorem fetch_completes `{Sha256} (directory_ base : ustr) (request : N) (source : SourceFile) (content : bytes) (files : gmap ustr bytes) :
  file_name (sf_name source) = Some base → files !! join_path directory_ base = None →
  streams source content → sf_length source = N.of_nat (length content) →
  sf_digest source = hex (sha256 content) →
  inevitable (fetch_step directory_ sound_disk)
    (λ s, disk s = <[join_path directory_ base := content]> files ∧ file_save (client_ s) = None ∧
          notice (client_ s) = Saved (join_path directory_ base))
    (fetch_start request source files).
Proof. intros. by apply fetch_inevitable. Qed.

(** ** Fetches *)

Module Fetches.
#[export] Instance plain_digest : Sha256 := λ b, b.
Definition content : bytes := u "hello".
Definition source : SourceFile := {|
  sf_name := u "notes/greeting"; sf_length := 5; sf_digest := hex content;
  sf_stream := [Some (u "he"); Some []; Some (u "llo")] |}.
Definition letters : SourceFile := {|
  sf_name := u "letters"; sf_length := 26; sf_digest := [];
  sf_stream := (λ c, Some [c]) <$> u "abcdefghijklmnopqrstuvwxyz" |}.

(** The task alone, while its turns lead somewhere. *)
Fixpoint turns (fuel : nat) (d : DownloadTask) (grants : list N) (out : list ServerMessage) : list ServerMessage :=
  match fuel with
  | O => out
  | S fuel' =>
      match download_turn d grants with
      | Turned d grants more => turns fuel' d grants (out ++ more)
      | _ => out
      end
  end.

(** Nothing is read before it is asked for. *)
Example nothing_before_a_grant :
  turns 10 (download_start 7 letters).1 [] (download_start 7 letters).2
  = [DownloadOffer 7 (u "letters") 26 []].
Proof. by vm_compute. Qed.

(** A window at a time for a client that opens windows; but a client that keeps
    asking and reads nothing is held more than the bound on one grant. *)
Example grants_add_up :
  chunks_in (turns 100 (download_start 7 letters).1 [1000%N] []) = MAX_OUTSTANDING_CHUNKS ∧
  chunks_in (turns 100 (download_start 7 letters).1 [8; 8; 8]%N []) = (3 * MAX_OUTSTANDING_CHUNKS)%N.
Proof. by vm_compute. Qed.

(** A transfer the host breaks off is shown as an error and the save stays open:
    the next file asked for is refused until somebody cancels. *)
Example broken_fetch_blocks_the_next :
  let hear m c := (client_message (u "/home") sound_disk m c ∅).1.1 in
  let c := hear (DownloadOffer 7 (u "letters") 26 []) (ask_save 7 Saves_default).1 in
  let c := hear (ErrorMessage (Some 7%N) (u "the host sent 3 of the 26 bytes it declared")) c in
  is_Some (file_save c) ∧ (ask_save 8 c).2 = false ∧ (ask_save 8 (cancel_file_save c).1).2 = true.
Proof. cbn. by eauto. Qed.

(** Asked twice before the first offer comes, the second replaces the first: the
    first offer is ignored, and nobody tells the daemon. *)
Example second_ask_replaces_the_first :
  let c := (ask_save 8 (ask_save 7 Saves_default).1).1 in
  file_save_request c = Some 8%N ∧
  (client_message (u "/home") sound_disk (DownloadOffer 7 (u "letters") 26 []) c ∅).1 = (c, []).
Proof. by vm_compute. Qed.

(** And the end of the first, when it comes, takes the second's save with it. *)
Example stranger_finish_drops_the_save :
  let hear m c := (client_message (u "/home") sound_disk m c ∅).1.1 in
  let c := hear (DownloadOffer 8 (u "letters") 26 []) (ask_save 8 (ask_save 7 Saves_default).1).1 in
  is_Some (file_save c) ∧ file_save (hear (DownloadFinished 7) c) = None.
Proof. cbn. by eauto. Qed.
End Fetches.
Import Fetches.

Lemma fetch_completes_witness :
  inevitable (fetch_step (u "/home") sound_disk)
    (λ s, disk s = {[u "/home/greeting" := u "hello"]} ∧ file_save (client_ s) = None ∧
          notice (client_ s) = Saved (u "/home/greeting"))
    (fetch_start 7 Fetches.source ∅).
Proof.
  apply (fetch_completes (u "/home") (u "greeting") 7 Fetches.source Fetches.content ∅);
    [by vm_compute|done| |by vm_compute|by vm_compute].
  by exists [u "he"; []; u "llo"].
Defined.

Lemma window_respected_witness :
  (chunks_in [DownloadChunk 7 (u "a")] ≤ SAVE_WINDOW_CHUNKS)%N ∧
  ∃ s, rtc (fetch_step (u "/home") sound_disk) (fetch_start 7 Fetches.letters ∅) s ∧
       arriving s = [DownloadChunk 7 (u "a")] ∧ (chunks_in (arriving s) ≤ SAVE_WINDOW_CHUNKS)%N.
Proof.
  split; [by vm_compute|].
  assert (∃ s, rtc (fetch_step (u "/home") sound_disk) (fetch_start 7 Fetches.letters ∅) s ∧
               arriving s = [DownloadChunk 7 (u "a")]) as (s & Hrun & Ha).
  { eexists. split.
    - eapply rtc_l; [eapply ClientReads; reflexivity|].
      eapply rtc_l; [eapply DaemonReads; reflexivity|].
      eapply rtc_l; [eapply TaskTurns; reflexivity|].
      eapply rtc_l; [eapply TaskTurns; reflexivity|]. apply rtc_refl.
    - reflexivity. }
  exists s. split; [exact Hrun|]. split; [exact Ha|].
  exact (window_respected (u "/home") sound_disk 7 Fetches.letters ∅ s Hrun).
Defined.
