(* ===== verification/ConfigEdit.v ===== *)
(** Editing the configuration file: [src/src/config.rs].

    The file is a person's: it is edited as text, and what is written is first read back.
    toml is a class, and a file system is the texts it holds and what it will not let be
    read. Offsets count characters where the source counts bytes; every one of them is the
    start of a line. *)

From S2P Require Import Prelude Text Net Config Pairing FileSave.

(** ** Lines and headers *)

(** [str::split_inclusive] at line feeds. *)
Fixpoint split_inclusive (text : ustr) : list ustr :=
  match text with
  | [] => []
  | c :: text =>
      if (c =? 10)%N then [c] :: split_inclusive text
      else match split_inclusive text with [] => [[c]] | line :: lines => (c :: line) :: lines end
  end.
Definition is_header (trimmed : ustr) : bool := starts_with 91 trimmed && bool_decide (last trimmed = Some 93%N).
Fixpoint headers_from (offset : nat) (lines : list ustr) : list (nat * ustr) :=
  match lines with
  | [] => []
  | line :: lines =>
      let trimmed := trim line in
      (if is_header trimmed then [(offset, trimmed)] else []) ++ headers_from (offset + length line) lines
  end.
Definition table_headers (text : ustr) : list (nat * ustr) := headers_from 0 (split_inclusive text).

(** ** Targets *)

Definition TARGETS : ustr := u "[[targets]]".
Definition header_after (text : ustr) (headers : list (nat * ustr)) : nat :=
  match headers with (offset, _) :: _ => offset | [] => length text end.
Fixpoint sections_of (text : ustr) (headers : list (nat * ustr)) : list (nat * nat) :=
  match headers with
  | [] => []
  | (start, header) :: headers =>
      (if bool_decide (header = TARGETS) then [(start, header_after text headers)] else []) ++ sections_of text headers
  end.
Definition target_sections (text : ustr) : list (nat * nat) := sections_of text (table_headers text).
Definition slice (text : ustr) (range : nat * nat) : ustr := take (range.2 - range.1) (drop range.1 text).

(** What toml makes of a file and of a list of targets by itself, and what it writes. *)
Class ConfigToml := {
  read_config : ustr → option Config;
  read_targets : ustr → option (list Target);
  write_targets : list Target → option ustr;
  write_devices : list Device → option ustr;
  write_config : Config → option ustr;
}.

Inductive EditError :=
  | NoConfigPath | Unreadable | Unparsable | Invalid (e : ConfigError) | NotConfigured (name : ustr) | FinalTarget
  | NotLocated (name : ustr) | Unserializable | GeneratedInvalid | DeviceTaken (name : ustr) | NotPaired (name : ustr)
  | ChangedMore | NotWritten.

Section editing.
Context `{ConfigToml}.

Definition is_section_of (text name : ustr) (range : nat * nat) : bool :=
  match read_targets (slice text range) with
  | Some [t] => bool_decide (tgt_name t = name)
  | _ => false
  end.
Definition target_section (text name : ustr) : option (nat * nat) :=
  head (filter (λ range, is_section_of text name range) (target_sections text)).

(** [Config::parse]. *)
Definition parse (text : ustr) : result EditError Config :=
  config ← ok_or (read_config text) Unparsable;
  match validate config with Ok _ => Ok config | Err e => Err (Invalid e) end.
Definition validated (config : Config) : result EditError () :=
  match validate config with Ok _ => Ok () | Err e => Err (Invalid e) end.
Definition set_targets (ts : list Target) (c : Config) : Config :=
  {| cfg_transport := cfg_transport c; cfg_notifications := cfg_notifications c; cfg_quick_replies := cfg_quick_replies c;
     cfg_transfers := cfg_transfers c; cfg_web := cfg_web c; cfg_devices := cfg_devices c; cfg_targets := ts |}.
Definition first_config (t : Target) : Config :=
  {| cfg_transport := TransportConfig_default; cfg_notifications := NotificationsConfig_default; cfg_quick_replies := None;
     cfg_transfers := TransferConfig_default; cfg_web := WebConfig_default; cfg_devices := []; cfg_targets := [t] |}.

(** The text to write for each edit, before it is read back. *)
Definition added_target (existing : option ustr) (t : Target) : result EditError ustr :=
  match existing with
  | Some text =>
      config ← parse text;
      _ ← validated (set_targets (cfg_targets config ++ [t]) config);
      appended ← ok_or (write_targets [t]) Unserializable;
      Ok (end_line text ++ [10%N] ++ appended)
  | None =>
      let config := first_config t in
      _ ← validated config;
      ok_or (write_config config) Unserializable
  end.
Definition replaced_at (index : nat) (replacement : option Target) (ts : list Target) : result EditError (list Target) :=
  match replacement with
  | Some t => Ok (<[index := t]> ts)
  | None => if length ts =? 1 then Err FinalTarget else Ok (take index ts ++ drop (S index) ts)
  end.
Definition mutated_target (text existing_name : ustr) (replacement : option Target) : result EditError ustr :=
  config ← parse text;
  index ← ok_or (fst <$> list_find (λ t, tgt_name t = existing_name) (cfg_targets config)) (NotConfigured existing_name);
  ts ← replaced_at index replacement (cfg_targets config);
  _ ← validated (set_targets ts config);
  range ← ok_or (target_section text existing_name) (NotLocated existing_name);
  inserted ← match replacement with Some t => ok_or (write_targets [t]) Unserializable | None => Ok [] end;
  Ok (take range.1 text ++ inserted ++ drop range.2 text).
Definition added_device (text : ustr) (d : Device) : result EditError ustr :=
  config ← parse text;
  if existsb (λ existing, bool_decide (dev_name existing = dev_name d)) (cfg_devices config) then Err (DeviceTaken (dev_name d))
  else
    appended ← ok_or (write_devices [d]) Unserializable;
    Ok (end_line text ++ [10%N] ++ appended).

(** ** Devices *)

Definition DEVICES : ustr := u "[[devices]]".
(** The text before the last place a pattern is found, or the whole of it. *)
Fixpoint before_last (pattern text : ustr) : option ustr :=
  match text with
  | [] => if has_prefix pattern text then Some [] else None
  | c :: rest =>
      match before_last pattern rest with
      | Some before => Some (c :: before)
      | None => if has_prefix pattern text then Some [] else None
      end
  end.
Record Removing := { kept : ustr; in_target_block : bool; dropping : bool }.
Definition remove_line (name : ustr) (r : Removing) (line : ustr) : Removing :=
  let trimmed := trim line in
  let r := if starts_with 91 trimmed
           then {| kept := kept r; in_target_block := bool_decide (trimmed = DEVICES); dropping := false |} else r in
  let r := match (if in_target_block r && has_prefix (u "name") trimmed then split_once (u "=") trimmed else None) with
           | None => r
           | Some (_, value) =>
               let dropped := bool_decide (trim_char 34 (trim value) = name) in
               let kept' := if dropped then let held := trim_end_char 10 (kept r) in default held (before_last DEVICES held)
                            else kept r in
               {| kept := kept'; in_target_block := in_target_block r; dropping := dropped |}
           end in
  if dropping r then r
  else {| kept := kept r ++ line ++ [10%N]; in_target_block := in_target_block r; dropping := dropping r |}.
(** Of the line feeds at the end of a text, one. *)
Fixpoint one_line_feed (fuel : nat) (text : ustr) : ustr :=
  match fuel with
  | O => text
  | S fuel => if has_suffix [10; 10]%N text then one_line_feed fuel (take (length text - 1) text) else text
  end.
Definition remove_device_block (text name : ustr) : ustr :=
  let left := kept (foldl (remove_line name) {| kept := []; in_target_block := false; dropping := false |} (lines text)) in
  one_line_feed (length left) left.
Definition removed_device (text name : ustr) : result EditError ustr :=
  config ← parse text;
  let devices := filter (λ d, dev_name d ≠ name) (cfg_devices config) in
  if length devices =? length (cfg_devices config) then Err (NotPaired name)
  else
    let updated := remove_device_block text name in
    match parse updated with
    | Err _ => Err GeneratedInvalid
    | Ok parsed => if length (cfg_devices parsed) =? length devices then Ok updated else Err ChangedMore
    end.

(** ** Notifications *)

Definition NOTIFICATIONS : ustr := u "[notifications]".
Definition switch (enabled : bool) : ustr := if enabled then u "true" else u "false".
Definition is_assignment (line : ustr) : bool :=
  match split_once (u "=") (trim line) with Some (key, _) => bool_decide (trim key = u "enabled") | None => false end.
Fixpoint find_assignment (offset : nat) (lines : list ustr) : option (nat * ustr) :=
  match lines with
  | [] => None
  | line :: lines => if is_assignment line then Some (offset, line) else find_assignment (offset + length line) lines
  end.
Definition find_char (p : N → bool) (text : ustr) : option nat := fst <$> list_find (λ c, p c = true) text.
(** The line with its value replaced; the comment after it and the space around it stay. *)
Definition updated_right (value right_ : ustr) : ustr :=
  let value_start := default (length right_) (find_char (λ c, negb (is_whitespace c)) right_) in
  let before_comment := default (length right_) (find_char (λ c, c =? 35)%N right_) in
  let value_end := length (trim_end (take before_comment right_)) in
  take value_start right_ ++ value ++ drop value_end right_.
Definition updated_line (value line : ustr) : ustr :=
  let '(content, newline) := match strip_suffix [10%N] line with Some content => (content, [10%N]) | None => (line, []) end in
  match split_once (u "=") content with
  | Some (left_, right_) => left_ ++ [61%N] ++ updated_right value right_ ++ newline
  | None => line   (** not for a line that holds an assignment *)
  end.
Definition set_notifications_enabled (text : ustr) (enabled : bool) : ustr :=
  let value := switch enabled in
  let headers := table_headers text in
  match list_find (λ h, h.2 = NOTIFICATIONS) headers with
  | Some (header_index, (start, _)) =>
      let end_ := header_after text (drop (S header_index) headers) in
      match find_assignment 0 (split_inclusive (slice text (start, end_))) with
      | Some (offset, line) =>
          let line_start := start + offset in
          take line_start text ++ updated_line value line ++ drop (line_start + length line) text
      | None =>
          let header_end := match find_char (λ c, c =? 10)%N (drop start text) with
                            | Some offset => start + offset + 1
                            | None => length text
                            end in
          take header_end text ++ u "enabled = " ++ value ++ [10%N] ++ drop header_end text
      end
  | None =>
      let insert_at := match list_find (λ h, h.2 = TARGETS) headers with Some (_, (offset, _)) => offset | None => length text end in
      let before := take insert_at text in
      let before := if (0 <? insert_at) && negb (bool_decide (last before = Some 10%N)) then before ++ [10%N] else before in
      before ++ NOTIFICATIONS ++ [10%N] ++ u "enabled = " ++ value ++ [10; 10]%N ++ drop insert_at text
  end.

(** ** The files *)

(** What the process finds in its environment. *)
Record Environment := { super_herdr_config : option ustr; xdg_config_home : option ustr; home_ : option ustr }.
Definition resolve_path (explicit_path : option ustr) (env : Environment) : result EditError ustr :=
  match explicit_path, super_herdr_config env, xdg_config_home env, home_ env with
  | Some path, _, _, _ => Ok path
  | None, Some path, _, _ => Ok path
  | None, None, Some root, _ => Ok (join_path root (u "super-herdr/config.toml"))
  | None, None, None, Some home => Ok (join_path home (u ".config/super-herdr/config.toml"))
  | None, None, None, None => Err NoConfigPath
  end.
Record Files := { texts : gmap ustr ustr; denied : gset ustr }.
(** [None]: there is no such file. *)
Definition read_file (path : ustr) (f : Files) : result EditError (option ustr) :=
  if bool_decide (path ∈ denied f) then Err Unreadable else Ok (texts f !! path).
Definition must_read (path : ustr) (f : Files) : result EditError ustr :=
  found ← read_file path f; ok_or found Unreadable.
(** The new file takes the place of the old one at once, or does not. *)
Definition write_private_atomic (written : bool) (path text : ustr) (f : Files) : result EditError ustr * Files :=
  if written then (Ok path, {| texts := <[path := text]> (texts f); denied := denied f |}) else (Err NotWritten, f).

Inductive Edit :=
  | AddTarget (t : Target) | ReplaceTarget (existing_name : ustr) (replacement : Target) | RemoveTarget (name : ustr)
  | AddDevice (d : Device) | RemoveDevice (name : ustr) | SetNotificationsEnabled (enabled : bool).
Definition edited (edit : Edit) (path : ustr) (f : Files) : result EditError ustr :=
  match edit with
  | AddTarget t => existing ← read_file path f; added_target existing t
  | ReplaceTarget name t => text ← must_read path f; mutated_target text name (Some t)
  | RemoveTarget name => text ← must_read path f; mutated_target text name None
  | AddDevice d => text ← must_read path f; added_device text d
  | RemoveDevice name => text ← must_read path f; removed_device text name
  | SetNotificationsEnabled enabled =>
      text ← must_read path f; _ ← parse text; Ok (set_notifications_enabled text enabled)
  end.
(** [add_target_file] and the others: what they write is read back first. *)
Definition edit_file (edit : Edit) (explicit_path : option ustr) (env : Environment) (written : bool) (f : Files)
    : result EditError ustr * Files :=
  match (path ← resolve_path explicit_path env;
         text ← edited edit path f;
         match parse text with Ok _ => Ok (path, text) | Err _ => Err GeneratedInvalid end) with
  | Ok (path, text) => write_private_atomic written path text f
  | Err e => (Err e, f)
  end.
End editing.
