(* ===== verification/ConfigEditFacts.v ===== *)
(** What an edit of the configuration file may change, and what a failed one leaves. *)

From S2P Require Import Prelude Text Net Config Pairing FileSave ConfigEdit.

(** ** Lines *)

Lemma concat_split_inclusive text : concat (split_inclusive text) = text.
Proof.
  induction text as [|c text IH]; [done|]. cbn [split_inclusive]. destruct (N.eqb_spec c 10) as [->|].
  - cbn [concat]. by rewrite IH.
  - destruct (split_inclusive text) as [|line ls]; cbn [concat] in *; [by rewrite <-IH|]. by rewrite <-IH.
Qed.
(** A line with its line feed. *)
Definition full_line (line : ustr) : Prop := ∃ content, line = content ++ [10%N] ∧ 10%N ∉ content.
Lemma split_full_line line text : full_line line → split_inclusive (line ++ text) = line :: split_inclusive text.
Proof.
  intros (content & -> & Hc). rewrite <-app_assoc. change ([10%N] ++ text) with (10%N :: text).
  induction content as [|c content IH]; [done|]. apply not_elem_of_cons in Hc as [Hne Hc]. cbn [app split_inclusive].
  rewrite (proj2 (N.eqb_neq c 10)) by done. by rewrite IH.
Qed.
Lemma split_full_lines ls text : Forall full_line ls → split_inclusive (concat ls ++ text) = ls ++ split_inclusive text.
Proof. induction 1 as [|l ls Hl _ IH]; [done|]. cbn [concat]. by rewrite <-app_assoc, split_full_line, IH. Qed.
Lemma split_lines_full text : text = [] ∨ last text = Some 10%N → Forall full_line (split_inclusive text).
Proof.
  induction text as [|c text IH]; intros Hlast; [constructor|]. destruct Hlast as [|Hlast]; [done|].
  assert (text = [] ∨ last text = Some 10%N) as Htext by (destruct text; [by left|by right]).
  specialize (IH Htext). cbn [split_inclusive]. destruct (N.eqb_spec c 10) as [->|Hc].
  { constructor; [exists []; split; [done|apply not_elem_of_nil]|done]. }
  destruct text as [|c' text]; [simpl in Hlast; congruence|].
  destruct (split_inclusive (c' :: text)) as [|line ls] eqn:E.
  { pose proof (concat_split_inclusive (c' :: text)) as Hx. by rewrite E in Hx. }
  apply Forall_cons in IH as [(content & -> & Hin) ?]. constructor; [|done]. exists (c :: content). split; [done|].
  rewrite elem_of_cons. naive_solver.
Qed.

(** ** Headers *)

Lemma elem_of_headers offset ls o h :
  (o, h) ∈ headers_from offset ls →
  ∃ pre line post, ls = pre ++ line :: post ∧ o = offset + length (concat pre) ∧ h = trim line ∧ is_header h = true.
Proof.
  revert offset. induction ls as [|line ls IH]; intros offset; cbn [headers_from]; [by intros ?%elem_of_nil|].
  intros [Hin|Hin]%elem_of_app.
  - destruct (is_header (trim line)) eqn:Hh; [|by apply elem_of_nil in Hin].
    apply list_elem_of_singleton in Hin as [= -> ->]. exists [], line, ls. split_and!; [done|cbn; lia|done|done].
  - apply IH in Hin as (pre & l & post & -> & -> & -> & Hh). exists (line :: pre), l, post.
    split_and!; [done| |done|done]. cbn [concat]. rewrite length_app. lia.
Qed.
Lemma headers_sorted offset ls : StronglySorted (λ a b, a.1 ≤ b.1) (headers_from offset ls) ∧ Forall (λ h, offset ≤ h.1) (headers_from offset ls).
Proof.
  revert offset. induction ls as [|line ls IH]; intros offset; cbn [headers_from]; [split; constructor|].
  destruct (IH (offset + length line)) as [Hs Hf].
  assert (Forall (λ h, offset ≤ h.1) (headers_from (offset + length line) ls)) as Hf'.
  { eapply Forall_impl; [exact Hf|]. intros h Hh. simpl in *. lia. }
  destruct (is_header (trim line)); [|done]. cbn [app]. split; constructor; done.
Qed.
Lemma elem_of_sections text headers s e :
  (s, e) ∈ sections_of text headers → StronglySorted (λ a b, a.1 ≤ b.1) headers → Forall (λ h, h.1 ≤ length text) headers →
  (s, TARGETS) ∈ headers ∧ s ≤ e ≤ length text.
Proof.
  induction headers as [|[start header] headers IH]; cbn [sections_of]; [by intros ?%elem_of_nil|].
  intros [Hin|Hin]%elem_of_app [Hs Hle]%StronglySorted_inv [Hstart Hb]%Forall_cons.
  - case_bool_decide as Hh; [|by apply elem_of_nil in Hin]. subst header.
    apply list_elem_of_singleton in Hin as [= -> ->]. split; [left|]. unfold header_after.
    destruct headers as [|[o h] headers]; [simpl in *; lia|]. apply Forall_cons in Hle as [? _], Hb as [? _]. simpl in *. lia.
  - destruct (IH Hin Hs Hb) as [? ?]. split; [by right|done].
Qed.

(** A section is cut out of the text. *)
Lemma target_section_cut text range :
  range ∈ target_sections text → text = take range.1 text ++ slice text range ++ drop range.2 text.
Proof.
  destruct range as [s e]. unfold target_sections, table_headers. intros Hin.
  assert (Forall (λ h : nat * ustr, h.1 ≤ length text) (headers_from 0 (split_inclusive text))) as Hb.
  { apply Forall_forall. intros [o h] (pre & line & post & Heq & -> & _)%elem_of_headers. simpl.
    rewrite <-(concat_split_inclusive text), Heq, concat_app, length_app. lia. }
  apply elem_of_sections in Hin as [_ Hse]; [|apply headers_sorted|done]. unfold slice. cbn [fst snd].
  replace (drop e text) with (drop (e - s) (drop s text)) by (rewrite drop_drop; f_equal; lia). by rewrite !take_drop.
Qed.

(** ** What an edit may change *)

Section edits.
Context `{ConfigToml}.

Lemma parse_ok text config : parse text = Ok config → read_config text = Some config ∧ validate config = Ok ().
Proof.
  unfold parse. destruct (read_config text) as [c|]; [|done]. cbn [ok_or mbind result_bind].
  destruct (validate c) as [[]|] eqn:Hv; [|done]. by intros [= <-].
Qed.
Lemma target_section_ok text name range :
  target_section text name = Some range →
  text = take range.1 text ++ slice text range ++ drop range.2 text
  ∧ ∃ held, read_targets (slice text range) = Some [held] ∧ tgt_name held = name.
Proof.
  unfold target_section. intros Hhead. apply head_Some_elem_of, list_elem_of_filter in Hhead as [Hs Hin].
  split; [by apply target_section_cut|]. unfold is_section_of in Hs.
  destruct (read_targets _) as [[|t [|]]|]; try done. exists t. split; [done|]. by apply bool_decide_unpack in Hs.
Qed.
Lemma mutated_target_ok text name replacement new :
  mutated_target text name replacement = Ok new →
  ∃ before section after held entry, text = before ++ section ++ after ∧ new = before ++ entry ++ after
    ∧ read_targets section = Some [held] ∧ tgt_name held = name
    ∧ match replacement with Some t => write_targets [t] = Some entry | None => entry = [] end.
Proof.
  unfold mutated_target. destruct (parse text) as [config|]; [|done]. cbn [mbind result_bind].
  destruct (fst <$> list_find _ _) as [index|]; [|done]. cbn [ok_or mbind result_bind].
  destruct (replaced_at _ _ _) as [ts|]; [|done]. cbn [mbind result_bind].
  destruct (validated _) as [?|]; [|done]. cbn [mbind result_bind].
  destruct (target_section text name) as [range|] eqn:Hs; [|done]. cbn [ok_or mbind result_bind].
  apply target_section_ok in Hs as (Htext & held & Hread & Hname).
  destruct replacement as [t|].
  - destruct (write_targets [t]) as [entry|] eqn:He; [|done]. cbn [ok_or mbind result_bind]. intros [= <-].
    by exists (take range.1 text), (slice text range), (drop range.2 text), held, entry.
  - intros [= <-]. by exists (take range.1 text), (slice text range), (drop range.2 text), held, [].
Qed.
Lemma must_read_ok path f text : must_read path f = Ok text → read_file path f = Ok (Some text).
Proof. unfold must_read. destruct (read_file path f) as [[?|]|]; [|done..]. by intros [= ->]. Qed.
End edits.

(** What pairing relies on of the configuration file is what this file does: the devices a
    text holds are those of the configuration it parses to. *)
#[export] Instance device_toml `{ConfigToml} : DeviceToml := {|
  parse_devices text := match parse text with Ok config => Some (cfg_devices config) | Err _ => None end;
  Pairing.device_entry d := default [] (write_devices [d]) |}.
(** Pairing records a device exactly when the edit of the file succeeds, and leaves the
    same text. *)
Theorem pairing_edits_the_file `{ConfigToml} path env written f d text entry :
  path ∉ denied f → write_devices [d] = Some entry →
  add_device_file (texts f !! path) written d = Ok text ↔
  edit_file (AddDevice d) (Some path) env written f = (Ok path, {| texts := <[path := text]> (texts f); denied := denied f |}).
Proof.
  intros Hpath Hentry. unfold edit_file. cbn [resolve_path edited mbind result_bind].
  unfold must_read, read_file. rewrite bool_decide_eq_false_2 by done. cbn [mbind result_bind].
  unfold add_device_file. destruct (texts f !! path) as [old|]; cbn [ok_or mbind result_bind]; [|done].
  unfold added_device, taken. cbn [parse_devices device_toml].
  destruct (parse old) as [config|]; cbn [ok_or mbind result_bind]; [|done].
  destruct (existsb _ _); [done|]. unfold Pairing.device_entry. cbn [device_toml]. rewrite Hentry. cbn [ok_or mbind result_bind from_option id].
  destruct (parse _) as [config'|]; cbn [ok_or mbind result_bind]; [|done]. destruct written; cbn [write_private_atomic]; [|done].
  split; [by intros [= <-]|]. intros [= Hinsert]. f_equal. apply (f_equal (.!! path)) in Hinsert.
  rewrite !lookup_insert_eq in Hinsert. by injection Hinsert.
Qed.

(** ** Trimming around a character that stays *)

Definition blank (s : ustr) : Prop := Forall (λ c, is_whitespace c = true) s.
Lemma trim_start_decompose s : ∃ ws, blank ws ∧ s = ws ++ trim_start s ∧ (∀ c, head (trim_start s) = Some c → is_whitespace c = false).
Proof.
  induction s as [|c s (ws & Hws & Heq & Hhead)]; [exists []; split_and!; [constructor|done|done]|]. cbn [trim_start].
  destruct (is_whitespace c) eqn:Hc; [|exists []; split_and!; [constructor|done|by intros ? [= <-]]].
  exists (c :: ws). split_and!; [by constructor|cbn [app]; by rewrite <-Heq|done].
Qed.
Lemma trim_start_blank ws s : blank ws → trim_start (ws ++ s) = trim_start s.
Proof. induction 1 as [|c ws Hc _ IH]; [done|]. cbn [app trim_start]. by rewrite Hc. Qed.
Lemma trim_start_keep s c rest : s = c :: rest → is_whitespace c = false → trim_start s = s.
Proof. intros -> Hc. cbn [trim_start]. by rewrite Hc. Qed.
Lemma trim_start_app s c rest : is_whitespace c = false → trim_start (s ++ c :: rest) = trim_start s ++ c :: rest.
Proof. intros Hc. induction s as [|d s IH]; cbn [app trim_start]; [by rewrite Hc|]. by destruct (is_whitespace d). Qed.
Lemma trim_end_app s c rest : is_whitespace c = false → trim_end (s ++ c :: rest) = s ++ c :: trim_end rest.
Proof.
  intros Hc. unfold trim_end. rewrite reverse_app, reverse_cons, <-app_assoc. cbn [app].
  rewrite trim_start_app by done. rewrite reverse_app, reverse_cons, reverse_involutive, <-app_assoc. done.
Qed.
Lemma trim_end_blank s ws : blank ws → trim_end (s ++ ws) = trim_end s.
Proof. intros Hws. unfold trim_end. rewrite reverse_app, trim_start_blank; [done|]. by apply Forall_reverse. Qed.
Lemma trim_end_decompose s : ∃ ws, blank ws ∧ s = trim_end s ++ ws.
Proof.
  unfold trim_end. destruct (trim_start_decompose (reverse s)) as (ws & Hws & Heq & _). exists (reverse ws).
  split; [by apply Forall_reverse|]. apply (f_equal reverse) in Heq. by rewrite reverse_involutive, reverse_app in Heq.
Qed.
Lemma trim_around s c rest : is_whitespace c = false → trim (s ++ c :: rest) = trim_start s ++ c :: trim_end rest.
Proof. intros Hc. unfold trim. by rewrite trim_start_app, trim_end_app. Qed.
Lemma trim_trim_start s : trim (trim_start s) = trim s.
Proof.
  unfold trim. destruct (trim_start_decompose s) as (ws & _ & _ & Hhead). destruct (trim_start s) as [|c rest] eqn:E; [done|].
  by rewrite (trim_start_keep _ c rest) by (try done; by apply Hhead).
Qed.

(** ** Assignments *)

Lemma is_assignment_spec line :
  is_assignment line = true ↔ ∃ left_ right_, line = left_ ++ 61%N :: right_ ∧ 61%N ∉ left_ ∧ trim left_ = u "enabled".
Proof.
  unfold is_assignment. change (u "=") with [61%N]. split.
  - destruct (split_once [61%N] (trim line)) as [[key value]|] eqn:E; [|done]. intros Hkey%bool_decide_eq_true.
    apply split_once_char in E as [Heq Hnot]. destruct (trim_start_decompose line) as (ws & Hws & Hline & _).
    destruct (trim_end_decompose (trim_start line)) as (ws' & _ & Htrim). unfold trim in Heq. rewrite Heq in Htrim.
    exists (ws ++ key), (value ++ ws'). split_and!.
    + rewrite Hline, Htrim. by rewrite <-!app_assoc.
    + rewrite elem_of_app. intros [Hin|]; [|done]. eapply Forall_forall in Hws; [|exact Hin]. done.
    + rewrite <-Hkey. unfold trim. by rewrite trim_start_blank.
  - intros (left_ & right_ & -> & Hnot & Htrim). rewrite trim_around by done.
    rewrite (proj2 (split_once_char 61 _ (trim_start left_) (trim_end right_))).
    + apply bool_decide_eq_true. by rewrite trim_trim_start.
    + split; [done|]. intros Hin. apply Hnot. destruct (trim_start_decompose left_) as (ws & _ & -> & _).
      apply elem_of_app. by right.
Qed.
Lemma assignment_no_header line : is_assignment line = true → is_header (trim line) = false.
Proof.
  intros (left_ & right_ & -> & _ & Htrim)%is_assignment_spec. rewrite trim_around by done. unfold is_header.
  destruct (trim_start left_) as [|c rest] eqn:E; [done|]. unfold trim in Htrim. rewrite E in Htrim.
  unfold starts_with. cbn [app head]. apply andb_false_iff. left. apply N.eqb_neq. intros ->.
  change (91%N :: rest) with ([] ++ 91%N :: rest) in Htrim. rewrite trim_end_app in Htrim by done. discriminate Htrim.
Qed.

Lemma find_char_cut p text :
  let n := default (length text) (find_char p text) in
  Forall (λ c, p c = false) (take n text) ∧ (drop n text = [] ∨ ∃ c rest, drop n text = c :: rest ∧ p c = true).
Proof.
  cbv zeta. unfold find_char. destruct (list_find _ text) as [[i c]|] eqn:E; simpl.
  - apply list_find_Some in E as (Hi & Hp & Hbefore). split.
    + apply Forall_lookup. intros j d [Hj Hlt]%lookup_take_Some. apply not_true_is_false. eauto.
    + right. exists c, (drop (S i) text). split; [by apply drop_S|done].
  - split; [|left; by rewrite drop_all]. apply list_find_None in E. rewrite firstn_all.
    eapply Forall_impl; [exact E|]. intros c. apply not_true_is_false.
Qed.
Lemma find_char_app p text c rest : Forall (λ c, p c = false) text → p c = true → find_char p (text ++ c :: rest) = Some (length text).
Proof.
  intros Hall Hc. unfold find_char. apply fmap_Some. exists (length text, c). split; [|done]. apply list_find_Some. split_and!.
  - by rewrite lookup_app_r, Nat.sub_diag.
  - done.
  - intros j d Hj Hlt. rewrite lookup_app_l in Hj by done. eapply Forall_lookup in Hall; [|exact Hj]. congruence.
Qed.
Lemma find_char_none p text : Forall (λ c, p c = false) text → find_char p text = None.
Proof.
  intros Hall. unfold find_char. apply fmap_None, list_find_None. eapply Forall_impl; [exact Hall|]. cbv beta. congruence.
Qed.

(** The space before a value and what comes after it do not depend on the value. *)
Lemma updated_right_frame right_ : ∃ ws ws' comment,
  blank ws ∧ blank ws' ∧ (comment = [] ∨ ∃ rest, comment = 35%N :: rest) ∧ incl (ws ++ ws' ++ comment) right_
  ∧ ∀ value, updated_right value right_ = ws ++ value ++ ws' ++ comment.
Proof.
  unfold updated_right.
  pose proof (find_char_cut (λ c, negb (is_whitespace c)) right_) as [Hws _].
  pose proof (find_char_cut (λ c, c =? 35)%N right_) as [_ Hcomment].
  set (start := default _ (find_char (λ c, negb (is_whitespace c)) right_)) in *.
  set (hash := default _ (find_char (λ c, c =? 35)%N right_)) in *. cbv zeta in *.
  destruct (trim_end_decompose (take hash right_)) as (ws' & Hws' & Htake).
  exists (take start right_), ws', (drop hash right_). split_and!.
  - eapply Forall_impl; [exact Hws|]. intros c. by rewrite negb_false_iff.
  - done.
  - destruct Hcomment as [|(c & rest & -> & Hc)]; [by left|right]. apply N.eqb_eq in Hc. subst c. by exists rest.
  - intros c Hc. apply in_app_or in Hc as [Hc|[Hc|Hc]%in_app_or].
    + rewrite <-(take_drop start right_). apply in_or_app. by left.
    + rewrite <-(take_drop hash right_). apply in_or_app. left. rewrite Htake. apply in_or_app. by right.
    + rewrite <-(take_drop hash right_). apply in_or_app. by right.
  - intros value. do 2 f_equal. set (held := trim_end (take hash right_)) in *.
    assert (right_ = held ++ ws' ++ drop hash right_) as Heq by by rewrite app_assoc, <-Htake, take_drop.
    transitivity (drop (length held) (held ++ ws' ++ drop hash right_)); [by rewrite <-Heq|by rewrite drop_app_length].
Qed.
Definition solid (value : ustr) : Prop :=
  ∃ c d middle, value = c :: middle ++ [d] ∧ is_whitespace c = false ∧ is_whitespace d = false ∧ 35%N ∉ value.
Lemma updated_right_put ws value ws' comment value' :
  blank ws → blank ws' → (comment = [] ∨ ∃ rest, comment = 35%N :: rest) → solid value →
  updated_right value' (ws ++ value ++ ws' ++ comment) = ws ++ value' ++ ws' ++ comment.
Proof.
  intros Hws Hws' Hcomment (c & d & middle & -> & Hc & Hd & Hhash). unfold updated_right.
  assert (∀ s, blank s → Forall (λ c, negb (is_whitespace c) = false) s) as Hblank.
  { intros s Hs. eapply Forall_impl; [exact Hs|]. intros x Hx. by rewrite negb_false_iff. }
  assert (∀ s, blank s → Forall (λ c, (c =? 35)%N = false) s) as Hno.
  { intros s Hs. eapply Forall_impl; [exact Hs|]. intros x Hx. destruct (N.eqb_spec x 35) as [->|]; done. }
  assert (find_char (λ c, negb (is_whitespace c)) (ws ++ (c :: middle ++ [d]) ++ ws' ++ comment) = Some (length ws)) as ->.
  { cbn [app]. apply find_char_app; [by apply Hblank|by rewrite Hc]. }
  cbn [from_option id]. rewrite take_app_length.
  assert (default (length (ws ++ (c :: middle ++ [d]) ++ ws' ++ comment))
            (find_char (λ c0, c0 =? 35)%N (ws ++ (c :: middle ++ [d]) ++ ws' ++ comment))
          = length (ws ++ (c :: middle ++ [d]) ++ ws')) as Hbefore.
  { assert (Forall (λ c, (c =? 35)%N = false) (ws ++ (c :: middle ++ [d]) ++ ws')) as Hall.
    { rewrite !Forall_app. split_and!; [by apply Hno| |by apply Hno].
      apply Forall_forall. intros x Hx. apply N.eqb_neq. intros ->. done. }
    destruct Hcomment as [->|(rest & ->)].
    - rewrite app_nil_r, find_char_none by done. done.
    - replace (ws ++ (c :: middle ++ [d]) ++ ws' ++ 35%N :: rest) with ((ws ++ (c :: middle ++ [d]) ++ ws') ++ 35%N :: rest)
        by by rewrite <-!app_assoc.
      by rewrite find_char_app. }
  rewrite Hbefore. clear Hbefore.
  replace (ws ++ (c :: middle ++ [d]) ++ ws' ++ comment) with ((ws ++ (c :: middle ++ [d]) ++ ws') ++ comment)
    by by rewrite <-!app_assoc.
  rewrite take_app_length.
  replace (trim_end (ws ++ (c :: middle ++ [d]) ++ ws')) with (ws ++ c :: middle ++ [d]).
  - replace ((ws ++ (c :: middle ++ [d]) ++ ws') ++ comment) with ((ws ++ c :: middle ++ [d]) ++ ws' ++ comment)
      by by rewrite <-!app_assoc.
    by rewrite drop_app_length.
  - replace (ws ++ (c :: middle ++ [d]) ++ ws') with ((ws ++ c :: middle) ++ d :: ws') by (by rewrite <-!app_assoc; cbn [app]; rewrite <-app_assoc).
    rewrite trim_end_app by done. rewrite <-(app_nil_l ws'), trim_end_blank by done. cbn. by rewrite <-app_assoc.
Qed.
Lemma switch_solid enabled : solid (switch enabled).
Proof.
  destruct enabled; [exists 116%N, 101%N, (u "ru")|exists 102%N, 101%N, (u "als")];
    (split_and!; [done..|]; apply (bool_decide_unpack _); vm_compute; exact I).
Qed.
Lemma updated_right_twice a b right_ : updated_right (switch b) (updated_right (switch a) right_) = updated_right (switch b) right_.
Proof.
  destruct (updated_right_frame right_) as (ws & ws' & comment & ? & ? & ? & _ & Heq). rewrite !Heq.
  apply updated_right_put; try done. apply switch_solid.
Qed.

(** ** Switching notifications, line by line *)

Definition enabled_line (value : ustr) : ustr := u "enabled = " ++ value ++ [10%N].
Definition new_table (value : ustr) : list ustr := [NOTIFICATIONS ++ [10%N]; enabled_line value; [10%N]].
(** The first assignment before the next header, rewritten. *)
Fixpoint switch_assignment (value : ustr) (ls : list ustr) : option (list ustr) :=
  match ls with
  | [] => None
  | line :: ls =>
      if is_header (trim line) then None
      else if is_assignment line then Some (updated_line value line :: ls)
      else cons line <$> switch_assignment value ls
  end.
Fixpoint switch_table (value : ustr) (ls : list ustr) : option (list ustr) :=
  match ls with
  | [] => None
  | line :: ls =>
      if bool_decide (trim line = NOTIFICATIONS)
      then Some (line :: default (enabled_line value :: ls) (switch_assignment value ls))
      else cons line <$> switch_table value ls
  end.
Fixpoint insert_table (value : ustr) (ls : list ustr) : list ustr :=
  match ls with
  | [] => new_table value
  | line :: ls => if bool_decide (trim line = TARGETS) then new_table value ++ line :: ls else line :: insert_table value ls
  end.
Definition switched (value : ustr) (ls : list ustr) : list ustr := default (insert_table value ls) (switch_table value ls).

(** The lines before the next header. *)
Fixpoint table_body (ls : list ustr) : list ustr :=
  match ls with [] => [] | line :: ls => if is_header (trim line) then [] else line :: table_body ls end.

Lemma find_header header offset ls :
  is_header header = true →
  match list_find (λ h, h.2 = header) (headers_from offset ls) with
  | Some (i, (start, _)) =>
      ∃ pre line post, ls = pre ++ line :: post ∧ Forall (λ l, trim l ≠ header) pre ∧ trim line = header
        ∧ start = offset + length (concat pre) ∧ drop (S i) (headers_from offset ls) = headers_from (start + length line) post
  | None => Forall (λ l, trim l ≠ header) ls
  end.
Proof.
  intros Hheader. revert offset. induction ls as [|line ls IH]; intros offset; [constructor|]. cbn [headers_from].
  specialize (IH (offset + length line)).
  assert (∀ hs, trim line ≠ header →
    match list_find (λ h, h.2 = header) (headers_from (offset + length line) ls) with
    | Some (i, (start, _)) => ∃ pre line' post, line :: ls = pre ++ line' :: post ∧ Forall (λ l, trim l ≠ header) pre ∧ trim line' = header
        ∧ start = offset + length (concat pre) ∧ drop (S (length hs + i)) (hs ++ headers_from (offset + length line) ls) = headers_from (start + length line') post
    | None => Forall (λ l, trim l ≠ header) (line :: ls)
    end) as Hskip.
  { intros hs Hne. destruct (list_find _ _) as [[i [start h]]|]; [|by constructor].
    destruct IH as (pre & line' & post & -> & Hpre & Htrim & -> & Hdrop). exists (line :: pre), line', post.
    split_and!; [done|by constructor|done|cbn [concat]; rewrite length_app; lia|].
    rewrite <-Hdrop. rewrite <-Nat.add_succ_r, <-drop_drop, drop_app_length. done. }
  destruct (is_header (trim line)) eqn:Hh; cbn [app].
  - cbn [list_find snd]. destruct (decide (trim line = header)) as [Heq|Hne].
    + exists [], line, ls. split_and!; [done|constructor|done|cbn; lia|]. cbn [drop]. by rewrite skipn_O.
    + specialize (Hskip [(offset, trim line)] Hne).
      destruct (list_find _ (headers_from _ _)) as [[i [start h]]|]; cbn [fmap option_fmap option_map prod_map fst snd id]; exact Hskip.
  - apply (Hskip []). intros Heq. congruence.
Qed.
Lemma header_after_body text offset ls :
  length text = offset + length (concat ls) → header_after text (headers_from offset ls) = offset + length (concat (table_body ls)).
Proof.
  revert offset. induction ls as [|line ls IH]; intros offset Hlen; cbn [headers_from table_body].
  { cbn in *. lia. }
  destruct (is_header (trim line)); cbn [app header_after concat length]; [lia|]. cbn [concat] in Hlen. rewrite length_app in Hlen.
  rewrite IH by lia. rewrite length_app. lia.
Qed.
Lemma table_body_prefix ls : ∃ rest, ls = table_body ls ++ rest ∧ (∀ value, switch_assignment value rest = None).
Proof.
  induction ls as [|line ls (rest & Heq & Hrest)]; cbn [table_body]; [by exists []|].
  destruct (is_header (trim line)) eqn:Hh; [|exists rest; split; [cbn [app]; by rewrite <-Heq|done]].
  exists (line :: ls). split; [done|]. intros value. cbn [switch_assignment]. by rewrite Hh.
Qed.
Lemma find_assignment_switch value offset ls :
  match find_assignment offset (table_body ls) with
  | Some (o, line) => ∃ mid post, ls = mid ++ line :: post ∧ o = offset + length (concat mid)
      ∧ switch_assignment value ls = Some (mid ++ updated_line value line :: post)
  | None => switch_assignment value ls = None
  end.
Proof.
  revert offset. induction ls as [|line ls IH]; intros offset; [done|]. cbn [table_body switch_assignment].
  destruct (is_header (trim line)); [done|]. cbn [find_assignment]. destruct (is_assignment line) eqn:Ha.
  { exists [], ls. split_and!; [done|cbn; lia|done]. }
  specialize (IH (offset + length line)). destruct (find_assignment _ _) as [[o l]|]; [|by rewrite IH].
  destruct IH as (mid & post & -> & -> & Hs). exists (line :: mid), post. split_and!; [done| |by rewrite Hs].
  cbn [concat]. rewrite length_app. lia.
Qed.
Lemma switch_table_pre value pre ls :
  Forall (λ l, trim l ≠ NOTIFICATIONS) pre → switch_table value (pre ++ ls) = (app pre) <$> switch_table value ls.
Proof.
  induction 1 as [|line pre Hne _ IH]; cbn [app switch_table]; [by destruct (switch_table value ls)|].
  rewrite bool_decide_eq_false_2 by done. rewrite IH. by destruct (switch_table value ls).
Qed.
Lemma insert_table_pre value pre ls :
  Forall (λ l, trim l ≠ TARGETS) pre → insert_table value (pre ++ ls) = pre ++ insert_table value ls.
Proof. induction 1 as [|line pre Hne _ IH]; cbn [app insert_table]; [done|]. by rewrite bool_decide_eq_false_2, IH. Qed.

Lemma concat_middle pre (line : ustr) post : concat (pre ++ line :: post) = concat pre ++ line ++ concat post.
Proof. by rewrite concat_app. Qed.
Lemma take_drop_lines pre (line : ustr) post n m text :
  text = concat pre ++ line ++ concat post → n = length (concat pre) → m = n + length line →
  take n text = concat pre ∧ drop n text = line ++ concat post ∧ take m text = concat pre ++ line ∧ drop m text = concat post.
Proof.
  intros -> -> ->. rewrite take_app_length, drop_app_length. split_and!; [done|done| |].
  - rewrite app_assoc. apply take_app_length'. by rewrite length_app.
  - rewrite app_assoc. apply drop_app_length'. by rewrite length_app.
Qed.
Lemma slice_body pre line post :
  slice (concat (pre ++ line :: post)) (length (concat pre), length (concat pre) + length line + length (concat (table_body post)))
  = concat (line :: table_body post).
Proof.
  destruct (table_body_prefix post) as (rest & Hpost & _). unfold slice. cbn [fst snd]. rewrite concat_middle.
  destruct (take_drop_lines pre line post _ _ _ eq_refl eq_refl eq_refl) as (_ & -> & _).
  rewrite Hpost at 2. rewrite concat_app, app_assoc. cbn [concat]. apply take_app_length'. rewrite length_app. lia.
Qed.
Lemma split_body line post : full_line line → Forall full_line post →
  split_inclusive (concat (line :: table_body post)) = line :: table_body post.
Proof.
  intros Hline Hpost. destruct (table_body_prefix post) as (rest & Heq & _). rewrite Heq in Hpost. apply Forall_app in Hpost as [Hbody _].
  pose proof (split_full_lines (line :: table_body post) [] (Forall_cons_2 _ _ _ Hline Hbody)) as Hsplit. by rewrite !app_nil_r in Hsplit.
Qed.

(** A file with the table: its first assignment is rewritten, or one is added. *)
Lemma set_in_table pre line post enabled i h :
  let text := concat (pre ++ line :: post) in let start := length (concat pre) in
  full_line line → Forall full_line post → trim line = NOTIFICATIONS →
  list_find (λ h, h.2 = NOTIFICATIONS) (table_headers text) = Some (i, (start, h)) →
  drop (S i) (table_headers text) = headers_from (start + length line) post →
  set_notifications_enabled text enabled
  = concat (pre ++ line :: default (enabled_line (switch enabled) :: post) (switch_assignment (switch enabled) post)).
Proof.
  intros text start Hline Hpost Htrim Hfind Hdrop. unfold set_notifications_enabled. rewrite Hfind, Hdrop.
  set (value := switch enabled).
  rewrite header_after_body by (unfold text, start; rewrite concat_middle, !length_app; lia).
  unfold text at 1, start at 1 2. rewrite slice_body, split_body by done. cbn [find_assignment].
  assert (is_assignment line = false) as -> by (unfold is_assignment; by rewrite Htrim).
  pose proof (find_assignment_switch value (0 + length line) post) as Hassign.
  destruct (find_assignment _ (table_body post)) as [[o asg]|].
  - destruct Hassign as (mid & after & -> & -> & ->). cbn [from_option id].
    destruct (take_drop_lines (pre ++ line :: mid) asg after (start + (0 + length line + length (concat mid)))
                (start + (0 + length line + length (concat mid)) + length asg) text) as (-> & _ & _ & ->); [| |done|].
    + unfold text. by rewrite app_comm_cons, app_assoc, concat_middle.
    + unfold start. rewrite concat_middle, !length_app. lia.
    + rewrite <-concat_middle. by rewrite <-app_assoc.
  - rewrite Hassign. cbn [from_option id].
    destruct (take_drop_lines pre line post start (start + length line) text) as (_ & Hdropped & Htaken & Hrest);
      [unfold text; by rewrite concat_middle|done|done|]. rewrite Hdropped.
    destruct Hline as (content & -> & Hcontent).
    assert (find_char (λ c, c =? 10)%N ((content ++ [10%N]) ++ concat post) = Some (length content)) as ->.
    { rewrite <-app_assoc. apply find_char_app; [|done]. apply Forall_forall. intros c Hc. apply N.eqb_neq. by intros ->. }
    replace (start + length content + 1) with (start + length (content ++ [10%N])) by (rewrite length_app; cbn [length]; lia).
    rewrite Htaken, Hrest, concat_middle. cbn [concat]. unfold enabled_line. by rewrite <-!app_assoc.
Qed.
(** A file without: a table is put before the first target, or at the end. *)
Lemma table_put pre post value :
  Forall full_line pre →
  (if (0 <? length (concat pre)) && negb (bool_decide (last (concat pre) = Some 10%N)) then concat pre ++ [10%N] else concat pre)
  ++ NOTIFICATIONS ++ [10%N] ++ u "enabled = " ++ value ++ [10; 10]%N ++ concat post
  = concat (pre ++ new_table value ++ post).
Proof.
  intros Hfull.
  assert ((0 <? length (concat pre)) && negb (bool_decide (last (concat pre) = Some 10%N)) = false) as ->.
  { destruct pre as [|l pre] using rev_ind; [done|]. clear IHpre.
    apply Forall_app in Hfull as [_ [(content & -> & _) _]%Forall_cons]. rewrite concat_app. cbn [concat].
    rewrite app_nil_r, app_assoc, last_snoc, bool_decide_eq_true_2 by done. by rewrite andb_false_r. }
  rewrite !concat_app. unfold new_table, enabled_line. cbn [concat]. rewrite <-!app_assoc. done.
Qed.

Lemma set_notifications_lines ls enabled :
  Forall full_line ls → set_notifications_enabled (concat ls) enabled = concat (switched (switch enabled) ls).
Proof.
  intros Hfull. set (value := switch enabled).
  assert (table_headers (concat ls) = headers_from 0 ls) as Hheaders.
  { unfold table_headers. pose proof (split_full_lines ls [] Hfull) as Heq. rewrite !app_nil_r in Heq. by rewrite Heq. }
  pose proof (find_header NOTIFICATIONS 0 ls eq_refl) as Hfind. unfold switched.
  destruct (list_find (λ h, h.2 = NOTIFICATIONS) _) as [[i [start h]]|] eqn:E.
  - destruct Hfind as (pre & line & post & -> & Hpre & Htrim & -> & Hdrop).
    apply Forall_app in Hfull as [_ [Hline Hpost]%Forall_cons].
    rewrite (set_in_table pre line post enabled i h) by (rewrite ?Hheaders; done).
    rewrite switch_table_pre by done. cbn [switch_table]. by rewrite bool_decide_eq_true_2.
  - assert (switch_table value ls = None) as ->.
    { clear -Hfind. induction Hfind as [|l ls Hne _ IH]; [done|]. cbn [switch_table]. by rewrite bool_decide_eq_false_2, IH. }
    cbn [from_option id]. unfold set_notifications_enabled. rewrite Hheaders, E. fold value. cbv zeta.
    pose proof (find_header TARGETS 0 ls eq_refl) as Htargets.
    destruct (list_find (λ h, h.2 = TARGETS) _) as [[i [start h]]|].
    + destruct Htargets as (pre & line & post & -> & Hpre & Htrim & -> & _). apply Forall_app in Hfull as [Hfull _].
      cbn [Nat.add]. rewrite concat_app, take_app_length, drop_app_length, table_put by done.
      rewrite insert_table_pre by done. cbn [insert_table]. by rewrite bool_decide_eq_true_2.
    + rewrite firstn_all, drop_all. rewrite (table_put ls []) by done.
      rewrite <-(app_nil_r ls) at 2. by rewrite insert_table_pre.
Qed.

(** ** Switching twice *)

Lemma updated_line_assignment value left_ right_ :
  61%N ∉ left_ → updated_line value (left_ ++ 61%N :: right_ ++ [10%N]) = left_ ++ [61%N] ++ updated_right value right_ ++ [10%N].
Proof.
  intros Hnot. unfold updated_line. assert (strip_suffix [10%N] (left_ ++ 61%N :: right_ ++ [10%N]) = Some (left_ ++ 61%N :: right_)) as ->.
  { unfold strip_suffix. replace (left_ ++ 61%N :: right_ ++ [10%N]) with ((left_ ++ 61%N :: right_) ++ [10%N]) by by rewrite <-app_assoc.
    rewrite reverse_snoc. cbn. by rewrite reverse_involutive. }
  change (u "=") with [61%N]. by rewrite (proj2 (split_once_char 61 _ left_ right_)).
Qed.
Lemma updated_right_no_line value right_ : 10%N ∉ value → 10%N ∉ right_ → 10%N ∉ updated_right value right_.
Proof.
  intros Hv Hr. destruct (updated_right_frame right_) as (ws & ws' & comment & _ & _ & _ & Hincl & ->).
  assert (10%N ∉ ws ++ ws' ++ comment) as Hnot.
  { intros Hin. apply Hr, list_elem_of_In, Hincl. by apply list_elem_of_In. }
  set_solver.
Qed.
Lemma updated_line_twice a b line :
  full_line line → is_assignment line = true →
  let line' := updated_line (switch a) line in
  full_line line' ∧ is_assignment line' = true ∧ updated_line (switch b) line' = updated_line (switch b) line.
Proof.
  intros (content & -> & Hcontent) (left_ & right_ & Heq & Hnot & Htrim)%is_assignment_spec.
  destruct right_ as [|c right_] using rev_ind; [by apply app_inj_tail in Heq as [_ [= ]]|]. clear IHright_.
  rewrite app_comm_cons, app_assoc in Heq. apply app_inj_tail in Heq as [-> <-].
  rewrite <-app_assoc in *. cbn [app] in *. cbv zeta. rewrite !updated_line_assignment by done.
  assert (10%N ∉ switch a) as Ha by (destruct a; apply (bool_decide_unpack _); vm_compute; exact I).
  split_and!.
  - exists (left_ ++ [61%N] ++ updated_right (switch a) right_). split; [by rewrite <-!app_assoc|].
    pose proof (updated_right_no_line (switch a) right_ Ha) as Hright. set_solver.
  - apply is_assignment_spec. by exists left_, (updated_right (switch a) right_ ++ [10%N]).
  - cbn [app]. by rewrite updated_line_assignment, updated_right_twice.
Qed.
Lemma enabled_line_full a : full_line (enabled_line (switch a)).
Proof.
  exists (u "enabled = " ++ switch a). split; [by rewrite <-app_assoc|].
  destruct a; apply (bool_decide_unpack _); vm_compute; exact I.
Qed.
Lemma enabled_line_switched a b :
  is_header (trim (enabled_line (switch a))) = false ∧ is_assignment (enabled_line (switch a)) = true
  ∧ updated_line (switch b) (enabled_line (switch a)) = enabled_line (switch b).
Proof. destruct a, b; vm_compute; done. Qed.

Lemma switch_assignment_twice a b ls :
  Forall full_line ls →
  match switch_assignment (switch a) ls with
  | Some ls' => Forall full_line ls' ∧ is_Some (switch_assignment (switch b) ls)
                ∧ switch_assignment (switch b) ls' = switch_assignment (switch b) ls
  | None => switch_assignment (switch b) ls = None
  end.
Proof.
  induction 1 as [|line ls Hline Hls IH]; [done|]. cbn [switch_assignment]. destruct (is_header (trim line)) eqn:Hh; [done|].
  destruct (is_assignment line) eqn:Ha.
  - destruct (updated_line_twice a b line Hline Ha) as (Hfull & Hassign & Htwice). split_and!; [by constructor|done|].
    cbn [switch_assignment]. by rewrite assignment_no_header, Hassign, Htwice.
  - destruct (switch_assignment (switch a) ls) as [ls'|]; cbn [fmap option_fmap option_map]; [|by rewrite IH].
    destruct IH as (Hfull & [? Hsome] & Htwice). split_and!; [by constructor|by rewrite Hsome|].
    cbn [switch_assignment]. by rewrite Hh, Ha, Htwice.
Qed.
Lemma switch_table_twice a b ls :
  Forall full_line ls →
  match switch_table (switch a) ls with
  | Some ls' => Forall full_line ls' ∧ is_Some (switch_table (switch b) ls) ∧ switch_table (switch b) ls' = switch_table (switch b) ls
  | None => Forall full_line (insert_table (switch a) ls) ∧ switch_table (switch b) ls = None
            ∧ switch_table (switch b) (insert_table (switch a) ls) = Some (insert_table (switch b) ls)
  end.
Proof.
  assert (∀ rest, Forall full_line rest → Forall full_line (new_table (switch a) ++ rest)
            ∧ switch_table (switch b) (new_table (switch a) ++ rest) = Some (new_table (switch b) ++ rest)) as Hnew.
  { intros rest Hrest. split.
    - repeat constructor; [exists NOTIFICATIONS|apply enabled_line_full|exists []|done]; (split; [done|]);
        apply (bool_decide_unpack _); vm_compute; exact I.
    - destruct (enabled_line_switched a b) as (Hh & Ha & Hu). unfold new_table. cbn [app switch_table switch_assignment].
      rewrite Hh, Ha, Hu. done. }
  induction 1 as [|line ls Hline Hls IH].
  { destruct (Hnew [] (Forall_nil_2 _)) as [Hfull Heq]. rewrite !app_nil_r in *. by split_and!. }
  cbn [switch_table]. destruct (decide (trim line = NOTIFICATIONS)) as [Hn|Hn].
  - rewrite !bool_decide_eq_true_2 by done. pose proof (switch_assignment_twice a b ls Hls) as Htwice.
    destruct (switch_assignment (switch a) ls) as [ls'|]; cbn [from_option id].
    + destruct Htwice as (Hfull & Hsome & Heq). split_and!; [by constructor|done|]. cbn [switch_table]. rewrite bool_decide_eq_true_2 by done.
      rewrite Heq. destruct (switch_assignment (switch b) ls) as [ls2|] eqn:E; [done|]. destruct Hsome as [? [= ]].
    + split_and!; [constructor; [done|constructor; [apply enabled_line_full|done]]|done|].
      cbn [switch_table switch_assignment]. rewrite bool_decide_eq_true_2 by done.
      destruct (enabled_line_switched a b) as (-> & -> & ->). by rewrite Htwice.
  - rewrite !bool_decide_eq_false_2 by done. cbn [insert_table].
    destruct (switch_table (switch a) ls) as [ls'|]; cbn [fmap option_fmap option_map].
    + destruct IH as (Hfull & [ls2 Hsome] & Heq). split_and!; [by constructor|by rewrite Hsome|].
      cbn [switch_table]. by rewrite bool_decide_eq_false_2, Heq.
    + destruct IH as (Hfull & Hnone & Heq). split_and!.
      * case_bool_decide; [apply Hnew; by constructor|by constructor].
      * by rewrite Hnone.
      * case_bool_decide; [apply Hnew; by constructor|]. cbn [switch_table]. by rewrite bool_decide_eq_false_2, Heq.
Qed.

(** Switching notifications edits one line and no other. The text a person wrote is
    kept: the first assignment of the first notifications table is rewritten in place with
    its comment, or one is added below the header, or a table is put before the first
    target; and the last switch is the one that counts, whatever was switched before. *)
Theorem notifications_switched text enabled :
  text = [] ∨ last text = Some 10%N →
  set_notifications_enabled text enabled = concat (switched (switch enabled) (split_inclusive text))
  ∧ ∀ earlier, set_notifications_enabled (set_notifications_enabled text earlier) enabled = set_notifications_enabled text enabled.
Proof.
  intros Htext%split_lines_full.
  assert (∀ enabled, set_notifications_enabled text enabled = concat (switched (switch enabled) (split_inclusive text))) as Hset.
  { intros e. rewrite <-(set_notifications_lines _ e Htext). by rewrite concat_split_inclusive. }
  split; [apply Hset|]. intros earlier. rewrite !Hset. unfold switched.
  pose proof (switch_table_twice earlier enabled _ Htext) as Htwice.
  destruct (switch_table (switch earlier) _) as [ls'|]; cbn [from_option id].
  - destruct Htwice as (Hfull & [ls2 Hsome] & Heq). rewrite set_notifications_lines by done. unfold switched. by rewrite Heq, Hsome.
  - destruct Htwice as (Hfull & Hnone & Heq). rewrite set_notifications_lines by done. unfold switched. by rewrite Heq, Hnone.
Qed.

(** ** Pairing a device and revoking it *)

Lemma has_suffix_spec p s : has_suffix p s = true ↔ ∃ x, s = x ++ p.
Proof.
  unfold has_suffix, strip_suffix. rewrite bool_decide_eq_true. split.
  - intros [y Hy]. apply fmap_Some in Hy as (z & Hz & ->). apply strip_prefix_Some in Hz. exists (reverse z).
    apply (f_equal reverse) in Hz. by rewrite reverse_involutive, reverse_app, reverse_involutive in Hz.
  - intros [x ->]. exists x. apply fmap_Some. exists (reverse x). split; [|by rewrite reverse_involutive].
    apply strip_prefix_Some. by rewrite reverse_app.
Qed.
Lemma one_line_feed_cut fuel s : ∃ k, s = one_line_feed fuel s ++ replicate k 10%N.
Proof.
  revert s. induction fuel as [|fuel IH]; intros s; cbn [one_line_feed]; [exists 0; by rewrite app_nil_r|].
  destruct (has_suffix _ s) eqn:Hs; [|exists 0; by rewrite app_nil_r].
  apply has_suffix_spec in Hs as [x ->]. replace (take _ (x ++ [10; 10]%N)) with (x ++ [10%N]).
  - destruct (IH (x ++ [10%N])) as [k Hk]. exists (S k). rewrite replicate_S_end, app_assoc, <-Hk. by rewrite <-app_assoc.
  - change [10; 10]%N with ([10%N] ++ [10%N]). rewrite app_assoc. symmetry. apply take_app_length'. rewrite !length_app. cbn. lia.
Qed.
Lemma one_line_feed_done fuel s : length s ≤ fuel → has_suffix [10; 10]%N (one_line_feed fuel s) = false.
Proof.
  revert s. induction fuel as [|fuel IH]; intros s Hlen; cbn [one_line_feed].
  { destruct s; [done|]. cbn in Hlen. lia. }
  destruct (has_suffix _ s) eqn:Hs; [|done]. apply IH. apply has_suffix_spec in Hs as [x ->].
  rewrite length_take. rewrite length_app in *. cbn in *. lia.
Qed.
Lemma one_line_feed_app s k fuel :
  has_suffix [10; 10]%N s = false → last s = Some 10%N → k ≤ fuel → one_line_feed fuel (s ++ replicate k 10%N) = s.
Proof.
  intros Hs Hlast. revert fuel. induction k as [|k IH]; intros fuel Hfuel.
  { rewrite app_nil_r. destruct fuel; [done|]. cbn [one_line_feed]. by rewrite Hs. }
  destruct fuel as [|fuel]; [lia|]. cbn [one_line_feed]. rewrite replicate_S_end, app_assoc.
  assert (has_suffix [10; 10]%N ((s ++ replicate k 10%N) ++ [10%N]) = true) as ->.
  { apply has_suffix_spec. apply last_Some in Hlast as [x ->]. exists (x ++ replicate k 10%N).
    rewrite <-!app_assoc. f_equal. cbn [app]. change (10%N :: replicate k 10%N ++ [10%N]) with (replicate (S k) 10%N ++ [10%N]).
    by rewrite replicate_S_end, <-app_assoc. }
  rewrite take_app_length' by (rewrite length_app; cbn; lia). apply IH. lia.
Qed.

Lemma before_last_short p s : length s < length p → before_last p s = None.
Proof.
  assert (∀ s, length s < length p → has_prefix p s = false) as Hshort.
  { intros t Hlen. apply bool_decide_eq_false_2. intros [r Hr%strip_prefix_Some]. subst t. rewrite length_app in Hlen. lia. }
  induction s as [|c s IH]; intros Hlen; cbn [before_last]; [by rewrite Hshort|].
  rewrite IH by (cbn in Hlen; lia). by rewrite Hshort.
Qed.
Lemma before_last_end p x : p ≠ [] → before_last p (x ++ p) = Some x.
Proof.
  intros Hp. induction x as [|c x IH]; cbn [app before_last].
  - destruct p as [|c p]; [done|]. cbn [before_last]. rewrite before_last_short by (cbn; lia).
    by rewrite <-(app_nil_r (c :: p)) at 2; rewrite has_prefix_app.
  - by rewrite IH.
Qed.

Lemma lines_full line text : 10%N ∉ line → lines (line ++ 10%N :: text) = strip_cr line :: lines text.
Proof.
  intros Hline. unfold lines. rewrite split_on_cons by done. cbn [lines_of].
  destruct (split_on 10 text) as [|part parts] eqn:E; [|done]. by destruct (split_at_nonempty (λ c, c =? 10)%N text).
Qed.
Lemma lines_app ls text : Forall full_line ls → lines (concat ls ++ text) = lines (concat ls) ++ lines text.
Proof.
  induction 1 as [|l ls (content & -> & Hc) _ IH]; [done|]. cbn [concat]. rewrite <-!app_assoc. cbn [app].
  rewrite !lines_full by done. by rewrite IH.
Qed.

(** The lines of an entry below its name: neither a header nor another name. *)
Definition entry_line (line : ustr) : Prop :=
  10%N ∉ line ∧ strip_cr line = line ∧ starts_with 91 (trim line) = false ∧ has_prefix (u "name") (trim line) = false.
Lemma dropped_lines name rest r :
  Forall (λ line, starts_with 91 (trim line) = false ∧ has_prefix (u "name") (trim line) = false) rest → dropping r = true →
  foldl (remove_line name) r rest = r.
Proof.
  induction 1 as [|line rest [Hh Hn] _ IH]; intros Hd; [done|]. cbn [foldl].
  assert (remove_line name r line = r) as ->; [|by apply IH].
  unfold remove_line. cbv zeta. rewrite Hh, Hn, andb_false_r. by rewrite Hd.
Qed.

Definition name_line (name : ustr) : ustr := u "name = " ++ [34%N] ++ name ++ [34%N].
Lemma trim_end_char_keep c s d : d ≠ c → trim_end_char c (s ++ [d]) = s ++ [d].
Proof.
  intros Hd. unfold trim_end_char. rewrite reverse_snoc. cbn [trim_start_char]. rewrite (proj2 (N.eqb_neq d c)) by done.
  by rewrite reverse_cons, reverse_involutive.
Qed.
Lemma trim_quotes name : 34%N ∉ name → trim_char 34 ([34%N] ++ name ++ [34%N]) = name.
Proof.
  intros Hname. unfold trim_char. cbn [app trim_start_char]. rewrite N.eqb_refl.
  assert (trim_start_char 34 (name ++ [34%N]) = if bool_decide (name = []) then [] else name ++ [34%N]) as ->.
  { destruct name as [|c name]; [done|]. cbn [app trim_start_char]. rewrite (proj2 (N.eqb_neq c 34)) by set_solver. done. }
  case_bool_decide as Hempty; [by subst name|]. unfold trim_end_char. rewrite reverse_snoc. cbn [trim_start_char]. rewrite N.eqb_refl.
  destruct name as [|c name] using rev_ind; [done|]. rewrite reverse_snoc. cbn [trim_start_char].
  rewrite (proj2 (N.eqb_neq c 34)) by set_solver. by rewrite reverse_cons, reverse_involutive.
Qed.
Lemma name_line_value name : 34%N ∉ name →
  trim (name_line name) = name_line name ∧ has_prefix (u "name") (name_line name) = true ∧ starts_with 91 (name_line name) = false
  ∧ ∃ value, split_once (u "=") (name_line name) = Some (u "name ", value) ∧ trim_char 34 (trim value) = name.
Proof.
  intros Hname. split_and!.
  - unfold trim. rewrite (trim_start_keep _ 110 (u "ame = " ++ [34%N] ++ name ++ [34%N])) by done.
    unfold name_line. rewrite !app_assoc. rewrite trim_end_app by done. done.
  - unfold name_line. change (u "name = ") with (u "name" ++ u " = "). rewrite <-app_assoc. apply has_prefix_app.
  - done.
  - exists (32%N :: [34%N] ++ name ++ [34%N]). split; [done|].
    assert (trim (32%N :: [34%N] ++ name ++ [34%N]) = [34%N] ++ name ++ [34%N]) as ->; [|by apply trim_quotes].
    change (trim (32%N :: [34%N] ++ name ++ [34%N])) with (trim_end ([34%N] ++ name ++ [34%N])).
    rewrite app_assoc. rewrite trim_end_app by done. by rewrite <-app_assoc.
Qed.

Lemma name_line_full name : 10%N ∉ name → 10%N ∉ name_line name.
Proof.
  intros Hname. unfold name_line. rewrite !elem_of_app, !list_elem_of_singleton. intros [Hin|[|[|]]]; [|done..].
  revert Hin. apply (bool_decide_unpack _). vm_compute. exact I.
Qed.
Lemma name_line_no_cr name : strip_cr (name_line name) = name_line name.
Proof.
  unfold strip_cr, strip_suffix, name_line. rewrite !app_assoc, reverse_snoc. done.
Qed.
Lemma entry_dropped name r rest :
  34%N ∉ name → Forall (λ line, starts_with 91 (trim line) = false ∧ has_prefix (u "name") (trim line) = false) rest →
  ∃ k, kept (foldl (remove_line name) r ([] :: DEVICES :: name_line name :: rest)) = kept r ++ replicate k 10%N.
Proof.
  intros Hname Hrest. destruct (name_line_value name Hname) as (Htrim & Hprefix & Hstart & value & Hsplit & Hvalue).
  cbn [foldl]. set (r1 := remove_line name r []).
  assert (∃ k, kept r1 = kept r ++ replicate k 10%N) as [k Hk].
  { unfold r1, remove_line. change (trim []) with (@nil N). cbn [starts_with]. change (has_prefix (u "name") []) with false.
    rewrite andb_false_r. destruct (dropping r); [exists 0; by rewrite app_nil_r|by exists 1]. }
  exists k. rewrite <-Hk.
  assert (remove_line name r1 DEVICES = {| kept := kept r1 ++ DEVICES ++ [10%N]; in_target_block := true; dropping := false |}) as -> by done.
  unfold remove_line at 2. cbv zeta. rewrite Htrim, Hstart. cbn [in_target_block kept dropping andb]. rewrite Hprefix, Hsplit, Hvalue.
  rewrite bool_decide_eq_true_2 by done. cbn [dropping kept in_target_block].
  assert (trim_end_char 10 (kept r1 ++ DEVICES ++ [10%N]) = kept r1 ++ DEVICES) as ->.
  { rewrite app_assoc. unfold trim_end_char. rewrite reverse_snoc. cbn [trim_start_char]. rewrite N.eqb_refl.
    change DEVICES with (u "[[devices]" ++ [93%N]). rewrite app_assoc. apply (trim_end_char_keep 10 _ 93). done. }
  rewrite before_last_end by done. by rewrite dropped_lines.
Qed.
Lemma entry_lines (ls : list ustr) :
  Forall (λ line, 10%N ∉ line ∧ strip_cr line = line) ls → lines (concat ((λ line, line ++ [10%N]) <$> ls)) = ls.
Proof.
  induction 1 as [|line ls [Hline Hcr] _ IH]; [done|]. rewrite fmap_cons. cbn [concat]. rewrite <-app_assoc. cbn [app].
  by rewrite lines_full, Hcr, IH.
Qed.

(** ** What removing a device cuts out *)

Definition unlines (ls : list ustr) : ustr := concat ((λ line, line ++ [10%N]) <$> ls).
Lemma unlines_app ls ls' : unlines (ls ++ ls') = unlines ls ++ unlines ls'.
Proof. unfold unlines. by rewrite fmap_app, concat_app. Qed.

(** The value on the line of a name, and whether a line opens a block: a table, or what
    looks like one. *)
Definition name_value (line : ustr) : option ustr :=
  if has_prefix (u "name") (trim line) then (λ lr, trim_char 34 (trim lr.2)) <$> split_once (u "=") (trim line) else None.
Definition opens (line : ustr) : bool := starts_with 91 (trim line).
(** The blocks of a file: what comes before the first of those lines, and each of them with
    what follows it. *)
Fixpoint blocks (ls : list ustr) : list (list ustr) :=
  match ls with
  | [] => [[]]
  | line :: ls =>
      match blocks ls with
      | b :: bs => if opens line then [] :: (line :: b) :: bs else (line :: b) :: bs
      | [] => [[line]]
      end
  end.
(** The names a block gives a device. *)
Definition device_names (b : list ustr) : list ustr :=
  match b with
  | header :: body => if bool_decide (trim header = DEVICES) then omap name_value body else []
  | [] => []
  end.
Definition occurs (p s : ustr) : Prop := ∃ a b, s = a ++ p ++ b.
(** A device of that name is written plainly: below its header alone on a line, named once,
    and no line of it quotes the header. *)
Definition plainly (name : ustr) (b : list ustr) : Prop :=
  name ∈ device_names b →
  ∃ body, b = DEVICES :: body ∧ device_names b = [name] ∧ Forall (λ l, ¬ occurs DEVICES l) body.

Lemma blocks_spec ls : ∃ pre bs, blocks ls = pre :: bs ∧ Forall (λ l, opens l = false) pre ∧ ls = pre ++ concat bs
  ∧ Forall (λ b, ∃ header body, b = header :: body ∧ opens header = true ∧ Forall (λ l, opens l = false) body) bs.
Proof.
  induction ls as [|line ls (pre & bs & Hb & Hpre & Hls & Hbs)]; [by exists [], []|]. cbn [blocks]. rewrite Hb.
  destruct (opens line) eqn:Ho.
  - exists [], ((line :: pre) :: bs). split_and!; [done|constructor| |].
    + cbn [concat app]. by rewrite Hls.
    + constructor; [by exists line, pre|done].
  - exists (line :: pre), bs. split_and!; [done|by constructor| |done]. cbn [app]. by rewrite Hls.
Qed.

Lemma has_prefix_spec p s : has_prefix p s = true ↔ ∃ r, s = p ++ r.
Proof.
  unfold has_prefix. rewrite bool_decide_eq_true. split; intros [r Hr]; exists r; by apply strip_prefix_Some.
Qed.
Lemma occurs_cons p c s : occurs p (c :: s) ↔ has_prefix p (c :: s) = true ∨ occurs p s.
Proof.
  rewrite has_prefix_spec. split.
  - intros ([|x a] & b & Heq); [left; by exists b|right]. injection Heq as _ ->. by exists a, b.
  - intros [[r ->]|(a & b & ->)]; [by exists [], r|by exists (c :: a), b].
Qed.
Lemma before_last_None p s : p ≠ [] → ¬ occurs p s → before_last p s = None.
Proof.
  intros Hp. induction s as [|c s IH]; cbn [before_last].
  - intros _. destruct p; [done|]. done.
  - intros Ho. rewrite occurs_cons in Ho. rewrite IH by tauto. destruct (has_prefix p (c :: s)); [|done].
    destruct Ho. by left.
Qed.
Lemma before_last_last p x t : p ≠ [] → ¬ occurs p (tail (p ++ t)) → before_last p (x ++ p ++ t) = Some x.
Proof.
  intros Hp Ho. induction x as [|c x IH]; cbn [app before_last].
  - destruct p as [|c p]; [done|]. cbn [app tail before_last] in *. rewrite before_last_None by done.
    by rewrite (proj2 (has_prefix_spec (c :: p) _)) by (by exists t).
  - by rewrite IH.
Qed.
Lemma before_last_prefix p s x : before_last p s = Some x → x `prefix_of` s.
Proof.
  revert x. induction s as [|c s IH]; intros x; cbn [before_last].
  - destruct (has_prefix p []); [|done]. by intros [= <-].
  - destruct (before_last p s) as [y|]; [|destruct (has_prefix _ _); [|done]; intros [= <-]; apply prefix_nil].
    intros [= <-]. apply prefix_cons. by apply IH.
Qed.
Lemma occurs_feed p l t : 10%N ∉ p → occurs p (l ++ 10%N :: t) → occurs p l ∨ occurs p t.
Proof.
  intros Hp (a & b & Heq). apply app_eq_inv in Heq as [(k & -> & Hk)|(k & -> & Hk)].
  - symmetry in Hk. apply app_eq_inv in Hk as [(k' & -> & Hk')|(k' & -> & Hk')].
    + left. by exists a, k'.
    + destruct k' as [|c k']; [left; exists a, []; by rewrite !app_nil_r|]. injection Hk' as <- _. set_solver.
  - destruct k as [|c k]; [|injection Hk as _ ->; right; by exists k, b].
    cbn [app] in Hk. destruct p as [|c p]; [left; exists l, []; by rewrite app_nil_r|]. injection Hk as <- _. set_solver.
Qed.
Lemma occurs_unlines p ls : 10%N ∉ p → p ≠ [] → occurs p (unlines ls) → ∃ l, l ∈ ls ∧ occurs p l.
Proof.
  intros Hp Hne. induction ls as [|l ls IH].
  - intros (a & b & Heq). destruct a, p; done.
  - unfold unlines in *. rewrite fmap_cons. cbn [concat]. rewrite <-app_assoc. cbn [app].
    intros [Ho|Ho]%occurs_feed; [|apply IH in Ho as (l' & ? & ?)|done]; set_solver.
Qed.
Lemma trim_end_char_prefix c s : trim_end_char c s `prefix_of` s.
Proof.
  unfold trim_end_char. induction s as [|d s IH] using rev_ind; [done|]. rewrite reverse_snoc. cbn [trim_start_char].
  destruct (d =? c)%N; [by apply prefix_app_r|]. by rewrite reverse_cons, reverse_involutive.
Qed.
Lemma trim_end_char_app c s d t : d ≠ c → ∃ t', t' `prefix_of` t ∧ trim_end_char c (s ++ d :: t) = s ++ d :: t'.
Proof.
  intros Hd. induction t as [|x t IH] using rev_ind.
  - exists []. split; [done|]. unfold trim_end_char. rewrite reverse_snoc. cbn [trim_start_char].
    rewrite (proj2 (N.eqb_neq d c)) by done. by rewrite reverse_cons, reverse_involutive.
  - replace (s ++ d :: t ++ [x]) with ((s ++ d :: t) ++ [x]) by by rewrite <-app_assoc.
    unfold trim_end_char. rewrite reverse_snoc. cbn [trim_start_char]. destruct (x =? c)%N.
    + destruct IH as (t' & Hpre & Heq). exists t'. split; [by apply prefix_app_r|exact Heq].
    + exists (t ++ [x]). split; [done|]. rewrite reverse_cons, reverse_involutive. by rewrite <-app_assoc.
Qed.

(** One line at a time. *)
Lemma opens_no_name line : opens line = true → has_prefix (u "name") (trim line) = false.
Proof. unfold opens. destruct (trim line) as [|c t]; [done|]. unfold starts_with. cbn [head]. intros ->%N.eqb_eq. done. Qed.
Lemma remove_header name r line : opens line = true →
  remove_line name r line
  = {| kept := kept r ++ line ++ [10%N]; in_target_block := bool_decide (trim line = DEVICES); dropping := false |}.
Proof.
  intros Ho. pose proof (opens_no_name line Ho) as Hn. unfold remove_line, opens in *. cbv zeta. rewrite Ho, Hn.
  by rewrite andb_false_r.
Qed.
Lemma remove_other name r line : opens line = false → in_target_block r = false ∨ name_value line = None →
  remove_line name r line
  = if dropping r then r else {| kept := kept r ++ line ++ [10%N]; in_target_block := in_target_block r; dropping := dropping r |}.
Proof.
  intros Ho Hnone. unfold remove_line, opens, name_value in *. cbv zeta. rewrite Ho.
  assert ((if in_target_block r && has_prefix (u "name") (trim line) then split_once (u "=") (trim line) else None) = None) as ->.
  { destruct (in_target_block r); [|done]. destruct Hnone as [|Hnone]; [done|]. cbn [andb].
    destruct (has_prefix _ _); [|done]. by destruct (split_once _ _). }
  done.
Qed.
Lemma remove_named name r line value : opens line = false → in_target_block r = true → name_value line = Some value →
  remove_line name r line
  = if bool_decide (value = name)
    then {| kept := let held := trim_end_char 10 (kept r) in default held (before_last DEVICES held);
            in_target_block := true; dropping := true |}
    else {| kept := kept r ++ line ++ [10%N]; in_target_block := true; dropping := false |}.
Proof.
  intros Ho Hin Hv. unfold remove_line, opens, name_value in *. cbv zeta. rewrite Ho, Hin.
  destruct (has_prefix _ _); [|done]. cbn [andb]. destruct (split_once _ _) as [[left_ v]|]; [|done].
  injection Hv as <-. cbn [snd]. by case_bool_decide.
Qed.

(** A block that does not name the device is kept, wherever it stands. *)
Lemma keep_lines name r body :
  Forall (λ l, opens l = false) body → dropping r = false → in_target_block r = false ∨ name ∉ omap name_value body →
  let r' := foldl (remove_line name) r body in
  kept r' = kept r ++ unlines body ∧ in_target_block r' = in_target_block r ∧ dropping r' = false.
Proof.
  intros Hbody. revert r. induction Hbody as [|l body Hl _ IH]; intros r Hd Hname; cbv zeta.
  { unfold unlines. cbn. by rewrite app_nil_r. }
  cbn [foldl]. set (r1 := remove_line name r l).
  assert (kept r1 = kept r ++ l ++ [10%N] ∧ in_target_block r1 = in_target_block r ∧ dropping r1 = false) as (Hk & Hi & Hd1).
  { unfold r1. destruct (in_target_block r) eqn:Hin; [|by rewrite remove_other, Hd by auto].
    destruct Hname as [|Hname]; [done|]. destruct (name_value l) as [v|] eqn:Hv; [|by rewrite remove_other, Hd by auto].
    rewrite (remove_named name r l v) by done. cbn in Hname. rewrite Hv in Hname.
    rewrite bool_decide_eq_false_2 by set_solver. done. }
  destruct (IH r1) as (Hk' & Hi' & Hd'); [done| |].
  - rewrite Hi. destruct Hname as [|Hname]; [by left|right]. cbn in Hname. destruct (name_value l); set_solver.
  - rewrite Hk', Hi', Hk, Hi. unfold unlines. rewrite fmap_cons. cbn [concat]. by rewrite <-!app_assoc.
Qed.
Lemma omap_split {A B} (f : A → option B) l y :
  omap f l = [y] → ∃ l1 x l2, l = l1 ++ x :: l2 ∧ f x = Some y ∧ omap f l1 = [] ∧ omap f l2 = [].
Proof.
  induction l as [|x l IH]; cbn; [done|]. destruct (f x) as [z|] eqn:Hx.
  - intros [= -> Hl]. by exists [], x, l.
  - intros (l1 & x' & l2 & -> & ? & Hl1 & ?)%IH. exists (x :: l1), x', l2. split_and!; [done|done| |done]. cbn. by rewrite Hx.
Qed.
Lemma drop_lines name r body :
  Forall (λ l, opens l = false) body → omap name_value body = [] → dropping r = true → foldl (remove_line name) r body = r.
Proof.
  intros Hbody. induction Hbody as [|l body Hl _ IH]; intros Hn Hd; [done|]. cbn in Hn.
  destruct (name_value l) eqn:Hv; [done|]. cbn [foldl]. rewrite remove_other, Hd by auto. by apply IH.
Qed.
Lemma devices_feed : 10%N ∉ DEVICES.
Proof. apply (bool_decide_unpack _). vm_compute. exact I. Qed.
(** One that does is cut out. *)
Lemma cut_block name r body :
  Forall (λ l, opens l = false) body → omap name_value body = [name] → Forall (λ l, ¬ occurs DEVICES l) body →
  kept (foldl (remove_line name) r (DEVICES :: body)) = kept r.
Proof.
  intros Hbody (l1 & l & l2 & -> & Hl & Hl1 & Hl2)%omap_split Hquote. cbn [foldl]. rewrite remove_header by done.
  rewrite bool_decide_eq_true_2 by done. rewrite foldl_app. cbn [foldl].
  apply Forall_app in Hbody as [Hb1 [Hb Hb2]%Forall_cons], Hquote as [Hq _].
  set (r0 := {| kept := _; in_target_block := _; dropping := _ |}).
  destruct (keep_lines name r0 l1) as (Hk & Hi & Hd); [done|done|right; rewrite Hl1; set_solver|].
  set (r1 := foldl _ r0 l1) in *. rewrite (remove_named name r1 l name) by done. rewrite bool_decide_eq_true_2 by done.
  rewrite drop_lines by done. cbn [kept]. rewrite Hk. cbn [kept r0].
  replace ((kept r ++ DEVICES ++ [10%N]) ++ unlines l1) with ((kept r ++ u "[[devices]") ++ 93%N :: 10%N :: unlines l1)
    by by rewrite <-!app_assoc.
  destruct (trim_end_char_app 10 (kept r ++ u "[[devices]") 93 (10%N :: unlines l1)) as (t & Ht & ->); [done|].
  replace ((kept r ++ u "[[devices]") ++ 93%N :: t) with (kept r ++ DEVICES ++ t) by by rewrite <-!app_assoc.
  rewrite before_last_last; [done|done|]. change (tail (DEVICES ++ t)) with (u "[devices]]" ++ t).
  destruct Ht as [rest Ht]. intros (a & b & Heq).
  assert (occurs DEVICES (u "[devices]]" ++ 10%N :: unlines l1)) as Ho.
  { exists a, (b ++ rest). rewrite Ht, app_assoc, Heq. by rewrite <-!app_assoc. }
  apply occurs_feed in Ho as [Ho|Ho]; [| |apply devices_feed].
  - assert (before_last DEVICES (u "[devices]]") = None) as Hn by (vm_compute; reflexivity).
    destruct Ho as (a' & b' & Heq'). rewrite Heq' in Hn.
    apply (f_equal length) in Heq'. rewrite !length_app in Heq'. change (length DEVICES) with 11 in Heq'.
    change (length (u "[devices]]")) with 10 in Heq'. lia.
  - apply occurs_unlines in Ho as (l' & Hl' & Ho); [|apply devices_feed|done].
    eapply Forall_forall in Hq; [|exact Hl']. done.
Qed.
Lemma removed_block name r header body :
  opens header = true → Forall (λ l, opens l = false) body → plainly name (header :: body) →
  kept (foldl (remove_line name) r (header :: body))
  = kept r ++ (if decide (name ∈ device_names (header :: body)) then [] else unlines (header :: body)).
Proof.
  intros Hh Hbody Hplain. destruct (decide _) as [Hin|Hout].
  - destruct (Hplain Hin) as (body' & [= -> <-] & Hnames & Hquote). rewrite app_nil_r. apply cut_block; [done| |done].
    cbn [device_names] in Hnames. by rewrite bool_decide_eq_true_2 in Hnames.
  - cbn [foldl]. rewrite remove_header by done. set (r0 := {| kept := _; in_target_block := _; dropping := _ |}).
    destruct (keep_lines name r0 body) as (-> & _ & _); [done|done| |].
    + unfold r0. cbn [in_target_block]. cbn [device_names] in Hout. case_bool_decide; [by right|by left].
    + unfold r0, unlines. rewrite fmap_cons. cbn [kept concat]. by rewrite <-!app_assoc.
Qed.
Lemma removed_blocks name r bs :
  Forall (λ b, ∃ header body, b = header :: body ∧ opens header = true ∧ Forall (λ l, opens l = false) body) bs →
  Forall (plainly name) bs →
  kept (foldl (remove_line name) r (concat bs)) = kept r ++ unlines (concat (filter (λ b, name ∉ device_names b) bs)).
Proof.
  intros Hbs. revert r. induction Hbs as [|b bs (header & body & -> & Hh & Hbody) _ IH]; intros r Hplain.
  { by rewrite app_nil_r. }
  apply Forall_cons in Hplain as [Hb Hplain]. cbn [concat]. rewrite foldl_app, IH, removed_block by done.
  destruct (decide (name ∈ device_names (header :: body))).
  - rewrite filter_cons_False by tauto. by rewrite app_nil_r.
  - rewrite filter_cons_True by done. cbn [concat]. by rewrite unlines_app, <-app_assoc.
Qed.
(** The file without the blocks that name the device, and without blank lines at its end. *)
Definition cut_out (name old new : ustr) : Prop :=
  let left := unlines (concat (filter (λ b, name ∉ device_names b) (blocks (lines old)))) in
  ∃ k, left = new ++ replicate k 10%N ∧ last new = last left ∧ has_suffix [10; 10]%N new = false.
Lemma one_line_feed_last fuel s : last (one_line_feed fuel s) = last s.
Proof.
  revert s. induction fuel as [|fuel IH]; intros s; cbn [one_line_feed]; [done|].
  destruct (has_suffix _ s) eqn:Hs; [|done]. apply has_suffix_spec in Hs as [x ->]. rewrite IH.
  change [10; 10]%N with ([10%N] ++ [10%N]). rewrite app_assoc, last_snoc.
  rewrite take_app_length' by (rewrite !length_app; cbn; lia). by rewrite last_snoc.
Qed.
Lemma remove_device_block_cuts text name :
  Forall (plainly name) (blocks (lines text)) → cut_out name text (remove_device_block text name).
Proof.
  destruct (blocks_spec (lines text)) as (pre & bs & Hb & Hpre & Hls & Hbs). unfold cut_out. rewrite Hb.
  intros [_ Hplain]%Forall_cons.
  assert (name ∉ device_names pre) as Hnone.
  { destruct Hpre as [|header body Hh _]; cbn [device_names]; [set_solver|].
    rewrite bool_decide_eq_false_2; [set_solver|]. unfold opens in Hh. intros Heq. by rewrite Heq in Hh. }
  rewrite filter_cons_True by done. cbn [concat]. unfold remove_device_block. cbv zeta. rewrite Hls, foldl_app.
  set (r := foldl _ _ pre).
  destruct (keep_lines name {| kept := []; in_target_block := false; dropping := false |} pre) as (Hk & _ & _);
    [done|done|by left|].
  rewrite removed_blocks by done. subst r. rewrite Hk. cbn [kept app]. rewrite <-unlines_app.
  set (left := unlines _). destruct (one_line_feed_cut (length left) left) as [k Hcut]. exists k.
  split_and!; [exact Hcut|apply one_line_feed_last|]. by apply one_line_feed_done.
Qed.

(** However the file is written, nothing is put into it. *)
Lemma sublist_prefix {A} (l k : list A) : l `prefix_of` k → l `sublist_of` k.
Proof. intros [m ->]. by apply sublist_inserts_r. Qed.
Lemma remove_line_sublist name r line : kept (remove_line name r line) `sublist_of` kept r ++ line ++ [10%N].
Proof.
  destruct (opens line) eqn:Ho; [by rewrite remove_header by done|].
  assert (kept (if dropping r then r else {| kept := kept r ++ line ++ [10%N]; in_target_block := in_target_block r; dropping := dropping r |})
          `sublist_of` kept r ++ line ++ [10%N]) as Hkeep.
  { destruct (dropping r); [by apply sublist_inserts_r|done]. }
  destruct (in_target_block r) eqn:Hin; [|rewrite remove_other by auto; by rewrite Hin].
  destruct (name_value line) as [v|] eqn:Hv; [|rewrite remove_other by auto; by rewrite Hin].
  rewrite (remove_named name r line v) by done. case_bool_decide; [|done]. cbn [kept]. apply sublist_inserts_r.
  apply sublist_prefix. pose proof (trim_end_char_prefix 10 (kept r)) as Hpre.
  destruct (before_last DEVICES _) as [x|] eqn:Hx; cbn [default from_option id]; [|done].
  etrans; [by eapply before_last_prefix|done].
Qed.
Lemma remove_device_block_sublist text name : remove_device_block text name `sublist_of` unlines (lines text).
Proof.
  unfold remove_device_block. cbv zeta.
  assert (∀ ls r, kept (foldl (remove_line name) r ls) `sublist_of` kept r ++ unlines ls) as Hfold.
  { induction ls as [|l ls IH]; intros r; cbn [foldl]; [by rewrite app_nil_r|]. etrans; [apply IH|].
    unfold unlines. rewrite fmap_cons. cbn [concat]. rewrite app_assoc. apply sublist_app; [|done]. apply remove_line_sublist. }
  set (left := kept _). destruct (one_line_feed_cut (length left) left) as [k Hk].
  transitivity left; [|apply Hfold]. apply sublist_prefix. by exists (replicate k 10%N).
Qed.

(** ** What switching notifications changes *)

(** The value of an assignment replaced: the space around it and the comment after it stay. *)
Definition value_replaced (value old new : ustr) : Prop :=
  ∀ ws held ws' comment, blank ws → blank ws' → (comment = [] ∨ ∃ rest, comment = 35%N :: rest) → solid held →
    old = ws ++ held ++ ws' ++ comment → new = ws ++ value ++ ws' ++ comment.
Definition assignment_switched (value line line' : ustr) : Prop :=
  ∃ left_ right_ right' feed, line = left_ ++ 61%N :: right_ ++ feed ∧ line' = left_ ++ 61%N :: right' ++ feed
    ∧ trim left_ = u "enabled" ∧ (feed = [] ∨ feed = [10%N]) ∧ value_replaced value right_ right'.
(** In place where the first notifications table assigns it; else below its header; else in
    a table of its own, before the first target or at the end. *)
Inductive switches (value : ustr) : list ustr → list ustr → Prop :=
  | switches_assigned pre header body line line' post :
      Forall (λ l, trim l ≠ NOTIFICATIONS) pre → trim header = NOTIFICATIONS →
      Forall (λ l, is_header (trim l) = false ∧ is_assignment l = false) body →
      assignment_switched value line line' →
      switches value (pre ++ header :: body ++ line :: post) (pre ++ header :: body ++ line' :: post)
  | switches_below pre header body post :
      Forall (λ l, trim l ≠ NOTIFICATIONS) pre → trim header = NOTIFICATIONS →
      Forall (λ l, is_header (trim l) = false ∧ is_assignment l = false) body →
      match post with next :: _ => is_header (trim next) = true | [] => True end →
      switches value (pre ++ header :: body ++ post) (pre ++ header :: enabled_line value :: body ++ post)
  | switches_table pre post :
      Forall (λ l, trim l ≠ NOTIFICATIONS) (pre ++ post) → Forall (λ l, trim l ≠ TARGETS) pre →
      match post with next :: _ => trim next = TARGETS | [] => True end →
      switches value (pre ++ post) (pre ++ new_table value ++ post).
(** Wherever it is, one place of the text changes. *)
Definition inserted (what old new : ustr) : Prop := ∃ before after, old = before ++ after ∧ new = before ++ what ++ after.
Definition one_place (value old new : ustr) : Prop :=
  (∃ before line line' after, old = before ++ line ++ after ∧ new = before ++ line' ++ after ∧ assignment_switched value line line')
  ∨ inserted (enabled_line value) old new
  ∨ inserted (concat (new_table value)) old new
  ∨ inserted (10%N :: concat (new_table value)) old new.

Lemma updated_right_replaces value right_ : value_replaced value right_ (updated_right value right_).
Proof. intros ws held ws' comment ? ? ? ? ->. by apply updated_right_put. Qed.
Lemma updated_line_switched value line : is_assignment line = true → assignment_switched value line (updated_line value line).
Proof.
  intros (left_ & right_ & -> & Hnot & Htrim)%is_assignment_spec. unfold updated_line.
  destruct (strip_suffix [10%N] (left_ ++ 61%N :: right_)) as [content|] eqn:Hs.
  - assert (left_ ++ 61%N :: right_ = content ++ [10%N]) as Heq.
    { unfold strip_suffix in Hs. apply fmap_Some in Hs as (z & Hz%strip_prefix_Some & ->). apply (f_equal reverse) in Hz.
      by rewrite reverse_involutive, reverse_app in Hz. }
    destruct right_ as [|c right_] using rev_ind; [by apply app_inj_tail in Heq as [_ [= ]]|]. clear IHright_.
    rewrite app_comm_cons, app_assoc in Heq. apply app_inj_tail in Heq as [<- ->].
    change (u "=") with [61%N]. rewrite (proj2 (split_once_char 61 _ left_ right_)) by done.
    exists left_, right_, (updated_right value right_), [10%N]. split_and!; [done|done|done|by right|apply updated_right_replaces].
  - change (u "=") with [61%N]. rewrite (proj2 (split_once_char 61 _ left_ right_)) by done.
    exists left_, right_, (updated_right value right_), []. rewrite !app_nil_r.
    split_and!; [done|done|done|by left|apply updated_right_replaces].
Qed.
Lemma switch_assignment_spec value ls :
  ∃ body post, ls = body ++ post ∧ Forall (λ l, is_header (trim l) = false ∧ is_assignment l = false) body
    ∧ match switch_assignment value ls with
      | Some ls' => ∃ line rest, post = line :: rest ∧ is_assignment line = true ∧ ls' = body ++ updated_line value line :: rest
      | None => match post with next :: _ => is_header (trim next) = true | [] => True end
      end.
Proof.
  induction ls as [|line ls (body & post & -> & Hbody & Hpost)]; [by exists [], []|]. cbn [switch_assignment].
  destruct (is_header (trim line)) eqn:Hh; [by exists [], (line :: body ++ post)|].
  destruct (is_assignment line) eqn:Ha.
  { exists [], (line :: body ++ post). split_and!; [done|constructor|]. by exists line, (body ++ post). }
  exists (line :: body), post. split_and!; [done|by constructor|].
  destruct (switch_assignment value (body ++ post)) as [ls'|]; cbn [fmap option_fmap option_map]; [|done].
  destruct Hpost as (l & rest & -> & ? & ->). by exists l, rest.
Qed.
Lemma insert_table_spec value ls :
  ∃ pre post, ls = pre ++ post ∧ Forall (λ l, trim l ≠ TARGETS) pre
    ∧ match post with next :: _ => trim next = TARGETS | [] => True end ∧ insert_table value ls = pre ++ new_table value ++ post.
Proof.
  induction ls as [|line ls (pre & post & -> & Hpre & Hpost & Heq)]; [by exists [], []|]. cbn [insert_table].
  destruct (decide (trim line = TARGETS)).
  - rewrite bool_decide_eq_true_2 by done. exists [], (line :: pre ++ post). by split_and!.
  - rewrite bool_decide_eq_false_2 by done. exists (line :: pre), post. split_and!; [done|by constructor|done|]. by rewrite Heq.
Qed.
Lemma switch_table_spec value ls :
  match switch_table value ls with
  | Some ls' => ∃ pre header rest, ls = pre ++ header :: rest ∧ Forall (λ l, trim l ≠ NOTIFICATIONS) pre
      ∧ trim header = NOTIFICATIONS
      ∧ ls' = pre ++ header :: default (enabled_line value :: rest) (switch_assignment value rest)
  | None => Forall (λ l, trim l ≠ NOTIFICATIONS) ls
  end.
Proof.
  induction ls as [|line ls IH]; [constructor|]. cbn [switch_table]. destruct (decide (trim line = NOTIFICATIONS)) as [Hn|Hn].
  - rewrite bool_decide_eq_true_2 by done. by exists [], line, ls.
  - rewrite bool_decide_eq_false_2 by done. destruct (switch_table value ls) as [ls'|]; cbn [fmap option_fmap option_map].
    + destruct IH as (pre & header & rest & -> & ? & ? & ->). exists (line :: pre), header, rest. split_and!; try done. by constructor.
    + by constructor.
Qed.
Lemma switched_switches value ls : switches value ls (switched value ls).
Proof.
  unfold switched. pose proof (switch_table_spec value ls) as Htable.
  destruct (switch_table value ls) as [ls'|]; cbn [from_option id].
  - destruct Htable as (pre & header & rest & -> & Hpre & Hh & ->).
    destruct (switch_assignment_spec value rest) as (body & post & Heq & Hbody & Hpost).
    destruct (switch_assignment value rest) as [ls'|]; cbn [from_option id]; subst rest.
    + destruct Hpost as (l & rest & -> & Hl & ->). apply switches_assigned; try done. by apply updated_line_switched.
    + by apply switches_below.
  - destruct (insert_table_spec value ls) as (pre & post & -> & ? & ? & ->). by apply switches_table.
Qed.

Lemma find_assignment_Some offset ls o line :
  find_assignment offset ls = Some (o, line) →
  is_assignment line = true ∧ ∃ pre post, ls = pre ++ line :: post ∧ o = offset + length (concat pre).
Proof.
  revert offset. induction ls as [|l ls IH]; intros offset; [done|]. cbn [find_assignment].
  destruct (is_assignment l) eqn:Ha.
  - intros [= <- <-]. split; [done|]. exists [], ls. split; [done|]. cbn. lia.
  - intros (? & pre & post & -> & ->)%IH. split; [done|]. exists (l :: pre), post. split; [done|]. cbn [concat].
    rewrite length_app. lia.
Qed.
Lemma put_line (text before line after line' : ustr) :
  text = before ++ line ++ after →
  take (length before) text ++ line' ++ drop (length before + length line) text = before ++ line' ++ after.
Proof.
  intros ->. rewrite take_app_length. do 2 f_equal. rewrite app_assoc. apply drop_app_length'. by rewrite length_app.
Qed.
Lemma set_notifications_one_place text enabled : one_place (switch enabled) text (set_notifications_enabled text enabled).
Proof.
  unfold set_notifications_enabled. set (value := switch enabled). cbv zeta.
  assert (∀ n what, inserted what text (take n text ++ what ++ drop n text)) as Hins.
  { intros n what. exists (take n text), (drop n text). by rewrite take_drop. }
  destruct (list_find _ (table_headers text)) as [[i [start h]]|] eqn:E.
  - destruct (find_assignment 0 _) as [[offset line]|] eqn:Ef.
    + left. apply find_assignment_Some in Ef as (Ha & pre & post & Hls & ->).
      apply (f_equal (@concat N)) in Hls. rewrite concat_split_inclusive, concat_middle in Hls. unfold slice in Hls. cbn [fst snd] in Hls.
      set (rest := drop (header_after text (drop (S i) (table_headers text)) - start) (drop start text)).
      assert (text = (take start text ++ concat pre) ++ line ++ (concat post ++ rest)) as Htext.
      { rewrite <-(take_drop start text) at 1. rewrite <-app_assoc. f_equal.
        rewrite <-(take_drop (header_after text (drop (S i) (table_headers text)) - start) (drop start text)) at 1.
        rewrite Hls. by rewrite <-!app_assoc. }
      assert (start ≤ length text) as Hstart.
      { apply list_find_Some in E as (Hi%list_elem_of_lookup_2 & _). unfold table_headers in Hi.
        apply elem_of_headers in Hi as (p & l & q & Heq & -> & _). rewrite <-(concat_split_inclusive text), Heq, concat_middle.
        rewrite length_app. lia. }
      exists (take start text ++ concat pre), line, (updated_line value line), (concat post ++ rest).
      assert (start + (0 + length (concat pre)) = length (take start text ++ concat pre)) as Hlen
        by (rewrite length_app, length_take; lia).
      rewrite Hlen. split_and!; [exact Htext| |by apply updated_line_switched].
      by apply put_line.
    + right. left. set (n := match find_char _ _ with Some _ => _ | None => _ end).
      replace (take n text ++ u "enabled = " ++ value ++ [10%N] ++ drop n text)
        with (take n text ++ enabled_line value ++ drop n text) by (unfold enabled_line; by rewrite <-!app_assoc). apply Hins.
  - right. right. set (n := match list_find _ _ with Some _ => _ | None => _ end).
    destruct (_ && _).
    + right. specialize (Hins n (10%N :: concat (new_table value))).
      replace ((take n text ++ [10%N]) ++ NOTIFICATIONS ++ [10%N] ++ u "enabled = " ++ value ++ [10%N; 10%N] ++ drop n text)
        with (take n text ++ (10%N :: concat (new_table value)) ++ drop n text); [done|].
      change (10%N :: concat (new_table value)) with ([10%N] ++ concat (new_table value)).
      unfold new_table, enabled_line. cbn [concat]. by rewrite <-!app_assoc.
    + left. specialize (Hins n (concat (new_table value))).
      replace (take n text ++ NOTIFICATIONS ++ [10%N] ++ u "enabled = " ++ value ++ [10%N; 10%N] ++ drop n text)
        with (take n text ++ concat (new_table value) ++ drop n text); [done|].
      unfold new_table, enabled_line. cbn [concat]. by rewrite <-!app_assoc.
Qed.

(** ** What an edit may change *)

Section edits_kept.
Context `{ConfigToml}.

Definition touches (edit : Edit) (old : option ustr) (new : ustr) : Prop :=
  match edit with
  | AddTarget t =>
      match old with
      | Some text => ∃ entry, write_targets [t] = Some entry ∧ new = end_line text ++ [10%N] ++ entry
      | None => write_config (first_config t) = Some new
      end
  | ReplaceTarget name t =>
      ∃ before section entry after held, old = Some (before ++ section ++ after) ∧ write_targets [t] = Some entry
        ∧ new = before ++ entry ++ after ∧ read_targets section = Some [held] ∧ tgt_name held = name
  | RemoveTarget name =>
      ∃ before section after held, old = Some (before ++ section ++ after)
        ∧ new = before ++ after ∧ read_targets section = Some [held] ∧ tgt_name held = name
  | AddDevice d =>
      ∃ text entry, old = Some text ∧ write_devices [d] = Some entry ∧ new = end_line text ++ [10%N] ++ entry
  | RemoveDevice name =>
      ∃ text config config', old = Some text ∧ read_config text = Some config ∧ read_config new = Some config'
        ∧ length (cfg_devices config') = length (filter (λ d, dev_name d ≠ name) (cfg_devices config))
        ∧ new `sublist_of` unlines (lines text)
        ∧ (Forall (plainly name) (blocks (lines text)) → cut_out name text new)
  | SetNotificationsEnabled enabled =>
      ∃ text, old = Some text ∧ one_place (switch enabled) text new
        ∧ (text = [] ∨ last text = Some 10%N → ∃ ls, new = concat ls ∧ switches (switch enabled) (split_inclusive text) ls)
  end.

Lemma removed_device_ok text name new :
  removed_device text name = Ok new → touches (RemoveDevice name) (Some text) new.
Proof.
  unfold removed_device. destruct (parse text) as [config|] eqn:Hp; [|done]. cbn [mbind result_bind].
  destruct (_ =? _); [done|]. destruct (parse (remove_device_block text name)) as [config'|] eqn:Hp'; [|done].
  destruct (Nat.eqb_spec (length (cfg_devices config')) (length (filter (λ d, dev_name d ≠ name) (cfg_devices config)))); [|done].
  intros [= <-]. apply parse_ok in Hp as [? _], Hp' as [? _]. exists text, config, config'. split_and!; try done.
  - apply remove_device_block_sublist.
  - apply remove_device_block_cuts.
Qed.
Lemma switched_ok text enabled :
  touches (SetNotificationsEnabled enabled) (Some text) (set_notifications_enabled text enabled).
Proof.
  exists text. split_and!; [done|apply set_notifications_one_place|]. intros Hfull%split_lines_full.
  exists (switched (switch enabled) (split_inclusive text)). split; [|apply switched_switches].
  rewrite <-(concat_split_inclusive text) at 1. by apply set_notifications_lines.
Qed.
Lemma edited_touches edit path f new :
  edited edit path f = Ok new → ∃ old, read_file path f = Ok old ∧ touches edit old new.
Proof.
  destruct edit as [t|name t|name|d|name|enabled]; cbn [edited].
  { destruct (read_file path f) as [[text|]|]; [| |done]; cbn [mbind result_bind added_target].
    - destruct (parse text) as [config|]; [|done]. cbn [mbind result_bind]. destruct (validated _); [|done]. cbn [mbind result_bind].
      destruct (write_targets [t]) as [entry|] eqn:He; [|done]. intros [= <-]. exists (Some text). split; [done|]. by exists entry.
    - destruct (validated _); [|done]. cbn [mbind result_bind]. destruct (write_config _) eqn:Hw; [|done]. intros [= <-]. by exists None. }
  all: destruct (must_read path f) as [text|] eqn:Hr; [|done]; cbn [mbind result_bind]; apply must_read_ok in Hr.
  all: intros Hnew; exists (Some text); split; [exact Hr|].
  - apply mutated_target_ok in Hnew as (b & s & a & held & entry & -> & -> & ? & ? & ?). by exists b, s, entry, a, held.
  - apply mutated_target_ok in Hnew as (b & s & a & held & entry & -> & -> & ? & ? & ->). by exists b, s, a, held.
  - unfold added_device in Hnew. destruct (parse text) as [config|]; [|done]. cbn [mbind result_bind] in Hnew.
    destruct (existsb _ _); [done|]. destruct (write_devices [d]) as [entry|] eqn:He; [|done].
    injection Hnew as <-. by exists text, entry.
  - by apply removed_device_ok.
  - destruct (parse text); [|done]. injection Hnew as <-. apply switched_ok.
Qed.

(** C9. An edit of the configuration either changes nothing or leaves a file that loads.
    When it fails, for whichever reason (no path, a file that cannot be read or parsed, an
    unknown or taken name, the last target, a result that would not load, a write that is
    refused), every file is as it was. When it succeeds, one file is changed, the one named
    or found in the environment; what it holds parses and passes every check; and the text
    is the one that was there with this done to it. Adding a target or a device appends an
    entry. Replacing or removing a target replaces or cuts out one section, which reads as
    that target alone. Removing a device writes nothing, takes away as many devices as had
    the name, and, when every block that names it is written plainly (its header alone on a
    line and not quoted below it, one name), leaves every other line where it was and
    cuts out exactly those blocks, but for carriage returns and blank lines at the end.
    Switching notifications changes one place: the value of an assignment, with the space
    and the comment around it kept, or an assignment or a table inserted; in a file that
    ends with a line feed it is the first assignment of the first notifications table, else
    a line below that header, else a table before the first target or at the end. *)
Theorem edits_load_or_leave edit explicit env written f :
  match edit_file edit explicit env written f with
  | (Err _, f') => f' = f
  | (Ok path, f') =>
      resolve_path explicit env = Ok path ∧ denied f' = denied f
      ∧ ∃ old text config, read_file path f = Ok old ∧ texts f' = <[path := text]> (texts f)
          ∧ read_config text = Some config ∧ validate config = Ok () ∧ touches edit old text
  end.
Proof.
  unfold edit_file. destruct (resolve_path explicit env) as [path|e]; [|done]. cbn [mbind result_bind].
  destruct (edited edit path f) as [text|e] eqn:He; [|done]. cbn [mbind result_bind].
  destruct (parse text) as [config|e] eqn:Hp; [|done]. unfold write_private_atomic. destruct written; [|done].
  split_and!; [done|done|]. apply edited_touches in He as (old & Hold & Ht). apply parse_ok in Hp as [? ?].
  by exists old, text, config.
Qed.

(** ** Revoking what was paired *)

Lemma strip_cr_absent line : 13%N ∉ line → strip_cr line = line.
Proof.
  intros Hcr. unfold strip_cr. destruct (strip_suffix [13%N] line) as [content|] eqn:Hs; [|done].
  unfold strip_suffix in Hs. apply fmap_Some in Hs as (z & Hz%strip_prefix_Some & ->).
  apply (f_equal reverse) in Hz. rewrite reverse_involutive in Hz. rewrite Hz, reverse_app in Hcr. set_solver.
Qed.
Lemma unlines_lines text : last text = Some 10%N → 13%N ∉ text → unlines (lines text) = text.
Proof.
  intros Hlast Hcr. pose proof (split_lines_full text (or_intror Hlast)) as Hfull. clear Hlast.
  rewrite <-(concat_split_inclusive text) in Hcr |- *. induction Hfull as [|line ls (content & -> & Hc) _ IH]; [done|].
  cbn [concat] in *. rewrite <-app_assoc in *. cbn [app] in *. rewrite lines_full by done.
  unfold unlines in *. rewrite fmap_cons. cbn [concat]. rewrite IH by set_solver.
  rewrite strip_cr_absent by set_solver. by rewrite <-app_assoc.
Qed.
Lemma remove_nothing text name :
  last text = Some 10%N → has_suffix [10; 10]%N text = false → 13%N ∉ text →
  Forall (λ b, name ∉ device_names b) (blocks (lines text)) → remove_device_block text name = text.
Proof.
  intros Hlast Hone Hcr Hnone.
  destruct (remove_device_block_cuts text name) as (k & Hk & Hl & _).
  { eapply Forall_impl; [exact Hnone|]. by intros b Hb Hin. }
  rewrite filter_all in Hk, Hl by (by apply Forall_forall).
  destruct (blocks_spec (lines text)) as (pre & bs & Hb & _ & Hls & _). rewrite Hb in Hk, Hl. cbn [concat] in Hk, Hl.
  rewrite <-Hls, unlines_lines in Hk, Hl by done. rewrite Hlast in Hl.
  set (left := remove_device_block text name) in *. destruct k as [|[|k]].
  - by rewrite app_nil_r in Hk.
  - exfalso. cbn [replicate] in Hk. apply last_Some in Hl as [x Hx].
    assert (has_suffix [10; 10]%N text = true); [|congruence]. apply has_suffix_spec. exists x. rewrite Hk, Hx. by rewrite <-app_assoc.
  - exfalso. assert (has_suffix [10; 10]%N text = true); [|congruence]. apply has_suffix_spec. rewrite Hk.
    exists (left ++ replicate k 10%N). rewrite <-app_assoc. f_equal.
    change [10; 10]%N with (replicate 2 10%N). rewrite <-replicate_add. f_equal. lia.
Qed.
Lemma remove_appended text name rest :
  last text = Some 10%N → remove_device_block text name = text → 34%N ∉ name → 10%N ∉ name → Forall entry_line rest →
  remove_device_block (end_line text ++ [10%N] ++ unlines (DEVICES :: name_line name :: rest)) name = text.
Proof.
  intros Hlast Hclean Hquote Hfeed Hrest. unfold end_line. rewrite bool_decide_eq_true_2 by done.
  pose proof (split_lines_full text (or_intror Hlast)) as Hfull. rewrite <-(concat_split_inclusive text) at 1.
  unfold remove_device_block. cbv zeta. rewrite lines_app by done. rewrite concat_split_inclusive, foldl_app.
  unfold remove_device_block in Hclean. cbv zeta in Hclean.
  set (r := foldl (remove_line name) _ (lines text)) in *. set (left := kept r) in *.
  destruct (entry_dropped name r rest) as [k Hk]; [done|by eapply Forall_impl; [exact Hrest|unfold entry_line; naive_solver]|].
  assert (lines ([10%N] ++ unlines (DEVICES :: name_line name :: rest)) = [] :: DEVICES :: name_line name :: rest) as ->.
  { change ([10%N] ++ unlines (DEVICES :: name_line name :: rest))
      with ([] ++ 10%N :: concat ((λ line, line ++ [10%N]) <$> DEVICES :: name_line name :: rest)).
    rewrite lines_full by apply not_elem_of_nil. f_equal. apply entry_lines. constructor; [|constructor].
    - split; [apply devices_feed|done].
    - split; [by apply name_line_full|by apply name_line_no_cr].
    - eapply Forall_impl; [exact Hrest|]. unfold entry_line. naive_solver. }
  rewrite Hk. clear Hk. fold left.
  destruct (one_line_feed_cut (length left) left) as [j Hj]. rewrite Hclean in Hj.
  pose proof (one_line_feed_done (length left) left ltac:(lia)) as Hdone. rewrite Hclean in Hdone.
  rewrite Hj, <-app_assoc, <-replicate_add. apply one_line_feed_app; [done|done|].
  rewrite !length_app, length_replicate. lia.
Qed.

(** An edit that reads the text there was. *)
Lemma edit_read_file edit (go : ustr → result EditError ustr) path env f f' text :
  (∀ f, edited edit path f = text ← must_read path f; go text) → texts f !! path = Some text →
  edit_file edit (Some path) env true f = (Ok path, f') ↔
  path ∉ denied f ∧ ∃ new config, go text = Ok new ∧ parse new = Ok config
    ∧ f' = {| texts := <[path := new]> (texts f); denied := denied f |}.
Proof.
  intros Hedit Htext. unfold edit_file. cbn [resolve_path mbind result_bind]. rewrite Hedit. unfold must_read, read_file.
  rewrite Htext. case_bool_decide as Hd; cbn [mbind result_bind ok_or]; [split; [done|by intros []]|].
  destruct (go text) as [new|]; cbn [mbind result_bind]; [|split; [done|by intros (_ & ? & ? & ? & _)]].
  destruct (parse new) as [config|] eqn:Hp; cbn [mbind result_bind write_private_atomic].
  - split; [intros [= <-]; split; [done|]; by exists new, config|]. by intros (_ & ? & ? & [= ->] & _ & ->).
  - split; [done|]. intros (_ & new' & ? & [= <-] & ? & _). congruence.
Qed.

(** C22. Revoking undoes pairing. When the edit that records a device succeeds, the edit that
    removes that device succeeds and leaves every file as it was before the pairing, comments,
    order and spacing included. For a file that ends with exactly one line feed, has no
    carriage returns and no block that already names the device; for a device whose name has
    neither a quote nor a line feed; and when toml writes the entry as a header, a line with
    the name and lines that are neither, and reads the entry back as that device after the
    others. *)
Theorem revoking_undoes_pairing path env f text d rest f' :
  texts f !! path = Some text → last text = Some 10%N → has_suffix [10; 10]%N text = false → 13%N ∉ text →
  Forall (λ b, dev_name d ∉ device_names b) (blocks (lines text)) → 34%N ∉ dev_name d → 10%N ∉ dev_name d →
  Forall entry_line rest → write_devices [d] = Some (unlines (DEVICES :: name_line (dev_name d) :: rest)) →
  (∀ config config', parse text = Ok config →
     parse (end_line text ++ [10%N] ++ unlines (DEVICES :: name_line (dev_name d) :: rest)) = Ok config' →
     cfg_devices config' = cfg_devices config ++ [d]) →
  edit_file (AddDevice d) (Some path) env true f = (Ok path, f') →
  edit_file (RemoveDevice (dev_name d)) (Some path) env true f' = (Ok path, f).
Proof.
  intros Htext Hlast Hone Hcr Hnone Hquote Hfeed Hrest Hwrite Hread.
  rewrite (edit_read_file (AddDevice d) (λ t, added_device t d) path env f f' text) by done.
  intros (Hd & new & config' & Hnew & Hp' & ->).
  unfold added_device in Hnew. destruct (parse text) as [config|] eqn:Hp; [|done]. cbn [mbind result_bind] in Hnew.
  destruct (existsb _ _) eqn:Hfree; [done|]. rewrite Hwrite in Hnew.
  assert (new = end_line text ++ [10%N] ++ unlines (DEVICES :: name_line (dev_name d) :: rest)) as ->
    by (injection Hnew as <-; done). clear Hnew.
  specialize (Hread config config' eq_refl Hp').
  eapply (edit_read_file (RemoveDevice (dev_name d)) (λ t, removed_device t (dev_name d)));
    [done|apply lookup_insert_eq|].
  split; [done|]. exists text, config. split_and!; [|done|].
  - unfold removed_device. rewrite Hp'. cbn [mbind result_bind]. rewrite Hread, filter_app.
    rewrite (filter_cons_False _ d) by tauto. rewrite app_nil_r.
    assert (filter (λ d', dev_name d' ≠ dev_name d) (cfg_devices config) = cfg_devices config) as ->.
    { apply filter_all. intros d' Hd' Heq. apply not_true_iff_false in Hfree. apply Hfree, existsb_exists. exists d'.
      split; [by apply list_elem_of_In|by apply bool_decide_eq_true]. }
    rewrite length_app, (proj2 (Nat.eqb_neq _ _)) by (cbn; lia).
    rewrite remove_appended by (try done; by apply remove_nothing). rewrite Hp. cbn. by rewrite Nat.eqb_refl.
  - destruct f as [ts ds]. cbn [texts denied] in *. by rewrite insert_insert_eq, insert_id.
Qed.
End edits_kept.

(** ** Concrete files *)

Module Edits.

Definition file (ls : list string) : ustr := concat ((λ line, u line ++ [10%N]) <$> ls).
Definition phone : Device := {| dev_name := u "phone"; token_sha256 := u "00ff"; paired_at_ms := 7 |}.
Definition host (name : ustr) : Target := {|
  tgt_name := name; tgt_ssh := None; tgt_discover_sessions := false; tgt_session := None; tgt_socket := None;
  tgt_herdr_bins := [u "herdr"]; tgt_tags := []; tgt_roots := [] |}.
(** A reader of the few lines the examples hold: targets are named in single quotes,
    devices in double quotes. *)
Definition named (line : ustr) : option ustr := inner ← strip_prefix (u "name = '") line; strip_suffix (u "'") inner.
Definition named_device (line : ustr) : option Device :=
  inner ← strip_prefix (u "name = " ++ [34%N]) line; name ← strip_suffix [34%N] inner;
  Some {| dev_name := name; token_sha256 := u "00ff"; paired_at_ms := 7 |}.
Definition set_devices (ds : list Device) (c : Config) : Config :=
  {| cfg_transport := cfg_transport c; cfg_notifications := cfg_notifications c; cfg_quick_replies := cfg_quick_replies c;
     cfg_transfers := cfg_transfers c; cfg_web := cfg_web c; cfg_devices := ds; cfg_targets := cfg_targets c |}.
Definition device_entry (d : Device) : ustr :=
  concat ((λ line, line ++ [10%N]) <$> DEVICES :: name_line (dev_name d) :: [u "token_sha256 = '" ++ token_sha256 d ++ u "'"; u "paired_at_ms = 7"]).
#[export] Instance toml : ConfigToml := {|
  read_config text := if contains_str (u "broken") text then None
                      else Some (set_devices (omap named_device (lines text))
                                   (set_targets (host <$> omap named (lines text)) (first_config (host []))));
  read_targets text := Some (host <$> omap named (lines text));
  write_targets ts := Some (concat ((λ t, TARGETS ++ [10%N] ++ u "name = '" ++ tgt_name t ++ u "'" ++ [10%N]) <$> ts));
  write_devices ds := Some (concat (device_entry <$> ds));
  write_config config := None |}.

Definition two_hosts : ustr := file ["# mine"; "[[targets]]"; "name = 'a'"; "# about b"; "[[targets]]"; "name = 'b'"].
Definition disk : Files := {| texts := {[ u "/c.toml" := two_hosts ]}; denied := ∅ |}.
Definition nowhere : Environment := {| super_herdr_config := None; xdg_config_home := None; home_ := None |}.
Definition run (edit : Edit) : result EditError ustr * option ustr :=
  let '(r, f) := edit_file edit (Some (u "/c.toml")) nowhere true disk in (r, texts f !! u "/c.toml").

Lemma edits_load_or_leave_runs :
  run (ReplaceTarget (u "b") (host (u "c")))
    = (Ok (u "/c.toml"), Some (file ["# mine"; "[[targets]]"; "name = 'a'"; "# about b"; "[[targets]]"; "name = 'c'"]))
  ∧ run (ReplaceTarget (u "b") (host (u "a"))) = (Err (Invalid (DuplicateTarget (u "a"))), Some two_hosts)
  ∧ run (RemoveTarget (u "x")) = (Err (NotConfigured (u "x")), Some two_hosts).
Proof. vm_compute. done. Qed.

(** A section runs to the next header: removing a target removes what was written above the
    next one. *)
Lemma next_comment_removed :
  run (RemoveTarget (u "a")) = (Ok (u "/c.toml"), Some (file ["# mine"; "[[targets]]"; "name = 'b'"])).
Proof. vm_compute. done. Qed.
(** A header with a comment is not seen, and a second table is added; a header that ends the
    file without a line feed is joined with the assignment. Neither result loads. *)
Lemma commented_header_unseen :
  set_notifications_enabled (file ["[notifications] # desktop"; "completed = false"]) true
  = file ["[notifications] # desktop"; "completed = false"; "[notifications]"; "enabled = true"] ++ [10%N]
  ∧ set_notifications_enabled (u "[notifications]") true = file ["[notifications]enabled = true"].
Proof. vm_compute. done. Qed.
(** A device whose name is not written between double quotes alone is not found in the text. *)
Lemma quoted_device_stays :
  let text := file ["[[devices]]"; "name = 'phone'"; "token_sha256 = '00ff'"] in remove_device_block text (u "phone") = text.
Proof. vm_compute. done. Qed.

Lemma notifications_switched_witness :
  let text := file ["[notifications]"; "enabled  =  true  # on"; "[[targets]]"; "name = 'a'"] in
  set_notifications_enabled text false = file ["[notifications]"; "enabled  =  false  # on"; "[[targets]]"; "name = 'a'"]
  ∧ set_notifications_enabled (set_notifications_enabled text false) true = set_notifications_enabled text true.
Proof.
  cbv zeta. split; [vm_compute; reflexivity|].
  apply (notifications_switched (file ["[notifications]"; "enabled  =  true  # on"; "[[targets]]"; "name = 'a'"]) true).
  right. vm_compute. reflexivity.
Defined.
(** One block goes, the comment and the blank line before it stay. *)
Lemma other_device_kept :
  remove_device_block (unlines [DEVICES; name_line (u "tablet"); u "# mine"; []; DEVICES; name_line (u "phone"); TARGETS; u "name = 'a'"]) (u "phone")
  = unlines [DEVICES; name_line (u "tablet"); u "# mine"; []; TARGETS; u "name = 'a'"].
Proof. vm_compute. done. Qed.
Definition pairing : result EditError ustr * Files := edit_file (AddDevice phone) (Some (u "/c.toml")) nowhere true disk.
Lemma revoking_undoes_pairing_witness :
  pairing.1 = Ok (u "/c.toml") ∧ texts pairing.2 !! u "/c.toml" ≠ Some two_hosts
  ∧ edit_file (RemoveDevice (u "phone")) (Some (u "/c.toml")) nowhere true pairing.2 = (Ok (u "/c.toml"), disk).
Proof.
  split; [vm_compute; reflexivity|]. split; [vm_compute; discriminate|].
  apply (revoking_undoes_pairing (u "/c.toml") nowhere disk two_hosts phone
           [u "token_sha256 = '00ff'"; u "paired_at_ms = 7"] pairing.2).
  - vm_compute. reflexivity.
  - vm_compute. reflexivity.
  - vm_compute. reflexivity.
  - apply (bool_decide_unpack _). vm_compute. exact I.
  - apply (bool_decide_unpack _). vm_compute. exact I.
  - apply (bool_decide_unpack _). vm_compute. exact I.
  - apply (bool_decide_unpack _). vm_compute. exact I.
  - repeat constructor; apply (bool_decide_unpack _); vm_compute; exact I.
  - vm_compute. reflexivity.
  - intros config config' [= <-] [= <-]. vm_compute. reflexivity.
  - vm_compute. reflexivity.
Defined.
End Edits.
