(* ===== verification/Daemon.v ===== *)
(** The daemon's loop: [src/src/daemon/server.rs], [Daemon::handle] and
    [Daemon::apply] with what they call.

    An input is handled by the broker or by one of the daemon's own parts, which
    yields effects; the effects are carried out in order, and what carrying one out
    makes the broker say joins the end of the queue. What leaves the process is
    output: messages put in a client's outbox, terminal processes started, stopped
    and written to, tasks begun. What the outside answers while an input is handled
    (the clock, whether a process starts, random bytes) is a [Moment]. *)

From S2P Require Import Prelude Text Model Config State Attention AgentMarks Aliases AgentCards.
From S2P Require Import Screen Operation Protocol Broker Notifications Pairing Clipboard Staging Retention.

(** ** State *)

(** What the daemon derives from the federation, and the local choices. *)
Record Views := {
  federation : FederationState;
  attention : AttentionIndex;
  attention_cursor : option N;
  card_index : AgentCardIndex;
  agent_marks : AgentMarks;
  aliases : Aliases;
  device_notifications : NotificationQueue;
}.
Record Settings := {
  active : Config;
  targets : gmap TargetSession Target;
  web_url : option ustr;
  refresh_inflight : bool;
}.

Inductive Input :=
  | NotificationsDue
  | Connected
  | Received (client : N) (message : ClientMessage)
  | Disconnected (client : N)
  | Federation (st : FederationState)
  | Frame (pane : PaneId) (sequence width height : N) (full : bool) (payload : bytes)
  | RouteClosed (pane : PaneId)
  | OperationDone (client request : N) (refresh : option TargetSession) (applied : bool) (message : ustr)
      (plugin_run : option PluginRun)
  | UploadOffered (client request : N)
  | RelayFinished (client request : N) (transfer : ustr) (outcome : Relayed)
  | DownloadEnded (client request : N)
  | ResumeOffset (client request : N) (transfer : ustr) (staged : N)
  | PairingRequested                      (** the oldest of the pairing requests *)
  | Shutdown
  | RefreshDue
  | Reconfigured (config : option Config).

Inductive RouteCommand :=
  | TerminalInput (payload : bytes)
  | TerminalResize (cols rows : N)
  | TerminalScroll (direction : TerminalScrollDirection) (lines column row modifiers : N).

(** What runs off the loop and answers by itself. *)
Inductive Job :=
  | OperationJob (client request : N) (operation : Operation) (source destination : Target) (executable : option ustr)
  | PluginActionsJob (client request : N) (key : TargetSession) (target : Target) (generation : N)
  | PluginRunJob (client request : N) (run : PluginRunId) (target : Target)
  | PasteJob (client request : N) (pane : PaneId) (text : ustr) (target : Target)
  | BrowseJob (client request : N) (key : TargetSession) (target : Target) (root : ustr)
      (search : option (ustr * bool)) (path : ustr).

Inductive Output :=
  | Said (client : N) (message : ServerMessage)
  | Spawned (pane : PaneId) (access : TerminalAccess) (cols rows : N)
  | Stopped (pane : PaneId)
  | Commanded (pane : PaneId) (command : RouteCommand)
  | Queued (i : Input)                    (** sent to the loop itself *)
  | Begun (job : Job)
  | Transferring (o : TransferOutput)
  | Answered (attempt : ustr) (answer : result ustr ustr)
  | SavedAttention (i : AttentionIndex)
  | SavedMarks (m : AgentMarks)
  | SavedAliases (a : Aliases)
  | WakesDevices (notification : ServerMessage)
  | RefreshesTarget (key : TargetSession)
  | ReadsConfig
  | RestartsFederation (config : Config).

(** The answers of the outside while one input is handled. *)
Record Moment := {
  unix_time_ms : N;
  clock : N → N;                          (** the readings of the clock an observation takes *)
  instant : N;
  replies : bool;                         (** the connection takes its number *)
  spawns : PaneId → TerminalAccess → bool;
  random : option bytes;
  closed_browsers : gset ustr;
  written : bool;                         (** the configuration file can be written *)
  delivered : bool;                       (** the browser takes its token *)
}.

Section daemon.
Context {vt : Vt100} {sha : Sha256} {toml : DeviceToml}.
Context (alias_message : AliasError → ustr) (refusal : Refusal → ustr) (add_message : AddDeviceError → ustr).

Record Daemon := {
  broker : Broker;
  outboxes : gset N;
  processes : gmap PaneId TerminalAccess;   (** [routes]: a process takes commands when it was spawned for control *)
  downgraded : list PaneId;
  views : Views;
  settings : Settings;
  transfers : Transfers;
  pairing : PairingState;
}.

Definition set_broker (b : Broker) (d : Daemon) : Daemon := {|
  broker := b; outboxes := outboxes d; processes := processes d; downgraded := downgraded d;
  views := views d; settings := settings d; transfers := transfers d; pairing := pairing d |}.
Definition set_outboxes (o : gset N) (d : Daemon) : Daemon := {|
  broker := broker d; outboxes := o; processes := processes d; downgraded := downgraded d;
  views := views d; settings := settings d; transfers := transfers d; pairing := pairing d |}.
Definition set_processes (m : gmap PaneId TerminalAccess) (d : Daemon) : Daemon := {|
  broker := broker d; outboxes := outboxes d; processes := m; downgraded := downgraded d;
  views := views d; settings := settings d; transfers := transfers d; pairing := pairing d |}.
Definition set_downgraded (l : list PaneId) (d : Daemon) : Daemon := {|
  broker := broker d; outboxes := outboxes d; processes := processes d; downgraded := l;
  views := views d; settings := settings d; transfers := transfers d; pairing := pairing d |}.
Definition set_views (v : Views) (d : Daemon) : Daemon := {|
  broker := broker d; outboxes := outboxes d; processes := processes d; downgraded := downgraded d;
  views := v; settings := settings d; transfers := transfers d; pairing := pairing d |}.
Definition set_settings (s : Settings) (d : Daemon) : Daemon := {|
  broker := broker d; outboxes := outboxes d; processes := processes d; downgraded := downgraded d;
  views := views d; settings := s; transfers := transfers d; pairing := pairing d |}.
Definition set_transfers (t : Transfers) (d : Daemon) : Daemon := {|
  broker := broker d; outboxes := outboxes d; processes := processes d; downgraded := downgraded d;
  views := views d; settings := settings d; transfers := t; pairing := pairing d |}.
Definition set_pairing (p : PairingState) (d : Daemon) : Daemon := {|
  broker := broker d; outboxes := outboxes d; processes := processes d; downgraded := downgraded d;
  views := views d; settings := settings d; transfers := transfers d; pairing := p |}.

Definition set_federation (st : FederationState) (v : Views) : Views := {|
  federation := st; attention := attention v; attention_cursor := attention_cursor v; card_index := card_index v;
  agent_marks := agent_marks v; aliases := aliases v; device_notifications := device_notifications v |}.
Definition set_attention (i : AttentionIndex) (cursor : option N) (v : Views) : Views := {|
  federation := federation v; attention := i; attention_cursor := cursor; card_index := card_index v;
  agent_marks := agent_marks v; aliases := aliases v; device_notifications := device_notifications v |}.
Definition set_cards (i : AgentCardIndex) (v : Views) : Views := {|
  federation := federation v; attention := attention v; attention_cursor := attention_cursor v; card_index := i;
  agent_marks := agent_marks v; aliases := aliases v; device_notifications := device_notifications v |}.
Definition set_marks (m : AgentMarks) (v : Views) : Views := {|
  federation := federation v; attention := attention v; attention_cursor := attention_cursor v;
  card_index := card_index v; agent_marks := m; aliases := aliases v;
  device_notifications := device_notifications v |}.
Definition set_aliases (a : Aliases) (v : Views) : Views := {|
  federation := federation v; attention := attention v; attention_cursor := attention_cursor v;
  card_index := card_index v; agent_marks := agent_marks v; aliases := a;
  device_notifications := device_notifications v |}.
Definition set_queue (q : NotificationQueue) (v : Views) : Views := {|
  federation := federation v; attention := attention v; attention_cursor := attention_cursor v;
  card_index := card_index v; agent_marks := agent_marks v; aliases := aliases v; device_notifications := q |}.

(** What carrying something out leaves: the daemon, what left it, and the effects
    it makes the broker yield. *)
Definition Turn : Type := Daemon * list Output * list Effect.

(** ** Saying things *)

Definition tell (c : N) (m : ServerMessage) (d : Daemon) : list Output :=
  if bool_decide (c ∈ outboxes d) then [Said c m] else [].
Definition refuse (c request : N) (message : ustr) (d : Daemon) : list Output :=
  tell c (ErrorMessage (Some request) message) d.
Definition applied (c request : N) (d : Daemon) : list Output :=
  tell c (OperationResult request true [] None) d.

(** A call of the broker. *)
Definition on_broker (f : Broker → Broker * list Effect) (d : Daemon) : Turn :=
  let '(b, effects) := f (broker d) in (set_broker b d, [], effects).

Definition surroundings (d : Daemon) : Surroundings := {|
  Retention.outboxes := outboxes d; known_targets := targets (settings d);
  ceiling := max_bytes (cfg_transfers (active (settings d))) |}.
Definition transfer_output (o : TransferOutput) : Output :=
  match o with Say c m => Said c m | o => Transferring o end.
Definition on_transfers (f : Surroundings → Transfers → Transfers * list TransferOutput) (d : Daemon) : Turn :=
  let '(t, out) := f (surroundings d) (transfers d) in (set_transfers t d, transfer_output <$> out, []).

(** One turn after another. *)
Definition then_ (w : Turn) (f : Daemon → Turn) : Turn :=
  let '(d, out, effects) := w in
  let '(d, more, further) := f d in (d, out ++ more, effects ++ further).

(** ** Terminal routes *)

Definition set_process (pane : PaneId) (access : TerminalAccess) (d : Daemon) : Daemon :=
  set_processes (<[pane := access]> (processes d)) d.

(** [Route::shutdown] of the pane's process, if it has one. *)
Definition shutdown (pane : PaneId) (d : Daemon) : Daemon * list Output :=
  (set_processes (delete pane (processes d)) d,
   if bool_decide (is_Some (processes d !! pane)) then [Stopped pane] else []).

Definition route_target (pane : PaneId) (d : Daemon) : option (Target * ustr) :=
  let key := target_session pane in
  target ← targets (settings d) !! key;
  runtime ← State.targets (federation (views d)) !! key;
  executable ← selected_herdr_bin runtime;
  Some (target, executable).

Definition open_route (m : Moment) (pane : PaneId) (access : TerminalAccess) (cols rows : N) (d : Daemon)
    : Daemon * list Output :=
  let '(d, stopped) := shutdown pane d in
  match route_target pane d with
  | None => (d, stopped ++ [Queued (RouteClosed pane)])
  | Some _ =>
      if spawns m pane access then (set_process pane access d, stopped ++ [Spawned pane access cols rows])
      else if bool_decide (access = Control) && spawns m pane Observe then
        (set_process pane Observe (set_downgraded (downgraded d ++ [pane]) d),
         stopped ++ [Spawned pane Observe cols rows])
      else (d, stopped ++ [Queued (RouteClosed pane)])
  end.

(** [send_to_route]: only a process opened for control has an input. *)
Definition send_to_route (pane : PaneId) (command : RouteCommand) (d : Daemon) : list Output :=
  if bool_decide (processes d !! pane = Some Control) then [Commanded pane command] else [].

(** ** Attention and the inbox *)

Definition project_agent_cards (m : Moment) (d : Daemon) : Turn :=
  let '(marks, expired) := expire (unix_time_ms m) (agent_marks (views d)) in
  let d := set_views (set_marks marks (views d)) d in
  let v := views d in
  let '(index, projection) := project (federation v) (attention v)
      {| local_marks := agent_marks v; local_aliases := aliases v; local_now_ms := unix_time_ms m |}
      (card_index v) in
  let d := set_views (set_cards index v) d in
  let '(d, out, effects) := on_broker (agent_cards_updated projection) d in
  (d, (if expired then [SavedMarks marks] else []) ++ out, effects).

Definition attention_changed (m : Moment) (d : Daemon) : Turn :=
  let i := attention (views d) in
  then_ (d, [SavedAttention i], Broker.attention_changed (events i) (broker d)) (project_agent_cards m).

(** The loop over fresh events of [observe_attention]. *)
Definition offer_to_devices (m : Moment) (st : FederationState) (marks : AgentMarks) (q : NotificationQueue)
    (event : AttentionEvent) : NotificationQueue :=
  let mark := state_of marks (agent_key_for_pane st (ev_pane event)) in
  if may_notify mark (bool_decide (ev_kind event = NeedsAttention)) (unix_time_ms m)
  then (enqueue event (instant m) q).1 else q.

Definition fresh_event (cursor : option N) (e : AttentionEvent) : bool :=
  match cursor with Some last_ => (last_ <? ev_id e)%N | None => true end.
Definition observe_attention (m : Moment) (d : Daemon) : Turn :=
  let v := views d in
  let '(i, changed) := observe (clock m) (federation v) (attention v) in
  if negb changed then (set_views (set_attention i (attention_cursor v) v) d, [], [])
  else
    let fresh := filter (λ e, fresh_event (attention_cursor v) e = true) (events i) in
    let cursor := match last fresh with Some newest => Some (ev_id newest) | None => attention_cursor v end in
    let v := set_attention i cursor v in
    let q := foldl (offer_to_devices m (federation v) (agent_marks v)) (device_notifications v) fresh in
    (set_views (set_queue q v) d, [SavedAttention i], fresh ≫= λ e, attention_observed e (broker d)).

Definition device_alerts (m : Moment) (d : Daemon) : Turn :=
  let v := views d in
  let '(q, delivery) := take_ready (instant m) (device_notifications v) in
  let d := set_views (set_queue q v) d in
  match delivery with
  | None => (d, [], [])
  | Some delivery =>
      match nd_pane delivery with
      | None => (d, [], [])
      | Some pane =>
          let notification := Notification (agent_key_for_pane (federation v) pane) (nd_title delivery)
                                (nd_body delivery) in
          (d, [WakesDevices notification], notify_devices notification (broker d))
      end
  end.

(** ** Requests carried out by the daemon itself *)

Definition local_naming (m : Moment) (c request : N) (change : LocalChange) (d : Daemon) : Turn :=
  let a := aliases (views d) in
  let outcome :=
    match change with
    | ChangeName resource (Some label) observed =>
        match Aliases.set resource label observed a with Ok a => Ok (a, true) | Err e => Err e end
    | ChangeName resource None _ => Ok (Aliases.clear resource a)
    | ChangeConfirm resource observed => Ok (Aliases.confirm resource observed a)
    | ChangeFavourite resource =>
        match Aliases.favourite resource a with Ok (a, _) => Ok (a, true) | Err e => Err e end
    | ChangeSlot slot resource =>
        match Aliases.set_slot slot resource a with Ok a => Ok (a, true) | Err e => Err e end
    end in
  match outcome with
  | Err e => (d, refuse c request (alias_message e) d, [])
  | Ok (a, changed) =>
      let d := set_views (set_aliases a (views d)) d in
      let '(d, out, effects) :=
        if changed then then_ (d, [SavedAliases a], []) (project_agent_cards m) else (d, [], []) in
      (d, out ++ applied c request d, effects)
  end.

Definition mark_agent (m : Moment) (c request : N) (agent : AgentId) (mark : AgentMarkRequest) (d : Daemon) : Turn :=
  let '(marks, changed) := AgentMarks.apply agent mark (unix_time_ms m) (agent_marks (views d)) in
  let d := set_views (set_marks marks (views d)) d in
  let '(d, out, effects) :=
    if changed then then_ (d, [SavedMarks marks], []) (project_agent_cards m) else (d, [], []) in
  (d, out ++ applied c request d, effects).

(** The three marks on the attention history. *)
Definition mark_attention (m : Moment) (f : AttentionIndex → AttentionIndex * bool) (d : Daemon) : Turn :=
  let '(i, changed) := f (attention (views d)) in
  let d := set_views (set_attention i (attention_cursor (views d)) (views d)) d in
  if changed then attention_changed m d else (d, [], []).

Definition not_configured (key : TargetSession) : ustr := display_target_session key ++ u " is not a configured target".

Definition run_operation (c request : N) (operation : Operation) (d : Daemon) : list Output :=
  let source_key := operation_session operation in
  let destination_key := destination_session operation in
  match targets (settings d) !! source_key with
  | None => [Queued (OperationDone c request None false (not_configured source_key) None)]
  | Some source =>
      match targets (settings d) !! destination_key with
      | None => [Queued (OperationDone c request None false (not_configured destination_key) None)]
      | Some destination =>
          [Begun (OperationJob c request operation source destination
                    (State.targets (federation (views d)) !! source_key ≫= selected_herdr_bin))]
      end
  end.

(** A job on a target, if there is the target and somebody to tell. *)
Definition begin_job (c request : N) (key : TargetSession) (missing : ustr) (job : Target → Job) (d : Daemon)
    : list Output :=
  match targets (settings d) !! key with
  | None => refuse c request missing d
  | Some target => if bool_decide (c ∈ outboxes d) then [Begun (job target)] else []
  end.

Definition paste_pane_text (c request : N) (pane : PaneId) (text : ustr) (d : Daemon) : list Output :=
  let key := target_session pane in
  match targets (settings d) !! key with
  | None => refuse c request (not_configured key) d
  | Some target =>
      match tgt_socket target with
      | None => refuse c request (display_target_session key
                  ++ u " has no known Herdr API socket, so an atomic paste is not available") d
      | Some _ => [Begun (PasteJob c request pane text target)]
      end
  end.

Definition list_plugin_actions (c request : N) (key : TargetSession) (d : Daemon) : list Output :=
  let generation := from_option connection_generation 0%N (State.targets (federation (views d)) !! key) in
  begin_job c request key (not_configured key) (λ target, PluginActionsJob c request key target generation) d.
Definition get_plugin_run (c request : N) (run : PluginRunId) (d : Daemon) : list Output :=
  begin_job c request (run_target run) (not_configured (run_target run)) (PluginRunJob c request run) d.
Definition browse (c request : N) (key : TargetSession) (root : ustr) (search : option (ustr * bool)) (path : ustr)
    (d : Daemon) : list Output :=
  begin_job c request key (u "no such target")
    (λ target, BrowseJob c request key target root search path) d.

(** Pairing's output: to the client that asked, to whoever watches, to the browser. *)
Definition pairing_turn (asked : option (N * N)) (w : PairingState * list PairingOutput) (d : Daemon) : Turn :=
  foldl (λ t o, then_ t (λ d,
    match o with
    | CodeIssued code expires =>
        (d, from_option (λ cr, tell cr.1 (PairingCode cr.2 code expires (web_url (settings d))) d) [] asked, [])
    | IssueFailed =>
        (d, from_option (λ cr, refuse cr.1 cr.2 (u "failed to open /dev/urandom") d) [] asked, [])
    | Approval attempt name confirmation expires =>
        (d, [], pairing_approval_required attempt name confirmation expires (broker d))
    | Decided attempt approved message => (d, [], pairing_decided attempt approved message (broker d))
    | Answer attempt answer => (d, [Answered attempt answer], [])
    end)) (set_pairing w.1 d, [], []) w.2.

(** ** Carrying effects out *)

(** What the broker is told of a route that opened with less than was asked. *)
Definition report_downgraded (d : Daemon) : Daemon * list Effect :=
  let '(b, effects) := each route_downgraded (broker d, []) (downgraded d) in
  (set_downgraded [] (set_broker b d), effects).

Definition apply_one (m : Moment) (e : Effect) (d : Daemon) : Turn :=
  match e with
  | Send c message => (d, tell c message d, [])
  | Disconnect c _ =>
      on_broker (disconnect c) (set_outboxes (outboxes d ∖ {[c]}) d)
  | OpenRoute pane access cols rows => (open_route m pane access cols rows d, [])
  | RouteUnclaimed pane => on_broker (close_if_unclaimed pane) d
  | CloseRoute pane => (shutdown pane d, [])
  | RouteInput pane payload => (d, send_to_route pane (TerminalInput payload) d, [])
  | RouteResize pane cols rows =>
      (d, send_to_route pane (TerminalResize (N.max cols 1) (N.max rows 1)) d, [])
  | RouteScroll pane direction lines column row modifiers =>
      (d, send_to_route pane (TerminalScroll direction (N.max lines 1) column row modifiers) d, [])
  | DoRunOperation c request operation => (d, run_operation c request operation d, [])
  | DoListPluginActions c request key => (d, list_plugin_actions c request key d, [])
  | DoGetPluginRun c request run => (d, get_plugin_run c request run d, [])
  | DoPastePaneText c request pane text => (d, paste_pane_text c request pane text d, [])
  | DoBeginUpload c request pane mime name length_ =>
      on_transfers (λ w, begin_relay w c request pane mime name length_ (token (random m)) (instant m)) d
  | DoResumeUpload c request transfer pane length_ =>
      on_transfers (λ w, resume_relay w c request transfer pane length_ (instant m)) d
  | DoUploadChunk c request _ | DoFinishUpload c request _ =>
      (d, refuse c request (u "no transfer is in progress") d, [])
  | DoCancelUpload c request => on_transfers (λ _, cancel_upload c request) d
  | DoBeginDownload c request pane path => on_transfers (λ w, begin_download w c request pane path) d
  | DoPullDownload c request chunks_ => on_transfers (λ w, pull_download w c request chunks_) d
  | DoCancelDownload c request => on_transfers (λ _, stop_download c request) d
  | DoTransferBetween c request source path destination name =>
      on_transfers (λ w, begin_between w c request source path destination name) d
  | LocalNaming c request change => local_naming m c request change d
  | DoListRemoteDirectory c request key root path => (d, browse c request key root None path d, [])
  | DoSearchRemoteFiles c request key root query glob =>
      (d, browse c request key root (Some (query, glob)) [] d, [])
  | DoMarkAgent c request agent mark => mark_agent m c request agent mark d
  | DoMarkAttentionSeen pane => mark_attention m (mark_seen_for_pane pane) d
  | DoMarkAllAttentionSeen => mark_attention m mark_all_seen d
  | DoClearSeenAttention => mark_attention m clear_seen d
  | IssuePairingCode c request =>
      pairing_turn (Some (c, request)) (issue_pairing_code (random m) (unix_time_ms m) (pairing d)) d
  | DoDecidePairing attempt approve =>
      pairing_turn None
        (decide_pairing attempt approve (random m) (bool_decide (attempt ∈ closed_browsers m)) (written m)
           (delivered m) add_message (unix_time_ms m) (pairing d)) d
  | SendAttentionHistory c => (d, tell c (AttentionHistory (events (attention (views d)))) d, [])
  end.

(** [Daemon::apply]: the queue of effects, first in first out. *)
Fixpoint apply (fuel : nat) (m : Moment) (pending : list Effect) (d : Daemon) : option (Daemon * list Output) :=
  match pending with
  | [] => Some (d, [])
  | e :: rest =>
      match fuel with
      | O => None
      | S fuel' =>
          let '(d, lowered) := report_downgraded d in
          let '(d, out, effects) := apply_one m e d in
          '(d, more) ← apply fuel' m (rest ++ lowered ++ effects) d;
          Some (d, out ++ more)
      end
  end.

(** ** Inputs *)

Definition target_map (config : Config) : gmap TargetSession Target :=
  foldl (λ m t, <[target_key t := t]> m) ∅ (cfg_targets config).

Definition invalidated_routes (previous next : Config) (routed : list PaneId) : list PaneId :=
  filter (λ pane, cfg_transport previous ≠ cfg_transport next ∨
                  target_map previous !! target_session pane ≠ target_map next !! target_session pane) routed.

Definition invalidate (pane : PaneId) (d : Daemon) : Turn :=
  let '(d, stopped) := shutdown pane d in
  then_ (d, stopped, []) (on_broker (pane_route_closed pane)).

Definition reconfigure (refreshed : option Config) (d : Daemon) : Turn :=
  let s := settings d in
  let d := set_settings {| active := active s; targets := targets s; web_url := web_url s;
                           refresh_inflight := false |} d in
  match refreshed with
  | None => (d, [], [])
  | Some refreshed =>
      if bool_decide (refreshed = active s) then (d, [], [])
      else
        let '(d, out, effects) :=
          foldl (λ w pane, then_ w (invalidate pane)) (d, [], [])
            (invalidated_routes (active s) refreshed (keys (processes d))) in
        (set_settings {| active := refreshed; targets := target_map refreshed; web_url := web_url s;
                         refresh_inflight := false |} d,
         out ++ [RestartsFederation refreshed], effects)
  end.

Definition start_refresh (d : Daemon) : Daemon * list Output :=
  let s := settings d in
  if negb (has_config_path (pairing d)) || refresh_inflight s then (d, [])
  else (set_settings {| active := active s; targets := targets s; web_url := web_url s;
                        refresh_inflight := true |} d, [ReadsConfig]).

(** What an input leads to before any effect is carried out. *)
Definition receive (m : Moment) (i : Input) (d : Daemon) : Turn :=
  match i with
  | Connected =>
      let '(b, c) := connect (broker d) in
      let d := set_broker b d in
      if replies m then (set_outboxes ({[c]} ∪ outboxes d) d, [], [])
      else on_broker (disconnect c) d
  | Received c message => on_broker (Broker.handle c message) d
  | Disconnected c =>
      let d := set_outboxes (outboxes d ∖ {[c]}) d in
      then_ (on_transfers (λ _, client_left c) d) (on_broker (disconnect c))
  | UploadOffered c request => (set_transfers (upload_offered c request (transfers d)) d, [], [])
  | NotificationsDue => device_alerts m d
  | Federation st =>
      let d := set_views (set_federation st (views d)) d in
      then_ (then_ (on_broker (federation_updated st) d) (observe_attention m)) (project_agent_cards m)
  | Frame pane sequence_ width_ height_ full payload =>
      on_broker (pane_frame pane sequence_ width_ height_ full payload) d
  | RouteClosed pane =>
      let '(d, stopped) := shutdown pane d in
      then_ (d, stopped, []) (on_broker (pane_route_closed pane))
  | OperationDone c request refresh applied_ message plugin_run =>
      let asks := match refresh with Some key => if applied_ then [RefreshesTarget key] else [] | None => [] end in
      (d, asks, operation_completed c request applied_ message plugin_run (broker d))
  | RelayFinished c request transfer outcome =>
      on_transfers (λ w, relay_finished w c request transfer outcome refusal (instant m)) d
  | DownloadEnded c request => (set_transfers (download_ended c request (transfers d)) d, [], [])
  | ResumeOffset c request transfer staged =>
      on_transfers (λ w, resume_offset w c request transfer staged) d
  | PairingRequested => pairing_turn None (pairing_requested (unix_time_ms m) (pairing d)) d
  | Shutdown => (d, [], [])
  | RefreshDue =>
      let '(d, out) := start_refresh d in
      then_ (then_ (d, out, []) (on_transfers (λ w, sweep_retained w (instant m))))
        (λ d, pairing_turn None (sweep_pairing_approvals (closed_browsers m) (unix_time_ms m) (pairing d)) d)
  | Reconfigured refreshed => reconfigure refreshed d
  end.

(** The queue of an upload that nothing claimed does not outlive its message. *)
Definition drop_offer (i : Input) (d : Daemon) : Daemon :=
  match i with
  | Received c (BeginUpload request _ _ _ _) | Received c (ResumeUpload request _ _ _) =>
      set_transfers (Retention.set_offers (offers (transfers d) ∖ {[(c, request)]}) (transfers d)) d
  | _ => d
  end.

Definition handle (fuel : nat) (m : Moment) (i : Input) (d : Daemon) : option (Daemon * list Output) :=
  let '(d, out, effects) := receive m i d in
  '(d, more) ← apply fuel m effects d;
  Some (drop_offer i d, out ++ more).

(** The loop of [run]: one input after the other until it is told to stop, with what
    each led to. *)
Fixpoint run (fuel : nat) (l : list (Moment * Input)) (d : Daemon) : option (Daemon * list (Input * list Output)) :=
  match l with
  | [] | (_, Shutdown) :: _ => Some (d, [])
  | (m, i) :: l =>
      '(d, out) ← handle fuel m i d;
      '(d, rest) ← run fuel l d;
      Some (d, (i, out) :: rest)
  end.

(** What [run] forgets of the local names: those of targets no longer configured. *)
Definition forget_stale (config : Config) (a : Aliases) : Aliases :=
  foldl (λ a target, (forget_target target a).1) a
    (filter (λ target, target_map config !! target = None) (set_iter (Aliases.targets a))).

(** [run] before its first input, without what is on disk. *)
Definition Daemon_new (version : ustr) (config : Config) (url : option ustr) (p : PairingState)
    (a : AttentionIndex) (marks : AgentMarks) (names_ : Aliases) : Daemon := {|
  broker := Broker_new version [u "terminal"; u "plugin_actions"; u "agent_cards"]
              (from_option id default_quick_replies (cfg_quick_replies config));
  outboxes := ∅; processes := ∅; downgraded := [];
  views := {| federation := FederationState_default; attention := a;
              attention_cursor := ev_id <$> last (events a); card_index := AgentCardIndex_default;
              agent_marks := marks; aliases := forget_stale config names_;
              device_notifications :=
                let n := cfg_notifications config in
                NotificationQueue_new
                  (Build_NotificationsConfig (devices n) (needs_attention n) (completed n) (disappeared n)
                     (Config.working n) (status_changed n) (devices n) (minimum_interval_seconds n)
                     (command_timeout_seconds n)) None |};
  settings := {| active := config; targets := target_map config; web_url := url; refresh_inflight := false |};
  transfers := Transfers_default;
  pairing := p;
|}.
End daemon.
