(* ===== verification/DaemonFacts.v ===== *)
(** The daemon's loop comes to rest: the effects an input leads to are carried out
    and what they lead to as well, and there is an end of it. *)

From S2P Require Import Prelude Text Model Config State Attention AgentMarks Aliases AgentCards.
From S2P Require Import Screen Operation Protocol Broker BrokerInv BrokerLeases Notifications Pairing.
From S2P Require Import Clipboard Staging Retention Daemon.
From Stdlib Require Import Relation_Operators Wellfounded.Lexicographic_Product.

(** How far an effect can lead: a disconnection releases panes; a route that opens
    may open with less; some make the broker tell its clients; the rest ends there. *)
Definition rank (e : Effect) : nat :=
  match e with
  | Disconnect _ _ => 3
  | OpenRoute _ _ _ _ => 2
  | RouteUnclaimed _ | LocalNaming _ _ _ | DoMarkAgent _ _ _ _ | DoMarkAttentionSeen _ | DoMarkAllAttentionSeen
  | DoClearSeenAttention | IssuePairingCode _ _ | DoDecidePairing _ _ => 1
  | _ => 0
  end.
Definition of_rank (k : nat) (l : list Effect) : nat := length (filter (λ e, rank e = k) l).

Lemma of_rank_app k l l' : of_rank k (l ++ l') = of_rank k l + of_rank k l'.
Proof. unfold of_rank. by rewrite filter_app, length_app. Qed.
Lemma of_rank_cons k e l : of_rank k (e :: l) = (if rank e =? k then 1 else 0) + of_rank k l.
Proof. unfold of_rank. rewrite filter_cons. case_decide; destruct (Nat.eqb_spec (rank e) k); done. Qed.
Lemma of_rank_0 k l : Forall (λ e, rank e ≠ k) l → of_rank k l = 0.
Proof.
  intros Hl. unfold of_rank. induction Hl as [|e l He _ IH]; [done|].
  rewrite filter_cons_False by done. exact IH.
Qed.

(** Effects that lead no further. *)
Definition final (l : list Effect) : Prop := Forall (λ e, rank e = 0) l.
Lemma final_app l l' : final l → final l' → final (l ++ l').
Proof. apply Forall_app_2. Qed.
Lemma final_sends (f : N → ServerMessage) (k : list N) : final ((λ c, Send c (f c)) <$> k).
Proof. by apply Forall_fmap, Forall_true. Qed.
Lemma final_of_rank k l : final l → k ≠ 0 → of_rank k l = 0.
Proof. intros Hl Hk. apply of_rank_0. eapply Forall_impl; [exact Hl|]. cbn. congruence. Qed.

Section loop.
Context {vt : Vt100} {sha : Sha256} {toml : DeviceToml}.
Context (alias_message : AliasError → ustr) (refusal : Refusal → ustr) (add_message : AddDeviceError → ustr).
Abbreviation apply_one := (apply_one alias_message add_message).
Abbreviation apply := (apply alias_message add_message).
Abbreviation handle := (handle alias_message refusal add_message).

(** ** What each call yields *)

Lemma broadcast_final message (b : Broker) : final (broadcast_state message b).
Proof. apply (final_sends (λ _, message)). Qed.
Lemma downgraded_final pane (b : Broker) : final (route_downgraded pane b).2.
Proof.
  unfold route_downgraded. destruct (routes b !! pane); [|constructor]. destruct (_ && _); [constructor|].
  apply (final_sends (λ _, PaneLease pane Observe)).
Qed.
Lemma cards_final p (b : Broker) : final (agent_cards_updated p b).2.
Proof.
  unfold agent_cards_updated. case_bool_decide; [constructor|]. apply (final_sends (λ _, AgentCardsMessage p)).
Qed.
Lemma unclaimed_final pane (b : Broker) : final (close_if_unclaimed pane b).2.
Proof.
  unfold close_if_unclaimed. destruct (routes b !! pane) as [r|]; [|constructor].
  destruct (rt_unclaimed r); by repeat constructor.
Qed.

Lemma each_yields {A} (f : A → Broker → Broker * list Effect) (P : Effect → Prop) l w :
  (∀ a b, Forall P (f a b).2) → Forall P w.2 → Forall P (each f w l).2.
Proof.
  intros Hf. revert w. induction l as [|a l IH]; intros w Hw; [done|]. cbn. apply IH.
  specialize (Hf a w.1). destruct (f a w.1). cbn in *. by apply Forall_app.
Qed.

Lemma release_pane_ranks c pane (b : Broker) : Forall (λ e, rank e ≠ 3) (release_pane c pane b).2.
Proof.
  unfold release_pane. destruct (routes b !! pane) as [r|]; [|constructor].
  case_bool_decide; [by repeat constructor|]. case_bool_decide; [|constructor]. cbn [negb].
  destruct (routes _ !! pane) as [r'|]; [|constructor]. unfold drop_control. cbn [snd].
  apply Forall_app_2; [by case_bool_decide; repeat constructor|]. by apply Forall_fmap, Forall_true.
Qed.
Lemma disconnect_ranks c (b : Broker) : Forall (λ e, rank e ≠ 3) (disconnect c b).2.
Proof.
  unfold disconnect. destruct (clients b !! c); [|constructor].
  apply each_yields; [intros; apply release_pane_ranks|constructor].
Qed.

Lemma report_spec d :
  downgraded (report_downgraded d).1 = [] ∧ final (report_downgraded d).2 ∧
  (downgraded d = [] → (report_downgraded d).2 = []).
Proof.
  unfold report_downgraded. destruct (each route_downgraded _ _) as [b es] eqn:E. cbn [fst snd]. split; [done|].
  split.
  - change es with (b, es).2. rewrite <- E. apply each_yields; [intros; apply downgraded_final|constructor].
  - intros Hd. rewrite Hd in E. by injection E as _ <-.
Qed.

Lemma project_spec m d :
  final (project_agent_cards m d).2 ∧ downgraded (project_agent_cards m d).1.1 = downgraded d.
Proof.
  unfold project_agent_cards. destruct (expire _ _) as [marks expired]. destruct (project _ _ _ _) as [index p].
  unfold on_broker. pose proof (cards_final p (broker d)) as Hf. cbn [broker set_views] in *.
  destruct (agent_cards_updated p (broker d)). done.
Qed.

Lemma pairing_turn_spec asked w d :
  final (pairing_turn asked w d).2 ∧ downgraded (pairing_turn asked w d).1.1 = downgraded d.
Proof.
  unfold pairing_turn.
  assert (∀ t : Turn, final t.2 → downgraded t.1.1 = downgraded d →
    ∀ l, let r := foldl (λ t o, then_ t (λ d,
      match o with
      | CodeIssued code expires =>
          (d, from_option (λ cr, tell cr.1 (PairingCode cr.2 code expires (web_url (settings d))) d) [] asked, [])
      | IssueFailed => (d, from_option (λ cr, refuse cr.1 cr.2 (u "failed to open /dev/urandom") d) [] asked, [])
      | Approval attempt name confirmation expires =>
          (d, [], pairing_approval_required attempt name confirmation expires (broker d))
      | Decided attempt approved message => (d, [], pairing_decided attempt approved message (broker d))
      | Answer attempt answer => (d, [Answered attempt answer], [])
      end)) t l in final r.2 ∧ downgraded r.1.1 = downgraded d) as Hgen;
    [|apply Hgen; [constructor|done]].
  intros t Ht Hd l. revert t Ht Hd. induction l as [|o l IH]; intros [[d1 out] es] Ht Hd; [done|].
  cbn [foldl]. apply IH; destruct o; cbn [then_ fst snd] in *; rewrite ?app_nil_r; try done;
    (apply final_app; [done|apply broadcast_final]).
Qed.

(** What carrying an effect out can add to the queue. *)
Lemma apply_one_yields m e d :
  let '(d', _, es) := apply_one m e d in
  match rank e with
  | 0 => es = [] ∧ downgraded d' = downgraded d
  | 1 => final es ∧ downgraded d' = downgraded d
  | 2 => es = []
  | _ => Forall (λ e, rank e ≠ 3) es
  end.
Proof.
  assert (∀ f, let '(d', _, es) := on_transfers f d in es = [] ∧ downgraded d' = downgraded d) as Htransfers.
  { intros f. unfold on_transfers. by destruct (f _ _). }
  assert (∀ f, let '(d', _, es) := mark_attention m f d in final es ∧ downgraded d' = downgraded d) as Hmark.
  { intros f. unfold mark_attention. destruct (f _) as [i changed]. destruct changed; [|by split; [constructor|]].
    unfold attention_changed, then_. set (d1 := set_views _ d).
    destruct (project_spec m d1) as [Hf Hd]. destruct (project_agent_cards m d1) as [[d2 out] es]. cbn in *.
    split; [|done]. apply final_app; [apply broadcast_final|done]. }
  assert (∀ asked w, let '(d', _, es) := pairing_turn asked w d in final es ∧ downgraded d' = downgraded d) as Hpair.
  { intros asked w. pose proof (pairing_turn_spec asked w d) as Hp. by destruct (pairing_turn asked w d) as [[??]?]. }
  destruct e; cbn [apply_one rank]; try done; try apply Htransfers; try apply Hmark; try apply Hpair.
  - unfold on_broker. pose proof (disconnect_ranks client (broker d)). cbn [broker set_outboxes] in *.
    by destruct (disconnect _ _).
  - unfold open_route. destruct (shutdown _ _). destruct (route_target _ _); [|done].
    destruct (spawns _ _ _); [done|]. by destruct (_ && _).
  - unfold on_broker. pose proof (unclaimed_final pane (broker d)). by destruct (close_if_unclaimed _ _).
  - unfold mark_agent. destruct (AgentMarks.apply _ _ _ _) as [marks changed]. destruct changed; [|by split; [constructor|]].
    set (d1 := set_views _ d). destruct (project_spec m d1) as [Hf Hd]. unfold then_.
    by destruct (project_agent_cards m d1) as [[d2 out] es].
  - unfold local_naming. destruct (match change with ChangeName _ _ _ => _ | _ => _ end) as [[a changed]|er];
      [|by split; [constructor|]].
    destruct changed; [|by split; [constructor|]]. set (d1 := set_views _ d). destruct (project_spec m d1) as [Hf Hd]. unfold then_.
    by destruct (project_agent_cards m d1) as [[d2 out] es].
Qed.

(** ** Termination *)

(** Disconnections first, then routes to open, then routes to report, then what
    makes the broker tell its clients, then the rest. *)
Definition load (pending : list Effect) (d : Daemon) : nat * (nat * (nat * (nat * nat))) :=
  (of_rank 3 pending,
   (of_rank 2 pending, (length (downgraded d), (of_rank 1 pending, of_rank 0 pending)))).
Abbreviation lighter := (slexprod _ _ lt (slexprod _ _ lt (slexprod _ _ lt (slexprod _ _ lt lt)))).

Lemma lighter_wf : well_founded lighter.
Proof. repeat apply wf_slexprod; apply Nat.lt_wf_0. Qed.

Lemma apply_one_lighter m e rest d :
  let '(d1, lowered) := report_downgraded d in
  let '(d2, _, es) := apply_one m e d1 in
  lighter (load (rest ++ lowered ++ es) d2) (load (e :: rest) d).
Proof.
  destruct (report_spec d) as (Hd1 & Hlow & Hnone). destruct (report_downgraded d) as [d1 lowered]. cbn [fst snd] in *.
  pose proof (apply_one_yields m e d1) as Hy. destruct (apply_one m e d1) as [[d2 out] es].
  assert (∀ k, k ≠ 0 → of_rank k lowered = 0) as Hl by (intros; by apply final_of_rank).
  unfold load. rewrite !of_rank_app, !of_rank_cons, !Hl by done.
  destruct (rank e) as [|[|[|k]]] eqn:Er.
  - destruct Hy as [-> ->]. cbn. rewrite !Nat.add_0_r. do 2 apply right_slex. rewrite Hd1.
    destruct (downgraded d) as [|pane l]; [|apply left_slex; cbn; lia].
    rewrite Hnone by done. do 2 apply right_slex. change (of_rank 0 []) with 0. cbn. lia.
  - destruct Hy as [Hes ->]. rewrite !(final_of_rank _ es) by done. cbn. rewrite !Nat.add_0_r.
    do 2 apply right_slex. rewrite Hd1. destruct (downgraded d) as [|pane l]; [|apply left_slex; cbn; lia].
    apply right_slex, left_slex. lia.
  - subst es. cbn. rewrite !Nat.add_0_r. apply right_slex, left_slex. lia.
  - assert (k = 0) as -> by (destruct e; cbn in Er; congruence).
    rewrite (of_rank_0 3 es) by done. cbn. rewrite !Nat.add_0_r. apply left_slex. lia.
Qed.

Lemma apply_terminates m pending d : ∃ fuel w, apply fuel m pending d = Some w.
Proof.
  remember (load pending d) as k eqn:Hk. revert pending d Hk.
  induction (lighter_wf k) as [k _ IH]. intros [|e rest] d ->; [by exists 0, (d, [])|].
  pose proof (apply_one_lighter m e rest d) as Hless.
  destruct (report_downgraded d) as [d1 lowered] eqn:Er. destruct (apply_one m e d1) as [[d2 out] es] eqn:Ea.
  destruct (IH _ Hless _ _ eq_refl) as (fuel & [d3 more] & Hf).
  exists (S fuel). eexists. cbn [Daemon.apply]. rewrite Er. cbn [fst snd]. rewrite Ea, Hf. done.
Qed.

Lemma apply_more_fuel fuel fuel' m pending d w :
  fuel ≤ fuel' → apply fuel m pending d = Some w → apply fuel' m pending d = Some w.
Proof.
  revert fuel' pending d w. induction fuel as [|fuel IH]; intros fuel' [|e rest] d w Hle;
    [by destruct fuel'|done|by destruct fuel'|].
  destruct fuel' as [|fuel']; [lia|]. cbn [Daemon.apply].
  destruct (report_downgraded d) as [d1 lowered]. destruct (apply_one m e d1) as [[d2 out] es].
  destruct (apply fuel m _ d2) as [[d3 more]|] eqn:E; [|done].
  rewrite (IH fuel' _ _ (d3, more)) by (lia || done). done.
Qed.

(** C4. Every input is dealt with: whatever state the daemon is in, whatever the
    input and whatever the outside answers, the queue of effects runs empty. There is
    a fuel that is enough, and from there on the result does not depend on it. *)
Theorem handle_terminates m i d :
  ∃ fuel w, ∀ fuel', fuel ≤ fuel' → handle fuel' m i d = Some w.
Proof.
  unfold Daemon.handle. destruct (receive refusal m i d) as [[d1 out] es].
  destruct (apply_terminates m es d1) as (fuel & [d2 more] & Hf).
  exists fuel, (drop_offer i d2, out ++ more). intros fuel' Hle.
  by rewrite (apply_more_fuel _ _ _ _ _ _ Hle Hf).
Qed.
End loop.
