(* ===== verification/DaemonServing.v ===== *)
(** What the daemon's processes and messages say of the broker's routes: behind
    every route there is the process the broker believes in, or the news that it
    ended is on its way; and every subscriber was last told who controls.

    Concrete runs of the daemon: a target, two clients on one of its panes, and what
    goes wrong on the way. *)

From S2P Require Import Prelude Model Json Text Config State Examples Attention AgentMarks Aliases AgentCards.
From S2P Require Import Screen ScreenFacts Operation Protocol Broker BrokerInv BrokerLeases Notifications.
From S2P Require Import Pairing PairingFacts Clipboard Staging Retention Daemon DaemonFacts.

Section calls.
Context {vt : Vt100}.
Implicit Types (b : Broker) (c : N) (pane : PaneId) (e : Effect) (l : list Effect).

(** ** The clients a call leaves *)

Definition who b : gset N := dom (clients b).

Lemma who_alter f c b : who (alter_client f c b) = who b.
Proof. unfold who, alter_client. apply dom_alter_L. Qed.
Lemma who_shape b b' : same_shape b b' → who b' = who b.
Proof.
  intros [_ _ F _]. apply set_eq. intros c. unfold who. rewrite !elem_of_dom. by apply is_Some_flags.
Qed.
Lemma who_each {A} (f : A → Broker → Broker * list Effect) w (k : list A) :
  (∀ a b, who (f a b).1 = who b) → who (each f w k).1 = who w.1.
Proof.
  intros Hf. revert w. induction k as [|a k IH]; intros w; [done|]. cbn. unfold each in IH. rewrite IH.
  specialize (Hf a w.1). by destruct (f a w.1).
Qed.
Lemma who_release c pane b : who (release_pane c pane b).1 = who b.
Proof.
  unfold release_pane. destruct (routes b !! pane) as [r|]; [|done]. case_bool_decide; [done|].
  set (b1 := release_screen_if_unwatched _ _).
  assert (who b1 = who b) as H1 by (etrans; [apply (who_shape _ _ (release_screen_shape _ _))|done]).
  destruct (negb _); [done|]. destruct (routes b1 !! pane) as [r'|]; [|done]. by destruct (drop_control _ _).
Qed.
Lemma who_disconnect c b : who (disconnect c b).1 = who b ∖ {[c]}.
Proof.
  unfold disconnect. destruct (clients b !! c) eqn:E.
  - rewrite who_each by (intros; apply who_release). unfold who. cbn. by rewrite dom_delete_L.
  - cbn. unfold who. apply not_elem_of_dom in E. set_solver.
Qed.
Lemma who_forget k pane b : who (foldl (λ b c, alter_client (forget_pane pane) c b) b k) = who b.
Proof. revert b. induction k as [|c k IH]; intros b; [done|]. cbn [foldl]. rewrite IH. apply who_alter. Qed.
Lemma who_closed pane b : who (pane_route_closed pane b).1 = who b.
Proof. unfold pane_route_closed. destruct (routes b !! pane); [|done]. cbn [fst].
  etrans; [apply who_forget|done]. Qed.
Lemma who_downgraded pane b : who (route_downgraded pane b).1 = who b.
Proof. unfold route_downgraded. destruct (routes b !! pane); [|done]. by destruct (_ && _). Qed.
Lemma who_unclaimed pane b : who (close_if_unclaimed pane b).1 = who b.
Proof. unfold close_if_unclaimed. destruct (routes b !! pane) as [r|]; [|done]. by destruct (rt_unclaimed r). Qed.
Lemma who_cards p b : who (agent_cards_updated p b).1 = who b.
Proof. unfold agent_cards_updated. by case_bool_decide. Qed.
Lemma who_federation st b : who (federation_updated st b).1 = who b.
Proof.
  unfold federation_updated, close_vanished_routes.
  pose proof (who_each pane_route_closed (set_state b st, [])
    (filter (λ pane, pane_is_gone st pane = true) (keys (routes (set_state b st)))) who_closed) as Hw.
  change (state (set_state b st)) with st. destruct (each _ _ _). exact Hw.
Qed.
Lemma who_handle c message b : who (Broker.handle c message b).1 = who b.
Proof.
  unfold Broker.handle. destruct (clients b !! c) as [s|]; [|done]. destruct (cl_greeted s).
  - destruct message; cbn [dispatch fst]; try done; try apply who_alter.
    + unfold subscribe_pane. destruct (clients b !! c); [|done]. set (b1 := alter_client _ c b).
      assert (who b1 = who b) as H1 by apply who_alter.
      pose proof (grant_spec c pane access cols rows b1) as Hg.
      destruct (grant c pane access cols rows b1) as [[b2 es] granted]. destruct Hg as (r & -> & _).
      pose proof (who_shape _ _ (first_screen_shape c pane representation (put_route pane r b1))) as H2.
      destruct (first_screen _ _ _ _). cbn [fst] in *. by rewrite H2.
    + apply who_shape, ack_shape.
    + unfold unsubscribe_pane. destruct (subscription b c pane); [|done]. rewrite who_release. apply who_alter.
    + unfold take_control. destruct (clients b !! c) as [s'|]; [|done]. destruct (cl_panes s' !! pane); [|done].
      destruct (routes b !! pane); [|done]. destruct (bool_decide _); [done|]. destruct (_ && _); [done|].
      destruct (resize_for_control _ _ _ _). by destruct (bool_decide _).
    + unfold resize_pane. destruct (holds_control c pane b); [|done]. cbn [fst].
      unfold alter_route. change (who (alter_client (alter_sub (set_sub_size cols rows) pane) c b) = who b).
      apply who_alter.
  - unfold handshake. destruct message; try done. destruct (_ =? _)%N; [apply who_alter|done].
Qed.

(** ** The routes a call asks to open *)

Definition opens_control e : bool := match e with OpenRoute _ Control _ _ => true | _ => false end.
Definition opens l : nat := length (filter (λ e, opens_control e = true) l).
Definition ends l : Prop := ∀ e, last l = Some e → rank e ≠ 2.
Definition tame l : Prop := opens l = 0 ∧ ends l.

Lemma opens_app l l' : opens (l ++ l') = opens l + opens l'.
Proof. unfold opens. by rewrite filter_app, length_app. Qed.
Lemma opens_cons e l : opens (e :: l) = (if opens_control e then 1 else 0) + opens l.
Proof. unfold opens. rewrite filter_cons. by destruct (opens_control e). Qed.
Lemma ends_app l l' : ends l → ends l' → ends (l ++ l').
Proof.
  intros H1 H2 e. destruct l' as [|x l' _] using rev_ind; [rewrite app_nil_r; apply H1|].
  rewrite app_assoc, last_snoc. intros [= ->]. apply H2. by rewrite last_snoc.
Qed.
Lemma ends_snoc l e : rank e ≠ 2 → ends (l ++ [e]).
Proof. intros He e'. rewrite last_snoc. by intros [= <-]. Qed.
Lemma tame_app l l' : tame l → tame l' → tame (l ++ l').
Proof. intros [H1 H2] [H3 H4]. split; [rewrite opens_app; lia|by apply ends_app]. Qed.
Lemma tame_nil : tame [].
Proof. by split. Qed.
Lemma tame_no_opens l : Forall (λ e, rank e ≠ 2) l → tame l.
Proof.
  intros Hl. split.
  - induction Hl as [|e l He _ IH]; [done|]. rewrite opens_cons, IH. by destruct e.
  - intros e He. apply last_Some_elem_of in He. rewrite Forall_forall in Hl. by apply Hl.
Qed.
Lemma tame_mute l : mute l → tame l.
Proof. intros Hl. apply tame_no_opens. eapply Forall_impl; [exact Hl|]. by intros []. Qed.
Lemma tame_final l : final l → tame l.
Proof. intros Hl. apply tame_no_opens. eapply Forall_impl; [exact Hl|]. cbn. congruence. Qed.
Lemma tame_each {A} (f : A → Broker → Broker * list Effect) w (k : list A) :
  (∀ a b, tame (f a b).2) → tame w.2 → tame (each f w k).2.
Proof.
  intros Hf. revert w. induction k as [|a k IH]; intros w Hw; [done|]. cbn. apply IH.
  specialize (Hf a w.1). destruct (f a w.1). cbn in *. by apply tame_app.
Qed.

Lemma tame_release c pane b : tame (release_pane c pane b).2.
Proof.
  unfold release_pane. destruct (routes b !! pane) as [r|]; [|apply tame_nil].
  case_bool_decide as Hleft; [by apply tame_no_opens; repeat constructor|].
  destruct (negb _); [apply tame_nil|]. rewrite release_screen_routes. unfold put_route at 1. cbn [routes set_routes].
  rewrite lookup_insert_eq. set (r' := set_subscribers _ _ r).
  assert (set_iter (rt_subscribers r') ≠ []) as Hne.
  { intros Hnil. apply Hleft, elem_of_equiv_empty_L. intros x Hx.
    assert (x ∈ set_iter (rt_subscribers r')) as Hin by (by rewrite elem_of_set_iter).
    rewrite Hnil in Hin. by apply elem_of_nil in Hin. }
  pose proof (drop_control_effects pane r') as Hd. destruct (drop_control pane r') as [r2 es]. cbn [snd] in *. subst es.
  split.
  - rewrite opens_app. replace (opens (_ <$> _)) with 0; [by case_bool_decide|].
    symmetry. apply tame_no_opens. by apply Forall_fmap, Forall_true.
  - intros e. destruct (set_iter (rt_subscribers r')) as [|x k _] using rev_ind; [done|].
    rewrite fmap_app. cbn [fmap list_fmap]. rewrite app_assoc, last_snoc. by intros [= <-].
Qed.

Lemma tame_disconnect c b : tame (disconnect c b).2.
Proof.
  unfold disconnect. destruct (clients b !! c); [|apply tame_nil].
  apply tame_each; [intros; apply tame_release|apply tame_nil].
Qed.

Lemma handle_opens c message b :
  opens (Broker.handle c message b).2 ≤ 1 ∧ ends (Broker.handle c message b).2.
Proof.
  assert (∀ l, tame l → opens l ≤ 1 ∧ ends l) as Htame by (intros l [-> He]; split; [lia|done]).
  unfold Broker.handle. destruct (clients b !! c) as [s|]; [|by apply Htame, tame_nil]. destruct (cl_greeted s).
  2: { apply Htame, tame_no_opens. unfold handshake. destruct message; try destruct (_ =? _)%N; by repeat constructor. }
  destruct message; cbn [dispatch snd];
    try (apply Htame, tame_mute; first [apply guarded_mute|apply forwarded_mute|apply ack_mute|by repeat constructor]).
  - unfold subscribe_pane. destruct (clients b !! c); [|by apply Htame, tame_nil]. set (b1 := alter_client _ c b).
    assert (opens (grant c pane access cols rows b1).1.2 ≤ 1) as Hg.
    { unfold grant. destruct (routes b1 !! pane) as [r|]; [|destruct access; vm_compute; lia].
      destruct (_ && _); [|destruct (bool_decide _); vm_compute; lia].
      unfold resize_for_control. destruct (_ && _); vm_compute; lia. }
    destruct (grant _ _ _ _ _ _) as [[b2 es] granted]. cbn [fst snd] in Hg.
    assert (opens (first_screen c pane representation b2).2 = 0) as Hf.
    { unfold first_screen. destruct (screens b2 !! pane); [|done]. by case_bool_decide. }
    destruct (first_screen _ _ _ _) as [b3 shown]. cbn [snd] in *. rewrite app_assoc. split; [|by apply ends_snoc].
    rewrite !opens_app, Hf. change (opens [Send c (PaneLease pane granted)]) with 0. lia.
  - unfold unsubscribe_pane. destruct (subscription b c pane); [|by apply Htame, tame_nil].
    apply Htame, tame_release.
  - unfold take_control. destruct (clients b !! c) as [s'|]; [|by apply Htame, tame_nil].
    destruct (cl_panes s' !! pane) as [sub|]; [|by apply Htame, tame_no_opens; repeat constructor].
    destruct (routes b !! pane) as [r|]; [|by apply Htame, tame_nil]. destruct (bool_decide _); [by apply Htame, tame_nil|].
    destruct (_ && _); [by apply Htame, tame_no_opens; repeat constructor|].
    assert (opens (resize_for_control pane (sub_cols sub) (sub_rows sub) (set_control (Some c) r)).2 = 0) as Hr.
    { unfold resize_for_control. by destruct (_ && _). }
    destruct (resize_for_control _ _ _ _) as [r1 resized]. cbn [snd] in *.
    destruct (bool_decide (rt_access r1 = Control)); cbn [snd]; rewrite ?app_assoc; (split; [|by apply ends_snoc]);
      rewrite !opens_app, Hr; destruct (rt_control r); vm_compute; lia.
  - apply Htame, tame_no_opens. unfold resize_pane. destruct (holds_control c pane b); by repeat constructor.
  - apply Htame, tame_no_opens. cbn. destruct (agent_cards b); by repeat constructor.
Qed.
End calls.

(** ** The invariant *)

(** What the outboxes were last given about leases, and the routes whose end is
    on its way to the loop. *)
Definition heard_one (t : leases) (o : Output) : leases :=
  match o with Said c (PaneLease pane access) => <[(c, pane) := access]> t | _ => t end.
Definition heard (out : list Output) (t : leases) : leases := foldl heard_one t out.
Definition closing_pane (o : Output) : option PaneId :=
  match o with Queued (RouteClosed pane) => Some pane | _ => None end.
Definition closings (out : list Output) : gset PaneId := list_to_set (omap closing_pane out).

Lemma heard_app l1 l2 t : heard (l1 ++ l2) t = heard l2 (heard l1 t).
Proof. apply foldl_app. Qed.
Lemma closings_app l1 l2 : closings (l1 ++ l2) = closings l1 ∪ closings l2.
Proof. unfold closings. by rewrite omap_app, list_to_set_app_L. Qed.

(** Output that says nothing of leases and of routes that ended. *)
Definition plain (o : Output) : Prop :=
  match o with Said _ (PaneLease _ _) | Queued (RouteClosed _) => False | _ => True end.
Lemma plain_heard out t : Forall plain out → heard out t = t.
Proof.
  intros Ho. unfold heard. revert t. induction Ho as [|o out Hp _ IH]; intros t; [done|]. cbn [foldl].
  rewrite IH. destruct o; try done. by destruct message.
Qed.
Lemma plain_closings out : Forall plain out → closings out = ∅.
Proof.
  intros Ho. unfold closings. induction Ho as [|o out Hp _ IH]; [done|]. cbn [omap list_omap].
  destruct o; try exact IH. by destruct i.
Qed.

Section serving.
Context {vt : Vt100}.
Implicit Types (b : Broker) (c n : N) (pane : PaneId) (e : Effect) (l pend : list Effect).
Implicit Types (t : leases) (m procs : gmap PaneId TerminalAccess) (cl : gset PaneId) (boxes : gset N) (down : list PaneId).

Record loop_ok n t cl pend b boxes procs down : Prop := {
  lo_broker : broker_inv n b;
  lo_boxes : who b = boxes;
  lo_told : told_ok b (hear pend t);
  lo_ideal : ∃ m, served_ok b (perform pend m) ∧ ∀ pane, pane ∉ cl →
    m !! pane = procs !! pane ∨
    (pane ∈ down ∧ m !! pane = Some Control ∧ procs !! pane = Some Observe);
  lo_down : ∀ pane, pane ∈ down → procs !! pane = Some Observe;
  lo_opens : opens pend ≤ (if decide (down = []) then 1 else 0);
  lo_ends : (pend = [] → down = []) ∧ ends pend;
}.

Lemma loop_mono n t cl cl' pend b boxes procs down :
  cl ⊆ cl' → loop_ok n t cl pend b boxes procs down → loop_ok n t cl' pend b boxes procs down.
Proof.
  intros Hcl [H1 H2 H3 (m & Hs & Hm) H5 H6 [H7 H8]]. split; try done.
  exists m. split; [done|]. intros pane Hp. apply Hm. set_solver.
Qed.

(** A call of the broker that no process ends with. *)
Lemma loop_call i n n' t cl pend b boxes boxes' procs down :
  (∀ m, suffer i m = m) → broker_inv n' (step i b).1 → who (step i b).1 = boxes' → ends (step i b).2 →
  opens pend + opens (step i b).2 ≤ (if decide (down = []) then 1 else 0) →
  loop_ok n t cl pend b boxes procs down → loop_ok n' t cl (pend ++ (step i b).2) (step i b).1 boxes' procs down.
Proof.
  intros Hi Hb Hw He Ho [H1 H2 H3 (m & Hs & Hm) H5 H6 [H7 H8]].
  destruct (step_desk i b (hear pend t) (perform pend m) (conj H3 Hs)) as [Ht Hserved]. rewrite Hi in Hserved.
  split; [done|done|by rewrite hear_app| |done|by rewrite opens_app|].
  - exists m. split; [by rewrite perform_app|done].
  - split; [|by apply ends_app]. intros [? _]%app_eq_nil. by apply H7.
Qed.

(** Effects that announce nothing and ask for nothing. *)
Lemma loop_mute n t cl pend es b boxes procs down :
  mute es → loop_ok n t cl pend b boxes procs down → loop_ok n t cl (pend ++ es) b boxes procs down.
Proof.
  intros Hes [H1 H2 H3 (m & Hs & Hm) H5 H6 [H7 H8]]. destruct (tame_mute _ Hes) as [Ho He].
  split; [done|done| | |done| |].
  - by rewrite hear_app, mute_hear.
  - exists m. split; [by rewrite perform_app, (mute_perform es)|done].
  - rewrite opens_app. lia.
  - split; [|by apply ends_app]. intros [? _]%app_eq_nil. by apply H7.
Qed.

Lemma ends_tail e l : ends (e :: l) → ends l.
Proof. intros He. destruct l as [|x l _] using rev_ind; [done|]. intros e'. rewrite last_snoc. intros [= ->].
  apply He. change (e :: l ++ [e']) with ((e :: l) ++ [e']). apply last_snoc. Qed.

(** Taking the next effect off the queue. *)
Lemma loop_pop n t t' cl cl' e pend b boxes procs procs' down' :
  loop_ok n t cl (e :: pend) b boxes procs [] → cl ⊆ cl' →
  (∀ pane r c, routes b !! pane = Some r → c ∈ rt_subscribers r → c ∈ boxes →
     hear pend (BrokerLeases.tell t e) !! (c, pane) = hear pend t' !! (c, pane)) →
  (∀ m pane, m !! pane = procs !! pane → pane ∉ cl' →
     serve m e !! pane = procs' !! pane ∨
     (pane ∈ down' ∧ serve m e !! pane = Some Control ∧ procs' !! pane = Some Observe)) →
  (∀ pane, pane ∈ down' → procs' !! pane = Some Observe) →
  (down' ≠ [] → opens_control e = true) → (down' ≠ [] → rank e = 2) →
  loop_ok n t' cl' pend b boxes procs' down'.
Proof.
  intros [H1 H2 H3 (m & Hs & Hm) H5 H6 [H7 H8]] Hcl Ht Hp Hd Ho Hr. split; [done|done| | |done| |].
  - intros pane r c Hr' Hc.
    assert (c ∈ boxes) as Hbox.
    { rewrite <- H2. unfold who. apply elem_of_dom.
      destruct (proj1 (inv_subs _ _ _ H1 c pane)) as [Hsub|[]]; [by exists r|].
      unfold subscription in Hsub. destruct (clients b !! c); [eauto|]. by destruct Hsub. }
    rewrite <- (Ht pane r c) by done. by apply (H3 pane r c).
  - exists (serve m e). split; [exact Hs|]. intros pane Hpane. apply Hp; [|done].
    destruct (Hm pane) as [?|[Hnil _]]; [set_solver|done|by apply elem_of_nil in Hnil].
  - rewrite opens_cons in H6. rewrite decide_True in H6 by done. case_decide as E; [lia|].
    rewrite Ho in H6 by done. lia.
  - split; [|by eapply ends_tail, H8]. intros ->. destruct (decide (down' = [])) as [|E]; [done|].
    exfalso. apply (H8 e eq_refl). by apply Hr.
Qed.

(** What a lookup in the leases heard depends on. *)
Lemma hear_agree l t1 t2 k : t1 !! k = t2 !! k → hear l t1 !! k = hear l t2 !! k.
Proof.
  unfold hear. revert t1 t2. induction l as [|e l IH]; intros t1 t2 Hk; [done|]. cbn [foldl]. apply IH.
  destruct e; try done. destruct message; try done. cbn [BrokerLeases.tell].
  destruct (decide ((client, pane) = k)) as [->|Hne]; [by rewrite !lookup_insert_eq|].
  by rewrite !lookup_insert_ne.
Qed.
Lemma perform_agree l m1 m2 pane : m1 !! pane = m2 !! pane → perform l m1 !! pane = perform l m2 !! pane.
Proof.
  unfold perform. revert m1 m2. induction l as [|e l IH]; intros m1 m2 Hk; [done|]. cbn [foldl]. apply IH.
  destruct e; try done; cbn [serve].
  - destruct (decide (pane0 = pane)) as [->|]; [by rewrite !lookup_insert_eq|by rewrite !lookup_insert_ne].
  - destruct (decide (pane0 = pane)) as [->|]; [by rewrite !lookup_delete_eq|by rewrite !lookup_delete_ne].
Qed.
(** A process that observes from the start observes throughout, while nothing is
    opened for control. *)
Lemma perform_observing l m1 m2 pane :
  opens l = 0 → m2 !! pane = (λ _, Observe) <$> m1 !! pane →
  perform l m2 !! pane = (λ _, Observe) <$> perform l m1 !! pane.
Proof.
  unfold perform. revert m1 m2. induction l as [|e l IH]; intros m1 m2 Ho Hk; [done|]. rewrite opens_cons in Ho.
  cbn [foldl]. apply IH; [lia|]. destruct e; try done; cbn [serve].
  - destruct (decide (pane0 = pane)) as [->|]; [|by rewrite !lookup_insert_ne].
    rewrite !lookup_insert_eq. cbn. destruct access; [done|]. cbn in Ho. lia.
  - destruct (decide (pane0 = pane)) as [->|]; [by rewrite !lookup_delete_eq|by rewrite !lookup_delete_ne].
Qed.

(** One route reported as opened with less. *)
Lemma loop_downgrade n t cl pend b boxes procs pane down :
  pend ≠ [] → loop_ok n t cl pend b boxes procs (pane :: down) →
  let '(b', es) := route_downgraded pane b in
  loop_ok n t cl (pend ++ es) b' boxes procs down.
Proof.
  intros Hne [H1 H2 H3 (m & Hs & Hm) H5 H6 [H7 H8]].
  assert (opens pend = 0) as Ho by (rewrite decide_False in H6 by done; lia).
  destruct (step_desk (RouteDowngraded pane) b (hear pend t) (perform pend m) (conj H3 Hs)) as [Ht Hserved].
  pose proof (downgraded_inv n pane b H1) as Hb. pose proof (who_downgraded pane b) as Hw.
  cbn [step suffer] in *. destruct (route_downgraded pane b) as [b' es] eqn:E. cbn [fst snd] in *.
  assert (mute_or_told : ∀ m, perform es m = m).
  { revert E. unfold route_downgraded. destruct (routes b !! pane); [|by intros [= _ <-]].
    destruct (_ && _); intros [= _ <-]; [done|]. apply announce_mute. }
  assert (tame es) as [Hes Hends].
  { pose proof (tame_final _ (downgraded_final pane b)) as Hf. by rewrite E in Hf. }
  rewrite mute_or_told in Hserved.
  split; [done|congruence|by rewrite hear_app| | | |].
  - exists (alter (λ _, Observe) pane m). rewrite perform_app, mute_or_told. split.
    + intros p' r' Hr'. specialize (Hserved p' r' Hr'). revert Hserved. destruct (decide (pane = p')) as [<-|Hp].
      * rewrite lookup_alter_eq. intros <-. apply perform_observing; [done|]. apply lookup_alter_eq.
      * rewrite lookup_alter_ne by done. intros <-. apply perform_agree. by rewrite lookup_alter_ne.
    + intros p' Hp'. destruct (decide (pane = p')) as [<-|Hp].
      * left. rewrite lookup_alter_eq, (H5 pane) by left. destruct (Hm pane Hp') as [->|(_ & -> & _)]; [|done].
        by rewrite (H5 pane) by left.
      * rewrite lookup_alter_ne by done. destruct (Hm p' Hp') as [?|([->|?]%elem_of_cons & ?)]; [by left|done|by right].
  - intros p' Hp'. apply H5. by right.
  - rewrite opens_app, Ho, Hes. lia.
  - split; [|by apply ends_app]. by intros [? _]%app_eq_nil.
Qed.

Lemma loop_report n t cl pend b boxes procs down acc :
  pend ≠ [] → loop_ok n t cl (pend ++ acc) b boxes procs down →
  loop_ok n t cl (pend ++ (each route_downgraded (b, acc) down).2) (each route_downgraded (b, acc) down).1 boxes procs [].
Proof.
  intros Hne. revert b acc. induction down as [|pane down IH]; intros b acc Hok; [exact Hok|].
  unfold each. cbn [foldl]. pose proof (loop_downgrade n t cl (pend ++ acc) b boxes procs pane down) as Hd.
  cbn [fst snd]. destruct (route_downgraded pane b) as [b' es]. apply IH.
  rewrite app_assoc. apply Hd; [|done]. by intros [? _]%app_eq_nil.
Qed.

(** A route whose process has ended. *)
Lemma loop_closed n t cl pend b boxes procs pane :
  mute pend → loop_ok n t cl pend b boxes procs [] →
  loop_ok n t (cl ∖ {[pane]}) (pend ++ (pane_route_closed pane b).2) (pane_route_closed pane b).1 boxes
    (delete pane procs) [].
Proof.
  intros Hmute [H1 H2 H3 (m & Hs & Hm) H5 H6 [H7 H8]]. rewrite mute_perform in Hs by done.
  destruct (step_desk (Broker.RouteClosed pane) b (hear pend t) m (conj H3 Hs)) as [Ht Hserved].
  cbn [step suffer] in *.
  assert (mute (pane_route_closed pane b).2) as Hes.
  { unfold pane_route_closed. destruct (routes b !! pane); [by apply mute_fmap|constructor]. }
  destruct (tame_mute _ Hes) as [Ho He].
  split; [by apply route_closed_inv|by rewrite who_closed|by rewrite hear_app| | |by rewrite opens_app; lia|].
  - exists (delete pane m). rewrite perform_app, (mute_perform pend) by done. split; [exact Hserved|].
    intros p Hp. left. destruct (decide (pane = p)) as [<-|Hne]; [by rewrite !lookup_delete_eq|].
    rewrite !lookup_delete_ne by done. destruct (Hm p) as [?|[Hnil _]]; [set_solver|done|by apply elem_of_nil in Hnil].
  - by intros p ?%elem_of_nil.
  - split; [done|by apply ends_app].
Qed.
End serving.

(** ** Turns of the daemon *)

Section turns.
Context {vt : Vt100} {sha : Sha256} {toml : DeviceToml}.
Context (alias_message : AliasError → ustr) (refusal : Refusal → ustr) (add_message : AddDeviceError → ustr).
Implicit Types (d : Daemon) (n : N) (t : leases) (cl : gset PaneId) (pend : list Effect).

Definition daemon_ok n t cl pend d : Prop :=
  loop_ok n t cl pend (broker d) (outboxes d) (processes d) (downgraded d).

(** A turn that says nothing of leases and touches no route. *)
Definition steady d (w : Turn) : Prop :=
  Forall plain w.1.2 ∧ ∀ n t cl pend, daemon_ok n t cl pend d → daemon_ok n t cl (pend ++ w.2) w.1.1.

Lemma steady_then d w f : steady d w → (∀ d, steady d (f d)) → steady d (then_ w f).
Proof.
  intros [Hp Hok] Hf. unfold then_. destruct w as [[d1 out] es]. specialize (Hf d1).
  destruct (f d1) as [[d2 more] further]. destruct Hf as [Hp2 Hok2]. cbn [fst snd] in *.
  split; [by apply Forall_app|]. intros n t cl pend Hd. cbn [fst snd]. rewrite (app_assoc pend). by apply Hok2, Hok.
Qed.
(** Parts of the daemon that routes do not depend on. *)
Lemma steady_parts d d' out es :
  broker d' = broker d → outboxes d' = outboxes d → processes d' = processes d → downgraded d' = downgraded d →
  Forall plain out → mute es → steady d (d', out, es).
Proof.
  intros Hb Ho Hp Hd Hout Hes. split; [done|]. intros n t cl pend Hok. unfold daemon_ok. cbn [fst snd].
  rewrite Hb, Ho, Hp, Hd. by apply loop_mute.
Qed.
Lemma steady_from d d' w :
  broker d' = broker d → outboxes d' = outboxes d → processes d' = processes d → downgraded d' = downgraded d →
  steady d' w → steady d w.
Proof.
  intros Hb Ho Hp Hd [Hout Hok]. split; [done|]. intros n t cl pend H. apply Hok. unfold daemon_ok.
  by rewrite Hb, Ho, Hp, Hd.
Qed.

Lemma broadcast_mute (message : ServerMessage) (b : Broker) :
  match message with PaneLease _ _ => False | _ => True end → mute (broadcast_state message b).
Proof. intros Hm. apply mute_fmap. intros c. by destruct message. Qed.
Lemma tell_plain c (message : ServerMessage) d :
  match message with PaneLease _ _ => False | _ => True end → Forall plain (tell c message d).
Proof. intros Hm. unfold tell. case_bool_decide; repeat constructor. by destruct message. Qed.
Lemma refuse_plain c request message d : Forall plain (Daemon.refuse c request message d).
Proof. by apply tell_plain. Qed.

Lemma steady_project m d : steady d (project_agent_cards m d).
Proof.
  unfold project_agent_cards. destruct (expire _ _) as [marks expired]. destruct (project _ _ _ _) as [index p].
  unfold on_broker. cbn [broker set_views].
  assert (∀ n t cl pend, daemon_ok n t cl pend d →
    loop_ok n t cl (pend ++ (agent_cards_updated p (broker d)).2) (agent_cards_updated p (broker d)).1
      (outboxes d) (processes d) (downgraded d)) as Hcall.
  { intros n t cl pend Hok. pose proof Hok as [H1 H2 H3 H4 H5 H6 H7].
    assert (tame (agent_cards_updated p (broker d)).2) as [Ho He] by (apply tame_final, cards_final).
    apply (loop_call (CardsUpdated p) n n t cl pend (broker d) (outboxes d) (outboxes d)); [done| |by rewrite <- H2; apply who_cards|done| |done].
    - pose proof H1 as [K1 K2 K3 K4 K5 K6 K7]. cbn [step]. unfold agent_cards_updated. case_bool_decide; by split.
    - cbn [step]. rewrite Ho. lia. }
  destruct (agent_cards_updated p (broker d)) as [b es]. cbn [fst snd] in *. split; [|exact Hcall].
  cbn [fst snd]. rewrite app_nil_r. destruct expired; by repeat constructor.
Qed.

Lemma steady_attention_changed m d : steady d (attention_changed m d).
Proof.
  unfold attention_changed. apply steady_then; [|apply steady_project].
  apply steady_parts; try done; [by repeat constructor|]. by apply broadcast_mute.
Qed.
Lemma steady_mark_attention m f d : steady d (mark_attention m f d).
Proof.
  unfold mark_attention. destruct (f _) as [i changed]. destruct changed.
  - by eapply steady_from, steady_attention_changed.
  - apply steady_parts; try done; constructor.
Qed.
Lemma steady_local_naming m c request change d : steady d (local_naming alias_message m c request change d).
Proof.
  unfold local_naming. destruct (match change with ChangeName _ _ _ => _ | _ => _ end) as [[a changed]|er].
  2: { apply steady_parts; try done; [apply refuse_plain|constructor]. }
  set (d1 := set_views _ d).
  assert (steady d (if changed then then_ (d1, [SavedAliases a], []) (project_agent_cards m) else (d1, [], []))) as Hs.
  { destruct changed; [apply steady_then; [|apply steady_project]|]; apply steady_parts; try done;
      by repeat constructor. }
  destruct (if changed then _ else _) as [[d2 out] es]. destruct Hs as [Hp Hok]. cbn [fst snd] in *.
  split; [|exact Hok]. apply Forall_app. split; [done|by apply tell_plain].
Qed.
Lemma steady_mark_agent m c request agent mark d : steady d (mark_agent m c request agent mark d).
Proof.
  unfold mark_agent. destruct (AgentMarks.apply _ _ _ _) as [marks changed]. set (d1 := set_views _ d).
  assert (steady d (if changed then then_ (d1, [SavedMarks marks], []) (project_agent_cards m) else (d1, [], []))) as Hs.
  { destruct changed; [apply steady_then; [|apply steady_project]|]; apply steady_parts; try done;
      by repeat constructor. }
  destruct (if changed then _ else _) as [[d2 out] es]. destruct Hs as [Hp Hok]. cbn [fst snd] in *.
  split; [|exact Hok]. apply Forall_app. split; [done|by apply tell_plain].
Qed.
Lemma steady_pairing asked w d : steady d (pairing_turn asked w d).
Proof.
  unfold pairing_turn. match goal with |- steady _ (foldl ?g _ _) => set (f := g) end.
  assert (∀ l (tu : Turn), steady d tu → steady d (foldl f tu l)) as Hgen.
  { intros l. induction l as [|o l IH]; intros tu Ht; [done|]. cbn [foldl]. apply IH. unfold f.
    apply steady_then; [done|]. intros d'. destruct o; apply steady_parts; try done; try constructor;
      try (by apply broadcast_mute); destruct asked; try constructor; by apply tell_plain. }
  apply Hgen, steady_parts; try done; constructor.
Qed.
Lemma steady_observe m d : steady d (observe_attention m d).
Proof.
  unfold observe_attention. destruct (observe _ _ _) as [i changed]. destruct (negb changed);
    apply steady_parts; try done; try constructor; try constructor.
  apply Forall_forall. intros e (x & Hx & _)%list_elem_of_bind. unfold attention_observed, broadcast_state in Hx.
  by apply list_elem_of_fmap in Hx as (c & -> & _).
Qed.
Lemma steady_alerts m d : steady d (device_alerts m d).
Proof.
  unfold device_alerts. destruct (take_ready _ _) as [q [delivery|]]; [|apply steady_parts; try done; constructor].
  destruct (nd_pane delivery); apply steady_parts; try done; try constructor; try constructor. by apply mute_fmap.
Qed.

(** Transfers say nothing of leases. *)
Definition plain_transfer (o : TransferOutput) : Prop :=
  match o with Say _ (PaneLease _ _) => False | _ => True end.
Lemma transfer_output_plain out : Forall plain_transfer out → Forall plain (transfer_output <$> out).
Proof. intros Ho. apply Forall_fmap. eapply Forall_impl; [exact Ho|]. by intros []. Qed.
Lemma steady_transfers (f : Surroundings → Transfers → Transfers * list TransferOutput) d :
  (∀ w kept, Forall plain_transfer (f w kept).2) → steady d (on_transfers f d).
Proof.
  intros Hf. unfold on_transfers. specialize (Hf (surroundings d) (transfers d)).
  destruct (f _ _) as [t out]. apply steady_parts; try done; [by apply transfer_output_plain|constructor].
Qed.
End turns.

(** What the operations on transfers say: messages other than leases, bytes to
    discard, grants and ends of tasks, whatever they are asked; and what they start. *)
Class Admits (P : TransferOutput → Prop) : Prop := {
  admits_say c (m : ServerMessage) : match m with PaneLease _ _ => False | _ => True end → P (Say c m);
  admits_discard target path : P (DiscardBytes target path);
  admits_grant c r k : P (Grant c r k);
  admits_stop c r : P (StopTask c r);
}.
#[export] Instance plain_admits : Admits plain_transfer.
Proof. by split. Qed.

Section transfers_say.
Context (P : TransferOutput → Prop) `{!Admits P} (w : Surroundings).
Hint Constructors Forall : core.
Hint Extern 1 (P _) => first [apply admits_discard|apply admits_grant|apply admits_stop] : core.
Lemma say_says c (m : ServerMessage) :
  match m with PaneLease _ _ => False | _ => True end → Forall P (Retention.tell w c m).
Proof. intros Hm. unfold Retention.tell. case_bool_decide; [|done]. constructor; [by apply admits_say|done]. Qed.
Lemma refusal_says c r m : Forall P (Retention.refuse w c r m).
Proof. by apply say_says. Qed.
Lemma target_says c r pane out : transfer_target w c r pane = Err out → Forall P out.
Proof. unfold transfer_target. destruct (_ !! _); [done|]. intros [= <-]. apply refusal_says. Qed.
Lemma target_known c r pane target :
  transfer_target w c r pane = Ok target → known_targets w !! target_session pane = Some target.
Proof. unfold transfer_target. destruct (_ !! _); [|done]. by intros [= <-]. Qed.
Hint Resolve target_known : core.
Lemma forget_says tr t : Forall P (forget_retained w tr t).2.
Proof.
  unfold forget_retained. destruct (retained t !! tr) as [kept|]; [|constructor]. cbn [snd].
  destruct (ret_path kept); [|constructor]. destruct (known_targets w !! _); auto.
Qed.
Lemma foldl_says {A} (f : A → Transfers → Transfers * list TransferOutput) (l : list A) t :
  (∀ a t, Forall P (f a t).2) →
  Forall P (foldl (λ to a, let '(t, out) := f a to.1 in (t, to.2 ++ out)) (t, []) l).2.
Proof.
  intros Hf. assert (∀ to, Forall P to.2 →
    Forall P (foldl (λ to a, let '(t, out) := f a to.1 in (t, to.2 ++ out)) to l).2) as Hgen;
    [|by apply Hgen].
  induction l as [|a l IH]; intros to Hto; [done|]. cbn [foldl]. apply IH. specialize (Hf a to.1).
  destruct (f a to.1). by apply Forall_app.
Qed.
Lemma sweep_says now t : Forall P (sweep_retained w now t).2.
Proof. apply (foldl_says (forget_retained w)). apply forget_says. Qed.
Lemma evict_says t : Forall P (evict_retained w t).2.
Proof.
  unfold evict_retained. generalize (size (retained t)) as fuel. intros fuel. revert t.
  induction fuel as [|fuel IH]; intros t; [constructor|]. cbn [evict_loop].
  destruct (MAX_RETAINED_TRANSFERS <=? _); [|constructor]. destruct (min_by_key _ _) as [oldest|]; [|constructor].
  pose proof (forget_says oldest.1 t) as Hf. destruct (forget_retained _ _ _) as [t1 out].
  specialize (IH t1). destruct (evict_loop _ _ t1) as [t2 more]. by apply Forall_app.
Qed.
Lemma stop_says c r t : Forall P (stop_download c r t).2.
Proof. unfold stop_download. case_bool_decide; cbn; auto. Qed.
Lemma begin_relay_says c r pane mime_ name len token_ now t :
  (∀ target tr kept, known_targets w !! target_session pane = Some target → P (StartAttempt c r tr target kept)) →
  Forall P (begin_relay w c r pane mime_ name len token_ now t).2.
Proof.
  intros Hstart. unfold begin_relay. destruct (negb _); [apply refusal_says|]. destruct (_ <? _)%N; [apply refusal_says|].
  destruct (transfer_target _ _ _ _) as [target|out] eqn:E; [|by eapply target_says].
  destruct token_ as [tr|]; [|apply refusal_says].
  pose proof (sweep_says now (set_offers (offers t ∖ {[(c, r)]}) t)) as Hs.
  destruct (sweep_retained _ _ _) as [t1 swept]. pose proof (evict_says t1) as He.
  destruct (evict_retained _ _) as [t2 evicted]. cbn [snd] in *.
  repeat (apply Forall_app; split); try done; [by apply say_says|by eauto].
Qed.
Lemma resume_relay_says c r tr pane len now t :
  (∀ target kept, known_targets w !! target_session pane = Some target → P (StartAttempt c r tr target kept)) →
  Forall P (resume_relay w c r tr pane len now t).2.
Proof.
  intros Hstart. unfold resume_relay. destruct (negb (bool_decide ((c, r) ∈ _))); [apply refusal_says|].
  pose proof (sweep_says now (set_offers (offers t ∖ {[(c, r)]}) t)) as Hs.
  destruct (sweep_retained _ _ _) as [t1 swept]. cbn [snd] in *.
  destruct (retained t1 !! tr) as [kept|]; [|apply Forall_app; split; [done|apply refusal_says]].
  destruct (in_flight kept); [apply Forall_app; split; [done|apply refusal_says]|].
  destruct (_ || _); [apply Forall_app; split; [done|apply refusal_says]|].
  destruct (transfer_target _ _ _ _) as [target|out] eqn:E; cbn [snd]; apply Forall_app; split; try done;
    [by eauto|by eapply target_says].
Qed.
Lemma begin_download_says c r pane path t :
  (∀ target, known_targets w !! target_session pane = Some target → P (StartRead c r target path)) →
  Forall P (begin_download w c r pane path t).2.
Proof.
  intros Hstart.
  unfold begin_download. case_bool_decide; [apply refusal_says|].
  destruct (transfer_target _ _ _ _) as [target|out] eqn:E; [|by eapply target_says].
  case_bool_decide; cbn; eauto.
Qed.
Lemma begin_between_says c r source path destination name t :
  (∀ from to, known_targets w !! target_session source = Some from →
    known_targets w !! target_session destination = Some to → P (StartCopy c r from to path name)) →
  Forall P (begin_between w c r source path destination name t).2.
Proof.
  intros Hstart.
  unfold begin_between. case_bool_decide; [apply refusal_says|].
  destruct (transfer_target _ _ _ source) as [from|out] eqn:E; [|by eapply target_says].
  destruct (transfer_target _ _ _ destination) as [to|out] eqn:E2; [|by eapply target_says].
  case_bool_decide; cbn; eauto.
Qed.
Lemma pull_says c r k t : Forall P (pull_download w c r k t).2.
Proof. unfold pull_download. cbn. case_bool_decide; [auto|apply refusal_says]. Qed.
Lemma finished_says c r tr outcome refusal now t :
  Forall P (relay_finished w c r tr outcome refusal now t).2.
Proof.
  unfold relay_finished. destruct outcome; try (by constructor); try (by apply say_says); try apply refusal_says;
    destruct (retained t !! tr); try constructor; by apply say_says.
Qed.
Lemma client_left_says c t : Forall P (client_left c t).2.
Proof. apply (foldl_says (λ cr, stop_download cr.1 cr.2)). intros; apply stop_says. Qed.
End transfers_say.

Module Run.
#[export] Instance vt : Vt100 := Teletype.teletype.
#[export] Instance sha : Sha256 := Toy.digest.
#[export] Instance toml : DeviceToml := Toy.toml.

Definition alias_message (e : AliasError) : ustr := [].
Definition refusal (r : Refusal) : ustr := [].
Definition add_message (e : AddDeviceError) : ustr := [].
Abbreviation handle := (Daemon.handle alias_message refusal add_message).
Abbreviation run := (Daemon.run alias_message refusal add_message).

Definition target : Target := {|
  tgt_name := u "host"; tgt_ssh := None; tgt_discover_sessions := false; tgt_session := Some (u "dev");
  tgt_socket := Some (u "/run/herdr.sock"); tgt_herdr_bins := []; tgt_tags := []; tgt_roots := [] |}.
Definition config : Config := {|
  cfg_transport := TransportConfig_default; cfg_notifications := NotificationsConfig_default;
  cfg_quick_replies := None; cfg_transfers := TransferConfig_default; cfg_web := WebConfig_default;
  cfg_devices := []; cfg_targets := [target] |}.
Definition no_pairing : PairingState := {|
  has_config_path := false; config_file := None; held_devices := []; pending_pairing := None;
  bridge_pairing := None; requests := []; approvals := ∅ |}.
Definition start : Daemon := Daemon_new (u "0.1") config None no_pairing AttentionIndex_default ∅
  Aliases_default.

(** A world in which everything asked of it happens, and one in which terminals
    only open to be watched. *)
Definition fine : Moment := {|
  unix_time_ms := 1000; clock := λ id, 1000 + id; instant := 1000; replies := true; spawns := λ _ _, true;
  random := Some (repeat 7 32); closed_browsers := ∅; written := true; delivered := true |}%N.
Definition watching_only : Moment := {|
  unix_time_ms := 1000; clock := λ id, 1000 + id; instant := 1000; replies := true;
  spawns := λ _ access, bool_decide (access = Observe);
  random := Some (repeat 7 32); closed_browsers := ∅; written := true; delivered := true |}%N.

Definition hello (c : N) : Input := Received c (ClientHello PROTOCOL_VERSION (u "tui")).
Definition contended : list (Moment * Input) :=
  pair fine <$> [Connected; Connected; hello 0; hello 1; Daemon.Federation ex_working;
    Received 0 (SubscribePane ex_pane Control 4 2 AsScreen);
    Received 1 (SubscribePane ex_pane Observe 8 3 Frames)].

End Run.
