(* ===== verification/DaemonRuns.v ===== *)
(** Runs of the daemon: what [DaemonServing] calls an invariant of its loop holds
    after every input, from the start on. *)

From S2P Require Import Prelude Text Model Config State Attention AgentMarks Aliases AgentCards.
From S2P Require Import Screen ScreenFacts Operation Protocol Broker BrokerInv BrokerLeases Notifications Pairing.
From S2P Require Import Clipboard Staging Retention Examples Daemon DaemonFacts DaemonServing.

Section runs.
Context {vt : Vt100} {sha : Sha256} {toml : DeviceToml}.
Context (alias_message : AliasError → ustr) (refusal : Refusal → ustr) (add_message : AddDeviceError → ustr).
Implicit Types (d : Daemon) (n : N) (t : leases) (cl : gset PaneId) (e : Effect) (pend : list Effect) (w : Turn).
Abbreviation apply_one := (apply_one alias_message add_message).
Abbreviation apply := (apply alias_message add_message).
Abbreviation receive := (receive refusal).
Abbreviation handle := (handle alias_message refusal add_message).

(** ** Carrying effects out *)

(** The loop after a turn: what it said is heard, what it queued is on its way. *)
Definition turn_ok n t cl pend w : Prop :=
  daemon_ok n (heard w.1.2 t) (cl ∪ closings w.1.2) (pend ++ w.2) w.1.1.

Lemma turn_steady n t cl pend d w : steady d w → daemon_ok n t cl pend d → turn_ok n t cl pend w.
Proof.
  intros [Hp Hok] Hd. unfold turn_ok. rewrite plain_heard, plain_closings, union_empty_r_L by done. by apply Hok.
Qed.
Lemma turn_then n t cl pend w f :
  turn_ok n t cl pend w → (∀ t cl pend, daemon_ok n t cl pend w.1.1 → turn_ok n t cl pend (f w.1.1)) →
  turn_ok n t cl pend (then_ w f).
Proof.
  destruct w as [[d1 out] es]. intros Hw Hf. unfold then_. cbn [fst snd] in *. specialize (Hf _ _ _ Hw).
  destruct (f d1) as [[d2 more] further]. revert Hf. unfold turn_ok. cbn [fst snd].
  by rewrite heard_app, closings_app, union_assoc_L, app_assoc.
Qed.

(** A call of the broker that neither process nor outbox is told of by the loop. *)
Lemma turn_call (i : input) n n' t cl pend d d' :
  (∀ m, suffer i m = m) → broker_inv n' (step i (broker d)).1 → who (step i (broker d)).1 = outboxes d' →
  ends (step i (broker d)).2 → opens pend + opens (step i (broker d)).2 ≤ 1 →
  broker d' = broker d → processes d' = processes d → downgraded d' = downgraded d → downgraded d = [] →
  daemon_ok n t cl pend d → turn_ok n' t cl pend (on_broker (step i) d').
Proof.
  intros Hi Hb Hw He Ho Hb' Hp' Hd' Hd Hok. unfold on_broker. rewrite Hb'.
  assert (opens pend + opens (step i (broker d)).2 ≤ (if decide (downgraded d = []) then 1 else 0)) as Ho'
    by (rewrite decide_True by done; done).
  pose proof (loop_call i n n' t cl pend (broker d) (outboxes d) (outboxes d') (processes d) (downgraded d)
    Hi Hb Hw He Ho' Hok) as H.
  destruct (step i (broker d)) as [b es]. unfold turn_ok, daemon_ok. cbn [fst snd heard closings set_broker
    broker outboxes processes downgraded]. rewrite Hp', Hd'. cbn. by rewrite union_empty_r_L.
Qed.

Lemma pop_mute n t cl e rest d :
  is_mute e = true → downgraded d = [] → daemon_ok n t cl (e :: rest) d → daemon_ok n t cl rest d.
Proof.
  intros He Hd Hok. unfold daemon_ok in *. rewrite Hd in *.
  assert (∀ t, BrokerLeases.tell t e = t) as Ht by (intros ?; by apply (mute_hear [e]); repeat constructor).
  assert (∀ m, serve m e = m) as Hs by (intros m; apply (mute_perform [e]); by repeat constructor).
  eapply (loop_pop n t t cl cl e); [exact Hok|done| | | |done|done].
  - intros pane r c _ _ _. by rewrite Ht.
  - intros m pane Hm _. left. by rewrite Hs.
  - by intros pane ?%elem_of_nil.
Qed.

Lemma send_turn n t cl rest c message d :
  downgraded d = [] → daemon_ok n t cl (Send c message :: rest) d →
  daemon_ok n (heard (Daemon.tell c message d) t) (cl ∪ closings (Daemon.tell c message d)) rest d.
Proof.
  intros Hd Hok. unfold daemon_ok in *. rewrite Hd in *.
  eapply (loop_pop n t _ cl _ _); [exact Hok|set_solver| | | |done|done].
  - intros pane r c' Hr Hc Hbox. apply hear_agree. unfold Daemon.tell. destruct message; cbn [BrokerLeases.tell];
      case_bool_decide as Hin; try done. cbn. rewrite lookup_insert_ne; [done|]. intros [= -> ->]. done.
  - intros m pane Hm _. by left.
  - by intros pane ?%elem_of_nil.
Qed.

(** A process of the pane was started, or ended. *)
Lemma open_turn n t cl rest m pane access cols rows d :
  downgraded d = [] → daemon_ok n t cl (OpenRoute pane access cols rows :: rest) d →
  let '(d', out) := open_route m pane access cols rows d in
  daemon_ok n (heard out t) (cl ∪ closings out) rest d'.
Proof.
  intros Hd Hok. unfold daemon_ok in *. rewrite Hd in *.
  assert (∀ procs' down' cl', cl ⊆ cl' →
    (pane ∈ cl' ∨ procs' = <[pane := access]> (processes d) ∧ down' = [] ∨
     access = Control ∧ procs' = <[pane := Observe]> (processes d) ∧ down' = [pane]) →
    (∀ p, p ≠ pane → procs' !! p = processes d !! p) →
    (∀ p, p ∈ down' → procs' !! p = Some Observe) → (down' ≠ [] → access = Control) →
    loop_ok n t cl' rest (broker d) (outboxes d) procs' down') as Hgen.
  { intros procs' down' cl' Hcl Hcase Hne Hdown Hcontrol.
    eapply (loop_pop n t t cl cl'); [exact Hok|done|done| |exact Hdown| |done].
    - intros mp p Hm Hp. cbn [serve]. destruct (decide (pane = p)) as [<-|Hpp].
      + rewrite lookup_insert_eq. destruct Hcase as [?|[[-> ->]|(-> & -> & ->)]]; [done| |].
        * left. by rewrite lookup_insert_eq.
        * right. rewrite lookup_insert_eq. repeat split. by left.
      + left. rewrite lookup_insert_ne, Hne by done. done.
    - intros H. by rewrite (Hcontrol H). }
  assert (∀ out, Forall plain out → ∀ o, heard (out ++ [o]) t = heard [o] t ∧
    closings (out ++ [o]) = closings [o]) as Hout.
  { intros out Ho o. rewrite heard_app, closings_app, (plain_heard out), (plain_closings out) by done.
    by rewrite union_empty_l_L. }
  unfold open_route, shutdown. set (stopped := if bool_decide (is_Some (processes d !! pane)) then [Stopped pane] else []).
  assert (Forall plain stopped) as Hst by (unfold stopped; case_bool_decide; repeat constructor).
  destruct (route_target _ _) as [target|]; [destruct (spawns m pane access); [|destruct (_ && _) eqn:E]|];
    cbn [broker outboxes processes downgraded set_process set_processes set_downgraded];
    rewrite (proj1 (Hout _ Hst _)), (proj2 (Hout _ Hst _)); rewrite ?Hd; cbn; rewrite ?union_empty_r_L, ?app_nil_l.
  - rewrite insert_delete_eq. apply Hgen; [done|by right; left| |by intros ? ?%elem_of_nil|done].
    intros p Hp. by rewrite lookup_insert_ne.
  - apply andb_true_iff in E as [->%bool_decide_eq_true _]. rewrite insert_delete_eq.
    apply Hgen; [done|by right; right| | |done].
    + intros p Hp. by rewrite lookup_insert_ne.
    + intros p ->%list_elem_of_singleton. by rewrite lookup_insert_eq.
  - apply Hgen; [apply union_subseteq_l|left; apply elem_of_union_r; by apply elem_of_singleton|
      |by intros ? ?%elem_of_nil|done]. intros p Hp. by rewrite lookup_delete_ne.
  - apply Hgen; [apply union_subseteq_l|left; apply elem_of_union_r; by apply elem_of_singleton|
      |by intros ? ?%elem_of_nil|done]. intros p Hp. by rewrite lookup_delete_ne.
Qed.

Lemma close_turn n t cl rest pane d :
  downgraded d = [] → daemon_ok n t cl (CloseRoute pane :: rest) d →
  let '(d', out) := shutdown pane d in daemon_ok n (heard out t) (cl ∪ closings out) rest d'.
Proof.
  intros Hd Hok. unfold daemon_ok, shutdown in *. cbn [broker outboxes processes downgraded set_processes].
  rewrite Hd in *. set (stopped := if bool_decide (is_Some (processes d !! pane)) then [Stopped pane] else []).
  assert (Forall plain stopped) as Hst by (unfold stopped; case_bool_decide; repeat constructor).
  rewrite plain_heard, plain_closings, union_empty_r_L by done.
  eapply (loop_pop n t t cl cl); [exact Hok|done|done| | |done|done].
  - intros mp p Hm Hp. left. cbn [serve]. destruct (decide (pane = p)) as [<-|Hpp];
      [by rewrite !lookup_delete_eq|by rewrite !lookup_delete_ne].
  - by intros p ?%elem_of_nil.
Qed.
(** An effect that neither announces nor asks for a process, followed by a turn. *)
Lemma mute_turn n t cl e rest d w :
  daemon_ok n t cl (e :: rest) d → downgraded d = [] → is_mute e = true → steady d w → turn_ok n t cl rest w.
Proof. intros Hok Hd He Hw. apply (turn_steady n t cl rest d); [done|by eapply pop_mute]. Qed.

Lemma steady_said d out : Forall plain out → steady d (d, out, []).
Proof. intros Ho. apply steady_parts; try done; constructor. Qed.
Lemma run_operation_plain c request operation d : Forall plain (run_operation c request operation d).
Proof. unfold run_operation. repeat (destruct (targets _ !! _)); repeat constructor. Qed.
Lemma begin_job_plain c request key missing job d : Forall plain (begin_job c request key missing job d).
Proof.
  unfold begin_job. destruct (targets _ !! _); [|apply refuse_plain]. case_bool_decide; repeat constructor.
Qed.
Lemma paste_plain c request pane text d : Forall plain (paste_pane_text c request pane text d).
Proof.
  unfold paste_pane_text. destruct (targets _ !! _) as [target|]; [|apply refuse_plain].
  destruct (tgt_socket target); [repeat constructor|apply refuse_plain].
Qed.
Lemma send_to_route_plain pane command d : Forall plain (send_to_route pane command d).
Proof. unfold send_to_route. case_bool_decide; repeat constructor. Qed.

Lemma rest_opens n t cl e rest d :
  downgraded d = [] → daemon_ok n t cl (e :: rest) d → opens rest ≤ 1.
Proof.
  intros Hd Hok. pose proof (lo_opens _ _ _ _ _ _ _ _ Hok) as Ho. rewrite opens_cons, decide_True in Ho by done. lia.
Qed.

Lemma disconnect_turn n t cl rest client reason d :
  downgraded d = [] → daemon_ok n t cl (Disconnect client reason :: rest) d →
  turn_ok n t cl rest (on_broker (disconnect client) (set_outboxes (outboxes d ∖ {[client]}) d)).
Proof.
  intros Hd Hok. pose proof (rest_opens _ _ _ _ _ _ Hd Hok) as Hrest.
  eapply pop_mute in Hok; [|done|done]. change (disconnect client) with (step (Broker.Disconnected client)).
  pose proof (lo_broker _ _ _ _ _ _ _ _ Hok). pose proof (tame_disconnect client (broker d)) as [Ho He].
  apply (turn_call _ n n t cl rest d); try done.
  - by apply disconnect_inv.
  - cbn [step outboxes set_outboxes]. rewrite who_disconnect. f_equal. exact (lo_boxes _ _ _ _ _ _ _ _ Hok).
  - cbn [step]. rewrite Ho. lia.
Qed.
Lemma unclaimed_turn n t cl rest pane d :
  downgraded d = [] → daemon_ok n t cl (RouteUnclaimed pane :: rest) d →
  turn_ok n t cl rest (on_broker (close_if_unclaimed pane) d).
Proof.
  intros Hd Hok. pose proof (rest_opens _ _ _ _ _ _ Hd Hok) as Hrest.
  eapply pop_mute in Hok; [|done|done]. change (close_if_unclaimed pane) with (step (CloseIfUnclaimed pane)).
  pose proof (tame_final _ (unclaimed_final pane (broker d))) as [Ho He].
  apply (turn_call _ n n t cl rest d); try done.
  - apply unclaimed_inv. exact (lo_broker _ _ _ _ _ _ _ _ Hok).
  - cbn [step]. rewrite who_unclaimed. exact (lo_boxes _ _ _ _ _ _ _ _ Hok).
  - cbn [step]. rewrite Ho. lia.
Qed.

Lemma apply_one_ok m n t cl e rest d :
  downgraded d = [] → daemon_ok n t cl (e :: rest) d → turn_ok n t cl rest (apply_one m e d).
Proof.
  intros Hd Hok. destruct e; cbn [Daemon.apply_one]; try (eapply disconnect_turn; [exact Hd|exact Hok]);
    try (apply unclaimed_turn; [exact Hd|exact Hok]);
    try refine (mute_turn n t cl _ rest d _ Hok Hd eq_refl _).
  { unfold turn_ok. cbn [fst snd]. rewrite app_nil_r. by apply send_turn. }
  { pose proof (open_turn n t cl rest m pane access cols rows d Hd Hok) as H.
    destruct (open_route _ _ _ _ _ _) as [d' out]. unfold turn_ok. cbn [fst snd]. by rewrite app_nil_r. }
  { pose proof (close_turn n t cl rest pane d Hd Hok) as H.
    destruct (shutdown _ _) as [d' out]. unfold turn_ok. cbn [fst snd]. by rewrite app_nil_r. }
  all: try (apply steady_said; first [apply send_to_route_plain|apply run_operation_plain|apply begin_job_plain
    |apply paste_plain|apply refuse_plain|by apply tell_plain]).
  all: try (apply steady_transfers; intros;
    first [by apply (begin_relay_says plain_transfer)|by apply (resume_relay_says plain_transfer)|apply (stop_says plain_transfer)|by apply (begin_download_says plain_transfer)
          |apply (pull_says plain_transfer)|by apply (begin_between_says plain_transfer)]).
  all: first [apply steady_local_naming|apply steady_mark_agent|apply steady_mark_attention|apply steady_pairing].
Qed.

Lemma report_ok n t cl e rest d :
  daemon_ok n t cl (e :: rest) d →
  daemon_ok n t cl (e :: rest ++ (report_downgraded d).2) (report_downgraded d).1.
Proof.
  intros Hok. pose proof (loop_report n t cl (e :: rest) (broker d) (outboxes d) (processes d) (downgraded d) []) as H.
  rewrite app_nil_r in H. specialize (H ltac:(done) Hok). unfold report_downgraded, daemon_ok.
  destruct (each route_downgraded _ _) as [b es]. exact H.
Qed.

Lemma apply_ok fuel m n t cl pend d d' out :
  apply fuel m pend d = Some (d', out) → daemon_ok n t cl pend d →
  daemon_ok n (heard out t) (cl ∪ closings out) [] d'.
Proof.
  revert t cl pend d d' out. induction fuel as [|fuel IH]; intros t cl [|e rest] d d' out Happly Hok; try done.
  1, 2: cbn in Happly; injection Happly as <- <-; cbn; by rewrite union_empty_r_L.
  cbn [Daemon.apply] in Happly. pose proof (report_ok n t cl e rest d Hok) as H1.
  pose proof (proj1 (report_spec d)) as Hd1. destruct (report_downgraded d) as [d1 lowered]. cbn [fst snd] in *.
  pose proof (apply_one_ok m n t cl e (rest ++ lowered) d1 Hd1 H1) as H2.
  destruct (apply_one m e d1) as [[d2 said] es]. unfold turn_ok in H2. cbn [fst snd] in H2. rewrite <- app_assoc in H2.
  destruct (apply fuel m (rest ++ lowered ++ es) d2) as [[d3 more]|] eqn:E; [|done]. injection Happly as <- <-.
  rewrite heard_app, closings_app, union_assoc_L. by eapply IH.
Qed.
(** ** Inputs

    [closed_by] is the route an input ends. *)

Definition closed_by (i : Input) : gset PaneId := match i with RouteClosed pane => {[pane]} | _ => ∅ end.

Lemma daemon_mono n n' cl cl' t pend d :
  (n ≤ n')%N → cl ⊆ cl' → daemon_ok n t cl pend d → daemon_ok n' t cl' pend d.
Proof.
  intros Hn Hcl Hok. apply (loop_mono _ _ cl _ _ _ _ _ _ Hcl). destruct Hok as [Hb ? ? ? ? ? ?]. split; try done.
  by eapply broker_inv_mono.
Qed.
Lemma turn_mono n n' cl cl' t pend w :
  (n ≤ n')%N → cl ⊆ cl' → turn_ok n t cl pend w → turn_ok n' t cl' pend w.
Proof. intros Hn Hcl. apply daemon_mono; [done|]. by apply union_mono_r. Qed.
Lemma turn_said n t cl pend d out es f :
  Forall plain out → es = [] → turn_ok n t cl pend (f d) → turn_ok n t cl pend (then_ (d, out, es) f).
Proof.
  intros Ho -> Hok. unfold then_. destruct (f d) as [[d' more] further]. unfold turn_ok in *. cbn [fst snd] in *.
  rewrite heard_app, closings_app, (plain_heard out), (plain_closings out) by done. by rewrite union_empty_l_L.
Qed.

Lemma at_rest n t cl d : daemon_ok n t cl [] d → downgraded d = [].
Proof. intros Hok. by apply (lo_ends _ _ _ _ _ _ _ _ Hok). Qed.

Lemma who_connect (b : Broker) : who (connect b).1 = {[next_client b]} ∪ who b.
Proof. unfold who, connect. cbn. by rewrite dom_insert_L. Qed.

Lemma connected_turn m n t cl d :
  (n < u64_max)%N → daemon_ok n t cl [] d → turn_ok (n + 1) t cl [] (receive m Connected d).
Proof.
  intros Hn Hok. pose proof (at_rest _ _ _ _ Hok) as Hd. pose proof (lo_boxes _ _ _ _ _ _ _ _ Hok) as Hboxes.
  pose proof (lo_broker _ _ _ _ _ _ _ _ Hok) as Hb. cbn [Daemon.receive].
  set (c := next_client (broker d)).
  set (d1 := set_outboxes ({[c]} ∪ outboxes d) (set_broker (connect (broker d)).1 d)).
  assert (turn_ok (n + 1) t cl [] (d1, [], [])) as H1.
  { apply (turn_call Connect n (n + 1) t cl [] d (set_outboxes ({[c]} ∪ outboxes d) d)); try done.
    - by apply connect_inv.
    - cbn [step fst]. rewrite who_connect. cbn [outboxes set_outboxes]. by rewrite <- Hboxes.
    - vm_compute. lia. }
  change (connect (broker d)) with ((connect (broker d)).1, c). cbn iota. destruct (replies m); [exact H1|].
  unfold turn_ok in H1. cbn in H1. rewrite union_empty_r_L in H1.
  change (disconnect c) with (step (Broker.Disconnected c)).
  pose proof (tame_disconnect c (broker d1)) as [Ho He].
  apply (turn_call _ (n + 1) (n + 1) t cl [] d1); try done.
  - apply disconnect_inv. exact (lo_broker _ _ _ _ _ _ _ _ H1).
  - cbn [step]. rewrite who_disconnect, (lo_boxes _ _ _ _ _ _ _ _ H1). cbn [outboxes d1 set_broker set_outboxes].
    assert (c ∉ outboxes d); [|set_solver]. rewrite <- Hboxes. unfold who. intros Hin%elem_of_dom.
    apply (inv_ids _ _ _ Hb) in Hin. unfold c in Hin. lia.
  - cbn [step]. rewrite Ho. cbn. lia.
Qed.

Lemma received_turn m n t cl c message d :
  daemon_ok n t cl [] d → turn_ok n t cl [] (receive m (Received c message) d).
Proof.
  intros Hok. pose proof (at_rest _ _ _ _ Hok) as Hd. cbn [Daemon.receive].
  change (Broker.handle c message) with (step (Message c message)).
  destruct (handle_opens c message (broker d)) as [Ho He].
  apply (turn_call _ n n t cl [] d); try done.
  - apply handle_inv. exact (lo_broker _ _ _ _ _ _ _ _ Hok).
  - cbn [step]. rewrite who_handle. exact (lo_boxes _ _ _ _ _ _ _ _ Hok).
Qed.

Lemma disconnected_turn m n t cl c d :
  daemon_ok n t cl [] d → turn_ok n t cl [] (receive m (Disconnected c) d).
Proof.
  intros Hok. pose proof (at_rest _ _ _ _ Hok) as Hd. cbn [Daemon.receive]. unfold on_transfers.
  pose proof (client_left_says plain_transfer c (transfers d)) as Hp. cbn [transfers set_outboxes].
  destruct (client_left c (transfers d)) as [kept out]. apply turn_said; [by apply transfer_output_plain|done|].
  change (disconnect c) with (step (Broker.Disconnected c)). pose proof (tame_disconnect c (broker d)) as [Ho He].
  apply (turn_call _ n n t cl [] d); try done.
  - apply disconnect_inv. exact (lo_broker _ _ _ _ _ _ _ _ Hok).
  - cbn [step outboxes set_outboxes set_transfers]. rewrite who_disconnect. f_equal.
    exact (lo_boxes _ _ _ _ _ _ _ _ Hok).
  - cbn [step]. rewrite Ho. cbn. lia.
Qed.
Lemma federation_final st (b : Broker) : final (federation_updated st b).2.
Proof.
  unfold federation_updated. set (changes := federation_changes _ _).
  unfold close_vanished_routes. set (k := filter _ _).
  pose proof (each_yields pane_route_closed (λ e, rank e = 0) k (set_state b st, [])) as Hc.
  destruct (each pane_route_closed _ _) as [b' closed]. apply Forall_app. split.
  - apply Forall_forall. intros e (message & He & _)%list_elem_of_bind. unfold broadcast_state in He.
    by apply list_elem_of_fmap in He as (c & -> & _).
  - apply Hc; [|constructor]. intros pane b0. unfold pane_route_closed.
    destruct (routes b0 !! pane); [|constructor]. by apply Forall_fmap, Forall_true.
Qed.

Lemma federation_turn m n t cl st d :
  daemon_ok n t cl [] d → turn_ok n t cl [] (receive m (Daemon.Federation st) d).
Proof.
  intros Hok. cbn [Daemon.receive]. set (d1 := set_views _ d). assert (daemon_ok n t cl [] d1) as H1 by exact Hok.
  pose proof (at_rest _ _ _ _ H1) as Hd.
  apply turn_then; [|intros; eapply turn_steady; [apply steady_project|done]].
  apply turn_then; [|intros; eapply turn_steady; [apply steady_observe|done]].
  change (federation_updated st) with (step (Broker.Federation st)).
  destruct (tame_final _ (federation_final st (broker d1))) as [Ho He].
  apply (turn_call _ n n t cl [] d1); try done.
  - apply federation_inv. exact (lo_broker _ _ _ _ _ _ _ _ H1).
  - cbn [step]. rewrite who_federation. exact (lo_boxes _ _ _ _ _ _ _ _ H1).
  - cbn [step]. rewrite Ho. cbn. lia.
Qed.

Lemma frame_turn m n t cl pane sequence_ width_ height_ full payload d :
  daemon_ok n t cl [] d →
  turn_ok n t cl [] (receive m (Daemon.Frame pane sequence_ width_ height_ full payload) d).
Proof.
  intros Hok. pose proof (at_rest _ _ _ _ Hok) as Hd. cbn [Daemon.receive].
  change (pane_frame pane sequence_ width_ height_ full payload)
    with (step (Broker.Frame pane sequence_ width_ height_ full payload)).
  pose proof (pane_frame_shape pane sequence_ width_ height_ full payload (broker d)) as Hs.
  destruct (tame_mute _ (pane_frame_mute pane sequence_ width_ height_ full payload (broker d))) as [Ho He].
  apply (turn_call _ n n t cl [] d); try done.
  - eapply same_shape_inv; [exact Hs|]. exact (lo_broker _ _ _ _ _ _ _ _ Hok).
  - cbn [step]. rewrite (who_shape _ _ Hs). exact (lo_boxes _ _ _ _ _ _ _ _ Hok).
  - cbn [step]. rewrite Ho. cbn. lia.
Qed.

(** A route that the daemon closes, with what the broker says of it. *)
Lemma closed_mute pane (b : Broker) : mute (pane_route_closed pane b).2.
Proof. unfold pane_route_closed. destruct (routes b !! pane); [by apply mute_fmap|constructor]. Qed.
Lemma invalidate_turn n t cl pend pane d :
  mute pend → downgraded d = [] → daemon_ok n t cl pend d →
  let w := invalidate pane d in
  turn_ok n t (cl ∖ {[pane]}) pend w ∧ mute w.2 ∧ downgraded w.1.1 = [].
Proof.
  intros Hm Hd Hok. unfold invalidate, shutdown, then_, on_broker.
  cbn [broker set_processes].
  pose proof (loop_closed n t cl pend (broker d) (outboxes d) (processes d) pane Hm) as H.
  pose proof (closed_mute pane (broker d)) as Hmute. unfold daemon_ok in Hok. rewrite Hd in Hok. specialize (H Hok).
  destruct (pane_route_closed pane (broker d)) as [b es]. unfold turn_ok, daemon_ok. cbn [fst snd] in *.
  cbn [broker outboxes processes downgraded set_processes set_broker]. rewrite app_nil_r, app_nil_l, Hd.
  rewrite plain_heard, plain_closings, union_empty_r_L by (case_bool_decide; repeat constructor). done.
Qed.
Lemma reconfigure_turn n t cl refreshed d :
  daemon_ok n t cl [] d → turn_ok n t cl [] (reconfigure refreshed d).
Proof.
  intros Hok. unfold reconfigure. set (d1 := set_settings _ d).
  assert (turn_ok n t cl [] (d1, [], [])) as Hnone.
  { unfold turn_ok. cbn. by rewrite union_empty_r_L. }
  destruct refreshed as [refreshed|]; [|exact Hnone]. case_bool_decide; [exact Hnone|].
  assert (∀ l w, turn_ok n t cl [] w → mute w.2 → downgraded w.1.1 = [] →
    turn_ok n t cl [] (foldl (λ w pane, then_ w (invalidate pane)) w l)) as Hgen.
  { intros l. induction l as [|pane l IH]; intros w Hw Hm Hd; [exact Hw|]. cbn [foldl].
    destruct w as [[d2 out] es]. unfold turn_ok in Hw. cbn [fst snd app] in *.
    destruct (invalidate_turn _ _ _ _ pane _ Hm Hd Hw) as (H1 & H2 & H3).
    unfold then_. destruct (invalidate pane d2) as [[d3 more] further]. cbn [fst snd] in *. apply IH.
    - unfold turn_ok in *. cbn [fst snd] in *. rewrite heard_app, closings_app. eapply daemon_mono; [done| |exact H1].
      set_solver.
    - by apply mute_app.
    - done. }
  specialize (Hgen (invalidated_routes (active (settings d)) refreshed (keys (processes d1))) (d1, [], []) Hnone
    ltac:(constructor) (at_rest n t cl d Hok)).
  destruct (foldl _ _ _) as [[d2 out] es]. unfold turn_ok in *. cbn [fst snd] in *.
  rewrite heard_app, closings_app. cbn. by rewrite union_empty_r_L.
Qed.

Lemma receive_ok m i n t cl d :
  (n < u64_max)%N → daemon_ok n t cl [] d → turn_ok (n + 1) t (cl ∖ closed_by i) [] (receive m i d).
Proof.
  intros Hn Hok. pose proof (at_rest _ _ _ _ Hok) as Hd.
  assert (∀ w, turn_ok n t cl [] w → closed_by i = ∅ → turn_ok (n + 1) t (cl ∖ closed_by i) [] w) as Hw.
  { intros w H ->. rewrite difference_empty_L. eapply turn_mono; [|done|exact H]. lia. }
  destruct i; lazymatch goal with |- context [Connected] => idtac | _ => try (apply Hw; [|done]) end.
  - apply (turn_steady n t cl [] d); [|exact Hok]. apply steady_alerts.
  - cbn [closed_by]. rewrite difference_empty_L. by apply connected_turn.
  - by apply received_turn.
  - by apply disconnected_turn.
  - by apply federation_turn.
  - by apply frame_turn.
  - cbn [closed_by]. apply (turn_mono n (n + 1) (cl ∖ {[pane]}) (cl ∖ {[pane]})); [lia|done|].
    apply (invalidate_turn n t cl [] pane d); [constructor|done|done].
  - apply (turn_steady n t cl [] d); [|exact Hok]. cbn [Daemon.receive]. apply steady_parts; try done.
    + destruct refresh; [destruct applied|]; repeat constructor.
    + unfold operation_completed. case_bool_decide; by repeat constructor.
  - apply (turn_steady n t cl [] d); [|exact Hok]. apply steady_parts; try done; constructor.
  - apply (turn_steady n t cl [] d); [|exact Hok]. apply steady_transfers. intros. apply (finished_says plain_transfer).
  - apply (turn_steady n t cl [] d); [|exact Hok]. apply steady_parts; try done; constructor.
  - apply (turn_steady n t cl [] d); [|exact Hok]. apply steady_transfers. intros. by apply (say_says plain_transfer).
  - apply (turn_steady n t cl [] d); [|exact Hok]. apply steady_pairing.
  - apply (turn_steady n t cl [] d); [|exact Hok]. apply steady_parts; try done; constructor.
  - apply (turn_steady n t cl [] d); [|exact Hok]. cbn [Daemon.receive]. unfold start_refresh. destruct (_ || _).
    all: apply steady_then; [apply steady_then|intros; apply steady_pairing].
    all: try (intros; apply steady_transfers; intros; apply (sweep_says plain_transfer)).
    all: apply steady_parts; try done; repeat constructor.
  - by apply reconfigure_turn.
Qed.

Lemma handle_ok fuel m i n t cl d d' out :
  handle fuel m i d = Some (d', out) → (n < u64_max)%N → daemon_ok n t cl [] d →
  daemon_ok (n + 1) (heard out t) ((cl ∖ closed_by i) ∪ closings out) [] d'.
Proof.
  intros Hhandle Hn Hok. pose proof (receive_ok m i n t cl d Hn Hok) as Hr. unfold Daemon.handle in Hhandle.
  destruct (receive m i d) as [[d1 said] es]. unfold turn_ok in Hr. cbn [fst snd app] in Hr.
  destruct (apply fuel m es d1) as [[d2 more]|] eqn:E; [|done]. injection Hhandle as <- <-.
  pose proof (apply_ok _ _ _ _ _ _ _ _ _ E Hr) as H2. rewrite heard_app, closings_app, union_assoc_L.
  unfold drop_offer. destruct i; try exact H2. by destruct message.
Qed.
(** ** Runs *)

Abbreviation run := (Daemon.run alias_message refusal add_message).
Definition trace := list (Input * list Output).

(** What everybody was told of leases in a run, and the routes whose end was sent to
    the loop and has not arrived. *)
Definition told (tr : trace) : leases := heard (tr ≫= snd) ∅.
Definition closing (tr : trace) : gset PaneId := foldl (λ cl x, (cl ∖ closed_by x.1) ∪ closings x.2) ∅ tr.

Lemma handle_more_fuel fuel fuel' m i d r :
  fuel ≤ fuel' → handle fuel m i d = Some r → handle fuel' m i d = Some r.
Proof.
  unfold Daemon.handle. intros Hle. destruct (receive m i d) as [[d1 out] es].
  destruct (apply fuel m es d1) as [[d2 more]|] eqn:E; [|done]. by rewrite (apply_more_fuel _ _ _ _ _ _ _ _ Hle E).
Qed.
Lemma handle_some m i d : ∃ fuel r, handle fuel m i d = Some r.
Proof.
  unfold Daemon.handle. destruct (receive m i d) as [[d1 out] es].
  destruct (apply_terminates alias_message add_message m es d1) as (fuel & [d2 more] & Hf). exists fuel. rewrite Hf. by eexists.
Qed.
Lemma run_more_fuel fuel fuel' l d r :
  fuel ≤ fuel' → run fuel l d = Some r → run fuel' l d = Some r.
Proof.
  intros Hle. revert d r. induction l as [|[m i] l IH]; intros d r; [done|].
  destruct i; cbn [Daemon.run]; try done.
  all: destruct (handle fuel m _ d) as [[d1 out]|] eqn:E; [|done];
    rewrite (handle_more_fuel _ _ _ _ _ _ Hle E); cbn;
    destruct (run fuel l d1) as [[d2 rest]|] eqn:E2; [|done]; by rewrite (IH _ _ E2).
Qed.
Lemma run_some l d : ∃ fuel r, run fuel l d = Some r.
Proof.
  revert d. induction l as [|[m i] l IH]; intros d; [by exists 0; eexists|].
  destruct (handle_some m i d) as (f1 & [d1 out] & H1). destruct (IH d1) as (f2 & [d2 rest] & H2).
  exists (f1 `max` f2). eapply handle_more_fuel in H1; [|apply Nat.le_max_l].
  eapply run_more_fuel in H2; [|apply Nat.le_max_r].
  destruct i; cbn [Daemon.run]; try (by eexists); rewrite H1; cbn; rewrite H2; by eexists.
Qed.

Lemma run_ok fuel l n t cl d d' (tr : trace) :
  run fuel l d = Some (d', tr) → (n + N.of_nat (length l) ≤ u64_max)%N → daemon_ok n t cl [] d →
  ∃ n', daemon_ok n' (heard (tr ≫= snd) t) (foldl (λ cl x, (cl ∖ closed_by x.1) ∪ closings x.2) cl tr) [] d'.
Proof.
  revert n t cl d tr. induction l as [|[m i] l IH]; intros n t cl d tr; [by intros [= <- <-]; exists n|].
  cbn [length]. intros Hrun Hn Hok.
  assert ((∃ d1 out rest, handle fuel m i d = Some (d1, out) ∧ run fuel l d1 = Some (d', rest) ∧ tr = (i, out) :: rest)
    ∨ (d', tr) = (d, [])) as [(d1 & out & rest & H1 & H2 & ->)|[= -> ->]]; [| |by exists n].
  { destruct i; cbn [Daemon.run] in Hrun; try (by right; injection Hrun as <- <-).
    all: destruct (handle fuel m _ d) as [[d1 out]|] eqn:E; [|done]; cbn in Hrun;
      destruct (run fuel l d1) as [[d2 rest]|] eqn:E2; [|done]; injection Hrun as <- <-; left;
      by exists d1, out, rest. }
  assert (n < u64_max)%N as Hlt by lia. assert (n + 1 + N.of_nat (length l) ≤ u64_max)%N as Hle by lia.
  pose proof (handle_ok _ _ _ _ _ _ _ _ _ H1 Hlt Hok) as H3.
  destruct (IH _ _ _ _ _ H2 Hle H3) as [n' H4]. exists n'. cbn [mbind list_bind foldl fst snd].
  by rewrite heard_app.
Qed.

Lemma start_ok version config url p i marks names_ :
  daemon_ok 0 ∅ ∅ [] (Daemon_new version config url p i marks names_).
Proof.
  split; cbn.
  - apply new_inv.
  - unfold who. cbn. by rewrite dom_empty_L.
  - intros pane r c. cbn. by rewrite lookup_empty.
  - exists ∅. split; [intros pane r; cbn; by rewrite lookup_empty|]. intros pane _. left. by rewrite lookup_empty.
  - by intros pane ?%elem_of_nil.
  - lia.
  - done.
Qed.
(** ** The properties *)

(** C2. Behind every route there is its process. However a run of the daemon goes —
    clients coming, going and contending, terminals that fail to start, that open with
    less than was asked, that end by themselves, targets that change — the run gets to
    its end, and when it rests: every route of the broker has a process open with the
    access the broker believes it has, unless the news that the process is gone is
    already on its way to the loop; no route waits to be reported as opened with less;
    and the clients that can be written to are those the broker knows. *)
Theorem daemon_serves_routes version config url p i marks names_ (l : list (Moment * Input)) :
  (N.of_nat (length l) ≤ u64_max)%N →
  let start := Daemon_new version config url p i marks names_ in
  ∃ fuel (d : Daemon) (tr : trace), run fuel l start = Some (d, tr) ∧ downgraded d = [] ∧ outboxes d = dom (clients (broker d)) ∧
    ∀ pane r, routes (broker d) !! pane = Some r →
      processes d !! pane = Some (rt_access r) ∨ pane ∈ closing tr.
Proof.
  intros Hl start. destruct (run_some l start) as (fuel & [d tr] & Hrun). exists fuel, d, tr.
  destruct (run_ok _ _ 0 _ _ _ _ _ Hrun Hl (start_ok _ _ _ _ _ _ _)) as [n' Hok].
  pose proof (at_rest _ _ _ _ Hok) as Hd. destruct Hok as [_ Hboxes _ (mp & Hs & Hm) _ _ _].
  repeat split; try done. intros pane r Hr. specialize (Hs pane r Hr). cbn in Hs.
  destruct (decide (pane ∈ closing tr)) as [|Hno]; [by right|]. left.
  destruct (Hm pane Hno) as [<-|[Hin _]]; [done|]. rewrite Hd in Hin. by apply elem_of_nil in Hin.
Qed.

(** C5. Every client knows who controls. At the end of every run of the daemon, what
    the outbox of a subscriber of a pane was last given about that pane's lease is the
    truth: control for the client that holds it, observation for everybody else, also
    when the terminal opened with less than was asked. *)
Theorem daemon_tells_leases version config url p i marks names_ (l : list (Moment * Input))
    fuel (d : Daemon) (tr : trace) pane r (c : N) :
  (N.of_nat (length l) ≤ u64_max)%N →
  run fuel l (Daemon_new version config url p i marks names_) = Some (d, tr) →
  routes (broker d) !! pane = Some r → c ∈ rt_subscribers r →
  told tr !! (c, pane) = Some (lease_of r c).
Proof.
  intros Hl Hrun Hr Hc. destruct (run_ok _ _ 0 _ _ _ _ _ Hrun Hl (start_ok _ _ _ _ _ _ _)) as [n' Hok].
  exact (lo_told _ _ _ _ _ _ _ _ Hok pane r c Hr Hc).
Qed.
End runs.

(** ** Concrete runs *)

Import DaemonServing.Run.

Lemma daemon_serves_routes_witness :
  (N.of_nat (length contended) ≤ u64_max)%N ∧
  ∃ fuel (d : Daemon) (tr : trace), run fuel contended start = Some (d, tr) ∧ downgraded d = [] ∧ outboxes d = dom (clients (broker d)) ∧
    ∀ pane r, routes (broker d) !! pane = Some r →
      processes d !! pane = Some (rt_access r) ∨ pane ∈ closing tr.
Proof.
  assert (N.of_nat (length contended) ≤ u64_max)%N as Hl by (vm_compute; discriminate).
  split; [exact Hl|].
  exact (daemon_serves_routes alias_message refusal add_message (u "0.1") config None no_pairing
    AttentionIndex_default ∅ Aliases_default contended Hl).
Defined.

(** A terminal that opens only to be watched: the client that asked for control is
    told that it has it when it subscribes, and right after that it has not. *)
Definition degraded : list (Moment * Input) := (λ x, (watching_only, x.2)) <$> contended.

Lemma daemon_tells_leases_witness :
  match run 100 degraded start with
  | Some (d, tr) =>
      match routes (broker d) !! ex_pane with
      | Some r => 0%N ∈ rt_subscribers r ∧ told tr !! (0%N, ex_pane) = Some (lease_of r 0) ∧ lease_of r 0 = Observe
      | None => False
      end
  | None => False
  end.
Proof.
  assert (N.of_nat (length degraded) ≤ u64_max)%N as Hl by (vm_compute; discriminate).
  pose proof (λ d tr r, daemon_tells_leases alias_message refusal add_message (u "0.1") config None no_pairing
    AttentionIndex_default ∅ Aliases_default degraded 100 d tr ex_pane r 0%N Hl) as Ht.
  change (Daemon_new _ _ _ _ _ _ _) with start in Ht.
  assert ((λ x, routes (broker x.1) !! ex_pane) <$> run 100 degraded start =
    Some (Some {| rt_access := Observe; rt_cols := 4; rt_rows := 2; rt_control := None;
                  rt_subscribers := {[0%N; 1%N]}; rt_unclaimed := false |})) as Hr by (vm_compute; reflexivity).
  destruct (run 100 degraded start) as [[d tr]|]; [|discriminate Hr]. injection Hr as Hr. cbn [fst] in Hr. rewrite Hr.
  assert (0%N ∈ ({[0%N; 1%N]} : gset N)) as Hin by (clear; set_solver).
  split; [exact Hin|]. split; [|reflexivity]. exact (Ht d tr _ eq_refl Hr Hin).
Defined.

(** The news that a process ended names only the pane: when the route was given up
    and opened again before it arrives, it ends the new process. *)
Definition reopened : list (Moment * Input) :=
  pair fine <$> [Connected; hello 0; Daemon.Federation ex_working;
    Received 0 (SubscribePane ex_pane Control 4 2 AsScreen);
    Received 0 (UnsubscribePane ex_pane);
    Received 0 (SubscribePane ex_pane Control 4 2 AsScreen);
    RouteClosed ex_pane].
Example stale_end_closes_new_route :
  match run 100 reopened start with
  | Some (d, tr) =>
      processes d !! ex_pane = None ∧
      snd <$> last tr = Some [Stopped ex_pane; Said 0 (PaneClosed ex_pane)]
  | None => False
  end.
Proof. vm_compute. done. Qed.

Lemma invalidate_views pane (d : Daemon) : views (invalidate pane d).1.1 = views d.
Proof.
  unfold invalidate, shutdown, then_, on_broker. cbn [broker set_processes].
  by destruct (pane_route_closed pane (broker d)).
Qed.
(** Whatever changes in the configuration, the federation starts again; and what the
    devices are notified of stays as it was when the daemon started. *)
Example reconfigure_restarts_federation (d : Daemon) (refreshed : Config) :
  refreshed ≠ active (settings d) →
  RestartsFederation refreshed ∈ (reconfigure (Some refreshed) d).1.2 ∧
  device_notifications (views (reconfigure (Some refreshed) d).1.1) = device_notifications (views d).
Proof.
  intros Hne. unfold reconfigure. rewrite bool_decide_eq_false_2 by done. set (d1 := set_settings _ d).
  assert (∀ l w, views w.1.1 = views d → views (foldl (λ w pane, then_ w (invalidate pane)) w l).1.1 = views d) as Hgen.
  { intros l. induction l as [|pane l IH]; intros w Hw; [done|]. cbn [foldl]. apply IH. destruct w as [[d2 out] es].
    unfold then_. pose proof (invalidate_views pane d2) as Hv. destruct (invalidate pane d2) as [[d3 more] further].
    cbn in *. congruence. }
  specialize (Hgen (invalidated_routes (active (settings d)) refreshed (keys (processes d1))) (d1, [], []) eq_refl).
  destruct (foldl _ _ _) as [[d2 out] es]. cbn [fst snd] in *. split; [apply elem_of_app; right; by left|].
  change (device_notifications (views d2) = device_notifications (views d)). by rewrite Hgen.
Qed.
