(* ===== verification/DaemonLeases.v ===== *)
(** Who the daemon acts for: whatever reaches a terminal, a paste or a transfer that
    begins is the request of the client that holds the lease of the pane. *)

From S2P Require Import Prelude Text Json Model Config State Attention AgentMarks Aliases AgentCards.
From S2P Require Import Screen ScreenFacts Operation Protocol Broker BrokerInv BrokerLeases Notifications Pairing.
From S2P Require Import Clipboard Staging Retention Examples Daemon DaemonFacts DaemonServing.

Section leases.
Context {vt : Vt100} {sha : Sha256} {toml : DeviceToml}.
Context (alias_message : AliasError → ustr) (refusal : Refusal → ustr) (add_message : AddDeviceError → ustr).
Implicit Types (d : Daemon) (e : Effect) (pane : PaneId) (o : Output).
Abbreviation apply_one := (apply_one alias_message add_message).
Abbreviation apply := (apply alias_message add_message).
Abbreviation receive := (receive refusal).
Abbreviation handle := (handle alias_message refusal add_message).

(** The panes an output acts on, when it names them or their target. *)
Definition licensed (holds : PaneId → Prop) (known : gmap TargetSession Target) o : Prop :=
  match o with
  | Commanded pane (TerminalInput _) | Commanded pane (TerminalScroll _ _ _ _ _) => holds pane
  | Begun (PasteJob _ _ pane _ target) => holds pane ∧ known !! target_session pane = Some target
  | Transferring (StartAttempt _ _ _ target _) | Transferring (StartRead _ _ target _) =>
      ∃ pane, holds pane ∧ known !! target_session pane = Some target
  | Transferring (StartCopy _ _ from to _ _) =>
      ∃ source destination, holds source ∧ holds destination ∧
        known !! target_session source = Some from ∧ known !! target_session destination = Some to
  | _ => True
  end.
(** Output that acts on no pane. *)
Definition idle o : Prop := licensed (λ _, False) ∅ o.

Lemma idle_licensed holds known o : idle o → licensed holds known o.
Proof.
  destruct o as [| | | ? []| |[]|[]| | | | | | | | ]; cbn; try done; try (by intros [[] _]); try (by intros (? & [] & _)).
  by intros (? & ? & [] & _).
Qed.

#[export] Instance idle_admits : Admits (λ x, idle (transfer_output x)).
Proof. by split. Qed.

(** A turn that acts on no pane, yields nothing that does and leaves the
    configuration alone. *)
Definition quiet d (w : Turn) : Prop :=
  Forall idle w.1.2 ∧ passive w.2 ∧ settings w.1.1 = settings d.

Lemma quiet_parts d d' out es :
  settings d' = settings d → Forall idle out → passive es → quiet d (d', out, es).
Proof. by intros. Qed.
Lemma quiet_parts' d (w : Daemon * list Output) :
  settings w.1 = settings d → Forall idle w.2 → quiet d (w, []).
Proof. destruct w. intros. by apply quiet_parts; try constructor. Qed.
Lemma quiet_from d d' w : settings d' = settings d → quiet d' w → quiet d w.
Proof. intros Hs (H1 & H2 & H3). split; [done|]. split; [done|congruence]. Qed.
Lemma quiet_then d w f : quiet d w → (∀ d, quiet d (f d)) → quiet d (then_ w f).
Proof.
  intros (H1 & H2 & H3) Hf. unfold then_. destruct w as [[d1 out] es]. specialize (Hf d1).
  destruct (f d1) as [[d2 more] further]. destruct Hf as (H4 & H5 & H6).
  unfold quiet. cbn [fst snd] in *.
  split; [by apply Forall_app|]. split; [by apply passive_app|congruence].
Qed.
Lemma broadcast_passive (message : ServerMessage) (b : Broker) : passive (broadcast_state message b).
Proof. by apply passive_fmap. Qed.
Lemma tell_idle c message d : Forall idle (tell c message d).
Proof. unfold tell. case_bool_decide; by repeat constructor. Qed.
Lemma quiet_call (i : input) d d' :
  settings d' = settings d → match i with Message _ _ => False | _ => True end →
  quiet d (on_broker (step i) d').
Proof.
  intros Hs Hi. unfold on_broker. pose proof (step_passive i (broker d')) as Hp.
  destruct (step i (broker d')). apply quiet_parts; [done|constructor|]. by destruct i.
Qed.
Lemma quiet_transfers f d :
  (∀ w kept, Forall (λ x, idle (transfer_output x)) (f w kept).2) → quiet d (on_transfers f d).
Proof.
  intros Hf. unfold on_transfers. specialize (Hf (surroundings d) (transfers d)).
  destruct (f _ _) as [kept out]. apply quiet_parts; [done| |constructor]. by apply Forall_fmap.
Qed.

Lemma quiet_project m d : quiet d (project_agent_cards m d).
Proof.
  unfold project_agent_cards. destruct (expire _ _) as [marks expired]. destruct (project _ _ _ _) as [index p].
  unfold on_broker. pose proof (step_passive (CardsUpdated p)) as Hp. cbn [step] in Hp.
  specialize (Hp (broker d)). cbn [broker set_views]. destruct (agent_cards_updated p (broker d)) as [b es].
  apply quiet_parts; [done| |done]. apply Forall_app. split; [destruct expired; by repeat constructor|constructor].
Qed.
Lemma quiet_mark_attention m f d : quiet d (mark_attention m f d).
Proof.
  unfold mark_attention. destruct (f _) as [i changed]. destruct changed; [|apply quiet_parts; done || constructor].
  unfold attention_changed. eapply quiet_then; [|apply quiet_project].
  apply quiet_parts; [done|by repeat constructor|apply broadcast_passive].
Qed.
Lemma quiet_saved m d d1 saved :
  settings d1 = settings d → idle saved →
  ∀ changed : bool, quiet d (if changed then then_ (d1, [saved], []) (project_agent_cards m) else (d1, [], [])).
Proof.
  intros Hs Hi []; [eapply quiet_then; [|apply quiet_project]|]; apply quiet_parts; try done; repeat constructor. done.
Qed.
Lemma quiet_applied c request d (w : Turn) :
  quiet d w → quiet d (let '(d, out, effects) := w in (d, out ++ applied c request d, effects)).
Proof.
  intros (H1 & H2 & H3). destruct w as [[d1 out] es]. apply quiet_parts; [done| |done].
  apply Forall_app. split; [done|apply tell_idle].
Qed.
Lemma quiet_mark_agent m c request agent mark d : quiet d (mark_agent m c request agent mark d).
Proof.
  unfold mark_agent. destruct (AgentMarks.apply _ _ _ _) as [marks changed].
  by apply quiet_applied, quiet_saved.
Qed.
Lemma quiet_local_naming m c request change d : quiet d (local_naming alias_message m c request change d).
Proof.
  unfold local_naming. destruct (match change with ChangeName _ _ _ => _ | _ => _ end) as [[a changed]|er].
  - by apply quiet_applied, quiet_saved.
  - apply quiet_parts; [done|apply tell_idle|constructor].
Qed.
Lemma quiet_pairing asked p d : quiet d (pairing_turn asked p d).
Proof.
  unfold pairing_turn. match goal with |- quiet _ (foldl ?g _ _) => set (f := g) end.
  assert (∀ l (w : Turn), quiet d w → quiet d (foldl f w l)) as Hgen.
  { intros l. induction l as [|o l IH]; intros w Hw; [done|]. cbn [foldl]. apply IH. unfold f.
    apply quiet_then; [done|]. intros d'. destruct o; apply quiet_parts; try done; try constructor;
      try (by apply broadcast_passive); try (destruct asked; [apply tell_idle|constructor]); by repeat constructor. }
  apply Hgen, quiet_parts; done || constructor.
Qed.
Lemma quiet_observe m d : quiet d (observe_attention m d).
Proof.
  unfold observe_attention. destruct (observe _ _ _) as [i changed].
  destruct (negb changed); apply quiet_parts; try done; try (by repeat constructor).
  apply Forall_forall. intros e (x & Hx & _)%list_elem_of_bind. unfold attention_observed, broadcast_state in Hx.
  by apply list_elem_of_fmap in Hx as (c & -> & _).
Qed.
Lemma quiet_alerts m d : quiet d (device_alerts m d).
Proof.
  unfold device_alerts. destruct (take_ready _ _) as [q [delivery|]]; [|apply quiet_parts; done || constructor].
  destruct (nd_pane delivery); apply quiet_parts; try done; try (by repeat constructor). by apply passive_fmap.
Qed.
(** ** Carrying effects out *)

Definition permitted (holds : PaneId → Prop) e : Prop := ∀ pane, pane ∈ acts_on e → holds pane.

Lemma passive_permitted holds l : passive l → Forall (permitted holds) l.
Proof.
  intros Hl. eapply Forall_impl; [exact Hl|]. intros e He pane Hin. unfold is_passive in He.
  apply andb_true_iff in He as [Hnone%bool_decide_eq_true _]. rewrite Hnone in Hin. by apply elem_of_nil in Hin.
Qed.

Lemma quiet_licensed holds d w :
  quiet d w → Forall (licensed holds (targets (settings d))) w.1.2 ∧ passive w.2 ∧ settings w.1.1 = settings d.
Proof. intros (H1 & H2 & H3). split; [|done]. eapply Forall_impl; [exact H1|]. apply idle_licensed. Qed.

Lemma open_route_idle m pane access cols rows d :
  settings (open_route m pane access cols rows d).1 = settings d ∧ Forall idle (open_route m pane access cols rows d).2.
Proof.
  unfold open_route, shutdown. set (stopped := if bool_decide (is_Some (processes d !! pane)) then [Stopped pane] else []).
  assert (Forall idle stopped) as Hst by (unfold stopped; case_bool_decide; by repeat constructor).
  destruct (route_target _ _); [destruct (spawns m pane access); [|destruct (_ && _)]|]; split; try done.
  all: apply Forall_app; split; [exact Hst|by repeat constructor].
Qed.
Lemma run_operation_idle c request operation d : Forall idle (run_operation c request operation d).
Proof. unfold run_operation. repeat (destruct (targets _ !! _)); by repeat constructor. Qed.
Lemma begin_job_idle c request key missing job d :
  (∀ target, idle (Begun (job target))) → Forall idle (begin_job c request key missing job d).
Proof.
  intros Hj. unfold begin_job. destruct (targets _ !! _); [|apply tell_idle]. case_bool_decide; by repeat constructor.
Qed.
Lemma paste_licensed holds c request pane text d :
  holds pane → Forall (licensed holds (targets (settings d))) (paste_pane_text c request pane text d).
Proof.
  intros Hh. assert (∀ message, Forall (licensed holds (targets (settings d))) (tell c message d)) as Htell.
  { intros message. eapply Forall_impl; [apply tell_idle|apply idle_licensed]. }
  unfold paste_pane_text. destruct (targets _ !! _) as [target|] eqn:E; [|apply Htell].
  destruct (tgt_socket target); [|apply Htell]. by repeat constructor.
Qed.

Lemma apply_one_licensed holds m e d :
  permitted holds e → let w := apply_one m e d in
  Forall (licensed holds (targets (settings d))) w.1.2 ∧ passive w.2 ∧ settings w.1.1 = settings d.
Proof.
  intros He.
  assert (∀ pane command, licensed holds (targets (settings d)) (Commanded pane command) →
    Forall (licensed holds (targets (settings d))) (send_to_route pane command d)) as Hsend.
  { intros pane command Hc. unfold send_to_route. case_bool_decide; by repeat constructor. }
  assert (∀ f, (∀ kept, Forall (λ x, licensed holds (targets (settings d)) (transfer_output x))
    (f (surroundings d) kept).2) → let w := on_transfers f d in
    Forall (licensed holds (targets (settings d))) w.1.2 ∧ passive w.2 ∧ settings w.1.1 = settings d) as Hon.
  { intros f Hf. unfold on_transfers. specialize (Hf (transfers d)). destruct (f _ _) as [kept out].
    split; [by apply Forall_fmap|]. split; [constructor|done]. }
  assert (Admits (λ x, licensed holds (targets (settings d)) (transfer_output x))) as Hadm by by split.
  destruct e; cbn [Daemon.apply_one]; try (apply quiet_licensed;
    first [apply quiet_local_naming|apply quiet_mark_agent|apply quiet_mark_attention|apply quiet_pairing]).
  { apply quiet_licensed, quiet_parts; [done|apply tell_idle|constructor]. }
  { by apply quiet_licensed, (quiet_call (Broker.Disconnected client)). }
  { pose proof (open_route_idle m pane access cols rows d) as [Ho Hs].
    by apply quiet_licensed, quiet_parts'. }
  { apply quiet_licensed, quiet_parts'; [done|]. unfold shutdown. case_bool_decide; by repeat constructor. }
  { by apply quiet_licensed, (quiet_call (CloseIfUnclaimed pane)). }
  all: try (apply Hon; intros kept; first [apply begin_relay_says|apply resume_relay_says|apply stop_says
    |apply begin_download_says|apply pull_says|apply begin_between_says]).
  all: try (split; [|split; [constructor|done]]).
  all: cbn [fst snd]; try exact Hadm.
  all: try (eapply Forall_impl; [|apply idle_licensed];
    first [apply run_operation_idle|by apply begin_job_idle|apply tell_idle]).
  all: try (apply Hsend; first [done|apply He; by left]).
  - apply paste_licensed, He. by left.
  - intros target tr kept' Hk. exists pane. split; [apply He; by left|done].
  - intros target kept' Hk. exists pane. split; [apply He; by left|done].
  - intros target Hk. exists pane. split; [apply He; by left|done].
  - intros from to Hf Ht. exists source, destination. split; [apply He; by left|].
    split; [apply He; by right; left|done].
Qed.

Lemma report_passive d : passive (report_downgraded d).2 ∧ settings (report_downgraded d).1 = settings d.
Proof.
  unfold report_downgraded. destruct (each route_downgraded _ _) as [b es] eqn:E. split; [|done]. cbn.
  change es with (b, es).2. rewrite <- E. apply each_yields; [|constructor]. intros pane b'.
  exact (step_passive (RouteDowngraded pane) b').
Qed.

Lemma apply_licensed fuel m holds pend d d' out :
  apply fuel m pend d = Some (d', out) → Forall (permitted holds) pend →
  Forall (licensed holds (targets (settings d))) out.
Proof.
  revert pend d d' out. induction fuel as [|fuel IH]; intros [|e rest] d d' out Happly Hp; try done.
  1, 2: cbn in Happly; injection Happly as _ <-; constructor.
  apply Forall_cons in Hp as [He Hrest]. cbn [Daemon.apply] in Happly.
  pose proof (report_passive d) as [Hlow Hs]. destruct (report_downgraded d) as [d1 lowered]. cbn [fst snd] in *.
  pose proof (apply_one_licensed holds m e d1 He) as (H1 & H2 & H3). rewrite Hs in H1.
  destruct (apply_one m e d1) as [[d2 said] es]. cbn [fst snd] in *.
  destruct (apply fuel m (rest ++ lowered ++ es) d2) as [[d3 more]|] eqn:E; [|done]. injection Happly as <- <-.
  apply Forall_app. split; [exact H1|]. rewrite <- Hs, <- H3. eapply IH; [exact E|].
  repeat (apply Forall_app; split); [done|by apply passive_permitted..].
Qed.

(** ** Inputs *)

Lemma quiet_invalidate pane d : quiet d (invalidate pane d).
Proof.
  unfold invalidate, shutdown. apply quiet_then; [|intros; by apply (quiet_call (Broker.RouteClosed pane))].
  apply quiet_parts; [done| |constructor]. case_bool_decide; by repeat constructor.
Qed.
(** The same of a turn that may change the configuration. *)
Definition silent (w : Turn) : Prop := Forall idle w.1.2 ∧ passive w.2.
Lemma quiet_silent d w : quiet d w → silent w.
Proof. by intros (? & ? & _). Qed.
Lemma silent_then w f : silent w → (∀ d, silent (f d)) → silent (then_ w f).
Proof.
  intros [H1 H2] Hf. unfold then_. destruct w as [[d1 out] es]. specialize (Hf d1).
  destruct (f d1) as [[d2 more] further]. destruct Hf. split; [by apply Forall_app|by apply passive_app].
Qed.
Lemma silent_refresh m d : silent (receive m RefreshDue d).
Proof.
  cbn [Daemon.receive]. unfold start_refresh.
  destruct (_ || _); repeat apply silent_then; intros; try (by split; repeat constructor).
  all: eapply quiet_silent; first [apply quiet_pairing|apply quiet_transfers; intros;
    apply (sweep_says (λ x, idle (transfer_output x)))].
Qed.
Lemma silent_reconfigure refreshed d : silent (reconfigure refreshed d).
Proof.
  unfold reconfigure. destruct refreshed as [refreshed|]; [|by split; constructor].
  case_bool_decide; [by split; constructor|]. set (d1 := set_settings _ d).
  assert (∀ l w, silent w → silent (foldl (λ w pane, then_ w (invalidate pane)) w l)) as Hgen.
  { intros l. induction l as [|pane l IH]; intros w Hw; [done|]. cbn [foldl]. apply IH, silent_then; [done|].
    intros d'. eapply quiet_silent, quiet_invalidate. }
  specialize (Hgen (invalidated_routes (active (settings d)) refreshed (keys (processes d1))) (d1, [], [])
    ltac:(by split; constructor)).
  destruct (foldl _ _ _) as [[d2 out] es]. destruct Hgen. split; [|done]. apply Forall_app. split; [done|].
  by repeat constructor.
Qed.

Lemma receive_silent m i d : match i with Received _ _ => True | _ => silent (receive m i d) end.
Proof.
  destruct i; try done; try apply silent_refresh; try apply silent_reconfigure; apply (quiet_silent d).
  - apply quiet_alerts.
  - cbn [Daemon.receive]. destruct (connect (broker d)) as [b c].
    destruct (replies m); [apply quiet_parts; done || constructor|].
    by apply (quiet_call (Broker.Disconnected c)).
  - apply (quiet_from _ (set_outboxes (outboxes d ∖ {[client]}) d)); [done|].
    apply quiet_then; [|intros; by apply (quiet_call (Broker.Disconnected client))].
    apply quiet_transfers. intros. apply (client_left_says (λ x, idle (transfer_output x))).
  - apply (quiet_from _ (set_views (set_federation st (views d)) d)); [done|].
    apply quiet_then; [apply quiet_then|]; intros;
      [by apply (quiet_call (Broker.Federation st))|apply quiet_observe|apply quiet_project].
  - by apply (quiet_call (Broker.Frame pane sequence width height full payload)).
  - apply quiet_invalidate.
  - apply quiet_parts; [done| |].
    + destruct refresh; [destruct applied|]; by repeat constructor.
    + unfold operation_completed. case_bool_decide; by repeat constructor.
  - apply quiet_parts; done || constructor.
  - apply quiet_transfers. intros. apply (finished_says (λ x, idle (transfer_output x))).
  - apply quiet_parts; done || constructor.
  - apply quiet_transfers. intros. by apply (say_says (λ x, idle (transfer_output x))).
  - apply quiet_pairing.
  - apply quiet_parts; done || constructor.
Qed.

(** C3. The daemon acts for the holder of a lease and for nobody else. Whatever state
    it is in, whatever comes in and whatever the outside answers: typing and scrolling
    that reach a terminal, a paste that begins, a file transfer that starts or goes on
    are all carried out for a message of the client that held the lease of the pane
    when the message came; the target is that of the pane; and for a transfer between
    two panes the client holds both. Nothing else that happens to the daemon — a clock,
    a federation update, a pairing, a client that leaves — does any of it. *)
Theorem daemon_acts_for_holder fuel m i d d' out o :
  handle fuel m i d = Some (d', out) → o ∈ out → ¬ idle o →
  ∃ c message, i = Received c message ∧
    licensed (λ pane, holds_control c pane (broker d) = true) (targets (settings d)) o.
Proof.
  intros Hhandle Ho Hacts. unfold Daemon.handle in Hhandle. pose proof (receive_silent m i d) as Hr.
  assert ((∃ c message, i = Received c message) ∨ silent (receive m i d)) as [(c & message & ->)|[H1 H2]].
  { destruct i; eauto. }
  - exists c, message. split; [done|]. cbn [Daemon.receive] in Hhandle. unfold on_broker in Hhandle.
    assert (Forall (permitted (λ pane, holds_control c pane (broker d) = true)) (Broker.handle c message (broker d)).2)
      as Hp.
    { apply Forall_forall. intros e He pane. by apply (handle_covered c message (broker d) e He pane). }
    destruct (Broker.handle c message (broker d)) as [b es]. cbn [snd] in Hp.
    destruct (apply fuel m es (set_broker b d)) as [[d2 more]|] eqn:E; [|done]. injection Hhandle as _ <-.
    pose proof (apply_licensed _ _ _ _ _ _ _ E Hp) as Hl. rewrite Forall_forall in Hl. by apply Hl.
  - exfalso. destruct (receive m i d) as [[d1 said] es]. cbn [fst snd] in *.
    destruct (apply fuel m es d1) as [[d2 more]|] eqn:E; [|done]. injection Hhandle as _ <-. apply Hacts.
    apply elem_of_app in Ho as [Ho|Ho]; [rewrite Forall_forall in H1; by apply H1|].
    pose proof (apply_licensed _ _ (λ _, False) _ _ _ _ E (passive_permitted _ _ H2)) as Hl.
    rewrite Forall_forall in Hl. specialize (Hl o Ho). clear -Hl. unfold idle.
    destruct o as [| | | ? []| |[]|[]| | | | | | | | ]; cbn in *; try done; try (by destruct Hl);
      try (by destruct Hl as (? & [] & _)). by destruct Hl as (? & ? & [] & _).
Qed.
End leases.

Import DaemonServing.Run.

(** What the first client types reaches the terminal. *)
Definition typed : Input := Received 0 (PaneInput ex_pane (u "ls")).
Lemma daemon_acts_for_holder_witness :
  match run 100 contended start with
  | Some (d, _) =>
      snd <$> handle 100 fine typed d = Some [Commanded ex_pane (TerminalInput (u "ls"))] ∧
      ∃ c message, typed = Received c message ∧
        licensed (λ pane, holds_control c pane (broker d) = true) (targets (settings d))
          (Commanded ex_pane (TerminalInput (u "ls")))
  | None => False
  end.
Proof.
  assert (('(d, _) ← run 100 contended start; snd <$> handle 100 fine typed d)
    = Some [Commanded ex_pane (TerminalInput (u "ls"))]) as Ht by (vm_compute; reflexivity).
  destruct (run 100 contended start) as [[d tr]|]; [|discriminate Ht]. cbn [mbind option_bind] in Ht.
  split; [exact Ht|].
  pose proof (λ d' out, daemon_acts_for_holder alias_message refusal add_message 100 fine typed d d' out
    (Commanded ex_pane (TerminalInput (u "ls")))) as Hacts.
  destruct (handle 100 fine typed d) as [[d' out]|]; [|discriminate Ht]. injection Ht as Ho.
  apply (Hacts d' out eq_refl); [rewrite Ho; by left|]. exact (λ H, H).
Defined.
