(* ===== verification/PluginFleet.v ===== *)
(** What is installed where, and what differs: [src/src/plugin_fleet.rs].

    What comparing plugins across hosts guarantees: no drift is reported exactly
    when the hosts that answered agree, and a host needs nothing to reproduce
    itself. *)

From S2P Require Import Prelude Model.

Definition MAX_PLUGINS_PER_TARGET : nat := 256.

Record PluginSource := { src_kind : ustr; src_owner : ustr; src_repo : ustr; src_subdir : option ustr }.
#[export] Instance PluginSource_eq_dec : EqDecision PluginSource.
Proof. solve_decision. Defined.

(** The derived order compares the fields one after the other; an absent
    subdirectory comes before every other. *)
Definition source_tuple (s : PluginSource) : ustr * (ustr * (ustr * list ustr)) :=
  (src_kind s, (src_owner s, (src_repo s, match src_subdir s with Some dir => [dir] | None => [] end))).
#[export] Instance source_tuple_inj : Inj (=) (=) source_tuple.
Proof. intros [? ? ? [?|]] [? ? ? [?|]]; unfold source_tuple; cbn; congruence. Qed.
#[export] Instance PluginSource_countable : Countable PluginSource.
Proof.
  apply (inj_countable' source_tuple (λ t, Build_PluginSource t.1 t.2.1 t.2.2.1 (head t.2.2.2))).
  by intros [? ? ? [?|]].
Defined.
#[export] Instance PluginSource_ord : Ord PluginSource := cmp_by source_tuple.
#[export] Instance PluginSource_ord_laws : OrdLaws PluginSource := ord_laws_by source_tuple.

Definition display_source (s : PluginSource) : ustr :=
  src_owner s ++ u "/" ++ src_repo s ++ from_option (λ dir, u "/" ++ dir) [] (src_subdir s).
Definition detail_url (s : PluginSource) : option ustr :=
  if bool_decide (src_kind s = u "github")
  then Some (u "https://github.com/" ++ src_owner s ++ u "/" ++ src_repo s) else None.
Definition install_argument (s : PluginSource) : ustr := display_source s.

Record InstalledPlugin := {
  ip_plugin_id : ustr;
  ip_name : ustr;
  ip_version : ustr;
  ip_enabled : bool;
  ip_source : option PluginSource;
  ip_requested_ref : option ustr;
  ip_resolved_commit : option ustr;
  ip_warnings : list ustr;
}.
#[export] Instance InstalledPlugin_eq_dec : EqDecision InstalledPlugin.
Proof. solve_decision. Defined.

Record Inventory := {
  installed : gmap TargetSession (list InstalledPlugin);
  inventory_errors : gmap TargetSession ustr;
}.

Inductive Drift :=
  | Missing (source : PluginSource) (present_on absent_from : list TargetSession)
  | Version (source : PluginSource) (versions : gmap ustr (list TargetSession))
  | Commit (source : PluginSource) (commits : gmap ustr (list TargetSession))
  | Disabled (source : PluginSource) (disabled_on : list TargetSession)
  | LocalOnly (target : TargetSession) (plugin_id name : ustr).

Record LockedPlugin := { lk_source : PluginSource; lk_reference : ustr; lk_version : ustr }.
Record Lockfile := { lk_plugins : list LockedPlugin }.

Inductive PlanAction := Install | Update.
Record PlanStep := {
  ps_target : TargetSession;
  ps_source : PluginSource;
  ps_action : PlanAction;
  ps_from : option ustr;
  ps_to : ustr;
  ps_command : ustr;
}.

(** ** Grouping *)

Abbreviation Holders := (gmap TargetSession InstalledPlugin).
Definition insert_plugin (target : TargetSession) (grouped : gmap PluginSource Holders) (plugin : InstalledPlugin)
    : gmap PluginSource Holders :=
  match ip_source plugin with
  | None => grouped
  | Some source => <[source := <[target := plugin]> (default ∅ (grouped !! source))]> grouped
  end.
Definition insert_target (grouped : gmap PluginSource Holders) (held : TargetSession * list InstalledPlugin)
    : gmap PluginSource Holders :=
  foldl (insert_plugin held.1) grouped held.2.
Definition by_source (i : Inventory) : gmap PluginSource Holders := foldl insert_target ∅ (entries (installed i)).

(** [entry(key).or_default().push(target)]. *)
Definition push_at (key : ustr) (target : TargetSession) (m : gmap ustr (list TargetSession))
    : gmap ustr (list TargetSession) :=
  <[key := default [] (m !! key) ++ [target]]> m.
Definition versions_of (holders : Holders) : gmap ustr (list TargetSession) :=
  foldl (λ m held, push_at (ip_version held.2) held.1 m) ∅ (entries holders).
Definition commits_of (holders : Holders) : gmap ustr (list TargetSession) :=
  foldl (λ m held, match ip_resolved_commit held.2 with Some commit => push_at commit held.1 m | None => m end)
    ∅ (entries holders).
Definition disabled_of (holders : Holders) : list TargetSession :=
  (filter (λ held, ip_enabled held.2 = false) (entries holders)).*1.

(** ** Drift *)

Definition source_drift (answered : list TargetSession) (held : PluginSource * Holders) : list Drift :=
  let '(source, holders) := held in
  let absent := filter (λ target, holders !! target = None) answered in
  let versions := versions_of holders in
  let commits := commits_of holders in
  let disabled := disabled_of holders in
  (if bool_decide (absent = []) then [] else [Missing source (keys holders) absent])
  ++ (if 1 <? size versions then [Version source versions]
      else if 1 <? size commits then [Commit source commits] else [])
  ++ (if bool_decide (disabled = []) then [] else [Disabled source disabled]).
Definition local_drift (held : TargetSession * list InstalledPlugin) : list Drift :=
  (λ plugin, LocalOnly held.1 (ip_plugin_id plugin) (ip_name plugin)) <$>
    filter (λ plugin, ip_source plugin = None) held.2.
Definition drift (i : Inventory) : list Drift :=
  (entries (by_source i) ≫= source_drift (keys (installed i))) ++ (entries (installed i) ≫= local_drift).

(** ** Lockfiles and plans *)

Definition reference_of (plugin : InstalledPlugin) : option ustr :=
  match ip_resolved_commit plugin with Some commit => Some commit | None => ip_requested_ref plugin end.
Definition lock_plugin (plugin : InstalledPlugin) : option LockedPlugin :=
  source ← ip_source plugin;
  reference ← reference_of plugin;
  Some {| lk_source := source; lk_reference := reference; lk_version := ip_version plugin |}.
Definition lockfile (i : Inventory) (from : TargetSession) : option Lockfile :=
  plugins ← installed i !! from;
  Some {| lk_plugins := omap lock_plugin plugins |}.

Definition find_source (source : PluginSource) (plugins : list InstalledPlugin) : option InstalledPlugin :=
  head (filter (λ plugin, ip_source plugin = Some source) plugins).
Definition plan_command (locked : LockedPlugin) : ustr :=
  u "herdr plugin install " ++ install_argument (lk_source locked) ++ u " --ref " ++ lk_reference locked ++ u " -y".
Definition plan_step (target : TargetSession) (plugins : list InstalledPlugin) (locked : LockedPlugin)
    : option PlanStep :=
  let held := find_source (lk_source locked) plugins in
  if bool_decide (held ≫= reference_of = Some (lk_reference locked)) then None
  else Some {| ps_target := target; ps_source := lk_source locked;
               ps_action := match held with Some _ => Update | None => Install end;
               ps_from := ip_version <$> held; ps_to := lk_reference locked; ps_command := plan_command locked |}.
Definition plan_target (i : Inventory) (lock : Lockfile) (target : TargetSession) : list PlanStep :=
  match installed i !! target with
  | None => []
  | Some plugins => omap (plan_step target plugins) (lk_plugins lock)
  end.
Definition plan (i : Inventory) (lock : Lockfile) (targets : list TargetSession) : list PlanStep :=
  targets ≫= plan_target i lock.

Implicit Types (i : Inventory) (s source : PluginSource) (t target : TargetSession) (p plugin : InstalledPlugin).

Lemma filter_none {A} (P : A → Prop) `{∀ x, Decision (P x)} (l : list A) :
  filter P l = [] ↔ ∀ x, x ∈ l → ¬ P x.
Proof.
  split; [intros Hn x Hx HP; by eapply filter_nil_not_elem_of|]. intros Hl. induction l as [|x l IH]; [done|].
  rewrite filter_cons_False by (apply Hl; left). apply IH. intros y Hy. apply Hl. by right.
Qed.

(** ** Grouping *)

(** What [t] has of a source: the last plugin it lists from there. *)
Definition carried i t s : option InstalledPlugin :=
  plugins ← installed i !! t; last (filter (λ p, ip_source p = Some s) plugins).

Definition held (m : gmap PluginSource Holders) s t : option InstalledPlugin := m !! s ≫= λ h, h !! t.

Lemma held_insert m t plugin s t' :
  held (insert_plugin t m plugin) s t' =
  if decide (ip_source plugin = Some s ∧ t = t') then Some plugin else held m s t'.
Proof.
  unfold insert_plugin, held. destruct (ip_source plugin) as [s'|]; [|by case_decide as H; [destruct H|]].
  destruct (decide (s' = s)) as [->|Hs].
  - rewrite lookup_insert_eq. cbn. destruct (decide (t = t')) as [->|Ht].
    + rewrite lookup_insert_eq. by rewrite decide_True.
    + rewrite lookup_insert_ne by done. rewrite decide_False by naive_solver.
      destruct (m !! s); cbn; [done|apply lookup_empty].
  - rewrite lookup_insert_ne by done. by rewrite decide_False by naive_solver.
Qed.

Lemma held_target plugins m t s t' :
  held (insert_target m (t, plugins)) s t' =
  if decide (t = t') then
    match last (filter (λ p, ip_source p = Some s) plugins) with Some p => Some p | None => held m s t' end
  else held m s t'.
Proof.
  unfold insert_target. cbn [fst snd]. revert m. induction plugins as [|p plugins IH] using rev_ind; intros m.
  { cbn. by case_decide. }
  rewrite foldl_app. cbn [foldl]. rewrite held_insert, IH, filter_app, filter_cons.
  destruct (decide (ip_source p = Some s)) as [Hs|Hs]; cbn.
  - rewrite last_snoc. repeat case_decide; naive_solver.
  - rewrite app_nil_r. repeat case_decide; naive_solver.
Qed.

(** Lists of entries, one for each key. *)
Definition of_entries (l : list (TargetSession * list InstalledPlugin)) t s : option InstalledPlugin :=
  kv ← head (filter (λ kv, kv.1 = t) l); last (filter (λ p, ip_source p = Some s) kv.2).

Lemma held_entries l s t :
  NoDup l.*1 → held (foldl insert_target ∅ l) s t = of_entries l t s.
Proof.
  induction l as [|[t0 plugins] l IH] using rev_ind; intros Hnd; [done|].
  rewrite fmap_app in Hnd. apply NoDup_app in Hnd as (Hnd & Hnew & _). specialize (IH Hnd).
  rewrite foldl_app. cbn [foldl]. rewrite held_target, IH. unfold of_entries.
  rewrite filter_app, filter_cons. cbn [fst]. destruct (decide (t0 = t)) as [->|Ht].
  - assert (filter (λ kv, kv.1 = t) l = []) as ->.
    { apply filter_none. intros kv Hkv <-. apply (Hnew kv.1).
      - by apply list_elem_of_fmap_2.
      - by left. }
    cbn. by destruct (last _).
  - cbn. by rewrite app_nil_r.
Qed.

Lemma filter_entry {V} (l : list (TargetSession * V)) t v :
  NoDup l.*1 → (t, v) ∈ l → filter (λ kv, kv.1 = t) l = [(t, v)].
Proof.
  induction l as [|[t0 v0] l IH]; intros Hnd Hin; [by apply elem_of_nil in Hin|]. cbn in Hnd.
  apply NoDup_cons in Hnd as [Hnew Hnd]. rewrite filter_cons. cbn [fst]. apply elem_of_cons in Hin as [[= <- <-]|Hin].
  - rewrite decide_True by done. f_equal. apply filter_none. intros kv Hkv <-.
    by apply Hnew, list_elem_of_fmap_2.
  - rewrite decide_False; [by apply IH|]. intros ->. apply Hnew. change t with (t, v).1. by apply list_elem_of_fmap_2.
Qed.

Lemma held_by_source i s t : held (by_source i) s t = carried i t s.
Proof.
  unfold by_source. rewrite held_entries by (rewrite NoDup_entries_keys; apply NoDup_keys).
  unfold of_entries, carried. destruct (installed i !! t) as [plugins|] eqn:E.
  - assert (filter (λ kv, kv.1 = t) (entries (installed i)) = [(t, plugins)]) as ->.
    { apply filter_entry; [rewrite NoDup_entries_keys; apply NoDup_keys|]. by apply elem_of_entries. }
    done.
  - assert (filter (λ kv, kv.1 = t) (entries (installed i)) = []) as ->; [|done].
    apply filter_none. intros [t' ps] Hin%elem_of_entries Ht. cbn in Ht. congruence.
Qed.

Lemma is_Some_by_source i s : is_Some (by_source i !! s) ↔ ∃ t, is_Some (carried i t s).
Proof.
  split.
  - intros [h Hh]. assert (h ≠ ∅) as Hne.
    { assert (∀ l, map_Forall (λ _ h, h ≠ (∅ : Holders)) (foldl insert_target ∅ l)) as Hall; [|by apply (Hall (entries (installed i)) s)].
      assert (∀ plugins t (m : gmap PluginSource Holders), map_Forall (λ _ h, h ≠ ∅) m →
        map_Forall (λ _ h, h ≠ ∅) (insert_target m (t, plugins))) as Hone.
      { intros plugins t. unfold insert_target. cbn [fst snd].
        induction plugins as [|p plugins IH]; intros m Hm; [done|]. cbn [foldl]. apply IH. unfold insert_plugin.
        destruct (ip_source p); [|done]. apply map_Forall_insert_2; [apply insert_non_empty|done]. }
      intros l. induction l as [|[t ps] l IH] using rev_ind; [apply map_Forall_empty|].
      rewrite foldl_app. cbn [foldl]. by apply Hone. }
    apply map_choose in Hne as (t & p & Hp). exists t. rewrite <- held_by_source. unfold held. rewrite Hh. cbn. eauto.
  - intros [t Ht]. rewrite <- held_by_source in Ht. unfold held in Ht. destruct (by_source i !! s); [done|].
    by destruct Ht.
Qed.

(** ** What is pushed under each key *)

Lemma dom_push k t m : dom (push_at k t m) =@{gset ustr} {[k]} ∪ dom m.
Proof. apply dom_insert_L. Qed.
Lemma elem_of_versions (h : Holders) v : v ∈@{gset ustr} dom (versions_of h) ↔ ∃ t p, h !! t = Some p ∧ ip_version p = v.
Proof.
  transitivity (∃ t p, (t, p) ∈ entries h ∧ ip_version p = v);
    [|by split; intros (t & p & Hp%elem_of_entries & Hv); exists t, p].
  unfold versions_of. generalize (entries h) as l. intros l.
  induction l as [|[t p] l IH] using rev_ind; [split; [set_solver|by intros (? & ? & ?%elem_of_nil & _)]|].
  rewrite foldl_app. cbn [foldl fst snd]. rewrite dom_push, elem_of_union, IH, elem_of_singleton.
  setoid_rewrite elem_of_app. setoid_rewrite list_elem_of_singleton. naive_solver.
Qed.
Lemma elem_of_commits (h : Holders) c :
  c ∈@{gset ustr} dom (commits_of h) ↔ ∃ t p, h !! t = Some p ∧ ip_resolved_commit p = Some c.
Proof.
  transitivity (∃ t p, (t, p) ∈ entries h ∧ ip_resolved_commit p = Some c);
    [|by split; intros (t & p & Hp%elem_of_entries & Hc); exists t, p].
  unfold commits_of. generalize (entries h) as l. intros l.
  induction l as [|[t p] l IH] using rev_ind; [split; [set_solver|by intros (? & ? & ?%elem_of_nil & _)]|].
  rewrite foldl_app. cbn [foldl fst snd]. setoid_rewrite elem_of_app. setoid_rewrite list_elem_of_singleton.
  destruct (ip_resolved_commit p) as [c'|] eqn:E; [rewrite dom_push, elem_of_union, elem_of_singleton|]; rewrite IH.
  - naive_solver.
  - split; [naive_solver|]. intros (t' & p' & [Hin|[= -> ->]] & Hc); [by eauto|congruence].
Qed.
Lemma few {K V} `{Countable K} (m : gmap K V) :
  (1 <? size m) = false ↔ ∀ k k', k ∈@{gset K} dom m → k' ∈@{gset K} dom m → k = k'.
Proof.
  rewrite <- size_dom, Nat.ltb_ge. split.
  - intros Hs k k' Hk Hk'. assert (size (dom m) = 1) as H1.
    { assert (size (dom m) ≠ 0); [|lia]. intros H0%size_empty_inv. set_solver. }
    by apply (size_singleton_inv (dom m)).
  - intros Hone. destruct (decide (dom m = ∅)) as [->|Hne]; [rewrite size_empty; lia|].
    apply set_choose_L in Hne as [k Hk].
    rewrite <- (size_singleton k : size ({[k]} : gset K) = 1). apply subseteq_size. intros k' Hk'.
    apply elem_of_singleton. by apply Hone.
Qed.
Lemma disabled_none (h : Holders) : disabled_of h = [] ↔ ∀ t p, h !! t = Some p → ip_enabled p = true.
Proof.
  unfold disabled_of. split.
  - intros Hn%fmap_nil_inv t p Hp%elem_of_entries. rewrite filter_none in Hn. specialize (Hn _ Hp). cbn in Hn.
    by destruct (ip_enabled p).
  - intros Hall. assert (filter (λ held, ip_enabled held.2 = false) (entries h) = []) as ->; [|done].
    apply filter_none. intros [t p] Hp%elem_of_entries. cbn. by rewrite (Hall t p Hp).
Qed.

(** ** Agreement *)

(** Two hosts have the same of a source. *)
Definition same_plugin (p p' : InstalledPlugin) : Prop :=
  ip_version p = ip_version p' ∧
  ∀ c c', ip_resolved_commit p = Some c → ip_resolved_commit p' = Some c' → c = c'.

Lemma few_agree (h : Holders) :
  (1 <? size (versions_of h)) = false ∧ (1 <? size (commits_of h)) = false ↔
  ∀ t t' p p', h !! t = Some p → h !! t' = Some p' → same_plugin p p'.
Proof.
  rewrite !few. split.
  - intros [Hv Hc] t t' p p' Hp Hp'. split; [apply Hv; apply elem_of_versions; eauto|].
    intros c c' Hcp Hcp'. apply Hc; apply elem_of_commits; eauto.
  - intros Hall. split.
    + intros v v' (t & p & Hp & <-)%elem_of_versions (t' & p' & Hp' & <-)%elem_of_versions.
      by apply (Hall t t').
    + intros c c' (t & p & Hp & Hcp)%elem_of_commits (t' & p' & Hp' & Hcp')%elem_of_commits.
      by apply (Hall t t' p p').
Qed.
Lemma source_drift_nil i s h :
  by_source i !! s = Some h →
  source_drift (keys (installed i)) (s, h) = [] ↔
  (∀ t, is_Some (installed i !! t) → is_Some (h !! t)) ∧
  (∀ t t' p p', h !! t = Some p → h !! t' = Some p' → same_plugin p p') ∧
  (∀ t p, h !! t = Some p → ip_enabled p = true).
Proof.
  intros Hh. unfold source_drift. rewrite !app_nil. rewrite <- disabled_none.
  set (absent := filter _ _).
  assert ((if bool_decide (absent = []) then [] else [Missing s (keys h) absent]) = [] ↔
    ∀ t, is_Some (installed i !! t) → is_Some (h !! t)) as ->.
  { transitivity (absent = []); [by case_bool_decide|]. unfold absent. rewrite filter_none.
    setoid_rewrite elem_of_keys. setoid_rewrite <- not_eq_None_Some. naive_solver. }
  assert ((if bool_decide (disabled_of h = []) then [] else [Disabled s (disabled_of h)]) = [] ↔ disabled_of h = []) as ->
    by by case_bool_decide.
  assert ((if 1 <? size (versions_of h) then [Version s (versions_of h)]
    else if 1 <? size (commits_of h) then [Commit s (commits_of h)] else []) = [] ↔
    (1 <? size (versions_of h)) = false ∧ (1 <? size (commits_of h)) = false) as ->.
  { destruct (1 <? size (versions_of h)), (1 <? size (commits_of h)); naive_solver. }
  by rewrite few_agree.
Qed.

(** No drift is reported exactly when the hosts agree. [Inventory::drift] is empty
    if and only if every plugin of every host that answered has a source, and whatever
    source one of these hosts has a plugin from, all of them do: enabled, at one
    version and, where a host knows the commit, at one commit. A host that did not
    answer plays no part. *)
Theorem drift_exact i :
  drift i = [] ↔
  (∀ t plugins p, installed i !! t = Some plugins → p ∈ plugins → is_Some (ip_source p)) ∧
  (∀ s t t', is_Some (carried i t s) → is_Some (installed i !! t') →
    ∃ p p', carried i t s = Some p ∧ carried i t' s = Some p' ∧ same_plugin p p' ∧ ip_enabled p' = true).
Proof.
  unfold drift. rewrite app_nil.
  assert (∀ A B C D, (B ↔ C) → (A ↔ D) → (A ∧ B ↔ C ∧ D)) as Hswap by tauto. apply Hswap; clear Hswap.
  - unfold local_drift. split.
    + intros Hn t plugins p Ht Hp. rewrite <- not_eq_None_Some. intros Hnone.
      assert (LocalOnly t (ip_plugin_id p) (ip_name p) ∈ entries (installed i) ≫= local_drift) as Hin.
      { apply list_elem_of_bind. exists (t, plugins). split; [|by apply elem_of_entries].
        apply (list_elem_of_fmap_2 (λ p, LocalOnly t (ip_plugin_id p) (ip_name p))). by apply list_elem_of_filter. }
      unfold local_drift in Hin. rewrite Hn in Hin. by apply elem_of_nil in Hin.
    + intros Hall. apply elem_of_nil_inv. intros x ([t plugins] & Hx & Hin%elem_of_entries)%list_elem_of_bind.
      apply list_elem_of_fmap in Hx as (p & -> & [Hnone Hp]%list_elem_of_filter). cbn in Hp.
      destruct (Hall t plugins p Hin Hp) as [s Hs]. congruence.
  - assert (entries (by_source i) ≫= source_drift (keys (installed i)) = [] ↔
      ∀ s h, by_source i !! s = Some h → source_drift (keys (installed i)) (s, h) = []) as ->.
    { split.
      - intros Hn s h Hh. apply elem_of_nil_inv. intros x Hx.
        assert (x ∈ entries (by_source i) ≫= source_drift (keys (installed i))) as Hin.
        { apply list_elem_of_bind. exists (s, h). split; [done|by apply elem_of_entries]. }
        rewrite Hn in Hin. by apply elem_of_nil in Hin.
      - intros Hall. apply elem_of_nil_inv. intros x ([s h] & Hx & Hin%elem_of_entries)%list_elem_of_bind.
        rewrite (Hall s h Hin) in Hx. by apply elem_of_nil in Hx. }
    assert (∀ s h t, by_source i !! s = Some h → h !! t = carried i t s) as Hcar.
    { intros s h t Hh. rewrite <- held_by_source. unfold held. by rewrite Hh. }
    split.
    + intros Hall s t t' Hs Ht'. assert (is_Some (by_source i !! s)) as [h Hh] by (apply is_Some_by_source; eauto).
      destruct (proj1 (source_drift_nil i s h Hh) (Hall s h Hh)) as (H1 & H2 & H3).
      specialize (H1 t' Ht') as [p' Hp']. rewrite <- (Hcar s h t Hh) in Hs. destruct Hs as [p Hp].
      exists p, p'. rewrite <- !(Hcar s h) by done.
      split; [done|]. split; [done|]. split; [by apply (H2 t t')|by apply (H3 t')].
    + intros Hall s h Hh. apply source_drift_nil; [done|].
      assert (∃ t, is_Some (carried i t s)) as [t0 Ht0] by (apply is_Some_by_source; eauto).
      assert (∀ t p, h !! t = Some p → is_Some (installed i !! t)) as Hin.
      { intros t p Hp. rewrite (Hcar s h) in Hp by done. unfold carried in Hp. by destruct (installed i !! t). }
      assert (∀ t t', is_Some (h !! t) → is_Some (installed i !! t') →
        ∃ p p', h !! t = Some p ∧ h !! t' = Some p' ∧ same_plugin p p' ∧ ip_enabled p' = true) as Hboth.
      { intros t t'. rewrite !(Hcar s h) by done. apply Hall. }
      rewrite <- (Hcar s h) in Ht0 by done. split; [|split].
      * intros t Ht. destruct (Hboth t0 t Ht0 Ht) as (p & p' & _ & Hp' & _). by exists p'.
      * intros t t' p p' Hp Hp'. destruct (Hboth t t') as (q & q' & Hq & Hq' & Hsame & _); [by exists p|by eapply Hin|].
        congruence.
      * intros t p Hp. destruct (Hboth t t) as (q & q' & _ & Hq' & _ & He); [by exists p|by eapply Hin|]. congruence.
Qed.

(** ** Plans *)

(** A host that lists at most one plugin of each source needs nothing to be what its
    own lockfile says. *)
Definition distinct_sources (plugins : list InstalledPlugin) : Prop := NoDup (omap ip_source plugins).

Lemma find_distinct plugins p s :
  distinct_sources plugins → p ∈ plugins → ip_source p = Some s → find_source s plugins = Some p.
Proof.
  unfold distinct_sources, find_source. induction plugins as [|q plugins IH]; intros Hnd Hin Hp; [by apply elem_of_nil in Hin|].
  rewrite filter_cons. cbn [omap list_omap] in Hnd. apply elem_of_cons in Hin as [->|Hin].
  - by rewrite decide_True.
  - destruct (ip_source q) as [s'|] eqn:Hq; [|rewrite decide_False by done; by apply IH].
    apply NoDup_cons in Hnd as [Hnew Hnd]. rewrite decide_False; [by apply IH|]. intros [= ->].
    apply Hnew, list_elem_of_omap. eauto.
Qed.

Lemma plan_nil i lock targets :
  plan i lock targets = [] ↔
  ∀ t plugins locked, t ∈ targets → installed i !! t = Some plugins → locked ∈ lk_plugins lock →
    find_source (lk_source locked) plugins ≫= reference_of = Some (lk_reference locked).
Proof.
  assert (∀ plugins t locked, plan_step t plugins locked = None ↔
    find_source (lk_source locked) plugins ≫= reference_of = Some (lk_reference locked)) as Hstep.
  { intros plugins t locked. unfold plan_step. by case_bool_decide. }
  split.
  - intros Hn t plugins locked Ht Hi Hl. apply (Hstep plugins t). destruct (plan_step t plugins locked) as [st|] eqn:E; [|done].
    assert (st ∈ plan i lock targets) as Hin; [|rewrite Hn in Hin; by apply elem_of_nil in Hin].
    apply list_elem_of_bind. exists t. split; [|done]. unfold plan_target. rewrite Hi. apply list_elem_of_omap. eauto.
  - intros Hall. apply elem_of_nil_inv. intros st (t & Hst & Ht)%list_elem_of_bind. unfold plan_target in Hst.
    destruct (installed i !! t) as [plugins|] eqn:E; [|by apply elem_of_nil in Hst].
    apply list_elem_of_omap in Hst as (locked & Hl & Hs). rewrite (proj2 (Hstep plugins t locked)) in Hs; [done|].
    by apply (Hall t).
Qed.

(** A lockfile is what its host has. When a host lists no two plugins of one
    source, the plan that brings it to its own lockfile has no step; and so it is for
    every list of targets that all have, of each source, what that host has. *)
Theorem own_lockfile_satisfied i t plugins lock targets :
  installed i !! t = Some plugins → distinct_sources plugins → lockfile i t = Some lock →
  (∀ t' plugins' s, t' ∈ targets → installed i !! t' = Some plugins' → is_Some (find_source s plugins) →
    (find_source s plugins' ≫= reference_of) = (find_source s plugins ≫= reference_of)) →
  plan i lock targets = [] ∧ plan i lock [t] = [].
Proof.
  intros Hi Hd Hlock Hsame. unfold lockfile in Hlock. rewrite Hi in Hlock. injection Hlock as <-.
  assert (∀ locked, locked ∈ omap lock_plugin plugins →
    is_Some (find_source (lk_source locked) plugins) ∧
    find_source (lk_source locked) plugins ≫= reference_of = Some (lk_reference locked)) as Hown.
  { intros locked (p & Hp & Hl)%list_elem_of_omap. unfold lock_plugin in Hl.
    destruct (ip_source p) as [s|] eqn:Es; [|done]. cbn in Hl. destruct (reference_of p) as [r|] eqn:Er; [|done].
    injection Hl as <-. cbn [lk_source lk_reference]. rewrite (find_distinct plugins p s) by done. by split. }
  split; apply plan_nil; intros t' plugins' locked Ht' Hi' Hl; destruct (Hown locked Hl) as [Hf Hr].
  - by rewrite (Hsame t' plugins') by done.
  - apply list_elem_of_singleton in Ht' as ->. rewrite Hi in Hi'. by injection Hi' as <-.
Qed.

(** ** A concrete fleet *)

Definition ex_source (owner repo : string) : PluginSource :=
  {| src_kind := u "github"; src_owner := u owner; src_repo := u repo; src_subdir := None |}.
Definition ex_plugin (s : option PluginSource) (version commit : string) : InstalledPlugin := {|
  ip_plugin_id := u "review"; ip_name := u "Review"; ip_version := u version; ip_enabled := true; ip_source := s;
  ip_requested_ref := Some (u "main"); ip_resolved_commit := Some (u commit); ip_warnings := [] |}.
Definition ex_host (name : string) : TargetSession := TargetSession_new (u name) (u "work").
Definition ex_fleet : Inventory := {|
  installed := {[ ex_host "a" := [ex_plugin (Some (ex_source "alice" "review")) "1" "aa"];
                  ex_host "b" := [ex_plugin (Some (ex_source "alice" "review")) "1" "bb"];
                  ex_host "c" := [ex_plugin (Some (ex_source "bob" "review")) "1" "aa"] ]};
  inventory_errors := ∅ |}.

(** One plugin id on three hosts: the same source at two commits, and another one. *)
Example ex_fleet_drift :
  (λ d, match d with
        | Missing s present absent => (u "missing", s, absent)
        | Commit s commits => (u "commit", s, concat (values commits))
        | Version s _ => (u "version", s, [])
        | Disabled s _ => (u "disabled", s, [])
        | LocalOnly _ _ _ => (u "local", ex_source "" "", [])
        end) <$> drift ex_fleet
  = [(u "missing", ex_source "alice" "review", [ex_host "c"]);
     (u "commit", ex_source "alice" "review", [ex_host "a"; ex_host "b"]);
     (u "missing", ex_source "bob" "review", [ex_host "a"; ex_host "b"])].
Proof. by vm_compute. Qed.

Lemma own_lockfile_satisfied_witness :
  match lockfile ex_fleet (ex_host "a") with
  | Some lock => plan ex_fleet lock [] = [] ∧ plan ex_fleet lock [ex_host "a"] = []
  | None => False
  end.
Proof.
  destruct (lockfile ex_fleet (ex_host "a")) as [lock|] eqn:E; [|vm_compute in E; discriminate].
  assert (installed ex_fleet !! ex_host "a" = Some [ex_plugin (Some (ex_source "alice" "review")) "1" "aa"]) as Hi
    by (vm_compute; reflexivity).
  assert (distinct_sources [ex_plugin (Some (ex_source "alice" "review")) "1" "aa"]) as Hd.
  { unfold distinct_sources. cbn. constructor; [by intros ?%elem_of_nil|constructor]. }
  assert (∀ t' plugins' s, t' ∈ ([] : list TargetSession) → installed ex_fleet !! t' = Some plugins' →
    is_Some (find_source s [ex_plugin (Some (ex_source "alice" "review")) "1" "aa"]) →
    (find_source s plugins' ≫= reference_of) =
    (find_source s [ex_plugin (Some (ex_source "alice" "review")) "1" "aa"] ≫= reference_of)) as Hs
    by (intros t' plugins' s Ht'; inversion Ht').
  exact (own_lockfile_satisfied ex_fleet (ex_host "a") _ lock [] Hi Hd E Hs).
Defined.
