(* ===== verification/Plugins.v ===== *)
(** Plugin actions through Herdr's API: [src/src/plugin.rs].

    The readers that serde derives from the shapes of Herdr's answers are not part of
    the sources; [PluginReaders] stands for them. A session with Herdr is the one of
    [WorkspaceMove]; opening it, and the timeout around each exchange, are left out. *)

From S2P Require Import Prelude Text Json Model Operation WorkspaceMove PluginFleet.

Definition MAX_PLUGIN_ACTIONS : nat := 512.
Definition MAX_PLUGIN_RUNS : N := 64.

Record ListedAction := {
  la_plugin_id : ustr; la_action_id : ustr; la_title : ustr; la_description : option ustr; la_contexts : list ustr }.
Record ActionList := { al_kind : ustr; al_actions : list ListedAction }.
Record CommandLog := {
  log_id : ustr; log_plugin_id : ustr; log_action_id : option ustr; log_status : PluginRunStatus }.
Record CommandLogList := { cll_kind : ustr; cll_logs : list CommandLog }.
Record ListedSource := {
  ls_kind : option ustr; ls_owner : option ustr; ls_repo : option ustr; ls_subdir : option ustr;
  ls_requested_ref : option ustr; ls_resolved_commit : option ustr }.
Record ListedPlugin := {
  lp_plugin_id : ustr; lp_name : ustr; lp_version : ustr; lp_enabled : bool; lp_source : option ListedSource;
  lp_warnings : list ustr }.
Record PluginList := { pl_kind : ustr; pl_plugins : list ListedPlugin }.

Class PluginReaders (V : Type) := {
  read_action_list : V → option ActionList;
  read_log : V → option CommandLog;
  read_log_list : V → option CommandLogList;
  read_plugin_list : V → option PluginList;
}.

(** ** What is listed *)

Definition bounded (value : ustr) : ustr := take 256 ((λ c, if is_control c then 32%N else c) <$> value).
Definition requested_ref_of (p : ListedPlugin) : option ustr := source ← lp_source p; bounded <$> ls_requested_ref source.
Definition resolved_commit_of (p : ListedPlugin) : option ustr :=
  source ← lp_source p; bounded <$> ls_resolved_commit source.
Definition source_of (s : ListedSource) : option PluginSource :=
  kind ← ls_kind s;
  owner ← ls_owner s;
  repo ← ls_repo s;
  Some {| src_kind := bounded kind; src_owner := bounded owner; src_repo := bounded repo;
          src_subdir := bounded <$> ls_subdir s |}.
Definition installed_of (p : ListedPlugin) : InstalledPlugin := {|
  ip_plugin_id := bounded (lp_plugin_id p); ip_name := bounded (lp_name p); ip_version := bounded (lp_version p);
  ip_enabled := lp_enabled p; ip_source := lp_source p ≫= source_of;
  ip_requested_ref := requested_ref_of p; ip_resolved_commit := resolved_commit_of p;
  ip_warnings := bounded <$> take 8 (lp_warnings p) |}.

Definition context_of (context : ustr) : PluginActionContext :=
  if bool_decide (context = u "global") then CGlobal
  else if bool_decide (context = u "workspace") then CWorkspace
  else if bool_decide (context = u "tab") then CTab
  else if bool_decide (context = u "pane") then CPane
  else if bool_decide (context = u "selection") then CSelection
  else CUnsupported.
Definition action_of (target : TargetSession) (a : ListedAction) : PluginAction := {|
  act_id := {| pa_target := target; pa_plugin_id := la_plugin_id a; pa_action_id := la_action_id a |};
  act_title := la_title a; act_description := la_description a; act_contexts := context_of <$> la_contexts a |}.

Section readers.
Context {V : Type} `{PluginReaders V}.

Definition parse_installed (value : V) : result ustr (list InstalledPlugin) :=
  listed ← ok_or (read_plugin_list value) (u "Herdr returned an invalid plugin list");
  if negb (bool_decide (pl_kind listed = u "plugin_list"))
  then Err (u "Herdr returned an unexpected plugin list response")
  else if MAX_PLUGINS_PER_TARGET <? length (pl_plugins listed)
  then Err (u "Herdr reported more than " ++ display_N (N.of_nat MAX_PLUGINS_PER_TARGET) ++ u " plugins")
  else Ok (installed_of <$> pl_plugins listed).

Definition parse_list (target : TargetSession) (value : V) : result ustr (list PluginAction) :=
  listed ← ok_or (read_action_list value) (u "Herdr returned an invalid plugin action registry");
  if negb (bool_decide (al_kind listed = u "plugin_action_list"))
  then Err (u "Herdr returned an unexpected plugin action response")
  else if MAX_PLUGIN_ACTIONS <? length (al_actions listed)
  then Err (u "Herdr returned more than " ++ display_N (N.of_nat MAX_PLUGIN_ACTIONS) ++ u " plugin actions")
  else Ok (action_of target <$> al_actions listed).

Definition qualify_run (target : TargetSession) (log : CommandLog) : PluginRun := {|
  run_id := {| run_target := target; run_plugin_id := log_plugin_id log; run_log_id := log_id log |};
  run_action_id := log_action_id log; run_status := log_status log |}.
End readers.

(** ** The context of an invocation *)

Section invocation.
Context {V S : Type} `{JsonValue V} `{JsonBuild V} `{ApiSession V S} `{PluginReaders V}.

Definition ask (method : string) (params : list (ustr * V)) : api S V := request (u method) (json_object params).
Definition answers (value : V) (kind : string) : bool := bool_decide (string_field value "type" = Some (u kind)).

(** An object of Herdr's; [Map::get] on it is [json_get]. *)
Definition response_object (value : V) (expected field : string) : result ustr V :=
  if negb (answers value expected)
  then Err (u "Herdr returned an unexpected " ++ u expected ++ u " response")
  else ok_or (object ← json_get value (u field); _ ← as_object object; Some object)
         (u "Herdr returned invalid " ++ u expected ++ u " data").

Definition ensure_requested (kind : string) (requested returned : option ustr) : result ustr () :=
  match requested with
  | Some id =>
      if bool_decide (returned = Some id) then Ok ()
      else Err (u "Herdr returned a different " ++ u kind ++ u " while building plugin context")
  | None => Ok ()
  end.

Definition string_ref (value : option V) (field : string) : option ustr := v ← value; string_field v field.
Definition option_or {A} (a b : option A) : option A := match a with Some x => Some x | None => b end.

(** An object asked for by its identifier. *)
Definition fetch_object (method kind field : string) (params : list (ustr * V)) : api S V :=
  value ← ask method params; lift (response_object value kind field).
Definition get_tab (id : ustr) : api S V :=
  fetch_object "tab.get" "tab_info" "tab" [(u "tab_id", json_string id)].

Definition focused_candidate (candidate : V) : bool := default false (json_get candidate (u "focused") ≫= as_bool).
Definition in_tab (tab_id : option ustr) (candidate : V) : bool :=
  match tab_id with Some id => bool_decide (string_field candidate "tab_id" = Some id) | None => true end.
(** The pane a tab is worked in: the one that has the focus, or the first. *)
Definition listed_pane (tab_id : option ustr) (panes : list V) : option V :=
  let there := filter (λ candidate, in_tab tab_id candidate = true) panes in
  candidate ← option_or (head (filter (λ candidate, focused_candidate candidate = true) there)) (head there);
  _ ← as_object candidate;
  Some candidate.

Record Hydrated := {
  hy_pane : option V; hy_tab : option V; hy_workspace : option V; hy_tab_id : option ustr; hy_workspace_id : option ustr }.

Definition requested_pane (t : PluginInvocationTarget) : option ustr :=
  match t with InvokePane pane => Some (server_local_id pane) | _ => None end.
Definition requested_tab (t : PluginInvocationTarget) : option ustr :=
  match t with InvokeTab tab => Some (server_local_id tab) | _ => None end.
Definition requested_workspace (t : PluginInvocationTarget) : option ustr :=
  match t with InvokeWorkspace workspace => Some (server_local_id workspace) | _ => None end.
Definition some_of {A} (m : api S A) : api S (option A) := a ← m; mret (Some a).

(** What is asked about the resource, until it says which pane, tab and workspace it
    is in: [hydrated_context] up to its checks, a step for each question. *)
Definition ask_pane (t : PluginInvocationTarget) : api S (option V) :=
  match requested_pane t, t with
  | Some id, _ => some_of (fetch_object "pane.get" "pane_info" "pane" [(u "pane_id", json_string id)])
  | None, InvokeSession _ => some_of (fetch_object "pane.current" "pane_current" "pane" [])
  | None, _ => mret None
  end.
Definition ask_tab (tab_id : option ustr) : api S (option V) :=
  match tab_id with Some id => some_of (get_tab id) | None => mret None end.
Definition ask_workspace (workspace_id : option ustr) : api S (option V) :=
  match workspace_id with
  | Some id => some_of (fetch_object "workspace.get" "workspace_info" "workspace" [(u "workspace_id", json_string id)])
  | None => mret None
  end.
Definition ask_active_tab (tab_id : option ustr) (tab workspace : option V) : api S (option ustr * option V) :=
  match tab_id with
  | Some _ => mret (tab_id, tab)
  | None =>
      match string_ref workspace "active_tab_id" with
      | Some active => tab ← get_tab active; mret (Some active, Some tab)
      | None => mret (None, tab)
      end
  end.
Definition ask_listed_pane (pane : option V) (tab_id workspace_id : option ustr) : api S (option V) :=
  match pane, workspace_id with
  | None, Some id =>
      listed ← ask "pane.list" [(u "workspace_id", json_string id)];
      if negb (answers listed "pane_list")
      then lift (Err (u "Herdr returned an unexpected pane list while building plugin context"))
      else mret ((json_get listed (u "panes") ≫= as_array) ≫= listed_pane tab_id)
  | pane, _ => mret pane
  end.
Definition hydrate (t : PluginInvocationTarget) : api S Hydrated :=
  pane ← ask_pane t;
  let tab_id := option_or (requested_tab t) (string_ref pane "tab_id") in
  tab ← ask_tab tab_id;
  let workspace_id := option_or (option_or (requested_workspace t) (string_ref pane "workspace_id"))
                        (string_ref tab "workspace_id") in
  workspace ← ask_workspace workspace_id;
  '(tab_id, tab) ← ask_active_tab tab_id tab workspace;
  pane ← ask_listed_pane pane tab_id workspace_id;
  mret {| hy_pane := pane; hy_tab := tab; hy_workspace := workspace; hy_tab_id := tab_id;
          hy_workspace_id := workspace_id |}.

(** What Herdr answered is what was asked for. *)
Definition checked (t : PluginInvocationTarget) (h : Hydrated) : result ustr () :=
  _ ← ensure_requested "pane" (requested_pane t) (string_ref (hy_pane h) "pane_id");
  _ ← ensure_requested "tab" (hy_tab_id h) (string_ref (hy_tab h) "tab_id");
  _ ← ensure_requested "workspace" (hy_workspace_id h) (string_ref (hy_workspace h) "workspace_id");
  if bool_decide (is_Some (hy_workspace_id h)) && bool_decide (hy_pane h = None)
  then Err (u "Herdr returned no pane in the selected plugin context") else Ok ().

Definition optional (field : string) (value : option ustr) : list (ustr * V) :=
  match value with Some value => [(u field, json_string value)] | None => [] end.
Definition present (field : string) (value : option V) : list (ustr * V) :=
  match value with Some value => if is_null value then [] else [(u field, value)] | None => [] end.
Definition pane_cwd (h : Hydrated) : option ustr :=
  option_or (string_ref (hy_pane h) "foreground_cwd") (string_ref (hy_pane h) "cwd").
Definition worktree (h : Hydrated) : option V := workspace ← hy_workspace h; json_get workspace (u "worktree").
Definition workspace_cwd (h : Hydrated) : option ustr :=
  option_or (tree ← worktree h; if is_null tree then None else string_field tree "checkout_path") (pane_cwd h).

Definition invocation_context (h : Hydrated) : V :=
  json_object
    (optional "workspace_id" (hy_workspace_id h)
     ++ optional "workspace_label" (string_ref (hy_workspace h) "label")
     ++ optional "workspace_cwd" (workspace_cwd h)
     ++ present "worktree" (worktree h)
     ++ optional "tab_id" (hy_tab_id h)
     ++ optional "tab_label" (string_ref (hy_tab h) "label")
     ++ optional "focused_pane_id" (string_ref (hy_pane h) "pane_id")
     ++ optional "focused_pane_cwd" (pane_cwd h)
     ++ optional "focused_pane_agent"
          (option_or (string_ref (hy_pane h) "display_agent") (string_ref (hy_pane h) "agent"))
     ++ present "focused_pane_status" (pane ← hy_pane h; json_get pane (u "agent_status"))
     ++ [(u "invocation_source", json_string (u "super-herdr")); (u "selected_text", json_string []);
         (u "clicked_url", json_string []); (u "link_handler_id", json_string [])]).

Definition hydrated_context (t : PluginInvocationTarget) : api S V :=
  h ← hydrate t; _ ← lift (checked t h); mret (invocation_context h).

(** [invoke], on a session that is open. *)
Definition invoke_request (action : PluginActionId) (context : V) : list (ustr * V) :=
  [(u "plugin_id", json_string (pa_plugin_id action)); (u "action_id", json_string (pa_action_id action));
               (u "context", context)].
Definition invoke (action : PluginActionId) (t : PluginInvocationTarget) : api S PluginRun :=
  if negb (bool_decide (pa_target action = invocation_session t))
  then lift (Err (u "plugin action and invocation context belong to different Herdr sessions"))
  else
    context ← hydrated_context t;
    answer ← ask "plugin.action.invoke" (invoke_request action context);
    if negb (answers answer "plugin_action_invoked")
    then lift (Err (u "Herdr returned an unexpected plugin action result"))
    else
      value ← lift (ok_or (json_get answer (u "log")) (u "Herdr returned no plugin action run"));
      log ← lift (ok_or (read_log value) (u "Herdr returned an invalid plugin action run"));
      let run := qualify_run (pa_target action) log in
      if negb (bool_decide (run_plugin_id (run_id run) = pa_plugin_id action))
         || negb (bool_decide (run_action_id run = Some (pa_action_id action)))
      then lift (Err (u "Herdr returned a different plugin action run"))
      else mret run.

(** [status]. *)
Definition status (run : PluginRunId) : api S PluginRun :=
  value ← ask "plugin.log.list" [(u "plugin_id", json_string (run_plugin_id run)); (u "limit", json_u64 MAX_PLUGIN_RUNS)];
  listed ← lift (ok_or (read_log_list value) (u "Herdr returned invalid plugin run state"));
  if negb (bool_decide (cll_kind listed = u "plugin_log_list"))
  then lift (Err (u "Herdr returned an unexpected plugin run response"))
  else lift (ok_or (qualify_run (run_target run) <$>
                      head (filter (λ log, log_id log = run_log_id run ∧ log_plugin_id log = run_plugin_id run)
                              (cll_logs listed)))
               (u "Herdr no longer has that plugin run")).

(** [list] and [installed]. *)
Definition list_actions (target : TargetSession) : api S (list PluginAction) :=
  value ← ask "plugin.action.list" []; lift (parse_list target value).
Definition list_installed : api S (list InstalledPlugin) :=
  value ← ask "plugin.list" []; lift (parse_installed value).
End invocation.
