(* ===== verification/PluginsFacts.v ===== *)
(** What invoking a plugin action guarantees: the action runs in the context it was
    asked for in, or not at all. *)

From S2P Require Import Prelude Text Json Model Operation WorkspaceMove PluginFleet Plugins.

(** ** What a computation asks *)

(** A session that keeps what it is asked and what it answers. *)
Definition exchange (V : Type) : Type := ustr * V * result ustr V.
#[export] Instance recorded {V S} `{ApiSession V S} : ApiSession V (S * list (exchange V)) :=
  λ method params s, let '(r, s') := request method params s.1 in (r, (s', s.2 ++ [(method, params, r)])).

Section asks.
Context {V S : Type} `{ApiSession V S}.
Implicit Types (P : exchange V → Prop).

(** All that [m] asks satisfies [P]. *)
Definition asks {A} (m : api (S * list (exchange V)) A) P : Prop :=
  ∀ s, ∃ new, (m s).2.2 = s.2 ++ new ∧ Forall P new.

Lemma asks_bind {A B} (m : api (S * list (exchange V)) A) (f : A → api (S * list (exchange V)) B) P :
  asks m P → (∀ a, asks (f a) P) → asks (m ≫= f) P.
Proof.
  intros Hm Hf s. destruct (Hm s) as (new & Hs & Hnew). unfold mbind, api_bind.
  destruct (m s) as [[a|e] s1]; cbn in Hs; [|by exists new].
  destruct (Hf a s1) as (new2 & Hs2 & Hnew2). exists (new ++ new2). rewrite Hs2, Hs, app_assoc.
  split; [done|]. by apply Forall_app.
Qed.
Lemma asks_nothing {A} (r : result ustr A) P : asks (λ s, (r, s)) P.
Proof. intros s. exists []. by rewrite app_nil_r. Qed.
Lemma asks_request method params P : (∀ r, P (method, params, r)) → asks (request method params) P.
Proof.
  intros HP s. unfold request, recorded. destruct (request method params s.1) as [r s'].
  exists [(method, params, r)]. split; [done|by repeat constructor].
Qed.

(** What was said before is kept. *)
Lemma asks_keep {A} (m : api (S * list (exchange V)) A) P s a s' q :
  asks m P → m s = (a, s') → q ∈ s.2 → q ∈ s'.2.
Proof. intros Hm Hs Hq. destruct (Hm s) as (new & Hnew & _). rewrite Hs in Hnew. cbn in Hnew. rewrite Hnew. set_solver. Qed.

(** A computation that succeeds went through each of its steps. *)
Lemma bind_ok {A B} (m : api (S * list (exchange V)) A) (f : A → api (S * list (exchange V)) B) s b s' :
  (m ≫= f) s = (Ok b, s') → ∃ a s1, m s = (Ok a, s1) ∧ f a s1 = (Ok b, s').
Proof. unfold mbind, api_bind. destruct (m s) as [[a|e] s1]; [by exists a, s1|done]. Qed.
End asks.

Section contexts.
Context {V S : Type} `{JsonLaws V} `{ApiSession V S} `{PluginReaders V}.
Abbreviation session := (S * list (exchange V))%type.
Implicit Types (s : session) (t : PluginInvocationTarget) (h : Hydrated (V := V)).

Lemma some_of_ok {A} (m : api session A) s o s' : some_of m s = (Ok o, s') → ∃ a, o = Some a ∧ m s = (Ok a, s').
Proof. unfold some_of. intros (a & s1 & Ha & [= <- <-])%bind_ok. eauto. Qed.

(** Nothing but the invocation itself asks Herdr to run anything. *)
Definition invocation : ustr := u "plugin.action.invoke".
Definition harmless (q : exchange V) : Prop := q.1.1 ≠ invocation.

Lemma ask_harmless method params : u method ≠ invocation → asks (ask (S := session) method params) harmless.
Proof. intros Hm. by apply asks_request. Qed.
Lemma fetch_harmless method kind field params :
  u method ≠ invocation → asks (fetch_object (S := session) method kind field params) harmless.
Proof. intros Hm. apply asks_bind; [by apply ask_harmless|]. intros value. apply asks_nothing. Qed.
Lemma some_fetch_harmless method kind field params :
  u method ≠ invocation → asks (some_of (fetch_object (S := session) method kind field params)) harmless.
Proof. intros Hm. apply asks_bind; [by apply fetch_harmless|]. intros value. apply asks_nothing. Qed.
Lemma ask_pane_harmless t : asks (ask_pane (S := session) t) harmless.
Proof.
  unfold ask_pane. destruct (requested_pane t); [by apply some_fetch_harmless|].
  destruct t; try apply asks_nothing. by apply some_fetch_harmless.
Qed.
Lemma ask_tab_harmless id : asks (ask_tab (S := session) id) harmless.
Proof. unfold ask_tab. destruct id; [by apply some_fetch_harmless|apply asks_nothing]. Qed.
Lemma ask_workspace_harmless id : asks (ask_workspace (S := session) id) harmless.
Proof. unfold ask_workspace. destruct id; [by apply some_fetch_harmless|apply asks_nothing]. Qed.
Lemma ask_active_tab_harmless id tab workspace : asks (ask_active_tab (S := session) id tab workspace) harmless.
Proof.
  unfold ask_active_tab. destruct id; [apply asks_nothing|]. destruct (string_ref _ _); [|apply asks_nothing].
  apply asks_bind; [by apply fetch_harmless|intros; apply asks_nothing].
Qed.
Lemma ask_listed_pane_harmless pane tab_id workspace_id : asks (ask_listed_pane (S := session) pane tab_id workspace_id) harmless.
Proof.
  unfold ask_listed_pane. destruct pane; [apply asks_nothing|]. destruct workspace_id; [|apply asks_nothing].
  apply asks_bind; [by apply ask_harmless|]. intros listed. destruct (negb _); apply asks_nothing.
Qed.
Lemma hydrate_harmless t : asks (hydrate (S := session) t) harmless.
Proof.
  unfold hydrate. apply asks_bind; [apply ask_pane_harmless|intros pane].
  apply asks_bind; [apply ask_tab_harmless|intros tab].
  apply asks_bind; [apply ask_workspace_harmless|intros workspace].
  apply asks_bind; [apply ask_active_tab_harmless|intros [tab_id tab']].
  apply asks_bind; [apply ask_listed_pane_harmless|intros; apply asks_nothing].
Qed.

(** Herdr was asked for an object by its identifier, and answered with one of the kind. *)
Definition answered (log : list (exchange V)) (method kind field id_field : string) (id : ustr) (object : V) : Prop :=
  ∃ answer, (u method, json_object [(u id_field, json_string id)], Ok answer) ∈ log ∧
    string_field answer "type" = Some (u kind) ∧ json_get answer (u field) = Some object.
Lemma answered_keep {A} (m : api session A) P s a s' method kind field id_field id object :
  asks m P → m s = (a, s') → answered s.2 method kind field id_field id object →
  answered s'.2 method kind field id_field id object.
Proof. intros Hm Hs (answer & Hin & ?). exists answer. split; [|done]. by eapply asks_keep. Qed.
Lemma fetch_answered method kind field id_field id s object s' :
  fetch_object method kind field [(u id_field, json_string id)] s = (Ok object, s') →
  answered s'.2 method kind field id_field id object.
Proof.
  unfold fetch_object. intros (answer & s1 & Ha & Hl)%bind_ok. unfold lift in Hl. injection Hl as Hl <-.
  exists answer. split.
  - unfold ask, request, recorded in Ha. destruct (request _ _ s.1) as [r' s'']. injection Ha as -> <-. cbn [snd]. set_solver.
  - unfold response_object, answers in Hl. case_bool_decide as Ht; [|done]. split; [done|]. cbn [negb] in Hl.
    destruct (json_get answer (u field)) as [o|]; [|done]. cbn in Hl. destruct (as_object o); [|done]. by injection Hl as <-.
Qed.

(** ** What is found out *)

Definition pane_answered log := answered log "pane.get" "pane_info" "pane" "pane_id".
Definition tab_answered log := answered log "tab.get" "tab_info" "tab" "tab_id".
Ltac keeps := eapply answered_keep; [|eassumption|];
  [first [apply ask_tab_harmless|apply ask_workspace_harmless|apply ask_active_tab_harmless|apply ask_listed_pane_harmless]|].

Lemma hydrate_spec t s h s' :
  hydrate t s = (Ok h, s') →
  (∀ id, requested_workspace t = Some id → hy_workspace_id h = Some id) ∧
  (∀ id, requested_tab t = Some id → hy_tab_id h = Some id ∧ ∃ tab, hy_tab h = Some tab ∧ tab_answered s'.2 id tab ∧
    ∀ workspace, string_field tab "workspace_id" = Some workspace → hy_workspace_id h = Some workspace) ∧
  (∀ id, requested_pane t = Some id → ∃ pane, hy_pane h = Some pane ∧ pane_answered s'.2 id pane ∧
    (∀ tab, string_field pane "tab_id" = Some tab → hy_tab_id h = Some tab) ∧
    (∀ workspace, string_field pane "workspace_id" = Some workspace → hy_workspace_id h = Some workspace)).
Proof.
  unfold hydrate. intros (pane & s1 & Hpane & (tab & s2 & Htab & (workspace & s3 & Hws &
    ([tab_id tab'] & s4 & Hactive & (pane' & s5 & Hlisted & [= <- <-])%bind_ok)%bind_ok)%bind_ok)%bind_ok)%bind_ok.
  cbn [hy_pane hy_tab hy_tab_id hy_workspace_id].
  assert (∀ id, option_or (requested_tab t) (string_ref pane "tab_id") = Some id → tab_id = Some id ∧ tab' = tab) as Htab_id.
  { intros id Hid. unfold ask_active_tab in Hactive. rewrite Hid in Hactive. by injection Hactive as <- <- _. }
  split; [by intros id ->|]. split.
  - intros id Hreq. assert (requested_workspace t = None ∧ pane = None) as [Hw ->].
    { destruct t; try done. split; [done|]. by injection Hpane. }
    rewrite Hreq, Hw in *. cbn [option_or] in *. destruct (Htab_id id eq_refl) as [-> ->]. split; [done|].
    apply some_of_ok in Htab as (object & -> & Htab). exists object. split; [done|]. split; [|by intros ws Hin; unfold string_ref; cbn; rewrite Hin].
    do 3 keeps. unfold tab_answered. by eapply fetch_answered.
  - intros id Hreq. assert (requested_tab t = None ∧ requested_workspace t = None) as [Ht Hw] by by destruct t.
    unfold ask_pane in Hpane. rewrite Hreq in Hpane. apply some_of_ok in Hpane as (p & -> & Hpane).
    pose proof Hlisted as Hlisted'. unfold ask_listed_pane in Hlisted. injection Hlisted as <- _.
    rewrite Ht, Hw in *. cbn [option_or] in *. exists p. split; [done|]. split.
    + do 4 keeps. by eapply fetch_answered.
    + split; [intros tab_id' Hid; by apply Htab_id|by intros ws Hin; unfold string_ref; cbn; rewrite Hin].
Qed.

Lemma checked_spec t h :
  checked t h = Ok () →
  (∀ id, requested_pane t = Some id → string_ref (hy_pane h) "pane_id" = Some id) ∧
  (∀ id, hy_tab_id h = Some id → string_ref (hy_tab h) "tab_id" = Some id) ∧
  (∀ id, hy_workspace_id h = Some id → string_ref (hy_workspace h) "workspace_id" = Some id) ∧
  (is_Some (hy_workspace_id h) → is_Some (hy_pane h)).
Proof.
  assert (∀ kind requested returned, ensure_requested kind requested returned = Ok () →
    ∀ id, requested = Some id → returned = Some id) as Hreq.
  { intros kind requested returned He id ->. cbn in He. by case_bool_decide. }
  unfold checked. intros Hc. destruct (ensure_requested "pane" _ _) as [[]|] eqn:E1; [|done]. cbn in Hc.
  destruct (ensure_requested "tab" _ _) as [[]|] eqn:E2; [|done]. cbn in Hc.
  destruct (ensure_requested "workspace" _ _) as [[]|] eqn:E3; [|done]. cbn in Hc.
  split; [by eapply Hreq|]. split; [by eapply Hreq|]. split; [by eapply Hreq|]. intros Hw.
  rewrite bool_decide_eq_true_2 in Hc by done. cbn in Hc. case_bool_decide as Hp; [done|].
  by destruct (hy_pane h).
Qed.

(** ** What the context says *)

Lemma assoc_last_app {A} (l l' : list (ustr * A)) k :
  assoc_last (l ++ l') k = match assoc_last l' k with Some v => Some v | None => assoc_last l k end.
Proof.
  induction l as [|[k' v] l IH]; cbn; [by destruct (assoc_last l' k)|]. rewrite IH. by destruct (assoc_last l' k).
Qed.
Lemma assoc_optional_eq field v : assoc_last (optional (V := V) field v) (u field) = json_string <$> v.
Proof. unfold optional. destruct v; [|done]. cbn. by rewrite decide_True. Qed.
Lemma assoc_optional_ne field v k : u field ≠ k → assoc_last (optional (V := V) field v) k = None.
Proof. intros Hk. unfold optional. destruct v; [|done]. cbn. by rewrite decide_False. Qed.
Lemma assoc_present_ne field (v : option V) k : u field ≠ k → assoc_last (present field v) k = None.
Proof. intros Hk. unfold present. destruct v as [v|]; [|done]. destruct (is_null v); [done|]. cbn. by rewrite decide_False. Qed.

Lemma assoc_last_skip_l {A} (l l' : list (ustr * A)) k :
  assoc_last l k = None → assoc_last (l ++ l') k = assoc_last l' k.
Proof. intros Hl. rewrite assoc_last_app, Hl. by destruct (assoc_last l' k). Qed.
Lemma assoc_last_skip_r {A} (l l' : list (ustr * A)) k :
  assoc_last l' k = None → assoc_last (l ++ l') k = assoc_last l k.
Proof. intros Hl. by rewrite assoc_last_app, Hl. Qed.
Ltac skip_fields :=
  repeat (rewrite assoc_last_skip_l by first [by apply assoc_optional_ne|by apply assoc_present_ne]).

(** Where a context names a pane, a tab or a workspace, it is the one found out. *)
Lemma context_names h :
  json_get (invocation_context h) (u "focused_pane_id") = json_string <$> string_ref (hy_pane h) "pane_id" ∧
  json_get (invocation_context h) (u "tab_id") = json_string <$> hy_tab_id h ∧
  json_get (invocation_context h) (u "workspace_id") = json_string <$> hy_workspace_id h ∧
  json_get (invocation_context h) (u "selected_text") = Some (json_string []) ∧
  json_get (invocation_context h) (u "clicked_url") = Some (json_string []).
Proof.
  unfold invocation_context. rewrite !get_object.
  assert (∀ (a b c d : V) k, k ≠ u "invocation_source" → k ≠ u "selected_text" → k ≠ u "clicked_url" → k ≠ u "link_handler_id" →
    assoc_last [(u "invocation_source", a); (u "selected_text", b); (u "clicked_url", c); (u "link_handler_id", d)] k = None)
    as Htail.
  { intros a b c d k H1' H2' H3' H4'. cbn [assoc_last]. by rewrite !decide_False. }
  split; [|split; [|split; [|split]]]; skip_fields.
  1-3: rewrite assoc_last_skip_r; [apply assoc_optional_eq|]; skip_fields; by apply Htail.
  all: cbn [assoc_last]; repeat first [rewrite decide_True by done|rewrite decide_False by done]; done.
Qed.

(** ** The property *)

(** A context for a resource, after what Herdr said: it names the resource and sends no
    selected text. When the resource is a pane or a tab, Herdr was asked for it and answered
    with an object of that identifier, and the tab and the workspace of the context are
    those this object says it is in. *)
Definition resource_context t (log : list (exchange V)) (context : V) : Prop :=
  match t with
  | InvokeSession _ => True
  | InvokeWorkspace workspace =>
      json_get context (u "workspace_id") = Some (json_string (server_local_id workspace))
  | InvokeTab tab =>
      let id := server_local_id tab in
      json_get context (u "tab_id") = Some (json_string id) ∧
      ∃ object, tab_answered log id object ∧ string_field object "tab_id" = Some id ∧
        ∀ workspace, string_field object "workspace_id" = Some workspace →
          json_get context (u "workspace_id") = Some (json_string workspace)
  | InvokePane pane =>
      let id := server_local_id pane in
      json_get context (u "focused_pane_id") = Some (json_string id) ∧
      ∃ object, pane_answered log id object ∧ string_field object "pane_id" = Some id ∧
        (∀ tab, string_field object "tab_id" = Some tab → json_get context (u "tab_id") = Some (json_string tab)) ∧
        (∀ workspace, string_field object "workspace_id" = Some workspace →
          json_get context (u "workspace_id") = Some (json_string workspace))
  end.
Definition whole_context t (log : list (exchange V)) (context : V) : Prop :=
  resource_context t log context ∧
  json_get context (u "selected_text") = Some (json_string []) ∧
  json_get context (u "clicked_url") = Some (json_string []).

Lemma hydrated_whole t s context s' : hydrated_context t s = (Ok context, s') → whole_context t s'.2 context.
Proof.
  unfold hydrated_context. intros (h & s1 & Hh & ([] & s2 & Hc & [= <- <-])%bind_ok)%bind_ok.
  injection Hc as Hc <-. pose proof (hydrate_spec _ _ _ _ Hh) as (Hws & Htab & Hpane).
  destruct (checked_spec _ _ Hc) as (Hp & Ht & _). destruct (context_names h) as (C1 & C2 & C3 & C4 & C5).
  split; [|done]. unfold resource_context. destruct t as [|workspace|tab|pane]; [done|..].
  - by rewrite C3, (Hws _ eq_refl).
  - destruct (Htab _ eq_refl) as (Hid & object & Ho & Hanswered & Hin). specialize (Ht _ Hid). rewrite Ho in Ht.
    rewrite C2, C3, Hid. split; [done|]. exists object. split; [done|]. split; [done|]. by intros ws ->%Hin.
  - destruct (Hpane _ eq_refl) as (object & Ho & Hanswered & Hin_tab & Hin_ws). specialize (Hp _ eq_refl).
    rewrite Ho in Hp. rewrite C1, C2, C3, Ho. cbn [string_ref mbind option_bind]. cbn in Hp. rewrite Hp. split; [done|].
    exists object. split; [done|]. split; [done|]. split; [by intros ? ->%Hin_tab|by intros ? ->%Hin_ws].
Qed.

Lemma recorded_at {A} (m : api session A) P s :
  asks m P → ∀ q, q ∈ (m s).2.2 → q ∈ s.2 ∨ P q.
Proof.
  intros Hm q Hq. destruct (Hm s) as (new & Hs & Hnew). rewrite Hs in Hq. apply elem_of_app in Hq as [?|Hq]; [by left|].
  right. rewrite Forall_forall in Hnew. by apply Hnew.
Qed.

(** C29. An action runs in the context it was invoked from, or not at all. When the
    action and the resource belong to different sessions, nothing is asked. Otherwise
    Herdr is asked to invoke an action at most once and last, with this action's names and
    a context that names the workspace, tab or pane of the invocation and sends no selected
    text. For a pane, Herdr was asked for it before and answered with an object of that
    identifier, and the tab and the workspace in the context are those that object gives, if
    it gives any; for a tab, so is the workspace. And a run is reported only if Herdr says
    that it is a run of this action, qualified by this session. *)
Theorem invoke_in_context (action : PluginActionId) t (s0 : S) :
  let '(r, (_, log)) := invoke action t (s0, []) in
  (pa_target action ≠ invocation_session t → log = [] ∧ is_ok r = false) ∧
  (∀ before params answer after, log = before ++ (invocation, params, answer) :: after →
    after = [] ∧ ∃ context, params = json_object (invoke_request action context) ∧ whole_context t before context) ∧
  (∀ run, r = Ok run →
    run_target (run_id run) = pa_target action ∧ run_plugin_id (run_id run) = pa_plugin_id action ∧
    run_action_id run = Some (pa_action_id action)).
Proof.
  unfold invoke. case_bool_decide as Hsame; cbn [negb].
  2: { cbn. split; [done|]. split; [by intros []|done]. }
  assert (∀ m : api session V, True) as _ by done. unfold mbind at 1, api_bind at 1.
  pose proof (recorded_at (hydrated_context t) harmless (s0, [])) as Hrec.
  assert (asks (hydrated_context (S := session) t) harmless) as Hask.
  { apply asks_bind; [apply hydrate_harmless|]. intros h. apply asks_bind; [apply asks_nothing|].
    intros; apply asks_nothing. }
  specialize (Hrec Hask). pose proof (hydrated_whole t (s0, [])) as Hwhole.
  destruct (hydrated_context t (s0, [])) as [[context|e] [s1 log]]; cbn [fst snd] in Hrec.
  2: { split; [done|]. split; [|done]. intros before params answer after ->.
       destruct (Hrec (invocation, params, answer)) as [?%elem_of_nil|?]; [set_solver|done..]. }
  specialize (Hwhole context _ eq_refl).
  assert (∀ r before params answer after,
    log ++ [(u "plugin.action.invoke", json_object (invoke_request action context), r)]
      = before ++ (invocation, params, answer) :: after →
    after = [] ∧ ∃ context, params = json_object (invoke_request action context) ∧ whole_context t before context) as Hlog.
  { intros r before params answer after Heq. destruct after as [|x after _] using rev_ind.
    - apply app_inj_tail in Heq as [-> [= <- <-]]. split; [done|]. by exists context.
    - exfalso. rewrite app_comm_cons, app_assoc in Heq. apply app_inj_tail in Heq as [-> _].
      destruct (Hrec (invocation, params, answer)) as [?%elem_of_nil|?]; [set_solver|done..]. }
  unfold mbind at 1, api_bind at 1, ask, request, recorded. cbn [fst snd].
  destruct (request (u "plugin.action.invoke") (json_object (invoke_request action context)) s1) as [[answer|e] s2];
    [|split; [done|split; [apply Hlog|done]]].
  destruct (answers answer "plugin_action_invoked"); cbn [negb]; [|split; [done|split; [apply Hlog|done]]].
  unfold mbind, api_bind, lift. destruct (ok_or (json_get answer (u "log")) _) as [value|]; [|split; [done|split; [apply Hlog|done]]].
  destruct (ok_or (read_log value) _) as [l|]; [|split; [done|split; [apply Hlog|done]]].
  case_bool_decide as Hid; cbn [negb orb]; [|split; [done|split; [apply Hlog|done]]]. case_bool_decide as Hact; cbn [negb]; [|split; [done|split; [apply Hlog|done]]].
  split; [done|]. split; [apply Hlog|]. by intros run [= <-].
Qed.
End contexts.

(** ** A concrete session *)

Module Server.
Import Concrete.
Definition str (s : string) : json := JString (u s).
Definition obj (l : list (string * json)) : json := JObject ((λ kv, (u kv.1, kv.2)) <$> l).

(** Readers that take what they need and no more. *)
#[export] Instance readers : PluginReaders json := {|
  read_action_list _ := None;
  read_log v :=
    id ← string_field v "log_id"; plugin ← string_field v "plugin_id";
    Some {| log_id := id; log_plugin_id := plugin; log_action_id := string_field v "action_id"; log_status := RunRunning |};
  read_log_list _ := None;
  read_plugin_list _ := None;
|}.

(** A server on which one pane runs in one tab of one workspace. *)
#[export] Instance server : ApiSession json () := λ method params s,
  (if bool_decide (method = u "pane.get")
   then Ok (obj [("type", str "pane_info"); ("pane", obj [("pane_id", str "p1"); ("tab_id", str "t1")])])
   else if bool_decide (method = u "tab.get")
   then Ok (obj [("type", str "tab_info"); ("tab", obj [("tab_id", str "t1"); ("workspace_id", str "w1")])])
   else if bool_decide (method = u "workspace.get")
   then Ok (obj [("type", str "workspace_info"); ("workspace", obj [("workspace_id", str "w1"); ("label", str "review")])])
   else if bool_decide (method = u "plugin.action.invoke")
   then Ok (obj [("type", str "plugin_action_invoked");
                 ("log", obj [("log_id", str "7"); ("plugin_id", str "lint"); ("action_id", str "run")])])
   else Err (u "unknown method"), s).

Definition session : TargetSession := TargetSession_new (u "host") (u "dev").
Definition action : PluginActionId := {| pa_target := session; pa_plugin_id := u "lint"; pa_action_id := u "run" |}.
Definition pane : PluginInvocationTarget := InvokePane (QId (u "host") (u "dev") (u "p1")).
End Server.
Import Concrete Server.

(** Three questions, then the invocation; and a run that is reported. *)
Lemma invoke_in_context_witness :
  let '(r, (_, log)) := invoke (S := () * list (exchange json)) action pane ((), []) in
  log.*1.*1 = [u "pane.get"; u "tab.get"; u "workspace.get"; u "plugin.action.invoke"] ∧ is_ok r = true ∧
  ∀ before params answer after, log = before ++ (invocation, params, answer) :: after →
    after = [] ∧ ∃ context, params = json_object (invoke_request action context) ∧ whole_context pane before context.
Proof.
  pose proof (invoke_in_context action pane ()) as Hinvoke.
  assert (let '(r, (_, log)) := invoke (S := () * list (exchange json)) action pane ((), []) in
    (log.*1.*1, is_ok r) = ([u "pane.get"; u "tab.get"; u "workspace.get"; u "plugin.action.invoke"], true)) as Hrun
    by (vm_compute; reflexivity).
  destruct (invoke action pane ((), [])) as [r [s log]]. injection Hrun as Hlog Hr.
  split; [exact Hlog|]. split; [exact Hr|]. exact (proj1 (proj2 Hinvoke)).
Defined.
