(* ===== verification/RemoteFiles.v ===== *)
(** Browsing a target's files: [src/src/remote_files.rs], with the two scripts it
    carries to the host.

    The host is a parameter: what a directory holds, where a path leads and what
    [find] walks are [RemoteHost]'s, and so is the matching of a shell pattern. What
    the scripts do with them is written out line by line. Building the command that
    reaches the host, and the timeout around it, are left out. *)

From S2P Require Import Prelude Text Model Config Protocol.

Definition MAX_ENTRIES : nat := 500.
Definition MAX_SEARCH_DEPTH : N := 6.
Definition MAX_OUTPUT_BYTES : nat := 64 * 1024.
Definition MAX_QUERY_CHARACTERS : nat := 128.
Definition MAX_RELATIVE_CHARACTERS : nat := 1024.

(** ** The host *)

(** A directory of the host's, what a shell that runs in it sees, and the regular files
    [find] meets below it: whether it could read everything, and their paths from ["."].
    [physical] is what [pwd -P] prints. *)
Class RemoteHost (D : Type) := {
  home : D;
  change_dir : D → bytes → option D;
  physical : D → bytes;
  expansion : D → bytes → list bytes;
  exists_at : D → bytes → bool;
  is_link : D → bytes → bool;
  is_directory : D → bytes → bool;
  is_regular : D → bytes → bool;
  walk : D → bytes → bool * list bytes;
}.
Class Fnmatch := fnmatch : bytes → bytes → bool.

Definition newline : N := 10.
(** [IFS= read -r]: a line, or failure when the input ends without one. *)
Definition read_line (input : bytes) : result N (bytes * bytes) := ok_or (split_once [newline] input) 1%N.
(** [$(...)] drops the newlines at the end. *)
Definition captured (output : bytes) : bytes := trim_end_char newline output.

Section scripts.
Context {D : Type} `{RemoteHost D} `{Fnmatch}.

(** [LIST_SCRIPT]. *)
Definition within (root_real here : bytes) : bool :=
  bool_decide (here = root_real) || has_prefix (root_real ++ [slash]) here.
Definition kind_at (d : D) (entry : bytes) : bytes :=
  if is_directory d entry then u "d" else if is_regular d entry then u "f" else u "o".
Definition listed_names (d : D) : list bytes :=
  expansion d (u "*") ++ expansion d (u ".[!.]*") ++ expansion d (u "..?*").
Definition printed (d : D) (entry : bytes) : bytes := kind_at d entry ++ [0%N] ++ entry ++ [0%N].
Fixpoint print_entries (d : D) (count : nat) (names : list bytes) : bytes :=
  match names with
  | [] => []
  | entry :: names' =>
      if negb (exists_at d entry) && negb (is_link d entry) then print_entries d count names'
      else printed d entry ++ (if 500 <=? count + 1 then [] else print_entries d (count + 1) names')
  end.
Definition descend (root_dir : D) (relative : bytes) : result N D :=
  if bool_decide (relative = []) then Ok root_dir
  else ok_or (change_dir root_dir (u "./" ++ relative)) 4%N.
Definition list_script (input : bytes) : result N bytes :=
  '(root, input) ← read_line input;
  '(relative, _) ← read_line input;
  root_dir ← ok_or (change_dir home root) 3%N;
  here ← descend root_dir relative;
  if within (captured (physical root_dir)) (captured (physical here))
  then Ok (print_entries here 0 (listed_names here)) else Err 5%N.

(** [SEARCH_SCRIPT]: [find] fails when it could not read everything. *)
Definition base_name (path : bytes) : bytes := default path (snd <$> rsplit_once slash path).
Definition find_regular (d : D) (depth pattern : bytes) : result N bytes :=
  let '(readable, files) := walk d depth in
  if (readable : bool)
  then Ok (filter (λ path, fnmatch pattern (base_name path) = true) files ≫= λ path, path ++ [0%N]) else Err 1%N.
Definition search_script (input : bytes) : result N bytes :=
  '(root, input) ← read_line input;
  '(pattern, input) ← read_line input;
  '(depth, _) ← read_line input;
  d ← ok_or (change_dir home root) 3%N;
  find_regular d depth pattern.
End scripts.

(** ** What a client may ask for *)

Definition roots (target : Target) : list ustr := tgt_roots target.
Definition permitted_root (target : Target) (root : ustr) : result ustr ustr :=
  ok_or (head (filter (λ declared, declared = root) (tgt_roots target)))
        (u "that path is not one of this target's configured roots").
Definition checked_relative (relative : ustr) : result ustr ustr :=
  let relative := trim_start_char slash relative in
  if negb ((length relative <=? MAX_RELATIVE_CHARACTERS) && negb (existsb is_control relative))
  then Err (u "that path is too long or contains control characters")
  else if existsb (λ part, bool_decide (part = u "..")) (split_on slash relative)
  then Err (u "a path inside a root may not climb out of it")
  else Ok relative.

Definition glob_special (c : N) : bool := contains c (u "*?[]\").
Definition escape_char (c : N) : ustr := if glob_special c then [92%N; c] else [c].
Definition escape_glob (query : ustr) : ustr := query ≫= escape_char.
Definition checked_query (query : ustr) : result ustr () :=
  if negb (bool_decide (query = [])) && (length query <=? MAX_QUERY_CHARACTERS) && negb (existsb is_control query)
  then Ok ()
  else Err (u "a search must be 1 to " ++ display_N (N.of_nat MAX_QUERY_CHARACTERS)
            ++ u " characters of ordinary text").
Definition search_pattern (query : ustr) (glob : bool) : ustr :=
  if glob then query else u "*" ++ escape_glob query ++ u "*".

(** ** What came back *)

Definition split_nul (output : bytes) : list bytes :=
  let complete := match rsplit_once 0 output with Some (before, _) => before ++ [0%N] | None => [] end in
  filter (λ field, field ≠ []) (split_on 0 complete).
Fixpoint pairs (fields : list bytes) : list (bytes * bytes) :=
  match fields with
  | kind :: name :: fields' => (kind, name) :: pairs fields'
  | _ => []
  end.
Definition entry_kind_of (kind : bytes) : RemoteEntryKind :=
  if bool_decide (kind = u "d") then EntryDirectory
  else if bool_decide (kind = u "f") then EntryFile else EntryOther.
Definition entry_of (field : bytes * bytes) : option RemoteEntry :=
  name ← from_utf8 field.2; Some {| entry_kind := entry_kind_of field.1; entry_name := name |}.
Definition page (entries : list RemoteEntry) : list RemoteEntry * bool :=
  (take MAX_ENTRIES entries, MAX_ENTRIES <=? length entries).
Definition parse_entries (output : bytes) : list RemoteEntry * bool := page (omap entry_of (pairs (split_nul output))).
Definition path_entry (field : bytes) : option RemoteEntry :=
  path ← from_utf8 field;
  let name := default path (strip_prefix (u "./") path) in
  if bool_decide (name = []) then None else Some {| entry_kind := EntryFile; entry_name := name |}.
Definition parse_paths (output : bytes) : list RemoteEntry * bool := page (omap path_entry (split_nul output)).

(** ** The two requests *)

Definition written (arguments : list ustr) : ustr := arguments ≫= λ argument, argument ++ [newline].
Definition run (script : bytes → result N bytes) (arguments : list ustr) (what : ustr) : result ustr bytes :=
  match script (utf8 (written arguments)) with
  | Err _ => Err (u "could not " ++ what ++ u " on that target")
  | Ok output => Ok (take MAX_OUTPUT_BYTES output)
  end.

Definition name_le (a b : RemoteEntry) : Prop := cmp_le (entry_name a) (entry_name b).
#[export] Instance name_le_dec a b : Decision (name_le a b) := _.
Definition sort_by_name (entries : list RemoteEntry) : list RemoteEntry := merge_sort name_le entries.

Section requests.
Context {D : Type} `{RemoteHost D} `{Fnmatch}.

Definition list_directory (target : Target) (root relative : ustr) : result ustr RemoteListing :=
  root ← permitted_root target root;
  relative ← checked_relative relative;
  output ← run list_script [root; relative] (u "list a directory");
  let '(entries, truncated) := parse_entries output in
  Ok {| listing_root := root; listing_path := relative; listing_entries := entries; listing_truncated := truncated |}.

Definition search (target : Target) (root query : ustr) (glob : bool) : result ustr RemoteListing :=
  root ← permitted_root target root;
  _ ← checked_query query;
  output ← run search_script [root; search_pattern query glob; display_N MAX_SEARCH_DEPTH] (u "search for files");
  let '(entries, truncated) := parse_paths output in
  Ok {| listing_root := root; listing_path := []; listing_entries := sort_by_name entries;
        listing_truncated := truncated |}.
End requests.
