(* ===== verification/RemoteFilesFacts.v ===== *)
(** What browsing guarantees: the scripts read back exactly what they were given,
    nothing outside the declared root is listed, what comes back is what the directory
    holds up to the page, and a search for plain text finds that text.

    A host to browse: the witnesses of [RemoteFilesFacts], and two ends of the road
    that the scripts run into. *)

From S2P Require Import Prelude Model Text Config Protocol RemoteFiles.

(** ** Bytes on a script's input *)

Lemma utf8_char_ascii b c : b ∈ utf8_char c → (b < 128)%N → b = c.
Proof.
  unfold utf8_char. repeat case_match; cbn; rewrite ?elem_of_cons, elem_of_nil; intros Hin Hb;
    repeat destruct Hin as [->|Hin]; try done; exfalso;
    match type of Hb with (?k + ?x < _)%N => pose proof (N.le_0_l x); apply N.lt_nge in Hb; apply Hb; clear; generalize x; lia end.
Qed.
Lemma utf8_ascii b s : b ∈ utf8 s → (b < 128)%N → b ∈ s.
Proof.
  unfold utf8. rewrite list_elem_of_bind. intros (c & Hb & Hc) Hlt. by rewrite (utf8_char_ascii b c).
Qed.
Lemma utf8_app s t : utf8 (s ++ t) = utf8 s ++ utf8 t.
Proof. apply bind_app. Qed.

(** Text without control characters crosses as one line. *)
Definition line (s : ustr) : Prop := newline ∉ s.
Lemma no_control_line s : existsb is_control s = false → line s.
Proof.
  intros Hs Hin. assert (existsb is_control s = true) as Ht; [|by rewrite Ht in Hs].
  apply existsb_exists. exists newline. split; [by apply list_elem_of_In|done].
Qed.
Lemma read_line_written s rest : line s → read_line (utf8 (s ++ [newline]) ++ rest) = Ok (utf8 s, rest).
Proof.
  intros Hs. unfold read_line. rewrite utf8_app, <-app_assoc.
  rewrite (proj2 (split_once_char newline _ (utf8 s) rest)); [done|].
  split; [done|]. intros Hin. by apply Hs, (utf8_ascii newline).
Qed.
Lemma read_written s arguments :
  line s → read_line (utf8 (written (s :: arguments))) = Ok (utf8 s, utf8 (written arguments)).
Proof.
  intros Hs. change (written (s :: arguments)) with ((s ++ [newline]) ++ written arguments).
  by rewrite utf8_app, read_line_written.
Qed.

(** ** Framing *)

Definition terminated (fields : list bytes) : bytes := fields ≫= λ field, field ++ [0%N].
Definition field_ok (field : bytes) : Prop := field ≠ [] ∧ 0%N ∉ field.
Ltac field_literal := unfold field_ok; apply (bool_decide_unpack _); vm_compute; exact I.

Lemma terminated_app a b : terminated (a ++ b) = terminated a ++ terminated b.
Proof. apply bind_app. Qed.
Lemma split_terminated fields : Forall field_ok fields → split_on 0 (terminated fields) = fields ++ [[]].
Proof.
  induction 1 as [|field fields [_ Hf] _ IH]; [done|]. cbn [terminated mbind list_bind].
  fold (terminated fields). rewrite <-app_assoc. cbn [app]. by rewrite split_on_cons, IH.
Qed.
(** The bytes after the last terminator are dropped. *)
Lemma split_nul_terminated fields rest :
  Forall field_ok fields → 0%N ∉ rest → split_nul (terminated fields ++ rest) = fields.
Proof.
  intros Hf Hr. unfold split_nul.
  assert (match rsplit_once 0 (terminated fields ++ rest) with
          | Some (before, _) => before ++ [0%N] | None => [] end = terminated fields) as ->.
  { destruct fields as [|field gs _] using rev_ind.
    - destruct (rsplit_once _ _) as [[l r]|] eqn:E; [|done].
      apply rsplit_once_Some in E as [E _]. cbn in E. subst rest. exfalso. apply Hr. set_solver.
    - rewrite terminated_app. cbn [terminated mbind list_bind]. rewrite app_nil_r, <-!app_assoc. cbn [app].
      assert (rsplit_once 0 (terminated gs ++ field ++ 0%N :: rest) = Some (terminated gs ++ field, rest)) as ->.
      { apply rsplit_once_Some. by rewrite <-app_assoc. }
      by rewrite <-app_assoc. }
  rewrite split_terminated by done. rewrite filter_app, (filter_all _ fields) by by intros ? [? ?]%(proj1 (Forall_forall _ _) Hf).
  cbn. by rewrite app_nil_r.
Qed.

(** Cut anywhere, the output is some of its records and the start of another. *)
Lemma take_terminated n fields :
  Forall field_ok fields →
  ∃ k rest, take n (terminated fields) = terminated (take k fields) ++ rest ∧ 0%N ∉ rest ∧
            (length (terminated fields) ≤ n → take k fields = fields).
Proof.
  intros Hf. revert n. induction Hf as [|field fields [Hne H0] Hf IH]; intros n.
  - exists 0, []. split_and!; [apply take_nil|by apply not_elem_of_nil|done].
  - cbn [terminated mbind list_bind]. fold (terminated fields). destruct (decide (length field < n)) as [Hn|Hn].
    + destruct (IH (n - length (field ++ [0%N]))) as (k & rest & Hk & Hr & Hall). exists (S k), rest.
      rewrite take_app, Hk, take_ge by (rewrite length_app; cbn; lia).
      cbn [take terminated mbind list_bind]. fold (terminated (take k fields)). rewrite <-!app_assoc.
      split_and!; [by rewrite <-?app_assoc|done|]. intros Hlen. rewrite !length_app in Hlen. rewrite Hall; [done|].
      rewrite length_app. lia.
    + exists 0, (take n field). rewrite <-app_assoc, take_app_le by lia. split_and!; [done| |].
      * intros Hin. apply H0. by eapply subseteq_take.
      * rewrite !length_app. cbn. lia.
Qed.

(** ** A directory *)

Lemma elem_of_take_omap {A B} (f : A → option B) n k l y :
  y ∈ take n (omap f (take k l)) → ∃ x, x ∈ l ∧ f x = Some y.
Proof.
  intros (x & Hx & Hf)%subseteq_take%list_elem_of_omap. exists x. split; [by eapply subseteq_take|done].
Qed.

Lemma length_omap_le {A B} (f : A → option B) l : length (omap f l) ≤ length l.
Proof. induction l as [|x l IH]; [done|]. cbn. destruct (f x); cbn; lia. Qed.

(** An absolute path: the names on the way down from the root directory. *)
Definition path_of (names : list bytes) : bytes :=
  match names with [] => [slash] | _ => names ≫= λ name, slash :: name end.
Definition directory_name (name : bytes) : Prop := name ≠ [] ∧ slash ∉ name ∧ last name ≠ Some newline.
#[export] Instance directory_name_dec name : Decision (directory_name name).
Proof. unfold directory_name. apply _. Defined.
Lemma split_on_here c s : split_on c (c :: s) = [] :: split_on c s.
Proof. apply (split_on_cons c [] s), not_elem_of_nil. Qed.
(** And back: the names between the slashes. *)
Definition names_on (path : bytes) : list bytes := filter (λ name, name ≠ []) (split_on slash path).

Lemma split_names name names :
  Forall directory_name (name :: names) → split_on slash (name ++ (names ≫= λ name, slash :: name)) = name :: names.
Proof.
  revert name. induction names as [|next names IH]; intros name [(_ & Hs & _) Hnames]%Forall_cons.
  - cbn. rewrite app_nil_r. by apply split_on_none.
  - cbn [mbind list_bind app]. rewrite split_on_cons by done. f_equal. by apply IH.
Qed.
Lemma names_on_path names : Forall directory_name names → names_on (path_of names) = names.
Proof.
  intros Hnames. unfold names_on, path_of. destruct names as [|name names]; [by vm_compute|].
  cbn [mbind list_bind app]. rewrite split_on_here, filter_cons_False by naive_solver.
  rewrite split_names by done. apply filter_all. intros n Hn. eapply Forall_forall in Hnames; [|exact Hn]. by destruct Hnames.
Qed.
Lemma path_of_last names : Forall directory_name names → ∃ path c, path_of names = path ++ [c] ∧ c ≠ newline.
Proof.
  intros Hnames. unfold path_of. destruct names as [|name names _] using rev_ind; [by exists [], slash|].
  apply Forall_app in Hnames as [_ [(Hne & _ & Hlast) _]%Forall_cons].
  destruct name as [|c name _] using rev_ind; [done|]. rewrite last_snoc in Hlast.
  exists ((names ≫= λ name, slash :: name) ++ slash :: name), c. split; [|congruence].
  rewrite bind_app. cbn [mbind list_bind]. rewrite app_nil_r. destruct names; by rewrite <-?app_assoc.
Qed.
Lemma split_below names below :
  Forall directory_name names →
  split_on slash ((names ≫= λ name, slash :: name) ++ slash :: below) = [] :: names ++ split_on slash below.
Proof.
  induction 1 as [|name names (_ & Hs & _) _ IH]; [apply split_on_here|].
  cbn [mbind list_bind app]. rewrite <-app_assoc. set (rest := (names ≫= _) ++ slash :: below) in *.
  assert (∃ rest', rest = slash :: rest') as [rest' Hrest] by (unfold rest; destruct names; by eexists).
  rewrite Hrest in *. rewrite split_on_here in IH. injection IH as IH. rewrite split_on_here.
  by rewrite split_on_cons, IH.
Qed.
(** What the script's comparison of two such paths says: the names of the one begin the
    names of the other. Below the root directory itself it finds nothing. *)
Lemma within_names names more :
  Forall directory_name names → Forall directory_name more →
  (path_of more = path_of names ∨ ∃ below, path_of more = path_of names ++ [slash] ++ below)
  ↔ names `prefix_of` more ∧ (names = [] → more = []).
Proof.
  intros Hn Hm. destruct names as [|name names].
  - split; [|by intros [_ ->]; auto]. intros Heq. assert (more = []) as ->; [|done].
    destruct more as [|next more]; [done|]. exfalso. apply Forall_cons in Hm as [(Hne & Hs & _) _].
    destruct next as [|c next]; [done|]. cbn in Heq. destruct Heq as [Heq|(below & Heq)]; [done|].
    injection Heq as -> _. set_solver.
  - trans (name :: names `prefix_of` more); [|naive_solver]. set (top := name :: names) in *. split.
    + intros [Heq|(below & Heq)]; apply (f_equal names_on) in Heq.
      * rewrite !names_on_path in Heq by done. by rewrite Heq.
      * rewrite names_on_path in Heq by done. rewrite Heq. unfold names_on, path_of, top. fold top. cbn [app].
        rewrite split_below by done. rewrite filter_cons_False by naive_solver. rewrite filter_app.
        rewrite filter_all; [by apply prefix_app_r|]. intros n Hin. eapply Forall_forall in Hn; [|exact Hin]. by destruct Hn.
    + intros [[|next rest] ->]; [left; by rewrite app_nil_r|right].
      exists (next ++ (rest ≫= λ name, slash :: name)). unfold path_of, top. cbn [app].
      change (slash :: next ++ (rest ≫= λ name, slash :: name)) with ((next :: rest) ≫= λ name, slash :: name).
      by rewrite <-bind_app.
Qed.

(** What the host's shell and [find] say are names and paths: no empty ones, and no NUL
    in any. [pwd -P] prints an absolute path of names; that none of them ends in a line
    feed is assumed, since the shell drops those at the end of what it captures. *)
Class RemoteHostLaws (D : Type) `{RemoteHost D} := {
  physical_path d : ∃ names, Forall directory_name names ∧ physical d = path_of names ++ [newline];
  expansion_names d pattern entry : field_ok pattern → entry ∈ expansion d pattern → field_ok entry;
  walk_paths d depth path : path ∈ (walk d depth).2 → field_ok path;
}.

Section directory.
Context {D : Type} `{RemoteHost D, !RemoteHostLaws D, Fnmatch}.

(** The names in a directory, in the order the shell lists them, and what a client is
    shown of the first page of them. *)
Definition there (d : D) : list bytes → list bytes := filter (λ e, exists_at d e || is_link d e = true).
Definition record_of (d : D) (e : bytes) : bytes * bytes := (kind_at d e, e).
Definition visible (d : D) : list RemoteEntry :=
  omap entry_of (record_of d <$> take MAX_ENTRIES (there d (listed_names d))).

Lemma listed_names_ok d : Forall field_ok (listed_names d).
Proof.
  apply Forall_forall. intros e. unfold listed_names. rewrite !elem_of_app.
  intros [He|[He|He]]; apply expansion_names in He; try done; field_literal.
Qed.
Lemma kind_at_ok d e : field_ok (kind_at d e).
Proof.
  unfold kind_at. repeat case_match; field_literal.
Qed.

Definition fields_of (d : D) (names : list bytes) : list bytes := names ≫= λ e, [kind_at d e; e].
Lemma print_entries_terminated d names count :
  count < MAX_ENTRIES →
  print_entries d count names = terminated (fields_of d (take (MAX_ENTRIES - count) (there d names))).
Proof.
  revert count. unfold there, MAX_ENTRIES. induction names as [|e names IH]; intros count Hc; cbn [print_entries].
  - by rewrite filter_nil, take_nil.
  - rewrite filter_cons, <-negb_orb. destruct (exists_at d e || is_link d e); cbn [negb]; [|by apply IH].
    rewrite decide_True by done. destruct (500 - count) as [|m] eqn:Em; [lia|].
    cbn [take fields_of mbind list_bind]. fold (fields_of d (take m (filter (λ e, exists_at d e || is_link d e = true) names))).
    rewrite terminated_app. unfold printed. cbn [terminated mbind list_bind]. rewrite <-!app_assoc. do 4 f_equal.
    case_match eqn:Hle; [apply Nat.leb_le in Hle; by replace m with 0 by lia|apply Nat.leb_gt in Hle].
    rewrite IH by lia. by replace (500 - (count + 1)) with m by lia.
Qed.
Lemma fields_of_ok d names : Forall field_ok names → Forall field_ok (fields_of d names).
Proof. induction 1; cbn; [by constructor|]. constructor; [apply kind_at_ok|by constructor]. Qed.
Lemma length_fields_of d names : length (fields_of d names) = 2 * length names.
Proof. induction names as [|e names IH]; [done|]. cbn in *. fold (fields_of d names) in *. lia. Qed.
Lemma pairs_take d names k : pairs (take k (fields_of d names)) = record_of d <$> take (Nat.div2 k) names.
Proof.
  revert k. induction names as [|e names IH]; intros k; [by cbn; rewrite !take_nil|].
  destruct k as [|[|k]]; [done..|]. cbn. f_equal. apply IH.
Qed.

(** However much of the output arrives, it reads as entries of the directory. *)
Lemma parse_printed d n :
  ∃ k, let parsed := omap entry_of (record_of d <$> take k (there d (listed_names d))) in
       parse_entries (take n (print_entries d 0 (listed_names d))) = (parsed, MAX_ENTRIES <=? length parsed) ∧
       k ≤ MAX_ENTRIES ∧
       (length (print_entries d 0 (listed_names d)) ≤ n →
        parse_entries (take n (print_entries d 0 (listed_names d))) = (visible d, MAX_ENTRIES <=? length (visible d))).
Proof.
  rewrite print_entries_terminated by (unfold MAX_ENTRIES; lia). rewrite Nat.sub_0_r.
  set (names := take MAX_ENTRIES _).
  assert (Forall field_ok (fields_of d names)) as Hok.
  { apply fields_of_ok, Forall_take, Forall_forall. intros e [_ He]%list_elem_of_filter.
    by eapply Forall_forall in He; [|apply listed_names_ok]. }
  assert (∀ k, page (omap entry_of (record_of d <$> take k names)) =
               (omap entry_of (record_of d <$> take k names), MAX_ENTRIES <=? length (omap entry_of (record_of d <$> take k names)))) as Hpage.
  { intros k. unfold page. rewrite take_ge; [done|]. etrans; [apply length_omap_le|].
    rewrite length_fmap, length_take. unfold names. rewrite length_take. lia. }
  destruct (take_terminated n _ Hok) as (k & rest & Hk & Hr & Hall).
  assert (parse_entries (take n (terminated (fields_of d names))) = page (omap entry_of (record_of d <$> take (Nat.div2 k) names))) as Hp.
  { unfold parse_entries. by rewrite Hk, split_nul_terminated, pairs_take by (done || by apply Forall_take). }
  exists (min (Nat.div2 k) MAX_ENTRIES). split_and!; [|lia|].
  - rewrite Hp, Hpage. unfold names. by rewrite take_take.
  - intros Hn. specialize (Hall Hn). rewrite Hk, Hall. unfold parse_entries.
    rewrite split_nul_terminated by done.
    rewrite <-(firstn_all (fields_of d names)), pairs_take. rewrite Hpage.
    assert (take (Nat.div2 (length (fields_of d names))) names = names) as ->; [|done].
    apply take_ge. rewrite length_fields_of, Nat.div2_double. done.
Qed.
End directory.

(** ** What a client may ask for *)

Lemma permitted_root_Ok target root r : permitted_root target root = Ok r ↔ r = root ∧ root ∈ tgt_roots target.
Proof.
  unfold permitted_root. destruct (head _) as [declared|] eqn:E; cbn.
  - apply head_Some_elem_of, list_elem_of_filter in E as [-> Hin]. naive_solver.
  - split; [done|]. intros [_ Hin]. assert (root ∈ filter (λ declared, declared = root) (tgt_roots target)) as Hf.
    { by apply list_elem_of_filter. }
    apply head_None in E. rewrite E in Hf. by apply not_elem_of_nil in Hf.
Qed.
Lemma validated_root_line names target root :
  validate_target names target = Ok () → root ∈ tgt_roots target → line root.
Proof.
  unfold validate_target. rewrite !check_bind. intros (_ & _ & _ & _ & _ & _ & Hroots & _) Hin.
  rewrite check_all_ok in Hroots. specialize (Hroots _ Hin). unfold validate_root in Hroots.
  apply bail_if_ok in Hroots. rewrite !orb_false_iff in Hroots. apply no_control_line, Hroots.
Qed.
Lemma checked_relative_line relative path : checked_relative relative = Ok path → line path.
Proof.
  unfold checked_relative. case_match eqn:E; [done|]. case_match; [done|]. intros [= <-].
  apply negb_false_iff, andb_true_iff in E as [_ E]. by apply no_control_line, negb_true_iff.
Qed.

Section requests.
Context {D : Type} `{RemoteHost D, !RemoteHostLaws D, Fnmatch}.

Lemma list_script_written root path :
  line root → line path →
  list_script (D := D) (utf8 (written [root; path])) =
    (root_dir ← ok_or (change_dir home (utf8 root)) 3%N;
     here ← descend root_dir (utf8 path);
     if within (captured (physical root_dir)) (captured (physical here))
     then Ok (print_entries here 0 (listed_names here)) else Err 5%N).
Proof.
  intros Hr Hp. unfold list_script. rewrite read_written by done. cbn [mbind result_bind].
  by rewrite read_written.
Qed.

Lemma within_spec root here : within root here = true ↔ here = root ∨ ∃ below, here = root ++ [slash] ++ below.
Proof.
  unfold within, has_prefix. rewrite orb_true_iff, !bool_decide_eq_true. unfold is_Some.
  setoid_rewrite strip_prefix_Some. by setoid_rewrite <-app_assoc.
Qed.

(** Where a directory is: the names on its physical path. One is at or below another when
    its path begins with the names of the other's. *)
Definition place (d : D) : list bytes := names_on (captured (physical d)).
Definition at_or_below (top here : D) : Prop := place top `prefix_of` place here.
(** The directory a path leads to from a root: at or below it, except that nothing below
    the host's root directory counts. *)
Definition leads (root path : ustr) (here : D) : Prop :=
  ∃ top, change_dir home (utf8 root) = Some top ∧ descend top (utf8 path) = Ok here ∧ at_or_below top here ∧
         (place top = [] → place here = []).

Lemma captured_physical d : captured (physical d) = path_of (place d) ∧ Forall directory_name (place d).
Proof.
  unfold place. destruct (physical_path d) as (names & Hnames & ->).
  assert (captured (path_of names ++ [newline]) = path_of names) as ->.
  { destruct (path_of_last names Hnames) as (path & c & -> & Hc). unfold captured, trim_end_char.
    rewrite reverse_snoc. cbn [trim_start_char]. rewrite N.eqb_refl, reverse_snoc. cbn [trim_start_char].
    rewrite (proj2 (N.eqb_neq c newline)) by done. by rewrite reverse_cons, reverse_involutive. }
  by rewrite names_on_path.
Qed.
Lemma within_place top here :
  within (captured (physical top)) (captured (physical here)) = true ↔
  at_or_below top here ∧ (place top = [] → place here = []).
Proof.
  destruct (captured_physical top) as [-> Ht], (captured_physical here) as [-> Hh].
  rewrite within_spec. by apply within_names.
Qed.

Lemma run_list_script root path output :
  line root → line path →
  run (list_script (D := D)) [root; path] (u "list a directory") = Ok output ↔
  ∃ here, leads root path here ∧ output = take MAX_OUTPUT_BYTES (print_entries here 0 (listed_names here)).
Proof.
  intros Hr Hp. unfold run, leads. rewrite list_script_written by done.
  destruct (change_dir home (utf8 root)) as [top|]; cbn [mbind result_bind ok_or]; [|naive_solver].
  destruct (descend top (utf8 path)) as [here|] eqn:Hd; cbn [mbind result_bind];
    [|split; [done|intros (here & (top' & Ht & Hd' & _) & _); simplify_eq; congruence]].
  destruct (within _ _) eqn:Hw.
  - apply within_place in Hw. split; [intros [= <-]; exists here; split; [by exists top|done]|].
    intros (here' & (top' & [= <-] & Hd' & _) & ->). rewrite Hd in Hd'. by injection Hd' as <-.
  - split; [done|]. intros (here' & (top' & [= <-] & Hd' & Hi) & _). rewrite Hd in Hd'. injection Hd' as <-.
    apply within_place in Hi. by rewrite Hi in Hw.
Qed.

(** C30. Listing a directory succeeds exactly when the root is one the target
    declares, the path does not climb, and it leads, symlinks resolved, to a directory
    whose physical path begins, name by name, with the physical path of the root; when
    the root is the host's root directory, to that directory itself, since nothing below
    it can be listed. What a client then gets is a first part of what that
    directory holds, in order, and the whole first page of it when the host's output
    fits its bound. For a root of a configuration that was checked, on a host where no
    directory's name ends in a line feed. *)
Theorem directory_listed_inside names target root relative :
  validate_target names target = Ok () →
  (∀ listing, list_directory target root relative = Ok listing →
     root ∈ tgt_roots target ∧ listing_root listing = root ∧ checked_relative relative = Ok (listing_path listing) ∧
     ∃ here, leads root (listing_path listing) here ∧
       (∃ k, k ≤ MAX_ENTRIES ∧
          listing_entries listing = omap entry_of (record_of here <$> take k (there here (listed_names here)))) ∧
       (length (print_entries here 0 (listed_names here)) ≤ MAX_OUTPUT_BYTES →
        listing_entries listing = visible here)) ∧
  (∀ path here, root ∈ tgt_roots target → checked_relative relative = Ok path → leads root path here →
     ∃ listing, list_directory target root relative = Ok listing).
Proof.
  intros Hv. split.
  - intros listing. unfold list_directory.
    destruct (permitted_root target root) as [r|] eqn:Hr; [|done].
    apply permitted_root_Ok in Hr as [-> Hin]. cbn [mbind result_bind].
    destruct (checked_relative relative) as [path|] eqn:Hp; [|done]. cbn [mbind result_bind].
    destruct (run _ _ _) as [output|] eqn:Ho; [|done]. cbn [mbind result_bind].
    apply run_list_script in Ho as (here & Hl & ->);
      [|by eapply validated_root_line|by eapply checked_relative_line].
    destruct (parse_printed here MAX_OUTPUT_BYTES) as (k & Hk & Hle & Hall). rewrite Hk. intros [= <-].
    cbn [listing_root listing_path listing_entries]. split; [exact Hin|]. split; [reflexivity|]. split; [exact eq_refl|].
    exists here. split; [exact Hl|]. split; [by exists k|].
    intros Hn. specialize (Hall Hn). by rewrite Hk in Hall; injection Hall.
  - intros path here Hin Hp Hl. unfold list_directory.
    rewrite (proj2 (permitted_root_Ok target root root)) by done. cbn [mbind result_bind].
    rewrite Hp. cbn [mbind result_bind].
    rewrite (proj2 (run_list_script root path _ ltac:(by eapply validated_root_line)
      ltac:(by eapply checked_relative_line)) (ex_intro _ here (conj Hl eq_refl))).
    cbn [mbind result_bind]. case_match. eauto.
Qed.
End requests.

(** ** Searching for text *)

(** How a shell pattern matches: [*] stands for anything, a backslash quotes what
    follows it, and a character that is not special stands for itself. *)
Class FnmatchLaws `{Fnmatch} := {
  fnmatch_end s : fnmatch [] s = true ↔ s = [];
  fnmatch_star p s : fnmatch (42%N :: p) s = true ↔ ∃ a b, s = a ++ b ∧ fnmatch p b = true;
  fnmatch_quoted c p s : fnmatch (92%N :: c :: p) s = true ↔ ∃ s', s = c :: s' ∧ fnmatch p s' = true;
  fnmatch_plain c p s : c ∉ u "*?[\" → fnmatch (c :: p) s = true ↔ ∃ s', s = c :: s' ∧ fnmatch p s' = true;
}.

Section patterns.
Context `{FnmatchLaws}.

Lemma glob_special_high b : (128 ≤ b)%N → glob_special b = false.
Proof.
  intros Hb. unfold glob_special, contains. apply bool_decide_eq_false_2.
  change (u "*?[]\") with [42; 63; 91; 93; 92]%N. rewrite !elem_of_cons, elem_of_nil. lia.
Qed.
Lemma not_special c : glob_special c = false → c ∉ u "*?[\".
Proof.
  intros Hc%bool_decide_eq_false Hin. apply Hc. revert Hin.
  change (u "*?[\") with [42; 63; 91; 92]%N. change (u "*?[]\") with [42; 63; 91; 93; 92]%N. set_solver.
Qed.
Lemma fnmatch_plain_bytes l p s :
  Forall (λ b, glob_special b = false) l →
  fnmatch (l ++ p) s = true ↔ ∃ s', s = l ++ s' ∧ fnmatch p s' = true.
Proof.
  intros Hl. revert s. induction Hl as [|b l Hb _ IH]; intros s; cbn [app]; [naive_solver|].
  rewrite fnmatch_plain by by apply not_special. setoid_rewrite IH. naive_solver.
Qed.
Lemma fnmatch_escape_char c p s :
  fnmatch (utf8 (escape_char c) ++ p) s = true ↔ ∃ s', s = utf8_char c ++ s' ∧ fnmatch p s' = true.
Proof.
  unfold escape_char. destruct (glob_special c) eqn:Hc; cbn [utf8 mbind list_bind]; rewrite app_nil_r.
  - assert (c < 128)%N as Hlt by (destruct (decide (c < 128)%N); [done|rewrite glob_special_high in Hc by lia; done]).
    assert (utf8_char c = [c]) as ->.
    { unfold utf8_char. by rewrite (proj2 (N.leb_le c 127)) by lia. }
    cbn [app]. apply fnmatch_quoted.
  - apply fnmatch_plain_bytes. destruct (decide (c < 128)%N) as [Hlt|Hge].
    + unfold utf8_char. rewrite (proj2 (N.leb_le c 127)) by lia. by repeat constructor.
    + eapply Forall_impl; [apply utf8_char_high; lia|]. apply glob_special_high.
Qed.
Lemma fnmatch_escaped q p s :
  fnmatch (utf8 (escape_glob q) ++ p) s = true ↔ ∃ s', s = utf8 q ++ s' ∧ fnmatch p s' = true.
Proof.
  revert s. induction q as [|c q IH]; intros s; [cbn; naive_solver|].
  change (escape_glob (c :: q)) with (escape_char c ++ escape_glob q). change (utf8 (c :: q)) with (utf8_char c ++ utf8 q).
  rewrite utf8_app, <-app_assoc, fnmatch_escape_char. setoid_rewrite IH. setoid_rewrite <-app_assoc. naive_solver.
Qed.

(** A query that is not a pattern matches the names it is part of, and no other. *)
Lemma text_matches q name :
  fnmatch (utf8 (search_pattern q false)) name = true ↔ ∃ before after, name = before ++ utf8 q ++ after.
Proof.
  unfold search_pattern. rewrite !utf8_app. change (utf8 (u "*")) with [42%N]. cbn [app]. rewrite fnmatch_star.
  setoid_rewrite fnmatch_escaped. setoid_rewrite fnmatch_star. setoid_rewrite fnmatch_end. split.
  - intros (a & b & -> & s' & -> & _). eauto.
  - intros (a & b & ->). exists a, (utf8 q ++ b). split; [done|]. exists b. split; [done|].
    exists b, []. by rewrite app_nil_r.
Qed.
End patterns.

Section searching.
Context {D : Type} `{RemoteHost D, !RemoteHostLaws D, FnmatchLaws}.

(** The files [find] prints for a query. *)
Definition matching (d : D) (query : ustr) : list bytes :=
  filter (λ path, fnmatch (utf8 (search_pattern query false)) (base_name path) = true) (walk d (u "6")).2.

Lemma pattern_line query : checked_query query = Ok () → line (search_pattern query false).
Proof.
  unfold checked_query. case_match eqn:E; [|done]. intros _.
  apply andb_true_iff in E as [_ E]. apply negb_true_iff, no_control_line in E. unfold search_pattern, line.
  change (u "*") with [42%N]. rewrite !elem_of_app, !list_elem_of_singleton. unfold escape_glob. rewrite list_elem_of_bind.
  intros [Hs|[(c & Hc & Hin)|Hs]]; [done| |done]. unfold escape_char in Hc.
  case_match; rewrite ?elem_of_cons, elem_of_nil in Hc; destruct Hc as [Hc|Hc]; try done.
  - by destruct Hc as [<-|].
  - by subst.
Qed.

Lemma depth_line : line (display_N MAX_SEARCH_DEPTH).
Proof. unfold line. apply (bool_decide_unpack _). vm_compute. exact I. Qed.

Lemma run_search_script root query output :
  line root → checked_query query = Ok () →
  run (search_script (D := D)) [root; search_pattern query false; display_N MAX_SEARCH_DEPTH] (u "search for files") = Ok output →
  ∃ d, change_dir home (utf8 root) = Some d ∧ output = take MAX_OUTPUT_BYTES (terminated (matching d query)).
Proof.
  intros Hr Hq. unfold run, search_script. rewrite read_written by done. cbn [mbind result_bind].
  rewrite read_written by by apply pattern_line. cbn [mbind result_bind].
  rewrite read_written by apply depth_line. cbn [mbind result_bind].
  destruct (change_dir home (utf8 root)) as [d|]; cbn [mbind result_bind ok_or]; [|done].
  unfold find_regular, matching. change (utf8 (display_N MAX_SEARCH_DEPTH)) with (u "6").
  destruct (walk d (u "6")) as [[] files] eqn:Hw; [|intros Ho; discriminate Ho].
  intros <-%Ok_inj. exists d. by rewrite Hw.
Qed.

(** What is read of the paths that arrive. *)
Lemma parse_matching d query n :
  ∃ k, parse_paths (take n (terminated (matching d query))) = page (omap path_entry (take k (matching d query))) ∧
       (length (terminated (matching d query)) ≤ n → take k (matching d query) = matching d query).
Proof.
  assert (Forall field_ok (matching d query)) as Hok.
  { apply Forall_forall. intros path [_ Hp]%list_elem_of_filter. by eapply walk_paths. }
  destruct (take_terminated n _ Hok) as (k & rest & Hk & Hr & Hall). exists k. split; [|done].
  unfold parse_paths. by rewrite Hk, split_nul_terminated by (done || by apply Forall_take).
Qed.

(** How an entry of a search names a file: its path from the root, as text. *)
Definition names_file (e : RemoteEntry) (path : bytes) : Prop :=
  ∃ p, from_utf8 path = Some p ∧ entry_name e = default p (strip_prefix (u "./") p).
Lemma path_entry_names path e : path_entry path = Some e → names_file e path ∧ entry_kind e = EntryFile.
Proof.
  unfold path_entry, names_file. destruct (from_utf8 path) as [p|]; [|done]. cbn.
  case_bool_decide; [done|]. intros [= <-]. split; [|done]. by exists p.
Qed.

(** Searching a root for plain text finds files by that text and nothing else:
    every entry is a file below the root whose own name has the query in it, character
    for character, whatever a shell would make of those characters; and an answer that
    does not say it was cut, from output within its bound, has every such file whose
    path is text. *)
Theorem search_finds_text names target root query listing :
  validate_target names target = Ok () →
  search target root query false = Ok listing →
  root ∈ tgt_roots target ∧
  ∃ d, change_dir home (utf8 root) = Some d ∧
    (∀ e, e ∈ listing_entries listing → entry_kind e = EntryFile ∧
       ∃ path before after, path ∈ (walk d (u "6")).2 ∧ names_file e path ∧ base_name path = before ++ utf8 query ++ after) ∧
    (listing_truncated listing = false → length (terminated (matching d query)) ≤ MAX_OUTPUT_BYTES →
     ∀ path before after p, path ∈ (walk d (u "6")).2 → base_name path = before ++ utf8 query ++ after →
       from_utf8 path = Some p → p ≠ u "./" → ∃ e, e ∈ listing_entries listing ∧ names_file e path).
Proof.
  intros Hv. unfold search. destruct (permitted_root target root) as [r|] eqn:Hr; [|done].
  apply permitted_root_Ok in Hr as [-> Hin]. cbn [mbind result_bind].
  destruct (checked_query query) as [[]|] eqn:Hq; [|done]. cbn [mbind result_bind].
  destruct (run _ _ _) as [output|] eqn:Ho; [|done]. cbn [mbind result_bind].
  apply run_search_script in Ho as (d & Hd & ->); [|by eapply validated_root_line|done].
  destruct (parse_matching d query MAX_OUTPUT_BYTES) as (k & Hk & Hall). rewrite Hk. unfold page.
  intros <-%Ok_inj. cbn [listing_entries listing_truncated]. split; [done|]. exists d. split; [done|].
  unfold sort_by_name. setoid_rewrite merge_sort_Permutation. split.
  - intros e (path & Hp & He)%elem_of_take_omap.
    apply list_elem_of_filter in Hp as [Hm Hp]. apply text_matches in Hm as (before & after & Hb).
    apply path_entry_names in He as [Hn Hkind]. eauto 10.
  - intros Ht%Nat.leb_gt Hlen path before after p Hp Hb Hu Hne. rewrite Hall in * by done.
    rewrite take_ge by lia. assert (path ∈ matching d query) as Hm.
    { apply list_elem_of_filter. split; [apply text_matches; eauto|done]. }
    destruct (path_entry path) as [e|] eqn:He.
    + exists e. split; [|by apply path_entry_names in He as []]. apply list_elem_of_omap. eauto.
    + exfalso. revert He. unfold path_entry. rewrite Hu. cbn [mbind option_bind]. case_bool_decide as Hnil; [|done]. intros _.
      destruct (strip_prefix (u "./") p) as [rest|] eqn:Hs; cbn in Hnil; subst.
      * apply strip_prefix_Some in Hs. by apply Hne.
      * apply from_utf8_Some in Hu as [-> _]. by apply walk_paths in Hp as [].
Qed.
End searching.

Module Media.
(** A directory is its physical path. [out] is a link to [/etc]; [/long] holds 300 files
    whose names are 240 characters long. *)
Definition films : bytes := u "/srv/media/films".
Definition known (d : bytes) (path : bytes) : option bytes :=
  if bool_decide (path = u "/srv/media") then Some path
  else if bool_decide (path = u "/long") then Some path
  else if bool_decide (path = u "/") then Some path
  else if bool_decide (d = u "/srv/media" ∧ path = u "./films") then Some films
  else if bool_decide (d = u "/srv/media" ∧ path = u "./out") then Some (u "/etc")
  else if bool_decide (d = u "/" ∧ path = u "./etc") then Some (u "/etc")
  else None.
Definition long_name (i : nat) : bytes := replicate 240 97%N ++ display_N (100 + N.of_nat i).
Definition names (d pattern : bytes) : list bytes :=
  if bool_decide (d = films) then
    if bool_decide (pattern = u "*") then [u "a [1].mkv"; u "b"; u "clips"]
    else if bool_decide (pattern = u ".[!.]*") then [u ".nfo"] else []
  else if bool_decide (d = u "/long") then if bool_decide (pattern = u "*") then long_name <$> seq 0 300 else []
  else [].
#[export] Instance host : RemoteHost bytes := {
  home := u "/home";
  change_dir := known;
  physical d := path_of (filter directory_name (split_on slash d)) ++ [newline];
  expansion d pattern := match names d pattern with [] => [pattern] | l => l end;
  exists_at _ e := negb (bool_decide (e ∈ [u "*"; u ".[!.]*"; u "..?*"]));
  is_link _ _ := false;
  is_directory _ e := bool_decide (e = u "clips");
  is_regular _ e := negb (bool_decide (e = u "clips"));
  walk d _ :=
    (true, if bool_decide (d = u "/srv/media")
           then [u "./films/b"; u "./films/a [1].mkv"; u "./films/a 1.mkv"; u "./films/.nfo"] else []);
}.
Definition names_fine (l : list bytes) : bool := forallb (λ e, bool_decide (field_ok e)) l.
Lemma names_fine_ok l e : names_fine l = true → e ∈ l → field_ok e.
Proof. unfold names_fine. rewrite forallb_forall. intros Hl He%list_elem_of_In. by apply (bool_decide_eq_true_1 _), Hl. Qed.
Lemma names_all_fine d pattern : names_fine (names d pattern) = true.
Proof. unfold names. repeat case_match; vm_compute; reflexivity. Qed.
#[export] Instance host_laws : RemoteHostLaws bytes.
Proof.
  split.
  - intros d. exists (filter directory_name (split_on slash d)). split; [|done].
    apply Forall_forall. by intros name [Hname _]%list_elem_of_filter.
  - intros d pattern entry Hp. cbn [expansion host]. pose proof (names_all_fine d pattern) as Hf.
    destruct (names d pattern); [|by apply names_fine_ok].
    rewrite list_elem_of_singleton. by intros ->.
  - intros d depth path. cbn [walk host]. case_bool_decide; [apply names_fine_ok; reflexivity|].
    by intros ?%not_elem_of_nil.
Qed.

(** A matcher of [*], [?] and quoted characters. *)
Fixpoint some_suffix (f : bytes → bool) (s : bytes) : bool :=
  f s || match s with [] => false | _ :: s' => some_suffix f s' end.
Fixpoint glob_match (p : bytes) : bytes → bool :=
  match p with
  | [] => λ s, bool_decide (s = [])
  | 42%N :: p' => some_suffix (glob_match p')
  | 63%N :: p' => λ s, match s with [] => false | _ :: s' => glob_match p' s' end
  | 92%N :: c :: p' => λ s, match s with [] => false | c' :: s' => bool_decide (c = c') && glob_match p' s' end
  | c :: p' => λ s, match s with [] => false | c' :: s' => bool_decide (c = c') && glob_match p' s' end
  end.
#[export] Instance matcher : Fnmatch := glob_match.
Lemma some_suffix_spec f s : some_suffix f s = true ↔ ∃ a b, s = a ++ b ∧ f b = true.
Proof.
  induction s as [|c s IH]; cbn; rewrite orb_true_iff.
  - split; [intros [|]; [by exists [], []|done]|]. intros (a & b & [-> ->]%eq_sym%app_nil & ?). by left.
  - rewrite IH. split.
    + intros [|(a & b & -> & ?)]; [by exists [], (c :: s)|by exists (c :: a), b].
    + intros ([|c' a] & b & Hs & Hb); cbn in Hs; [left; by subst|right]. injection Hs as -> ->. by exists a, b.
Qed.
Lemma char_spec (c : N) f s :
  match s with [] => false | c' :: s' => bool_decide (c = c') && f s' end = true ↔ ∃ s', s = c :: s' ∧ f s' = true.
Proof.
  destruct s as [|c' s]; [naive_solver|]. rewrite andb_true_iff, bool_decide_eq_true. naive_solver.
Qed.
#[export] Instance matcher_laws : FnmatchLaws.
Proof.
  split; unfold fnmatch, matcher.
  - intros s. cbn. apply bool_decide_eq_true.
  - intros p s. cbn. apply some_suffix_spec.
  - intros c p s. cbn. apply char_spec.
  - intros c p s Hc. rewrite <-char_spec.
    assert (c ≠ 42%N ∧ c ≠ 63%N ∧ c ≠ 92%N) as (H1 & H2 & H3).
    { split_and!; intros ->; apply Hc; by apply (bool_decide_unpack _). }
    cbn [glob_match]. repeat case_match; subst; done.
Qed.

Definition server (root : ustr) : Target := {|
  tgt_name := u "nas"; tgt_ssh := Some (u "nas"); tgt_discover_sessions := false; tgt_session := None;
  tgt_socket := None; tgt_herdr_bins := [u "herdr"]; tgt_tags := []; tgt_roots := [root] |}.
End Media.
Import Media.

Definition film_entry (kind : RemoteEntryKind) (name : string) : RemoteEntry := {| entry_kind := kind; entry_name := u name |}.

Lemma directory_listed_inside_witness :
  ∃ listing, list_directory (D := bytes) (server (u "/srv/media")) (u "/srv/media") (u "/films") = Ok listing ∧
    listing_entries listing = [film_entry EntryFile "a [1].mkv"; film_entry EntryFile "b"; film_entry EntryDirectory "clips";
                               film_entry EntryFile ".nfo"] ∧
    ∃ here, leads (D := bytes) (u "/srv/media") (listing_path listing) here.
Proof.
  destruct (list_directory (D := bytes) (server (u "/srv/media")) (u "/srv/media") (u "/films")) as [listing|] eqn:E.
  - exists listing. split; [done|].
    pose proof (directory_listed_inside (D := bytes) [] (server (u "/srv/media")) (u "/srv/media") (u "/films") ltac:(reflexivity)) as [H _].
    destruct (H listing E) as (_ & _ & _ & here & Hl & _). split; [|by exists here].
    vm_compute in E. injection E as <-. reflexivity.
  - vm_compute in E. discriminate E.
Defined.

Lemma search_finds_text_witness :
  ∃ listing, search (D := bytes) (server (u "/srv/media")) (u "/srv/media") (u "[1]") false = Ok listing ∧
    listing_entries listing = [film_entry EntryFile "films/a [1].mkv"] ∧ u "/srv/media" ∈ tgt_roots (server (u "/srv/media")).
Proof.
  destruct (search (D := bytes) (server (u "/srv/media")) (u "/srv/media") (u "[1]") false) as [listing|] eqn:E.
  - exists listing. split; [done|].
    destruct (search_finds_text (D := bytes) [] (server (u "/srv/media")) (u "/srv/media") (u "[1]") listing ltac:(reflexivity) E) as [Hin _].
    split; [|exact Hin]. vm_compute in E. injection E as <-. reflexivity.
  - vm_compute in E. discriminate E.
Defined.

(** A link that leads out of the root is refused. *)
Example link_out_refused :
  is_ok (list_directory (D := bytes) (server (u "/srv/media")) (u "/srv/media") (u "out")) = false.
Proof. vm_compute. reflexivity. Qed.

(** The root directory is a root the configuration takes, and nothing below it can be
    listed: what [pwd -P] prints for it ends in the separator the comparison adds. *)
Example nothing_below_slash :
  validate_target [] (server (u "/")) = Ok () ∧
  is_ok (list_directory (D := bytes) (server (u "/")) (u "/") []) = true ∧
  is_ok (list_directory (D := bytes) (server (u "/")) (u "/") (u "etc")) = false.
Proof. vm_compute. done. Qed.

(** A directory whose names fill the output's bound before the page is cut without
    saying so. *)
Example cut_not_said :
  match list_directory (D := bytes) (server (u "/long")) (u "/long") [] with
  | Ok listing => (length (listing_entries listing) <? 300) && negb (listing_truncated listing)
  | Err _ => false
  end = true.
Proof. vm_compute. reflexivity. Qed.
