(* ===== verification/Push.v ===== *)
(** Push subscriptions and the keys that sign wakes: [src/src/push.rs].

    The JSON of the two files, base64, and the elliptic-curve key are parameters; what a
    push service answers is an argument. Directories, permissions and the temporary file
    of an atomic write are one outcome: it was written, or it was not. *)

From S2P Require Import Prelude Text Pairing.

Definition PUSH_SUBSCRIPTIONS_VERSION : N := 1.
Definition MAX_PUSH_SUBSCRIPTIONS_BYTES : nat := 256 * 1024.
Definition MAX_PUSH_SUBSCRIPTIONS : nat := 128.
Definition PUSH_TTL_SECONDS : N := 60.
Definition VAPID_TOKEN_LIFETIME_SECONDS : N := 12 * 60 * 60.
Definition VAPID_CONTACT : ustr := u "https://github.com/mikro-design/super-herdr".

Record PushSubscription := { push_endpoint : ustr; push_p256dh : ustr; push_auth : ustr }.
#[export] Instance PushSubscription_eq_dec : EqDecision PushSubscription.
Proof. solve_decision. Defined.
Record PersistedSubscription := { persisted_subscription : PushSubscription; subscribed_at_ms : N }.
Record PersistedPushSubscriptions := { push_version : N; subscriptions : gmap ustr PersistedSubscription }.

(** [serde_json] on the file's shape; a file ends in a newline that a reader skips. *)
Class PushJson := {
  push_to_json : PersistedPushSubscriptions → bytes;
  push_from_json : bytes → option PersistedPushSubscriptions;
}.
Class PushJsonLaws `{PushJson} := push_json_read p : push_from_json (push_to_json p ++ [10%N]) = Some p.

(** ** The store

    The file, when there is one that can be read; [written] is how replacing it turns out. *)

Section store.
Context `{PushJson}.

Definition subscription_age (entry : ustr * PersistedSubscription) : N * ustr := (subscribed_at_ms entry.2, entry.1).
Definition enforce_cap : gmap ustr PersistedSubscription → gmap ustr PersistedSubscription :=
  evict MAX_PUSH_SUBSCRIPTIONS subscription_age.

Definition load (file : option bytes) : result ustr PersistedPushSubscriptions :=
  content ← ok_or file (u "no push subscriptions are stored");
  if MAX_PUSH_SUBSCRIPTIONS_BYTES <? length content
  then Err (u "persisted push subscriptions exceed the size limit")
  else
    persisted ← ok_or (push_from_json content) (u "persisted push subscriptions are invalid");
    if negb (push_version persisted =? PUSH_SUBSCRIPTIONS_VERSION)%N
    then Err (u "persisted push subscriptions have an unsupported version")
    else if MAX_PUSH_SUBSCRIPTIONS <? size (subscriptions persisted)
    then Err (u "persisted push subscriptions name too many devices")
    else Ok persisted.

Definition save (written : bool) (persisted : PersistedPushSubscriptions) (file : option bytes)
    : option bytes * result ustr () :=
  let content := push_to_json persisted ++ [10%N] in
  if MAX_PUSH_SUBSCRIPTIONS_BYTES <? length content
  then (file, Err (u "encoded push subscriptions exceed the size limit"))
  else if written then (Some content, Ok ())
  else (file, Err (u "failed to atomically replace push subscriptions")).

Definition push_current (file : option bytes) : gmap ustr PushSubscription :=
  match load file with Ok persisted => persisted_subscription <$> subscriptions persisted | Err _ => ∅ end.

Definition no_subscriptions : PersistedPushSubscriptions :=
  {| push_version := PUSH_SUBSCRIPTIONS_VERSION; subscriptions := ∅ |}.
Definition with_subscriptions (m : gmap ustr PersistedSubscription) (p : PersistedPushSubscriptions)
    : PersistedPushSubscriptions :=
  {| push_version := push_version p; subscriptions := m |}.

Definition set (token_sha256 : ustr) (subscription : PushSubscription) (now_ms : N) (written : bool) (file : option bytes)
    : option bytes * result ustr () :=
  let persisted := match load file with Ok persisted => persisted | Err _ => no_subscriptions end in
  let inserted := <[token_sha256 := {| persisted_subscription := subscription; subscribed_at_ms := now_ms |}]>
                    (subscriptions persisted) in
  save written (with_subscriptions (enforce_cap inserted) persisted) file.

Definition remove (token_sha256 : ustr) (written : bool) (file : option bytes) : option bytes * result ustr () :=
  match load file with
  | Err _ => (file, Ok ())
  | Ok persisted =>
      match subscriptions persisted !! token_sha256 with
      | None => (file, Ok ())
      | Some _ => save written (with_subscriptions (delete token_sha256 (subscriptions persisted)) persisted) file
      end
  end.

(** ** A sweep

    A push service's answer: a status, or none at all. *)
Definition gone (status : N) : bool := (status =? 404)%N || (status =? 410)%N.

(** What the sweep does about one answer. *)
Definition after_wake (token_sha256 : ustr) (answer : option N) (written : bool) (file : option bytes) : option bytes :=
  match answer with
  | Some status => if gone status then (remove token_sha256 written file).1 else file
  | None => file
  end.
(** [spawn_push_sweep]: one device after the other, over what the store held at the
    start. *)
Definition sweep (answers : PushSubscription → option N) (written : bool) (file : option bytes) : option bytes :=
  foldl (λ file held, after_wake held.1 (answers held.2) written file) file (entries (push_current file)).
End store.

(** ** Keys *)

Definition endpoint_origin (endpoint : ustr) : result ustr ustr :=
  '(scheme, rest) ← ok_or (split_once (u "://") endpoint) (u "a push endpoint has no scheme");
  let host := default [] (head (split_at (λ c, contains c (u "/?#")) rest)) in
  if bool_decide (host = []) then Err (u "a push endpoint has no host")
  else Ok (scheme ++ u "://" ++ host).

Definition hex_encode (b : bytes) : ustr := hex b.
(** [u8::from_str_radix] on two characters, the first of which may be a sign. *)
Definition hex_pair (a b : N) : option N :=
  match to_digit 16 a, to_digit 16 b with
  | Some high, Some low => Some (16 * high + low)%N
  | None, Some low => if (a =? 43)%N then Some low else None
  | _, None => None
  end.
(** On text of ASCII characters; slicing panics inside any other. *)
Fixpoint hex_bytes (text : ustr) : result ustr bytes :=
  match text with
  | a :: b :: text' =>
      byte ← ok_or (hex_pair a b) (u "hex-encoded key has an invalid digit");
      rest ← hex_bytes text';
      Ok (byte :: rest)
  | _ => Ok []
  end.
Definition hex_decode (text : ustr) : result ustr bytes :=
  if Nat.odd (length text) then Err (u "hex-encoded key has an odd length") else hex_bytes text.

(** The signing key of the curve, JSON and base64. *)
Class Vapid (K : Type) := {
  key_of_slice : bytes → option K;
  key_to_bytes : K → bytes;
  public_point : K → bytes;
  key_sign : K → bytes → bytes;
  key_json : ustr → bytes;
  key_from_json : bytes → option ustr;
  claims_json : ustr → N → ustr → bytes;
  base64url : bytes → ustr;
}.

(** What is at the key's path. *)
Inductive KeyFile := KeyAbsent | KeyUninspected | KeyUnreadable | KeyContent (content : bytes).

Section keys.
Context {K : Type} `{Vapid K}.

Record VapidKeys := { signing_key : K; public_key_base64url : ustr }.
Definition from_signing_key (key : K) : VapidKeys :=
  {| signing_key := key; public_key_base64url := base64url (public_point key) |}.

(** The first of the random draws that is a valid scalar; [None] when the source of
    randomness fails first. *)
Fixpoint draw_key (draws : list (option bytes)) : option K :=
  match draws with
  | Some candidate :: draws' => match key_of_slice candidate with Some key => Some key | None => draw_key draws' end
  | _ => None
  end.
Definition generate_and_persist (draws : list (option bytes)) (written : bool) (file : KeyFile)
    : KeyFile * result ustr VapidKeys :=
  match draw_key draws with
  | None => (file, Err (u "failed to open /dev/urandom"))
  | Some key =>
      if written then (KeyContent (key_json (hex_encode (key_to_bytes key)) ++ [10%N]), Ok (from_signing_key key))
      else (file, Err (u "failed to atomically write the VAPID key"))
  end.
Definition load_or_generate (draws : list (option bytes)) (written : bool) (file : KeyFile)
    : KeyFile * result ustr VapidKeys :=
  match file with
  | KeyAbsent => generate_and_persist draws written file
  | KeyUninspected => (file, Err (u "failed to inspect the stored VAPID key"))
  | KeyUnreadable => (file, Err (u "failed to read the stored VAPID key"))
  | KeyContent content =>
      (file,
       text ← ok_or (key_from_json content) (u "the stored VAPID key is invalid");
       scalar ← match hex_decode text with Ok b => Ok b | Err _ => Err (u "the stored VAPID key is not valid hex") end;
       key ← ok_or (key_of_slice scalar) (u "the stored VAPID key is not a valid key");
       Ok (from_signing_key key))
  end.

Definition quoted (s : ustr) : ustr := [34%N] ++ s ++ [34%N].
Definition jwt_header : ustr :=
  u "{" ++ quoted (u "typ") ++ u ":" ++ quoted (u "JWT") ++ u "," ++ quoted (u "alg") ++ u ":" ++ quoted (u "ES256") ++ u "}".
(** [now]: seconds since 1970, when the clock is past it. *)
Definition authorization_header (keys : VapidKeys) (now : option N) (endpoint : ustr) : result ustr ustr :=
  audience ← endpoint_origin endpoint;
  now ← ok_or now (u "the system clock is before 1970");
  let header := base64url (utf8 jwt_header) in
  let claims := base64url (claims_json audience (now + VAPID_TOKEN_LIFETIME_SECONDS)%N VAPID_CONTACT) in
  let signing_input := header ++ u "." ++ claims in
  let signature := base64url (key_sign (signing_key keys) (utf8 signing_input)) in
  Ok (u "vapid t=" ++ signing_input ++ u "." ++ signature ++ u ", k=" ++ public_key_base64url keys).
End keys.
