(* ===== verification/PushFacts.v ===== *)
(** What the push store and the signing key guarantee: a subscription is kept until its
    device, its push service or the cap ends it, and a key, once written, is the one
    every later start loads.

    A store and a key to run [PushFacts] on, and a subscription that is lost to the
    answer its predecessor got. *)

From S2P Require Import Prelude Text Pairing Push.

(** ** Hexadecimal *)

Lemma hex_pair_digits n : (n < 256)%N → hex_pair (hex_digit (n / 16)) (hex_digit (n mod 16)) = Some n.
Proof.
  intros Hn. assert (forallb (λ n, bool_decide (hex_pair (hex_digit (n / 16)) (hex_digit (n mod 16)) = Some n))
    (N.of_nat <$> seq 0 256) = true) as H by (vm_compute; reflexivity).
  rewrite forallb_forall in H. apply (bool_decide_eq_true_1 _), H, list_elem_of_In, list_elem_of_fmap.
  exists (N.to_nat n). split; [lia|]. apply elem_of_seq. lia.
Qed.
Lemma hex_bytes_hex b : Forall (λ byte, byte < 256)%N b → hex_bytes (hex b) = Ok b.
Proof.
  induction 1 as [|byte b Hb _ IH]; [done|]. unfold hex in *. cbn [mbind list_bind app hex_bytes].
  rewrite hex_pair_digits by done. cbn [ok_or mbind result_bind]. by rewrite IH.
Qed.
Lemma hex_length b : length (hex b) = 2 * length b.
Proof. induction b as [|byte b IH]; [done|]. unfold hex in *. cbn [mbind list_bind app length]. rewrite IH. lia. Qed.
Lemma hex_decode_hex b : Forall (λ byte, byte < 256)%N b → hex_decode (hex_encode b) = Ok b.
Proof.
  intros Hb. unfold hex_decode, hex_encode. rewrite hex_length. 
  assert (Nat.odd (2 * length b) = false) as ->; [|by apply hex_bytes_hex].
  rewrite <-Nat.negb_even, Nat.even_mul. done.
Qed.

(** ** The store *)

Section store.
Context `{PushJsonLaws}.

(** What a load gives, as entries. *)
Definition stored (file : option bytes) : gmap ustr PersistedSubscription :=
  match load file with Ok persisted => subscriptions persisted | Err _ => ∅ end.
Lemma push_current_stored file : push_current file = persisted_subscription <$> stored file.
Proof. unfold push_current, stored. destruct (load file); [done|]. by rewrite fmap_empty. Qed.

Lemma load_Ok file p :
  load file = Ok p → push_version p = PUSH_SUBSCRIPTIONS_VERSION ∧ size (subscriptions p) ≤ MAX_PUSH_SUBSCRIPTIONS.
Proof.
  unfold load. destruct file as [content|]; cbn [ok_or mbind result_bind]; [|done]. case_match; [done|].
  destruct (push_from_json content) as [q|]; cbn [ok_or mbind result_bind]; [|done].
  case_match eqn:Hv; [done|]. case_match eqn:Hs; [done|]. intros [= ->].
  apply negb_false_iff, N.eqb_eq in Hv. apply Nat.ltb_ge in Hs. done.
Qed.
Lemma size_stored file : size (stored file) ≤ MAX_PUSH_SUBSCRIPTIONS.
Proof.
  unfold stored. destruct (load file) as [p|] eqn:E; [by apply load_Ok in E as []|].
  rewrite map_size_empty. apply Nat.le_0_l.
Qed.

(** What was saved is what is loaded. *)
Lemma save_stored written p file file' :
  push_version p = PUSH_SUBSCRIPTIONS_VERSION → size (subscriptions p) ≤ MAX_PUSH_SUBSCRIPTIONS →
  save written p file = (file', Ok ()) → stored file' = subscriptions p.
Proof.
  intros Hv Hs. unfold save, stored, load. destruct (Nat.ltb_spec MAX_PUSH_SUBSCRIPTIONS_BYTES (length (push_to_json p ++ [10%N]))) as [|Hle]; [done|].
  destruct written; [|done]. intros Heq. apply (f_equal fst) in Heq. cbn [fst] in Heq. subst file'. cbn [ok_or mbind result_bind].
  apply Nat.ltb_ge in Hle. rewrite Hle, push_json_read. cbn [ok_or mbind result_bind].
  rewrite Hv, N.eqb_refl. cbn [negb]. by rewrite (proj2 (Nat.ltb_ge _ _)).
Qed.
Lemma save_failed written p file file' e : save written p file = (file', Err e) → file' = file.
Proof. unfold save. repeat case_match; naive_solver. Qed.

(** Subscribing records exactly that subscription for exactly that device, and keeps
    every other one, unless the store was full: then the least recent subscription is
    forgotten, and no other. *)
Theorem set_records token_sha256 subscription now_ms written file file' :
  set token_sha256 subscription now_ms written file = (file', Ok ()) →
  size (push_current file') ≤ MAX_PUSH_SUBSCRIPTIONS ∧
  let inserted := <[token_sha256 := {| persisted_subscription := subscription; subscribed_at_ms := now_ms |}]> (stored file) in
  (push_current file' = <[token_sha256 := subscription]> (push_current file) ∨
   ∃ forgotten, size (push_current file) = MAX_PUSH_SUBSCRIPTIONS ∧ push_current file !! token_sha256 = None ∧
     oldest_entry subscription_age inserted forgotten ∧
     push_current file' = delete forgotten (<[token_sha256 := subscription]> (push_current file))).
Proof.
  intros Hset. unfold set in Hset. cbv zeta. set (new := {| persisted_subscription := subscription; subscribed_at_ms := now_ms |}) in *.
  set (p := match load file with Ok p => p | Err _ => no_subscriptions end) in Hset.
  assert (subscriptions p = stored file) as Hp by (unfold p, stored; by destruct (load file)).
  assert (push_version p = PUSH_SUBSCRIPTIONS_VERSION) as Hv.
  { unfold p. destruct (load file) eqn:E; [by apply load_Ok in E as []|done]. }
  rewrite Hp in Hset. pose proof (size_stored file) as Hsize.
  assert (size (<[token_sha256:=new]> (stored file)) ≤ S MAX_PUSH_SUBSCRIPTIONS) as Hle.
  { etrans; [apply size_insert_le|]. lia. }
  rewrite !push_current_stored, !map_size_fmap.
  destruct (evict_spec MAX_PUSH_SUBSCRIPTIONS subscription_age _ Hle) as [[Hfit He]|(k & Hfull & Hold & He)].
  - apply save_stored in Hset as ->; [|done|]; unfold enforce_cap; cbn [subscriptions with_subscriptions]; rewrite ?He; [|done..].
    split; [done|]. left. by rewrite fmap_insert.
  - assert (size (delete k (<[token_sha256:=new]> (stored file))) ≤ MAX_PUSH_SUBSCRIPTIONS) as Hdel.
    { destruct Hold as (v & Hk & _). rewrite map_size_delete_Some by eauto. rewrite Hfull. apply Nat.le_refl. }
    apply save_stored in Hset as ->; [|done|]; unfold enforce_cap; cbn [subscriptions with_subscriptions]; rewrite ?He; [|done..].
    split; [done|]. right. exists k.
    assert (stored file !! token_sha256 = None) as Hnone.
    { apply eq_None_not_Some. intros Hsome. rewrite map_size_insert_Some in Hfull by done. lia. }
    rewrite map_size_insert_None in Hfull by done. split_and!; [lia| |done|].
    + by rewrite lookup_fmap, Hnone.
    + by rewrite fmap_delete, fmap_insert.
Qed.

(** A sweep forgets nobody whose push service did not say the subscription is gone. *)
Lemma remove_stored token_sha256 written file t :
  stored (remove token_sha256 written file).1 !! t = stored file !! t ∨
  t = token_sha256 ∧ stored (remove token_sha256 written file).1 !! t = None.
Proof.
  unfold remove. destruct (load file) as [p|] eqn:El; [|by left].
  destruct (subscriptions p !! token_sha256) eqn:Et; [|by left].
  assert (stored file = subscriptions p) as Hst by (unfold stored; by rewrite El). apply load_Ok in El as [Hv Hs].
  destruct (save _ _ _) as [file' [[]|e]] eqn:Esave; cbn [fst].
  - apply save_stored in Esave as ->; [|done|cbn [subscriptions with_subscriptions]; etrans; [apply size_delete_le|done]].
    cbn [subscriptions with_subscriptions]. rewrite Hst. destruct (decide (t = token_sha256)) as [->|Hne].
    + right. by rewrite lookup_delete_eq.
    + left. by rewrite lookup_delete_ne.
  - apply save_failed in Esave as ->. by left.
Qed.
Lemma remove_subseteq token_sha256 written file : stored (remove token_sha256 written file).1 ⊆ stored file.
Proof.
  apply map_subseteq_spec. intros t s Hs. destruct (remove_stored token_sha256 written file t) as [Heq|[_ Hnone]]; congruence.
Qed.

(** What the file holds fits its limit, and so would it with subscriptions missing. *)
Definition fits (file : option bytes) : Prop :=
  ∀ m, m ⊆ stored file →
    length (push_to_json {| push_version := PUSH_SUBSCRIPTIONS_VERSION; subscriptions := m |} ++ [10%N])
      ≤ MAX_PUSH_SUBSCRIPTIONS_BYTES.

Lemma remove_gone token_sha256 file :
  fits file → stored (remove token_sha256 true file).1 !! token_sha256 = None.
Proof.
  intros Hfit. unfold remove. destruct (load file) as [p|] eqn:El; cbn [fst].
  - assert (stored file = subscriptions p) as Hst by (unfold stored; by rewrite El). apply load_Ok in El as [Hv Hs].
    destruct (subscriptions p !! token_sha256) eqn:Et; cbn [fst]; [|by rewrite Hst].
    destruct (save _ _ _) as [file' [[]|e]] eqn:Esave; cbn [fst].
    + apply save_stored in Esave as ->; [|done|cbn [subscriptions with_subscriptions]; etrans; [apply size_delete_le|done]].
      apply lookup_delete_eq.
    + exfalso. unfold save, with_subscriptions in Esave. rewrite Hv in Esave.
      rewrite (proj2 (Nat.ltb_ge _ _)) in Esave; [done|]. apply Hfit. rewrite Hst. apply delete_subseteq.
  - unfold stored. by rewrite El.
Qed.
End store.

(** ** Waking *)

Section sweeping.
Context `{PushJsonLaws}.

Definition told_gone (answers : PushSubscription → option N) (subscription : PushSubscription) : bool :=
  from_option gone false (answers subscription).
(** Whether one of the answers ends the subscription of [t]. *)
Definition ends (answers : PushSubscription → option N) (t : ustr) (l : list (ustr * PushSubscription)) : bool :=
  existsb (λ held, bool_decide (held.1 = t) && told_gone answers held.2) l.

Lemma after_wake_fits t' answer file : fits file → fits (after_wake t' answer true file).
Proof.
  intros Hfit m Hm. apply Hfit. etrans; [exact Hm|]. unfold after_wake.
  destruct answer as [status|]; [|done]. destruct (gone status); [|done]. apply remove_subseteq.
Qed.
Lemma after_wake_current t' answer file t :
  fits file →
  push_current (after_wake t' answer true file) !! t =
  if bool_decide (t' = t) && from_option gone false answer then None else push_current file !! t.
Proof.
  intros Hfit. unfold after_wake. destruct answer as [status|]; cbn [from_option]; [|by rewrite andb_false_r].
  destruct (gone status); [|by rewrite andb_false_r]. rewrite andb_true_r, !push_current_stored, !lookup_fmap.
  case_bool_decide as Ht; [subst; by rewrite remove_gone|].
  destruct (remove_stored t' true file t) as [->|[-> _]]; done.
Qed.
Lemma sweep_loop answers l file t :
  fits file →
  push_current (foldl (λ file held, after_wake held.1 (answers held.2) true file) file l) !! t =
  if ends answers t l then None else push_current file !! t.
Proof.
  revert file. induction l as [|[t' s] l IH]; intros file Hfit; [done|]. cbn [foldl fst snd].
  rewrite IH, after_wake_current by auto using after_wake_fits.
  unfold ends. cbn [existsb fst snd]. unfold told_gone at 2. by destruct (bool_decide (t' = t) && _), (existsb _ l).
Qed.
End sweeping.

(** Waking every device forgets exactly those whose push service says the
    subscription is gone: no other answer, and no failure to get one, costs a device its
    subscription. *)
Theorem sweep_forgets_gone `{PushJsonLaws} answers file :
  fits file →
  ∀ t, push_current (sweep answers true file) !! t =
       subscription ← push_current file !! t;
       if told_gone answers subscription then None else Some subscription.
Proof.
  intros Hfit t. unfold sweep. rewrite sweep_loop by done.
  destruct (ends answers t _) eqn:E.
  - unfold ends in E. apply existsb_exists in E as ([t' s] & Hin%list_elem_of_In%elem_of_entries & Hs).
    apply andb_true_iff in Hs as [Ht%bool_decide_eq_true Hg]. cbn [fst snd] in *. subst t'. rewrite Hin.
    cbn [mbind option_bind]. by rewrite Hg.
  - destruct (push_current file !! t) as [s|] eqn:Et; [|done]. cbn [mbind option_bind].
    destruct (told_gone answers s) eqn:Hg; [|done]. exfalso. rewrite <-not_true_iff_false in E. apply E.
    unfold ends. apply existsb_exists. exists (t, s). split; [by apply list_elem_of_In, elem_of_entries|].
    cbn [fst snd]. by rewrite Hg, bool_decide_eq_true_2.
Qed.

(** ** The key *)

Class VapidLaws (K : Type) `{Vapid K} := {
  key_slice_bytes key : key_of_slice (key_to_bytes key) = Some key;
  key_bytes_range key : Forall (λ byte, byte < 256)%N (key_to_bytes key);
  key_json_read text : key_from_json (key_json text ++ [10%N]) = Some text;
}.

(** The key that signs wakes is made once: a start that finds no key writes one that
    every later start loads again, the same to the browsers that subscribed with it, and
    a start that finds anything at the key's path leaves it as it is, whether or not it
    can use it. *)
Theorem vapid_key_survives {K} `{VapidLaws K} draws written draws' written' file :
  (∀ keys file', load_or_generate draws written file = (file', Ok keys) →
     load_or_generate draws' written' file' = (file', Ok keys)) ∧
  (file ≠ KeyAbsent → (load_or_generate draws written file).1 = file).
Proof.
  split; [|by destruct file]. intros keys file'. destruct file as [| | |content]; [|done..|].
  - cbn [load_or_generate]. unfold generate_and_persist. destruct (draw_key draws) as [key|]; [|done].
    destruct written; [|done]. intros Heq. injection Heq as <- <-. cbn [load_or_generate].
    rewrite key_json_read. cbn [ok_or mbind result_bind]. rewrite hex_decode_hex by apply key_bytes_range.
    cbn [mbind result_bind]. by rewrite key_slice_bytes.
  - intros Heq. assert (file' = KeyContent content) as -> by (by apply (f_equal fst) in Heq). exact Heq.
Qed.

Module Bits.
(** The file as the bits of the encoding that makes its content countable. *)
#[export] Instance PushSubscription_countable : Countable PushSubscription.
Proof.
  apply (inj_countable' (λ s, (push_endpoint s, push_p256dh s, push_auth s)) (λ t, Build_PushSubscription t.1.1 t.1.2 t.2)).
  by intros [].
Defined.
#[export] Instance PersistedSubscription_eq_dec : EqDecision PersistedSubscription.
Proof. solve_decision. Defined.
#[export] Instance PersistedSubscription_countable : Countable PersistedSubscription.
Proof.
  apply (inj_countable' (λ s, (persisted_subscription s, subscribed_at_ms s)) (λ t, Build_PersistedSubscription t.1 t.2)).
  by intros [].
Defined.
Definition entry_list (p : PersistedPushSubscriptions) : N * list (ustr * PersistedSubscription) :=
  (push_version p, map_to_list (subscriptions p)).
Fixpoint bits (p : positive) : bytes :=
  match p with xH => [1%N] | xO p' => 0%N :: bits p' | xI p' => 1%N :: bits p' end.
Fixpoint of_bits (b : bytes) : option positive :=
  match b with
  | [] => None
  | [1%N] => Some xH
  | 0%N :: b' => xO <$> of_bits b'
  | _ :: b' => xI <$> of_bits b'
  end.
Lemma of_bits_bits p : of_bits (bits p) = Some p.
Proof.
  induction p as [p IH|p IH|]; [|by cbn; rewrite IH|done]. cbn. destruct (bits p) eqn:E; [by destruct p|].
  by rewrite IH.
Qed.
#[export] Instance json : PushJson := {
  push_to_json p := bits (encode (entry_list p));
  push_from_json b :=
    p ← of_bits (take (pred (length b)) b);
    '(version, l) ← decode p;
    Some {| push_version := version; subscriptions := list_to_map l |};
}.
#[export] Instance json_laws : PushJsonLaws.
Proof.
  intros [version m]. unfold push_from_json, push_to_json, json. rewrite length_app, Nat.add_1_r. cbn [pred].
  rewrite take_app_length, of_bits_bits. cbn [mbind option_bind]. rewrite decode_encode. cbn [mbind option_bind entry_list].
  by rewrite list_to_map_to_list.
Qed.

(** A curve of two keys. *)
#[export] Instance curve : Vapid bool := {
  key_of_slice b := match b with [n] => Some (n =? 1)%N | _ => None end;
  key_to_bytes key := [if key then 1 else 0]%N;
  public_point key := [4; if key then 1 else 0]%N;
  key_sign _ message := take 4 message;
  key_json text := text;
  key_from_json b := Some (take (pred (length b)) b);
  claims_json audience expires contact := utf8 audience;
  base64url b := hex b;
}.
End Bits.
Import Bits.

Definition phone : ustr := u "a1".
Definition subscribed (endpoint : string) : PushSubscription :=
  {| push_endpoint := u endpoint; push_p256dh := u "k"; push_auth := u "s" |}.
Definition file_of (l : list (ustr * PersistedSubscription)) : option bytes :=
  Some (push_to_json {| push_version := PUSH_SUBSCRIPTIONS_VERSION; subscriptions := list_to_map l |} ++ [10%N]).
Definition one_phone : option bytes :=
  file_of [(phone, {| persisted_subscription := subscribed "https://push.example/1"; subscribed_at_ms := 5 |})].

Lemma sweep_forgets_gone_witness :
  fits one_phone ∧ push_current (sweep (λ _, Some 410%N) true one_phone) !! phone = None.
Proof.
  assert (fits one_phone) as Hfit.
  { intros m Hm. unfold stored in Hm.
    assert (load one_phone = Ok {| push_version := 1; subscriptions :=
      {[phone := {| persisted_subscription := subscribed "https://push.example/1"; subscribed_at_ms := 5 |}]} |}) as Hl
      by (vm_compute; reflexivity).
    rewrite Hl in Hm. cbn [subscriptions] in Hm.
    destruct (m !! phone) as [s|] eqn:Es.
    - assert (m = {[phone := {| persisted_subscription := subscribed "https://push.example/1"; subscribed_at_ms := 5 |}]}) as ->.
      { apply map_subseteq_po; [exact Hm|]. apply map_subseteq_spec. intros k v [<- <-]%lookup_singleton_Some.
        rewrite Es. rewrite map_subseteq_spec in Hm. apply Hm in Es. apply lookup_singleton_Some in Es as [_ <-]. done. }
      apply Nat.leb_le. vm_compute. reflexivity.
    - assert (m = ∅) as ->.
      { apply map_empty. intros k. destruct (m !! k) as [v|] eqn:Ek; [|done]. rewrite map_subseteq_spec in Hm.
        pose proof (Hm _ _ Ek) as [<- _]%lookup_singleton_Some. congruence. }
      apply Nat.leb_le. vm_compute. reflexivity. }
  split; [exact Hfit|]. rewrite (sweep_forgets_gone (λ _, Some 410%N) one_phone Hfit). vm_compute. reflexivity.
Defined.

Lemma vapid_key_survives_witness :
  ∃ keys file, load_or_generate [Some [1%N; 2%N]; Some [1%N]] true KeyAbsent = (file, Ok keys) ∧
    load_or_generate [] false file = (file, Ok keys).
Proof.
  assert (VapidLaws bool) as Hlaws.
  { split.
    - by intros [].
    - intros []; by repeat constructor.
    - intros text. unfold key_from_json, key_json, curve. rewrite length_app, Nat.add_1_r. cbn [pred].
      rewrite take_app_length. reflexivity. }
  do 2 eexists. split; [reflexivity|].
  apply (vapid_key_survives (K := bool) [Some [1%N; 2%N]; Some [1%N]] true [] false KeyAbsent). reflexivity.
Defined.

(** The sweep goes by what the store held when it began. A device that subscribes anew
    while its old endpoint is asked loses the new subscription to the old one's answer. *)
Example new_subscription_forgotten :
  let file := (set phone (subscribed "https://push.example/2") 9 true one_phone).1 in
  push_current file !! phone = Some (subscribed "https://push.example/2") ∧
  push_current (after_wake phone (Some 410%N) true file) !! phone = None.
Proof. vm_compute. done. Qed.
