(* ===== verification/Web.v ===== *)
(** The browser client over HTTP: [src/src/daemon/web.rs].

    A connection is the bytes its peer sends; what the server writes back is bytes too.
    The [Devices] trait is a class, and [DevicePolicy] its instance in [WebDevices]. The
    page and the script the binary carries, serde_json, and how long anything takes are
    parameters: a wait that ends is the event that ended it. *)

From S2P Require Import Prelude Text Protocol Push.

Definition MAX_HEADER_BYTES : nat := 16 * 1024.
Definition COMMAND_QUEUE_DEPTH : nat := 4.
Definition MAX_SESSION_CHARS : nat := 64.
Definition MAX_TOKEN_CHARS : nat := 128.
Definition FORWARDING_HEADERS : list ustr :=
  [u "x-forwarded-for"; u "x-forwarded-proto"; u "x-forwarded-host"; u "forwarded"; u "tailscale-user-login"].
Definition COOKIE_LIFETIME_SECONDS : N := 60 * 60 * 24 * 30.

(** [<[u8]>::trim_ascii]. *)
Definition is_ascii_whitespace (b : N) : bool := ((b =? 32) || (b =? 9) || (b =? 10) || (b =? 12) || (b =? 13))%N.
Fixpoint trim_ascii_start (b : bytes) : bytes :=
  match b with
  | c :: b' => if is_ascii_whitespace c then trim_ascii_start b' else b
  | [] => []
  end.
Definition trim_ascii (b : bytes) : bytes := reverse (trim_ascii_start (reverse (trim_ascii_start b))).

(** ** Requests *)

Record Request := {
  rq_method : ustr;
  rq_path : ustr;
  rq_session : option ustr;
  rq_token : option ustr;
  rq_forwarded : bool;
  rq_length : nat;
}.

Definition sanitized_session (value : ustr) : ustr :=
  take MAX_SESSION_CHARS (filter (λ c, is_ascii_alphanumeric c || (c =? 45)%N = true) value).
Definition sanitized_token (value : ustr) : ustr :=
  take MAX_TOKEN_CHARS (filter (λ c, is_ascii_hexdigit c = true) value).

(** [read_until] a newline, on a reader limited to [limit] bytes. *)
Fixpoint read_until (limit : nat) (input : bytes) : bytes * bytes :=
  match limit, input with
  | S limit', c :: input' =>
      if (c =? newline)%N then ([c], input')
      else let '(line, rest) := read_until limit' input' in (c :: line, rest)
  | _, _ => ([], input)
  end.
Definition blank (line : bytes) : bool := bool_decide (line = [13%N; newline]) || bool_decide (line = [newline]).
Fixpoint read_head (fuel : nat) (head input : bytes) : option (bytes * bytes) :=
  match fuel with
  | O => None
  | S fuel' =>
      let remaining := MAX_HEADER_BYTES - length head in
      if remaining =? 0 then None
      else
        let '(line, rest) := read_until remaining input in
        if bool_decide (line = []) then None
        else if blank line then Some (head ++ line, rest)
        else read_head fuel' (head ++ line) rest
  end.

Definition header_of (line : ustr) : option (ustr * ustr) := split_once (u ":") line.
Definition cookie_token (value : ustr) : option ustr :=
  head (filter (λ token, token ≠ [])
          (omap (λ pair, sanitized_token <$> strip_prefix (u "sh_device=") (trim pair)) (split_on 59 value))).
Definition header_length (length : N) (header : ustr * ustr) : N :=
  if eq_ignore_ascii_case header.1 (u "content-length")
  then default 0%N (parse_unsigned u64_max (trim header.2)) else length.
Definition header_forwarded (forwarded : bool) (header : ustr * ustr) : bool :=
  forwarded || existsb (eq_ignore_ascii_case header.1) FORWARDING_HEADERS.
Definition header_token (token : option ustr) (header : ustr * ustr) : option ustr :=
  if eq_ignore_ascii_case header.1 (u "cookie") then cookie_token header.2 else token.
Definition query_session (query : ustr) : option ustr :=
  value ← head (omap (strip_prefix (u "session=")) (split_on 38 query));
  let session := sanitized_session value in
  if bool_decide (session = []) then None else Some session.
Definition parse_head (text : ustr) : Request :=
  let start := split_whitespace (default [] (head (lines text))) in
  let headers := omap header_of (tail (lines text)) in
  let target := default [] (head (tail start)) in
  let '(path, query) := default (target, []) (split_once (u "?") target) in
  {| rq_method := default [] (head start);
     rq_path := path;
     rq_session := query_session query;
     rq_token := foldl header_token None headers;
     rq_forwarded := foldl header_forwarded false headers;
     rq_length := N.to_nat (N.min (foldl header_length 0%N headers) (N.of_nat MAX_MESSAGE_BYTES)) |}.
(** A round of [read_head] takes at least a byte. *)
Definition read_request (input : bytes) : option (Request * bytes) :=
  '(head, rest) ← read_head (S MAX_HEADER_BYTES) [] input;
  Some (parse_head (from_utf8_lossy head), rest).
Definition read_body (length_ : nat) (input : bytes) : option bytes :=
  if length_ <=? length input then Some (take length_ input) else None.

(** One string field out of a small JSON object, up to the next quotation mark. *)
Definition json_field (text field : ustr) : option ustr :=
  '(_, rest) ← split_once (quoted field) text;
  rest ← strip_prefix (u ":") (trim_start rest);
  rest ← strip_prefix [34%N] (trim_start rest);
  '(value, _) ← split_once [34%N] rest;
  Some value.

(** ** Responses *)

Definition crlf : ustr := [13%N; 10%N].
Definition status_line (status : ustr) : ustr := u "HTTP/1.1 " ++ status ++ crlf.
Definition header_line (name : string) (value : ustr) : ustr := u name ++ u ": " ++ value ++ crlf.
Definition content_length (body : ustr) : ustr := header_line "content-length" (display_N (N.of_nat (utf8_len body))).
Definition connection_close : ustr := header_line "connection" (u "close").
Definition no_store : ustr := header_line "cache-control" (u "no-store").

Definition write_json (body : ustr) : ustr :=
  status_line (u "200 OK") ++ header_line "content-type" (u "application/json") ++ content_length body
  ++ no_store ++ connection_close ++ crlf ++ body.
Definition write_with_cookie (status cookie : ustr) : ustr :=
  status_line status ++ header_line "set-cookie" cookie ++ header_line "content-length" (u "0")
  ++ connection_close ++ crlf.
Definition write_page (body : ustr) : ustr :=
  status_line (u "200 OK") ++ header_line "content-type" (u "text/html; charset=utf-8") ++ content_length body
  ++ no_store ++ connection_close ++ crlf ++ body.
Definition write_script (body : ustr) : ustr :=
  status_line (u "200 OK") ++ header_line "content-type" (u "text/javascript; charset=utf-8") ++ content_length body
  ++ no_store ++ header_line "service-worker-allowed" (u "/") ++ connection_close ++ crlf ++ body.
Definition write_status (status body : ustr) : ustr :=
  status_line status ++ header_line "content-type" (u "text/plain; charset=utf-8") ++ content_length body
  ++ connection_close ++ crlf ++ body.
Definition stream_head : ustr :=
  status_line (u "200 OK") ++ header_line "content-type" (u "text/event-stream") ++ no_store ++ connection_close ++ crlf.

(** ** What the web layer asks of pairing *)

(** The [Devices] trait; [dev_pair] leaves the browser waiting for the decision on the
    attempt it returns. *)
Class Devices (S : Type) := {
  dev_admits : ustr → S → S * bool;
  dev_pair : ustr → ustr → ustr → S → S * result ustr ustr;
  dev_version : ustr;
  dev_vapid_public_key : S → option ustr;
  dev_subscribe_push : ustr → PushSubscription → S → S * result ustr ();
  dev_unsubscribe_push : ustr → S → S * result ustr ();
  dev_latest_push_notification : S → option ustr;
}.
(** What the binary carries, and the reader of a subscription. *)
Class WebAssets := {
  APP : ustr;
  SERVICE_WORKER : ustr;
  read_push_subscription : bytes → option PushSubscription;
}.

(** ** The server *)

(** The channel to the task that writes a stream's commands to its attachment. *)
Record Stream := { st_session : ustr; st_queue : list bytes; st_receiving : bool }.
Record Web (S : Type) := {
  devices : S;
  sessions : gmap ustr nat;
  streams : gmap nat Stream;
  next_stream : nat;
}.
Arguments devices {S}. Arguments sessions {S}. Arguments streams {S}. Arguments next_stream {S}.
Definition Web_new {S} (s : S) : Web S := {| devices := s; sessions := ∅; streams := ∅; next_stream := 0 |}.
Definition set_devices {S} (s : S) (w : Web S) : Web S :=
  {| devices := s; sessions := sessions w; streams := streams w; next_stream := next_stream w |}.
Definition set_streams {S} (m : gmap nat Stream) (w : Web S) : Web S :=
  {| devices := devices w; sessions := sessions w; streams := m; next_stream := next_stream w |}.

(** How far a request gets before it has to wait: for nothing, for more of its body
    (the connection ended first), for the decision on a pairing, for its stream, or for
    room in the queue of one. *)
Inductive Outcome :=
  | Respond (response : ustr)
  | Dropped
  | AwaitApproval (attempt : ustr) (forwarded : bool)
  | Streaming (stream : nat)
  | Posting (stream : nat) (line : bytes).

Definition unauthorized : ustr :=
  write_status (u "401 Unauthorized") (u "this device is not paired with this daemon").
Definition no_session : ustr := write_status (u "400 Bad Request") (u "a session is required").

Section server.
Context {S : Type} `{Devices S} `{WebAssets} `{Serde ClientMessage}.

Definition session_body (admitted : bool) : ustr :=
  u "{" ++ quoted (u "paired") ++ u ":" ++ (if admitted then u "true" else u "false") ++ u ","
  ++ quoted (u "version") ++ u ":" ++ quoted (filter (λ c, c ≠ 34%N) dev_version) ++ u "}".
Definition key_body (key : ustr) : ustr := u "{" ++ quoted (u "key") ++ u ":" ++ quoted key ++ u "}".

Definition handle_pair (rq : Request) (input : bytes) (w : Web S) : Web S * Outcome :=
  match read_body (rq_length rq) input with
  | None => (w, Dropped)
  | Some body =>
      let text := from_utf8_lossy body in
      let field name := default [] (json_field text (u name)) in
      match dev_pair (field "code") (field "name") (field "confirmation") (devices w) with
      | (s, Ok attempt) => (set_devices s w, AwaitApproval attempt (rq_forwarded rq))
      | (s, Err error) => (set_devices s w, Respond (write_status (u "403 Forbidden") error))
      end
  end.

Definition done_or_error (done : result ustr ()) : ustr :=
  match done with
  | Ok _ => write_status (u "204 No Content") []
  | Err error => write_status (u "500 Internal Server Error") error
  end.
Definition handle_subscribe (token : ustr) (rq : Request) (input : bytes) (w : Web S) : Web S * Outcome :=
  match read_body (rq_length rq) input with
  | None => (w, Dropped)
  | Some body =>
      match read_push_subscription body with
      | Some subscription =>
          let '(s, done) := dev_subscribe_push token subscription (devices w) in
          (set_devices s w, Respond (done_or_error done))
      | None => (w, Respond (write_status (u "400 Bad Request") (u "unreadable subscription")))
      end
  end.
Definition handle_unsubscribe (token : ustr) (w : Web S) : Web S * Outcome :=
  let '(s, done) := dev_unsubscribe_push token (devices w) in (set_devices s w, Respond (done_or_error done)).

(** [stream_events], up to its loop: the attachment is greeted, and the session's
    commands go to this stream from now on. *)
Definition hello : ClientMessage := ClientHello PROTOCOL_VERSION (u "super-herdr-web").
Definition open_stream (session : ustr) (w : Web S) : Web S * Outcome :=
  match encode hello with
  | Err _ => (w, Dropped)
  | Ok line =>
      let id := next_stream w in
      ({| devices := devices w; sessions := <[session := id]> (sessions w);
          streams := <[id := {| st_session := session; st_queue := []; st_receiving := true |}]> (streams w);
          next_stream := id + 1 |}, Streaming id)
  end.
Definition handle_events (attaches : bool) (rq : Request) (w : Web S) : Web S * Outcome :=
  match rq_session rq with
  | None => (w, Respond no_session)
  | Some session =>
      if attaches then open_stream session w
      else (w, Respond (write_status (u "503 Service Unavailable") (u "daemon unavailable")))
  end.
Definition handle_command (rq : Request) (input : bytes) (w : Web S) : Web S * Outcome :=
  match rq_session rq with
  | None => (w, Respond no_session)
  | Some session =>
      match read_body (rq_length rq) input with
      | None => (w, Dropped)
      | Some body =>
          match sessions w !! session with
          | None => (w, Respond (write_status (u "409 Conflict") (u "no open event stream")))
          | Some id =>
              match (message ← decode (M := ClientMessage) (trim_ascii body); encode message) with
              | Ok line => (w, Posting id line)
              | Err _ => (w, Respond (write_status (u "400 Bad Request") (u "unreadable command")))
              end
          end
      end
  end.

Definition asks (rq : Request) (method path : string) : bool :=
  bool_decide (rq_method rq = u method) && bool_decide (rq_path rq = u path).
Definition admission (token : option ustr) (s : S) : S * bool :=
  match token with Some token => dev_admits token s | None => (s, false) end.
Definition route (attaches admitted : bool) (rq : Request) (input : bytes) (w : Web S) : Web S * Outcome :=
  let token := default [] (rq_token rq) in
  if asks rq "GET" "/" || asks rq "GET" "/index.html" then (w, Respond (write_page APP))
  else if asks rq "GET" "/sw.js" then (w, Respond (write_script SERVICE_WORKER))
  else if asks rq "GET" "/session" then (w, Respond (write_json (session_body admitted)))
  else if asks rq "POST" "/pair" then handle_pair rq input w
  else if negb admitted then (w, Respond unauthorized)
  else if asks rq "GET" "/push/vapid_public_key" then
    (w, Respond match dev_vapid_public_key (devices w) with
                | Some key => write_json (key_body key)
                | None => write_status (u "404 Not Found") (u "push is not available")
                end)
  else if asks rq "POST" "/push/subscribe" then handle_subscribe token rq input w
  else if asks rq "POST" "/push/unsubscribe" then handle_unsubscribe token w
  else if asks rq "GET" "/push/wake" then
    (w, Respond match dev_latest_push_notification (devices w) with
                | Some body => write_json body
                | None => write_status (u "204 No Content") []
                end)
  else if asks rq "GET" "/events" then handle_events attaches rq w
  else if asks rq "POST" "/command" then handle_command rq input w
  else (w, Respond (write_status (u "404 Not Found") (u "no such path"))).
(** [attaches]: whether an in-process attachment can be opened. *)
Definition handle (attaches : bool) (input : bytes) (w : Web S) : Web S * Outcome :=
  match read_request input with
  | None => (w, Dropped)
  | Some (rq, rest) =>
      let '(s, admitted) := admission (rq_token rq) (devices w) in
      route attaches admitted rq rest (set_devices s w)
  end.

(** *** What ends the waits *)

(** The decision on a pairing, or what came instead of one. *)
Inductive Approval := Approved (token : ustr) | Refused (message : ustr) | DecisionLost | ApprovalTimedOut.
Definition device_cookie (token : ustr) (forwarded : bool) : ustr :=
  u "sh_device=" ++ token ++ u "; Path=/; Max-Age=" ++ display_N COOKIE_LIFETIME_SECONDS
  ++ u "; HttpOnly; SameSite=Strict" ++ (if forwarded then u "; Secure" else []).
Definition pairing_response (approval : Approval) (forwarded : bool) : ustr :=
  match approval with
  | Approved token => write_with_cookie (u "204 No Content") (device_cookie token forwarded)
  | Refused message => write_status (u "403 Forbidden") message
  | DecisionLost =>
      write_status (u "503 Service Unavailable") (u "the pairing decision was lost; ask for another code")
  | ApprovalTimedOut => write_status (u "408 Request Timeout") (u "approval timed out; ask for another code")
  end.

(** A posted line goes into its stream's queue: at once, or when there is room; [None]
    while there is none. [waited]: the time for it has run out. *)
Definition post (waited : bool) (id : nat) (line : bytes) (w : Web S) : Web S * option ustr :=
  match streams w !! id with
  | Some s =>
      if negb (st_receiving s) then (w, Some (write_status (u "409 Conflict") (u "event stream closed")))
      else if length (st_queue s) <? COMMAND_QUEUE_DEPTH then
        (set_streams (<[id := {| st_session := st_session s; st_queue := st_queue s ++ [line];
                                 st_receiving := true |}]> (streams w)) w,
         Some (write_status (u "204 No Content") []))
      else if waited then (w, Some (write_status (u "503 Service Unavailable") (u "client busy"))) else (w, None)
  | None => (w, Some (write_status (u "409 Conflict") (u "event stream closed")))
  end.
(** The writing task takes a line; [accepted] is how writing it to the attachment turns
    out. *)
Definition write_command (accepted : bool) (id : nat) (w : Web S) : Web S * option bytes :=
  match streams w !! id with
  | Some s =>
      match st_receiving s, st_queue s with
      | true, line :: queue =>
          (set_streams (<[id := {| st_session := st_session s; st_queue := if accepted then queue else [];
                                   st_receiving := accepted |}]> (streams w)) w,
           if accepted then Some line else None)
      | _, _ => (w, None)
      end
  | None => (w, None)
  end.
(** The end of [stream_events]. *)
Definition end_stream (id : nat) (w : Web S) : Web S :=
  match streams w !! id with
  | Some s =>
      {| devices := devices w; sessions := delete (st_session s) (sessions w); streams := delete id (streams w);
         next_stream := next_stream w |}
  | None => w
  end.
End server.

(** ** The loop of a stream *)

(** The line being read, what was written to the browser, and whether the loop ended. *)
Inductive Event := Data (line : bytes) | Keepalive.
Record Relay := { rl_line : bytes; rl_sent : list Event; rl_over : bool }.
Definition Relay_start : Relay := {| rl_line := []; rl_sent := []; rl_over := false |}.

(** A byte of the attachment: [read_until] goes on until a newline or the end of the
    line's budget. *)
Definition relay_byte (r : Relay) (b : N) : Relay :=
  if rl_over r then r
  else
    let line := rl_line r ++ [b] in
    if (b =? newline)%N then {| rl_line := []; rl_sent := rl_sent r ++ [Data line]; rl_over := false |}
    else {| rl_line := line; rl_sent := rl_sent r; rl_over := MAX_MESSAGE_BYTES <=? length line |}.
Inductive Arrival := Arrived (chunk : bytes) | Quiet | Ended.
Definition relay_step (r : Relay) (a : Arrival) : Relay :=
  match a with
  | Arrived chunk => foldl relay_byte r chunk
  | Quiet =>
      if rl_over r then r else {| rl_line := rl_line r; rl_sent := rl_sent r ++ [Keepalive]; rl_over := false |}
  | Ended => {| rl_line := rl_line r; rl_sent := rl_sent r; rl_over := true |}
  end.
Definition relay (arrivals : list Arrival) : Relay := foldl relay_step Relay_start arrivals.
Definition write_event (e : Event) : bytes :=
  match e with Data line => u "data: " ++ line ++ [newline] | Keepalive => u ": keepalive" ++ [newline; newline] end.
