(* ===== verification/WebFacts.v ===== *)
(** What the browser's server guarantees: a browser that is not paired reaches nothing,
    a request is bounded, a command reaches the daemon as one whole message on the
    stream of its session, and a stream carries the daemon's messages unchanged. *)

From S2P Require Import Prelude Text Protocol Push Web.

(** ** Bounds *)

Lemma read_until_app limit input line rest :
  read_until limit input = (line, rest) → input = line ++ rest ∧ length line ≤ limit.
Proof.
  revert input line rest. induction limit as [|limit IH]; intros input line rest; cbn [read_until].
  - intros [= <- <-]. done.
  - destruct input as [|c input]; [intros [= <- <-]; cbn; split; [done|lia]|].
    destruct (c =? newline)%N; [intros [= <- <-]; cbn; split; [done|lia]|].
    destruct (read_until limit input) as [l r] eqn:E. intros [= <- <-]. apply IH in E as [-> Hl].
    cbn. split; [done|lia].
Qed.
Lemma read_head_app fuel head input head' rest :
  length head ≤ MAX_HEADER_BYTES → read_head fuel head input = Some (head', rest) →
  head ++ input = head' ++ rest ∧ length head' ≤ MAX_HEADER_BYTES.
Proof.
  revert head input. induction fuel as [|fuel IH]; intros head input Hlen; cbn [read_head]; [done|].
  destruct (_ =? 0); [done|]. destruct (read_until _ input) as [line rest'] eqn:E.
  apply read_until_app in E as [-> Hl]. case_bool_decide; [done|]. destruct (blank line).
  - intros [= <- <-]. rewrite app_assoc, length_app. split; [done|lia].
  - intros Hr. apply IH in Hr; [by rewrite app_assoc in *|]. rewrite length_app. lia.
Qed.

Lemma elem_of_take {A} (x : A) n l : x ∈ take n l → x ∈ l.
Proof. apply subseteq_take. Qed.
Lemma sanitized_session_ok value :
  length (sanitized_session value) ≤ MAX_SESSION_CHARS ∧
  ∀ c, c ∈ sanitized_session value → is_ascii_alphanumeric c = true ∨ c = 45%N.
Proof.
  unfold sanitized_session. rewrite length_take. split; [lia|].
  intros c [Hc _]%elem_of_take%list_elem_of_filter. apply orb_true_iff in Hc. by rewrite N.eqb_eq in Hc.
Qed.
Lemma sanitized_token_ok value :
  length (sanitized_token value) ≤ MAX_TOKEN_CHARS ∧ ∀ c, c ∈ sanitized_token value → is_ascii_hexdigit c = true.
Proof.
  unfold sanitized_token. rewrite length_take. split; [lia|]. by intros c [Hc _]%elem_of_take%list_elem_of_filter.
Qed.

Definition session_ok (session : ustr) : Prop :=
  session ≠ [] ∧ length session ≤ MAX_SESSION_CHARS ∧ ∀ c, c ∈ session → is_ascii_alphanumeric c = true ∨ c = 45%N.
Definition token_ok (token : ustr) : Prop :=
  token ≠ [] ∧ length token ≤ MAX_TOKEN_CHARS ∧ ∀ c, c ∈ token → is_ascii_hexdigit c = true.

Lemma query_session_ok query session : query_session query = Some session → session_ok session.
Proof.
  unfold query_session. destruct (head _); cbn [mbind option_bind]; [|done]. case_bool_decide; [done|].
  intros [= <-]. split; [done|]. apply sanitized_session_ok.
Qed.
Lemma cookie_token_ok value token : cookie_token value = Some token → token_ok token.
Proof.
  unfold cookie_token. intros [Hne Ht]%head_Some_elem_of%list_elem_of_filter.
  apply list_elem_of_omap in Ht as (pair & _ & Hp). apply fmap_Some in Hp as (v & _ & ->).
  split; [done|]. apply sanitized_token_ok.
Qed.
Lemma headers_token_ok headers token : foldl header_token None headers = Some token → token_ok token.
Proof.
  apply (foldl_ind (λ t, t = Some token → token_ok token)); [done|].
  intros t header IH. unfold header_token.
  destruct (eq_ignore_ascii_case _ _); [apply cookie_token_ok|exact IH].
Qed.

(** Whatever a peer sends: the head that is read ends where the body starts and is
    bounded, and so are the session, the token and the body it announces; a session and a
    token are made of characters that cannot be mistaken for anything else. *)
Theorem request_bounded input rq rest :
  read_request input = Some (rq, rest) →
  (∃ head, input = head ++ rest ∧ length head ≤ MAX_HEADER_BYTES) ∧
  rq_length rq ≤ MAX_MESSAGE_BYTES ∧
  (∀ session, rq_session rq = Some session → session_ok session) ∧
  (∀ token, rq_token rq = Some token → token_ok token).
Proof.
  unfold read_request. destruct (read_head _ [] input) as [[head rest']|] eqn:E; cbn [mbind option_bind]; [|done].
  intros [= <- <-]. apply read_head_app in E as [Ha Hl]; [|cbn; lia]. unfold parse_head.
  destruct (default _ (split_once _ _)) as [path query]. cbn [rq_length rq_session rq_token].
  split; [by exists head|]. split; [|split; [apply query_session_ok|apply headers_token_ok]].
  rewrite N2Nat.inj_min, Nat2N.id. apply Nat.le_min_r.
Qed.

(** ** What an unpaired browser reaches *)

Section serving.
Context {S : Type} `{Devices S} `{WebAssets} `{Serde ClientMessage}.

Lemma asks_spec rq method path : asks rq method path = true ↔ rq_method rq = u method ∧ rq_path rq = u path.
Proof. unfold asks. by rewrite andb_true_iff, !bool_decide_eq_true. Qed.

(** The answers that are given to everybody. *)
Definition public_answer (admitted : bool) (answer : ustr) : Prop :=
  answer = write_page APP ∨ answer = write_script SERVICE_WORKER ∨ answer = write_json (session_body (S := S) admitted) ∨
  answer = unauthorized.

Lemma route_unadmitted attaches rq input w w' outcome :
  route attaches false rq input w = (w', outcome) →
  (w' = w ∧ ∃ answer, outcome = Respond answer ∧ public_answer false answer) ∨
  (asks rq "POST" "/pair" = true ∧ handle_pair rq input w = (w', outcome)).
Proof.
  unfold route, public_answer. cbn [negb].
  repeat (case_match; [try (intros [= <- <-]; left; split; [done|]; eauto 8); try by right|]).
  intros [= <- <-]. left. eauto 8.
Qed.

(** C32. A browser whose token no paired device holds, or that has none, opens no stream,
    posts no command and changes no session: every request is answered with the page, the
    script, whether it is paired, or a refusal, except that a code may be offered, and
    then pairing alone decides. *)
Theorem unpaired_reaches_nothing attaches input w w' outcome rq rest s :
  read_request input = Some (rq, rest) →
  admission (rq_token rq) (devices w) = (s, false) →
  handle attaches input w = (w', outcome) →
  sessions w' = sessions w ∧ streams w' = streams w ∧
  ((devices w' = s ∧ ∃ answer, outcome = Respond answer ∧ public_answer false answer) ∨
   (rq_method rq = u "POST" ∧ rq_path rq = u "/pair" ∧
    (devices w' = s ∨ ∃ code name confirmation, devices w' = (dev_pair code name confirmation s).1) ∧
    (outcome = Dropped ∨ (∃ error, outcome = Respond (write_status (u "403 Forbidden") error)) ∨
     ∃ attempt code name confirmation, outcome = AwaitApproval attempt (rq_forwarded rq) ∧
       (dev_pair code name confirmation s).2 = Ok attempt))).
Proof.
  intros Hread Hadmit. unfold handle. rewrite Hread, Hadmit.
  intros [[-> (answer & -> & Hp)]|[[Hm Hpath]%asks_spec Hpair]]%route_unadmitted.
  - split; [done|]. split; [done|]. left. split; [done|]. by exists answer.
  - unfold handle_pair in Hpair. destruct (read_body _ _) as [body|]; [|injection Hpair as <- <-; eauto 10].
    destruct (dev_pair _ _ _ _) as [s' [attempt|error]] eqn:Epair; injection Hpair as <- <-; cbn [set_devices devices] in *.
    + split; [done|]. split; [done|]. right. split_and!; [done|done| |].
      * right. do 3 eexists. by rewrite Epair.
      * right. right. do 4 eexists. split; [done|]. by rewrite Epair.
    + split; [done|]. split; [done|]. right. split_and!; [done|done| |eauto].
      right. do 3 eexists. by rewrite Epair.
Qed.

(** What a browser posts reaches the daemon only as one whole message of the
    protocol, encoded by the server itself, for a paired device, and on the stream that
    its own session opened. *)
Theorem command_forwarded attaches input w w' id line :
  handle attaches input w = (w', Posting id line) →
  ∃ rq rest token session body message,
    read_request input = Some (rq, rest) ∧ rq_token rq = Some token ∧ (dev_admits token (devices w)).2 = true ∧
    rq_session rq = Some session ∧ sessions w !! session = Some id ∧
    read_body (rq_length rq) rest = Some body ∧
    decode (M := ClientMessage) (trim_ascii body) = Ok message ∧ encode message = Ok line ∧
    sessions w' = sessions w ∧ streams w' = streams w.
Proof.
  unfold handle. destruct (read_request input) as [[rq rest]|] eqn:Hread; [|done].
  destruct (admission (rq_token rq) (devices w)) as [s admitted] eqn:Hadmit. unfold route.
  repeat (case_match; [try done|]); try done.
  all: try (unfold handle_pair, handle_subscribe, handle_unsubscribe, handle_events, open_stream; repeat case_match; done).
  unfold handle_command. destruct (rq_session rq) as [session|] eqn:Hs; [|done].
  destruct (read_body _ _) as [body|] eqn:Hbody; [|done]. cbn [sessions set_devices].
  destruct (sessions w !! session) as [id'|] eqn:Hid; [|done].
  destruct (decode (trim_ascii body)) as [message|] eqn:Hd; cbn [mbind result_bind]; [|done].
  destruct (encode message) as [line'|] eqn:He; [|done]. intros [= <- <- <-].
  unfold admission in Hadmit. destruct (rq_token rq) as [token|] eqn:Ht.
  - exists rq, rest, token, session, body, message. rewrite Hadmit. split_and!; try done. cbn. by destruct admitted.
  - injection Hadmit as <- <-. done.
Qed.
End serving.

(** ** The queue of a stream *)

Section queue.
Context {S : Type} (id : nat).

(** What happens on a stream: a line is posted, or the writing task takes one. *)
Inductive QueueStep := Post (waited : bool) (line : bytes) | Take (accepted : bool).
(** The lines whose posts were answered with success, and those written to the
    attachment. *)
Record Traffic := { tf_web : Web S; tf_posted : list bytes; tf_written : list bytes }.
Definition queue_step (t : Traffic) (step : QueueStep) : Traffic :=
  match step with
  | Post waited line =>
      let '(w, answer) := post waited id line (tf_web t) in
      {| tf_web := w;
         tf_posted := if bool_decide (answer = Some (write_status (u "204 No Content") [])) then tf_posted t ++ [line]
                      else tf_posted t;
         tf_written := tf_written t |}
  | Take accepted =>
      let '(w, line) := write_command accepted id (tf_web t) in
      {| tf_web := w; tf_posted := tf_posted t; tf_written := tf_written t ++ option_list line |}
  end.

Definition traffic_ok (t : Traffic) : Prop :=
  match streams (tf_web t) !! id with
  | Some s =>
      length (st_queue s) ≤ COMMAND_QUEUE_DEPTH ∧
      if st_receiving s then tf_posted t = tf_written t ++ st_queue s
      else st_queue s = [] ∧ tf_written t `prefix_of` tf_posted t
  | None => tf_written t `prefix_of` tf_posted t
  end.
Lemma queue_step_ok t step : traffic_ok t → traffic_ok (queue_step t step).
Proof.
  intros Hok. destruct step as [waited line|accepted]; unfold queue_step, post, write_command, traffic_ok in *.
  - destruct (streams (tf_web t) !! id) as [s|] eqn:E; [|cbn; by rewrite E].
    destruct Hok as [Hlen Hq]. destruct (st_receiving s) eqn:Er; cbn [negb].
    + destruct (Nat.ltb_spec (length (st_queue s)) COMMAND_QUEUE_DEPTH) as [Hlt|Hge].
      * cbn [tf_web set_streams streams tf_posted tf_written]. rewrite lookup_insert_eq. cbn [st_queue st_receiving].
        rewrite length_app, bool_decide_eq_true_2 by done. cbn. split; [lia|]. by rewrite Hq, app_assoc.
      * destruct waited; cbn [tf_web tf_posted tf_written]; rewrite E, bool_decide_eq_false_2 by done; by rewrite Er.
    + cbn [tf_web tf_posted tf_written]. rewrite E, bool_decide_eq_false_2 by done. by rewrite Er.
  - destruct (streams (tf_web t) !! id) as [s|] eqn:E; [|cbn [tf_web tf_posted tf_written]; by rewrite E, app_nil_r].
    destruct Hok as [Hlen Hq]. destruct (st_receiving s) eqn:Er.
    + destruct (st_queue s) as [|line queue] eqn:Eq; cbn [tf_web tf_posted tf_written].
      * rewrite E, Er, Eq, app_nil_r. done.
      * cbn [set_streams streams]. rewrite lookup_insert_eq. cbn [st_queue st_receiving]. cbn [length] in Hlen.
        destruct accepted; cbn [option_list]; rewrite Hq.
        -- split; [lia|]. by rewrite <-app_assoc.
        -- split; [apply Nat.le_0_l|]. split; [done|]. rewrite app_nil_r. by eexists.
    + cbn [tf_web tf_posted tf_written option_list]. rewrite E, Er, app_nil_r. done.
Qed.

(** A stream delivers what was posted to it in order, each line once: whatever was
    written is the first part of what was accepted, all of it but the queue while the
    attachment takes lines, and the queue never holds more than its depth. *)
Theorem commands_in_order w s steps :
  streams w !! id = Some s → st_queue s = [] → st_receiving s = true →
  let t := foldl queue_step {| tf_web := w; tf_posted := []; tf_written := [] |} steps in
  tf_written t `prefix_of` tf_posted t ∧
  ∀ s', streams (tf_web t) !! id = Some s' →
    length (st_queue s') ≤ COMMAND_QUEUE_DEPTH ∧
    (st_receiving s' = true → tf_posted t = tf_written t ++ st_queue s').
Proof.
  intros Hs Hq Hr t. assert (traffic_ok t) as Hok.
  { apply foldl_ind; [|intros; by apply queue_step_ok]. unfold traffic_ok. cbn [tf_web]. rewrite Hs, Hq, Hr. cbn.
    split; [lia|done]. }
  unfold traffic_ok in Hok. destruct (streams (tf_web t) !! id) as [s'|] eqn:E.
  - destruct Hok as [Hlen Hrest]. split.
    + destruct (st_receiving s'); [rewrite Hrest; by eexists|by destruct Hrest].
    + intros s'' [= <-]. split; [done|]. intros Hr'. by rewrite Hr' in Hrest.
  - split; [done|]. by intros ? [=].
Qed.
End queue.

(** ** What a stream carries *)

#[local] Opaque MAX_MESSAGE_BYTES.
Lemma MAX_MESSAGE_BYTES_pos : 0 < MAX_MESSAGE_BYTES.
Proof. apply Nat.ltb_lt. vm_compute. reflexivity. Qed.

Definition messages (r : Relay) : list bytes :=
  omap (λ e, match e with Data line => Some line | Keepalive => None end) (rl_sent r).
Definition arrived (arrivals : list Arrival) : bytes :=
  arrivals ≫= λ a, match a with Arrived chunk => chunk | _ => [] end.
(** A whole line: it ends where its first newline is, and fits the budget. *)
Definition whole_line (line : bytes) : Prop :=
  length line ≤ MAX_MESSAGE_BYTES ∧ ∃ text, line = text ++ [newline] ∧ newline ∉ text.

Record relay_inv (consumed : bytes) (r : Relay) : Prop := {
  ri_rest : ∃ rest, consumed = concat (messages r) ++ rl_line r ++ rest ∧ (rl_over r = false → rest = []);
  ri_lines : Forall whole_line (messages r);
  ri_line : newline ∉ rl_line r;
  ri_open : rl_over r = false → length (rl_line r) < MAX_MESSAGE_BYTES;
  ri_over : rl_over r = true → length (rl_line r) = MAX_MESSAGE_BYTES;
}.

Lemma relay_byte_inv consumed r b : relay_inv consumed r → relay_inv (consumed ++ [b]) (relay_byte r b).
Proof.
  intros [(rest & Hc & Hrest) Hlines Hline Hopen Hover]. unfold relay_byte. destruct (rl_over r) eqn:Eo.
  - split; try done; try by rewrite Eo. exists (rest ++ [b]). rewrite Hc, <-!app_assoc. split; [done|]. by rewrite Eo.
  - specialize (Hrest eq_refl) as ->. rewrite app_nil_r in Hc. destruct (N.eqb_spec b newline) as [->|Hb].
    + unfold messages. cbn [rl_sent rl_line rl_over]. split; cbn [rl_sent rl_line rl_over].
      * exists []. unfold messages. cbn [rl_sent]. rewrite omap_app, concat_app, Hc. cbn. by rewrite !app_nil_r, app_assoc.
      * unfold messages. cbn [rl_sent]. rewrite omap_app. apply Forall_app. split; [done|]. repeat constructor.
        -- rewrite length_app. cbn. specialize (Hopen eq_refl). lia.
        -- by exists (rl_line r).
      * apply not_elem_of_nil.
      * intros _. apply MAX_MESSAGE_BYTES_pos.
      * done.
    + split; unfold messages in *; cbn [rl_sent rl_line rl_over].
      * exists []. rewrite Hc, app_nil_r, app_assoc. done.
      * done.
      * rewrite elem_of_app, list_elem_of_singleton. intros [|]; congruence.
      * intros Hlt%Nat.leb_gt. done.
      * intros Hle%Nat.leb_le. specialize (Hopen eq_refl). rewrite length_app in *. cbn in *. lia.
Qed.
Lemma relay_chunk_inv consumed r chunk : relay_inv consumed r → relay_inv (consumed ++ chunk) (foldl relay_byte r chunk).
Proof.
  revert consumed r. induction chunk as [|b chunk IH]; intros consumed r Hinv; cbn [foldl]; [by rewrite app_nil_r|].
  rewrite (cons_middle b consumed chunk), app_assoc. by apply IH, relay_byte_inv.
Qed.

(** A browser's stream carries the daemon's messages unchanged: whatever pieces they
    arrive in, and however often the stream was kept alive in between, the lines written
    are the lines that arrived, whole and in order, up to the one being read; and the
    stream gives up only on a line that fills the largest message without ending. *)
Theorem relay_faithful arrivals :
  Ended ∉ arrivals →
  let r := relay arrivals in
  (∃ rest, arrived arrivals = concat (messages r) ++ rl_line r ++ rest ∧ (rl_over r = false → rest = [])) ∧
  Forall whole_line (messages r) ∧ newline ∉ rl_line r ∧
  (rl_over r = true → length (rl_line r) = MAX_MESSAGE_BYTES).
Proof.
  intros Hend. cbv zeta. assert (relay_inv (arrived arrivals) (relay arrivals)) as [H1 H2 H3 _ H5]; [|done].
  unfold relay. induction arrivals as [|a arrivals IH] using rev_ind.
  - split; cbn [foldl Relay_start rl_over rl_line]; try done.
    + by exists [].
    + apply not_elem_of_nil.
    + intros _. apply MAX_MESSAGE_BYTES_pos.
  - rewrite foldl_app. cbn [foldl]. unfold arrived. rewrite bind_app. fold (arrived arrivals).
    assert (relay_inv (arrived arrivals) (foldl relay_step Relay_start arrivals)) as Hinv.
    { apply IH. intros Hin. apply Hend. apply elem_of_app. by left. }
    destruct a as [chunk| |]; cbn [relay_step mbind list_bind].
    + rewrite app_nil_r. by apply relay_chunk_inv.
    + rewrite !app_nil_r. destruct (rl_over _) eqn:Eo; [done|]. destruct Hinv as [Hr Hl Hn Ho Hv]. rewrite Eo in *.
      split; unfold messages in *; cbn [rl_sent rl_line rl_over]; try done; rewrite omap_app; cbn; by rewrite app_nil_r.
    + exfalso. apply Hend, elem_of_app. right. by left.
Qed.

(** ** Reading a request back *)

(** Text of one line that takes a byte for each character. *)
Definition plain (s : ustr) : Prop := Forall (λ c, (c < 128)%N ∧ c ≠ 13%N ∧ c ≠ 10%N) s.
Definition word (s : ustr) : Prop := plain s ∧ s ≠ [] ∧ Forall (λ c, is_whitespace c = false) s.

Lemma plain_app s t : plain s → plain t → plain (s ++ t).
Proof. intros. by apply Forall_app. Qed.
Lemma plain_ascii s : plain s → Forall (λ c, c < 128)%N s.
Proof. intros Hs. eapply Forall_impl; [exact Hs|]. by intros c []. Qed.
Lemma plain_no_newline s : plain s → newline ∉ s.
Proof. intros Hs Hin. by destruct (proj1 (Forall_forall _ _) Hs _ Hin) as (_ & _ & ?). Qed.
Lemma utf8_lossy_ascii fuel s : Forall (λ c, c < 128)%N s → length s ≤ fuel → utf8_lossy fuel s = s.
Proof.
  intros Hs. revert fuel. induction Hs as [|c s Hc _ IH]; intros [|fuel] Hf; cbn in Hf; [done..|lia|].
  cbn [utf8_lossy]. rewrite (proj2 (N.ltb_lt _ _)) by done. rewrite IH by lia. done.
Qed.
Lemma lossy_ascii s : Forall (λ c, c < 128)%N s → from_utf8_lossy s = s.
Proof. intros Hs. by apply utf8_lossy_ascii. Qed.

(** A head as its lines. *)
Definition in_lines (ls : list ustr) : ustr := (ls ≫= λ l, l ++ crlf) ++ crlf.
Lemma read_until_line limit l rest :
  newline ∉ l → length l + 2 ≤ limit → read_until limit (l ++ crlf ++ rest) = (l ++ crlf, rest).
Proof.
  revert limit. induction l as [|c l IH]; intros limit Hl Hlen.
  - destruct limit as [|[|limit]]; cbn in Hlen; [lia..|]. reflexivity.
  - destruct limit as [|limit]; [cbn in Hlen; lia|]. cbn [app read_until].
    rewrite (proj2 (N.eqb_neq _ _)) by (intros ->; apply Hl; by left).
    rewrite IH; [done|by intros ?; apply Hl; right|cbn in Hlen; lia].
Qed.
Lemma read_head_lines ls fuel head body :
  Forall (λ l, l ≠ [] ∧ plain l) ls → length ls < fuel → length head + length (in_lines ls) ≤ MAX_HEADER_BYTES →
  read_head fuel head (in_lines ls ++ body) = Some (head ++ in_lines ls, body).
Proof.
  intros Hls. revert fuel head. induction Hls as [|l ls [Hne Hp] _ IH]; intros fuel head Hf Hlen;
    (destruct fuel as [|fuel]; [cbn in Hf; lia|]); cbn [read_head].
  - change (in_lines []) with crlf in *. cbn [length crlf] in Hlen.
    rewrite (proj2 (Nat.eqb_neq _ _)) by lia.
    rewrite (read_until_line _ [] body) by (try apply not_elem_of_nil; cbn [length]; lia). done.
  - assert (in_lines (l :: ls) = l ++ crlf ++ in_lines ls) as Heq.
    { unfold in_lines. cbn [mbind list_bind]. by rewrite <-!app_assoc. }
    rewrite Heq in *. rewrite !length_app in Hlen. cbn [length crlf] in Hlen.
    rewrite (proj2 (Nat.eqb_neq _ _)) by lia. rewrite <-!app_assoc.
    rewrite read_until_line by first [by apply plain_no_newline|lia].
    rewrite bool_decide_eq_false_2 by (by destruct l).
    assert (blank (l ++ crlf) = false) as ->.
    { unfold blank. rewrite !bool_decide_eq_false_2; [done|..]; destruct l as [|a [|b l]]; try done. by destruct l. }
    rewrite IH; [by rewrite <-!app_assoc|cbn in Hf; lia|]. rewrite !length_app. cbn [length crlf]. lia.
Qed.

Lemma lines_of_in_lines ls :
  Forall (λ l, plain l) ls → lines (in_lines ls) = ls ++ [[]].
Proof.
  intros Hls. unfold lines. induction Hls as [|l ls Hl _ IH]; [done|].
  assert (in_lines (l :: ls) = (l ++ [13%N]) ++ 10%N :: in_lines ls) as ->.
  { unfold in_lines, crlf. cbn [mbind list_bind]. by rewrite <-!app_assoc. }
  rewrite split_on_cons.
  - cbn [lines_of]. assert (strip_cr (l ++ [13%N]) = l) as ->.
    { unfold strip_cr, strip_suffix. rewrite (proj2 (strip_prefix_Some _ _ (reverse l))) by by rewrite reverse_app.
      cbn [fmap option_fmap option_map default from_option]. apply reverse_involutive. }
    destruct (split_on 10 (in_lines ls)) eqn:E; [by apply split_at_nonempty in E|].
    cbn [app]. f_equal. exact IH.
  - rewrite elem_of_app, list_elem_of_singleton. intros [Hin|]; [by apply plain_no_newline in Hl|done].
Qed.

Lemma split_whitespace_words a b c :
  word a → word b → word c → split_whitespace (a ++ u " " ++ b ++ u " " ++ c) = [a; b; c].
Proof.
  assert (∀ w rest, word w → split_at is_whitespace (w ++ 32%N :: rest) = w :: split_at is_whitespace rest) as Hsplit.
  { intros w rest (_ & _ & Hw). induction Hw as [|x w Hx _ IH]; [done|]. cbn [app split_at]. rewrite Hx, IH. done. }
  assert (∀ w, word w → split_at is_whitespace w = [w]) as Hlast.
  { intros w (_ & _ & Hw). induction Hw as [|x w Hx _ IH]; [done|]. cbn [split_at]. rewrite Hx, IH. done. }
  intros Ha Hb Hc. unfold split_whitespace. change (u " ") with [32%N]. cbn [app].
  rewrite Hsplit, Hsplit, Hlast by done. destruct Ha as (_ & Ha & _), Hb as (_ & Hb & _), Hc as (_ & Hc & _).
  rewrite !filter_cons_True by done. done.
Qed.

(** A request as an HTTP client writes it. *)
Definition header_text (header : ustr * ustr) : ustr := header.1 ++ u ":" ++ header.2.
Definition request_lines (method target : ustr) (headers : list (ustr * ustr)) : list ustr :=
  (method ++ u " " ++ target ++ u " " ++ u "HTTP/1.1") :: (header_text <$> headers).
Definition header_ok (header : ustr * ustr) : Prop := plain header.1 ∧ plain header.2 ∧ 58%N ∉ header.1.

Lemma headers_read headers : Forall header_ok headers → omap header_of ((header_text <$> headers) ++ [[]]) = headers.
Proof.
  induction 1 as [|[name value] headers (_ & _ & Hc) _ IH]; [done|]. cbn [fmap list_fmap app omap list_omap].
  unfold header_of, header_text at 1. cbn [fst snd]. rewrite (proj2 (split_once_char 58%N _ name value)) by done.
  by f_equal.
Qed.

(** A request that fits the bound is read as it was written: its method, path and
    query, every one of its headers in order, and the body where the head ends. *)
Theorem request_read method target headers body :
  word method → word target → Forall header_ok headers →
  length (in_lines (request_lines method target headers)) ≤ MAX_HEADER_BYTES →
  let '(path, query) := default (target, []) (split_once (u "?") target) in
  read_request (utf8 (in_lines (request_lines method target headers)) ++ body) =
    Some ({| rq_method := method; rq_path := path; rq_session := query_session query;
             rq_token := foldl header_token None headers; rq_forwarded := foldl header_forwarded false headers;
             rq_length := N.to_nat (N.min (foldl header_length 0%N headers) (N.of_nat MAX_MESSAGE_BYTES)) |}, body).
Proof.
  intros Hm Ht Hh Hlen. set (ls := request_lines method target headers) in *.
  assert (word (u "HTTP/1.1")) as Hv.
  { split; [|split; [done|]]; unfold plain; apply (bool_decide_unpack _); vm_compute; exact I. }
  assert (Forall (λ l, l ≠ [] ∧ plain l) ls) as Hls.
  { constructor.
    - split; [by destruct Hm as (_ & ? & _), method|]. destruct Hm as [Hm _], Ht as [Ht _], Hv as [Hv _].
      assert (plain (u " ")) by (unfold plain; apply (bool_decide_unpack _); vm_compute; exact I).
      auto using plain_app.
    - apply Forall_fmap. eapply Forall_impl; [exact Hh|]. intros [name value] (Hn & Hval & _).
      split; [by destruct name|]. unfold header_text. apply plain_app; [done|]. apply plain_app; [|done].
      unfold plain; apply (bool_decide_unpack _); vm_compute; exact I. }
  assert (Forall (λ l, plain l) ls) as Hplain by (eapply Forall_impl; [exact Hls|]; by intros l []).
  assert (Forall (λ c, c < 128)%N (in_lines ls)) as Hascii.
  { unfold in_lines. apply Forall_app. split; [|by repeat constructor]. apply Forall_bind.
    eapply Forall_impl; [exact Hplain|]. intros l Hl. apply Forall_app. split; [by apply plain_ascii|by repeat constructor]. }
  assert (length ls < Nat.succ MAX_HEADER_BYTES) as Hfuel.
  { apply Nat.lt_succ_r. etrans; [|exact Hlen]. unfold in_lines. rewrite length_app. clear.
    induction ls as [|l ls IH]; [cbn; lia|]. rewrite bind_cons, !length_app. cbn [crlf length] in *. lia. }
  destruct (default _ (split_once _ _)) as [path query] eqn:Hq. unfold read_request.
  rewrite utf8_ascii_id by done. rewrite (read_head_lines ls _ [] body) by done. cbn [mbind option_bind app].
  rewrite lossy_ascii by done. unfold parse_head. rewrite lines_of_in_lines by done.
  assert (split_whitespace (default [] (head (ls ++ [[]]))) = [method; target; u "HTTP/1.1"]) as ->
    by exact (split_whitespace_words method target _ Hm Ht Hv).
  assert (omap header_of (tail (ls ++ [[]])) = headers) as -> by exact (headers_read headers Hh).
  cbn [head tail default from_option id]. by rewrite Hq.
Qed.
