(* ===== verification/WebDevices.v ===== *)
(** What the web layer asks, answered by the daemon: [DevicePolicy] of
    [src/src/daemon/server.rs], over [Pairing] and [Push].

    A paired browser, end to end: the token an approval hands out opens a stream with the
    cookie the server set, and no longer does once its device is gone from the file. *)

From S2P Require Import Prelude Text Config Protocol Pairing PairingFacts Push PushFacts Web WebFacts.

Definition PUSH_WAKE_FRESHNESS : N := 2 * 60 * 1000.

(** What surrounds a request: the moment, what the source of randomness gives, whether a
    file can be replaced. *)
Record Surroundings := { sr_now : N; sr_random : option bytes; sr_written : bool }.

(** [DevicePolicy]: pairing, the push store's file if there is a store, the public key if
    there are keys, the last alert and its moment. *)
Record Policy := {
  po_pairing : PairingState;
  po_push : option (option bytes);
  po_vapid : option ustr;
  po_wake : option (ustr * N);
}.
Definition set_pairing (s : PairingState) (p : Policy) : Policy :=
  {| po_pairing := s; po_push := po_push p; po_vapid := po_vapid p; po_wake := po_wake p |}.
Definition set_push (file : option bytes) (p : Policy) : Policy :=
  {| po_pairing := po_pairing p; po_push := Some file; po_vapid := po_vapid p; po_wake := po_wake p |}.

Definition pair_error (e : PairError) : ustr :=
  match e with
  | NoConfigFile => u "this daemon has no configuration file to record a device in"
  | BadConfirmation => u "the browser did not provide a valid confirmation number"
  | NoRandomness => u "failed to open /dev/urandom"
  | NoCodeWaiting => u "no pairing code is waiting; ask for one from the terminal client"
  | CodeExpired => u "that pairing code has expired; ask for another"
  | TooManyWrongCodes => u "too many wrong codes; ask for another"
  | WrongCode remaining =>
      u "that is not the code waiting; " ++ display_N remaining ++ u " attempt(s) left before it is discarded"
  end.

Section policy.
Context `{Sha256} `{DeviceToml} `{PushJson}.

Definition policy_admits (token : ustr) (p : Policy) : Policy * bool :=
  let '(s, admitted) := admits token (po_pairing p) in (set_pairing s p, admitted).
Definition policy_pair (e : Surroundings) (code name confirmation : ustr) (p : Policy) : Policy * result ustr ustr :=
  let '(s, answer) := pair_device code name confirmation (sr_random e) (sr_now e) (po_pairing p) in
  (set_pairing s p, match answer with Ok attempt => Ok attempt | Err error => Err (pair_error error) end).
Definition subscribe_push (e : Surroundings) (token : ustr) (subscription : PushSubscription) (p : Policy)
    : Policy * result ustr () :=
  match po_push p with
  | None => (p, Err (u "this daemon has no push subscription store configured"))
  | Some file =>
      let '(file, done) := set (fingerprint token) subscription (sr_now e) (sr_written e) file in
      (set_push file p, done)
  end.
Definition unsubscribe_push (e : Surroundings) (token : ustr) (p : Policy) : Policy * result ustr () :=
  match po_push p with
  | None => (p, Ok ())
  | Some file =>
      let '(file, done) := remove (fingerprint token) (sr_written e) file in (set_push file p, done)
  end.
Definition latest_push_notification (e : Surroundings) (p : Policy) : option ustr :=
  '(message, at_) ← po_wake p;
  if (PUSH_WAKE_FRESHNESS <? sr_now e - at_)%N then None else Some message.

(** [version] is the one of the package that was built. *)
Definition device_policy (version : ustr) (e : Surroundings) : Devices Policy := {|
  dev_admits := policy_admits;
  dev_pair := policy_pair e;
  dev_version := version;
  dev_vapid_public_key := po_vapid;
  dev_subscribe_push := subscribe_push e;
  dev_unsubscribe_push := unsubscribe_push e;
  dev_latest_push_notification := latest_push_notification e;
|}.
End policy.

(** ** The cookie comes back as it was set *)

Lemma hex_digit_hexdigit n : (n < 16)%N → is_ascii_hexdigit (hex_digit n) = true.
Proof.
  intros Hn. assert (forallb (λ n, is_ascii_hexdigit (hex_digit n)) (N.of_nat <$> seq 0 16) = true) as Hall by (vm_compute; reflexivity).
  rewrite forallb_forall in Hall. apply Hall, list_elem_of_In, list_elem_of_fmap. exists (N.to_nat n).
  split; [lia|]. apply elem_of_seq. lia.
Qed.
Lemma hex_hexdigits b : Forall (λ byte, byte < 256)%N b → Forall (λ c, is_ascii_hexdigit c = true) (hex b).
Proof.
  intros Hb. apply Forall_bind. eapply Forall_impl; [exact Hb|]. intros byte Hbyte. cbn beta.
  repeat constructor; apply hex_digit_hexdigit; [by apply N.Div0.div_lt_upper_bound|by apply N.mod_lt].
Qed.
Lemma hexdigit_plain c : is_ascii_hexdigit c = true → (c < 128)%N ∧ c ≠ 13%N ∧ c ≠ 10%N.
Proof. unfold is_ascii_hexdigit, is_ascii_digit. rewrite !orb_true_iff, !andb_true_iff, !N.leb_le. lia. Qed.
Lemma hexdigit_visible c : is_ascii_hexdigit c = true → is_whitespace c = false ∧ c ≠ 59%N.
Proof.
  unfold is_ascii_hexdigit, is_ascii_digit, is_whitespace.
  rewrite !orb_true_iff, !orb_false_iff, !andb_true_iff, !N.leb_le, !andb_false_iff, !N.leb_gt, !N.eqb_neq. lia.
Qed.

Lemma trim_start_visible s : Forall (λ c, is_whitespace c = false) s → trim_start s = s.
Proof. intros Hs. destruct Hs as [|c s Hc _]; [done|]. cbn [trim_start]. by rewrite Hc. Qed.
Lemma trim_visible s : Forall (λ c, is_whitespace c = false) s → trim (32%N :: s) = s.
Proof.
  intros Hs. unfold trim, trim_end. cbn [trim_start]. change (is_whitespace 32) with true. cbv iota.
  rewrite (trim_start_visible s) by done. rewrite trim_start_visible by by apply Forall_reverse. apply reverse_involutive.
Qed.

Lemma sanitized_token_id token :
  Forall (λ c, is_ascii_hexdigit c = true) token → length token ≤ MAX_TOKEN_CHARS → sanitized_token token = token.
Proof.
  intros Ht Hl. unfold sanitized_token. rewrite (filter_all _ token) by by apply Forall_forall. by apply take_ge.
Qed.
Lemma cookie_read token :
  token ≠ [] → Forall (λ c, is_ascii_hexdigit c = true) token → length token ≤ MAX_TOKEN_CHARS →
  cookie_token (u " sh_device=" ++ token) = Some token.
Proof.
  intros Hne Ht Hl. unfold cookie_token. rewrite split_on_none.
  - cbn [omap list_omap]. change (u " sh_device=" ++ token) with (32%N :: (u "sh_device=" ++ token)).
    rewrite trim_visible.
    + rewrite (proj2 (strip_prefix_Some _ _ token)) by done. cbn [fmap option_fmap option_map].
      rewrite sanitized_token_id by done. by rewrite filter_cons_True.
    + apply Forall_app. split; [apply (bool_decide_unpack _); vm_compute; exact I|].
      eapply Forall_impl; [exact Ht|]. by intros c []%hexdigit_visible.
  - rewrite elem_of_app. intros [Hin|Hin].
    + revert Hin. apply (bool_decide_unpack _). vm_compute. exact I.
    + rewrite Forall_forall in Ht. by apply Ht, hexdigit_visible in Hin as [].
Qed.

(** ** Its session *)

Lemma session_char c : is_ascii_alphanumeric c = true ∨ c = 45%N →
  (c < 128)%N ∧ c ≠ 13%N ∧ c ≠ 10%N ∧ is_whitespace c = false ∧ c ≠ 38%N.
Proof.
  unfold is_ascii_alphanumeric, is_ascii_digit, is_ascii_uppercase, is_ascii_lowercase, is_whitespace.
  rewrite !orb_true_iff, !orb_false_iff, !andb_true_iff, !N.leb_le, !andb_false_iff, !N.leb_gt, !N.eqb_neq. lia.
Qed.
Lemma sanitized_session_id session : session_ok session → sanitized_session session = session.
Proof.
  intros (_ & Hl & Hc). unfold sanitized_session. rewrite filter_all; [by apply take_ge|].
  intros c Hin. apply orb_true_iff. rewrite N.eqb_eq. by apply Hc.
Qed.
Lemma session_read session : session_ok session → query_session (u "session=" ++ session) = Some session.
Proof.
  intros Hs. unfold query_session. rewrite split_on_none.
  - cbn [omap list_omap]. rewrite (proj2 (strip_prefix_Some _ _ session)) by done. cbn [head mbind option_bind].
    rewrite sanitized_session_id by done. by rewrite bool_decide_eq_false_2 by apply Hs.
  - rewrite elem_of_app. intros [Hin|Hin].
    + revert Hin. apply (bool_decide_unpack _). vm_compute. exact I.
    + by apply Hs, session_char in Hin as (_ & _ & _ & _ & ?).
Qed.

(** ** From the approval to the stream *)

(** The request a browser opens its stream with. *)
Definition stream_target (session : ustr) : ustr := u "/events?session=" ++ session.
Definition stream_headers (token : ustr) : list (ustr * ustr) := [(u "Cookie", u " sh_device=" ++ token)].
Definition stream_request (session token : ustr) : bytes :=
  utf8 (in_lines (request_lines (u "GET") (stream_target session) (stream_headers token))).
(** A token as [pairing::token] makes them. *)
Definition issued_token (tok : ustr) : Prop :=
  ∃ b, length b = TOKEN_BYTES ∧ Forall (λ byte, byte < 256)%N b ∧ tok = hex b.

Lemma issued_token_ok tok : issued_token tok →
  tok ≠ [] ∧ length tok = 64 ∧ Forall (λ c, is_ascii_hexdigit c = true) tok.
Proof.
  intros (b & Hl & Hb & ->). assert (length (hex b) = 64) as Hlen by by rewrite hex_length, Hl.
  split; [by intros Heq; rewrite Heq in Hlen|]. split; [done|]. by apply hex_hexdigits.
Qed.

Lemma stream_request_read session tok body :
  session_ok session → issued_token tok →
  read_request (stream_request session tok ++ body) =
    Some ({| rq_method := u "GET"; rq_path := u "/events"; rq_session := Some session; rq_token := Some tok;
             rq_forwarded := false; rq_length := 0 |}, body).
Proof.
  intros Hs Ht. destruct (issued_token_ok tok Ht) as (Hne & Hlen & Hhex).
  assert (word (u "GET")) as Hm.
  { split; [|split; [done|]]; unfold plain; apply (bool_decide_unpack _); vm_compute; exact I. }
  assert (word (stream_target session)) as Htarget.
  { unfold stream_target. split; [|split; [done|]].
    - apply plain_app; [unfold plain; apply (bool_decide_unpack _); vm_compute; exact I|].
      apply Forall_forall. intros c Hc%Hs%session_char. tauto.
    - apply Forall_app. split; [apply (bool_decide_unpack _); vm_compute; exact I|].
      apply Forall_forall. intros c Hc%Hs%session_char. tauto. }
  assert (Forall header_ok (stream_headers tok)) as Hh.
  { constructor; [|constructor]. unfold header_ok. cbn [fst snd]. split; [|split].
    - unfold plain. apply (bool_decide_unpack _). vm_compute. exact I.
    - apply plain_app; [unfold plain; apply (bool_decide_unpack _); vm_compute; exact I|].
      eapply Forall_impl; [exact Hhex|]. apply hexdigit_plain.
    - apply (bool_decide_unpack _). vm_compute. exact I. }
  assert (length (in_lines (request_lines (u "GET") (stream_target session) (stream_headers tok))) ≤ MAX_HEADER_BYTES) as Hfit.
  { unfold in_lines, request_lines, stream_headers, header_text, stream_target.
    cbn [mbind list_bind fmap list_fmap fst snd]. rewrite !length_app, Hlen. destruct Hs as (_ & Hl & _).
    unfold MAX_SESSION_CHARS in Hl. apply Nat.le_trans with (164 + 64); [|apply Nat.leb_le; vm_compute; reflexivity].
    cbn [length u crlf map String.list_ascii_of_string] in *. lia. }
  pose proof (request_read (u "GET") (stream_target session) (stream_headers tok) body Hm Htarget Hh Hfit) as Hread.
  assert (split_once (u "?") (stream_target session) = Some (u "/events", u "session=" ++ session)) as Hsplit.
  { apply (split_once_char 63). split; [done|]. apply (bool_decide_unpack _). vm_compute. exact I. }
  rewrite Hsplit in Hread. cbn [default from_option id] in Hread. unfold stream_request. rewrite Hread.
  rewrite session_read by done. unfold stream_headers. cbn [foldl].
  unfold header_token, header_forwarded, header_length. cbn [fst snd].
  assert (eq_ignore_ascii_case (u "Cookie") (u "cookie") = true) as -> by (vm_compute; reflexivity).
  rewrite cookie_read by (done || rewrite Hlen; apply Nat.leb_le; vm_compute; reflexivity).
  assert (eq_ignore_ascii_case (u "Cookie") (u "content-length") = false) as -> by (vm_compute; reflexivity).
  assert (existsb (eq_ignore_ascii_case (u "Cookie")) FORWARDING_HEADERS = false) as -> by (vm_compute; reflexivity).
  rewrite N.min_0_l. done.
Qed.

Section access.
Context `{Sha256} `{DeviceToml, !DeviceTomlLaws} `{PushJson} `{WebAssets} `{Serde ClientMessage}.
Implicit Types (w : Web Policy) (e : Surroundings).

Lemma stream_request_handled version e session tok body w :
  session_ok session → issued_token tok →
  handle (H := device_policy version e) true (stream_request session tok ++ body) w =
    let '(p, admitted) := policy_admits tok (devices w) in
    if admitted then open_stream session (set_devices p w) else (set_devices p w, Respond unauthorized).
Proof.
  intros Hs Ht. unfold handle. rewrite stream_request_read by done. cbn [rq_token admission].
  change (dev_admits tok (devices w)) with (policy_admits tok (devices w)).
  destruct (policy_admits tok (devices w)) as [p []]; reflexivity.
Qed.
Lemma policy_admits_snd tok p : (policy_admits tok p).2 = (admits tok (po_pairing p)).2.
Proof. unfold policy_admits. by destruct (admits tok (po_pairing p)). Qed.
Lemma policy_admits_pair tok p admitted :
  (admits tok (po_pairing p)).2 = admitted → ∃ p', policy_admits tok p = (p', admitted).
Proof.
  intros Ha. pose proof (policy_admits_snd tok p) as Hp. destruct (policy_admits tok p) as [p' a]. exists p'.
  cbn in Hp. by rewrite Hp, Ha.
Qed.

Lemma answered_token attempt approve random closed written delivered message_of now s s' outs tok :
  decide_pairing attempt approve random closed written delivered message_of now s = (s', outs) →
  Answer attempt (Ok tok) ∈ outs → token random = Some tok.
Proof.
  unfold decide_pairing. destruct (approvals s !! attempt) as [p|]; [|intros [= <- <-]; set_solver].
  case_match; [intros [= <- <-]; set_solver|]. destruct approve; simpl negb; cbv iota; [|intros [= <- <-]; set_solver].
  destruct (has_config_path _); simpl; [|intros [= <- <-]; set_solver].
  destruct (token random) as [t|]; simpl; [|intros [= <- <-]; set_solver].
  destruct (add_device_file _ written _) as [text|error]; intros [= <- <-]; set_solver.
Qed.

(** C33. Approving an attempt is what opens the door, and the configuration file is what
    keeps it open: the token the approval hands out opens an event stream as soon as the
    browser sends back the cookie, and once the file no longer lists a device with its
    digest, the same request is refused and opens nothing. *)
Theorem device_access_follows_file version e attempt random closed written delivered message_of now s s' outs tok session body w :
  decide_pairing attempt true random closed written delivered message_of now s = (s', outs) →
  Answer attempt (Ok tok) ∈ outs → issued_token tok → session_ok session →
  (∃ line, encode hello = Ok line) →
  (po_pairing (devices w) = s' →
     ∃ w', handle (H := device_policy version e) true (stream_request session tok ++ body) w = (w', Streaming (next_stream w)) ∧
       sessions w' !! session = Some (next_stream w)) ∧
  (∀ devices_, has_config_path (po_pairing (devices w)) = true →
     (config_file (po_pairing (devices w)) ≫= parse_devices) = Some devices_ →
     (∀ d, d ∈ devices_ → utf8 (token_sha256 d) ≠ utf8 (fingerprint tok)) →
     ∃ w', handle (H := device_policy version e) true (stream_request session tok ++ body) w = (w', Respond unauthorized) ∧
       sessions w' = sessions w ∧ streams w' = streams w).
Proof.
  intros Hdecide Hanswer Htok Hs (line & Hline). split.
  - intros Hp. rewrite stream_request_handled by done.
    pose proof (answered_token _ _ _ _ _ _ _ _ _ _ _ _ Hdecide Hanswer) as Htoken.
    destruct (decision_exact attempt true random closed written delivered message_of now s s' outs Hdecide)
      as [_ [(p & tok' & old & known & _ & _ & _ & _ & _ & Ht' & _ & _ & _ & _ & _ & _ & Hadmits)|(_ & Hno & _)]];
      [|by apply Hno in Hanswer].
    rewrite Htoken in Ht'. injection Ht' as <-.
    destruct (policy_admits_pair tok (devices w) true) as [p' ->]; [rewrite Hp; apply Hadmits; by right|].
    unfold open_stream. rewrite Hline. eexists. split; [done|]. cbn [sessions set_devices]. apply lookup_insert_eq.
  - intros devices_ Hc Hd Hnone. rewrite stream_request_handled by done.
    assert ((admits tok (po_pairing (devices w))).2 = false) as Ha.
    { apply not_true_iff_false. rewrite admits_spec by done. intros (d & Hin & Heq). by eapply Hnone. }
    destruct (policy_admits_pair tok (devices w) false Ha) as [p' ->]. by eexists.
Qed.
End access.
