(* ===== verification/WebExamples.v ===== *)
(** Browsers to run [WebFacts] and [WebDevices] on, and two of them that lose. *)

From S2P Require Import Prelude Text Config Protocol Pairing PairingFacts Push Web WebFacts WebDevices PushFacts.

Module Browser.
Import PairingFacts.Toy PushFacts.Bits.

(** Two messages of the protocol, as words. *)
#[export] Instance serde : Serde ClientMessage := {
  to_vec m := match m with ClientHello _ _ => Some (u "hello") | MarkAllAttentionSeen => Some (u "seen") | _ => None end;
  from_slice b := if bool_decide (b = u "seen") then Some MarkAllAttentionSeen else None;
}.
#[export] Instance assets : WebAssets := {
  APP := u "<html>";
  SERVICE_WORKER := u "self";
  read_push_subscription _ := None;
}.
Definition around : Surroundings := {| sr_now := 50; sr_random := random; sr_written := true |}.
#[export] Instance devices : Devices Policy := device_policy (u "1") around.

(** The kernel's bytes for the token, and what the approval makes of the daemon. *)
Definition token_bytes : bytes := N.of_nat <$> seq 0 32.
Definition tok : ustr := hex token_bytes.
Definition approved : PairingState * list PairingOutput :=
  decide_pairing attempt true (Some token_bytes) false true true (λ _, []) 40 waiting.
Definition policy (s : PairingState) : Policy := {| po_pairing := s; po_push := None; po_vapid := None; po_wake := None |}.
Definition server : Web Policy := Web_new (policy approved.1).

Definition session : ustr := u "tab-1".
Definition command_headers (token : ustr) : list (ustr * ustr) := (u "Content-Length", u " 4") :: stream_headers token.
Definition command (session_ token : ustr) : bytes :=
  utf8 (in_lines (request_lines (u "POST") (u "/command?session=" ++ session_) (command_headers token))) ++ u "seen".
Definition pair_request (body : ustr) : bytes :=
  utf8 (in_lines (request_lines (u "POST") (u "/pair") [(u "Content-Length", display_N (N.of_nat (length body)))])) ++ utf8 body.
(** The object the page posts. *)
Definition pair_body (code name confirmation : ustr) : ustr :=
  u "{" ++ quoted (u "code") ++ u ":" ++ quoted code ++ u "," ++ quoted (u "name") ++ u ":" ++ quoted name ++ u ","
  ++ quoted (u "confirmation") ++ u ":" ++ quoted confirmation ++ u "}".

Definition listening : Web Policy := (handle true (stream_request session tok) server).1.
Definition stranger : ustr := u "abad1dea".
End Browser.
Import PairingFacts.Toy PushFacts.Bits Browser.

Lemma unpaired_reaches_nothing_witness :
  (handle true (command session stranger) listening).2 = Respond unauthorized ∧
  sessions (handle true (command session stranger) listening).1 = sessions listening.
Proof.
  split; [vm_compute; reflexivity|].
  eassert (read_request (command session stranger) = Some (_, _)) as Hread by (vm_compute; reflexivity).
  eassert (admission (Some stranger) (Web.devices listening) = (_, false)) as Hadmit by (vm_compute; reflexivity).
  apply (unpaired_reaches_nothing true (command session stranger) listening _ _ _ _ _ Hread Hadmit (surjective_pairing _)).
Defined.

Lemma command_forwarded_witness :
  (handle true (command session tok) listening).2 = Posting 0 (u "seen" ++ [newline]) ∧
  ∃ rq rest s, read_request (command session tok) = Some (rq, rest) ∧ rq_session rq = Some s ∧ sessions listening !! s = Some 0.
Proof.
  assert ((handle true (command session tok) listening).2 = Posting 0 (u "seen" ++ [newline])) as Hpost by (vm_compute; reflexivity).
  split; [exact Hpost|].
  destruct (command_forwarded true (command session tok) listening (handle true (command session tok) listening).1 0 (u "seen" ++ [newline]))
    as (rq & rest & token & s & body & message & Hread & _ & _ & Hs & Hid & _).
  { rewrite <-Hpost. apply surjective_pairing. }
  exists rq, rest, s. split; [exact Hread|]. split; [exact Hs|exact Hid].
Defined.

Lemma relay_faithful_witness :
  messages (relay [Arrived (u "one" ++ [newline] ++ u "tw"); Quiet; Arrived (u "o" ++ [newline])]) =
    [u "one" ++ [newline]; u "two" ++ [newline]] ∧
  Forall whole_line (messages (relay [Arrived (u "one" ++ [newline] ++ u "tw"); Quiet; Arrived (u "o" ++ [newline])])).
Proof.
  split; [vm_compute; reflexivity|].
  apply (relay_faithful [Arrived (u "one" ++ [newline] ++ u "tw"); Quiet; Arrived (u "o" ++ [newline])]).
  intros [|[|[|[]%not_elem_of_nil]%elem_of_cons]%elem_of_cons]%elem_of_cons; discriminate.
Defined.

Lemma device_access_follows_file_witness :
  ∃ w', handle true (stream_request session tok ++ []) server = (w', Streaming 0) ∧ sessions w' !! session = Some 0.
Proof.
  assert (issued_token tok) as Htok.
  { exists token_bytes. split; [reflexivity|]. split; [|reflexivity]. apply (bool_decide_unpack _). vm_compute. exact I. }
  assert (session_ok session) as Hs.
  { split; [done|]. split; [apply Nat.leb_le; vm_compute; reflexivity|]. intros c Hc.
    assert (forallb (λ c, is_ascii_alphanumeric c || (c =? 45)%N) session = true) as Hall by (vm_compute; reflexivity).
    rewrite forallb_forall in Hall. apply list_elem_of_In, Hall, orb_true_iff in Hc. by rewrite N.eqb_eq in Hc. }
  apply (device_access_follows_file (u "1") around attempt (Some token_bytes) false true true (λ _, []) 40 waiting
           approved.1 approved.2 tok session [] server (surjective_pairing _)).
  - vm_compute. left.
  - exact Htok.
  - exact Hs.
  - exists (u "hello" ++ [newline]). vm_compute. reflexivity.
  - reflexivity.
Defined.

(** A browser that reconnects, as an event source does, opens its second stream while the
    first has not been noticed to be gone. When the first ends, it takes the session with
    it: the stream that is open answers commands with a refusal. *)
Example old_stream_ends_new_session :
  let reconnected := (handle true (stream_request session tok) listening).1 in
  let noticed := end_stream 0 reconnected in
  (handle true (command session tok) reconnected).2 = Posting 1 (u "seen" ++ [newline]) ∧
  is_Some (streams noticed !! 1) ∧
  (handle true (command session tok) noticed).2 =
    Respond (write_status (u "409 Conflict") (u "no open event stream")).
Proof. vm_compute. split_and!; [reflexivity|by eexists|reflexivity]. Qed.

(** The field is looked for before the names and the values are told apart: a device
    called [confirmation] offers the right code and cannot be paired. *)
Example confirmation_cannot_pair :
  let waiting_for_code : Web Policy := Web_new (policy issued) in
  let confirmation := u "123456" in
  (∃ attempt, (handle true (pair_request (pair_body (u "ABCDEFGH") (u "phone") confirmation)) waiting_for_code).2
                = AwaitApproval attempt false) ∧
  (handle true (pair_request (pair_body (u "ABCDEFGH") (u "confirmation") confirmation)) waiting_for_code).2
    = Respond (write_status (u "403 Forbidden") (pair_error BadConfirmation)).
Proof. vm_compute. split; [by eexists|reflexivity]. Qed.
