(* ===== verification/SshConfig.v ===== *)
(** The hosts of an OpenSSH configuration: [src/src/ssh_config.rs].

    What is read from the disk is a class: the texts of files, the entries of directories,
    the home directory. A path is its components, which is what Rust's paths are compared
    and ordered by. *)

From S2P Require Import Prelude Text.

Definition MAX_INCLUDE_DEPTH : nat := 3.
Definition MAX_FILES : nat := 64.
Definition MAX_HOSTS : nat := 512.

Record SshHost := { alias : ustr; hostname : option ustr; user : option ustr; port : option N }.
#[export] Instance SshHost_eq_dec : EqDecision SshHost.
Proof. solve_decision. Defined.

Definition summary (h : SshHost) : ustr :=
  alias h
  ++ match hostname h with
     | Some name => u "  " ++ match user h with Some user => user ++ u "@" | None => [] end ++ name
     | None => []
     end
  ++ match port h with Some port => u ":" ++ display_N port | None => [] end.

(** ** Paths of the standard library *)

Inductive Component := RootDir | CurDir | ParentDir | Normal (name : ustr).
Definition component_key (c : Component) : N * ustr :=
  match c with RootDir => (0, []) | CurDir => (1, []) | ParentDir => (2, []) | Normal name => (3, name) end%N.
#[export] Instance component_key_inj : Inj (=) (=) component_key.
Proof. intros [] []; naive_solver. Qed.
#[export] Instance Component_eq_dec : EqDecision Component.
Proof. solve_decision. Defined.
#[export] Instance Component_countable : Countable Component.
Proof.
  refine (inj_countable' component_key (λ k, match k.1 with 0 => RootDir | 1 => CurDir | 2 => ParentDir | _ => Normal k.2 end%N) _).
  by intros [].
Defined.
#[export] Instance Component_ord : Ord Component := cmp_by component_key.
#[export] Instance Component_ord_laws : OrdLaws Component := ord_laws_by component_key.
Abbreviation Path := (list Component).

Definition is_absolute (path : Path) : bool := bool_decide (head path = Some RootDir).
(** [Path::new]: what lies between slashes; [.] counts only at the front. *)
Definition components (text : ustr) : Path :=
  let pieces := split_on slash text in
  (if starts_with slash text then [RootDir] else if bool_decide (head pieces = Some (u ".")) then [CurDir] else [])
  ++ ((λ piece, if bool_decide (piece = u "..") then ParentDir else Normal piece)
        <$> filter (λ piece, piece ≠ [] ∧ piece ≠ u ".") pieces).
(** [Path::join], [Path::parent] and [Path::file_name]. *)
Definition path_join (directory path : Path) : Path :=
  if is_absolute path then path
  else if bool_decide (directory = []) then path else directory ++ filter (λ c, c ≠ CurDir) path.
Definition parent (path : Path) : option Path :=
  match last path with None | Some RootDir => None | Some _ => Some (take (length path - 1) path) end.
Definition file_name (path : Path) : option ustr :=
  match last path with Some (Normal name) => Some name | _ => None end.

(** ** One file *)

(** [split_once] and [contains] with a set of characters. *)
Fixpoint split_once_at (p : N → bool) (s : ustr) : option (ustr * ustr) :=
  match s with
  | [] => None
  | c :: s => if p c then Some ([], s) else (λ r, (c :: r.1, r.2)) <$> split_once_at p s
  end.
Definition is_wildcard (c : N) : bool := ((c =? 42) || (c =? 63))%N.
Definition is_separator (c : N) : bool := ((c =? 32) || (c =? 9) || (c =? 61))%N.

Definition keyword_value (line : ustr) : ustr * ustr :=
  match split_once_at is_separator line with
  | Some (keyword, value) => (to_ascii_lowercase keyword, trim (trim_start_char 61 (trim value)))
  | None => (to_ascii_lowercase line, [])
  end.
Definition is_pattern (alias : ustr) : bool := existsb is_wildcard alias || starts_with 33 alias.
Definition new_host (alias : ustr) : SshHost := {| alias := alias; hostname := None; user := None; port := None |}.
(** What a line that sets an option does to a host of its block. *)
Definition set_option (keyword value : ustr) (h : SshHost) : SshHost :=
  if bool_decide (keyword = u "hostname") then {| alias := alias h; hostname := Some value; user := user h; port := port h |}
  else if bool_decide (keyword = u "user") then {| alias := alias h; hostname := hostname h; user := Some value; port := port h |}
  else {| alias := alias h; hostname := hostname h; user := user h; port := parse_unsigned 65535 value |}.

Abbreviation Item := (option SshHost * option ustr)%type.
Record Parsing := { found : list Item; current : list nat }.
Definition add_alias (p : Parsing) (alias : ustr) : Parsing :=
  if is_pattern alias then p
  else {| found := found p ++ [(Some (new_host alias), None)]; current := current p ++ [length (found p)] |}.
Definition describe (keyword value : ustr) (found : list Item) (index : nat) : list Item :=
  alter (λ item, match item with (Some host, include) => (Some (set_option keyword value host), include) | _ => item end) index found.
Definition is_option (keyword : ustr) : bool := bool_decide (keyword ∈ [u "hostname"; u "user"; u "port"]).
Definition parse_line (p : Parsing) (line : ustr) : Parsing :=
  let line := trim line in
  if bool_decide (line = []) || starts_with 35 line then p
  else
    let '(keyword, value) := keyword_value line in
    if bool_decide (keyword = u "host") then foldl add_alias {| found := found p; current := [] |} (split_whitespace value)
    else if bool_decide (keyword = u "match") then {| found := found p; current := [] |}
    else if bool_decide (keyword = u "include") then {| found := found p ++ [(None, Some value)]; current := current p |}
    else if is_option keyword then {| found := foldl (describe keyword value) (found p) (current p); current := current p |}
    else p.
Definition parse_into (text : ustr) : list Item := found (foldl parse_line {| found := []; current := [] |} (lines text)).

(** ** A file and what it includes *)

Class FileTree := {
  read_to_string : Path → option ustr;
  (** The entries of a directory: their names, and whether each is a file. *)
  read_dir : Path → option (list (ustr * bool));
  home : option ustr;
}.

Section files.
Context `{FileTree}.

Definition entry_path (from : Path) (entry : ustr) : option Path :=
  match strip_prefix (u "~/") entry with
  | Some rest => home ← home; Some (path_join (components home) (components rest))
  | None => if starts_with slash entry then Some (components entry)
            else Some (path_join (default [CurDir] (parent from)) (components entry))
  end.
Definition matching (directory : Path) (name : ustr) : list Path :=
  match read_dir directory with
  | None => []
  | Some entries =>
      let prefix := default [] (head (split_at is_wildcard name)) in
      omap (λ entry, if has_prefix prefix entry.1 && entry.2 then Some (path_join directory [Normal entry.1]) else None) entries
  end.
Definition expand_entry (from : Path) (entry : ustr) : list Path :=
  match (path ← entry_path from (trim_char 34 entry); name ← file_name path; Some (path, name)) with
  | None => []
  | Some (path, name) =>
      if existsb is_wildcard name
      then match parent path with Some directory => matching directory name | None => [] end
      else [path]
  end.
Definition expand_include (from : Path) (pattern : ustr) : list Path :=
  merge_sort cmp_le (split_whitespace pattern ≫= expand_entry from).

(** The paths seen, and the hosts collected. *)
Abbreviation Reading := (gset Path * list SshHost)%type.
(** One item of the file at [path]; what an include cannot read is passed over. *)
Definition read_item (read : Path → Reading → bool * Reading) (path : Path) (r : Reading) (item : Item) : Reading :=
  match item with
  | (Some host, _) => (r.1, r.2 ++ [host])
  | (None, Some pattern) => foldl (λ r included, (read included r).2) r (expand_include path pattern)
  | (None, None) => r
  end.
(** [levels] is how many more levels may be entered: [MAX_INCLUDE_DEPTH + 1 - depth]. *)
Fixpoint read_into (levels : nat) (path : Path) (r : Reading) : bool * Reading :=
  match levels with
  | O => (true, r)
  | S levels =>
      if (MAX_FILES <=? size r.1) || bool_decide (path ∈ r.1) then (true, r)
      else
        let r := ({[path]} ∪ r.1, r.2) in
        match read_to_string path with
        | None => (false, r)
        | Some text =>
            (true, foldl (read_item (read_into levels) path) r (parse_into text))
        end
  end.
(** [None]: the file itself cannot be read. *)
Definition load (path : Path) : option (list SshHost) :=
  let '(read, (_, hosts)) := read_into (S MAX_INCLUDE_DEPTH) path (∅, []) in
  if read then Some (take MAX_HOSTS hosts) else None.
End files.
Definition default_path (home : option ustr) : option Path := (λ home, path_join (components home) (components (u ".ssh/config"))) <$> home.

(** ** What one file says *)

(** A line as what it asks for. *)
Inductive Directive :=
  | HostLine (aliases : list ustr) | MatchLine | IncludeLine (value : ustr) | OptionLine (keyword value : ustr) | OtherLine.
Definition directive (line : ustr) : Directive :=
  let line := trim line in
  if bool_decide (line = []) || starts_with 35 line then OtherLine
  else
    let '(keyword, value) := keyword_value line in
    if bool_decide (keyword = u "host") then HostLine (split_whitespace value)
    else if bool_decide (keyword = u "match") then MatchLine
    else if bool_decide (keyword = u "include") then IncludeLine value
    else if is_option keyword then OptionLine keyword value
    else OtherLine.
Definition set_options (options : list (ustr * ustr)) (h : SshHost) : SshHost :=
  foldl (λ h o, set_option o.1 o.2 h) h options.
Definition plain (alias : ustr) : Prop := alias ≠ [] ∧ is_pattern alias = false ∧ Forall (λ c, is_whitespace c = false) alias.
Definition block_hosts (aliases : list ustr) (options : list (ustr * ustr)) : list Item :=
  (λ alias, (Some (set_options options (new_host alias)), None)) <$> filter (λ alias, is_pattern alias = false) aliases.
(** Read from the end: the options a block sets, and the hosts and includes from here on. A
    block runs from its [Host] line to the next [Host] or [Match]. *)
Fixpoint described (ds : list Directive) : list (ustr * ustr) * list Item :=
  match ds with
  | [] => ([], [])
  | d :: ds =>
      let '(options, items) := described ds in
      match d with
      | HostLine aliases => ([], block_hosts aliases options ++ items)
      | MatchLine => ([], items)
      | IncludeLine value => (options, (None, Some value) :: items)
      | OptionLine keyword value => ((keyword, value) :: options, items)
      | OtherLine => (options, items)
      end
  end.

Definition apply_options (options : list (ustr * ustr)) (current : list nat) (found : list Item) : list Item :=
  foldl (λ found o, foldl (describe o.1 o.2) found current) found options.
Definition Inside (n : nat) (current : list nat) : Prop := Forall (λ i, i < n) current.

Lemma describe_length k v (l : list Item) i : length (describe k v l i) = length l.
Proof. apply length_alter. Qed.
Lemma describe_all_length k v (l : list Item) current : length (foldl (describe k v) l current) = length l.
Proof. revert l. induction current as [|i current IH]; intros l; [done|]. cbn [foldl]. by rewrite IH, describe_length. Qed.
Lemma describe_all_app k v (l l' : list Item) current :
  Inside (length l) current → foldl (describe k v) (l ++ l') current = foldl (describe k v) l current ++ l'.
Proof.
  intros Hin. revert l Hin. induction current as [|i current IH]; intros l Hin; [done|].
  apply Forall_cons in Hin as [Hi Hin]. cbn [foldl]. unfold describe at 2. rewrite alter_app_l by done.
  apply IH. by rewrite describe_length.
Qed.
Lemma apply_options_app options current (l l' : list Item) :
  Inside (length l) current → apply_options options current (l ++ l') = apply_options options current l ++ l'.
Proof.
  unfold apply_options. revert l. induction options as [|o options IH]; intros l Hin; [done|]. cbn [foldl].
  rewrite describe_all_app by done. apply IH. by rewrite describe_all_length.
Qed.
Lemma apply_options_nobody options (l : list Item) : apply_options options [] l = l.
Proof. unfold apply_options. by induction options. Qed.

Definition described_item (k v : ustr) (item : Item) : Item :=
  match item with (Some host, include) => (Some (set_option k v host), include) | _ => item end.
Lemma describe_new k v (l l' : list Item) :
  foldl (describe k v) (l ++ l') (seq (length l) (length l')) = l ++ (described_item k v <$> l').
Proof.
  revert l. induction l' as [|x l' IH]; intros l; [done|]. cbn [length seq foldl fmap list_fmap].
  unfold describe at 2. rewrite alter_app_r_alt, Nat.sub_diag by lia. cbn [alter list_alter].
  replace (S (length l)) with (length (l ++ [described_item k v x])) by (rewrite length_app; simpl; lia).
  rewrite cons_middle, app_assoc. etrans; [apply IH|]. by rewrite <-app_assoc.
Qed.
Lemma apply_options_new options (l : list Item) hosts :
  apply_options options (seq (length l) (length hosts)) (l ++ ((λ h, (Some h, None)) <$> hosts))
  = l ++ ((λ h, (Some (set_options options h), None)) <$> hosts).
Proof.
  revert hosts. induction options as [|o options IH]; intros hosts; [done|]. unfold apply_options in *. cbn [foldl].
  rewrite <-(length_fmap (λ h, (Some h, None) : Item) hosts), describe_new, <-list_fmap_compose.
  specialize (IH (set_option o.1 o.2 <$> hosts)). rewrite length_fmap, <-!list_fmap_compose in IH.
  rewrite length_fmap. exact IH.
Qed.

Lemma add_aliases p aliases :
  let news := filter (λ alias, is_pattern alias = false) aliases in
  foldl add_alias p aliases = {| found := found p ++ ((λ a, (Some (new_host a), None)) <$> news);
                                 current := current p ++ seq (length (found p)) (length news) |}.
Proof.
  cbn zeta. revert p. induction aliases as [|a aliases IH]; intros p.
  - cbn. rewrite !app_nil_r. by destruct p.
  - cbn [foldl]. rewrite IH. unfold add_alias. destruct (is_pattern a) eqn:Ha.
    + by rewrite filter_cons_False by congruence.
    + rewrite filter_cons_True by done. cbn [found current length seq fmap list_fmap]. rewrite length_app. cbn [length].
      rewrite Nat.add_1_r, <-!app_assoc. done.
Qed.
Lemma parse_line_directive p line :
  parse_line p line =
  match directive line with
  | HostLine aliases => foldl add_alias {| found := found p; current := [] |} aliases
  | MatchLine => {| found := found p; current := [] |}
  | IncludeLine value => {| found := found p ++ [(None, Some value)]; current := current p |}
  | OptionLine k v => {| found := foldl (describe k v) (found p) (current p); current := current p |}
  | OtherLine => p
  end.
Proof.
  unfold parse_line, directive. destruct (_ || _); [done|]. destruct (keyword_value _) as [k v].
  repeat (case_bool_decide; [done|]). by destruct (is_option k).
Qed.

Lemma parse_lines p ls :
  Inside (length (found p)) (current p) →
  found (foldl parse_line p ls)
  = apply_options (described (directive <$> ls)).1 (current p) (found p) ++ (described (directive <$> ls)).2.
Proof.
  revert p. induction ls as [|line ls IH]; intros p Hin; [symmetry; apply app_nil_r|]. cbn [foldl fmap list_fmap].
  rewrite parse_line_directive. cbn [described]. destruct (described (directive <$> ls)) as [options items] eqn:E.
  destruct (directive line) as [aliases| |value|k v|]; cbn [fst snd].
  - rewrite add_aliases. cbn [found current app]. rewrite IH; cbn [found current fst snd].
    + pose proof (apply_options_new options (found p) (new_host <$> filter (λ a, is_pattern a = false) aliases)) as Hnew.
      rewrite length_fmap, <-!list_fmap_compose in Hnew. change (apply_options [] (current p) (found p)) with (found p).
      rewrite (app_assoc (found p)). f_equal. exact Hnew.
    + apply Forall_forall. intros i Hi%elem_of_seq. rewrite length_app, length_fmap. lia.
  - rewrite IH by constructor. cbn [found current fst snd]. by rewrite apply_options_nobody.
  - rewrite IH; cbn [found current fst snd].
    + by rewrite apply_options_app, <-app_assoc.
    + eapply Forall_impl; [exact Hin|]. intros i Hi. cbv beta in *. rewrite length_app. cbn [length]. lia.
  - rewrite IH; cbn [found current fst snd]; [done|]. by rewrite describe_all_length.
  - by apply IH.
Qed.

(** A file is read as its blocks are written: every alias of a [Host] line that is no
    pattern becomes a host with all the options of its block and no other's, in the order of
    the file, and the includes stand between them where they were. *)
Theorem parse_by_blocks text : parse_into text = (described (directive <$> lines text)).2.
Proof. unfold parse_into. rewrite parse_lines by constructor. cbn [found current]. by rewrite apply_options_nobody. Qed.

Lemma set_options_alias options h : alias (set_options options h) = alias h.
Proof.
  unfold set_options. revert h. induction options as [|o options IH]; intros h; [done|]. cbn [foldl]. rewrite IH.
  unfold set_option. by repeat case_bool_decide.
Qed.
Lemma split_at_none p s part : part ∈ split_at p s → Forall (λ c, p c = false) part.
Proof.
  revert part. induction s as [|c s IH]; intros part; cbn [split_at]; [by intros ->%list_elem_of_singleton|].
  destruct (p c) eqn:Hc; [intros [->|Hin]%elem_of_cons; [constructor|by apply IH]|].
  destruct (split_at p s) as [|first rest]; [intros ->%list_elem_of_singleton; by constructor|].
  intros [->|Hin]%elem_of_cons; [constructor; [done|]; apply IH; left|apply IH; by right].
Qed.
Lemma described_plain ds h include : (Some h, include) ∈ (described ds).2 →
  (∀ aliases, HostLine aliases ∈ ds → ∀ a, a ∈ aliases → a ≠ [] ∧ Forall (λ c, is_whitespace c = false) a) → plain (alias h).
Proof.
  induction ds as [|d ds IH]; cbn [described]; [by intros ?%elem_of_nil|].
  destruct (described ds) as [options items]. cbn [snd] in IH. intros Hin Hall.
  assert ((Some h, include) ∈ items → plain (alias h)) as Hrest.
  { intros Hi. apply IH; [done|]. intros aliases Ha. apply Hall. by right. }
  destruct d as [aliases| |value|k v|]; cbn [snd] in Hin; try by apply Hrest.
  - apply elem_of_app in Hin as [Hin|Hin]; [|by apply Hrest].
    apply list_elem_of_fmap in Hin as (a & [= -> ->] & [Hpattern Ha]%list_elem_of_filter). rewrite set_options_alias.
    destruct (Hall aliases (list_elem_of_here _ _) a Ha). by split_and!.
  - apply elem_of_cons in Hin as [[=]|Hin]. by apply Hrest.
Qed.
Lemma parsed_plain text h : h ∈ omap fst (parse_into text) → plain (alias h).
Proof.
  intros ([? include] & Hin & [= ->])%list_elem_of_omap. rewrite parse_by_blocks in Hin.
  eapply described_plain; [exact Hin|]. intros aliases (line & Hd & _)%list_elem_of_fmap. revert Hd. unfold directive.
  destruct (_ || _); [done|]. destruct (keyword_value _) as [k v].
  case_bool_decide; [|repeat (case_bool_decide; [done|]); by destruct (is_option k)].
  intros [= ->] a [Hne Ha]%list_elem_of_filter. split; [done|]. by eapply split_at_none.
Qed.

Lemma described_includes ds value : (None, Some value) ∈ (described ds).2 ↔ IncludeLine value ∈ ds.
Proof.
  induction ds as [|d ds IH]; cbn [described]; [by split; intros ?%elem_of_nil|].
  destruct (described ds) as [options items]. cbn [snd] in IH. rewrite elem_of_cons, <-IH.
  assert (∀ d' : Directive, d' ≠ IncludeLine value → ∀ P : Prop, P ↔ IncludeLine value = d' ∨ P) as Hother.
  { intros d' Hd P. split; [by right|]. intros [Heq|]; [by subst|done]. }
  destruct d as [aliases| |value'|k v|]; cbn [snd]; try by apply Hother.
  - rewrite elem_of_app. rewrite <-Hother by done. split; [intros [Hin|]; [|done]|by right].
    unfold block_hosts in Hin. by apply list_elem_of_fmap in Hin as (a & [=] & _).
  - rewrite elem_of_cons. split; (intros [[= ->]|]; [by left|by right]).
Qed.

(** ** What a file and its includes say *)

Section loading.
Context `{FileTree}.

(** The hosts a file itself describes. *)
Definition hosts_of (path : Path) : list SshHost :=
  match read_to_string path with Some text => omap fst (described (directive <$> lines text)).2 | None => [] end.
(** The files a path of an include stands for: the one there; when there are wildcards in its
    name, every file of the directory whose name starts with what is before the first. *)
Definition stands_for (path to : Path) : Prop :=
  ∃ name, file_name path = Some name ∧
    ((Forall (λ c, is_wildcard c = false) name ∧ to = path) ∨
     ∃ prefix wild rest directory entries file,
       name = prefix ++ wild :: rest ∧ Forall (λ c, is_wildcard c = false) prefix ∧ is_wildcard wild = true ∧
       parent path = Some directory ∧ read_dir directory = Some entries ∧ (file, true) ∈ entries ∧
       has_prefix prefix file = true ∧ to = path_join directory [Normal file]).
(** One file includes another: a word of one of its [Include] lines stands for it. *)
Definition included (from to : Path) : Prop :=
  ∃ text line value entry path, read_to_string from = Some text ∧ line ∈ lines text ∧ directive line = IncludeLine value ∧
    entry ∈ split_whitespace value ∧ entry_path from (trim_char 34 entry) = Some path ∧ stands_for path to.

Lemma no_wildcard name : existsb is_wildcard name = false ↔ Forall (λ c, is_wildcard c = false) name.
Proof.
  induction name as [|c name IH]; [by split; [constructor|]|]. cbn [existsb]. rewrite orb_false_iff, Forall_cons, IH. done.
Qed.
Lemma first_wildcard name : existsb is_wildcard name = true →
  ∃ prefix wild rest, name = prefix ++ wild :: rest ∧ Forall (λ c, is_wildcard c = false) prefix ∧ is_wildcard wild = true
    ∧ default [] (head (split_at is_wildcard name)) = prefix.
Proof.
  induction name as [|c name IH]; [done|]. cbn [existsb split_at]. destruct (is_wildcard c) eqn:Hc; cbn [orb].
  - intros _. exists [], c, name. by split_and!.
  - intros (prefix & wild & rest & -> & Hprefix & Hwild & Hhead)%IH. exists (c :: prefix), wild, rest.
    split_and!; [done|by constructor|done|]. destruct (split_at _ _) as [|first parts]; cbn in *; [|by subst].
    by subst.
Qed.
Lemma split_prefix prefix wild rest :
  Forall (λ c, is_wildcard c = false) prefix → is_wildcard wild = true →
  default [] (head (split_at is_wildcard (prefix ++ wild :: rest))) = prefix ∧ existsb is_wildcard (prefix ++ wild :: rest) = true.
Proof.
  intros Hprefix Hwild. induction Hprefix as [|c prefix Hc _ [IH IH']]; cbn [app split_at existsb]; [by rewrite Hwild|].
  rewrite Hc, IH'. split; [|done]. destruct (split_at _ _); cbn in *; by subst.
Qed.
Lemma elem_of_matching directory name to :
  to ∈ matching directory name ↔ ∃ entries file, read_dir directory = Some entries ∧ (file, true) ∈ entries ∧
    has_prefix (default [] (head (split_at is_wildcard name))) file = true ∧ to = path_join directory [Normal file].
Proof.
  unfold matching. destruct (read_dir directory) as [entries|]; [|split; [by intros ?%elem_of_nil|naive_solver]].
  cbv zeta. rewrite list_elem_of_omap. split.
  - intros ([file []] & Hin & Heq); cbn [fst snd] in Heq; [|by rewrite andb_false_r in Heq]. rewrite andb_true_r in Heq.
    destruct (has_prefix _ file) eqn:Hp; [|done]. injection Heq as <-. by exists entries, file.
  - intros (entries' & file & [= <-] & Hin & Hp & ->). exists (file, true). split; [done|]. cbn [fst snd]. by rewrite Hp.
Qed.
Lemma elem_of_expand_entry from entry to :
  to ∈ expand_entry from entry ↔ ∃ path, entry_path from (trim_char 34 entry) = Some path ∧ stands_for path to.
Proof.
  unfold expand_entry, stands_for. destruct (entry_path _ _) as [path|]; cbn [mbind option_bind];
    [|split; [by intros ?%elem_of_nil|naive_solver]].
  destruct (file_name path) as [name|] eqn:Hname;
    [|split; [by intros ?%elem_of_nil|intros (path' & [= <-] & name & Hn & _); congruence]].
  cbn [mbind option_bind]. destruct (existsb is_wildcard name) eqn:Hw.
  - split.
    + intros Hin. exists path. split; [done|]. exists name. split; [exact Hname|]. right.
      destruct (first_wildcard name Hw) as (prefix & wild & rest & -> & Hprefix & Hwild & Hhead).
      destruct (parent path) as [directory|] eqn:Hparent; [|by apply elem_of_nil in Hin]. apply elem_of_matching in Hin as (entries & file & ? & ? & Hp & ->).
      rewrite Hhead in Hp. by exists prefix, wild, rest, directory, entries, file.
    + intros (path' & [= <-] & name' & Hn & [[Hno _]|(prefix & wild & rest & directory & entries & file & -> & Hprefix & Hwild & -> & Hdir & Hin & Hp & ->)]).
      { rewrite Hname in Hn. injection Hn as <-. apply no_wildcard in Hno. congruence. }
      rewrite Hname in Hn. injection Hn as ->.
      apply elem_of_matching. exists entries, file. by rewrite (proj1 (split_prefix prefix wild rest Hprefix Hwild)).
  - rewrite list_elem_of_singleton. split.
    + intros ->. exists path. split; [done|]. exists name. split; [exact Hname|]. left. by apply no_wildcard in Hw.
    + intros (path' & [= <-] & name' & Hn & [[_ ->]|(prefix & wild & rest & directory & entries & file & -> & Hprefix & Hwild & _)]); [done|].
      rewrite Hname in Hn. injection Hn as ->. by rewrite (proj2 (split_prefix prefix wild rest Hprefix Hwild)) in Hw.
Qed.
Lemma included_spec from to text : read_to_string from = Some text →
  included from to ↔ ∃ pattern, (None, Some pattern) ∈ parse_into text ∧ to ∈ expand_include from pattern.
Proof.
  intros Htext. unfold included, expand_include. rewrite parse_by_blocks. setoid_rewrite described_includes.
  setoid_rewrite merge_sort_Permutation. setoid_rewrite list_elem_of_bind. setoid_rewrite elem_of_expand_entry.
  setoid_rewrite list_elem_of_fmap. split.
  - intros (text' & line & value & entry & path & Ht & Hl & Hd & He & Hp & Hs). simplify_eq.
    exists value. split; [by exists line|]. exists entry. split; [by exists path|done].
  - intros (value & (line & Hd & Hl) & entry & (path & Hp & Hs) & He). by exists text, line, value, entry, path.
Qed.

(** A file is among those seen, or no more are. *)
Definition reached (f : Path) (r : gset Path * list SshHost) : Prop := f ∈ r.1 ∨ MAX_FILES ≤ size r.1.

Section from_root.
Context (root : Path).

(** From one point of the reading to a later one: the files of [depth] were seen in between,
    each for the first time, and the hosts of each were collected, with [hosts] besides; each
    is that many includes away from the first, and what it includes was reached when the
    depth allows it. *)
Definition grown_by (depth : gmap Path nat) (hosts : list SshHost) (r r' : gset Path * list SshHost) : Prop :=
  r'.1 = r.1 ∪ dom depth ∧ dom depth ## r.1
    ∧ r'.2 ≡ₚ r.2 ++ hosts ++ (elements (dom depth) ≫= hosts_of) ∧ (size r.1 ≤ MAX_FILES → size r'.1 ≤ MAX_FILES)
    ∧ ∀ f n, depth !! f = Some n → n ≤ MAX_INCLUDE_DEPTH ∧ nsteps included n root f
        ∧ (n < MAX_INCLUDE_DEPTH → ∀ g, included f g → reached g r').
Definition Grown (hosts : list SshHost) (r r' : gset Path * list SshHost) : Prop := ∃ depth, grown_by depth hosts r r'.

Lemma grown_reached hosts r r' f : Grown hosts r r' → reached f r → reached f r'.
Proof.
  intros (depth & E & _) [Hf|Hf]; [left; set_solver|right]. rewrite E. etrans; [exact Hf|]. apply subseteq_size. set_solver.
Qed.
Lemma grown_nothing (hosts l : list SshHost) (s : gset Path) : Grown hosts (s, l) (s, l ++ hosts).
Proof. exists ∅. unfold grown_by. rewrite dom_empty_L, elements_empty, app_nil_r. split_and!; [set_solver|set_solver|done|done|done]. Qed.
Lemma grown_refl r : Grown [] r r.
Proof. destruct r as [s l]. rewrite <-(app_nil_r l) at 2. apply grown_nothing. Qed.
Lemma grown_trans hosts hosts' r1 r2 r3 : Grown hosts r1 r2 → Grown hosts' r2 r3 → Grown (hosts ++ hosts') r1 r3.
Proof.
  intros H1 H2. pose proof H2 as Hlater. destruct H1 as (d1 & E1 & D1 & H1 & S1 & P1), H2 as (d2 & E2 & D2 & H2 & S2 & P2).
  exists (d1 ∪ d2). unfold grown_by. rewrite dom_union_L. rewrite E1 in D2.
  split_and!; [rewrite E2, E1; set_solver|set_solver| |auto|].
  - rewrite H2, H1, elements_disj_union by set_solver. rewrite bind_app. solve_Permutation.
  - intros f n [Hf|[_ Hf]]%lookup_union_Some_raw; [|by apply P2]. destruct (P1 f n Hf) as (? & ? & Hr). split_and!; [done|done|].
    intros Hn g Hg. eapply grown_reached; [exact Hlater|auto].
Qed.
Lemma grown_foldl {A} (say : A → list SshHost) step (l : list A) r :
  (∀ a r, a ∈ l → Grown (say a) r (step r a)) → Grown (l ≫= say) r (foldl step r l).
Proof.
  revert r. induction l as [|a l IH]; intros r Hstep; [apply grown_refl|]. cbn [foldl].
  eapply grown_trans; [apply Hstep; left|]. apply IH. intros a' r' Ha. apply Hstep. by right.
Qed.
(** What a step reaches stays reached. *)
Lemma reached_foldl {A} (say : A → list SshHost) step (l : list A) r a f :
  (∀ a r, a ∈ l → Grown (say a) r (step r a)) → a ∈ l → (∀ r, reached f (step r a)) → reached f (foldl step r l).
Proof.
  revert r. induction l as [|a' l IH]; intros r Hstep Ha Hf; [by apply elem_of_nil in Ha|]. cbn [foldl].
  apply elem_of_cons in Ha as [<-|Ha].
  - eapply grown_reached; [|apply Hf]. apply (grown_foldl say). intros a' r' Ha'. apply Hstep. by right.
  - apply IH; [|done|done]. intros a'' r' Ha''. apply Hstep. by right.
Qed.

Lemma item_grows read path text (item : Item) r :
  read_to_string path = Some text → (∀ to r, included path to → Grown [] r (read to r).2) → item ∈ parse_into text →
  Grown (match item.1 with Some h => [h] | None => [] end) r (read_item read path r item).
Proof.
  intros Htext Hread Hitem. destruct item as [[host|] include]; cbn [fst read_item].
  { destruct r as [s l]. apply grown_nothing. }
  destruct include as [pattern|]; [|apply grown_refl].
  replace [] with (expand_include path pattern ≫= λ _, [] : list SshHost) by (by induction (expand_include path pattern)).
  apply grown_foldl. intros to r' Hto. apply Hread. apply (included_spec path to text Htext). by exists pattern.
Qed.
Lemma items_grow read path text r :
  read_to_string path = Some text → (∀ to r, included path to → Grown [] r (read to r).2) →
  let r' := foldl (read_item read path) r (parse_into text) in
  Grown (hosts_of path) r r'
  ∧ ∀ to, (∀ r, reached to (read to r).2) → included path to → reached to r'.
Proof.
  intros Htext Hread. cbv zeta. split.
  - unfold hosts_of. rewrite Htext, <-parse_by_blocks.
    replace (omap fst (parse_into text)) with (parse_into text ≫= λ item : Item, match item.1 with Some h => [h] | None => [] end)
      by (clear; induction (parse_into text) as [|[[h|] i] l IH]; cbn; [done|by f_equal|done]).
    apply grown_foldl. intros item r' Hitem. by eapply item_grows.
  - intros to Hto (pattern & Hin & Hex)%(included_spec path to text Htext).
    eapply reached_foldl; [intros item r' Hitem; by eapply item_grows|exact Hin|]. intros r'. cbn [read_item].
    eapply (reached_foldl (λ _, [])); [|exact Hex|done]. intros to' r'' Hto'. apply Hread.
    apply (included_spec path to' text Htext). by exists pattern.
Qed.
(** A file is entered: it is seen, at its depth. *)
Lemma enter_grows k path r r' :
  k ≤ MAX_INCLUDE_DEPTH → nsteps included k root path → path ∉ r.1 → size r.1 < MAX_FILES →
  Grown (hosts_of path) ({[path]} ∪ r.1, r.2) r' → (k < MAX_INCLUDE_DEPTH → ∀ g, included path g → reached g r') →
  ∃ depth, grown_by depth [] r r' ∧ depth !! path = Some k.
Proof.
  intros Hk Hsteps Hseen Hroom (depth & E & D & Hh & Hs & Hall) Hclosed. cbn [fst snd] in *.
  exists (<[path := k]> depth). split; [|apply lookup_insert_eq]. unfold grown_by. rewrite dom_insert_L.
  split_and!; [set_solver|set_solver| | |].
  - rewrite Hh, elements_disj_union by set_solver. rewrite elements_singleton, bind_app. cbn [mbind list_bind app].
    by rewrite app_nil_r.
  - intros _. apply Hs. rewrite size_union by set_solver. rewrite size_singleton. lia.
  - intros f n [[<- <-]|[_ Hf]]%lookup_insert_Some; [by split_and!|by apply Hall].
Qed.
Lemma read_into_grows levels k path r :
  k + levels = S MAX_INCLUDE_DEPTH → nsteps included k root path →
  let r' := (read_into levels path r).2 in
  Grown [] r r' ∧ (levels ≠ 0 → reached path r')
  ∧ (levels ≠ 0 → path ∉ r.1 → size r.1 < MAX_FILES → ∃ depth, grown_by depth [] r r' ∧ depth !! path = Some k).
Proof.
  revert k path r. induction levels as [|levels IH]; intros k path r Hlevels Hsteps; cbv zeta; cbn [read_into].
  { split_and!; [apply grown_refl|done|done]. }
  destruct (MAX_FILES <=? size r.1) eqn:Hfull; cbn [orb].
  { apply Nat.leb_le in Hfull. split_and!; [apply grown_refl|by right|lia]. }
  apply Nat.leb_gt in Hfull. case_bool_decide as Hseen; [split_and!; [apply grown_refl|by left|done]|].
  match goal with |- Grown [] r ?r' ∧ _ => assert (∃ depth, grown_by depth [] r r' ∧ depth !! path = Some k) as Hgrown end.
  { destruct (read_to_string path) as [text|] eqn:Htext; cbn [snd]; apply enter_grows; try done; try (unfold MAX_INCLUDE_DEPTH in *; lia).
    - apply items_grow; [done|]. intros to r' Hto. by apply (IH (S k)); [lia|eapply nsteps_r].
    - intros Hk g Hg. apply items_grow; [done| | |done].
      + intros to r' Hto. by apply (IH (S k)); [lia|eapply nsteps_r].
      + intros r'. apply (IH (S k)); [lia|by eapply nsteps_r|]. unfold MAX_INCLUDE_DEPTH in *. lia.
    - unfold hosts_of. rewrite Htext. apply grown_refl.
    - intros _ g (text & ? & ? & ? & ? & Ht & _). congruence. }
  split_and!; [|intros _|done].
  - destruct Hgrown as (depth & Hgrown & _). by exists depth.
  - destruct Hgrown as (depth & (E & _) & Hpath%elem_of_dom_2). left. rewrite E. set_solver.
Qed.
End from_root.
Lemma read_into_fails levels path r : (read_into levels path r).1 = false → read_to_string path = None.
Proof. destruct levels; cbn; [done|]. destruct (_ || _); [done|]. by destruct (read_to_string path). Qed.

(** C20. The hosts offered are those of a file and of what it includes, as far as the bounds
    reach. Reading fails only when the file itself cannot be read, and ends whatever files
    include one another. Otherwise a set of files was read, each once: the file itself and at
    most 64 in all, each at a depth of at most three includes from the first; and unless there
    are 64, every file that one of them at a lesser depth includes is among them. The hosts
    offered are those the blocks of these files describe, each file's once and no others, up
    to 512; and every alias is one word that is no pattern and no negation. A file is read at
    the depth it is first met at, and an include with a wildcard in its last component names
    every file of the directory whose name starts with what is before the wildcard. *)
Theorem hosts_offered_once path :
  match load path with
  | None => read_to_string path = None
  | Some hosts =>
      ∃ (depth : gmap Path nat) all, depth !! path = Some 0 ∧ size (dom depth) ≤ MAX_FILES
        ∧ (∀ f n, depth !! f = Some n → n ≤ MAX_INCLUDE_DEPTH ∧ nsteps included n path f)
        ∧ (size (dom depth) < MAX_FILES →
           ∀ f n g, depth !! f = Some n → n < MAX_INCLUDE_DEPTH → included f g → is_Some (depth !! g))
        ∧ all ≡ₚ elements (dom depth) ≫= hosts_of ∧ hosts = take MAX_HOSTS all
        ∧ Forall (λ h, plain (alias h)) hosts
  end.
Proof.
  unfold load. destruct (read_into_grows path (S MAX_INCLUDE_DEPTH) 0 path (∅, [])) as (_ & _ & Hgrown); [done|constructor|].
  pose proof (read_into_fails (S MAX_INCLUDE_DEPTH) path (∅, [])) as Hfails.
  destruct (read_into (S MAX_INCLUDE_DEPTH) path (∅, [])) as [[] [seen hosts]]; [|by apply Hfails].
  destruct Hgrown as (depth & (Hseen & _ & Hhosts & Hsize & Hall) & Hpath); [done|set_solver|cbn [fst]; rewrite size_empty; unfold MAX_FILES; lia|].
  cbn [fst snd app] in *. rewrite (left_id_L ∅ (∪)) in Hseen. subst seen. rewrite size_empty in *.
  exists depth, hosts. split_and!; [done|apply Hsize; lia| | |done|done|].
  - intros f n (? & ? & _)%Hall. done.
  - intros Hroom f n g Hf Hn Hg. destruct (Hall f n Hf) as (_ & _ & Hreached).
    destruct (Hreached Hn g Hg) as [Hin|Hfull]; cbn [fst] in *; [by apply elem_of_dom|lia].
  - apply Forall_take. rewrite Hhosts. apply Forall_forall. intros h (f & Hh & _)%list_elem_of_bind.
    unfold hosts_of in Hh. destruct (read_to_string f) as [text|]; [|by apply elem_of_nil in Hh].
    rewrite <-parse_by_blocks in Hh. by eapply parsed_plain.
Qed.
End loading.

Module Runs.
Definition file (ls : list string) : ustr := concat ((λ l, u l ++ [10%N]) <$> ls).
Definition host_file : Path := components (u "/home/me/.ssh/config").
#[export] Instance tree : FileTree := {|
  read_to_string path :=
    if bool_decide (path = host_file)
    then Some (file ["# mine"; "Include conf.d/* config"; "HOST=build ci web-?"; "  HostName = build.example"; "  Port 2222";
                     "Match host x"; "  User root"; "Host !no *"])
    else if bool_decide (path = components (u "/home/me/.ssh/conf.d/10")) then Some (file ["Host lab"; "User me"; "Include /etc/absent"])
    else None;
  read_dir path := if bool_decide (path = components (u "/home/me/.ssh/conf.d")) then Some [(u "20", true); (u "10", true); (u "old", false)] else None;
  home := Some (u "/home/me") |}.

Lemma hosts_offered_runs :
  default_path home = Some host_file
  ∧ summary <$> default [] (load host_file) = [u "lab"; u "build  build.example:2222"; u "ci  build.example:2222"]
  ∧ load (components (u "/etc/absent")) = None.
Proof. vm_compute. done. Qed.
(** Of an option given twice the last value is kept, where ssh takes the first. *)
Lemma last_value_kept :
  summary <$> omap fst (parse_into (file ["Host a"; "HostName one"; "HostName two"])) = [u "a  two"].
Proof. vm_compute. done. Qed.
(** What follows the first wildcard of a pattern is not compared. *)
Lemma glob_suffix_ignored :
  expand_include host_file (u "conf.d/*.conf") = components <$> [u "/home/me/.ssh/conf.d/10"; u "/home/me/.ssh/conf.d/20"].
Proof. vm_compute. done. Qed.
(** A file that is first met at the last depth is not met again: [deep] is two includes from
    the first file, and what it includes is not read. *)
#[local] Instance chain : FileTree := {|
  read_to_string path :=
    if bool_decide (path = components (u "/c")) then Some (file ["Include /a /z"])
    else if bool_decide (path = components (u "/a")) then Some (file ["Include /b"])
    else if bool_decide (path = components (u "/b")) then Some (file ["Include /z"])
    else if bool_decide (path = components (u "/z")) then Some (file ["Include /y"])
    else if bool_decide (path = components (u "/y")) then Some (file ["Host lost"]) else None;
  read_dir _ := None; home := None |}.
Lemma nearer_include_lost :
  load (H := chain) (components (u "/c")) = Some [] ∧ load (H := chain) (components (u "/z")) = Some [new_host (u "lost")].
Proof. vm_compute. done. Qed.
End Runs.
