(* ===== verification/TuiInput.v ===== *)
(** What the frontend makes of the bytes its terminal sends, and of the mouse it passes
    on: [InputDecoder], [MouseInput] and [encode_mouse_event] of [src/src/tui.rs].

    The moment a byte arrives is an argument. The mouse modes are the ones of the vt100
    crate's screens.

    The decoder holds a bounded amount, accounts for every byte that arrives, and delivers
    a bracketed paste and a mouse report whole. *)

From S2P Require Import Prelude Text Protocol.

Definition ESC : N := 27.
Definition BRACKETED_PASTE_START : bytes := ESC :: u "[200~".
Definition BRACKETED_PASTE_END : bytes := ESC :: u "[201~".
Definition MAX_CLIPBOARD_BYTES : nat := 1024 * 1024.
Definition INPUT_ESCAPE_TIMEOUT : N := 30.
Definition MAX_PENDING : nat := 64.

(** ** The mouse *)

(** Fields of 16 bits. *)
Record MouseInput := { mi_code : N; mi_column : N; mi_row : N; mi_release : bool }.
#[export] Instance MouseInput_eq_dec : EqDecision MouseInput.
Proof. solve_decision. Defined.

Definition masked (m : MouseInput) (mask : N) : N := N.land (mi_code m) mask.
Definition is_left_press (m : MouseInput) : bool := negb (mi_release m) && (masked m 99 =? 0)%N.
Definition is_left_motion (m : MouseInput) : bool := negb (mi_release m) && (masked m 99 =? 32)%N.
Definition is_left_release (m : MouseInput) : bool := mi_release m && (masked m 99 =? 0)%N.
Definition is_right_press (m : MouseInput) : bool := negb (mi_release m) && (masked m 99 =? 2)%N.
Definition is_motion (m : MouseInput) : bool := negb (masked m 32 =? 0)%N.
Definition is_vertical_wheel (m : MouseInput) : bool :=
  negb (mi_release m) && negb (masked m 64 =? 0)%N && (masked m 3 <=? 1)%N.
Definition scroll_direction (m : MouseInput) : option TerminalScrollDirection :=
  if negb (is_vertical_wheel m) then None
  else if (masked m 3 =? 0)%N then Some ScrollUp else if (masked m 3 =? 1)%N then Some ScrollDown else None.
(** The modifiers crossterm knows, and the bits it gives to a set of them. *)
Inductive KeyModifier := SHIFT | ALT | CONTROL.
Definition key_modifiers (bits : list KeyModifier → N) (m : MouseInput) : N :=
  bits ((if masked m 4 =? 0 then [] else [SHIFT]) ++ (if masked m 8 =? 0 then [] else [ALT])
        ++ (if masked m 16 =? 0 then [] else [CONTROL]))%N.
Definition shift (m : MouseInput) : bool := negb (masked m 4 =? 0)%N.

Inductive MouseProtocolMode := ModeNone | ModePress | ModePressRelease | ModeButtonMotion | ModeAnyMotion.
Inductive MouseProtocolEncoding := EncodingDefault | EncodingUtf8 | EncodingSgr.

Definition mouse_passthrough_enabled (mode : MouseProtocolMode) (writable : bool) : bool :=
  writable && match mode with ModeNone => false | _ => true end.
Definition mouse_event_allowed (mode : MouseProtocolMode) (m : MouseInput) : bool :=
  match mode with
  | ModeNone => false
  | ModePress => negb (mi_release m) && negb (is_motion m)
  | ModePressRelease => negb (is_motion m)
  | ModeButtonMotion => negb (is_motion m) || negb (masked m 3 =? 3)%N
  | ModeAnyMotion => true
  end.

(** The buttons of a release are all up. *)
Definition legacy_code (m : MouseInput) : N :=
  if mi_release m then N.lor (N.ldiff (mi_code m) 3) 3 else mi_code m.
Definition u16_checked_add (a b : N) : option N := if (a + b <=? u16_max)%N then Some (a + b)%N else None.
Definition legacy_byte (value : N) : option N :=
  shifted ← u16_checked_add value 32; if (shifted <=? 255)%N then Some shifted else None.
Definition legacy_char (value : N) : option bytes :=
  shifted ← u16_checked_add value 32; if is_scalar shifted then Some (utf8_char shifted) else None.
Definition sgr_bytes (m : MouseInput) : bytes :=
  (ESC :: u "[<") ++ display_N (mi_code m) ++ u ";" ++ display_N (mi_column m) ++ u ";" ++ display_N (mi_row m)
  ++ (if mi_release m then u "m" else u "M").
Definition encode_mouse_event (m : MouseInput) (encoding : MouseProtocolEncoding) : option bytes :=
  match encoding with
  | EncodingSgr => Some (sgr_bytes m)
  | EncodingDefault =>
      code ← legacy_byte (legacy_code m);
      column ← legacy_byte (mi_column m);
      row ← legacy_byte (mi_row m);
      Some ((ESC :: u "[M") ++ [code; column; row])
  | EncodingUtf8 =>
      code ← legacy_char (legacy_code m);
      column ← legacy_char (mi_column m);
      row ← legacy_char (mi_row m);
      Some ((ESC :: u "[M") ++ code ++ column ++ row)
  end.

Definition parse_sgr_mouse (input : bytes) : option MouseInput :=
  body ← strip_prefix (ESC :: u "[<") input;
  terminator ← last body;
  if negb (bool_decide (terminator ∈ [77; 109]%N)) then None
  else
    body ← from_utf8 (take (pred (length body)) body);
    match parse_unsigned u16_max <$> split_on 59 body with
    | [Some code; Some column; Some row] =>
        if (column =? 0)%N || (row =? 0)%N then None
        else Some {| mi_code := code; mi_column := column; mi_row := row; mi_release := (terminator =? 109)%N |}
    | _ => None
    end.

(** ** The decoder *)

Inductive DecodedInput := InputBytes (b : bytes) | InputMouse (m : MouseInput) | InputPaste (b : bytes) | InputPasteTooLarge.

Record PasteBuffer := { pb_bytes : bytes; pb_overflow_tail : bytes; pb_overflowed : bool }.
Definition PasteBuffer_default : PasteBuffer := {| pb_bytes := []; pb_overflow_tail := []; pb_overflowed := false |}.
Record InputDecoder := { dc_pending : bytes; dc_since : option N; dc_paste : option PasteBuffer }.
Definition InputDecoder_default : InputDecoder := {| dc_pending := []; dc_since := None; dc_paste := None |}.

Definition paste_push (paste : PasteBuffer) (byte : N) : option PasteBuffer * option DecodedInput :=
  if pb_overflowed paste then
    let tail := pb_overflow_tail paste ++ [byte] in
    let tail := if length BRACKETED_PASTE_END <? length tail then drop 1 tail else tail in
    if bool_decide (tail = BRACKETED_PASTE_END) then (None, Some InputPasteTooLarge)
    else (Some {| pb_bytes := pb_bytes paste; pb_overflow_tail := tail; pb_overflowed := true |}, None)
  else
    let held := pb_bytes paste ++ [byte] in
    if has_suffix BRACKETED_PASTE_END held then
      let content := take (length held - length BRACKETED_PASTE_END) held in
      (None, Some (if length content <=? MAX_CLIPBOARD_BYTES then InputPaste content else InputPasteTooLarge))
    else if MAX_CLIPBOARD_BYTES + length BRACKETED_PASTE_END <? length held then
      (Some {| pb_bytes := []; pb_overflow_tail := keep_last (length BRACKETED_PASTE_END) held;
               pb_overflowed := true |}, None)
    else (Some {| pb_bytes := held; pb_overflow_tail := pb_overflow_tail paste; pb_overflowed := false |}, None).

Definition flush_bytes (d : InputDecoder) : InputDecoder * DecodedInput :=
  ({| dc_pending := []; dc_since := None; dc_paste := dc_paste d |}, InputBytes (dc_pending d)).
Definition waits (pending : bytes) (since : option N) : InputDecoder :=
  {| dc_pending := pending; dc_since := since; dc_paste := None |}.
Definition is_mouse_prefix (pending : bytes) : bool :=
  bool_decide (pending = [ESC]) || bool_decide (pending = ESC :: u "[") || has_prefix (ESC :: u "[<") pending.
Definition mouse_byte (byte : N) : bool := is_ascii_digit byte || contains byte (u ";<[") || (byte =? ESC)%N.

(** A byte after an escape, with [pending] everything since. *)
Definition pending_push (pending : bytes) (byte : N) (since : option N) : InputDecoder * option DecodedInput :=
  if has_prefix pending BRACKETED_PASTE_START then
    if bool_decide (pending = BRACKETED_PASTE_START)
    then ({| dc_pending := []; dc_since := None; dc_paste := Some PasteBuffer_default |}, None)
    else (waits pending since, None)
  else if negb (is_mouse_prefix pending) || (MAX_PENDING <? length pending)
  then (InputDecoder_default, Some (InputBytes pending))
  else if bool_decide (byte ∈ [77; 109]%N) then
    (InputDecoder_default, Some match parse_sgr_mouse pending with Some m => InputMouse m | None => InputBytes pending end)
  else if negb (mouse_byte byte) then (InputDecoder_default, Some (InputBytes pending))
  else (waits pending since, None).

Definition push (now : N) (byte : N) (d : InputDecoder) : InputDecoder * option DecodedInput :=
  match dc_paste d with
  | Some paste =>
      let '(paste, decoded) := paste_push paste byte in
      ({| dc_pending := dc_pending d; dc_since := dc_since d; dc_paste := paste |}, decoded)
  | None =>
      match dc_pending d with
      | [] => if (byte =? ESC)%N then (waits [byte] (Some now), None) else (d, Some (InputBytes [byte]))
      | pending => pending_push (pending ++ [byte]) byte (dc_since d)
      end
  end.
Definition flush_expired (now : N) (d : InputDecoder) : InputDecoder * option DecodedInput :=
  match dc_since d with
  | Some started =>
      if (INPUT_ESCAPE_TIMEOUT <=? now - started)%N then let '(d, decoded) := flush_bytes d in (d, Some decoded)
      else (d, None)
  | None => (d, None)
  end.

(** Bytes as they arrive, and the ticks between them. *)
Inductive Arriving := Byte (b : N) (now : N) | Tick (now : N).
Definition decode_step (w : InputDecoder * list DecodedInput) (a : Arriving) : InputDecoder * list DecodedInput :=
  let '(d, decoded) := match a with Byte b now => push now b w.1 | Tick now => flush_expired now w.1 end in
  (d, w.2 ++ option_list decoded).
Definition decode (arriving : list Arriving) : InputDecoder * list DecodedInput :=
  foldl decode_step (InputDecoder_default, []) arriving.

(** ** What is pasted into a terminal *)

Fixpoint has_window (window text : bytes) : bool :=
  has_prefix window text || match text with [] => false | _ :: text' => has_window window text' end.
Definition terminal_paste_payload (text : bytes) (bracketed : bool) : result ustr bytes :=
  if has_window BRACKETED_PASTE_END text then Err (u "clipboard text contains a bracketed-paste terminator")
  else if negb bracketed then Ok text
  else Ok (BRACKETED_PASTE_START ++ text ++ BRACKETED_PASTE_END).

#[local] Opaque MAX_CLIPBOARD_BYTES.

(** ** What is read off the wire for each thing decoded *)

(** No terminator inside. *)
Definition no_end (text : bytes) : Prop := ∀ a b, text ≠ a ++ BRACKETED_PASTE_END ++ b.
Definition renders (decoded : DecodedInput) (wire : bytes) : Prop :=
  match decoded with
  | InputBytes b => wire = b
  | InputMouse m => parse_sgr_mouse wire = Some m
  | InputPaste b =>
      wire = BRACKETED_PASTE_START ++ b ++ BRACKETED_PASTE_END ∧ no_end b ∧ length b ≤ MAX_CLIPBOARD_BYTES
  | InputPasteTooLarge =>
      ∃ b, wire = BRACKETED_PASTE_START ++ b ++ BRACKETED_PASTE_END ∧ no_end b ∧ MAX_CLIPBOARD_BYTES < length b
  end.
Definition paste_holds (paste : PasteBuffer) (content : bytes) : Prop :=
  no_end content
  ∧ if pb_overflowed paste
    then pb_overflow_tail paste = keep_last (length BRACKETED_PASTE_END) content
         ∧ MAX_CLIPBOARD_BYTES + length BRACKETED_PASTE_END < length content ∧ pb_bytes paste = []
    else pb_bytes paste = content ∧ length content ≤ MAX_CLIPBOARD_BYTES + length BRACKETED_PASTE_END.
(** What a decoder has read and not given yet. *)
Definition holds (d : InputDecoder) (wire : bytes) : Prop :=
  match dc_paste d with
  | Some paste => dc_pending d = [] ∧ dc_since d = None
                  ∧ ∃ content, wire = BRACKETED_PASTE_START ++ content ∧ paste_holds paste content
  | None => wire = dc_pending d ∧ length wire ≤ MAX_PENDING ∧ (is_Some (dc_since d) ↔ wire ≠ [])
  end.

(** ** Bytes *)

Lemma keep_last_exact n (a b : bytes) : length b = n → keep_last n (a ++ b) = b.
Proof. intros <-. unfold keep_last. rewrite length_app, drop_app_length'; [done|lia]. Qed.
Lemma has_suffix_true (p s : bytes) : has_suffix p s = true ↔ ∃ a, s = a ++ p.
Proof.
  unfold has_suffix, strip_suffix. rewrite bool_decide_eq_true, fmap_is_Some. split.
  - intros [r Hr]. apply strip_prefix_Some in Hr. exists (reverse r).
    rewrite <-(reverse_involutive s), Hr, reverse_app, reverse_involutive. done.
  - intros [a ->]. exists (reverse a). apply strip_prefix_Some. apply reverse_app.
Qed.
Lemma has_prefix_true (p s : bytes) : has_prefix p s = true ↔ ∃ a, s = p ++ a.
Proof.
  unfold has_prefix. rewrite bool_decide_eq_true. split; intros [r Hr]; exists r; by apply strip_prefix_Some.
Qed.
Lemma keep_last_snoc n (s : bytes) c : n < length s → keep_last (S n) (s ++ [c]) = drop 1 (keep_last (S n) s ++ [c]).
Proof.
  intros. unfold keep_last. rewrite length_app, <-drop_app_le, drop_drop by lia. simpl. f_equal. lia.
Qed.

Lemma no_end_nil : no_end [].
Proof. intros a b H%symmetry%app_nil. destruct H as [_ [=]]. Qed.
Lemma no_end_prefix s t : no_end (s ++ t) → no_end s.
Proof. intros H a b ->. apply (H a (b ++ t)). by rewrite <-!app_assoc. Qed.
Lemma no_end_snoc s c : no_end s → ¬ (∃ a, s ++ [c] = a ++ BRACKETED_PASTE_END) → no_end (s ++ [c]).
Proof.
  intros Hs Hend a b Heq. destruct b as [|x b] using rev_ind.
  - apply Hend. exists a. by rewrite Heq, app_nil_r.
  - rewrite !app_assoc in Heq. apply app_inj_tail in Heq as [-> _].
    apply (Hs a b). by rewrite <-app_assoc.
Qed.
Lemma ends_split s c a : s ++ [c] = a ++ BRACKETED_PASTE_END → no_end s → no_end a ∧ length s = 5 + length a.
Proof.
  change BRACKETED_PASTE_END with ((ESC :: u "[201") ++ [126%N]). rewrite app_assoc.
  intros [-> _]%app_inj_tail Hs. split; [by eapply no_end_prefix|].
  rewrite length_app. simpl. lia.
Qed.

(** ** A paste in progress *)

Lemma paste_push_holds paste byte content :
  paste_holds paste content →
  match paste_push paste byte with
  | (Some paste, None) => paste_holds paste (content ++ [byte])
  | (None, Some decoded) => renders decoded (BRACKETED_PASTE_START ++ content ++ [byte])
  | _ => False
  end.
Proof.
  unfold paste_holds, paste_push. change (length BRACKETED_PASTE_END) with 6.
  intros [Hno Hheld]. destruct (pb_overflowed paste).
  - destruct Hheld as (-> & Hlong & ->).
    assert (length (keep_last 6 content) = 6) as Hlen by (rewrite length_keep_last; lia).
    rewrite length_app, Hlen. cbn [length Nat.add Nat.ltb Nat.leb].
    rewrite <-keep_last_snoc by lia.
    case_bool_decide as Hend.
    + assert (content ++ [byte] = take (length content - 5) content ++ BRACKETED_PASTE_END) as Hs.
      { rewrite <-Hend at 1. unfold keep_last. rewrite length_app. simpl.
        rewrite drop_app_le by lia. replace (length content + 1 - 6) with (length content - 5) by lia.
        by rewrite app_assoc, take_drop. }
      destruct (ends_split _ _ _ Hs Hno) as [Ha Hl]. eexists. split; [by rewrite Hs|]. split; [done|]. lia.
    + split; [|split_and!; [done|rewrite length_app; simpl; lia|done]].
      apply no_end_snoc; [done|]. intros [a Ha]. apply Hend. rewrite Ha. by apply keep_last_exact.
  - destruct Hheld as [-> Hshort].
    destruct (has_suffix BRACKETED_PASTE_END (content ++ [byte])) eqn:Hend.
    + apply has_suffix_true in Hend as [a Ha]. destruct (ends_split _ _ _ Ha Hno) as [Hno' Hl].
      rewrite Ha, length_app. change (length BRACKETED_PASTE_END) with 6.
      replace (length a + 6 - 6) with (length a) by lia. rewrite take_app_length.
      destruct (length a <=? MAX_CLIPBOARD_BYTES) eqn:Hfit; [apply Nat.leb_le in Hfit|apply Nat.leb_gt in Hfit]; simpl; eauto.
    + assert (no_end (content ++ [byte])) as Hno'.
      { apply no_end_snoc; [done|]. rewrite <-has_suffix_true, Hend. done. }
      destruct (MAX_CLIPBOARD_BYTES + 6 <? length (content ++ [byte])) eqn:Hover;
        [apply Nat.ltb_lt in Hover|apply Nat.ltb_ge in Hover]; done.
Qed.

(** ** A byte, a tick *)

(** Either more is held, or everything held comes out at once. *)
Definition consumes (wire : bytes) (r : InputDecoder * option DecodedInput) : Prop :=
  match r.2 with
  | None => holds r.1 wire
  | Some decoded => renders decoded wire ∧ holds r.1 []
  end.
Lemma holds_default : holds InputDecoder_default [].
Proof. unfold holds. simpl. split_and!; [done|apply Nat.le_0_l|]. by rewrite is_Some_alt. Qed.
Lemma holds_waits wire now : wire ≠ [] → length wire ≤ MAX_PENDING → holds (waits wire (Some now)) wire.
Proof. intros. unfold holds. simpl. split_and!; [done..|]. split; [done|eauto]. Qed.
#[local] Hint Resolve holds_default : core.

Lemma pending_push_consumes pending byte now :
  pending ≠ [] → length pending ≤ MAX_PENDING →
  consumes (pending ++ [byte]) (pending_push (pending ++ [byte]) byte (Some now)).
Proof.
  intros Hne Hlen. assert (pending ++ [byte] ≠ []) as Hne' by (by destruct pending).
  unfold pending_push, consumes. destruct (has_prefix _ _) eqn:Hprefix.
  - apply has_prefix_true in Hprefix as [rest Hrest]. case_bool_decide as Hfull.
    + split_and!; [done..|]. exists []. rewrite Hfull. split; [done|]. split; [apply no_end_nil|]. split; [done|apply Nat.le_0_l].
    + apply holds_waits; [done|]. apply (f_equal length) in Hrest. revert Hrest. rewrite length_app.
      change (length BRACKETED_PASTE_START) with 6. unfold MAX_PENDING. lia.
  - destruct (negb _ || _) eqn:Hflush; [by split|].
    apply orb_false_iff in Hflush as [_ Hfits%Nat.ltb_ge].
    case_bool_decide as Hterm; [destruct (parse_sgr_mouse _) eqn:Hmouse; by split|].
    destruct (negb (mouse_byte byte)); [by split|by apply holds_waits].
Qed.

Lemma push_consumes now byte d wire : holds d wire → consumes (wire ++ [byte]) (push now byte d).
Proof.
  unfold holds at 1, push. destruct (dc_paste d) as [paste|] eqn:Hpaste.
  - intros (Hp & Hs & content & -> & Hheld). pose proof (paste_push_holds _ byte _ Hheld) as Hnext.
    destruct (paste_push paste byte) as [[paste'|] [decoded|]]; try done; unfold consumes, holds;
      cbn [fst snd dc_paste dc_pending dc_since].
    + split_and!; [done..|]. exists (content ++ [byte]). by rewrite <-app_assoc.
    + rewrite <-app_assoc. split; [done|]. rewrite Hp, Hs. split_and!; [done|apply Nat.le_0_l|by rewrite is_Some_alt].
  - destruct d as [pending since paste]. simpl in Hpaste |- *. subst paste. intros (-> & Hlen & Hsince).
    destruct pending as [|p pending].
    + destruct (byte =? ESC)%N eqn:Hesc; [|by split].
      apply N.eqb_eq in Hesc as ->. apply holds_waits; [done|]. apply le_n_S, Nat.le_0_l.
    + destruct Hsince as [_ [now' ->]]; [done|]. by apply (pending_push_consumes (p :: pending)).
Qed.

Lemma flush_consumes now d wire : holds d wire → consumes wire (flush_expired now d).
Proof.
  unfold flush_expired, consumes. destruct (dc_since d) as [started|] eqn:Hs; [|done].
  destruct (_ <=? _)%N; [|done]. unfold holds. destruct (dc_paste d) eqn:Hpaste.
  { by intros (_ & Hnone & _); simplify_eq. }
  intros (-> & _). split; [done|]. unfold flush_bytes. rewrite Hpaste. apply holds_default.
Qed.

(** ** A whole input *)

Definition arrived (a : Arriving) : bytes := match a with Byte b _ => [b] | Tick _ => [] end.

(** C17. Whatever bytes arrive and whenever the clock ticks between them, nothing is lost,
    duplicated or put in another order: the input cuts into the consecutive pieces that the
    decoded items render, and what the decoder still holds. A piece of bytes is those bytes,
    a mouse event is a report that parses to it, a paste is its text between the two
    brackets with no terminator inside, and a paste is called too large exactly when more
    than a mebibyte stood between them. *)
Theorem every_byte_accounted arriving :
  let '(d, decoded) := decode arriving in
  ∃ pieces rest, arriving ≫= arrived = concat pieces ++ rest ∧ Forall2 renders decoded pieces ∧ holds d rest.
Proof.
  unfold decode. induction arriving as [|a arriving IH] using rev_ind; [by exists [], []; auto|].
  rewrite foldl_app. unfold foldl at 1. unfold decode_step at 1. destruct (foldl _ _ _) as [d decoded] eqn:Hfold.
  destruct IH as (pieces & rest & Hwire & Hpieces & Hheld). rewrite bind_app, Hwire. cbn [fst snd mbind list_bind].
  assert (consumes (rest ++ arrived a) (match a with Byte b now => push now b d | Tick now => flush_expired now d end)) as Hnext.
  { destruct a; simpl; [by apply push_consumes|]. rewrite app_nil_r. by apply flush_consumes. }
  destruct (match a with Byte _ _ => _ | Tick _ => _ end) as [d' [x|]]; unfold consumes in Hnext; simpl in *.
  - destruct Hnext as [Hx Hd']. exists (pieces ++ [rest ++ arrived a]), []. split_and!; [|apply Forall2_app; [done|by constructor]|done].
    rewrite concat_app. simpl. by rewrite !app_nil_r, <-app_assoc.
  - exists pieces, (rest ++ arrived a). rewrite !app_nil_r. by rewrite <-app_assoc.
Qed.

(** ** A paste, from its text to the frontend *)

Lemma has_window_true p s : p ≠ [] → has_window p s = true ↔ ∃ a b, s = a ++ p ++ b.
Proof.
  intros Hp. split.
  - induction s as [|c s IH]; simpl; intros [[r ->]%has_prefix_true|H]%orb_true_iff; try done; [by exists [], r..|].
    destruct (IH H) as (a & b & ->). by exists (c :: a), b.
  - intros (a & b & ->). induction a as [|c a IH]; simpl.
    + destruct (p ++ b) eqn:E; simpl; rewrite <-?E; apply orb_true_iff; left; apply has_prefix_true;
        exists b; by rewrite ?E.
    + apply orb_true_iff. by right.
Qed.
Lemma no_end_snoc_ne s c : no_end s → c ≠ 126%N → no_end (s ++ [c]).
Proof.
  intros Hs Hc. apply no_end_snoc; [done|]. intros [a Ha].
  change BRACKETED_PASTE_END with ((ESC :: u "[201") ++ [126%N]) in Ha. rewrite app_assoc in Ha.
  by apply app_inj_tail in Ha as [_ ?].
Qed.

Definition typed (now : N) (wire : bytes) : list Arriving := (λ b, Byte b now) <$> wire.
Definition in_paste (content : bytes) : InputDecoder :=
  {| dc_pending := []; dc_since := None;
     dc_paste := Some {| pb_bytes := content; pb_overflow_tail := []; pb_overflowed := false |} |}.

Lemma typed_app now a b : typed now (a ++ b) = typed now a ++ typed now b.
Proof. apply fmap_app. Qed.
Lemma typed_one now c w : foldl decode_step w (typed now [c]) = decode_step w (Byte c now).
Proof. done. Qed.
Lemma decode_out d out arriving :
  foldl decode_step (d, out) arriving
  = let '(d, decoded) := foldl decode_step (d, []) arriving in (d, out ++ decoded).
Proof.
  revert d out. induction arriving as [|a arriving IH]; intros; simpl; [by rewrite app_nil_r|].
  unfold decode_step at 2 4. cbn [fst snd]. destruct (match a with Byte _ _ => _ | Tick _ => _ end) as [d' decoded].
  rewrite IH, (IH d' (_ ++ _)). destruct (foldl decode_step (d', []) arriving). by rewrite app_assoc.
Qed.
Lemma paste_opened now out :
  foldl decode_step (InputDecoder_default, out) (typed now BRACKETED_PASTE_START) = (in_paste [], out).
Proof.
  rewrite decode_out. change (foldl decode_step (InputDecoder_default, []) _) with (in_paste [], @nil DecodedInput).
  cbv iota. by rewrite app_nil_r.
Qed.
Lemma paste_fills now content out :
  no_end content → length content ≤ MAX_CLIPBOARD_BYTES + 6 →
  foldl decode_step (in_paste [], out) (typed now content) = (in_paste content, out).
Proof.
  induction content as [|c content IH] using rev_ind; intros Hno Hlen; [done|].
  rewrite typed_app, foldl_app, IH; [|by eapply no_end_prefix|rewrite length_app in Hlen; simpl in Hlen; lia].
  rewrite typed_one. unfold decode_step, push, in_paste, paste_push.
  cbn [fmap list_fmap fst snd dc_paste pb_overflowed pb_bytes].
  destruct (has_suffix _ _) eqn:Hend.
  { apply has_suffix_true in Hend as [a Ha]. destruct (Hno a []). by rewrite Ha, app_nil_r. }
  change (length BRACKETED_PASTE_END) with 6. destruct (Nat.ltb_spec (MAX_CLIPBOARD_BYTES + 6) (length (content ++ [c]))); [lia|].
  simpl. by rewrite app_nil_r.
Qed.
Lemma paste_closes now text out :
  no_end text → length text ≤ MAX_CLIPBOARD_BYTES →
  foldl decode_step (in_paste [], out) (typed now (text ++ BRACKETED_PASTE_END))
  = (InputDecoder_default, out ++ [InputPaste text]).
Proof.
  intros Hno Hlen. change BRACKETED_PASTE_END with ((ESC :: u "[201") ++ [126%N]). rewrite app_assoc.
  rewrite typed_app, foldl_app, paste_fills.
  - rewrite typed_one. unfold decode_step, push, in_paste, paste_push. cbn [fmap list_fmap fst snd dc_paste pb_overflowed pb_bytes].
    rewrite <-app_assoc. change ((ESC :: u "[201") ++ [126%N]) with BRACKETED_PASTE_END.
    rewrite (proj2 (has_suffix_true _ _)) by eauto. rewrite length_app, Nat.add_sub, take_app_length.
    by rewrite (proj2 (Nat.leb_le _ _)).
  - change (ESC :: u "[201") with ([ESC] ++ [91; 50; 48] ++ [49])%N.
    change [91; 50; 48]%N with ([91] ++ [50] ++ [48])%N. rewrite !app_assoc.
    by repeat apply no_end_snoc_ne.
  - rewrite length_app. simpl. lia.
Qed.

(** What the frontend pastes into a terminal that asked for bracketed paste, the same
    decoder reads back as one paste with the same text: for every text of at most a
    mebibyte with no terminator inside, and no text with one is ever wrapped. *)
Theorem paste_roundtrip now text payload :
  terminal_paste_payload text true = Ok payload → length text ≤ MAX_CLIPBOARD_BYTES →
  decode (typed now payload) = (InputDecoder_default, [InputPaste text]).
Proof.
  unfold terminal_paste_payload. destruct (has_window _ _) eqn:Hwindow; [done|]. intros <-%Ok_inj Hlen.
  unfold decode. rewrite typed_app, foldl_app, paste_opened. apply paste_closes; [|done].
  intros a b ->. apply not_true_iff_false in Hwindow. apply Hwindow, has_window_true; [done|eauto].
Qed.

(** ** A mouse report *)

Lemma length_decimal_digits fuel n acc : length (decimal_digits fuel n acc) ≤ fuel + length acc.
Proof.
  revert n acc. induction fuel as [|fuel IH]; intros; simpl; [lia|]. destruct (_ <? _)%N; simpl; [lia|].
  etrans; [apply IH|]. simpl. lia.
Qed.
Lemma length_display_u16 n : (n ≤ u16_max)%N → length (display_N n) ≤ 16.
Proof.
  intros Hn. unfold display_N. etrans; [apply length_decimal_digits|]. simpl.
  apply N.log2_le_mono in Hn. change (N.log2 u16_max) with 15%N in Hn. lia.
Qed.
Lemma display_N_digits n : Forall (λ c, 48 ≤ c ≤ 57)%N (display_N n).
Proof. apply display_N_value. Qed.

(** What the fields of a report are written with. *)
Definition report_char (c : N) : Prop := (48 ≤ c ≤ 57)%N ∨ c = 59%N.
Definition fields (m : MouseInput) : bytes :=
  display_N (mi_code m) ++ u ";" ++ display_N (mi_column m) ++ u ";" ++ display_N (mi_row m).
Definition u16_fields (m : MouseInput) : Prop :=
  (mi_code m ≤ u16_max ∧ 0 < mi_column m ≤ u16_max ∧ 0 < mi_row m ≤ u16_max)%N.
Definition terminator (m : MouseInput) : N := if mi_release m then 109 else 77.

Lemma sgr_bytes_fields m : sgr_bytes m = (ESC :: u "[<") ++ fields m ++ [terminator m].
Proof. unfold sgr_bytes, fields, terminator. rewrite <-!app_assoc. by destruct (mi_release m). Qed.
Lemma fields_chars m : Forall report_char (fields m).
Proof.
  assert (∀ n, Forall report_char (display_N n)) as Hd.
  { intros n. eapply Forall_impl; [apply display_N_digits|]. by left. }
  unfold fields. repeat (apply Forall_app_2; [first [apply Hd|by repeat constructor; right]|]). apply Hd.
Qed.
Lemma length_fields m : u16_fields m → length (fields m) ≤ 50.
Proof.
  intros (Hc & [_ Hx] & [_ Hy]). apply length_display_u16 in Hc, Hx, Hy. unfold fields. rewrite !length_app. simpl. lia.
Qed.

Lemma parse_sgr_bytes m : u16_fields m → parse_sgr_mouse (sgr_bytes m) = Some m.
Proof.
  intros (Hc & [Hx0 Hx] & [Hy0 Hy]). unfold parse_sgr_mouse. rewrite sgr_bytes_fields.
  rewrite (proj2 (strip_prefix_Some _ _ _)) by done. cbn [mbind option_bind]. rewrite last_snoc. cbn [mbind option_bind].
  rewrite length_app, Nat.add_1_r. cbn [pred]. rewrite take_app_length.
  rewrite from_utf8_ascii by (eapply Forall_impl; [apply fields_chars|]; intros c [?| ->]; lia).
  cbn [mbind option_bind].
  assert (∀ n, 59%N ∉ display_N n) as Hsemi.
  { intros n Hin. pose proof (proj1 (Forall_forall _ _) (display_N_digits n) _ Hin). simpl in *. lia. }
  assert (split_on 59 (fields m) = [display_N (mi_code m); display_N (mi_column m); display_N (mi_row m)]) as ->.
  { unfold fields. change (u ";") with [59%N]. cbn [app]. by rewrite !split_on_cons, split_on_none by done. }
  cbn [fmap list_fmap]. rewrite !parse_display by done.
  destruct (N.eqb_spec (mi_column m) 0); [lia|]. destruct (N.eqb_spec (mi_row m) 0); [lia|].
  destruct m as [code column row []]; done.
Qed.

Lemma report_prefix s : is_mouse_prefix (ESC :: 91%N :: 60%N :: s) = true.
Proof. apply orb_true_iff. right. apply has_prefix_true. by exists s. Qed.
Lemma report_step now out s c :
  report_char c → length s ≤ 60 →
  decode_step (waits ((ESC :: u "[<") ++ s) (Some now), out) (Byte c now)
  = (waits ((ESC :: u "[<") ++ s ++ [c]) (Some now), out).
Proof.
  intros Hc Hlen. unfold decode_step, push, waits. cbn [fst snd dc_paste dc_pending dc_since app].
  unfold pending_push.
  assert (mouse_byte c = true ∧ c ≠ 77 ∧ c ≠ 109)%N as (Hm & H77 & H109).
  { unfold mouse_byte, is_ascii_digit. destruct Hc as [[? ?]| ->]; [|done]. split; [|lia].
    by rewrite (proj2 (N.leb_le 48 c)), (proj2 (N.leb_le c 57)). }
  rewrite Hm, (bool_decide_eq_false_2 (c ∈ [77; 109]%N)) by set_solver.
  assert (length (ESC :: 91%N :: 60%N :: s ++ [c]) ≤ MAX_PENDING) as Hfits
    by (cbn [length]; rewrite length_app; cbn [length]; unfold MAX_PENDING; lia).
  change (ESC :: (u "[<" ++ s) ++ [c]) with (ESC :: 91%N :: 60%N :: s ++ [c]).
  destruct (Nat.ltb_spec MAX_PENDING (length (ESC :: 91%N :: 60%N :: s ++ [c]))); [lia|].
  assert (has_prefix (ESC :: 91%N :: 60%N :: s ++ [c]) BRACKETED_PASTE_START = false) as Hp by done.
  assert (is_mouse_prefix (ESC :: 91%N :: 60%N :: s ++ [c]) = true) as Hi
    by apply report_prefix.
  rewrite Hp, Hi. cbn [negb orb option_list]. by rewrite app_nil_r.
Qed.
Lemma report_run now out s :
  Forall report_char s → length s ≤ 60 →
  foldl decode_step (waits (ESC :: u "[<") (Some now), out) (typed now s)
  = (waits ((ESC :: u "[<") ++ s) (Some now), out).
Proof.
  induction s as [|c s IH] using rev_ind; intros Hs Hlen; [done|].
  apply Forall_app in Hs as [Hs [Hc _]%Forall_cons]. rewrite length_app in Hlen. simpl in Hlen.
  rewrite typed_app, foldl_app, IH, typed_one; [apply report_step; [done|lia]|done|lia].
Qed.

(** A mouse event the frontend passes to a terminal that asked for SGR reports is read
    back by the same decoder as the same event, whatever its button, its modifiers, its
    cell and whether it is a release: nothing of it reaches anybody as typed bytes. *)
Theorem mouse_roundtrip now m wire :
  u16_fields m → encode_mouse_event m EncodingSgr = Some wire →
  decode (typed now wire) = (InputDecoder_default, [InputMouse m]).
Proof.
  intros Hm [= <-]. pose proof (parse_sgr_bytes m Hm) as Hparse. rewrite sgr_bytes_fields in *.
  unfold decode. rewrite !typed_app, !foldl_app.
  assert (foldl decode_step (InputDecoder_default, []) (typed now (ESC :: u "[<")) = (waits (ESC :: u "[<") (Some now), [])) as -> by done.
  rewrite report_run by (apply fields_chars || (etrans; [by apply length_fields|lia])).
  rewrite typed_one. unfold decode_step, push, waits. cbn [fst snd dc_paste dc_pending dc_since app].
  assert (has_prefix ((ESC :: u "[<") ++ fields m ++ [terminator m]) BRACKETED_PASTE_START = false) as Hp by done.
  assert (is_mouse_prefix ((ESC :: u "[<") ++ fields m ++ [terminator m]) = true) as Hi
    by apply report_prefix.
  change (ESC :: (u "[<" ++ fields m) ++ [terminator m]) with ((ESC :: u "[<") ++ fields m ++ [terminator m]).
  unfold pending_push. rewrite Hp, Hi, Hparse.
  assert (length ((ESC :: u "[<") ++ fields m ++ [terminator m]) ≤ MAX_PENDING) as Hfits.
  { rewrite !length_app. pose proof (length_fields m Hm). unfold MAX_PENDING. simpl. lia. }
  destruct (Nat.ltb_spec MAX_PENDING (length ((ESC :: u "[<") ++ fields m ++ [terminator m]))); [lia|].
  by rewrite (bool_decide_eq_true_2 (terminator m ∈ _)) by (unfold terminator; destruct (mi_release m); set_solver).
Qed.

(** ** Modes and encodings *)

(** A mode that reports more reports everything a mode below it does. *)
Theorem mouse_modes_nested m :
  (mouse_event_allowed ModeNone m → mouse_event_allowed ModePress m)
  ∧ (mouse_event_allowed ModePress m → mouse_event_allowed ModePressRelease m)
  ∧ (mouse_event_allowed ModePressRelease m → mouse_event_allowed ModeButtonMotion m)
  ∧ (mouse_event_allowed ModeButtonMotion m → mouse_event_allowed ModeAnyMotion m).
Proof. simpl. destruct (mi_release m), (is_motion m); simpl; tauto. Qed.

(** The first encoding of xterm is six bytes or nothing, and nothing exactly when a cell or
    a button lies beyond 223. *)
Theorem legacy_encoding_bounded m :
  u16_fields m →
  match encode_mouse_event m EncodingDefault with
  | Some wire => length wire = 6 ∧ Forall (λ b, b < 256)%N wire
  | None => (223 < legacy_code m ∨ 223 < mi_column m ∨ 223 < mi_row m)%N
  end.
Proof.
  intros (Hc & Hx & Hy). cbn [encode_mouse_event].
  assert (∀ v, match legacy_byte v with Some b => b = v + 32 ∧ b < 256 | None => 223 < v end)%N as Hbyte.
  { intros v. unfold legacy_byte, u16_checked_add.
    destruct (N.leb_spec (v + 32) u16_max); cbn [mbind option_bind]; [|unfold u16_max in *; lia].
    destruct (N.leb_spec (v + 32) 255); lia. }
  pose proof (Hbyte (legacy_code m)) as H1. pose proof (Hbyte (mi_column m)) as H2. pose proof (Hbyte (mi_row m)) as H3.
  destruct (legacy_byte (legacy_code m)), (legacy_byte (mi_column m)), (legacy_byte (mi_row m)); cbn [mbind option_bind]; auto.
  split; [done|]. repeat (apply Forall_cons; split; [done || lia|]). done.
Qed.

(** ** Concrete inputs *)

#[local] Transparent MAX_CLIPBOARD_BYTES.

Lemma paste_roundtrip_witness :
  decode (typed 7 ((ESC :: u "[200~") ++ u "ls" ++ [10%N] ++ (ESC :: u "[201~")))
  = (InputDecoder_default, [InputPaste (u "ls" ++ [10%N])]).
Proof. apply (paste_roundtrip 7 (u "ls" ++ [10%N])); [vm_compute; reflexivity|]. apply (bool_decide_unpack _). vm_compute. exact I. Defined.

Definition click : MouseInput := {| mi_code := 16; mi_column := 300; mi_row := 7; mi_release := true |}.
Lemma mouse_roundtrip_witness : decode (typed 0 ((ESC :: u "[<16;300;7m"))) = (InputDecoder_default, [InputMouse click]).
Proof. apply (mouse_roundtrip 0 click); [vm_compute; intuition congruence|vm_compute; reflexivity]. Defined.
Lemma legacy_encoding_witness : u16_fields click ∧ (223 < mi_column click)%N.
Proof.
  assert (u16_fields click) as H by (vm_compute; intuition congruence).
  pose proof (legacy_encoding_bounded click H). split; [exact H|]. vm_compute. reflexivity.
Defined.

(** An escape key that is still waiting when a paste begins: the two escapes come out
    together, the bracket that follows is no longer recognised, and the text of the paste
    reaches the terminal as if it had been typed, its newline with it. *)
Theorem escape_unbrackets_paste :
  (decode (typed 0 (ESC :: BRACKETED_PASTE_START ++ u "ls" ++ [10%N] ++ BRACKETED_PASTE_END))).2
  = InputBytes [ESC; ESC] :: ((λ b, InputBytes [b]) <$> u "[200~ls" ++ [10%N]) ++ [InputBytes (ESC :: u "[201"); InputBytes (u "~")].
Proof. vm_compute. reflexivity. Qed.
