(* ===== verification/HerdrSupport.v ===== *)
(** What a target's Herdr can do: [src/src/herdr_support.rs]. A feature is answered by
    what the host says it can do first, and by the protocol it speaks second. *)

From S2P Require Import Prelude State.

Definition TESTED_PROTOCOL : N := 20.
Definition LATEST_KNOWN_PROTOCOL : N := 22.

Inductive Feature := PluginActionsFeature.
#[export] Instance Feature_eq_dec : EqDecision Feature.
Proof. solve_decision. Defined.
Definition capability (f : Feature) : ustr := match f with PluginActionsFeature => u "plugins" end.
Definition first_protocol (f : Feature) : N := match f with PluginActionsFeature => 20 end.
Definition FEATURES : list Feature := [PluginActionsFeature].

Definition supports (snapshot : option NormalizedSnapshot) (f : Feature) : bool :=
  match snapshot with
  | None => false
  | Some s =>
      bool_decide (capability f ∈ capabilities s)
      || match protocol s with Some p => (first_protocol f <=? p)%N | None => false end
  end.
Definition supports_protocol (protocol : N) (f : Feature) : bool := (first_protocol f <=? protocol)%N.

Inductive Standing := StandingUnknown | StandingLimited | StandingTested | StandingNewer.
#[export] Instance Standing_eq_dec : EqDecision Standing.
Proof. solve_decision. Defined.
Definition lowest_gate : N := default 0%N (min_by_key id (first_protocol <$> FEATURES)).
Definition standing (protocol : option N) : Standing :=
  match protocol with
  | None => StandingUnknown
  | Some p => if (p <? lowest_gate)%N then StandingLimited
              else if (TESTED_PROTOCOL <? p)%N then StandingNewer else StandingTested
  end.

(** ** What the answers promise *)

Lemma every_feature f : f ∈ FEATURES.
Proof. destruct f. by left. Qed.

(** A snapshot that says no more than its protocol is answered as the protocol alone is. *)
Theorem supports_without_capabilities s f p :
  capabilities s = ∅ → protocol s = Some p → supports (Some s) f = supports_protocol p f.
Proof. intros Hc Hp. unfold supports. rewrite Hc, Hp. by rewrite bool_decide_eq_false_2 by set_solver. Qed.

(** Nothing is refused for being newer: a host that upgrades its protocol, or says more of
    what it can do, keeps every feature it had. *)
Theorem newer_keeps_features s s' f :
  capabilities s ⊆ capabilities s' →
  (∀ p, protocol s = Some p → ∃ p', protocol s' = Some p' ∧ (p ≤ p')%N) →
  supports (Some s) f → supports (Some s') f.
Proof.
  intros Hcap Hprot. unfold supports. rewrite !orb_True. intros [H|H].
  - left. apply bool_decide_unpack in H. apply bool_decide_pack. set_solver.
  - right. destruct (protocol s) as [p|]; [|done]. destruct (Hprot p) as (p' & -> & Hle); [done|].
    apply Is_true_true, N.leb_le. apply Is_true_true, N.leb_le in H. lia.
Qed.

(** A target stands as limited exactly when its protocol leaves some feature out. *)
Theorem limited_hides_a_feature p :
  standing (Some p) = StandingLimited ↔ ∃ f, f ∈ FEATURES ∧ supports_protocol p f = false.
Proof.
  unfold standing, supports_protocol. change lowest_gate with 20%N. change TESTED_PROTOCOL with 20%N. split.
  - destruct (N.ltb_spec p 20); [|destruct (20 <? p)%N; done].
    intros _. exists PluginActionsFeature. split; [by left|]. by apply N.leb_gt.
  - intros ([] & _ & Hf). simpl in Hf. apply N.leb_gt in Hf. by rewrite (proj2 (N.ltb_lt p 20)).
Qed.
