(* ===== verification/Doctor.v ===== *)
(** What a person is told of their machines: the probe of every target
    ([src/src/probe.rs]) and the report of [super-herdr doctor] ([src/src/doctor.rs]).

    The texts of configuration errors are an argument; so is what the checks look at: the
    mode of the configuration file, whether the daemon's socket is there and answers, and
    what each target's snapshot came to. *)

From S2P Require Import Prelude Text Json Net Config Model State Identity Transport TransportFacts FileSave HerdrSupport.

(** ** Probes *)

Record ProbeReport := {
  pr_target : ustr; pr_endpoint : ustr; pr_session : ustr; pr_ok : bool; pr_elapsed_ms : N;
  pr_herdr_bin : option ustr; pr_herdr_version : option ustr; pr_protocol : option N;
  pr_workspaces : nat; pr_tabs : nat; pr_panes : nat; pr_agents : nat;
  pr_workspace_ids : list WorkspaceId; pr_error : option ustr;
}.

(** [compact_text]: one line of at most 500 characters. *)
Definition PROBE_LIMIT : nat := 500.
Definition compact_text (value : ustr) : ustr :=
  let normalized := Net.join (u " ") (split_whitespace value) in
  if length normalized <=? PROBE_LIMIT then normalized else take PROBE_LIMIT normalized ++ [8230%N].

Section probes.
Context {V W : Type} `{JsonValue V, JsonText V, Processes W, Display}.

Definition probed_ids (value : V) (collection_ id_key : ustr) (t : Target) : list WorkspaceId :=
  omap (λ item, id ← json_get item id_key ≫= as_str; Some (QualifiedId_new (tgt_name t) (session_name t) id)) (collection value collection_).
(** The snapshot itself, which a report may carry, is left out. *)
Definition successful_report (t : Target) (elapsed_ms : N) (selection : TransportSnapshot V) : ProbeReport :=
  let snapshot := ts_snapshot selection in
  {| pr_target := tgt_name t; pr_endpoint := target_endpoint t; pr_session := session_name t; pr_ok := true;
     pr_elapsed_ms := elapsed_ms; pr_herdr_bin := Some (ts_herdr_bin selection);
     pr_herdr_version := json_get snapshot (u "version") ≫= as_str; pr_protocol := json_get snapshot (u "protocol") ≫= as_u64;
     pr_workspaces := array_len snapshot (u "workspaces"); pr_tabs := array_len snapshot (u "tabs");
     pr_panes := array_len snapshot (u "panes"); pr_agents := array_len snapshot (u "agents");
     pr_workspace_ids := probed_ids snapshot (u "workspaces") (u "workspace_id") t; pr_error := None |}.
Definition failed_report (t : Target) (elapsed_ms : N) (error : ustr) : ProbeReport :=
  {| pr_target := tgt_name t; pr_endpoint := target_endpoint t; pr_session := session_name t; pr_ok := false;
     pr_elapsed_ms := elapsed_ms; pr_herdr_bin := None; pr_herdr_version := None; pr_protocol := None;
     pr_workspaces := 0; pr_tabs := 0; pr_panes := 0; pr_agents := 0; pr_workspace_ids := []; pr_error := Some (compact_text error) |}.
Definition probe_target (t : Target) (elapsed_ms : N) (result : result SnapshotError (TransportSnapshot V)) : ProbeReport :=
  match result with
  | Ok selection => successful_report t elapsed_ms selection
  | Err error => failed_report t elapsed_ms (err_message error)
  end.
Definition report_key (r : ProbeReport) : ustr * ustr := (pr_target r, pr_session r).
Definition report_le (a b : ProbeReport) : Prop := cmp_le (report_key a) (report_key b).
#[export] Instance report_le_dec : RelDecision report_le.
Proof. intros a b. unfold report_le. apply _. Defined.
(** Each target is probed by a task of its own; [finished] is the order in which they end,
    [None] for one that failed, and [took] what each came to. *)
Definition task_report (took : Target → N * result SnapshotError (TransportSnapshot V)) (t : option Target) : option ProbeReport :=
  match t with Some t => Some (probe_target t (took t).1 (took t).2) | None => None end.
Definition probe_all (took : Target → N * result SnapshotError (TransportSnapshot V)) (finished : list (option Target))
    : option (list ProbeReport) :=
  reports ← mapM (task_report took) finished;
  Some (merge_sort report_le reports).
End probes.

(** ** Checks *)

Inductive Status := StatusOk | Warn | Fail_ | Skipped.
#[export] Instance Status_eq_dec : EqDecision Status.
Proof. solve_decision. Defined.
Definition mark (s : Status) : ustr :=
  match s with StatusOk => u "ok  " | Warn => u "warn" | Fail_ => u "FAIL" | Skipped => u "--  " end.
Record Check := { area : ustr; ck_name : ustr; status : Status; detail : ustr; remedy : option ustr }.
Definition Check_new (area_ name : ustr) (status_ : Status) (detail_ : ustr) : Check :=
  {| area := area_; ck_name := name; status := status_; detail := detail_; remedy := None |}.
Definition with_remedy (remedy_ : ustr) (c : Check) : Check :=
  {| area := area c; ck_name := ck_name c; status := status c; detail := detail c; remedy := Some remedy_ |}.
Definition note (area_ line : ustr) : Check :=
  let '(name, detail_) := match split_once (u ":") line with
                          | Some (name, detail_) => (trim name, trim detail_)
                          | None => (area_, line)
                          end in
  Check_new area_ name (if has_prefix (u "unavailable") detail_ || bool_decide (detail_ = u "disabled") then Skipped else StatusOk) detail_.

Definition failed (checks : list Check) : bool := existsb (λ c, bool_decide (status c = Fail_)) checks.
(** The areas, in the order they first appear. *)
Definition areas_of (checks : list Check) : list ustr :=
  foldl (λ areas c, if bool_decide (area c ∈ areas) then areas else areas ++ [area c]) [] checks.
Definition render_check (c : Check) : ustr :=
  u "  " ++ mark (status c) ++ u " " ++ ck_name c ++ u ": " ++ detail c ++ [10%N]
  ++ match remedy c with Some remedy => u "       try: " ++ remedy ++ [10%N] | None => [] end.
Definition in_area (checks : list Check) (a : ustr) : list Check := filter (λ c, area c = a) checks.
Definition render (checks : list Check) : ustr :=
  foldl (λ rendered a,
    rendered ++ (if bool_decide (rendered = []) then [] else [10%N]) ++ a ++ [10%N] ++ (in_area checks a ≫= render_check))
    [] (areas_of checks).

(** ** What is said instead of a name *)

Definition redact_path (path : ustr) : ustr := [8230; 47]%N ++ default (u "?") (FileSave.file_name path).
Definition redact_destination (destination : ustr) : ustr :=
  u "<" ++ (if contains 64 destination then u "user@host" else u "host") ++ u ", " ++ display_N (N.of_nat (length destination)) ++ u " chars>".
Definition redact_url (url : ustr) : ustr :=
  match split_once (u "://") url with Some (scheme, _) => u "<" ++ scheme ++ u " url>" | None => u "<url>" end.
Definition count (n : nat) : ustr := display_N (N.of_nat n).

(** [{mode:04o}] of a mode below [0o10000]. *)
Definition octal (mode : N) : ustr := (λ k, 48 + N.land (N.shiftr mode k) 7)%N <$> [9; 6; 3; 0]%N.
(** The mode in the file's metadata, when there are any. *)
Definition config_permissions (metadata : option N) : option N := (λ mode, N.land mode 4095) <$> metadata.

Section local_checks.
Context (error_text : ConfigError → ustr).

Definition file_checks (c : Config) (config_path : ustr) (metadata : option N) : list Check :=
  [ Check_new (u "configuration") (u "file") StatusOk (u "read " ++ redact_path config_path);
    match config_permissions metadata with
    | Some mode =>
        if negb (N.land mode 63 =? 0)%N
        then with_remedy (u "chmod 600 " ++ redact_path config_path)
               (Check_new (u "configuration") (u "permissions") Warn (u "mode " ++ octal mode ++ u " is readable by other users"))
        else Check_new (u "configuration") (u "permissions") StatusOk (u "mode " ++ octal mode)
    | None => Check_new (u "configuration") (u "permissions") Skipped (u "not applicable on this platform")
    end;
    match validate c with
    | Ok _ => Check_new (u "configuration") (u "contents") StatusOk (count (length (cfg_targets c)) ++ u " target(s) configured")
    | Err error => with_remedy (u "super-herdr check") (Check_new (u "configuration") (u "contents") Fail_ (error_text error))
    end ].
Definition target_checks (t : Target) : list Check :=
  let where_ := match tgt_ssh t with Some destination => u "over SSH to " ++ redact_destination destination | None => u "on this machine" end in
  [ Check_new (u "targets") (tgt_name t) StatusOk
      (where_ ++ u "; " ++ count (length (tgt_herdr_bins t)) ++ u " herdr candidate(s); "
       ++ if tgt_discover_sessions t then u "sessions discovered" else u "one session") ]
  ++ (if bool_decide (tgt_roots t = []) then []
      else [Check_new (u "targets") (tgt_name t ++ u " file roots") StatusOk (count (length (tgt_roots t)) ++ u " configured")]).
(** The path of the socket, if there is a directory for one, and whether it exists. *)
Definition socket_check (socket : option (ustr * bool)) : Check :=
  match socket with
  | Some (path, true) => Check_new (u "daemon") (u "socket") StatusOk (u "present at " ++ redact_path path)
  | Some (path, false) =>
      with_remedy (u "super-herdr daemon")
        (Check_new (u "daemon") (u "socket") Skipped (u "no socket at " ++ redact_path path ++ u "; the daemon is not running"))
  | None => Check_new (u "daemon") (u "socket") Skipped (u "no runtime directory to hold one")
  end.
Definition browser_route (w : WebConfig) : Check :=
  if bool_decide (web_port w = Some 0%N) then Check_new (u "browser") (u "route") Skipped (u "web.port = 0 serves no browser client")
  else match web_url w, web_address w with
  | Some url, _ => Check_new (u "browser") (u "route") StatusOk (u "operator-managed proxy at " ++ redact_url url)
  | None, Some _ => Check_new (u "browser") (u "route") StatusOk (u "direct listener on a configured address")
  | None, None =>
      if web_bridge w
      then Check_new (u "browser") (u "route") StatusOk (u "hosted bridge; TLS terminates there, so it is a trusted relay")
      else with_remedy (u "set web.bridge = true, or web.address for a private route")
             (Check_new (u "browser") (u "route") Warn
                (u "no bridge and no address; a phone on another network cannot reach this daemon"))
  end.
Definition devices_check (devices : list Device) : Check :=
  if length devices =? 0
  then with_remedy (u "pair from the TUI with Ctrl+] then P") (Check_new (u "pairing") (u "devices") Skipped (u "no device paired yet"))
  else Check_new (u "pairing") (u "devices") StatusOk (count (length devices) ++ u " paired").
Definition local_checks (c : Config) (config_path : ustr) (metadata : option N) (socket : option (ustr * bool)) : list Check :=
  file_checks c config_path metadata ++ (cfg_targets c ≫= target_checks)
  ++ [socket_check socket; browser_route (cfg_web c); devices_check (cfg_devices c)].
End local_checks.

(** [alive]: whether a daemon answered on the socket in time. *)
Definition device_reachability (c : Config) (socket : option ustr) (alive : bool) : Check :=
  let paired := length (cfg_devices c) in
  let w := cfg_web c in
  let said := Check_new (u "pairing") (u "reachable") in
  if bool_decide (web_port w = Some 0%N)
     || negb (web_bridge w || bool_decide (is_Some (web_url w)) || bool_decide (is_Some (web_address w)))
  then said Skipped (u "no browser route is configured, so nothing is published")
  else match socket with
  | None => said Skipped (u "no daemon socket path to ask")
  | Some _ =>
      match alive, paired with
      | true, O => said StatusOk (u "a daemon is running and would publish a route; no device is paired to use it yet")
      | true, paired => said StatusOk (u "a daemon is running, so " ++ count paired ++ u " paired device(s) have somewhere to reach")
      | false, O => said Skipped (u "no daemon is running, and no device is paired either")
      | false, paired =>
          with_remedy (u "super-herdr daemon, or open the TUI, which hosts one")
            (said Warn (u "no daemon is running, so the route " ++ count paired
                        ++ u " paired device(s) use does not exist; a phone reaches the pairing page and can get no further"))
      end
  end.

(** ** What the targets say *)

Definition feature_name (f : Feature) : ustr := match f with PluginActionsFeature => u "plugin actions" end.
Definition target_check (r : ProbeReport) : Check :=
  if negb (pr_ok r)
  then with_remedy (u "super-herdr probe --timeout 30 # " ++ pr_target r)
         (Check_new (u "targets") (pr_target r) Fail_ (default (u "no snapshot") (head (lines (default (u "no snapshot") (pr_error r))))))
  else
    let standing := HerdrSupport.standing (pr_protocol r) in
    let missing := filter (λ f, match pr_protocol r with Some p => negb (supports_protocol p f) | None => false end = true) FEATURES in
    let remark := match standing with
                  | StandingLimited => u ", without " ++ Net.join (u ", ") (feature_name <$> missing)
                  | StandingNewer => u ", newer than the protocol " ++ display_N TESTED_PROTOCOL ++ u " this build was tested against"
                  | _ => []
                  end in
    let said := Check_new (u "targets") (pr_target r) (if bool_decide (standing = StandingLimited) then Warn else StatusOk)
      (u "herdr " ++ default (u "unknown") (pr_herdr_version r) ++ u ", protocol " ++ match pr_protocol r with Some p => display_N p | None => u "unknown" end
       ++ remark ++ u ", " ++ count (pr_panes r) ++ u " pane(s), " ++ count (pr_agents r) ++ u " agent(s), " ++ display_N (pr_elapsed_ms r) ++ u " ms") in
    if bool_decide (standing = StandingLimited)
    then with_remedy (u "upgrade Herdr on that host to 0.8.2 or newer for plugin actions") said else said.
(** [None]: a probe's task failed, with the text of its error. *)
Definition probe_targets (reports : option (list ProbeReport)) (error : ustr) : list Check :=
  match reports with
  | Some reports => target_check <$> reports
  | None => [with_remedy (u "super-herdr check") (Check_new (u "targets") (u "probe") Fail_ error)]
  end.

Definition transfer_tools_check (target : ustr) (tools : list ustr) : Check :=
  match tools with
  | tool :: _ => Check_new (u "transfers") target StatusOk (u "digests with " ++ tool)
  | [] => with_remedy (u "install coreutils or openssl on that host")
            (Check_new (u "transfers") target Fail_ (u "no sha256sum, shasum or openssl; file transfers cannot be verified"))
  end.
Definition quoted (text : ustr) : ustr := [34%N] ++ text ++ [34%N].
Definition DIGEST_TOOLS_SCRIPT : ustr :=
  concat ((λ line, line ++ [10%N]) <$>
    [u "set -eu"; u "for tool in sha256sum shasum openssl; do"; u "  if command -v " ++ quoted (u "$tool") ++ u " >/dev/null 2>&1; then";
     u "    printf '%s"; u "' " ++ quoted (u "$tool"); u "  fi"; u "done"]).
(** The wait for the host is late or not. *)
Definition digest_tools {W} `{Processes W} (t : Target) (c : TransportConfig) (elapsed : bool) (w : W) : list ustr * W :=
  let command := match tgt_ssh t with
                 | Some destination => build_ssh_command destination c DIGEST_TOOLS_SCRIPT
                 | None => {| program := u "/bin/sh"; arguments := [u "-c"; DIGEST_TOOLS_SCRIPT] |}
                 end in
  let '(ran, w) := output command w in
  (match ran with
   | Ok out => if elapsed then [] else filter (λ line, line ≠ []) (trim <$> lines (from_utf8_lossy (out_stdout out)))
   | Err _ => []
   end, w).

(** ** What the report says and keeps to itself *)

(** Targets of one shape: of the host they are reached through, whether there is one, whether
    it names a user, and how long its name is. *)
Definition alike_target (t t' : Target) : Prop :=
  tgt_name t = tgt_name t' ∧ tgt_discover_sessions t = tgt_discover_sessions t'
  ∧ length (tgt_herdr_bins t) = length (tgt_herdr_bins t') ∧ length (tgt_roots t) = length (tgt_roots t')
  ∧ option_Forall2 (λ d d', contains 64 d = contains 64 d' ∧ length d = length d') (tgt_ssh t) (tgt_ssh t').
Definition scheme (url : ustr) : option ustr := fst <$> split_once (u "://") url.
Definition alike_web (w w' : WebConfig) : Prop :=
  web_port w = web_port w' ∧ web_bridge w = web_bridge w' ∧ (is_Some (web_address w) ↔ is_Some (web_address w'))
  ∧ option_Forall2 (λ url url', scheme url = scheme url') (web_url w) (web_url w').
(** Configurations that differ at most in whom they reach and how: the hosts, sessions,
    sockets, programs, roots and tags of targets, the addresses and paths of the browser's
    routes, the devices' names and tokens, and everything the report does not look at. *)
Definition alike (c c' : Config) : Prop :=
  Forall2 alike_target (cfg_targets c) (cfg_targets c') ∧ alike_web (cfg_web c) (cfg_web c')
  ∧ length (cfg_devices c) = length (cfg_devices c').
Definition alike_path (path path' : ustr) : Prop := FileSave.file_name path = FileSave.file_name path'.
Definition alike_socket (s s' : option (ustr * bool)) : Prop :=
  option_Forall2 (λ s s', alike_path s.1 s'.1 ∧ s.2 = s'.2) s s'.

#[export] Instance redact_path_alike : Proper (alike_path ==> eq) redact_path.
Proof. intros p p' Hp. unfold redact_path. by rewrite Hp. Qed.
Lemma redact_url_scheme url : redact_url url = match scheme url with Some s => u "<" ++ s ++ u " url>" | None => u "<url>" end.
Proof. unfold redact_url, scheme. by destruct (split_once _ url) as [[]|]. Qed.
Lemma redact_destination_alike d d' : contains 64 d = contains 64 d' → length d = length d' → redact_destination d = redact_destination d'.
Proof. unfold redact_destination. by intros -> ->. Qed.
Lemma length_zero_alike {A B} (l : list A) (l' : list B) : length l = length l' → (l = [] ↔ l' = []).
Proof. by destruct l, l'. Qed.

#[export] Instance target_checks_alike : Proper (alike_target ==> eq) target_checks.
Proof.
  intros t t' (Hname & Hdiscover & Hbins & Hroots & Hssh). unfold target_checks. rewrite Hname, Hdiscover, Hbins, Hroots. f_equal.
  - destruct Hssh as [d d' [Hat Hlen]|]; [|done]. by rewrite (redact_destination_alike d d').
  - by rewrite (bool_decide_ext _ _ (length_zero_alike _ _ Hroots)).
Qed.
#[export] Instance browser_route_alike : Proper (alike_web ==> eq) browser_route.
Proof.
  intros w w' (Hport & Hbridge & Haddress & Hurl). unfold browser_route. rewrite Hport, Hbridge. destruct (bool_decide _); [done|].
  destruct Hurl as [url url' Hscheme|]; [by rewrite !redact_url_scheme, Hscheme|].
  destruct (web_address w), (web_address w'); try done; exfalso; destruct Haddress as [H1 H2].
  - destruct H1; [by eexists|done].
  - destruct H2; [by eexists|done].
Qed.
#[export] Instance socket_check_alike : Proper (alike_socket ==> eq) socket_check.
Proof. intros s s' [[p b] [p' b'] [Hp Hb]|]; [|done]. cbn in Hp, Hb. subst. unfold socket_check. destruct b'; by rewrite (redact_path_alike _ _ Hp). Qed.
Lemma reachability_alike c c' s s' alive :
  alike c c' → option_Forall2 (λ _ _, True) s s' → device_reachability c s alive = device_reachability c' s' alive.
Proof.
  intros (_ & (Hport & Hbridge & Haddress & Hurl) & Hdevices) Hs. unfold device_reachability. rewrite Hport, Hbridge, Hdevices.
  rewrite (bool_decide_ext _ _ Haddress).
  assert (is_Some (web_url (cfg_web c)) ↔ is_Some (web_url (cfg_web c'))) as Hsome.
  { destruct Hurl; [by split; eexists|]. by split; intros [? [=]]. }
  rewrite (bool_decide_ext _ _ Hsome). by destruct Hs.
Qed.

(** C19. The report can be shown to anybody. Two machines whose configurations are both valid
    and of one shape, however different the hosts, users, sockets, programs, directories,
    addresses and devices in them, get the same report of everything that is checked before
    a host is asked, word for word. *)
Theorem report_keeps_machines_private error_text c c' path path' metadata socket socket' alive :
  validate c = Ok () → validate c' = Ok () →
  alike c c' → alike_path path path' → alike_socket socket socket' →
  render (local_checks error_text c path metadata socket ++ [device_reachability c (fst <$> socket) alive])
  = render (local_checks error_text c' path' metadata socket' ++ [device_reachability c' (fst <$> socket') alive]).
Proof.
  intros Hv Hv' Halike Hpath Hsocket. f_equal. f_equal; [|f_equal; apply reachability_alike; [done|]].
  2: { destruct Hsocket; by constructor. }
  destruct Halike as (Htargets & Hweb & Hdevices). unfold local_checks, file_checks, devices_check.
  rewrite Hv, Hv', Hdevices, (redact_path_alike _ _ Hpath), (socket_check_alike _ _ Hsocket), (browser_route_alike _ _ Hweb), (Forall2_length _ _ _ Htargets).
  do 2 f_equal.
  induction Htargets as [|t t' ts ts' Ht _ IH]; [done|]. cbn [mbind list_bind]. by rewrite (target_checks_alike _ _ Ht), IH.
Qed.

(** ** How it is laid out *)

Lemma areas_of_snoc checks c :
  areas_of (checks ++ [c]) = if bool_decide (area c ∈ areas_of checks) then areas_of checks else areas_of checks ++ [area c].
Proof. unfold areas_of. by rewrite foldl_app. Qed.
Lemma areas_of_spec checks : NoDup (areas_of checks) ∧ ∀ a, a ∈ areas_of checks ↔ ∃ c, c ∈ checks ∧ area c = a.
Proof.
  induction checks as [|c checks [IHnd IH]] using rev_ind; [split; [constructor|set_solver]|]. rewrite areas_of_snoc.
  case_bool_decide as Ha; (split; [done || (apply NoDup_app; split_and!; [done|set_solver|apply NoDup_singleton])|]); intros a; set_solver.
Qed.
Lemma in_areas_permutation checks areas :
  NoDup areas → (∀ c, c ∈ checks → area c ∈ areas) → areas ≫= in_area checks ≡ₚ checks.
Proof.
  revert checks. induction areas as [|a areas IH]; intros checks Hnd Hall.
  { destruct checks as [|c checks]; [done|]. destruct (elem_of_nil (area c)) as [Hno _]. destruct Hno. apply Hall. left. }
  apply NoDup_cons in Hnd as [Ha Hnd]. cbn [mbind list_bind].
  assert (areas ≫= in_area checks = areas ≫= in_area (filter (λ c, area c ≠ a) checks)) as ->.
  { clear IH Hall Hnd. induction areas as [|b areas IHb]; [done|]. cbn [mbind list_bind].
    apply not_elem_of_cons in Ha as [Hab Ha]. f_equal; [|by apply IHb].
    unfold in_area. rewrite list_filter_filter_l; [done|]. naive_solver. }
  rewrite IH; [apply filter_app_complement|done|].
  intros c [Hne Hc]%list_elem_of_filter. apply Hall, elem_of_cons in Hc. naive_solver.
Qed.
Lemma filter_nobody {A} (P : A → Prop) `{∀ x, Decision (P x)} l : (∀ x, x ∈ l → ¬ P x) → filter P l = [].
Proof.
  intros HP. induction l as [|x l IH]; [done|]. rewrite filter_cons_False by (apply HP; left). apply IH. intros y Hy. apply HP. by right.
Qed.
Lemma in_area_areas checks areas a :
  NoDup areas → a ∈ areas → in_area (areas ≫= in_area checks) a = in_area checks a.
Proof.
  induction areas as [|b areas IH]; intros Hnd Ha; [by apply elem_of_nil in Ha|].
  apply NoDup_cons in Hnd as [Hb Hnd]. cbn [mbind list_bind]. unfold in_area in *. rewrite filter_app.
  assert (∀ l, a ∉ l → filter (λ c, area c = a) (l ≫= (λ b, filter (λ c, area c = b) checks)) = []) as Hnone.
  { induction l as [|x l IHl]; intros Hx; [done|]. apply not_elem_of_cons in Hx as [Hx Hl]. cbn [mbind list_bind].
    rewrite filter_app, IHl by done. rewrite app_nil_r. apply filter_nobody.
    intros c [Hc _]%list_elem_of_filter. congruence. }
  destruct (decide (a = b)) as [->|Hne].
  - rewrite Hnone by done. rewrite app_nil_r. by apply list_filter_filter_l.
  - apply elem_of_cons in Ha as [?|Ha]; [done|]. rewrite IH by done.
    replace (filter _ (filter _ _)) with ([] : list Check); [done|]. symmetry. apply filter_nobody.
    intros c [Hc _]%list_elem_of_filter. congruence.
Qed.
Lemma join_snoc (separator : ustr) (l : list ustr) (x : ustr) :
  l ≠ [] → Net.join separator (l ++ [x]) = Net.join separator l ++ separator ++ x.
Proof.
  induction l as [|y [|z l] IH]; intros Hl; [done|done|].
  change (Net.join separator ((y :: z :: l) ++ [x])) with (y ++ separator ++ Net.join separator ((z :: l) ++ [x])).
  rewrite IH by done. cbn [Net.join]. by rewrite <-!app_assoc.
Qed.
Lemma join_nonempty (separator : ustr) (l : list ustr) x : x ∈ l → x ≠ [] → Net.join separator l ≠ [].
Proof.
  induction l as [|y [|z l] IH]; intros Hx Hne; [by apply elem_of_nil in Hx|by apply list_elem_of_singleton in Hx as ->|].
  cbn [Net.join]. apply elem_of_cons in Hx as [->|Hx]; [by destruct y|]. intros [_ [_ Hnil]%app_nil]%app_nil. by apply IH.
Qed.
Definition section_text (checks : list Check) (a : ustr) : ustr := a ++ [10%N] ++ (in_area checks a ≫= render_check).

(** The report reads as one heading for each area, in the order the areas first come up,
    with an empty line between them; every check stands once under its own, with the others
    of its area in the order they were made. *)
Theorem report_lists_each_check_once checks :
  let listed := areas_of checks ≫= in_area checks in
  render checks = Net.join [10%N] (section_text checks <$> areas_of checks)
  ∧ NoDup (areas_of checks) ∧ listed ≡ₚ checks
  ∧ ∀ a, in_area listed a = in_area checks a.
Proof.
  cbv zeta. destruct (areas_of_spec checks) as [Hnd Hareas]. split_and!; [|done| |].
  - unfold render. change (λ rendered a, _) with (λ rendered a, rendered ++ (if bool_decide (rendered = []) then [] else [10%N]) ++ section_text checks a).
    generalize (areas_of checks) as areas. intros areas. clear.
    induction areas as [|a areas IH] using rev_ind; [done|]. rewrite foldl_app, fmap_app. cbn [foldl]. rewrite IH.
    change (section_text checks <$> [a]) with [section_text checks a].
    destruct areas as [|b areas]; [done|]. rewrite join_snoc by done. rewrite bool_decide_eq_false_2; [done|].
    eapply join_nonempty; [left|]. unfold section_text. by destruct b.
  - apply in_areas_permutation; [done|]. intros c Hc. apply Hareas. by exists c.
  - intros a. destruct (decide (a ∈ areas_of checks)) as [Ha|Ha]; [by apply in_area_areas|].
    trans ([] : list Check); [|symmetry]; apply filter_nobody; intros c Hc <-; apply Ha, Hareas.
    + apply list_elem_of_bind in Hc as (b & [_ Hc]%list_elem_of_filter & _). by exists c.
    + by exists c.
Qed.

(** ** The order of the probes *)

Section probing.
Context {V : Type} `{JsonValue V}.
Implicit Types (took : Target → N * result SnapshotError (TransportSnapshot V)).

#[local] Instance report_le_trans : Transitive report_le.
Proof. intros a b c. unfold report_le. apply transitivity. Qed.
#[local] Instance report_le_total : Total report_le.
Proof. intros a b. unfold report_le. apply (total cmp_le). Qed.
Definition probed took (t : Target) : ProbeReport := probe_target t (took t).1 (took t).2.
Lemma probed_key took t : report_key (probed took t) = (tgt_name t, session_name t).
Proof. unfold probed, probe_target. by destruct (took t).2. Qed.
Lemma mapM_finished took (finished : list Target) : mapM (task_report took) (Some <$> finished) = Some (probed took <$> finished).
Proof. apply mapM_Some. induction finished; by constructor. Qed.
Lemma same_key (ts : list Target) t t' : NoDup (target_key <$> ts) → t ∈ ts → t' ∈ ts → target_key t = target_key t' → t = t'.
Proof.
  intros Hnd [i Hi]%list_elem_of_lookup [j Hj]%list_elem_of_lookup Hkey.
  assert (i = j) as ->; [|congruence].
  apply (NoDup_lookup _ i j (target_key t) Hnd); rewrite list_lookup_fmap; [by rewrite Hi|rewrite Hj, Hkey; done].
Qed.

(** The probe of a federation reports every target once, by name and session, whatever
    order their tasks end in; one task that is lost fails the whole. *)
Theorem probes_in_any_order took ts finished :
  NoDup (target_key <$> ts) →
  (finished ≡ₚ Some <$> ts → probe_all took finished = Some (merge_sort report_le (probed took <$> ts)))
  ∧ (None ∈ finished → probe_all took finished = None).
Proof.
  intros Hnd. unfold probe_all. split.
  - intros (order & -> & Horder)%Permutation_map_inv. rewrite mapM_finished. cbn [mbind option_bind]. f_equal.
    eapply (StronglySorted_unique_strong report_le); [|by apply (StronglySorted_merge_sort _)..|].
    + intros r1 r2. rewrite !(merge_sort_Permutation report_le). intros (t1 & -> & H1)%list_elem_of_fmap (t2 & -> & H2)%list_elem_of_fmap.
      unfold report_le. rewrite !probed_key. intros Hle Hge. pose proof (anti_symm cmp_le _ _ Hle Hge) as [= Hname Hsession].
      f_equal. rewrite <-Horder in H1. apply (same_key ts); [done..|]. unfold target_key. by rewrite Hname, Hsession.
    + by rewrite !(merge_sort_Permutation report_le), Horder.
  - intros Hlost. assert (mapM (task_report took) finished = None) as ->; [|done].
    apply mapM_None, Exists_exists. by exists None.
Qed.
End probing.

(** ** Two machines, and a host without Herdr *)

Module Runs.
Import Json.Concrete.

Definition box (ssh bin root : string) : Target := {|
  tgt_name := u "box"; tgt_ssh := Some (u ssh); tgt_discover_sessions := true; tgt_session := None; tgt_socket := None;
  tgt_herdr_bins := [u bin]; tgt_tags := []; tgt_roots := [u root] |}.
Definition machine (t : Target) (url digest : string) : Config := {|
  cfg_transport := TransportConfig_default; cfg_notifications := NotificationsConfig_default; cfg_quick_replies := None;
  cfg_transfers := TransferConfig_default;
  cfg_web := {| web_port := Some 8790%N; web_address := None; web_url := Some (u url); web_bridge := true |};
  cfg_devices := [ {| dev_name := u digest; token_sha256 := u digest; paired_at_ms := 7 |} ]; cfg_targets := [t] |}.
Definition mine : Config := machine (box "me@box" "/home/me/bin/herdr" "/home/me/src") "https://me.example" "00ff".
Definition yours : Config := machine (box "us@bus" "herdr" "/srv") "https://10.0.0.7" "ff00".

Lemma report_keeps_machines_private_witness :
  alike mine yours
  ∧ render (local_checks (λ _, []) mine (u "/home/me/config.toml") (Some 33188%N) (Some (u "/run/me/d.sock", true))
            ++ [device_reachability mine (Some (u "/run/me/d.sock")) true])
    = render (local_checks (λ _, []) yours (u "/etc/config.toml") (Some 33188%N) (Some (u "/run/you/d.sock", true))
              ++ [device_reachability yours (Some (u "/run/you/d.sock")) true])
  ∧ take 6 (lines (render (local_checks (λ _, []) mine (u "/home/me/config.toml") (Some 33188%N) (Some (u "/run/me/d.sock", true)))))
    = [u "configuration"; u "  ok   file: read " ++ [8230; 47]%N ++ u "config.toml"; u "  warn permissions: mode 0644 is readable by other users";
       u "       try: chmod 600 " ++ [8230; 47]%N ++ u "config.toml"; u "  ok   contents: 1 target(s) configured"; []].
Proof.
  assert (alike mine yours) as Halike.
  { split_and!; [|split_and!|done]; try done; vm_compute; repeat constructor. }
  split; [exact Halike|]. split; [|vm_compute; reflexivity].
  apply (report_keeps_machines_private (λ _, []) mine yours (u "/home/me/config.toml") (u "/etc/config.toml") (Some 33188%N)
           (Some (u "/run/me/d.sock", true)) (Some (u "/run/you/d.sock", true)) true);
    [vm_compute; reflexivity|vm_compute; reflexivity|exact Halike|vm_compute; reflexivity|].
  constructor. split; vm_compute; reflexivity.
Defined.

(** What went wrong with a target is told as the transport tells it, and that begins with
    the program's path on the host. *)
#[local] Instance absent : Processes () := λ _ w, (Err (u "No such file or directory (os error 2)"), w).
#[local] Instance display : Display := {| debug s := quoted s; as_secs_f64 d := display_N (d / 1000000000) |}.
#[local] Instance texts : JsonText json := {|
  from_str _ := None; from_slice _ := None; to_vec _ := None; to_string _ := []; json_array := JArray |}.
Definition answer : result SnapshotError (TransportSnapshot json) := (collect_snapshot (box "me@box" "/home/me/bin/herdr" "/home/me") TransportConfig_default ()).1.
Lemma program_path_disclosed :
  detail (target_check (probe_target (box "me@box" "/home/me/bin/herdr" "/home/me") 3 answer))
  = u "/home/me/bin/herdr: failed to start target " ++ quoted (u "box") ++ u ": No such file or directory (os error 2)".
Proof. vm_compute. done. Qed.

Definition desk : Target := {|
  tgt_name := u "desk"; tgt_ssh := None; tgt_discover_sessions := false; tgt_session := None; tgt_socket := None;
  tgt_herdr_bins := []; tgt_tags := []; tgt_roots := [] |}.
Definition both : list Target := [desk; box "me@box" "herdr" "/"].
Definition gone (t : Target) : N * result SnapshotError (TransportSnapshot json) := (3%N, Err (unavailable (u "gone"))).
Lemma probes_in_any_order_witness :
  NoDup (target_key <$> both)
  ∧ pr_target <$> default [] (probe_all gone (Some <$> both)) = [u "box"; u "desk"]
  ∧ probe_all gone (Some <$> both) = Some (merge_sort report_le (probed gone <$> both))
  ∧ probe_all gone [None] = None.
Proof.
  assert (NoDup (target_key <$> both)) as Hnd by (by apply (bool_decide_unpack _)).
  split; [exact Hnd|]. split; [vm_compute; reflexivity|]. split.
  - by apply (probes_in_any_order gone both (Some <$> both)).
  - apply (probes_in_any_order gone both [None]); [exact Hnd|left].
Defined.
End Runs.
