(* ===== verification/TuiLayout.v ===== *)
(** Where panes lie on the screen and how a selection moves between them: the geometry of
    [src/src/tui.rs]. Splitting an area and the inside of a bordered block are ratatui's.

    Panes that do not overlap in a session's layout do not overlap on the screen, and a
    selection that moves moves to the nearest pane on that side. *)

From S2P Require Import Prelude Model State.

Definition SIDEBAR_WIDTH : N := 28.

(** Fields of 16 bits. *)
Record Rect := { area_x : N; area_y : N; area_width : N; area_height : N }.
#[export] Instance Rect_eq_dec : EqDecision Rect.
Proof. solve_decision. Defined.

Class Ratatui := {
  (** [Layout::horizontal] and [Layout::vertical] of [[Constraint::Length(n), Constraint::Min(1)]]. *)
  layout_horizontal : N → Rect → Rect * Rect;
  layout_vertical : N → Rect → Rect * Rect;
  (** [Block::inner] of a block with all borders and one column of padding at each side. *)
  block_inner : Rect → Rect;
}.

Definition ui_areas `{Ratatui} (area : Rect) : Rect * Rect * Rect :=
  let sidebar_width :=
    if (70 <=? area_width area)%N then N.min SIDEBAR_WIDTH (area_width area - 20) else 0%N in
  let '(sidebar, main) := layout_horizontal sidebar_width area in
  let '(tabs, terminal) := layout_vertical 1 main in
  (sidebar, tabs, terminal).

(** ** From a session's layout to the screen *)

Definition u16_saturating_add (a b : N) : N := N.min (a + b) u16_max.
(** [as u16]. *)
Definition as_u16 (n : N) : N := N.land n u16_max.

(** The product fits 32 bits. *)
Definition scale_edge (offset source_length destination_length : N) : N :=
  as_u16 (offset * destination_length / source_length).

Definition scale_layout_rect (source pane : LayoutRect) (destination : Rect) : option Rect :=
  if (rect_width source =? 0)%N || (rect_height source =? 0)%N
     || (area_width destination =? 0)%N || (area_height destination =? 0)%N then None
  else
    let left := scale_edge (rect_x pane - rect_x source) (rect_width source) (area_width destination) in
    let right := scale_edge (u16_saturating_add (rect_x pane - rect_x source) (rect_width pane))
                   (rect_width source) (area_width destination) in
    let top := scale_edge (rect_y pane - rect_y source) (rect_height source) (area_height destination) in
    let bottom := scale_edge (u16_saturating_add (rect_y pane - rect_y source) (rect_height pane))
                    (rect_height source) (area_height destination) in
    let left := N.min left (area_width destination) in
    let right := N.min right (area_width destination) in
    let top := N.min top (area_height destination) in
    let bottom := N.min bottom (area_height destination) in
    if (left <? right)%N && (top <? bottom)%N
    then Some {| area_x := u16_saturating_add (area_x destination) left;
                 area_y := u16_saturating_add (area_y destination) top;
                 area_width := right - left; area_height := bottom - top |}
    else None.

(** ** What is selected *)

Definition selected_snapshot_and_pane (st : FederationState) (selected : option PaneId)
    : option (NormalizedSnapshot * PaneState) :=
  selected ← selected;
  target ← targets st !! target_session selected;
  snapshot ← snapshot target;
  pane ← panes snapshot !! selected;
  Some (snapshot, pane).

Definition visible_pane_areas (st : FederationState) (selected : option PaneId) (destination : Rect)
    : list (PaneId * Rect) :=
  match selected_snapshot_and_pane st selected, selected with
  | Some (snapshot, selected_state), Some selected =>
      match (tab ← pane_tab selected_state; layouts snapshot !! tab) with
      | None => [(selected, destination)]
      | Some layout =>
          if layout_zoomed layout then [(selected, destination)]
          else
            match omap (λ p, if bool_decide (is_Some (panes snapshot !! lp_pane p))
                             then pair (lp_pane p) <$> scale_layout_rect (layout_area layout) (lp_rect p) destination
                             else None) (layout_panes layout) with
            | [] => [(selected, destination)]
            | panes => panes
            end
      end
  | _, _ => []
  end.

(** ** Moving between panes *)

Inductive PaneDirection := DirLeft | DirRight | DirUp | DirDown.
Definition direction_label (d : PaneDirection) : ustr :=
  match d with DirLeft => u "left" | DirRight => u "right" | DirUp => u "top" | DirDown => u "bottom" end.

Definition interval_distance (first_start first_end second_start second_end : N) : N :=
  if (first_end <? second_start)%N then second_start - first_end else first_start - second_end.

(** Sums of two 16-bit numbers, in 32 bits. *)
Definition pane_direction_score (current candidate : LayoutRect) (d : PaneDirection) : option (N * N) :=
  let current_right := (rect_x current + rect_width current)%N in
  let candidate_right := (rect_x candidate + rect_width candidate)%N in
  let current_bottom := (rect_y current + rect_height current)%N in
  let candidate_bottom := (rect_y candidate + rect_height candidate)%N in
  let rows := interval_distance (rect_y current) current_bottom (rect_y candidate) candidate_bottom in
  let columns := interval_distance (rect_x current) current_right (rect_x candidate) candidate_right in
  match d with
  | DirLeft => if (candidate_right <=? rect_x current)%N then Some (rect_x current - candidate_right, rows)%N else None
  | DirRight => if (current_right <=? rect_x candidate)%N then Some (rect_x candidate - current_right, rows)%N else None
  | DirUp => if (candidate_bottom <=? rect_y current)%N then Some (rect_y current - candidate_bottom, columns)%N else None
  | DirDown => if (current_bottom <=? rect_y candidate)%N then Some (rect_y candidate - current_bottom, columns)%N else None
  end.

Definition find_by {A} (p : A → bool) (l : list A) : option A := head (filter (λ a, p a = true) l).
Definition position {A} (p : A → bool) (l : list A) : option nat := fst <$> list_find (λ a, p a = true) l.

(** The pane nearest in a direction; among the nearest, the least identifier. *)
Definition neighbor_pane (layout : LayoutState) (current : LayoutPane) (pane : PaneId) (d : PaneDirection)
    : option PaneId :=
  snd <$> min_by_key id
    (omap (λ candidate, if bool_decide (lp_pane candidate = pane) then None
                        else (λ score, (score, lp_pane candidate)) <$> pane_direction_score (lp_rect current) (lp_rect candidate) d)
       (layout_panes layout)).

(** An [isize] steps back or forward; [length] is not zero. *)
Definition wrapped_index (current length : nat) (direction : Z) : nat :=
  if (direction <? 0)%Z
  then if Z.to_nat (- direction) <=? current then current - Z.to_nat (- direction) else length - 1
  else (current + Z.to_nat direction) mod length.

Definition pane_for_tab (snapshot : NormalizedSnapshot) (tab : TabId) : option PaneId :=
  or_else (layout_focused_pane <$> layouts snapshot !! tab)
    (pane_id <$> find_by (λ p, bool_decide (pane_tab p = Some tab)) (values (panes snapshot))).
Definition first_tab_of (snapshot : NormalizedSnapshot) (workspace : WorkspaceId) : option TabId :=
  tab_id <$> find_by (λ t, bool_decide (tab_workspace t = Some workspace)) (values (tabs snapshot)).
Definition pane_for_workspace (snapshot : NormalizedSnapshot) (workspace : WorkspaceId) : option PaneId :=
  tab ← or_else (workspaces snapshot !! workspace ≫= ws_active_tab) (first_tab_of snapshot workspace);
  pane_for_tab snapshot tab.

(** ** Scaling *)

Definition u16 (n : N) : Prop := (n ≤ u16_max)%N.
Definition u16_rect (r : Rect) : Prop :=
  (area_x r + area_width r ≤ u16_max ∧ area_y r + area_height r ≤ u16_max)%N.
(** A pane inside its layout's area; every edge fits 16 bits. *)
Definition lies_in (source pane : LayoutRect) : Prop :=
  (rect_x source ≤ rect_x pane ∧ rect_x pane + rect_width pane ≤ rect_x source + rect_width source
   ∧ rect_y source ≤ rect_y pane ∧ rect_y pane + rect_height pane ≤ rect_y source + rect_height source
   ∧ rect_width source ≤ u16_max ∧ rect_height source ≤ u16_max)%N.
Definition within (outer inner : Rect) : Prop :=
  (area_x outer ≤ area_x inner ∧ area_x inner + area_width inner ≤ area_x outer + area_width outer
   ∧ area_y outer ≤ area_y inner ∧ area_y inner + area_height inner ≤ area_y outer + area_height outer)%N.
Definition layout_apart (a b : LayoutRect) : Prop :=
  (rect_x a + rect_width a ≤ rect_x b ∨ rect_x b + rect_width b ≤ rect_x a
   ∨ rect_y a + rect_height a ≤ rect_y b ∨ rect_y b + rect_height b ≤ rect_y a)%N.
Definition apart (a b : Rect) : Prop :=
  (area_x a + area_width a ≤ area_x b ∨ area_x b + area_width b ≤ area_x a
   ∨ area_y a + area_height a ≤ area_y b ∨ area_y b + area_height b ≤ area_y a)%N.

Definition edge (offset source destination : N) : N := (offset * destination / source)%N.

Lemma as_u16_id n : (n ≤ u16_max)%N → as_u16 n = n.
Proof.
  intros Hn. unfold as_u16, u16_max in *. change 65535%N with (N.ones 16). rewrite N.land_ones.
  apply N.mod_small. simpl. lia.
Qed.
Lemma edge_le offset source destination : (offset ≤ source → source ≠ 0 → edge offset source destination ≤ destination)%N.
Proof. intros. unfold edge. apply N.Div0.div_le_upper_bound, N.mul_le_mono_r. lia. Qed.
Lemma edge_mono a b source destination : (a ≤ b → source ≠ 0 → edge a source destination ≤ edge b source destination)%N.
Proof. intros. unfold edge. apply N.Div0.div_le_mono, N.mul_le_mono_r. lia. Qed.
Lemma scale_edge_small offset source destination :
  (offset ≤ source → source ≠ 0 → destination ≤ u16_max → scale_edge offset source destination = edge offset source destination)%N.
Proof. intros Ho Hs Hd. unfold scale_edge. apply as_u16_id. pose proof (edge_le _ _ destination Ho Hs). unfold edge in *. lia. Qed.

(** What scaling is when nothing is out of range: each edge on its own, so two panes that
    share an edge still share it. *)
Lemma scale_edges source pane destination area :
  lies_in source pane → u16_rect destination → scale_layout_rect source pane destination = Some area →
  (area_x area = area_x destination + edge (rect_x pane - rect_x source) (rect_width source) (area_width destination)
   ∧ area_x area + area_width area
     = area_x destination + edge (rect_x pane + rect_width pane - rect_x source) (rect_width source) (area_width destination)
   ∧ area_y area = area_y destination + edge (rect_y pane - rect_y source) (rect_height source) (area_height destination)
   ∧ area_y area + area_height area
     = area_y destination + edge (rect_y pane + rect_height pane - rect_y source) (rect_height source) (area_height destination)
   ∧ rect_width source ≠ 0 ∧ rect_height source ≠ 0)%N.
Proof.
  intros (Hx & Hx' & Hy & Hy' & Hw & Hh) [Hdx Hdy]. unfold scale_layout_rect, u16_saturating_add.
  destruct (_ || _) eqn:Hz; [done|]. apply orb_false_iff in Hz as [[[Hsw Hsh]%orb_false_iff _]%orb_false_iff _].
  apply N.eqb_neq in Hsw, Hsh.
  rewrite (N.min_l (rect_x pane - rect_x source + rect_width pane) u16_max) by lia.
  rewrite (N.min_l (rect_y pane - rect_y source + rect_height pane) u16_max) by lia.
  replace (rect_x pane - rect_x source + rect_width pane)%N with (rect_x pane + rect_width pane - rect_x source)%N by lia.
  replace (rect_y pane - rect_y source + rect_height pane)%N with (rect_y pane + rect_height pane - rect_y source)%N by lia.
  rewrite !scale_edge_small by lia.
  assert (edge (rect_x pane - rect_x source) (rect_width source) (area_width destination) ≤ area_width destination)%N as H1
    by (apply edge_le; lia).
  assert (edge (rect_x pane + rect_width pane - rect_x source) (rect_width source) (area_width destination)
          ≤ area_width destination)%N as H2 by (apply edge_le; lia).
  assert (edge (rect_y pane - rect_y source) (rect_height source) (area_height destination) ≤ area_height destination)%N as H3
    by (apply edge_le; lia).
  assert (edge (rect_y pane + rect_height pane - rect_y source) (rect_height source) (area_height destination)
          ≤ area_height destination)%N as H4 by (apply edge_le; lia).
  rewrite (N.min_l _ _ H1), (N.min_l _ _ H2), (N.min_l _ _ H3), (N.min_l _ _ H4).
  generalize dependent (edge (rect_x pane - rect_x source) (rect_width source) (area_width destination)).
  generalize dependent (edge (rect_x pane + rect_width pane - rect_x source) (rect_width source) (area_width destination)).
  generalize dependent (edge (rect_y pane - rect_y source) (rect_height source) (area_height destination)).
  generalize dependent (edge (rect_y pane + rect_height pane - rect_y source) (rect_height source) (area_height destination)).
  intros bottom Hb top Ht right Hr left Hl.
  destruct (_ && _) eqn:Hne; [|done]. apply andb_true_iff in Hne as [Hlr%N.ltb_lt Htb%N.ltb_lt].
  rewrite (N.min_l (area_x destination + left)), (N.min_l (area_y destination + top)) by lia.
  intros [= <-]. cbn [area_x area_y area_width area_height]. clear -Hlr Htb Hsw Hsh. lia.
Qed.

Lemma scaled_within source p destination a :
  lies_in source p → u16_rect destination → scale_layout_rect source p destination = Some a → within destination a.
Proof.
  intros Hp Hd Ha. pose proof (scale_edges _ _ _ _ Hp Hd Ha) as (Ha1 & Ha2 & Ha3 & Ha4 & Hw & Hh).
  destruct Hp as (Hp1 & Hp2 & Hp3 & Hp4 & _ & _). unfold within. rewrite Ha2, Ha4, Ha1, Ha3.
  split_and!; [apply N.le_add_r|apply N.add_le_mono_l, edge_le; lia|apply N.le_add_r|apply N.add_le_mono_l, edge_le; lia].
Qed.
Lemma panes_stay_apart source p q destination a b :
  lies_in source p → lies_in source q → u16_rect destination → layout_apart p q →
  scale_layout_rect source p destination = Some a → scale_layout_rect source q destination = Some b →
  apart a b.
Proof.
  intros Hp Hq Hd Hpq Ha Hb.
  pose proof (scale_edges _ _ _ _ Hp Hd Ha) as (Ha1 & Ha2 & Ha3 & Ha4 & Hw & Hh).
  pose proof (scale_edges _ _ _ _ Hq Hd Hb) as (Hb1 & Hb2 & Hb3 & Hb4 & _ & _).
  destruct Hp as (Hp1 & Hp2 & Hp3 & Hp4 & Hsw & Hsh), Hq as (Hq1 & Hq2 & Hq3 & Hq4 & _ & _).
  unfold apart. rewrite Ha2, Hb2, Ha4, Hb4, Ha1, Hb1, Ha3, Hb3.
  destruct Hpq as [H|[H|[H|H]]]; [left|right; left|right; right; left|right; right; right];
    apply N.add_le_mono_l, edge_mono; lia.
Qed.

(** What Herdr reports of a tab: panes inside its area that do not overlap. *)
Definition tiled (layout : LayoutState) : Prop :=
  Forall (λ p, lies_in (layout_area layout) (lp_rect p)) (layout_panes layout)
  ∧ ForallOrdPairs (λ p q, layout_apart (lp_rect p) (lp_rect q)) (layout_panes layout).
Definition layouts_tiled (st : FederationState) : Prop :=
  ∀ k target snap tab layout,
    targets st !! k = Some target → snapshot target = Some snap → layouts snap !! tab = Some layout → tiled layout.

Lemma selected_from st selected snap pane :
  selected_snapshot_and_pane st selected = Some (snap, pane) →
  ∃ id target, selected = Some id ∧ targets st !! target_session id = Some target
               ∧ snapshot target = Some snap ∧ panes snap !! id = Some pane.
Proof.
  unfold selected_snapshot_and_pane. destruct selected as [id|]; [|done]. simpl.
  destruct (targets st !! target_session id) as [target|] eqn:Ht; [|done]. simpl.
  destruct (snapshot target) as [s|] eqn:Hs; [|done]. simpl.
  destruct (panes s !! id) as [p|] eqn:Hp; [|done]. simpl. intros [= -> ->]. eauto 10.
Qed.

(** Whatever a session's layout and whatever size the terminal has, the panes drawn stay
    inside the terminal's area, and no cell is drawn by two of them: panes that do not
    overlap in the layout do not overlap on the screen, so a click lands in at most one. *)
Theorem visible_panes_apart st selected destination :
  u16_rect destination → layouts_tiled st →
  Forall (λ a, within destination a.2) (visible_pane_areas st selected destination)
  ∧ ForallOrdPairs (λ a b, apart a.2 b.2) (visible_pane_areas st selected destination).
Proof.
  intros Hd Htiled. unfold visible_pane_areas.
  assert (∀ id : PaneId, Forall (λ a : PaneId * Rect, within destination a.2) [(id, destination)]
             ∧ ForallOrdPairs (λ a b : PaneId * Rect, apart a.2 b.2) [(id, destination)]) as Hone.
  { intros id. split; [|repeat constructor]. constructor; [|done]. unfold within. simpl. lia. }
  destruct (selected_snapshot_and_pane st selected) as [[snap pane]|] eqn:Hsel; [|split; constructor].
  destruct (selected_from _ _ _ _ Hsel) as (id & target & -> & Ht & Hs & _).
  destruct (_ ← pane_tab pane; _) as [layout|] eqn:Hlayout; [|apply Hone].
  destruct (layout_zoomed layout); [apply Hone|].
  destruct (pane_tab pane) as [tab|]; [|done]. simpl in Hlayout.
  destruct (Htiled _ _ _ _ _ Ht Hs Hlayout) as [Hin Hapart].
  match goal with |- context [match ?l with [] => _ | _ => _ end] => set (drawn := l) end.
  assert (Forall (λ a, within destination a.2) drawn ∧ ForallOrdPairs (λ a b, apart a.2 b.2) drawn) as Hdrawn; [|by destruct drawn].
  subst drawn. induction Hapart as [|p rest Hp Hrest IH]; [split; constructor|].
  apply Forall_cons in Hin as [Hpin Hin]. destruct (IH Hin) as [IH1 IH2]. cbn [omap list_omap].
  case_bool_decide; [|done].
  destruct (scale_layout_rect _ (lp_rect p) destination) as [area|] eqn:Harea; [|done]. simpl.
  assert (within destination area) as Hwithin by by eapply scaled_within.
  split; [by constructor|]. constructor; [|done].
  apply Forall_forall. intros [id' area'] (q & Hq & Hscale)%list_elem_of_omap. revert Hscale.
  case_bool_decide; [|done]. destruct (scale_layout_rect _ (lp_rect q) destination) as [area''|] eqn:Harea'; [|done].
  intros [= <- <-]. simpl.
  eapply panes_stay_apart; [exact Hpin|by eapply Forall_forall in Hin|done|by eapply Forall_forall in Hp|done|done].
Qed.

(** ** Neighbours *)

Lemma interval_distance_sym a b c d : (a ≤ b → c ≤ d → interval_distance a b c d = interval_distance c d a b)%N.
Proof. intros. unfold interval_distance. destruct (N.ltb_spec b c), (N.ltb_spec d a); lia. Qed.

Definition opposite (d : PaneDirection) : PaneDirection :=
  match d with DirLeft => DirRight | DirRight => DirLeft | DirUp => DirDown | DirDown => DirUp end.
(** What lies to the left of a pane has that pane to its right, and as far. *)
Lemma score_opposite a b d : pane_direction_score a b d = pane_direction_score b a (opposite d).
Proof. destruct d; simpl; destruct (_ <=? _)%N; try done; do 2 f_equal; apply interval_distance_sym; lia. Qed.

Definition beyond (d : PaneDirection) (current candidate : LayoutRect) : Prop :=
  match d with
  | DirLeft => rect_x candidate + rect_width candidate ≤ rect_x current
  | DirRight => rect_x current + rect_width current ≤ rect_x candidate
  | DirUp => rect_y candidate + rect_height candidate ≤ rect_y current
  | DirDown => rect_y current + rect_height current ≤ rect_y candidate
  end%N.
Lemma score_beyond current candidate d : is_Some (pane_direction_score current candidate d) ↔ beyond d current candidate.
Proof.
  destruct d; simpl; destruct (N.leb_spec (rect_x candidate + rect_width candidate) (rect_x current)),
    (N.leb_spec (rect_x current + rect_width current) (rect_x candidate)),
    (N.leb_spec (rect_y candidate + rect_height candidate) (rect_y current)),
    (N.leb_spec (rect_y current + rect_height current) (rect_y candidate));
    split; intros Hs; try done; try (by destruct Hs); lia.
Qed.

Lemma cmp_le_fst {A B} `{OrdLaws A} `{OrdLaws B} (x y : A * B) : cmp_le x y → cmp_le x.1 y.1.
Proof.
  unfold cmp_le. change (cmp x y) with (then_cmp (cmp x.1 y.1) (cmp x.2 y.2)). by destruct (cmp x.1 y.1).
Qed.
(** Moving towards a side selects a pane that lies wholly on that side, and no pane of the
    layout lies nearer; it selects nothing exactly when no pane lies there. *)
Theorem neighbor_nearest layout current pane d :
  match neighbor_pane layout current pane d with
  | Some next => ∃ p, p ∈ layout_panes layout ∧ lp_pane p = next ∧ next ≠ pane
                    ∧ beyond d (lp_rect current) (lp_rect p)
                    ∧ ∀ q, q ∈ layout_panes layout → lp_pane q ≠ pane → beyond d (lp_rect current) (lp_rect q) →
                         ∃ near far, pane_direction_score (lp_rect current) (lp_rect p) d = Some near
                           ∧ pane_direction_score (lp_rect current) (lp_rect q) d = Some far ∧ cmp_le near far
  | None => ∀ q, q ∈ layout_panes layout → lp_pane q ≠ pane → ¬ beyond d (lp_rect current) (lp_rect q)
  end.
Proof.
  unfold neighbor_pane.
  match goal with |- context [min_by_key id ?l] => pose proof (min_by_key_spec id l) as Hmin; set (scored := l) in * end.
  assert (∀ s next, (s, next) ∈ scored ↔
    ∃ p, p ∈ layout_panes layout ∧ lp_pane p = next ∧ next ≠ pane ∧ pane_direction_score (lp_rect current) (lp_rect p) d = Some s) as Hin.
  { intros s next. unfold scored. rewrite list_elem_of_omap. split.
    - intros (p & Hp & Hs). revert Hs. case_bool_decide; [done|].
      destruct (pane_direction_score _ _ _) eqn:E; [|done]. intros [= -> <-]. eauto 10.
    - intros (p & Hp & <- & Hne & Hs). exists p. split; [done|]. by rewrite bool_decide_eq_false_2, Hs. }
  destruct (min_by_key id scored) as [[s next]|]; simpl in *.
  - destruct Hmin as [(p & Hp & <- & Hne & Hs)%Hin Hle]. exists p. split_and!; [done..| |].
    + apply score_beyond. by rewrite Hs.
    + intros q Hq Hqne [far Hfar]%score_beyond. exists s, far. split_and!; [done..|].
      assert ((far, lp_pane q) ∈ scored) as Hfq by (apply Hin; eauto 10). specialize (Hle _ Hfq).
      by apply (cmp_le_fst (s, lp_pane p) (far, lp_pane q)).
  - intros q Hq Hqne [far Hfar]%score_beyond.
    assert ((far, lp_pane q) ∈ scored) as Hfq by (apply Hin; eauto 10). by rewrite Hmin in Hfq; apply elem_of_nil in Hfq.
Qed.

(** ** Cycling *)

Lemma wrapped_index_lt current length direction :
  current < length → wrapped_index current length direction < length.
Proof.
  intros H. unfold wrapped_index. destruct (_ <? _)%Z; [destruct (_ <=? current); lia|].
  apply Nat.mod_upper_bound. lia.
Qed.
(** One step forward and one back is where one was, either way round. *)
Theorem cycle_returns current length :
  current < length →
  wrapped_index (wrapped_index current length 1) length (-1) = current
  ∧ wrapped_index (wrapped_index current length (-1)) length 1 = current.
Proof.
  intros H. unfold wrapped_index. change (1 <? 0)%Z with false. change (-1 <? 0)%Z with true.
  change (Z.to_nat 1) with 1. change (Z.to_nat (- -1)) with 1. cbv iota.
  split.
  - destruct (decide (S current = length)) as [<-|Hne].
    + rewrite Nat.add_1_r, Nat.Div0.mod_same. simpl. lia.
    + rewrite Nat.mod_small by lia. destruct (Nat.leb_spec 1 (current + 1)); lia.
  - destruct (Nat.leb_spec 1 current); [rewrite Nat.mod_small by lia; lia|].
    assert (current = 0) as -> by lia. rewrite Nat.sub_add by lia. apply Nat.Div0.mod_same.
Qed.

(** ** Concrete inputs *)

Definition side_by_side : LayoutState :=
  let pane name x := {| lp_pane := QualifiedId_new (u "box") (u "main") (u name); lp_focused := bool_decide (x = 0)%N;
                        lp_rect := {| rect_x := x; rect_y := 0; rect_width := 40; rect_height := 24 |} |} in
  {| layout_workspace := QualifiedId_new (u "box") (u "main") (u "w"); layout_tab := QualifiedId_new (u "box") (u "main") (u "t");
     layout_zoomed := false; layout_area := {| rect_x := 0; rect_y := 0; rect_width := 80; rect_height := 24 |};
     layout_focused_pane := QualifiedId_new (u "box") (u "main") (u "left");
     layout_panes := [pane "left" 0%N; pane "right" 40%N] |}.
Lemma cycle_returns_witness : 2 < 3 ∧ wrapped_index (wrapped_index 2 3 1) 3 (-1) = 2.
Proof. split; [lia|]. apply (cycle_returns 2 3). lia. Defined.
Example right_of_left :
  neighbor_pane side_by_side {| lp_pane := QualifiedId_new (u "box") (u "main") (u "left"); lp_focused := true;
    lp_rect := {| rect_x := 0; rect_y := 0; rect_width := 40; rect_height := 24 |} |}
    (QualifiedId_new (u "box") (u "main") (u "left")) DirRight = Some (QualifiedId_new (u "box") (u "main") (u "right")).
Proof. vm_compute. reflexivity. Qed.
