(* ===== verification/TuiActions.v ===== *)
(** What the frontend can be asked to do, and what it offers to do: [ResourceAction]
    ([src/src/resource_action.rs]), the palette and the context menus of [src/src/tui.rs].

    Debug quoting and lowercasing depend on tables of the standard library and are
    arguments.

    Everything offered is about a session that is up, a context menu never leaves its
    session, and the palette finds exactly what its query spells. *)

From S2P Require Import Prelude Model Json Text State StateFacts Attention AgentMarks AgentCards Operation HerdrSupport TuiLayout.

Class UnicodeTables := {
  (** [{:?}] of a string. *)
  str_debug : ustr → ustr;
  (** [str::to_lowercase]. *)
  to_lowercase : ustr → ustr;
}.

(** ** Labels *)

Definition safe_text (value : ustr) : ustr := (λ c, if is_control c then 32%N else c) <$> value.
Definition display_label (id : ustr) (label : option ustr) : ustr :=
  match label with
  | Some ((_ :: _) as label) => safe_text label
  | _ => safe_text id
  end.

(** ** Actions *)

Inductive ResourceAction :=
  | JumpToPane (pane : PaneId) (label : ustr)
  | OpenTargetManager
  | OpenAgentNavigator
  | OpenAttentionCenter
  | ActCreateWorkspace (target : TargetSession)
  | ActRenameWorkspace (workspace : WorkspaceId) (current_label : ustr)
  | ActCloseWorkspace (workspace : WorkspaceId) (label : ustr)
  | ActMoveWorkspace (workspace destination : WorkspaceId) (label destination_label : ustr)
  | ActRecreateWorkspace (workspace : WorkspaceId) (destination : TargetSession) (label : ustr)
  | ActCreateTab (workspace : WorkspaceId)
  | ActRenameTab (tab : TabId) (current_label : ustr)
  | ActCloseTab (tab : TabId) (label : ustr)
  | ActSplitPane (pane : PaneId) (direction : SplitDirection)
  | ActTogglePaneZoom (pane : PaneId)
  | ActClosePane (pane : PaneId) (label : ustr)
  | ActInvokePluginAction (action : PluginAction) (context : PluginInvocationTarget)
  | SaveFileFromPane (pane : PaneId) (label : ustr)
  | TransferFileBetween (source destination : PaneId) (label destination_label : ustr)
  | CancelFileTransfer
  | ActMarkAgent (agent : AgentId) (mark : AgentMarkRequest) (label : ustr).
#[export] Instance ResourceAction_eq_dec : EqDecision ResourceAction.
Proof. solve_decision. Defined.

Definition mutates_herdr (a : ResourceAction) : bool :=
  match a with
  | JumpToPane _ _ | OpenTargetManager | OpenAgentNavigator | OpenAttentionCenter | ActMarkAgent _ _ _
  | SaveFileFromPane _ _ | CancelFileTransfer => false
  | _ => true
  end.
Definition action_is_destructive (a : ResourceAction) : bool :=
  match a with ActCloseWorkspace _ _ | ActCloseTab _ _ | ActClosePane _ _ => true | _ => false end.
Definition action_session (a : ResourceAction) : option TargetSession :=
  match a with
  | JumpToPane pane _ | ActSplitPane pane _ | ActTogglePaneZoom pane | ActClosePane pane _
  | SaveFileFromPane pane _ => Some (target_session pane)
  | TransferFileBetween source _ _ _ => Some (target_session source)
  | ActCreateWorkspace target => Some target
  | ActRenameWorkspace workspace _ | ActCloseWorkspace workspace _ | ActMoveWorkspace workspace _ _ _
  | ActRecreateWorkspace workspace _ _ | ActCreateTab workspace => Some (target_session workspace)
  | ActRenameTab tab _ | ActCloseTab tab _ => Some (target_session tab)
  | ActInvokePluginAction action _ => Some (pa_target (act_id action))
  | ActMarkAgent agent _ _ => Some (target_session agent)
  | CancelFileTransfer | OpenTargetManager | OpenAgentNavigator | OpenAttentionCenter => None
  end.

Section labels.
Context `{UnicodeTables}.

Definition palette_label (a : ResourceAction) : ustr :=
  match a with
  | JumpToPane _ label => u "Jump to " ++ label
  | OpenTargetManager => u "Manage machines"
  | OpenAgentNavigator => u "Open agent navigator"
  | OpenAttentionCenter => u "Open attention history"
  | ActCreateWorkspace _ => u "Create workspace"
  | ActRenameWorkspace _ current_label => u "Rename workspace " ++ str_debug current_label
  | ActCloseWorkspace _ label => u "Close workspace " ++ str_debug label
  | ActMoveWorkspace _ _ label destination_label =>
      u "Move workspace " ++ str_debug label ++ u " into " ++ str_debug destination_label
  | ActRecreateWorkspace _ destination label =>
      u "Recreate workspace " ++ str_debug label ++ u " on " ++ display_target_session destination ++ u " (new shells)"
  | ActCreateTab _ => u "Create tab"
  | ActRenameTab _ current_label => u "Rename tab " ++ str_debug current_label
  | ActCloseTab _ label => u "Close tab " ++ str_debug label
  | ActSplitPane _ direction => u "Split pane " ++ cli_value direction
  | ActTogglePaneZoom _ => u "Toggle pane zoom"
  | ActClosePane _ label => u "Close pane " ++ str_debug label
  | ActInvokePluginAction action _ => u "Plugin: " ++ act_title action
  | SaveFileFromPane _ label => u "Save a file from " ++ str_debug label
  | TransferFileBetween _ _ label destination_label =>
      u "Send a file from " ++ str_debug label ++ u " to " ++ str_debug destination_label
  | CancelFileTransfer => u "Cancel the file transfer"
  | ActMarkAgent _ mark label =>
      match mark with
      | Pin true => u "Pin agent " ++ str_debug label
      | Pin false => u "Unpin agent " ++ str_debug label
      | Mute true => u "Mute agent " ++ str_debug label
      | Mute false => u "Unmute agent " ++ str_debug label
      | Snooze (Some minutes) => u "Snooze agent " ++ str_debug label ++ u " for " ++ display_N minutes ++ u " minutes"
      | Snooze None => u "Wake agent " ++ str_debug label
      | Notify NeedsYouOnly => u "Notify about agent " ++ str_debug label ++ u " only when it needs you"
      | Notify NotifyDefault => u "Notify about agent " ++ str_debug label ++ u " normally"
      end
  end.
Definition palette_scope (a : ResourceAction) : ustr :=
  match action_session a with Some target => display_target_session target | None => u "Super-Herdr" end.
Definition search_text (a : ResourceAction) : ustr :=
  let description := match a with ActInvokePluginAction action _ => default [] (act_description action) | _ => [] end in
  palette_label a ++ u " " ++ palette_scope a ++ u " " ++ description.

(** ** Searching *)

(** The first position from [cursor] on that holds [expected]. *)
Definition find_from (candidate : ustr) (cursor : nat) (expected : N) : option nat :=
  (λ i, cursor + i) <$> position (λ c, c =? expected)%N (drop cursor candidate).
Fixpoint match_term (candidate term : ustr) (cursor : nat) (previous : option nat) (score : nat) : option (nat * nat) :=
  match term with
  | [] => Some (cursor, score)
  | expected :: term =>
      position ← find_from candidate cursor expected;
      let score := score + (position - cursor) in
      let score := match previous with
                   | Some previous => if position =? previous + 1 then score else score + 2
                   | None => score
                   end in
      match_term candidate term (position + 1) (Some position) score
  end.
Definition fuzzy_score (candidate query : ustr) : option nat :=
  let candidate := to_lowercase candidate in
  foldl (λ score term,
      score ← score;
      matched ← match_term candidate term 0 None score;
      let '(cursor, score) := matched in Some (score + (length candidate - cursor) / 8))
    (Some 0) (split_whitespace (to_lowercase query)).
End labels.

(** ** What is offered *)

Record PluginCatalog := { pc_generation : N; pc_actions : list PluginAction; pc_loaded_at : N }.

Inductive ContextTarget :=
  | CtxSession (target : TargetSession) | CtxWorkspace (workspace : WorkspaceId) | CtxTab (tab : TabId) | CtxPane (pane : PaneId).
#[export] Instance ContextTarget_eq_dec : EqDecision ContextTarget.
Proof. solve_decision. Defined.
Definition context_session (c : ContextTarget) : TargetSession :=
  match c with
  | CtxSession target => target
  | CtxWorkspace workspace => target_session workspace
  | CtxTab tab => target_session tab
  | CtxPane pane => target_session pane
  end.
Definition invocation_of (c : ContextTarget) : PluginInvocationTarget :=
  match c with
  | CtxSession target => InvokeSession target
  | CtxWorkspace workspace => InvokeWorkspace workspace
  | CtxTab tab => InvokeTab tab
  | CtxPane pane => InvokePane pane
  end.

Definition MAX_CONTEXT_MENU_MOVE_DESTINATIONS : nat := 8.
Definition TUI_SNOOZE_MINUTES : N := 60.

Definition plugin_target_available (st : FederationState) (target : TargetSession) : bool :=
  match targets st !! target with
  | Some runtime => is_live runtime && HerdrSupport.supports (snapshot runtime) PluginActionsFeature
  | None => false
  end.
Definition context_allows (action : PluginAction) (t : PluginInvocationTarget) : bool :=
  match t with
  | InvokeSession _ => Operation.supports action CGlobal
  | InvokeWorkspace _ => Operation.supports action CGlobal || Operation.supports action CWorkspace
  | InvokeTab _ =>
      Operation.supports action CGlobal || Operation.supports action CWorkspace || Operation.supports action CTab
  | InvokePane _ =>
      Operation.supports action CGlobal || Operation.supports action CWorkspace || Operation.supports action CTab
      || Operation.supports action CPane
  end.
Definition plugin_resource_actions (catalog : PluginCatalog) (t : PluginInvocationTarget) : list ResourceAction :=
  (λ action, ActInvokePluginAction action t)
  <$> filter (λ action, pa_target (act_id action) = invocation_session t ∧ context_allows action t = true) (pc_actions catalog).
(** Before the first destructive action. *)
Definition insert_plugin_actions (actions : list ResourceAction) (catalog : PluginCatalog) (t : PluginInvocationTarget)
    : list ResourceAction :=
  let before_destructive := default (length actions) (position action_is_destructive actions) in
  take before_destructive actions ++ plugin_resource_actions catalog t ++ drop before_destructive actions.

Definition workspace_move_actions (snapshot : NormalizedSnapshot) (source : WorkspaceId) : list ResourceAction :=
  match workspaces snapshot !! source with
  | None => []
  | Some workspace =>
      let label := display_label (resource (ws_id workspace)) (ws_label workspace) in
      (λ destination, ActMoveWorkspace source (ws_id destination) label
                        (display_label (resource (ws_id destination)) (ws_label destination)))
      <$> filter (λ destination, ws_id destination ≠ source) (values (workspaces snapshot))
  end.
Definition workspace_recreate_actions (st : FederationState) (snapshot : NormalizedSnapshot) (source : WorkspaceId)
    : list ResourceAction :=
  match workspaces snapshot !! source with
  | None => []
  | Some workspace =>
      let label := display_label (resource (ws_id workspace)) (ws_label workspace) in
      (λ runtime, ActRecreateWorkspace source (key runtime) label)
      <$> filter (λ runtime, key runtime ≠ target_session source ∧ is_live runtime = true
                             ∧ is_Some (State.snapshot runtime)) (values (targets st))
  end.

(** The label is looked up in the destination's snapshot. *)
Definition transfer_label (snapshot : NormalizedSnapshot) (pane : PaneId) : ustr :=
  match panes snapshot !! pane with
  | Some held => display_label (resource (pane_id held)) (pane_label held)
  | None => resource pane
  end.
Definition transfer_destinations (st : FederationState) (source : PaneId) : list ResourceAction :=
  omap (λ runtime,
      if bool_decide (key runtime = target_session source) || negb (is_live runtime) then None
      else
        snapshot ← snapshot runtime;
        destination ← head (keys (panes snapshot));
        Some (TransferFileBetween source destination (transfer_label snapshot source)
                (display_target_session (key runtime))))
    (values (targets st)).

Definition agent_mark_actions (snapshot : NormalizedSnapshot) (pane : PaneId) (label : ustr)
    (marks : gmap AgentId AgentMarkState) : list ResourceAction :=
  match agents snapshot !! pane with
  | None => []
  | Some state =>
      let agent := agent_key state in
      let marked := default AgentMarkState_default (marks !! agent) in
      (λ mark, ActMarkAgent agent mark label)
      <$> [Pin (negb (pinned marked)); Mute (negb (muted marked));
           Snooze (match snoozed_until_ms marked with None => Some TUI_SNOOZE_MINUTES | Some _ => None end);
           Notify (match notify marked with NotifyDefault => NeedsYouOnly | NeedsYouOnly => NotifyDefault end)]
  end.

Definition actionable_target (st : FederationState) (target : TargetSession) : option TargetRuntimeState :=
  runtime ← targets st !! target;
  if is_live runtime && bool_decide (is_Some (selected_herdr_bin runtime)) then Some runtime else None.
Definition actionable_snapshot (st : FederationState) (target : TargetSession) : option NormalizedSnapshot :=
  runtime ← actionable_target st target; snapshot runtime.

Definition workspace_actions (st : FederationState) (snapshot : NormalizedSnapshot) (pane : PaneState) : list ResourceAction :=
  match (workspace ← pane_workspace pane; workspaces snapshot !! workspace) with
  | None => []
  | Some workspace =>
      let label := display_label (resource (ws_id workspace)) (ws_label workspace) in
      [ActRenameWorkspace (ws_id workspace) label; ActCloseWorkspace (ws_id workspace) label; ActCreateTab (ws_id workspace)]
      ++ workspace_move_actions snapshot (ws_id workspace) ++ workspace_recreate_actions st snapshot (ws_id workspace)
  end.
Definition tab_actions (snapshot : NormalizedSnapshot) (pane : PaneState) : list ResourceAction :=
  match (tab ← pane_tab pane; tabs snapshot !! tab) with
  | None => []
  | Some tab =>
      let label := display_label (resource (tab_id tab)) (tab_label tab) in
      [ActRenameTab (tab_id tab) label; ActCloseTab (tab_id tab) label]
  end.
Definition pane_actions (pane : PaneId) (label : ustr) : list ResourceAction :=
  [ActSplitPane pane SplitRight; ActSplitPane pane SplitDown; ActTogglePaneZoom pane; ActClosePane pane label;
   SaveFileFromPane pane label].
(** What concerns the selected pane. *)
Definition selected_actions (st : FederationState) (selected : option PaneId) (marks : gmap AgentId AgentMarkState)
    : list ResourceAction :=
  match (selected' ← selected; _ ← actionable_target st (target_session selected'); selected_snapshot_and_pane st selected) with
  | None => []
  | Some (snapshot, pane) =>
      let label := display_label (resource (pane_id pane)) (pane_label pane) in
      workspace_actions st snapshot pane ++ tab_actions snapshot pane ++ pane_actions (pane_id pane) label
      ++ transfer_destinations st (pane_id pane) ++ agent_mark_actions snapshot (pane_id pane) label marks
  end.

(** What each session that can be operated on offers. *)
Definition session_actions (runtime : TargetRuntimeState) (snapshot : NormalizedSnapshot) : list ResourceAction :=
  [ActCreateWorkspace (key runtime)]
  ++ match or_else (focused_pane snapshot) (head (keys (panes snapshot))) with
     | Some pane => [JumpToPane pane (u "session " ++ ts_session (key runtime))]
     | None => []
     end
  ++ omap (λ workspace, (λ pane, JumpToPane pane (u "workspace " ++ display_label (resource (ws_id workspace)) (ws_label workspace)))
                        <$> pane_for_workspace snapshot (ws_id workspace)) (values (workspaces snapshot))
  ++ omap (λ tab, (λ pane, JumpToPane pane (u "tab " ++ display_label (resource (tab_id tab)) (tab_label tab)))
                  <$> pane_for_tab snapshot (tab_id tab)) (values (tabs snapshot))
  ++ ((λ pane, JumpToPane (pane_id pane) (u "pane " ++ display_label (resource (pane_id pane)) (pane_label pane)))
      <$> values (panes snapshot))
  ++ omap (λ agent, if bool_decide (is_Some (panes snapshot !! ag_pane agent))
                    then Some (JumpToPane (ag_pane agent) (u "agent " ++ safe_text (default (u "agent") (or_else (ag_name agent) (ag_agent agent)))))
                    else None) (values (agents snapshot)).
Definition plugin_context (selected : option PaneId) (target : TargetSession) : PluginInvocationTarget :=
  match selected with
  | Some pane => if bool_decide (target_session pane = target) then InvokePane pane else InvokeSession target
  | None => InvokeSession target
  end.

Definition command_palette_actions (st : FederationState) (selected : option PaneId)
    (catalogs : gmap TargetSession PluginCatalog) (marks : gmap AgentId AgentMarkState) (transferring : bool)
    : list ResourceAction :=
  [OpenTargetManager; OpenAgentNavigator; OpenAttentionCenter]
  ++ (if transferring then [CancelFileTransfer] else [])
  ++ selected_actions st selected marks
  ++ (runtime ← values (targets st);
      if is_live runtime && bool_decide (is_Some (selected_herdr_bin runtime))
      then match snapshot runtime with Some snapshot => session_actions runtime snapshot | None => [] end
      else [])
  ++ (tc ← entries catalogs;
      if plugin_target_available st tc.1 then plugin_resource_actions tc.2 (plugin_context selected tc.1) else []).

Record ContextMenu := {
  cm_title : ustr; cm_actions : list ResourceAction; cm_target : ContextTarget; cm_selected : nat;
  cm_anchor : N * N; cm_pressed : option nat }.
Definition middot : ustr := u " " ++ [183%N] ++ u " ".

(** Title and actions, before the plugins'. *)
Definition context_base (st : FederationState) (target : ContextTarget) (marks : gmap AgentId AgentMarkState)
    : option (ustr * list ResourceAction) :=
  snapshot ← actionable_snapshot st (context_session target);
  let on_session := middot ++ display_target_session (context_session target) in
  match target with
  | CtxSession target => Some (u "session " ++ display_target_session target, [ActCreateWorkspace target])
  | CtxWorkspace workspace =>
      found ← workspaces snapshot !! workspace;
      let label := display_label (resource (ws_id found)) (ws_label found) in
      Some (u "workspace " ++ label ++ on_session,
            [ActCreateTab workspace; ActRenameWorkspace workspace label]
            ++ take MAX_CONTEXT_MENU_MOVE_DESTINATIONS (workspace_move_actions snapshot workspace)
            ++ take MAX_CONTEXT_MENU_MOVE_DESTINATIONS (workspace_recreate_actions st snapshot workspace)
            ++ [ActCloseWorkspace workspace label])
  | CtxTab tab =>
      found ← tabs snapshot !! tab;
      let label := display_label (resource (tab_id found)) (tab_label found) in
      Some (u "tab " ++ label ++ on_session, [ActRenameTab tab label; ActCloseTab tab label])
  | CtxPane pane =>
      found ← panes snapshot !! pane;
      let label := display_label (resource (pane_id found)) (pane_label found) in
      Some (u "pane " ++ label ++ on_session,
            pane_actions pane label
            ++ take MAX_CONTEXT_MENU_MOVE_DESTINATIONS (transfer_destinations st pane)
            ++ agent_mark_actions snapshot pane label marks)
  end.
Definition context_menu_for_target (st : FederationState) (target : ContextTarget) (anchor : N * N)
    (catalogs : gmap TargetSession PluginCatalog) (marks : gmap AgentId AgentMarkState) : option ContextMenu :=
  base ← context_base st target marks;
  let '(title, actions) := base in
  let invocation := invocation_of target in
  let actions := match catalogs !! invocation_session invocation with
                 | Some catalog => insert_plugin_actions actions catalog invocation
                 | None => actions
                 end in
  Some {| cm_title := title; cm_actions := actions; cm_target := target; cm_selected := 0; cm_anchor := anchor;
          cm_pressed := None |}.

Section palette.
Context `{UnicodeTables}.
(** Scored, then by label, then by scope; a stable sort. *)
Definition palette_le (a b : nat * ResourceAction) : Prop :=
  cmp_le (N.of_nat a.1, (palette_label a.2, palette_scope a.2)) (N.of_nat b.1, (palette_label b.2, palette_scope b.2)).
#[export] Instance palette_le_dec : RelDecision palette_le.
Proof. intros a b. unfold palette_le. apply _. Defined.
Definition filtered_palette_actions (st : FederationState) (selected : option PaneId) (query : ustr)
    (catalogs : gmap TargetSession PluginCatalog) (marks : gmap AgentId AgentMarkState) (transferring : bool)
    : list ResourceAction :=
  snd <$> stable_sort palette_le
    (omap (λ action, (λ score, (score, action)) <$> fuzzy_score (search_text action) query)
       (command_palette_actions st selected catalogs marks transferring)).
End palette.

(** ** Sessions *)

(** What is focused belongs to its session, as everything else a snapshot names. *)
Definition focus_wf (ts : TargetSession) (s : NormalizedSnapshot) : Prop :=
  (∀ pane, focused_pane s = Some pane → target_session pane = ts)
  ∧ (∀ tab l, layouts s !! tab = Some l → target_session (layout_focused_pane l) = ts).
Definition focused_wf (st : FederationState) : Prop :=
  ∀ k t s, targets st !! k = Some t → snapshot t = Some s → focus_wf k s.
Lemma snapshot_from_value_focus {V} `{JsonValue V} ts (v : V) : focus_wf ts (snapshot_from_value ts v).
Proof.
  split.
  - intros pane Hpane. exact (qualified_field_session _ _ _ _ Hpane).
  - intros tab l Hl%collect_map_lookup. apply list_elem_of_omap in Hl as (item & _ & Hitem). revert Hitem. unfold layout_state.
    intros (w & _ & Hitem)%bind_Some. apply bind_Some in Hitem as (t & _ & Hitem). apply bind_Some in Hitem as (f & Hf & Hitem).
    apply bind_Some in Hitem as (area & _ & [= _ <-]). simpl. by eapply qualified_field_session.
Qed.

(** Every action of a list that is about a session is about [ts]. *)
Definition all_on (ts : TargetSession) (l : list ResourceAction) : Prop :=
  Forall (λ a, ∀ t, action_session a = Some t → t = ts) l.
#[local] Hint Unfold all_on : core.
Lemma all_on_elem ts l a t : all_on ts l → a ∈ l → action_session a = Some t → t = ts.
Proof. intros Hon Ha. exact (proj1 (Forall_forall _ _) Hon a Ha t). Qed.
Lemma all_on_app ts l k : all_on ts l → all_on ts k → all_on ts (l ++ k).
Proof. intros. by apply Forall_app_2. Qed.
Lemma all_on_take ts n l : all_on ts l → all_on ts (take n l).
Proof. apply Forall_take. Qed.
Lemma all_on_map {A} ts (f : A → ResourceAction) l : (∀ x, action_session (f x) = Some ts) → all_on ts (f <$> l).
Proof. intros Hf. apply Forall_fmap, Forall_true. intros x t. simpl. rewrite Hf. congruence. Qed.
Ltac one_by_one :=
  repeat first [apply Forall_nil_2 | apply Forall_cons; split; [simpl; intros ? [= <-]; done|] | apply all_on_app].

Lemma agent_session agent : target_session (agent_key agent) = target_session (ag_pane agent).
Proof. unfold agent_key. by destruct (ag_session agent). Qed.

Lemma move_actions_on snap source : all_on (target_session source) (workspace_move_actions snap source).
Proof. unfold workspace_move_actions. destruct (_ !! source); [by apply all_on_map|constructor]. Qed.
Lemma recreate_actions_on st snap source : all_on (target_session source) (workspace_recreate_actions st snap source).
Proof. unfold workspace_recreate_actions. destruct (_ !! source); [by apply all_on_map|constructor]. Qed.
Lemma transfers_on st source : all_on (target_session source) (transfer_destinations st source).
Proof.
  apply Forall_forall. intros a (runtime & _ & Ha)%list_elem_of_omap t Ht. revert Ha.
  destruct (_ || _); [done|]. intros (snap & _ & Ha)%bind_Some. apply bind_Some in Ha as (d & _ & [= <-]). by injection Ht.
Qed.
Lemma marks_on ts snap pane label marks :
  snapshot_wf ts snap → all_on ts (agent_mark_actions snap pane label marks).
Proof.
  intros Hwf. unfold agent_mark_actions. destruct (agents snap !! pane) as [state|] eqn:Ha; [|constructor].
  destruct (wf_agents _ _ Hwf) as [Hkeyed Hsession]. apply all_on_map. intros mark. simpl.
  rewrite agent_session. f_equal. rewrite <-(Hsession _ _ Ha). f_equal. by apply (Hkeyed pane state).
Qed.

Section context_menu.
Context (st : FederationState) (catalogs : gmap TargetSession PluginCatalog) (marks : gmap AgentId AgentMarkState).
Hypothesis Hwf : federation_wf st.

Lemma actionable_snapshot_Some ts snap :
  actionable_snapshot st ts = Some snap →
  ∃ runtime, targets st !! ts = Some runtime ∧ connection runtime = Live ∧ is_Some (selected_herdr_bin runtime)
             ∧ snapshot runtime = Some snap ∧ snapshot_wf ts snap.
Proof using Hwf.
  unfold actionable_snapshot, actionable_target. intros (runtime & Hr & Hs)%bind_Some.
  apply bind_Some in Hr as (runtime' & Ht & Hr). destruct (_ && _) eqn:Hok; [|done]. injection Hr as ->.
  apply andb_true_iff in Hok as [Hlive Hbin]. unfold is_live in Hlive. rewrite bool_decide_eq_true in Hlive, Hbin.
  exists runtime. split_and!; [done..|]. destruct (Hwf _ _ Ht) as [_ Hsnap]. by apply Hsnap.
Qed.
Lemma keyed_id {k V} `{Keyed (QualifiedId k) V} ts (m : gmap (QualifiedId k) V) id v :
  qualified_map ts m → m !! id = Some v → wire_key v = id ∧ target_session id = ts.
Proof. intros [Hk Hs] Hm. split; [by apply (Hk id v)|by eapply Hs]. Qed.

Lemma context_base_on target title actions :
  context_base st target marks = Some (title, actions) → all_on (context_session target) actions.
Proof using Hwf.
  unfold context_base. intros (snap & (runtime & _ & _ & _ & _ & Hsnap)%actionable_snapshot_Some & Hb)%bind_Some.
  destruct target as [target|workspace|tab|pane]; simpl in *.
  - injection Hb as _ <-. one_by_one.
  - apply bind_Some in Hb as (found & Hf & [= _ <-]).
    one_by_one; [apply all_on_take, move_actions_on|apply all_on_take, recreate_actions_on].
  - apply bind_Some in Hb as (found & Hf & [= _ <-]). one_by_one.
  - apply bind_Some in Hb as (found & Hf & [= _ <-]). one_by_one.
    + apply all_on_take, transfers_on.
    + by apply marks_on.
Qed.

Lemma insert_plugins_on ts actions catalog t :
  invocation_session t = ts → all_on ts actions → all_on ts (insert_plugin_actions actions catalog t).
Proof using.
  intros <- Hactions. unfold insert_plugin_actions. repeat apply all_on_app; [by apply Forall_take| |by apply Forall_drop].
  apply Forall_fmap, Forall_forall. intros action [[Hs _] _]%list_elem_of_filter t'. simpl. congruence.
Qed.

(** A context menu is about the resource it was opened on and nothing else: it opens
    only on a session that is live with a Herdr to run, and everything it offers, the
    plugins' actions included, acts from that resource's session. *)
Theorem context_menu_stays target anchor menu :
  context_menu_for_target st target anchor catalogs marks = Some menu →
  cm_target menu = target
  ∧ (∃ runtime, targets st !! context_session target = Some runtime ∧ connection runtime = Live
                ∧ is_Some (selected_herdr_bin runtime))
  ∧ ∀ a t, a ∈ cm_actions menu → action_session a = Some t → t = context_session target.
Proof using Hwf.
  unfold context_menu_for_target. intros ([title actions] & Hbase & [= <-])%bind_Some. simpl.
  split; [done|]. split.
  - unfold context_base in Hbase. apply bind_Some in Hbase as (snap & (runtime & ? & ? & ? & _)%actionable_snapshot_Some & _). eauto.
  - intros a t Ha. revert t. pattern a. revert a Ha. apply Forall_forall.
    pose proof (context_base_on _ _ _ Hbase) as Hon. destruct (catalogs !! _); [|done].
    apply insert_plugins_on; [by destruct target|done].
Qed.
End context_menu.

(** ** The palette *)

Lemma find_by_Some {A} (p : A → bool) l a : find_by p l = Some a → a ∈ l ∧ p a = true.
Proof.
  unfold find_by. intros Hh. assert (a ∈ filter (λ a, p a = true) l) as Hin.
  { destruct (filter _ l); [done|]. injection Hh as ->. by left. }
  by apply list_elem_of_filter in Hin as [??].
Qed.
Lemma head_elem_of {A} (l : list A) a : head l = Some a → a ∈ l.
Proof. destruct l; [done|]. intros [= ->]. by left. Qed.

Lemma pane_for_tab_session ts snap tab pane :
  snapshot_wf ts snap → focus_wf ts snap → pane_for_tab snap tab = Some pane → target_session pane = ts.
Proof.
  intros Hwf [_ Hfocus]. unfold pane_for_tab. destruct (layouts snap !! tab) as [l|] eqn:Hl; simpl.
  - intros [= <-]. by eapply Hfocus.
  - intros (p & [Hp _]%find_by_Some & ->)%fmap_Some. apply elem_of_values in Hp as [id Hid].
    destruct (keyed_id _ _ _ _ (wf_panes _ _ Hwf) Hid) as [Hkey Hs]. change (pane_id p = id) in Hkey. by rewrite Hkey.
Qed.
Lemma values_keyed {k V} `{Keyed (QualifiedId k) V} ts (m : gmap (QualifiedId k) V) v :
  qualified_map ts m → v ∈ values m → target_session (wire_key v) = ts.
Proof. intros Hm [id Hid]%elem_of_values. by destruct (keyed_id _ _ _ _ Hm Hid) as [-> ?]. Qed.

Lemma session_actions_on runtime snap :
  snapshot_wf (key runtime) snap → focus_wf (key runtime) snap → all_on (key runtime) (session_actions runtime snap).
Proof.
  intros Hwf Hfocus. unfold session_actions. repeat apply all_on_app.
  - one_by_one.
  - destruct (or_else _ _) as [pane|] eqn:Hpane; [|constructor]. apply Forall_singleton. simpl. intros t [= <-].
    destruct (focused_pane snap) as [p|] eqn:Hf; simpl in Hpane.
    + injection Hpane as <-. by apply Hfocus.
    + apply head_elem_of, elem_of_keys in Hpane as [v Hv]. by apply (wf_panes _ _ Hwf) in Hv.
  - apply Forall_forall. intros a (w & _ & (pane & Hpane & ->)%fmap_Some)%list_elem_of_omap t [= <-].
    unfold pane_for_workspace in Hpane. apply bind_Some in Hpane as (tab & _ & Htab). by eapply pane_for_tab_session.
  - apply Forall_forall. intros a (w & _ & (pane & Hpane & ->)%fmap_Some)%list_elem_of_omap t [= <-].
    by eapply pane_for_tab_session.
  - apply Forall_fmap, Forall_forall. intros p Hp t [= <-]. exact (values_keyed _ _ _ (wf_panes _ _ Hwf) Hp).
  - apply Forall_forall. intros a (agent & Hagent & Ha)%list_elem_of_omap t Ht. revert Ha.
    case_bool_decide; [|done]. intros [= <-]. injection Ht as <-. exact (values_keyed _ _ _ (wf_agents _ _ Hwf) Hagent).
Qed.

Lemma selected_actions_on st selected marks a t :
  federation_wf st → a ∈ selected_actions st selected marks → action_session a = Some t →
  ∃ runtime, targets st !! t = Some runtime ∧ connection runtime = Live.
Proof.
  intros Hwf. unfold selected_actions. destruct selected as [id|]; [|by intros ?%elem_of_nil]. cbn [mbind option_bind].
  destruct (actionable_target st (target_session id)) as [runtime|] eqn:Hact; [|by intros ?%elem_of_nil]. cbn [mbind option_bind].
  destruct (selected_snapshot_and_pane st (Some id)) as [[snap pane]|] eqn:Hsel; [|by intros ?%elem_of_nil].
  unfold selected_snapshot_and_pane in Hsel. cbn [mbind option_bind] in Hsel. apply bind_Some in Hsel as (runtime' & Hr' & Hsel).
  apply bind_Some in Hsel as (snap' & Hsnap & Hsel). apply bind_Some in Hsel as (pane' & Hpane & [= -> ->]).
  unfold actionable_target in Hact. rewrite Hr' in Hact. simpl in Hact. destruct (_ && _) eqn:Hok; [|done]. injection Hact as <-.
  apply andb_true_iff in Hok as [Hlive _]. unfold is_live in Hlive. apply bool_decide_eq_true in Hlive.
  destruct (Hwf _ _ Hr') as [_ Hswf]. specialize (Hswf _ Hsnap).
  destruct (keyed_id _ _ _ _ (wf_panes _ _ Hswf) Hpane) as [Hkey _]. change (pane_id pane = id) in Hkey.
  assert (all_on (target_session id) (workspace_actions st snap pane ++ tab_actions snap pane
    ++ pane_actions (pane_id pane) (display_label (resource (pane_id pane)) (pane_label pane))
    ++ transfer_destinations st (pane_id pane)
    ++ agent_mark_actions snap (pane_id pane) (display_label (resource (pane_id pane)) (pane_label pane)) marks)) as Hon.
  { rewrite Hkey. repeat apply all_on_app.
    - unfold workspace_actions. destruct (workspace ← _; _) as [w|] eqn:Hw; [|constructor].
      apply bind_Some in Hw as (wid & _ & Hw). destruct (keyed_id _ _ _ _ (wf_workspaces _ _ Hswf) Hw) as [Hwk Hws].
      change (ws_id w = wid) in Hwk. rewrite Hwk, <-Hws. repeat apply all_on_app; [one_by_one|apply move_actions_on|apply recreate_actions_on].
    - unfold tab_actions. destruct (tab ← _; _) as [w|] eqn:Hw; [|constructor].
      apply bind_Some in Hw as (wid & _ & Hw). destruct (keyed_id _ _ _ _ (wf_tabs _ _ Hswf) Hw) as [Hwk Hws].
      change (tab_id w = wid) in Hwk. rewrite Hwk, <-Hws. one_by_one.
    - unfold pane_actions. one_by_one.
    - apply transfers_on.
    - by apply marks_on. }
  intros Ha Ht. rewrite (all_on_elem _ _ _ _ Hon Ha Ht). eauto.
Qed.

(** Nothing in the palette acts on a session that is not up: whatever a federation
    reports, every action offered that names a session names one that is live. *)
Theorem palette_on_live_sessions st selected catalogs marks transferring a t :
  federation_wf st → focused_wf st →
  a ∈ command_palette_actions st selected catalogs marks transferring → action_session a = Some t →
  ∃ runtime, targets st !! t = Some runtime ∧ connection runtime = Live.
Proof.
  intros Hwf Hfocus Ha Ht. unfold command_palette_actions in Ha. rewrite !elem_of_app in Ha.
  destruct Ha as [Ha|[Ha|[Ha|[Ha|Ha]]]].
  - by repeat (apply elem_of_cons in Ha as [->|Ha]; [done|]); apply elem_of_nil in Ha.
  - destruct transferring; [apply list_elem_of_singleton in Ha as ->; done|by apply elem_of_nil in Ha].
  - by eapply selected_actions_on.
  - apply list_elem_of_bind in Ha as (runtime & Ha & [k Hk]%elem_of_values).
    destruct (_ && _) eqn:Hok; [|by apply elem_of_nil in Ha]. apply andb_true_iff in Hok as [Hlive _].
    unfold is_live in Hlive. apply bool_decide_eq_true in Hlive.
    destruct (snapshot runtime) as [snap|] eqn:Hsnap; [|by apply elem_of_nil in Ha].
    destruct (Hwf _ _ Hk) as [<- Hswf]. specialize (Hfocus _ _ _ Hk Hsnap).
    pose proof (session_actions_on _ _ (Hswf _ Hsnap) Hfocus) as Hon. rewrite (all_on_elem _ _ _ _ Hon Ha Ht). eauto.
  - apply list_elem_of_bind in Ha as ([k catalog] & Ha & _). simpl in Ha.
    destruct (plugin_target_available st k) eqn:Hav; [|by apply elem_of_nil in Ha].
    apply list_elem_of_fmap in Ha as (action & -> & [[Hs _] _]%list_elem_of_filter). injection Ht as <-. rewrite Hs.
    assert (invocation_session (plugin_context selected k) = k) as ->.
    { unfold plugin_context. destruct selected; [|done]. by case_bool_decide. }
    unfold plugin_target_available in Hav. destruct (targets st !! k) as [runtime|]; [|done].
    apply andb_true_iff in Hav as [Hlive _]. unfold is_live in Hlive. apply bool_decide_eq_true in Hlive. eauto.
Qed.

(** ** Searching *)

Lemma position_found {A} (p : A → bool) l i :
  position p l = Some i ↔ ∃ x, l !! i = Some x ∧ p x = true ∧ ∀ j y, l !! j = Some y → j < i → p y ≠ true.
Proof.
  unfold position. rewrite fmap_Some. split.
  - intros ([i' x] & Hf & ->). apply list_find_Some in Hf as (? & ? & ?). simpl. eauto.
  - intros (x & ? & ? & ?). exists (i, x). split; [|done]. by apply list_find_Some.
Qed.
(** The first occurrence is always a good one to start from. *)
Lemma sublist_first (c : N) term l :
  (c :: term) `sublist_of` l ↔ ∃ i, position (λ x, x =? c)%N l = Some i ∧ term `sublist_of` drop (S i) l.
Proof.
  induction l as [|y l IH].
  { split; [by intros ?%sublist_nil_r|]. intros (i & Hi & _). by apply position_found in Hi as (x & ? & _). }
  destruct (N.eqb_spec y c) as [->|Hne].
  - split.
    + intros Hs. exists 0. split; [apply position_found; exists c; split_and!; [done|apply N.eqb_refl|lia]|].
      simpl. rewrite drop_0. inversion Hs; subst; [done|]. etrans; [by apply sublist_cons|done].
    + intros (i & _ & Hs). apply sublist_skip. etrans; [exact Hs|]. simpl. apply sublist_drop.
  - assert ((c :: term) `sublist_of` (y :: l) ↔ (c :: term) `sublist_of` l) as ->.
    { split; [|by apply sublist_cons]. intros Hs. by inversion Hs; subst. }
    rewrite IH. split; intros (i & Hi & Hs).
    + exists (S i). split; [|done]. apply position_found in Hi as (x & Hx & Hp & Hbefore). apply position_found.
      exists x. split_and!; [done..|]. intros [|j] z Hz Hj; [injection Hz as ->; by rewrite (proj2 (N.eqb_neq _ _) Hne)|].
      apply (Hbefore j z Hz). lia.
    + apply position_found in Hi as (x & Hx & Hp & Hbefore). destruct i as [|i].
      { injection Hx as ->. apply N.eqb_eq in Hp. done. }
      exists i. split; [|done]. apply position_found. exists x. split_and!; [done..|].
      intros j z Hz Hj. apply (Hbefore (S j) z Hz). lia.
Qed.
Lemma match_term_spec candidate term cursor previous score :
  is_Some (match_term candidate term cursor previous score) ↔ term `sublist_of` drop cursor candidate.
Proof.
  revert cursor previous score. induction term as [|c term IH]; intros; simpl.
  { split; [intros _; apply sublist_nil_l|eauto]. }
  rewrite sublist_first. unfold find_from. destruct (position _ (drop cursor candidate)) as [i|]; simpl.
  - rewrite IH. replace (cursor + i + 1) with (cursor + S i) by lia. rewrite <-drop_drop. split; [eauto|]. by intros (j & [= <-] & Hs).
  - split; [by intros []|by intros (j & [=] & _)].
Qed.
Lemma fuzzy_score_spec `{UnicodeTables} candidate query :
  is_Some (fuzzy_score candidate query)
  ↔ ∀ term, term ∈ split_whitespace (to_lowercase query) → term `sublist_of` to_lowercase candidate.
Proof.
  unfold fuzzy_score. set (lowered := to_lowercase candidate).
  match goal with |- is_Some (foldl ?f _ _) ↔ _ =>
    assert (∀ terms score, is_Some (foldl f (Some score) terms) ↔ ∀ term, term ∈ terms → term `sublist_of` lowered) as Hfold
  end; [|by apply Hfold].
  intros terms. induction terms as [|term terms IH]; intros score; simpl.
  { split; [by intros _ term ?%elem_of_nil|eauto]. }
  pose proof (match_term_spec lowered term 0 None score) as Hmatch. rewrite drop_0 in Hmatch.
  destruct (match_term lowered term 0 None score) as [[cursor score']|]; simpl.
  - rewrite IH. split.
    + intros Hall term' [->|Hin]%elem_of_cons; [apply Hmatch; eauto|by apply Hall].
    + intros Hall term' Hin. apply Hall. by right.
  - split.
    + intros Hsome. exfalso. revert Hsome. clear. induction terms as [|t terms IH]; simpl; [by intros []|done].
    + intros Hall. destruct (proj2 Hmatch) as [? [=]]. apply Hall. by left.
Qed.

(** The palette shows exactly what its query asks for: an action is listed if and only
    if it is offered and every word of the query is spelled, in order, by the letters of
    its label, its session or its description, upper and lower case alike; and what is
    shown never ranks a worse match above a better one. *)
Theorem palette_search_exact `{UnicodeTables} st selected query catalogs marks transferring :
  (∀ a, a ∈ filtered_palette_actions st selected query catalogs marks transferring
        ↔ a ∈ command_palette_actions st selected catalogs marks transferring
          ∧ ∀ term, term ∈ split_whitespace (to_lowercase query) → term `sublist_of` to_lowercase (search_text a))
  ∧ StronglySorted (λ a b, ∀ near far, fuzzy_score (search_text a) query = Some near →
                             fuzzy_score (search_text b) query = Some far → near ≤ far)
      (filtered_palette_actions st selected query catalogs marks transferring).
Proof.
  unfold filtered_palette_actions. set (offered := command_palette_actions _ _ _ _ _).
  set (scored := omap _ offered).
  assert (∀ s a, (s, a) ∈ scored ↔ a ∈ offered ∧ fuzzy_score (search_text a) query = Some s) as Hscored.
  { intros s a. unfold scored. rewrite list_elem_of_omap. split.
    - intros (a' & Ha & (s' & Hs & [= <- <-])%fmap_Some). done.
    - intros [Ha Hs]. exists a. by rewrite Hs. }
  split.
  - intros a. rewrite <-fuzzy_score_spec, list_elem_of_fmap. setoid_rewrite (stable_sort_Permutation palette_le). split.
    + intros ([s a'] & -> & [Ha Hs]%Hscored). simpl. eauto.
    + intros [Ha [s Hs]]. exists (s, a). split; [done|]. by apply Hscored.
  - assert (Forall (λ x, fuzzy_score (search_text x.2) query = Some x.1) (stable_sort palette_le scored)) as Hall.
    { apply Forall_forall. intros [s a]. rewrite (stable_sort_Permutation palette_le). by intros [_ ?]%Hscored. }
    assert (Total palette_le ∧ Transitive palette_le) as [Htotal Htrans].
    { unfold palette_le. split; [intros a b; apply total, _|intros a b c; apply transitivity]. }
    pose proof (stable_sort_sorted palette_le scored) as Hsorted. revert Hall.
    induction Hsorted as [|x l Hl IH Hx]; intros Hall; [constructor|]. apply Forall_cons in Hall as [Hxs Hall].
    simpl. constructor; [by apply IH|]. apply Forall_fmap, Forall_forall. intros y Hy near far.
    rewrite (proj1 (Forall_forall _ _) Hall y Hy), Hxs. intros [= <-] [= <-].
    pose proof (proj1 (Forall_forall _ _) Hx y Hy) as Hle. apply (cmp_le_fst (N.of_nat x.1, _) (N.of_nat y.1, _)) in Hle.
    unfold cmp_le in Hle. simpl in Hle. change (cmp (N.of_nat x.1) (N.of_nat y.1)) with (N.of_nat x.1 ?= N.of_nat y.1)%N in Hle.
    change (N.of_nat x.1 ≤ N.of_nat y.1)%N in Hle. lia.
Qed.

(** ** Menus *)

(** Plugins' actions come before anything destructive, and nothing else moves. *)
Theorem plugins_before_destructive actions catalog t :
  ∃ before after,
    actions = before ++ after
    ∧ insert_plugin_actions actions catalog t = before ++ plugin_resource_actions catalog t ++ after
    ∧ Forall (λ a, action_is_destructive a = false) before
    ∧ (∀ a, head after = Some a → action_is_destructive a = true).
Proof.
  unfold insert_plugin_actions. set (n := default (length actions) (position action_is_destructive actions)).
  exists (take n actions), (drop n actions). split_and!; [by rewrite take_drop|done| |].
  - apply Forall_lookup. intros i a Ha. apply lookup_take_Some in Ha as [Ha Hi]. unfold n in Hi.
    destruct (position action_is_destructive actions) as [m|] eqn:Hpos; simpl in Hi.
    + apply position_found in Hpos as (x & _ & _ & Hbefore). apply not_true_is_false. by apply (Hbefore i).
    + apply not_true_is_false. intros Hd. unfold position in Hpos.
      destruct (list_find _ actions) as [|] eqn:Hfind; [done|]. apply list_find_None in Hfind.
      apply list_elem_of_lookup_2 in Ha. by eapply Forall_forall in Hfind.
  - intros a Ha. unfold n in Ha. destruct (position action_is_destructive actions) as [m|] eqn:Hpos; simpl in Ha.
    + apply position_found in Hpos as (x & Hx & Hp & _). rewrite head_lookup, lookup_drop, Nat.add_0_r, Hx in Ha. congruence.
    + by rewrite drop_all in Ha.
Qed.

(** An item of a pane's menu says what it moves to: after it was done, the same mark is
    offered the other way round. *)
Definition mark_of (a : ResourceAction) : option AgentMarkRequest :=
  match a with ActMarkAgent _ mark _ => Some mark | _ => None end.
Theorem marks_alternate snap pane label marks mark now state :
  agents snap !! pane = Some state → (now ≤ u64_max)%N →
  mark ∈ omap mark_of (agent_mark_actions snap pane label marks) →
  let agent := agent_key state in
  let held := default AgentMarkState_default (marks !! agent) in
  requested mark now held ≠ held
  ∧ mark ∉ omap mark_of (agent_mark_actions snap pane label (<[agent := requested mark now held]> marks)).
Proof.
  intros Hagent Hnow. unfold agent_mark_actions. rewrite Hagent. cbn [fmap list_fmap omap list_omap mark_of].
  set (held := default _ _). rewrite lookup_insert_eq. cbn [default]. rewrite !elem_of_cons, elem_of_nil.
  destruct held as [p m snoozed mode]. cbn [pinned muted snoozed_until_ms notify].
  intros [->|[->|[->|[->|[]]]]]; cbn [requested pinned muted snoozed_until_ms notify].
  - destruct p; split; simpl; try congruence; naive_solver.
  - destruct m; split; simpl; try congruence; naive_solver.
  - destruct snoozed; split; simpl; try congruence; naive_solver.
  - destruct mode; split; simpl; try congruence; naive_solver.
Qed.

(** The source of a transfer is looked up among the panes of the destination, where it
    never is: the entry always shows the pane's identifier, never the name the person
    gave it. *)
Theorem transfer_label_is_raw st source destination label destination_label :
  federation_wf st →
  TransferFileBetween source destination label destination_label ∈ transfer_destinations st source →
  label = resource source.
Proof.
  intros Hwf (runtime & [k Hk]%elem_of_values & Ha)%list_elem_of_omap. revert Ha.
  destruct (bool_decide _) eqn:Hsame; [done|]. apply bool_decide_eq_false in Hsame. destruct (negb _); [done|]. simpl.
  intros (snap & Hsnap & Ha)%bind_Some. apply bind_Some in Ha as (d & _ & [= _ <- _]).
  unfold transfer_label. destruct (panes snap !! source) as [held|] eqn:Hp; [|done].
  destruct (Hwf _ _ Hk) as [Hkey Hswf]. apply (wf_panes _ _ (Hswf _ Hsnap)) in Hp. congruence.
Qed.
