(* ===== verification/TuiSelection.v ===== *)
(** Selecting the text of a terminal across its scrollback: [TerminalSelection],
    [selected_terminal_text] and the capture of rows in [src/src/tui.rs].

    A selection lives in rows counted from the top of the screen when it began; what a
    scrolled screen shows is captured under the rows it then stands for.

    A selection dragged past the edge of a terminal copies what the scrollback holds: each
    screen is filed under the rows it shows, however far it was scrolled. *)

From S2P Require Import Prelude Model Text Net Screen TuiInput.

(** An [i64] row and a [u16] column. *)
Record CellPosition := { cp_row : Z; cp_column : N }.
#[export] Instance CellPosition_eq_dec : EqDecision CellPosition.
Proof. solve_decision. Defined.
Definition from_viewport (row column : N) (viewport_offset : Z) : CellPosition :=
  {| cp_row := Z.of_N row - viewport_offset; cp_column := column |}.
(** The derived order. *)
Definition cell_le (a b : CellPosition) : bool :=
  (cp_row a <? cp_row b)%Z || ((cp_row a =? cp_row b)%Z && (cp_column a <=? cp_column b)%N).
Definition cell_min (a b : CellPosition) : CellPosition := if cell_le a b then a else b.
Definition cell_max (a b : CellPosition) : CellPosition := if cell_le a b then b else a.

Inductive CapturedCell := CapturedText (text : ustr) | WideContinuation.
#[export] Instance CapturedCell_eq_dec : EqDecision CapturedCell.
Proof. solve_decision. Defined.
Abbreviation CapturedRow := (list CapturedCell).

Record TerminalSelection := {
  sel_pane : PaneId;
  anchor : CellPosition;
  head_ : CellPosition;
  viewport_offset : Z;
  captured_rows : gmap Z CapturedRow;
  dragging : bool;
  forwarded_click : option MouseInput;
}.

Definition contains (s : TerminalSelection) (p : CellPosition) : bool :=
  cell_le (cell_min (anchor s) (head_ s)) p && cell_le p (cell_max (anchor s) (head_ s)).

Inductive SelectionFinish := Retain | ForwardClick (press release : MouseInput) | Clear.
Definition u16_saturating_succ (n : N) : N := N.min (n + 1) u16_max.
(** [u16::try_from(row).unwrap_or_default()]. *)
Definition row_u16 (row : Z) : N := if (0 <=? row)%Z && (row <=? Z.of_N u16_max)%Z then Z.to_N row else 0.
Definition finish (s : TerminalSelection) (position viewport_position : CellPosition) (release : MouseInput)
    : TerminalSelection * SelectionFinish :=
  let dragging := dragging s || negb (bool_decide (position = anchor s)) in
  let with_click click := {| sel_pane := sel_pane s; anchor := anchor s; head_ := position;
    viewport_offset := viewport_offset s; captured_rows := captured_rows s; dragging := dragging; forwarded_click := click |} in
  if dragging then (with_click None, Retain)
  else
    match forwarded_click s with
    | Some press =>
        (with_click None,
         ForwardClick press {| mi_code := mi_code release; mi_column := cp_column position + 1;
                               mi_row := u16_saturating_succ (row_u16 (cp_row viewport_position));
                               mi_release := mi_release release |})
    | None => (with_click None, Clear)
    end.

(** ** Capturing *)

Fixpoint capture_from (viewport_row : N) (offset : Z) (rows : list CapturedRow) (held : gmap Z CapturedRow) : gmap Z CapturedRow :=
  match rows with
  | [] => held
  | row :: rows =>
      if (viewport_row <=? u16_max)%N
      then capture_from (viewport_row + 1) offset rows (<[(Z.of_N viewport_row - offset)%Z := row]> held)
      else held
  end.
Definition capture_selection_rows (rows : list CapturedRow) (s : TerminalSelection) : TerminalSelection := {|
  sel_pane := sel_pane s; anchor := anchor s; head_ := head_ s; viewport_offset := viewport_offset s;
  captured_rows := capture_from 0 (viewport_offset s) rows (captured_rows s); dragging := dragging s;
  forwarded_click := forwarded_click s |}.

Section screens.
Context `{Vt100}.
Definition captured_cell (cell : option VtCell) : CapturedCell :=
  match cell with
  | Some cell => if is_wide_continuation cell then WideContinuation
                 else if has_contents cell then CapturedText (contents cell) else CapturedText (u " ")
  | None => CapturedText (u " ")
  end.
Definition capture_screen_rows (screen : VtScreen) : list CapturedRow :=
  let '(rows, columns) := screen_size screen in
  (λ row, (λ column, captured_cell (screen_cell screen (N.of_nat row) (N.of_nat column))) <$> seq 0 (N.to_nat columns))
  <$> seq 0 (N.to_nat rows).
Definition capture_selection_viewport (screen : VtScreen) : TerminalSelection → TerminalSelection :=
  capture_selection_rows (capture_screen_rows screen).
End screens.

(** ** The text *)

Definition cell_text (cell : CapturedCell) : ustr := match cell with CapturedText text => text | WideContinuation => [] end.
Definition trim_end_spaces (s : ustr) : ustr := Text.trim_end_char 32 s.
Definition u16_try (n : nat) : N := if (N.of_nat n <=? u16_max)%N then N.of_nat n else u16_max.
Definition selected_line (first last : CellPosition) (row : Z) (cells : CapturedRow) : ustr :=
  let first_column := N.to_nat (if (row =? cp_row first)%Z then cp_column first else 0%N) in
  let last_column := min (N.to_nat (if (row =? cp_row last)%Z then cp_column last else u16_try (length cells - 1)))
                         (length cells - 1) in
  trim_end_spaces (if first_column <=? last_column
                   then (take (S last_column - first_column) (drop first_column cells)) ≫= cell_text else []).
Definition selected_rows (s : TerminalSelection) : list Z :=
  let first := cell_min (anchor s) (head_ s) in
  let last := cell_max (anchor s) (head_ s) in
  (λ i, (cp_row first + Z.of_nat i)%Z) <$> seq 0 (Z.to_nat (cp_row last - cp_row first + 1)).
Definition selected_terminal_text (s : TerminalSelection) : ustr :=
  let first := cell_min (anchor s) (head_ s) in
  let last := cell_max (anchor s) (head_ s) in
  Net.join [10%N]
    ((λ row, match captured_rows s !! row with Some cells => selected_line first last row cells | None => [] end)
     <$> selected_rows s).

(** ** Scrolling under a selection *)

Inductive SelectionAutoscrollDirection := AutoscrollUp | AutoscrollDown.
#[export] Instance SelectionAutoscrollDirection_eq_dec : EqDecision SelectionAutoscrollDirection.
Proof. solve_decision. Defined.
Record SelectionAutoscroll := {
  as_pane : PaneId; as_direction : SelectionAutoscrollDirection; as_column : N; pending_lines : nat }.

(** The least distance at which one screen is the other scrolled. *)
Definition shifted_by (before after : list CapturedRow) (d : SelectionAutoscrollDirection) (lines : nat) : bool :=
  match d with
  | AutoscrollUp => bool_decide (take (length before - lines) before = drop lines after)
  | AutoscrollDown => bool_decide (drop lines before = take (length after - lines) after)
  end.
Definition viewport_shift_distance (before after : list CapturedRow) (d : SelectionAutoscrollDirection) : option nat :=
  if negb (length before =? length after) || bool_decide (before = []) || bool_decide (before = after) then None
  else if length before =? 1 then Some 1
  else head (filter (λ lines, shifted_by before after d lines = true) (seq 1 (length before - 1))).

(** What a frame does to the selection and the autoscroll of [pane]. *)
Definition update_selection_after_frame (pane : PaneId) (pending_direction : option SelectionAutoscrollDirection)
    (before : option (list CapturedRow)) (after : list CapturedRow)
    (selection : option TerminalSelection) (autoscroll : option SelectionAutoscroll)
    : option TerminalSelection * option SelectionAutoscroll :=
  let shift := d ← pending_direction; before ← before; (pair d) <$> viewport_shift_distance before after d in
  match selection with
  | Some s =>
      if negb (bool_decide (sel_pane s = pane)) then (selection, None)
      else
        match shift with
        | None => (Some (capture_selection_rows after s), autoscroll)
        | Some (d, lines) =>
            let offset := (viewport_offset s + match d with AutoscrollUp => Z.of_nat lines | AutoscrollDown => - Z.of_nat lines end)%Z in
            let viewport_row := match d with AutoscrollUp => 0%N | AutoscrollDown => u16_try (length after - 1) end in
            let column := match autoscroll with Some a => as_column a | None => cp_column (head_ s) end in
            let s := {| sel_pane := sel_pane s; anchor := anchor s; head_ := from_viewport viewport_row column offset;
                        viewport_offset := offset; captured_rows := captured_rows s; dragging := dragging s;
                        forwarded_click := forwarded_click s |} in
            (Some (capture_selection_rows after s),
             (λ a, {| as_pane := as_pane a; as_direction := as_direction a; as_column := as_column a;
                      pending_lines := pending_lines a - lines |}) <$> autoscroll)
        end
  | None => (None, None)
  end.

(** ** Capturing *)

Lemma capture_from_lookup v offset rows held r :
  (v + N.of_nat (length rows) ≤ 65536)%N →
  capture_from v offset rows held !! r
  = match (if (Z.of_N v - offset <=? r)%Z then rows !! Z.to_nat (r - (Z.of_N v - offset)) else None) with
    | Some row => Some row
    | None => held !! r
    end.
Proof.
  revert v held. induction rows as [|row rows IH]; intros v held Hlen; simpl.
  { by destruct (_ <=? _)%Z. }
  cbn [length] in Hlen. rewrite (proj2 (N.leb_le v u16_max)) by (unfold u16_max; lia). rewrite IH by lia.
  destruct (Z.leb_spec (Z.of_N v - offset) r); destruct (Z.leb_spec (Z.of_N (v + 1) - offset) r); try lia.
  - replace (Z.to_nat (r - (Z.of_N v - offset))) with (S (Z.to_nat (r - (Z.of_N (v + 1) - offset)))) by lia. simpl.
    destruct (rows !! _); [done|]. by rewrite lookup_insert_ne by lia.
  - assert (r = Z.of_N v - offset)%Z as -> by lia. rewrite Z.sub_diag. simpl. by rewrite lookup_insert_eq.
  - by rewrite lookup_insert_ne by lia.
Qed.

(** ** A scrollback *)

Section document.
(** What the terminal holds, by row. *)
Context (doc : Z → CapturedRow).

Definition window (top : Z) (height : nat) : list CapturedRow := (λ i, doc (top + Z.of_nat i)) <$> seq 0 height.
(** Every row held is the row of the document. *)
Definition reads (s : TerminalSelection) : Prop := ∀ r row, captured_rows s !! r = Some row → row = doc r.

Lemma length_window top height : length (window top height) = height.
Proof. unfold window. by rewrite length_fmap, length_seq. Qed.
Lemma lookup_window top height i : i < height → window top height !! i = Some (doc (top + Z.of_nat i)).
Proof. intros Hi. unfold window. by rewrite list_lookup_fmap, lookup_seq_lt. Qed.
Lemma window_split top a b : window top (a + b) = window top a ++ window (top + Z.of_nat a) b.
Proof.
  apply list_eq. intros i. destruct (decide (i < a)) as [Hi|Hi]; [|destruct (decide (i < a + b)) as [Hi'|Hi']].
  - by rewrite lookup_app_l, !lookup_window by (rewrite ?length_window; lia).
  - rewrite lookup_app_r, length_window, !lookup_window by (rewrite ?length_window; lia). do 2 f_equal. lia.
  - rewrite !lookup_ge_None_2; [done|rewrite length_app, !length_window; lia|rewrite length_window; lia].
Qed.

Lemma capture_reads rows height s :
  reads s → rows = window (- viewport_offset s) height → (N.of_nat height ≤ 65536)%N →
  reads (capture_selection_rows rows s)
  ∧ ∀ i, i < height → captured_rows (capture_selection_rows rows s) !! (Z.of_nat i - viewport_offset s)%Z
                      = Some (doc (Z.of_nat i - viewport_offset s)).
Proof.
  intros Hreads -> Hheight. unfold reads, capture_selection_rows. cbn [captured_rows]. split.
  - intros r row. rewrite capture_from_lookup by (rewrite length_window; lia). destruct (Z.leb_spec (Z.of_N 0 - viewport_offset s) r).
    + destruct (window _ _ !! _) as [found|] eqn:Hw; [|apply Hreads]. intros [= <-].
      assert (Z.to_nat (r - (Z.of_N 0 - viewport_offset s)) < height) as Hi.
      { apply lookup_lt_Some in Hw. by rewrite length_window in Hw. }
      rewrite lookup_window in Hw by done. injection Hw as <-. f_equal. lia.
    + apply Hreads.
  - intros i Hi. rewrite capture_from_lookup by (rewrite length_window; lia).
    rewrite (proj2 (Z.leb_le _ _)) by lia.
    replace (Z.to_nat (Z.of_nat i - viewport_offset s - (Z.of_N 0 - viewport_offset s))) with i by lia.
    rewrite lookup_window by done. do 2 f_equal. lia.
Qed.

(** ** Finding the distance *)

Lemma shifted_window top height d :
  d < height → take (height - d) (window top height) = drop d (window (top - Z.of_nat d) height).
Proof.
  intros Hd. replace height with ((height - d) + d) at 2 by lia. rewrite window_split, take_app_length' by by rewrite length_window.
  replace height with (d + (height - d)) at 2 by lia. rewrite window_split, drop_app_length' by by rewrite length_window. f_equal. lia.
Qed.

Definition moved (d : SelectionAutoscrollDirection) (lines : nat) : Z :=
  match d with AutoscrollUp => Z.of_nat lines | AutoscrollDown => - Z.of_nat lines end.
(** The rows either screen shows. *)
Definition both_windows (top : Z) (height lines : nat) (d : SelectionAutoscrollDirection) : list CapturedRow :=
  window (match d with AutoscrollUp => top - Z.of_nat lines | AutoscrollDown => top end) (height + lines).

Lemma distinct_rows top n i j :
  NoDup (window top n) → (top ≤ i < top + Z.of_nat n)%Z → (top ≤ j < top + Z.of_nat n)%Z → doc i = doc j → i = j.
Proof.
  intros Hnodup Hi Hj Heq. assert (Z.to_nat (i - top) = Z.to_nat (j - top)); [|lia].
  apply (NoDup_lookup (window top n) _ _ (doc i)); [done|..].
  - rewrite lookup_window by lia. do 2 f_equal. lia.
  - rewrite Heq, lookup_window by lia. do 2 f_equal. lia.
Qed.

Lemma shift_is_found top height lines d :
  0 < lines < height → NoDup (both_windows top height lines d) →
  viewport_shift_distance (window top height) (window (top - moved d lines) height) d = Some lines.
Proof.
  intros Hlines Hnodup. unfold viewport_shift_distance. rewrite !length_window, Nat.eqb_refl. cbn [negb orb].
  assert (∀ n, 0 < n < height →
    shifted_by (window top height) (window (top - moved d lines) height) d n = true ↔ n = lines) as Hshift.
  { intros n Hn. unfold shifted_by, both_windows, moved in *. rewrite !length_window. destruct d; rewrite bool_decide_eq_true; split.
    - rewrite (shifted_window top height n) by lia. intros Heq. apply (f_equal (λ l, l !! 0)) in Heq.
      rewrite !lookup_drop, !lookup_window in Heq by lia. injection Heq as Heq.
      apply (distinct_rows _ _ _ _ Hnodup) in Heq; lia.
    - intros ->. apply shifted_window. lia.
    - intros Heq. apply (f_equal (λ l, l !! 0)) in Heq.
      rewrite lookup_drop, lookup_take_lt, !lookup_window in Heq by lia. injection Heq as Heq.
      apply (distinct_rows _ _ _ _ Hnodup) in Heq; lia.
    - intros ->. symmetry. rewrite (shifted_window _ height lines) by lia. f_equal. f_equal. lia. }
  rewrite bool_decide_eq_false_2 by (intros Hnil; apply (f_equal length) in Hnil; rewrite length_window in Hnil; simpl in Hnil; lia).
  rewrite bool_decide_eq_false_2.
  2: { intros Heq. apply (f_equal (λ l, l !! 0)) in Heq. rewrite !lookup_window in Heq by lia. injection Heq as Heq.
       unfold both_windows, moved in *. destruct d; apply (distinct_rows _ _ _ _ Hnodup) in Heq; lia. }
  cbn [orb]. destruct (Nat.eqb_spec height 1); [lia|].
  replace (seq 1 (height - 1)) with (seq 1 (lines - 1) ++ lines :: seq (S lines) (height - 1 - lines)).
  2: { replace (height - 1) with ((lines - 1) + (1 + (height - 1 - lines))) at 2 by lia. rewrite (seq_app (lines - 1)). f_equal.
       replace (1 + (lines - 1)) with lines by lia. done. }
  rewrite filter_app, filter_cons_True by (apply Hshift; lia).
  assert (filter (λ n, shifted_by (window top height) (window (top - moved d lines) height) d n = true) (seq 1 (lines - 1)) = [])
    as ->; [|done].
  apply elem_of_nil_inv. intros m [Hn Hin%elem_of_seq]%list_elem_of_filter. apply Hshift in Hn; lia.
Qed.

(** C23. Dragging a selection past the edge of a terminal keeps it faithful to the
    scrollback. When a frame arrives that shows the same rows scrolled by any number of
    lines less than a screen, and the rows shown are all different, the distance is found,
    the rows of the new screen are filed under the rows they are, nothing filed before is
    lost or mixed up, and the anchor stays on the row where it was put. *)
Theorem scrolled_selection_reads s autoscroll height lines d :
  reads s → 0 < lines < height → (N.of_nat height ≤ 65536)%N →
  NoDup (both_windows (- viewport_offset s) height lines d) →
  ∃ s' autoscroll',
    update_selection_after_frame (sel_pane s) (Some d) (Some (window (- viewport_offset s) height))
      (window (- viewport_offset s - moved d lines) height) (Some s) autoscroll = (Some s', autoscroll')
    ∧ reads s' ∧ anchor s' = anchor s
    ∧ viewport_offset s' = (viewport_offset s + moved d lines)%Z
    ∧ (∀ r, is_Some (captured_rows s !! r) → captured_rows s' !! r = Some (doc r))
    ∧ ∀ i, i < height → captured_rows s' !! (Z.of_nat i - viewport_offset s')%Z = Some (doc (Z.of_nat i - viewport_offset s')).
Proof.
  intros Hreads Hlines Hheight Hnodup. unfold update_selection_after_frame. rewrite (bool_decide_eq_true_2 (sel_pane s = _)) by done.
  cbn [negb mbind option_bind]. rewrite shift_is_found by done. cbn [fmap option_fmap option_map].
  set (offset := (viewport_offset s + _)%Z). assert (offset = (viewport_offset s + moved d lines)%Z) as Hoffset by by destruct d.
  eexists _, _. split; [reflexivity|].
  match goal with |- context [capture_selection_rows _ ?moved_to] => set (at_ := moved_to) end.
  assert (reads at_) as Hat by done.
  pose proof (capture_reads (window (- viewport_offset s - moved d lines) height) height at_ Hat) as [Hs' Hrows].
  { f_equal. unfold at_. cbn [viewport_offset]. rewrite Hoffset. lia. }
  { done. }
  split_and!; [done|done|done| |done].
  intros r [row Hrow]. pose proof (Hreads _ _ Hrow) as ->.
  destruct (captured_rows (capture_selection_rows (window (- viewport_offset s - moved d lines) height) at_) !! r) as [row|] eqn:Hrow'.
  - by rewrite (Hs' _ _ Hrow').
  - exfalso. unfold capture_selection_rows in Hrow'. cbn [captured_rows] in Hrow'.
    rewrite capture_from_lookup in Hrow' by (rewrite length_window; lia).
    change (captured_rows at_) with (captured_rows s) in Hrow'. rewrite Hrow in Hrow'. by repeat case_match.
Qed.

(** What is copied of rows that were all filed is the document's. *)
Lemma selected_text_reads s :
  reads s → (∀ r, r ∈ selected_rows s → is_Some (captured_rows s !! r)) →
  selected_terminal_text s
  = Net.join [10%N] ((λ r, selected_line (cell_min (anchor s) (head_ s)) (cell_max (anchor s) (head_ s)) r (doc r))
                     <$> selected_rows s).
Proof.
  intros Hreads Hheld. unfold selected_terminal_text. f_equal. apply list_fmap_ext. intros i r Hr%list_elem_of_lookup_2.
  destruct (Hheld r Hr) as [row Hrow]. by rewrite Hrow, (Hreads _ _ Hrow).
Qed.
End document.

(** ** Both ends *)

Lemma cell_le_total a b : cell_le a b = true ∨ cell_le b a = true.
Proof.
  unfold cell_le. destruct (Z.ltb_spec (cp_row a) (cp_row b)); [by left|].
  destruct (Z.ltb_spec (cp_row b) (cp_row a)); [by right|].
  assert (cp_row a = cp_row b) as -> by lia. rewrite Z.eqb_refl. simpl.
  destruct (N.leb_spec (cp_column a) (cp_column b)), (N.leb_spec (cp_column b) (cp_column a)); auto; lia.
Qed.
(** A selection holds both its ends, whichever way it was dragged. *)
Theorem selection_holds_ends s : contains s (anchor s) = true ∧ contains s (head_ s) = true.
Proof.
  assert (∀ c, cell_le c c = true) as Hrefl by (intros c; by destruct (cell_le_total c c)).
  unfold contains, cell_min, cell_max. destruct (cell_le (anchor s) (head_ s)) eqn:Hle; rewrite ?Hle, ?Hrefl; [done|].
  destruct (cell_le_total (anchor s) (head_ s)) as [?|H]; [congruence|]. by rewrite H.
Qed.

(** ** Concrete inputs *)

Definition numbered_row (r : Z) : CapturedRow := [CapturedText [Z.to_N (r + 100)]].
Definition dragged : TerminalSelection := {|
  sel_pane := QualifiedId_new (u "box") (u "main") (u "p"); anchor := {| cp_row := 1; cp_column := 0 |};
  head_ := {| cp_row := 0; cp_column := 0 |}; viewport_offset := 0; captured_rows := ∅; dragging := true; forwarded_click := None |}.
Lemma scrolled_selection_witness :
  ∃ s' autoscroll',
    update_selection_after_frame (sel_pane dragged) (Some AutoscrollUp) (Some (window numbered_row 0 4)) (window numbered_row (-2) 4)
      (Some dragged) None = (Some s', autoscroll')
    ∧ reads numbered_row s' ∧ viewport_offset s' = 2%Z.
Proof.
  eassert _ as H by (apply (scrolled_selection_reads numbered_row dragged None 4 2 AutoscrollUp);
    [intros r row; done|lia|lia|apply (bool_decide_unpack _); vm_compute; exact I]).
  destruct H as (s' & autoscroll' & H1 & H2 & _ & H3 & _). exists s', autoscroll'. split; [exact H1|]. split; [exact H2|exact H3].
Defined.
