(* ===== verification/TuiTargets.v ===== *)
(** The machines a person adds, edits and tests: [TargetForm] and [TargetManager] of
    [src/src/tui.rs]. Saving is [ConfigEdit]'s.

    A form only ever offers to save what the whole configuration would accept, carries what
    it does not show, and listens to the test it started and to no other. *)

From S2P Require Import Prelude Text Config Transport.

Inductive TargetFormField := FieldName | FieldSsh | FieldSession | FieldDiscoverSessions | FieldDiscoveredSession.
#[export] Instance TargetFormField_eq_dec : EqDecision TargetFormField.
Proof. solve_decision. Defined.
Definition next_field (field : TargetFormField) (has_discovered_sessions : bool) : TargetFormField :=
  match field with
  | FieldName => FieldSsh
  | FieldSsh => FieldSession
  | FieldSession => FieldDiscoverSessions
  | FieldDiscoverSessions => if has_discovered_sessions then FieldDiscoveredSession else FieldName
  | FieldDiscoveredSession => FieldName
  end.

Inductive FormError :=
  | NoLongerConfigured (name : ustr) | InvalidForm (e : ConfigError) | NoConfigPath | NotSaved (message : ustr)
  | NoTesting.
Inductive TargetTestState := Untested | Testing (request_id : N) | Passed (elapsed_ms : N) (found : nat) | FailedTest (message : ustr).

Record TargetForm := {
  tf_original_name : option ustr;
  tf_name : ustr;
  tf_ssh : ustr;
  tf_session : ustr;
  tf_discover_sessions : bool;
  tf_socket : option ustr;
  tf_herdr_bins : list ustr;
  tf_roots : list ustr;
  tf_tags : list ustr;
  tf_field : TargetFormField;
  tf_error : option FormError;
  tf_test_state : TargetTestState;
  tf_discovered_sessions : list DiscoveredSession;
  tf_discovered_selected : nat;
  tf_discovered_offset : nat;
}.
#[export] Instance TargetForm_eta : Eta TargetForm := λ f, {|
  tf_original_name := tf_original_name f; tf_name := tf_name f; tf_ssh := tf_ssh f; tf_session := tf_session f;
  tf_discover_sessions := tf_discover_sessions f; tf_socket := tf_socket f; tf_herdr_bins := tf_herdr_bins f;
  tf_roots := tf_roots f; tf_tags := tf_tags f; tf_field := tf_field f; tf_error := tf_error f;
  tf_test_state := tf_test_state f; tf_discovered_sessions := tf_discovered_sessions f;
  tf_discovered_selected := tf_discovered_selected f; tf_discovered_offset := tf_discovered_offset f |}.

Definition form_add : TargetForm := {|
  tf_original_name := None; tf_name := []; tf_ssh := []; tf_session := []; tf_discover_sessions := true; tf_socket := None;
  tf_herdr_bins := [u "herdr"]; tf_roots := []; tf_tags := []; tf_field := FieldName; tf_error := None;
  tf_test_state := Untested; tf_discovered_sessions := []; tf_discovered_selected := 0; tf_discovered_offset := 0 |}.
Definition form_edit (t : Target) : TargetForm := {|
  tf_original_name := Some (tgt_name t); tf_name := tgt_name t; tf_ssh := default [] (tgt_ssh t);
  tf_session := default [] (tgt_session t); tf_discover_sessions := tgt_discover_sessions t; tf_socket := tgt_socket t;
  tf_herdr_bins := tgt_herdr_bins t; tf_roots := tgt_roots t; tf_tags := tgt_tags t; tf_field := FieldName;
  tf_error := None; tf_test_state := Untested; tf_discovered_sessions := []; tf_discovered_selected := 0;
  tf_discovered_offset := 0 |}.
Definition non_empty (s : ustr) : option ustr := match s with [] => None | _ => Some s end.
Definition form_target (f : TargetForm) : Target := {|
  tgt_name := tf_name f; tgt_ssh := non_empty (tf_ssh f); tgt_discover_sessions := tf_discover_sessions f;
  tgt_session := non_empty (tf_session f); tgt_socket := tf_socket f; tgt_herdr_bins := tf_herdr_bins f;
  tgt_roots := tf_roots f; tgt_tags := tf_tags f |}.

Definition active_text (f : TargetForm) : option ustr :=
  match tf_field f with
  | FieldName => Some (tf_name f)
  | FieldSsh => Some (tf_ssh f)
  | FieldSession => Some (tf_session f)
  | FieldDiscoverSessions | FieldDiscoveredSession => None
  end.
Definition edit_active (edit : ustr → ustr) (f : TargetForm) : TargetForm :=
  match tf_field f with
  | FieldName => f <| tf_name ::= edit |>
  | FieldSsh => f <| tf_ssh ::= edit |>
  | FieldSession => f <| tf_session ::= edit |>
  | FieldDiscoverSessions | FieldDiscoveredSession => f
  end.

Definition form_config (ts : list Target) : Config := {|
  cfg_transport := TransportConfig_default; cfg_notifications := NotificationsConfig_default; cfg_quick_replies := None;
  cfg_transfers := TransferConfig_default; cfg_web := WebConfig_default; cfg_devices := []; cfg_targets := ts |}.
Definition named (name : ustr) (t : Target) : bool := bool_decide (tgt_name t = name).
Definition validation_error (f : TargetForm) (configured : list Target) : option FormError :=
  let checked ts := match validate (form_config ts) with Ok _ => None | Err e => Some (InvalidForm e) end in
  match tf_original_name f with
  | Some original_name =>
      match list_find (λ t, named original_name t = true) configured with
      | None => Some (NoLongerConfigured original_name)
      | Some (index, _) => checked (<[index := form_target f]> configured)
      end
  | None => checked (configured ++ [form_target f])
  end.

Definition invalidate_test (f : TargetForm) : TargetForm :=
  f <| tf_error := None |> <| tf_test_state := Untested |> <| tf_discovered_sessions := [] |>
    <| tf_discovered_selected := 0 |> <| tf_discovered_offset := 0 |>
    <| tf_field := if decide (tf_field f = FieldDiscoveredSession) then FieldSession else tf_field f |>.
Definition toggle_discover (f : TargetForm) : TargetForm :=
  let f := invalidate_test f in
  f <| tf_discover_sessions := negb (tf_discover_sessions f) |> <| tf_field := FieldDiscoverSessions |>.
Definition select_discovered_session (index : nat) (f : TargetForm) : TargetForm :=
  match tf_discovered_sessions f !! index with
  | None => f
  | Some found =>
      f <| tf_session := ds_name found |> <| tf_socket := Some (ds_socket_path found) |> <| tf_discover_sessions := false |>
        <| tf_discovered_selected := index |> <| tf_field := FieldDiscoveredSession |> <| tf_error := None |>
  end.
(** Typing into a text field. A session typed by hand has no known socket. *)
Definition type_text (edit : ustr → ustr) (f : TargetForm) : TargetForm :=
  match active_text f with
  | None => f
  | Some _ =>
      let f := if decide (tf_field f = FieldSession) then f <| tf_socket := None |> else f in
      edit_active edit (invalidate_test f)
  end.

(** ** The manager *)

Inductive TargetManagerMode := ManagerList | ManagerForm (form : TargetForm) | ConfirmRemove (name : ustr).
Inductive TargetManagerControl :=
  | ControlTarget (index : nat) | ControlAdd | ControlEdit | ControlRemove | ControlClose | ControlField (field : TargetFormField)
  | ControlTestConnection | ControlSave | ControlCancel | ControlDiscoveredSession (index : nat) | ControlConfirmRemove
  | ControlCancelRemove.
Record TargetManager := {
  tm_targets : list Target; tm_selected : nat; tm_mode : TargetManagerMode; tm_mouse_press : option TargetManagerControl }.
#[export] Instance TargetManager_eta : Eta TargetManager := λ m, {|
  tm_targets := tm_targets m; tm_selected := tm_selected m; tm_mode := tm_mode m; tm_mouse_press := tm_mouse_press m |}.
Definition TargetManager_new (targets : list Target) : TargetManager :=
  {| tm_targets := targets; tm_selected := 0; tm_mode := ManagerList; tm_mouse_press := None |}.
Definition selected_target (m : TargetManager) : option Target := tm_targets m !! tm_selected m.
Definition map_form (f : TargetForm → TargetForm) (m : TargetManager) : TargetManager :=
  match tm_mode m with ManagerForm form => m <| tm_mode := ManagerForm (f form) |> | _ => m end.

(** What the manager does beside changing itself. *)
Inductive ManagerEffect :=
  | NothingElse
  | SaveTarget (original_name : option ustr) (target : Target)   (** and reload *)
  | RemoveTarget (name : ustr)
  | TestTarget (target : Target).                                 (** under the next request *)

Definition save_target_form (m : TargetManager) : TargetManager * ManagerEffect :=
  match tm_mode m with
  | ManagerForm form =>
      match validation_error form (tm_targets m) with
      | Some error => (map_form (λ f, f <| tf_error := Some error |>) m, NothingElse)
      | None => (m, SaveTarget (tf_original_name form) (form_target form))
      end
  | _ => (m, NothingElse)
  end.
Definition start_target_connection_test (next_request : N) (m : TargetManager) : TargetManager * ManagerEffect :=
  match tm_mode m with
  | ManagerForm form =>
      match validation_error form (tm_targets m) with
      | Some error => (map_form (λ f, f <| tf_error := Some error |>) m, NothingElse)
      | None =>
          (map_form (λ f, f <| tf_error := None |> <| tf_test_state := Testing next_request |> <| tf_discovered_sessions := [] |>
                            <| tf_discovered_selected := 0 |> <| tf_discovered_offset := 0 |>) m,
           TestTarget (form_target form))
      end
  | _ => (m, NothingElse)
  end.
Definition remove_target (m : TargetManager) : TargetManager * ManagerEffect :=
  match tm_mode m with ConfirmRemove name => (m, RemoveTarget name) | _ => (m, NothingElse) end.

(** The manager, what else happens, and whether it closes. *)
Definition activate_control (next_request : N) (control : TargetManagerControl) (m : TargetManager)
    : TargetManager * ManagerEffect * bool :=
  match control with
  | ControlTarget index =>
      ((if index <? length (tm_targets m) then m <| tm_selected := index |> else m), NothingElse, false)
  | ControlAdd => (m <| tm_mode := ManagerForm form_add |>, NothingElse, false)
  | ControlEdit =>
      (match selected_target m with Some t => m <| tm_mode := ManagerForm (form_edit t) |> | None => m end, NothingElse, false)
  | ControlRemove =>
      (match selected_target m with Some t => m <| tm_mode := ConfirmRemove (tgt_name t) |> | None => m end, NothingElse, false)
  | ControlClose => (m, NothingElse, true)
  | ControlField field =>
      (map_form (λ form,
         let form := if decide (field = FieldDiscoverSessions)
                     then let form := invalidate_test form in
                          form <| tf_discover_sessions := negb (tf_discover_sessions form) |>
                     else form in
         form <| tf_field := field |> <| tf_error := None |>) m, NothingElse, false)
  | ControlTestConnection => (start_target_connection_test next_request m, false)
  | ControlSave => (save_target_form m, false)
  | ControlCancel | ControlCancelRemove => (m <| tm_mode := ManagerList |>, NothingElse, false)
  | ControlDiscoveredSession index => (map_form (select_discovered_session index) m, NothingElse, false)
  | ControlConfirmRemove => (remove_target m, false)
  end.

Definition list_key (next_request key : N) (m : TargetManager) : TargetManager * ManagerEffect * bool :=
  if bool_decide (key ∈ [113; 27]%N) then (m, NothingElse, true)
  else if bool_decide (key ∈ [106; 14]%N) then
    ((if bool_decide (tm_targets m = []) then m
      else m <| tm_selected := min (S (tm_selected m)) (length (tm_targets m) - 1) |>), NothingElse, false)
  else if bool_decide (key ∈ [107; 16]%N) then (m <| tm_selected ::= pred |>, NothingElse, false)
  else if (key =? 97)%N then activate_control next_request ControlAdd m
  else if bool_decide (key ∈ [101; 13; 10]%N) then activate_control next_request ControlEdit m
  else if (key =? 100)%N then activate_control next_request ControlRemove m
  else (m, NothingElse, false).
Definition form_key (next_request key : N) (form : TargetForm) (m : TargetManager) : TargetManager * ManagerEffect :=
  let put f := (m <| tm_mode := ManagerForm f |>, NothingElse) in
  if (key =? 27)%N then (m <| tm_mode := ManagerList |>, NothingElse)
  else if (key =? 9)%N then
    put (form <| tf_field := next_field (tf_field form) (negb (bool_decide (tf_discovered_sessions form = []))) |> <| tf_error := None |>)
  else if (key =? 16)%N && bool_decide (tf_field form = FieldDiscoveredSession) then put (form <| tf_discovered_selected ::= pred |>)
  else if (key =? 14)%N && bool_decide (tf_field form = FieldDiscoveredSession) then
    put (form <| tf_discovered_selected := min (S (tf_discovered_selected form)) (length (tf_discovered_sessions form) - 1) |>)
  else if (key =? 20)%N then start_target_connection_test next_request m
  else if bool_decide (key ∈ [13; 10]%N) then
    match tf_field form with
    | FieldDiscoveredSession => put (select_discovered_session (tf_discovered_selected form) form)
    | FieldDiscoverSessions => put (toggle_discover form)
    | _ => save_target_form m
    end
  else if bool_decide (key ∈ [8; 127]%N) then put (type_text (λ text, take (length text - 1) text) form)
  else if (key =? 32)%N && bool_decide (tf_field form = FieldDiscoverSessions) then put (toggle_discover form)
  else if (32 <=? key)%N && (key <=? 126)%N then put (type_text (λ text, text ++ [key]) form)
  else (m, NothingElse).
Definition target_manager_key (next_request key : N) (m : TargetManager) : TargetManager * ManagerEffect * bool :=
  match tm_mode m with
  | ManagerList => list_key next_request key m
  | ManagerForm form => (form_key next_request key form m, false)
  | ConfirmRemove _ =>
      if (key =? 121)%N then (remove_target m, false)
      else if bool_decide (key ∈ [110; 113; 27]%N) then (m <| tm_mode := ManagerList |>, NothingElse, false)
      else (m, NothingElse, false)
  end.

(** The answer to a test, when the form still waits for it. *)
Definition apply_target_test_event (request_id elapsed_ms : N) (result : result ustr SessionDiscovery) (m : TargetManager)
    : TargetManager :=
  map_form (λ form,
    match tf_test_state form with
    | Testing waiting =>
        if negb (waiting =? request_id)%N then form
        else
          match result with
          | Ok discovery =>
              let selected :=
                if bool_decide (tf_session form = []) then 0
                else default 0 (fst <$> list_find (λ s, ds_name s = tf_session form) (sd_sessions discovery)) in
              form <| tf_discovered_selected := selected |> <| tf_discovered_sessions := sd_sessions discovery |>
                   <| tf_discovered_offset := 0 |> <| tf_test_state := Passed elapsed_ms (length (sd_sessions discovery)) |>
          | Err message => form <| tf_discovered_sessions := [] |> <| tf_test_state := FailedTest message |>
          end
    | _ => form
    end) m.

(** ** What a form saves *)

(** Opening a target's form and saving it untouched is that target, with the roots and tags
    no field shows; an empty destination or session is no destination or session. *)
Theorem edit_keeps_target t :
  tgt_ssh t ≠ Some [] → tgt_session t ≠ Some [] → form_target (form_edit t) = t.
Proof.
  destruct t as [name ssh discover session socket bins tags roots]. unfold form_target. simpl. intros Hssh Hsession.
  f_equal; [destruct ssh as [[|]|]|destruct session as [[|]|]]; done.
Qed.

(** The configuration a save would make. *)
Definition saved_targets (original_name : option ustr) (target : Target) (configured : list Target) : option (list Target) :=
  match original_name with
  | Some name => (λ found, <[found.1 := target]> configured) <$> list_find (λ t, named name t = true) configured
  | None => Some (configured ++ [target])
  end.
Lemma validation_error_None f configured :
  validation_error f configured = None →
  ∃ targets, saved_targets (tf_original_name f) (form_target f) configured = Some targets ∧ validate (form_config targets) = Ok ().
Proof.
  unfold validation_error, saved_targets. destruct (tf_original_name f) as [name|].
  - destruct (list_find _ configured) as [[index t]|]; [|done]. simpl.
    destruct (validate _) as [[]|] eqn:Hv; [|done]. eauto.
  - destruct (validate _) as [[]|] eqn:Hv; [|done]. eauto.
Qed.
Lemma map_form_targets g m : tm_targets (map_form g m) = tm_targets m.
Proof. unfold map_form. by destruct (tm_mode m). Qed.
Lemma save_asks_valid m m' original target :
  save_target_form m = (m', SaveTarget original target) →
  ∃ targets, saved_targets original target (tm_targets m) = Some targets ∧ validate (form_config targets) = Ok ().
Proof.
  unfold save_target_form. destruct (tm_mode m) as [|form|]; try done.
  destruct (validation_error form (tm_targets m)) eqn:Hv; [done|]. intros [= _ <- <-]. by apply validation_error_None.
Qed.
Lemma test_saves_nothing next m m' original target : start_target_connection_test next m ≠ (m', SaveTarget original target).
Proof. unfold start_target_connection_test. destruct (tm_mode m) as [|form|]; try done. by destruct (validation_error _ _). Qed.
Lemma remove_saves_nothing m m' original target : remove_target m ≠ (m', SaveTarget original target).
Proof. unfold remove_target. by destruct (tm_mode m). Qed.

(** Whatever is typed or clicked in the target manager, a target is offered for saving
    only when the targets with it in place (of the one edited, or after the others) pass
    every check the configuration file is held to: the manager cannot write a
    configuration that does not load. *)
Theorem saves_only_valid next m m' original target close :
  (∃ key, target_manager_key next key m = (m', SaveTarget original target, close))
  ∨ (∃ control, activate_control next control m = (m', SaveTarget original target, close)) →
  ∃ targets, saved_targets original target (tm_targets m) = Some targets ∧ validate (form_config targets) = Ok ().
Proof.
  assert (∀ control, activate_control next control m = (m', SaveTarget original target, close) →
    ∃ targets, saved_targets original target (tm_targets m) = Some targets ∧ validate (form_config targets) = Ok ()) as Hactivate.
  { intros []; simpl; try done; intros [= Heq _].
    - by apply test_saves_nothing in Heq.
    - by eapply save_asks_valid.
    - by apply remove_saves_nothing in Heq. }
  intros [[key Hkey]|[control Hcontrol]]; [|by eapply Hactivate]. revert Hkey. unfold target_manager_key.
  destruct (tm_mode m) as [|form|] eqn:Hmode.
  - unfold list_key. repeat case_match; try done; apply Hactivate.
  - intros [= Hkey _]. revert Hkey. unfold form_key.
    repeat case_match; try done; first [by intros ?%test_saves_nothing|apply save_asks_valid].
  - repeat case_match; try done. by intros [= ?%remove_saves_nothing _].
Qed.

(** ** Tests *)

(** An answer to another test, or to one the form gave up, changes nothing. *)
Theorem stale_test_ignored request elapsed answer m :
  (∀ form waiting, tm_mode m = ManagerForm form → tf_test_state form = Testing waiting → waiting ≠ request) →
  apply_target_test_event request elapsed answer m = m.
Proof.
  intros Hstale. unfold apply_target_test_event, map_form. destruct (tm_mode m) as [|form|] eqn:Hmode; [done| |done].
  assert ((match tf_test_state form with
    | Testing waiting => if negb (waiting =? request)%N then form else
        match answer with
        | Ok discovery =>
            form <| tf_discovered_selected :=
                      if bool_decide (tf_session form = []) then 0
                      else default 0 (fst <$> list_find (λ s, ds_name s = tf_session form) (sd_sessions discovery)) |>
                 <| tf_discovered_sessions := sd_sessions discovery |> <| tf_discovered_offset := 0 |>
                 <| tf_test_state := Passed elapsed (length (sd_sessions discovery)) |>
        | Err message => form <| tf_discovered_sessions := [] |> <| tf_test_state := FailedTest message |>
        end
    | _ => form end) = form) as Hsame.
  { destruct (tf_test_state form) as [|waiting| |] eqn:Hstate; try done.
    destruct (N.eqb_spec waiting request) as [->|]; [by destruct (Hstale form request)|done]. }
  cbv zeta. rewrite Hsame. destruct m; simpl in *. by subst.
Qed.

(** A session typed by hand takes no other session's socket with it, and changing any text
    forgets what the last test found. *)
Theorem typing_forgets edit f :
  is_Some (active_text f) →
  let f' := type_text edit f in
  (tf_field f = FieldSession → tf_socket f' = None)
  ∧ tf_test_state f' = Untested ∧ tf_discovered_sessions f' = []
  ∧ tf_roots f' = tf_roots f ∧ tf_tags f' = tf_tags f ∧ tf_original_name f' = tf_original_name f.
Proof.
  unfold type_text, active_text, edit_active. destruct f as [? ? ? ? ? ? ? ? ? field]. simpl. intros [t Ht].
  destruct field; simplify_eq/=; repeat split; try done; by repeat case_decide.
Qed.
