(* ===== verification/TuiPaste.v ===== *)
(** Paths between a person, a terminal and a shell: how a verified path is quoted before it
    is typed, and how what a terminal types for a dropped file is read, from
    [src/src/tui.rs].

    The home directory and which paths are files are arguments.

    A path the frontend quotes is one word to a shell and to the frontend itself, whatever
    its characters; dropping quoted files gives exactly those files. *)

From S2P Require Import Prelude Text Net FileSave.

Definition single_quote : N := 39.
Definition double_quote : N := 34.
Definition backslash : N := 92.

(** ** Quoting *)

Definition quoted_char (c : N) : ustr :=
  if (c =? single_quote)%N then [single_quote; backslash; single_quote; single_quote] else [c].
Definition shell_quoted_path (path : ustr) : ustr := [single_quote] ++ (path ≫= quoted_char) ++ [single_quote].
Definition quoted_paths (paths : list ustr) : ustr := Net.join (u " ") (shell_quoted_path <$> paths).

(** ** Reading *)

(** The words of a text, with the quote that is open and the word being read. *)
Fixpoint words_from (open : option N) (word : ustr) (started : bool) (text : ustr) : option (list ustr) :=
  match text with
  | [] => match open with None => Some (if started then [word] else []) | Some _ => None end
  | c :: text =>
      match open with
      | None =>
          if (c =? backslash)%N then
            match text with
            | [] => None
            | next :: text => words_from None (word ++ [backslash; next]) true text
            end
          else if (c =? single_quote)%N || (c =? double_quote)%N then words_from (Some c) (word ++ [c]) true text
          else if is_whitespace c then
            if started then cons word <$> words_from None [] false text else words_from None word false text
          else words_from None (word ++ [c]) true text
      | Some quote =>
          if (c =? quote)%N then words_from None (word ++ [c]) true text
          else if (c =? backslash)%N && (quote =? double_quote)%N then
            match text with
            | [] => None
            | next :: text => words_from open (word ++ [backslash; next]) true text
            end
          else words_from open (word ++ [c]) true text
      end
  end.
Definition shell_words (text : ustr) : option (list ustr) := words_from None [] false text.

Fixpoint unescaped (text : ustr) : ustr :=
  match text with
  | [] => []
  | c :: text =>
      if (c =? backslash)%N then match text with [] => [backslash] | escaped :: text => escaped :: unescaped text end
      else c :: unescaped text
  end.

(** [str::replace], for a pattern that is not empty; [fuel] bounds the characters left. *)
Fixpoint replace_all (fuel : nat) (pattern with_ text : ustr) : ustr :=
  match fuel with
  | O => text
  | S fuel =>
      match text with
      | [] => []
      | c :: rest =>
          match strip_prefix pattern text with
          | Some after => with_ ++ replace_all fuel pattern with_ after
          | None => c :: replace_all fuel pattern with_ rest
          end
      end
  end.
Definition replace (pattern with_ text : ustr) : ustr := replace_all (length text) pattern with_ text.

(** The text between its first and its last character. *)
Definition inside (text : ustr) : ustr := take (length text - 2) (drop 1 text).
Definition between (quote : N) (text : ustr) : bool :=
  bool_decide (head text = Some quote) && bool_decide (last text = Some quote) && (2 <=? length text).
Definition unquoted (text : ustr) : ustr :=
  if between single_quote text then replace [single_quote; backslash; single_quote; single_quote] [single_quote] (inside text)
  else if between double_quote text then unescaped (inside text)
  else unescaped text.
Definition dropped_path (home : option ustr) (text : ustr) : ustr :=
  let unquoted := unquoted (trim text) in
  match unquoted, home with
  | 126%N :: rest, Some home =>
      if bool_decide (rest = []) || starts_with slash rest then join_path home (trim_start_char slash rest) else unquoted
  | _, _ => unquoted
  end.
Definition dropped_files (home : option ustr) (is_file : ustr → bool) (text : ustr) : list ustr :=
  match shell_words text with
  | None | Some [] => []
  | Some words =>
      let paths := dropped_path home <$> words in
      if forallb (λ path, starts_with slash path && is_file path) paths then paths else []
  end.

(** ** One quoted path *)

Lemma replace_quoted fuel path :
  length (path ≫= quoted_char) ≤ fuel →
  replace_all fuel [single_quote; backslash; single_quote; single_quote] [single_quote] (path ≫= quoted_char) = path.
Proof.
  revert fuel. induction path as [|c path IH]; intros fuel Hfuel; [by destruct fuel|].
  revert Hfuel. cbn [mbind list_bind]. unfold quoted_char at 1 3. destruct (N.eqb_spec c single_quote) as [->|Hc].
  - change ([single_quote; backslash; single_quote; single_quote] ++ (path ≫= quoted_char))
      with (single_quote :: backslash :: single_quote :: single_quote :: (path ≫= quoted_char)).
    cbn [length]. intros Hfuel. destruct fuel as [|fuel]; [lia|]. cbn [replace_all strip_prefix].
    rewrite !N.eqb_refl. cbn [app]. rewrite IH by (unfold mbind in *; lia). done.
  - cbn [app length]. intros Hfuel. destruct fuel as [|fuel]; [lia|]. cbn [replace_all strip_prefix].
    rewrite (proj2 (N.eqb_neq single_quote c)) by congruence. f_equal. apply IH. unfold mbind in *. lia.
Qed.

Lemma shell_quoted_last path : last (shell_quoted_path path) = Some single_quote.
Proof. unfold shell_quoted_path. by rewrite app_assoc, last_snoc. Qed.
Lemma trim_quoted path : trim (shell_quoted_path path) = shell_quoted_path path.
Proof.
  unfold trim, trim_end. change (trim_start (shell_quoted_path path)) with (shell_quoted_path path).
  assert (reverse (shell_quoted_path path) = single_quote :: reverse ([single_quote] ++ (path ≫= quoted_char))) as Hrev.
  { unfold shell_quoted_path. by rewrite app_assoc, reverse_app. }
  rewrite Hrev. change (trim_start (single_quote :: ?l)) with (single_quote :: l). rewrite <-Hrev. apply reverse_involutive.
Qed.
Lemma unquoted_quoted path : unquoted (shell_quoted_path path) = path.
Proof.
  unfold unquoted, between. rewrite shell_quoted_last. rewrite !bool_decide_eq_true_2 by done.
  assert (length (shell_quoted_path path) = S (S (length (path ≫= quoted_char)))) as Hlen.
  { unfold shell_quoted_path. rewrite !length_app. simpl. lia. }
  rewrite (proj2 (Nat.leb_le 2 _)) by lia. cbn [andb].
  assert (inside (shell_quoted_path path) = path ≫= quoted_char) as ->.
  { unfold inside. rewrite Hlen. unfold shell_quoted_path. cbn [app drop Nat.sub]. rewrite Nat.sub_0_r. apply take_app_length. }
  by apply replace_quoted.
Qed.
(** A quoted path is that path again, for every path that is not under somebody's home. *)
Theorem quoted_path_survives home path : head path ≠ Some 126%N → dropped_path home (shell_quoted_path path) = path.
Proof.
  intros Htilde. unfold dropped_path. rewrite trim_quoted, unquoted_quoted.
  destruct path as [|c path]; [by destruct home|]. destruct (decide (c = 126%N)) as [->|Hc]; [done|].
  by repeat case_match; simplify_eq.
Qed.

(** ** Words *)

Lemma words_quoted c word rest :
  words_from (Some single_quote) word true (quoted_char c ++ rest)
  = words_from (Some single_quote) (word ++ quoted_char c) true rest.
Proof.
  unfold quoted_char. destruct (N.eqb_spec c single_quote) as [->|Hc].
  - simpl. by rewrite <-!app_assoc.
  - simpl. rewrite (proj2 (N.eqb_neq _ _)) by done. by rewrite andb_false_r.
Qed.
Lemma words_in_quotes path word rest :
  words_from (Some single_quote) word true ((path ≫= quoted_char) ++ rest)
  = words_from (Some single_quote) (word ++ (path ≫= quoted_char)) true rest.
Proof.
  revert word. induction path as [|c path IH]; intros word; simpl; [by rewrite app_nil_r|].
  rewrite <-app_assoc, words_quoted, IH. by rewrite <-app_assoc.
Qed.
Lemma words_of_quoted path rest :
  words_from None [] false (shell_quoted_path path ++ rest) = words_from None (shell_quoted_path path) true rest.
Proof. unfold shell_quoted_path. rewrite <-!app_assoc. simpl. rewrite words_in_quotes. reflexivity. Qed.
Lemma words_of_paths paths : shell_words (quoted_paths paths) = Some (shell_quoted_path <$> paths).
Proof.
  unfold shell_words, quoted_paths. induction paths as [|path paths IH]; [done|].
  destruct paths as [|path' paths].
  - change (words_from None [] false (shell_quoted_path path) = Some [shell_quoted_path path]).
    rewrite <-(app_nil_r (shell_quoted_path path)) at 1. by rewrite words_of_quoted.
  - change (Net.join (u " ") (shell_quoted_path <$> path :: path' :: paths))
      with (shell_quoted_path path ++ u " " ++ Net.join (u " ") (shell_quoted_path <$> path' :: paths)).
    rewrite words_of_quoted.
    transitivity (cons (shell_quoted_path path) <$> words_from None [] false (Net.join (u " ") (shell_quoted_path <$> path' :: paths)));
      [reflexivity|]. by rewrite IH.
Qed.

(** C24. Whatever their names hold (spaces, quotes, dollar signs, newlines), paths the
    frontend quotes for a shell come back as exactly those paths, in that order and none
    split in two, when the same text is dropped on it and they are files; and if any of
    them is not, none is sent. *)
Theorem quoted_files_survive home is_file paths :
  Forall (λ path, starts_with slash path) paths →
  dropped_files home is_file (quoted_paths paths) = if forallb is_file paths then paths else [].
Proof.
  intros Habsolute. unfold dropped_files. rewrite words_of_paths. destruct paths as [|path paths]; [done|].
  set (all := path :: paths) in *. change (shell_quoted_path <$> all) with (shell_quoted_path path :: (shell_quoted_path <$> paths)) at 1.
  cbv iota. change (shell_quoted_path path :: (shell_quoted_path <$> paths)) with (shell_quoted_path <$> all).
  assert (dropped_path home <$> (shell_quoted_path <$> all) = all) as ->.
  { rewrite <-list_fmap_compose. rewrite <-(list_fmap_id all) at 2. apply Forall_fmap_ext_1.
    eapply Forall_impl; [exact Habsolute|]. intros p Hp. apply quoted_path_survives. destruct p as [|c p]; [done|].
    unfold starts_with in Hp. intros [= ->]. by vm_compute in Hp. }
  assert (forallb (λ p, starts_with slash p && is_file p) all = forallb is_file all) as ->; [|done].
  clearbody all. induction Habsolute as [|p l Hp _ IH]; simpl; [done|]. rewrite IH. by rewrite (Is_true_true_1 _ Hp).
Qed.

(** ** Escaping *)

(** A shell's escaping, as terminals write it: a backslash before some characters, itself
    among them. *)
Definition escaped (special : N → bool) (path : ustr) : ustr := path ≫= (λ c, if special c then [backslash; c] else [c]).
Lemma unescape_escaped special path : special backslash = true → unescaped (escaped special path) = path.
Proof.
  intros Hb. induction path as [|c path IH]; [done|]. unfold escaped in *. cbn [mbind list_bind].
  destruct (special c) eqn:Hc; cbn [app unescaped].
  - by rewrite N.eqb_refl, IH.
  - destruct (N.eqb_spec c backslash) as [->|_]; [congruence|]. by rewrite IH.
Qed.

(** A terminal escapes a space at the end of a name with a backslash; the word is
    trimmed before it is read, so the space is lost and its backslash kept: the file is not
    found, and the path is typed into the shell instead of being sent. *)
Theorem trailing_space_lost home :
  shell_words (u "/tmp/report\ ") = Some [u "/tmp/report\ "]
  ∧ dropped_path home (u "/tmp/report\ ") = u "/tmp/report\"
  ∧ dropped_files home (λ path, bool_decide (path = u "/tmp/report ")) (u "/tmp/report\ ") = [].
Proof. destruct home; vm_compute; done. Qed.

Lemma quoted_files_witness :
  dropped_files None (λ _, true) (quoted_paths [u "/tmp/it's"; u "/tmp/two words"]) = [u "/tmp/it's"; u "/tmp/two words"].
Proof. apply (quoted_files_survive None (λ _, true)). repeat constructor. Defined.
Lemma quoted_path_witness : dropped_path (Some (u "/home/me")) (shell_quoted_path (u "/tmp/$x")) = u "/tmp/$x".
Proof. apply quoted_path_survives. done. Defined.
