(* ===== verification/TuiApp.v ===== *)
(** The frontend's state and what acts on it: [App] of [src/src/tui.rs], what it sends
    through [ClientCommands] of [src/src/client.rs], how it selects panes and subscribes to
    them, and how it asks for operations.

    What only drawing uses (the sidebar's rows and offsets, the hit areas) is left out. The
    moment, and what goes right on this machine while an event is handled, are in a [Moment]. *)

From S2P Require Import Prelude Text Model State Attention AgentMarks AgentCards Config Screen Operation Protocol HerdrSupport FileSave Notifications TuiInput TuiLayout TuiSelection TuiActions TuiTargets.

(** ** The client *)

(** What was sent, oldest first, and the next request's number. *)
Record ClientCommands := { cc_sent : list ClientMessage; cc_next_request : N }.
Definition client_send (m : ClientMessage) (c : ClientCommands) : ClientCommands :=
  {| cc_sent := cc_sent c ++ [m]; cc_next_request := cc_next_request c |}.
(** [fetch_add]. *)
Definition client_request (m : N → ClientMessage) (c : ClientCommands) : ClientCommands * N :=
  let request := cc_next_request c in
  (client_send (m request) {| cc_sent := cc_sent c; cc_next_request := u64_wrapping_add request 1 |}, request).

(** ** The state *)

Inductive InputMode := ModeTerminal | ModePrefix | ModeHerdrPrefix.
#[export] Instance InputMode_eq_dec : EqDecision InputMode.
Proof. solve_decision. Defined.
Inductive AgentFilter := FilterAll | FilterAttention | FilterActive.
Inductive SidebarMode := SidebarList | SidebarDiagram.

Class VtModes `{Vt100} := {
  bracketed_paste : VtScreen → bool;
  mouse_protocol_mode : VtScreen → MouseProtocolMode;
  mouse_protocol_encoding : VtScreen → MouseProtocolEncoding;
}.

Record FollowedFocus := { ff_session : TargetSession; ff_before : gset PaneId; ff_deadline : N }.
Record PendingOperation := {
  po_description : ustr; po_follow_server_focus : bool; po_follow_session : TargetSession;
  po_clipboard_feedback : option ustr }.
(** The batch and the position in it. *)
Record PendingUpload := { pu_described : ustr; pu_batch : option (N * N) }.
Record UploadBatch := { ub_expected : nat; ub_paths : gmap N ustr; ub_failures : list ustr }.
Record PendingPluginCatalog := { pp_target : TargetSession; pp_generation : N }.
Record ClipboardFeedback := { cf_text : ustr; cf_expires_at : N }.
Record PairingOffer := { pf_code : ustr; pf_url : option ustr; pf_expires_in_seconds : N }.
Record PairingApproval := { pv_attempt : ustr; pv_name : ustr; pv_confirmation : ustr; pv_expires_in_seconds : N }.
Record CommandPalette := { cp_query : ustr; cp_selected : nat }.
Inductive TextPromptAction :=
  | PromptSaveFile (pane : PaneId)
  | PromptTransferFile (source destination : PaneId)
  | PromptSendFile (pane : PaneId)
  | PromptCreateWorkspace (target : TargetSession)
  | PromptRenameWorkspace (workspace : WorkspaceId)
  | PromptRenameTab (tab : TabId).
Record TextPrompt := {
  tp_title : ustr; tp_label : ustr; tp_value : ustr; tp_action : TextPromptAction; tp_error : option ustr; tp_partial : bytes }.
(** The line at the bottom: a text, or how a save went. *)
Inductive Message := Said (text : ustr) | OfSave (how : SaveNotice).

Section app.
Context `{VtModes}.

Record ActiveRoute := {
  rt_pane : PaneId;
  rt_requested : TerminalAccess;
  rt_access : TerminalAccess;
  rt_generation : N;
  rt_rows : N;
  rt_columns : N;
  rt_parser : VtParser;
  rt_last_sequence : option N;
}.
#[export] Instance ActiveRoute_eta : Eta ActiveRoute := λ r, {|
  rt_pane := rt_pane r; rt_requested := rt_requested r; rt_access := rt_access r; rt_generation := rt_generation r;
  rt_rows := rt_rows r; rt_columns := rt_columns r; rt_parser := rt_parser r; rt_last_sequence := rt_last_sequence r |}.

Record App := {
  selected_pane : option PaneId;
  selection_explicit : bool;
  followed_focus : option FollowedFocus;
  restore_pending : option PaneId;
  (** What the store on disk holds, when there is a store. *)
  state_store : option (option PaneId);
  mode : InputMode;
  routes : gmap PaneId ActiveRoute;
  route_retry_after : gmap PaneId N;
  client : option ClientCommands;
  pending_operations : gmap N PendingOperation;
  plugin_catalogs : gmap TargetSession PluginCatalog;
  agent_marks : gmap AgentId AgentMarkState;
  file_save : option FileSave;
  file_save_request : option N;
  pending_plugin_catalogs : gmap N PendingPluginCatalog;
  pending_uploads : gmap N PendingUpload;
  selection : option TerminalSelection;
  selection_autoscroll : option SelectionAutoscroll;
  sidebar_press : option PaneId;
  sidebar_mode : SidebarMode;
  message : option Message;
  clipboard_feedback : option ClipboardFeedback;
  configured_targets : list Target;
  upload_batches : gmap N UploadBatch;
  next_upload_batch : N;
  resolved_targets : gmap TargetSession Target;
  configuration_dirty : bool;
  target_manager : option TargetManager;
  next_target_test_request : N;
  max_transfer_bytes : N;
  agent_navigator : option (AgentFilter * nat);
  pairing : option PairingOffer;
  pairing_approval : option PairingApproval;
  attention : AttentionIndex;
  attention_center : option nat;
  notification_queue : NotificationQueue;
  command_palette : option CommandPalette;
  context_menu : option ContextMenu;
  text_prompt : option TextPrompt;
  close_confirmation : option ResourceAction;
  herdr_action_inflight : bool;
}.
#[export] Instance App_eta : Eta App := λ a, {|
  selected_pane := selected_pane a; selection_explicit := selection_explicit a; followed_focus := followed_focus a;
  restore_pending := restore_pending a; state_store := state_store a; mode := mode a; routes := routes a;
  route_retry_after := route_retry_after a; client := client a; pending_operations := pending_operations a;
  plugin_catalogs := plugin_catalogs a; agent_marks := agent_marks a; file_save := file_save a;
  file_save_request := file_save_request a; pending_plugin_catalogs := pending_plugin_catalogs a;
  pending_uploads := pending_uploads a; selection := selection a; selection_autoscroll := selection_autoscroll a;
  sidebar_press := sidebar_press a; sidebar_mode := sidebar_mode a; message := message a;
  clipboard_feedback := clipboard_feedback a; configured_targets := configured_targets a;
  upload_batches := upload_batches a; next_upload_batch := next_upload_batch a; resolved_targets := resolved_targets a;
  configuration_dirty := configuration_dirty a; target_manager := target_manager a;
  next_target_test_request := next_target_test_request a; max_transfer_bytes := max_transfer_bytes a; agent_navigator := agent_navigator a;
  pairing := pairing a; pairing_approval := pairing_approval a; attention := attention a;
  attention_center := attention_center a; notification_queue := notification_queue a;
  command_palette := command_palette a; context_menu := context_menu a; text_prompt := text_prompt a;
  close_confirmation := close_confirmation a; herdr_action_inflight := herdr_action_inflight a |}.

(** The moment in milliseconds; whether the store of the selected pane can be written; the
    disk and the directory files are saved to. *)
Record Moment := { now : N; stores : bool; disk : Disk; save_directory : ustr }.

Definition say (text : ustr) (a : App) : App := a <| message := Some (Said text) |>.
Definition send (m : ClientMessage) (a : App) : App := a <| client ::= fmap (client_send m) |>.
Definition no_selection (a : App) : App := a <| selection := None |> <| selection_autoscroll := None |>.

(** ** Attention and selection *)

Definition mark_attention_seen (pane : PaneId) (a : App) : App :=
  let '(index, changed) := mark_seen_for_pane pane (attention a) in
  let a := a <| attention := index |> in
  if changed then send (MarkAttentionSeen pane) a else a.
Definition refresh_attention (m : Moment) (a : App) : App :=
  a <| notification_queue := foldl (λ q event, (enqueue event (now m) q).1) (notification_queue a) (events (attention a)) |>.

Definition select_pane (m : Moment) (pane : PaneId) (a : App) : App :=
  let a := a <| selection_explicit := true |> <| followed_focus := None |> <| restore_pending := None |>
             <| selection := None |> <| selection_autoscroll := None |> <| sidebar_press := None |>
             <| selected_pane := Some pane |> <| route_retry_after ::= delete pane |> <| message := None |> in
  let a := mark_attention_seen pane a in
  match state_store a with
  | None => a
  | Some _ => if stores m then a <| state_store := Some (Some pane) |>
              else say (u "failed to persist the selected pane") a
  end.

Definition pane_is_live (st : FederationState) (pane : PaneId) : bool :=
  match targets st !! target_session pane with
  | Some t => is_live t && match snapshot t with Some s => bool_decide (is_Some (panes s !! pane)) | None => false end
  | None => false
  end.
Definition jump_from_notification (m : Moment) (st : FederationState) (pane : PaneId) (a : App) : App :=
  if pane_is_live st pane
  then say (u "jumped to the notified pane on " ++ display_target_session (target_session pane)) (select_pane m pane a)
  else say (u "the notified pane on " ++ display_target_session (target_session pane) ++ u " is no longer live")
         (mark_attention_seen pane a).

Definition selectable_panes (st : FederationState) : list PaneId :=
  t ← values (targets st);
  if is_live t then match snapshot t with Some s => keys (panes s) | None => [] end else [].

Definition cycle_pane (m : Moment) (st : FederationState) (direction : Z) (a : App) : App :=
  match selectable_panes st with
  | [] => no_selection (a <| selected_pane := None |> <| routes := ∅ |> <| route_retry_after := ∅ |>)
  | (first :: _) as panes =>
      let a := a <| selection_explicit := true |> in
      let next :=
        match (selected ← selected_pane a; position (λ p, bool_decide (p = selected)) panes) with
        | Some current => wrapped_index current (length panes) direction
        | None => if (direction <? 0)%Z then length panes - 1 else 0
        end in
      let pane := default first (panes !! next) in
      if bool_decide (selected_pane a = Some pane) then a else select_pane m pane a
  end.

Definition select_tab (m : Moment) (snapshot : NormalizedSnapshot) (tab : TabId) (a : App) : App :=
  match pane_for_tab snapshot tab with Some pane => select_pane m pane a | None => a end.
Definition workspace_tabs (snapshot : NormalizedSnapshot) (workspace : WorkspaceId) : list TabId :=
  tab_id <$> filter (λ t, tab_workspace t = Some workspace) (values (tabs snapshot)).
Definition selected_tabs (st : FederationState) (a : App) : option (NormalizedSnapshot * PaneState * list TabId) :=
  sp ← selected_snapshot_and_pane st (selected_pane a);
  workspace ← pane_workspace sp.2;
  Some (sp, workspace_tabs sp.1 workspace).
Definition cycle_tab (m : Moment) (st : FederationState) (direction : Z) (a : App) : App :=
  match selected_tabs st a with
  | Some (snapshot, pane, (first :: _) as tabs) =>
      let current := default 0 (selected ← pane_tab pane; position (λ t, bool_decide (t = selected)) tabs) in
      select_tab m snapshot (default first (tabs !! wrapped_index current (length tabs) direction)) a
  | _ => a
  end.
Definition select_tab_index (m : Moment) (st : FederationState) (index : nat) (a : App) : App :=
  match selected_tabs st a with
  | None => a
  | Some (snapshot, _, tabs) =>
      match tabs !! index with
      | Some tab => select_tab m snapshot tab a
      | None => say (u "Herdr: tab " ++ display_N (N.of_nat (index + 1)) ++ u " is not available") a
      end
  end.
Definition select_neighbor_pane (m : Moment) (st : FederationState) (direction : PaneDirection) (a : App) : App :=
  match selected_snapshot_and_pane st (selected_pane a) with
  | None => a
  | Some (snapshot, pane) =>
      match pane_tab pane with
      | None => a
      | Some tab =>
          match layouts snapshot !! tab with
          | None => say (u "Herdr: selected tab has no pane layout") a
          | Some layout =>
              match find_by (λ p, bool_decide (lp_pane p = pane_id pane)) (layout_panes layout) with
              | None => a
              | Some current =>
                  match neighbor_pane layout current (pane_id pane) direction with
                  | Some next => select_pane m next a
                  | None => say (u "Herdr: no pane to the " ++ direction_label direction) a
                  end
              end
          end
      end
  end.
Definition live_workspaces (st : FederationState) : list (NormalizedSnapshot * WorkspaceState) :=
  t ← values (targets st);
  if is_live t then match snapshot t with Some s => pair s <$> values (workspaces s) | None => [] end else [].
Definition select_workspace (m : Moment) (st : FederationState) (index : nat) (a : App) : App :=
  match live_workspaces st !! index with
  | None => say (u "workspace " ++ display_N (N.of_nat (index + 1)) ++ u " is not available") a
  | Some (snapshot, workspace) =>
      match or_else (ws_active_tab workspace) (first_tab_of snapshot (ws_id workspace)) with
      | Some tab => select_tab m snapshot tab a
      | None => a
      end
  end.

(** ** Reconciling with the federation *)

(** [Iterator::max_by_key]: the last of the greatest. *)
Definition max_by_key {A K} `{Ord K} (f : A → K) (l : list A) : option A :=
  foldl (λ best x, match best with
                   | None => Some x
                   | Some b => if bool_decide (cmp (f x) (f b) = Lt) then best else Some x
                   end) None l.
Definition busy (s : NormalizedSnapshot) : N * (N * N) :=
  (N.of_nat (count_agents (counts s)), (N.of_nat (count_workspaces (counts s)), N.of_nat (count_panes (counts s)))).
Definition startup_pane (st : FederationState) : option PaneId :=
  s ← max_by_key busy (snd <$> live_snapshots st);
  or_else (focused_pane s) (head (keys (panes s))).

(** The restored pane: selected, waited for, or given up. *)
Inductive Restoring := Restored (pane : PaneId) | WaitForTarget | NothingToRestore.
Definition restoring (st : FederationState) (pending : option PaneId) : Restoring :=
  match pending with
  | None => NothingToRestore
  | Some persisted =>
      match targets st !! target_session persisted with
      | Some t =>
          if is_live t then if bool_decide (persisted ∈ selectable_panes st) then Restored persisted else NothingToRestore
          else WaitForTarget
      | None => NothingToRestore
      end
  end.
(** The focus an operation that was followed produced. *)
Inductive Following := FollowTo (pane : PaneId) | StillWaiting | NothingToFollow.
Definition following (m : Moment) (st : FederationState) (followed : option FollowedFocus) : Following :=
  match followed with
  | None => NothingToFollow
  | Some f =>
      let focused := (t ← targets st !! ff_session f;
                      if is_live t then s ← snapshot t; focused_pane s else None) in
      let created := match focused with
                     | Some pane => if bool_decide (pane ∈ ff_before f) then None else Some pane
                     | None => None
                     end in
      let expired := (ff_deadline f <=? now m)%N in
      match or_else created (if expired then focused else None) with
      | Some pane => FollowTo pane
      | None => if expired then NothingToFollow else StillWaiting
      end
  end.

Definition select_startup (st : FederationState) (a : App) : App :=
  if bool_decide (selected_pane a = startup_pane st) then a
  else no_selection (a <| selected_pane := startup_pane st |> <| route_retry_after := ∅ |> <| message := None |>).
Definition reconcile_selection (m : Moment) (st : FederationState) (a : App) : App :=
  match restoring st (restore_pending a) with
  | Restored pane => a <| restore_pending := None |> <| selected_pane := Some pane |> <| selection_explicit := true |>
  | WaitForTarget => a
  | NothingToRestore =>
      let a := a <| restore_pending := None |> in
      match selected_pane a with
      | Some _ => a
      | None =>
          match following m st (followed_focus a) with
          | FollowTo pane =>
              let reported := message a in
              select_pane m pane (a <| followed_focus := None |> <| message := None |>) <| message := reported |>
          | StillWaiting => a
          | NothingToFollow => select_startup st (a <| followed_focus := None |>)
          end
      end
  end.

(** ** Subscriptions *)

Definition ROUTE_SCROLLBACK : N := 2000.
Definition desired_access (pane selected : PaneId) : TerminalAccess := if bool_decide (pane = selected) then Control else Observe.
Definition route_wanted (st : FederationState) (desired : gmap PaneId Rect) (selected pane : PaneId) (r : ActiveRoute) : bool :=
  match desired !! pane, targets st !! target_session pane with
  | Some inner, Some runtime =>
      bool_decide (rt_requested r = desired_access pane selected)
      && (rt_generation r =? connection_generation runtime)%N
      && (rt_rows r =? area_height inner)%N && (rt_columns r =? area_width inner)%N
  | _, _ => false
  end.
Definition desired_areas `{Ratatui} (st : FederationState) (selected : PaneId) (frame : Rect) : gmap PaneId Rect :=
  let '(_, _, terminal_area) := ui_areas frame in
  collect_map (omap (λ pa, let inner := block_inner pa.2 in
                           if (0 <? area_width inner)%N && (0 <? area_height inner)%N then Some (pa.1, inner) else None)
                 (visible_pane_areas st (Some selected) terminal_area)).
Definition fresh_route (selected pane : PaneId) (runtime : TargetRuntimeState) (inner : Rect) : ActiveRoute := {|
  rt_pane := pane; rt_requested := desired_access pane selected; rt_access := Observe;
  rt_generation := connection_generation runtime; rt_rows := area_height inner; rt_columns := area_width inner;
  rt_parser := parser_new (area_height inner) (area_width inner) ROUTE_SCROLLBACK; rt_last_sequence := None |}.
Definition unsubscribe (pane : PaneId) : App → App := send (UnsubscribePane pane).
Definition open_route (m : Moment) (st : FederationState) (selected : PaneId) (a : App) (pi : PaneId * Rect) : App :=
  let '(pane, inner) := pi in
  if bool_decide (is_Some (routes a !! pane))
     || match route_retry_after a !! pane with Some retry => (now m <? retry)%N | None => false end then a
  else
    match targets st !! target_session pane with
    | None => a
    | Some runtime =>
        send (SubscribePane pane (desired_access pane selected) (area_width inner) (area_height inner) Frames) a
        <| routes ::= <[pane := fresh_route selected pane runtime inner]> |>
    end.
(** [frame] is the terminal's area. *)
Definition ensure_routes `{Ratatui} (m : Moment) (st : FederationState) (frame : Rect) (a : App) : App :=
  match client a with
  | None => a
  | Some _ =>
      match selected_pane a with
      | None => foldl (λ a pane, unsubscribe pane a) a (keys (routes a)) <| routes := ∅ |>
      | Some selected =>
          let desired := desired_areas st selected frame in
          let kept := filter (λ pr, route_wanted st desired selected pr.1 pr.2 = true) (routes a) in
          let released := filter (λ pane, kept !! pane = None) (keys (routes a)) in
          let a := foldl (λ a pane, unsubscribe pane a) (a <| routes := kept |>) released in
          foldl (open_route m st selected) a (entries desired)
      end
  end.

(** ** Typing, pasting and scrolling *)

Definition READ_ONLY : ustr := u "read-only: another Herdr client owns control; retrying automatically".
Definition drop_stale_route (pane : PaneId) (a : App) : App := say (u "control route became stale") (a <| routes ::= delete pane |>).
Definition controls (a : App) (pane : PaneId) : bool :=
  match routes a !! pane with Some r => bool_decide (rt_access r = Control) | None => false end.

Definition forward_pane_bytes (st : FederationState) (b : bytes) (a : App) : App :=
  let a := no_selection a in
  match selected_pane a with
  | None => say (u "no terminal pane is selected") a
  | Some selected =>
      match routes a !! selected with
      | None => say (u "selected pane has no control route") a
      | Some route =>
          match targets st !! target_session (rt_pane route) with
          | None => a <| routes ::= delete selected |>
          | Some runtime =>
              if negb (accepts_generation runtime (rt_generation route)) then drop_stale_route selected a
              else if controls a selected && bool_decide (is_Some (client a)) then send (PaneInput selected b) a
              else say READ_ONLY a
          end
      end
  end.

(** The route of a pane whose target still accepts it; a stale one is dropped. *)
Inductive Routed := NotRouted (a : App) | RoutedBy (route : ActiveRoute).
Definition live_route (st : FederationState) (pane : PaneId) (a : App) : Routed :=
  match routes a !! pane, targets st !! target_session pane with
  | Some route, Some runtime =>
      if accepts_generation runtime (rt_generation route) then RoutedBy route else NotRouted (drop_stale_route pane a)
  | _, _ => NotRouted a
  end.
Definition MOUSE_SCROLL_LINES : N := 3.
Definition send_terminal_scroll (modifiers : MouseInput → N) (st : FederationState) (pane : PaneId) (mouse : MouseInput) (a : App) : App :=
  match scroll_direction mouse with
  | None => a
  | Some direction =>
      match live_route st pane a with
      | NotRouted a => a
      | RoutedBy route =>
          if bool_decide (is_Some (client a)) && bool_decide (rt_access route = Control)
          then send (PaneScroll pane direction MOUSE_SCROLL_LINES (mi_column mouse - 1) (mi_row mouse - 1) (modifiers mouse)) a
          else say READ_ONLY a
      end
  end.
Definition send_mouse_inputs (st : FederationState) (pane : PaneId) (mice : list MouseInput) (a : App) : App :=
  match live_route st pane a with
  | NotRouted a => a
  | RoutedBy route =>
      let screen := parser_screen (rt_parser route) in
      let b := mjoin (omap (λ mouse, if mouse_event_allowed (mouse_protocol_mode screen) mouse
                                     then encode_mouse_event mouse (mouse_protocol_encoding screen) else None) mice) in
      if bool_decide (b = []) then a
      else if bool_decide (is_Some (client a)) && bool_decide (rt_access route = Control) then send (PaneInput pane b) a
      else say READ_ONLY a
  end.

(** [atomic_paste_available]. *)
Definition atomic_paste_available (resolved : gmap TargetSession Target) (key : TargetSession) : bool :=
  match resolved !! key with Some t => bool_decide (is_Some (tgt_socket t)) | None => false end.
Definition CLIPBOARD_FEEDBACK_DURATION : N := 3000.
Definition show_feedback (m : Moment) (text : ustr) (a : App) : App :=
  a <| clipboard_feedback := Some {| cf_text := text; cf_expires_at := now m + CLIPBOARD_FEEDBACK_DURATION |} |>.
(** A request that is not an upload's: sent, and remembered when there is a client. *)
Definition request (f : N → ClientMessage) (remember : N → App → App) (a : App) : App :=
  match client a with
  | None => a
  | Some c => let '(c, number) := client_request f c in remember number (a <| client := Some c |>)
  end.
(** The pane that typed text may go to now. *)
Definition paste_route (st : FederationState) (a : App) : (PaneId * ActiveRoute) + App :=
  match selected_pane a with
  | None => inr (say (u "no terminal pane is selected") a)
  | Some selected =>
      match routes a !! selected with
      | None => inr (say (u "selected pane has no control route") a)
      | Some route =>
          if negb (bool_decide (rt_access route = Control))
          then inr (say (u "read-only: another Herdr client owns control; cannot paste") a)
          else
            match targets st !! target_session selected with
            | None => inr (say (u "selected target is unavailable") a)
            | Some runtime =>
                if accepts_generation runtime (rt_generation route) then inl (selected, route)
                else inr (drop_stale_route selected a)
            end
      end
  end.
Definition paste_text_into_selected (m : Moment) (st : FederationState) (text feedback : ustr) (a : App) : App :=
  if bool_decide (text = []) then a
  else if MAX_CLIPBOARD_BYTES <? length (utf8 text) then say (u "paste exceeded the 1 MiB limit; paste not sent") a
  else if has_window BRACKETED_PASTE_END (utf8 text) then say (u "paste contains a bracketed-paste terminator; paste not sent") a
  else
    match paste_route st a with
    | inr a => a
    | inl (selected, route) =>
        if atomic_paste_available (resolved_targets a) (target_session selected) then
          match client a with
          | None => say (u "paste routing is unavailable; paste not sent") a
          | Some _ =>
              say (u "sending one atomic paste" ++ [8230%N])
                (request (λ number, PastePaneText number selected text)
                   (λ number a, a <| pending_operations ::= <[number := {|
                        po_description := u "pasted terminal text"; po_follow_server_focus := false;
                        po_follow_session := target_session selected; po_clipboard_feedback := Some feedback |}]> |>) a)
          end
        else
          let bracketed := bracketed_paste (parser_screen (rt_parser route)) in
          if negb bracketed && existsb (λ c, (c =? 13) || (c =? 10))%N (utf8 text) then
            say (u "atomic multiline paste requires session discovery or a configured Herdr API socket; paste not sent") a
          else
            match terminal_paste_payload (utf8 text) bracketed with
            | Err _ => a
            | Ok payload =>
                match client a with
                | None => say (u "terminal control route closed before paste") a
                | Some _ => show_feedback m feedback (send (PaneInput selected payload) a)
                end
            end
    end.

(** The pane a file can be sent to, or why there is none. *)
Definition upload_destination (st : FederationState) (a : App) : App * result ustr PaneId :=
  match selected_pane a with
  | None => (a, Err (u "no terminal pane is selected"))
  | Some selected =>
      match targets st !! target_session selected with
      | None => (a, Err (u "selected target is unavailable"))
      | Some runtime =>
          match routes a !! selected with
          | None => (a, Err (u "selected pane has no control route"))
          | Some route =>
              if negb (bool_decide (rt_access route = Control))
              then (a, Err (u "read-only: another Herdr client owns control; cannot send"))
              else if negb (accepts_generation runtime (rt_generation route))
              then (a <| routes ::= delete selected |>, Err (u "control route became stale"))
              else (a, Ok selected)
          end
      end
  end.

(** ** Operations *)

Context `{UnicodeTables}.
Definition ellipsis : ustr := [8230%N].

Definition run_operation (operation : Operation) (description : ustr) (follow_server_focus : bool) (a : App) : App :=
  if herdr_action_inflight a then say (u "Herdr action already in progress") a
  else
    match client a with
    | None => say (u "Herdr action routing is unavailable") a
    | Some _ =>
        let pending := {| po_description := description; po_follow_server_focus := follow_server_focus;
                          po_follow_session := destination_session operation; po_clipboard_feedback := None |} in
        request (λ number, RunOperation number operation)
          (λ number a, say (u "Herdr: " ++ description ++ ellipsis) (a <| herdr_action_inflight := true |>)
                       <| pending_operations ::= <[number := pending]> |>) a
    end.
Definition run_selected_pane_operation (build : PaneId → Operation) (description : ustr) (follow_server_focus : bool) (a : App) : App :=
  match selected_pane a with
  | None => say (u "Herdr: no pane is selected") a
  | Some pane => run_operation (build pane) description follow_server_focus a
  end.
Definition target_live (st : FederationState) (key : TargetSession) : bool :=
  match targets st !! key with Some runtime => is_live runtime | None => false end.
Definition spawn_workspace_move (st : FederationState) (workspace destination : WorkspaceId) (label destination_label : ustr) (a : App) : App :=
  let key := target_session workspace in
  if negb (bool_decide (key = target_session destination)) then say (u "Herdr: a workspace can only move inside one session") a
  else if bool_decide (workspace = destination) then say (u "Herdr: a workspace cannot move into itself") a
  else if negb (target_live st key) then say (u "Herdr: " ++ display_target_session key ++ u " is not connected") a
  else run_operation (MoveWorkspace workspace destination)
         (u "moved workspace " ++ str_debug label ++ u " into " ++ str_debug destination_label ++ u " on " ++ display_target_session key)
         true a.
Definition spawn_workspace_recreate (st : FederationState) (workspace : WorkspaceId) (destination : TargetSession) (label : ustr) (a : App) : App :=
  let source_key := target_session workspace in
  if bool_decide (source_key = destination) then say (u "Herdr: use a move inside one session") a
  else
    match find_by (λ key, negb (target_live st key)) [source_key; destination] with
    | Some key => say (u "Herdr: " ++ display_target_session key ++ u " is not connected") a
    | None =>
        run_operation (RecreateWorkspace workspace destination (non_empty label))
          (u "recreated workspace " ++ str_debug label ++ u " from " ++ display_target_session source_key ++ u " on "
           ++ display_target_session destination ++ u " (new shells)") false a
    end.
Definition request_workspace_close (st : FederationState) (a : App) : App :=
  if herdr_action_inflight a then say (u "Herdr action already in progress") a
  else
    match selected_snapshot_and_pane st (selected_pane a) with
    | None => say (u "Herdr: no workspace is selected") a
    | Some (snapshot, pane) =>
        match pane_workspace pane with
        | None => say (u "Herdr: selected pane has no workspace") a
        | Some workspace_id =>
            match workspaces snapshot !! workspace_id with
            | None => say (u "Herdr: selected workspace is unavailable") a
            | Some workspace =>
                a <| close_confirmation := Some (ActCloseWorkspace (ws_id workspace)
                        (display_label (resource (ws_id workspace)) (ws_label workspace))) |> <| message := None |>
            end
        end
    end.

(** ** Plugin catalogs *)

Definition PLUGIN_CATALOG_REFRESH_INTERVAL : N := 60000.
Definition catalog_current (m : Moment) (generation : N) (catalog : option PluginCatalog) : bool :=
  match catalog with
  | Some c => (pc_generation c =? generation)%N && (now m - pc_loaded_at c <? PLUGIN_CATALOG_REFRESH_INTERVAL)%N
  | None => false
  end.
Definition catalog_pending (key : TargetSession) (p : PendingPluginCatalog → bool) (a : App) : bool :=
  existsb (λ pending, bool_decide (pp_target pending = key) && p pending) (values (pending_plugin_catalogs a)).
Definition ensure_plugin_catalog (m : Moment) (st : FederationState) (key : TargetSession) (a : App) : App :=
  if negb (plugin_target_available st key) then a
  else
    match targets st !! key with
    | None => a
    | Some runtime =>
        let generation := connection_generation runtime in
        if catalog_current m generation (plugin_catalogs a !! key)
           || catalog_pending key (λ pending, pp_generation pending =? generation)%N a then a
        else request (λ number, ListPluginActions number key)
               (λ number a, a <| pending_plugin_catalogs ::=
                                 <[number := {| pp_target := key; pp_generation := generation |}]> |>) a
    end.
Definition ensure_plugin_catalogs (m : Moment) (st : FederationState) (a : App) : App :=
  let a := a <| plugin_catalogs ::= filter (λ kc, is_Some (targets st !! kc.1)) |> in
  foldl (λ a key, ensure_plugin_catalog m st key a) a (keys (targets st)).
Definition open_context_menu (m : Moment) (st : FederationState) (target : ContextTarget) (anchor : N * N) (a : App) : App :=
  let a := ensure_plugin_catalog m st (context_session target) (no_selection a) in
  match context_menu_for_target st target anchor (plugin_catalogs a) (agent_marks a) with
  | Some menu => a <| context_menu := Some menu |> <| message := None |>
  | None => say (u "that resource is not currently actionable") a
  end.
End app.
