(* ===== verification/TuiAppFacts.v ===== *)
(** What the frontend's selection and subscriptions guarantee. *)

From S2P Require Import Prelude Text Model State Attention Screen Protocol HerdrSupport TuiInput TuiLayout TuiSelection TuiActions TuiTargets TuiApp.

(** ** What a step sends

    [Sends P a a']: [a'] has sent what [a] had and then only messages of which [P] holds. *)

Section sends.
Context `{VtModes}.
Implicit Types (a : App) (P : ClientMessage → Prop).

Definition sent a : list ClientMessage := match client a with Some c => cc_sent c | None => [] end.
Lemma client_send_some m a : is_Some (client (send m a)) ↔ is_Some (client a).
Proof. unfold send. simpl. by rewrite fmap_is_Some. Qed.
Lemma sent_send m a : is_Some (client a) → sent (send m a) = sent a ++ [m].
Proof. intros [c Hc]. unfold sent, send. simpl. by rewrite Hc. Qed.

Definition Sends P a a' : Prop :=
  (is_Some (client a') ↔ is_Some (client a)) ∧ ∃ new, sent a' = sent a ++ new ∧ Forall P new.

Lemma sends_same P a a' : client a' = client a → Sends P a a'.
Proof. intros E. split; [by rewrite E|]. exists []. unfold sent. rewrite E, app_nil_r. auto. Qed.
Lemma sends_trans P a b c : Sends P a b → Sends P b c → Sends P a c.
Proof.
  intros [C1 (n1 & E1 & F1)] [C2 (n2 & E2 & F2)]. split; [by rewrite C2|].
  exists (n1 ++ n2). rewrite E2, E1, assoc by apply _. auto using Forall_app_2.
Qed.
(** What does not touch the client may be put around a step. *)
Lemma sends_around P a b (f : App → App) : (∀ x, client (f x) = client x) → Sends P a b → Sends P a (f b).
Proof. intros E Hs. eapply sends_trans; [exact Hs|by apply sends_same]. Qed.
Lemma sends_from P a b a' : client b = client a → Sends P b a' → Sends P a a'.
Proof. intros E Hs. eapply sends_trans; [|exact Hs]. by apply sends_same. Qed.
Lemma sends_send P a b m : P m → Sends P a b → Sends P a (send m b).
Proof.
  intros Hm Hs. eapply sends_trans; [exact Hs|]. split; [apply client_send_some|].
  destruct (client b) as [c|] eqn:Hc.
  - exists [m]. split; [by rewrite sent_send by eauto|by constructor].
  - exists []. unfold sent, send. simpl. rewrite Hc. simpl. auto.
Qed.
Lemma sends_foldl {A} P a b (l : list A) (f : App → A → App) :
  (∀ b x, Sends P b (f b x)) → Sends P a b → Sends P a (foldl f b l).
Proof. intros Hf. revert b. induction l as [|x l IH]; intros b Hs; [done|]. simpl. eapply IH, sends_trans; [exact Hs|apply Hf]. Qed.
(** A request: its message under whatever number, and what is remembered of it. *)
Lemma sends_request P a b (f : N → ClientMessage) remember :
  (∀ number, P (f number)) → (∀ number c, client (remember number c) = client c) → Sends P a b → Sends P a (request f remember b).
Proof.
  intros Hf Hr Hs. unfold request. destruct (client b) as [c|] eqn:Hc; [|done]. cbn.
  eapply sends_trans; [exact Hs|]. split; [rewrite Hr; simpl; rewrite Hc; split; eauto|].
  exists [f (cc_next_request c)]. unfold sent. rewrite Hr. simpl. rewrite Hc. split; [done|by constructor].
Qed.
End sends.

(** Peel what a step does to other fields, and its messages, off the result. *)
Ltac sends_step :=
  match goal with
  | H : ?T |- ?G => constr_eq T G; exact H
  | |- Sends _ ?a ?b => constr_eq a b; by apply sends_same
  | |- Sends _ _ (say ?t ?b) => apply (sends_around _ _ b (say t)); [reflexivity|]
  | |- Sends _ _ (set_field ?field ?g ?b) => apply (sends_around _ _ b (set_field field g)); [reflexivity|]
  | |- Sends _ _ (send _ _) => apply sends_send; [auto|]
  | |- Sends _ _ (request _ _ _) => apply sends_request; [by auto|reflexivity|]
  | |- Sends _ _ (no_selection ?b) => apply (sends_around _ _ b no_selection); [reflexivity|]
  | |- Sends _ _ (match ?x with _ => _ end) => destruct x eqn:?
  | |- Sends _ _ (let '(_, _) := ?x in _) => destruct x eqn:?
  end.
Ltac sends := repeat sends_step.

Section app_facts.
Context `{VtModes}.
Implicit Types (a : App) (st : FederationState) (pane : PaneId).

(** A chain of unsubscriptions changes only what was sent. *)
Lemma unsubscribe_all_client l a :
  foldl (λ a pane, unsubscribe pane a) a l = a <| client ::= fmap (λ c, foldl (λ c pane, client_send (UnsubscribePane pane) c) c l) |>.
Proof.
  revert a. induction l as [|pane l IH]; intros a; simpl.
  { destruct a as [???????? [c|]]; reflexivity. }
  rewrite IH. unfold unsubscribe, send. simpl. destruct (client a); reflexivity.
Qed.

(** ** Subscriptions *)

Section settled.
Context `{Ratatui} (m : Moment) (st : FederationState) (selected : PaneId).

(** Nothing is left to do for a pane. *)
Definition settled_pane a pane : Prop :=
  is_Some (routes a !! pane)
  ∨ (∃ retry, route_retry_after a !! pane = Some retry ∧ (now m < retry)%N)
  ∨ targets st !! target_session pane = None.

Lemma open_route_settled a pi : settled_pane a pi.1 → open_route m st selected a pi = a.
Proof.
  destruct pi as [pane inner]. simpl. unfold open_route. intros Hs.
  destruct (bool_decide _ || _) eqn:E; [done|]. apply orb_false_iff in E as [E1%bool_decide_eq_false E2].
  destruct Hs as [?|[(retry & Hr & Hlt)| ->]]; [done| |done].
  rewrite Hr in E2. apply N.ltb_ge in E2. lia.
Qed.
Lemma open_route_keeps a pi pane :
  settled_pane a pane → settled_pane (open_route m st selected a pi) pane.
Proof.
  destruct pi as [opened inner]. unfold open_route. intros Hs.
  destruct (bool_decide _ || _); [done|]. destruct (targets st !! _); [|done].
  destruct Hs as [?|Hs]; [left|right; exact Hs]. simpl.
  destruct (decide (opened = pane)) as [->|]; [rewrite lookup_insert_eq; eauto|by rewrite lookup_insert_ne].
Qed.
Lemma open_route_settles a pi : settled_pane (open_route m st selected a pi) pi.1.
Proof.
  destruct pi as [pane inner]. unfold open_route. simpl. destruct (bool_decide _ || _) eqn:E.
  - apply orb_true_iff in E as [E%bool_decide_eq_true|E]; [by left|].
    right; left. case_match; [|done]. apply N.ltb_lt in E. eauto.
  - destruct (targets st !! _) eqn:Ht; [|by right; right]. left. simpl. rewrite lookup_insert_eq. eauto.
Qed.
Lemma open_routes_settle l a pane inner :
  (pane, inner) ∈ l → settled_pane (foldl (open_route m st selected) a l) pane.
Proof.
  induction l as [|pi l IH] using rev_ind; [by intros ?%elem_of_nil|].
  rewrite foldl_snoc, elem_of_app, list_elem_of_singleton. intros [Hin| <-]; [by apply open_route_keeps, IH|].
  apply (open_route_settles _ (pane, inner)).
Qed.
Lemma open_routes_fixed l a :
  (∀ pi, pi ∈ l → settled_pane a pi.1) → foldl (open_route m st selected) a l = a.
Proof.
  induction l as [|pi l IH]; intros Hs; [done|]. simpl. rewrite open_route_settled by (apply Hs; set_solver).
  apply IH. set_solver.
Qed.

(** The routes an opening leaves: those there were, and fresh ones of the panes opened. *)
Definition opened_from (l : list (PaneId * Rect)) a pane route : Prop :=
  routes a !! pane = Some route
  ∨ ∃ inner runtime, (pane, inner) ∈ l ∧ targets st !! target_session pane = Some runtime ∧ route = fresh_route selected pane runtime inner.
Lemma open_routes_from l a pane route :
  routes (foldl (open_route m st selected) a l) !! pane = Some route → opened_from l a pane route.
Proof.
  induction l as [|[opened inner] l IH] using rev_ind; [by left|]. rewrite foldl_snoc.
  set (b := foldl _ a l) in *. intros Hr.
  assert (routes b !! pane = Some route → opened_from (l ++ [(opened, inner)]) a pane route) as Hold.
  { intros Hb. destruct (IH Hb) as [?|(i & rt & ? & ? & ?)]; [by left|]. right. exists i, rt. set_solver. }
  unfold open_route in Hr. destruct (bool_decide _ || _); [auto|]. destruct (targets st !! _) eqn:Ht; [|auto]. simpl in Hr.
  destruct (decide (opened = pane)) as [->|]; [|rewrite lookup_insert_ne in Hr by done; auto].
  rewrite lookup_insert_eq in Hr. injection Hr as <-. right. eexists _, _. split_and!; [|done|done]. set_solver.
Qed.
Lemma open_routes_rest l a :
  let a' := foldl (open_route m st selected) a l in
  route_retry_after a' = route_retry_after a ∧ selected_pane a' = selected_pane a ∧ (is_Some (client a) → is_Some (client a')).
Proof.
  revert a. induction l as [|[pane inner] l IH]; intros a; [done|]. cbv zeta. cbn [foldl].
  destruct (IH (open_route m st selected a (pane, inner))) as (-> & -> & Hc).
  revert Hc. unfold open_route. destruct (bool_decide _ || _); [done|]. destruct (targets st !! _); [|done].
  intros Hc. split_and!; [done..|]. intros Ha. apply Hc. simpl. by rewrite fmap_is_Some.
Qed.
(** A route as a drawn pane wants it: control for the selected pane and no other, at the
    target's generation and the size drawn. *)
Definition wants (desired : gmap PaneId Rect) pane route : Prop :=
  ∃ inner runtime, desired !! pane = Some inner ∧ targets st !! target_session pane = Some runtime
    ∧ rt_requested route = (if decide (pane = selected) then Control else Observe)
    ∧ rt_generation route = connection_generation runtime
    ∧ rt_rows route = area_height inner ∧ rt_columns route = area_width inner.
Lemma route_wanted_spec desired pane route : route_wanted st desired selected pane route = true ↔ wants desired pane route.
Proof.
  unfold route_wanted, desired_access, wants.
  assert ((if bool_decide (pane = selected) then Control else Observe) = (if decide (pane = selected) then Control else Observe)) as ->
    by (case_bool_decide; destruct (decide _); congruence).
  destruct (desired !! pane) as [inner|]; [|split; [done|intros (? & ? & ? & _); congruence]].
  destruct (targets st !! target_session pane) as [rt|]; [|split; [done|intros (? & ? & _ & ? & _); congruence]].
  rewrite !andb_true_iff, bool_decide_eq_true, !N.eqb_eq. split.
  - intros [[[??]?]?]. by exists inner, rt.
  - by intros (? & ? & [= <-] & [= <-] & ? & ? & ? & ?).
Qed.
(** What is asked of the daemon for a pane drawn in an area. *)
Definition subscription_of (pi : PaneId * Rect) : ClientMessage :=
  SubscribePane pi.1 (if decide (pi.1 = selected) then Control else Observe) (area_width pi.2) (area_height pi.2) Frames.
Lemma open_route_cases a pi :
  (settled_pane a pi.1 ∧ open_route m st selected a pi = a)
  ∨ (¬ settled_pane a pi.1 ∧ ∃ runtime, targets st !! target_session pi.1 = Some runtime
     ∧ open_route m st selected a pi
       = send (subscription_of pi) a <| routes ::= <[pi.1 := fresh_route selected pi.1 runtime pi.2]> |>).
Proof.
  destruct pi as [pane inner]. cbn [fst snd].
  destruct (bool_decide (is_Some (routes a !! pane))
     || match route_retry_after a !! pane with Some retry => (now m <? retry)%N | None => false end) eqn:E.
  - left. unfold open_route. rewrite E. split; [|done].
    apply orb_true_iff in E as [E%bool_decide_eq_true|E]; [by left|]. right; left. case_match; [|done]. apply N.ltb_lt in E. eauto.
  - destruct (targets st !! target_session pane) as [runtime|] eqn:Ht.
    + right. apply orb_false_iff in E as [E1%bool_decide_eq_false E2]. split.
      * intros [?|[(retry & Hr & Hlt)|?]]; [done| |congruence]. rewrite Hr in E2. apply N.ltb_ge in E2. lia.
      * exists runtime. split; [done|]. unfold open_route. rewrite bool_decide_eq_false_2, E2, Ht by done. cbn [orb].
        unfold subscription_of, desired_access. cbn [fst snd]. case_bool_decide; destruct (decide _); done.
    + left. unfold open_route. rewrite E, Ht. split; [by right; right|done].
Qed.
Lemma settled_other a what pane opened route :
  pane ≠ opened → settled_pane (send what a <| routes ::= <[opened := route]> |>) pane ↔ settled_pane a pane.
Proof. intros Hne. unfold settled_pane. simpl. by rewrite lookup_insert_ne. Qed.
(** Just what opening a list of drawn panes asks, and the routes it leaves. *)
Lemma open_routes_exact l a :
  is_Some (client a) → NoDup l.*1 →
  let a' := foldl (open_route m st selected) a l in
  ∃ opened, NoDup opened.*1 ∧ sent a' = sent a ++ (subscription_of <$> opened)
    ∧ (∀ pi, pi ∈ opened ↔ pi ∈ l ∧ ¬ settled_pane a pi.1)
    ∧ ∀ pane route, routes a' !! pane = Some route ↔ routes a !! pane = Some route
        ∨ ∃ inner runtime, (pane, inner) ∈ opened ∧ targets st !! target_session pane = Some runtime
            ∧ route = fresh_route selected pane runtime inner.
Proof.
  revert a. induction l as [|[pane inner] l IH]; intros a Hc; cbv zeta.
  { intros _. exists []. split_and!; [constructor|by rewrite app_nil_r|set_solver|set_solver]. }
  intros [Hnotin Hnd]%NoDup_cons. cbn [foldl]. cbn [fst] in Hnotin.
  assert (∀ inner', (pane, inner') ∉ l) as Hother.
  { intros inner' Hin. apply Hnotin, list_elem_of_fmap. by exists (pane, inner'). }
  destruct (open_route_cases a (pane, inner)) as [[Hs ->]|(Hs & runtime & Ht & ->)]; cbn [fst snd] in *.
  - destruct (IH a Hc Hnd) as (opened & Ho & Hsent & Hin & Hroutes). exists opened. split_and!; [done|done| |done].
    intros pi. rewrite Hin, elem_of_cons. split; [tauto|]. intros [[-> |?] ?]; done.
  - set (b := send _ a <| routes ::= _ |>).
    destruct (IH b) as (opened & Ho & Hsent & Hin & Hroutes); [by apply client_send_some|done|].
    assert (∀ pi, pi ∈ l → settled_pane b pi.1 ↔ settled_pane a pi.1) as Hsame.
    { intros pi Hpi. apply settled_other. intros <-. by apply (Hother pi.2); destruct pi. }
    assert (∀ inner', (pane, inner') ∉ opened) as Hnot by (intros inner' [? _]%Hin; by eapply Hother).
    exists ((pane, inner) :: opened). split_and!.
    + constructor; [|done]. intros (pi & Heq & Hpi)%list_elem_of_fmap. destruct pi as [pane' inner']. cbn in Heq. subst pane'. by eapply Hnot.
    + rewrite Hsent. assert (sent b = sent a ++ [subscription_of (pane, inner)]) as -> by by apply sent_send.
      by rewrite <-app_assoc.
    + intros pi. rewrite !elem_of_cons, Hin. split; [|by intros [[->|Hpi] ?]; [left|right; rewrite Hsame]].
      intros [->|[Hpi Hns]]; [by auto|]. rewrite Hsame in Hns by done. auto.
    + intros pane' route. rewrite Hroutes. unfold b. simpl. destruct (decide (pane = pane')) as [<-|Hne].
      * rewrite lookup_insert_eq. assert (routes a !! pane = None) as -> by (apply eq_None_not_Some; intros ?; apply Hs; by left).
        split; [intros [[= <-]|(? & ? & Hin' & _)]; [right; exists inner, runtime; split_and!; [by left|done|done]|by apply Hnot in Hin']|].
        intros [?|(inner' & runtime' & [[= ->]|Hin']%elem_of_cons & Ht' & ->)]; [done| |by apply Hnot in Hin']. left. congruence.
      * rewrite lookup_insert_ne by done. split; (intros [?|(inner' & runtime' & Hin' & ? & ?)]; [by left|right; exists inner', runtime']).
        -- split; [by right|done].
        -- apply elem_of_cons in Hin' as [[= <- _]|?]; [done|]. done.
Qed.
Lemma fresh_route_wanted desired pane inner runtime :
  desired !! pane = Some inner → targets st !! target_session pane = Some runtime →
  route_wanted st desired selected pane (fresh_route selected pane runtime inner) = true.
Proof.
  intros Hd Ht. unfold route_wanted, fresh_route. rewrite Hd, Ht. simpl.
  by rewrite bool_decide_eq_true_2, !N.eqb_refl.
Qed.
End settled.

Lemma update_routes a : a <| routes := routes a |> = a.
Proof. by destruct a. Qed.
Lemma list_filter_none {A} (P : A → Prop) `{∀ x, Decision (P x)} (l : list A) : Forall (λ x, ¬ P x) l → filter P l = [].
Proof. induction 1 as [|x l Hx _ IH]; [done|]. by rewrite filter_cons_False. Qed.

(** The subscriptions settle: after one pass every route left is one a pane now drawn wants
    (the selected pane for control, the others to observe, at the target's generation and
    the size drawn), and every pane drawn has its route unless its target is gone or it was
    closed a moment ago. *)
Lemma ensure_routes_wanted `{Ratatui} m st frame a selected :
  is_Some (client a) → selected_pane a = Some selected →
  let desired := desired_areas st selected frame in
  let a' := ensure_routes m st frame a in
  (∀ pane route, routes a' !! pane = Some route → route_wanted st desired selected pane route = true)
  ∧ (∀ pane inner, desired !! pane = Some inner → settled_pane m st a' pane)
  ∧ selected_pane a' = Some selected ∧ is_Some (client a').
Proof.
  intros [c Hc] Hs. simpl. unfold ensure_routes. rewrite Hc, Hs. cbv zeta.
  rewrite unsubscribe_all_client. set (kept := filter _ (routes a)). set (b := _ <| client ::= _ |>).
  destruct (open_routes_rest m st selected (entries (desired_areas st selected frame)) b) as (_ & Hsel & Hcl).
  split_and!.
  - intros pane route [Hk|(inner & rt & Hin%elem_of_entries & Ht & ->)]%open_routes_from; [|by apply fresh_route_wanted].
    simpl in Hk. by apply map_lookup_filter_Some in Hk as [_ ?].
  - intros pane inner Hd%elem_of_entries. by eapply open_routes_settle.
  - by rewrite Hsel.
  - apply Hcl. simpl. rewrite Hc. eauto.
Qed.

(** What one pass sends: the routes that nothing drawn wants are given up, and the drawn
    panes without a route are subscribed to. *)
Lemma ensure_routes_sends `{Ratatui} m st frame a selected :
  is_Some (client a) → selected_pane a = Some selected →
  let desired := desired_areas st selected frame in
  let a' := ensure_routes m st frame a in
  ∃ gone opened, NoDup gone ∧ NoDup opened.*1
    ∧ sent a' = sent a ++ (UnsubscribePane <$> gone) ++ (subscription_of selected <$> opened)
    ∧ (∀ pane, pane ∈ gone ↔ ∃ route, routes a !! pane = Some route ∧ ¬ wants st selected desired pane route)
    ∧ (∀ pane inner, (pane, inner) ∈ opened ↔ desired !! pane = Some inner
         ∧ is_Some (targets st !! target_session pane)
         ∧ ¬ (∃ retry, route_retry_after a !! pane = Some retry ∧ (now m < retry)%N)
         ∧ ¬ (∃ route, routes a !! pane = Some route ∧ wants st selected desired pane route))
    ∧ ∀ pane route, routes a' !! pane = Some route ↔
        (routes a !! pane = Some route ∧ wants st selected desired pane route)
        ∨ ∃ inner runtime, (pane, inner) ∈ opened ∧ targets st !! target_session pane = Some runtime
            ∧ route = fresh_route selected pane runtime inner.
Proof.
  intros [c Hc] Hs. cbv zeta. unfold ensure_routes. rewrite Hc, Hs. cbv zeta.
  rewrite unsubscribe_all_client. set (desired := desired_areas st selected frame). set (kept := filter _ (routes a)).
  set (gone := filter _ (keys (routes a))). set (b := _ <| client ::= _ |>).
  assert (∀ pane route, kept !! pane = Some route ↔ routes a !! pane = Some route ∧ wants st selected desired pane route) as Hkept.
  { intros pane route. unfold kept. rewrite map_lookup_filter_Some. cbn [fst snd]. by rewrite route_wanted_spec. }
  assert (sent b = sent a ++ (UnsubscribePane <$> gone)) as Hb.
  { unfold b, sent. simpl. rewrite Hc. cbn. generalize gone as l. intros l. clear. revert c.
    induction l as [|pane l IH]; intros c; cbn [foldl fmap list_fmap]; [by rewrite app_nil_r|]. rewrite IH. cbn. by rewrite <-app_assoc. }
  destruct (open_routes_exact m st selected (entries desired) b) as (opened & Ho & Hsent & Hin & Hroutes).
  { unfold b. simpl. rewrite Hc. by eexists. } { rewrite NoDup_entries_keys. apply NoDup_keys. }
  exists gone, opened. split_and!; [apply NoDup_filter, NoDup_keys|done|by rewrite Hsent, Hb, <-app_assoc| | |].
  - intros pane. unfold gone. rewrite list_elem_of_filter, elem_of_keys. split.
    + intros [Hnone [route Hr]]. exists route. split; [done|]. intros Hw. by rewrite (proj2 (Hkept pane route)) in Hnone.
    + intros (route & Hr & Hw). split; [|by eexists]. apply eq_None_not_Some. intros [route' [Hr' Hw']%Hkept]. naive_solver.
  - intros pane inner. rewrite Hin, elem_of_entries. unfold settled_pane. cbn [fst].
    assert (is_Some (routes b !! pane) ↔ ∃ route, routes a !! pane = Some route ∧ wants st selected desired pane route) as Heq
      by (change (routes b) with kept; unfold is_Some; by setoid_rewrite Hkept).
    change (route_retry_after b) with (route_retry_after a).
    pose proof (not_eq_None_Some (targets st !! target_session pane)). tauto.
  - intros pane route. rewrite Hroutes. change (routes b) with kept. by rewrite Hkept.
Qed.

(** C14. Subscriptions settle. One pass over what is drawn sends exactly this: it gives up each
    route that nothing drawn wants, and subscribes to each drawn pane that is left without
    one, at the size drawn, with control for the selected pane and to observe for every other,
    unless its target is gone or its route closed a moment ago. Afterwards the routes held
    are those that were wanted, unchanged, and one for each subscription: every route is one a
    drawn pane wants (control asked for the selected pane only, at the target's generation
    and the size drawn) and every drawn pane has its route, but for those exceptions; and a
    second pass changes nothing and sends nothing: no loop of subscriptions. *)
Theorem subscriptions_settle `{Ratatui} m st frame a selected :
  is_Some (client a) → selected_pane a = Some selected →
  let desired := desired_areas st selected frame in
  let a' := ensure_routes m st frame a in
  (∃ gone opened, NoDup gone ∧ NoDup opened.*1
    ∧ sent a' = sent a ++ (UnsubscribePane <$> gone) ++ (subscription_of selected <$> opened)
    ∧ (∀ pane, pane ∈ gone ↔ ∃ route, routes a !! pane = Some route ∧ ¬ wants st selected desired pane route)
    ∧ (∀ pane inner, (pane, inner) ∈ opened ↔ desired !! pane = Some inner
         ∧ is_Some (targets st !! target_session pane)
         ∧ ¬ (∃ retry, route_retry_after a !! pane = Some retry ∧ (now m < retry)%N)
         ∧ ¬ (∃ route, routes a !! pane = Some route ∧ wants st selected desired pane route))
    ∧ ∀ pane route, routes a' !! pane = Some route ↔
        (routes a !! pane = Some route ∧ wants st selected desired pane route)
        ∨ ∃ inner runtime, (pane, inner) ∈ opened ∧ targets st !! target_session pane = Some runtime
            ∧ route = fresh_route selected pane runtime inner)
  ∧ (∀ pane route, routes a' !! pane = Some route → wants st selected desired pane route)
  ∧ (∀ pane inner, desired !! pane = Some inner → settled_pane m st a' pane)
  ∧ ensure_routes m st frame a' = a'.
Proof.
  intros Hc Hs. destruct (ensure_routes_wanted m st frame a selected Hc Hs) as (Hwanted & Hsettled & Hs' & [c Hc']).
  pose proof (ensure_routes_sends m st frame a selected Hc Hs) as Hsends.
  set (a' := ensure_routes m st frame a) in *. cbv zeta.
  split_and!; [exact Hsends|intros pane route Hr; by eapply route_wanted_spec, Hwanted|exact Hsettled|].
  unfold ensure_routes. rewrite Hc', Hs'. cbv zeta.
  rewrite (map_filter_id _ (routes a')) by (intros pane route ?; by apply Hwanted).
  rewrite (list_filter_none _ (keys (routes a'))).
  - cbn [foldl]. rewrite update_routes. apply open_routes_fixed. intros [pane inner] Hin%elem_of_entries. by eapply Hsettled.
  - apply Forall_forall. intros pane Hk%elem_of_keys. rewrite eq_None_not_Some. tauto.
Qed.
End app_facts.
