(* ===== verification/TuiEvents.v ===== *)
(** What the daemon's messages do to the frontend: [handle_daemon_event] of
    [src/src/tui.rs], the uploads and the batches they settle, and the files it sends.

    The files of this machine are by path. *)

From S2P Require Import Prelude Text Net Model State Attention AgentMarks AgentCards Config Screen Operation Protocol Pairing FileSave Notifications TuiInput TuiLayout TuiSelection TuiActions TuiTargets TuiPaste TuiApp.

Section events.
Context `{VtModes} `{UnicodeTables} `{Sha256}.

(** ** Verified paths *)

Definition paste_verified_paths (m : Moment) (paths : list ustr) (feedback : ustr) (a : App) : App :=
  match selected_pane a with
  | None => say (u "no pane is selected for the uploaded path") a
  | Some selected =>
      match routes a !! selected with
      | None => say (u "terminal control route closed during media upload") a
      | Some route =>
          if negb (bool_decide (rt_access route = Control)) then say (u "read-only: the uploaded path was not pasted") a
          else
            match terminal_paste_payload (utf8 (quoted_paths paths)) (bracketed_paste (parser_screen (rt_parser route))) with
            | Err _ => say (u "the uploaded path could not be encoded for paste") a
            | Ok payload =>
                match client a with
                | None => a
                | Some _ => show_feedback m feedback (send (PaneInput selected payload) a)
                end
            end
      end
  end.

(** ** Uploads *)

(** Paths in the order of their positions, and what did not arrive. *)
Definition settled_batch (b : UploadBatch) : list ustr * option ustr :=
  let paths := values (ub_paths b) in
  (paths,
   match ub_failures b with
   | [] => None
   | failures =>
       Some (u "uploaded " ++ display_N (N.of_nat (length paths)) ++ u " of " ++ display_N (N.of_nat (ub_expected b)) ++ u "; "
             ++ display_N (N.of_nat (length failures)) ++ u " did not arrive: " ++ Net.join (u ", ") failures)
   end).
Definition settle_upload_batch (m : Moment) (batch : N) (a : App) : App :=
  match upload_batches a !! batch with
  | None => a
  | Some b =>
      if size (ub_paths b) + length (ub_failures b) <? ub_expected b then a
      else
        let a := a <| upload_batches ::= delete batch |> in
        let '(paths, report) := settled_batch b in
        let a := match paths with
                 | [] => a
                 | _ => paste_verified_paths m paths
                          (u "uploaded and verified " ++ display_N (N.of_nat (length paths)) ++ u " file(s); pasted remote paths") a
                 end in
        match report with Some report => say report a | None => a end
  end.
Definition batch_path (position : N) (path : ustr) (b : UploadBatch) : UploadBatch :=
  {| ub_expected := ub_expected b; ub_paths := <[position := path]> (ub_paths b); ub_failures := ub_failures b |}.
Definition batch_failure (failure : ustr) (b : UploadBatch) : UploadBatch :=
  {| ub_expected := ub_expected b; ub_paths := ub_paths b; ub_failures := ub_failures b ++ [failure] |}.

(** Whether the request was an upload. *)
Definition fail_upload (m : Moment) (request : N) (why : ustr) (a : App) : App * bool :=
  match pending_uploads a !! request with
  | None => (a, false)
  | Some pending =>
      let a := a <| pending_uploads ::= delete request |> in
      let failure := pu_described pending ++ u ": " ++ why in
      match pu_batch pending with
      | None => (say failure a, true)
      | Some (batch, _) => (settle_upload_batch m batch (a <| upload_batches ::= alter (batch_failure failure) batch |>), true)
      end
  end.
Definition upload_complete (m : Moment) (request : N) (path : ustr) (size_ : N) (a : App) : App :=
  match pending_uploads a !! request with
  | None => a
  | Some pending =>
      let a := a <| pending_uploads ::= delete request |> in
      match pu_batch pending with
      | Some (batch, position) => settle_upload_batch m batch (a <| upload_batches ::= alter (batch_path position path) batch |>)
      | None =>
          paste_verified_paths m [path]
            (u "uploaded and verified " ++ pu_described pending ++ u " " ++ display_N size_ ++ u " bytes; pasted remote path") a
      end
  end.

(** Sending files: the name and the length [inspect_local_file] found, or why a file
    cannot be sent. *)
Definition offer_file (selected : PaneId) (batch : N) (a : App) (file : N * (ustr * N)) : App :=
  let '(position, (name, length_)) := file in
  request (λ number, BeginUpload number selected (u "application/octet-stream") (Some name) length_)
    (λ number a, a <| pending_uploads ::= <[number := {| pu_described := name; pu_batch := Some (batch, position) |}]> |>) a.
Definition numbered {A} (l : list A) : list (N * A) := zip (N.of_nat <$> seq 0 (length l)) l.
Fixpoint inspected (files : list (ustr * result ustr (ustr * N))) : result ustr (list (ustr * N)) :=
  match files with
  | [] => Ok []
  | (path, Err error) :: _ => Err (path ++ u ": " ++ error)
  | (_, Ok found) :: files => match inspected files with Ok offered => Ok (found :: offered) | Err e => Err e end
  end.
Definition send_local_files (selected : PaneId) (files : list (ustr * result ustr (ustr * N))) (a : App) : App :=
  match inspected files with
  | Err error => say error a
  | Ok offered =>
      let batch := next_upload_batch a in
      let a := a <| next_upload_batch := u64_wrapping_add batch 1 |> in
      let total := foldr N.add 0%N offered.*2 in
      let described := match offered with
                       | [(name, _)] => name
                       | _ => display_N (N.of_nat (length offered)) ++ u " files"
                       end in
      let a := foldl (offer_file selected batch) a (numbered offered) in
      say (u "uploading " ++ described ++ u " " ++ display_N total ++ u " bytes" ++ ellipsis)
        (a <| upload_batches ::= <[batch := {| ub_expected := length offered; ub_paths := ∅; ub_failures := [] |}]> |>)
  end.
(** [inspect_local_file], from what the file system says of the path. *)
Definition inspect_local_file (name : option ustr) (metadata : option (bool * N)) (max_bytes : N) : result ustr (ustr * N) :=
  match name with
  | None => Err (u "that file has no name this can carry")
  | Some name =>
      match metadata with
      | None => Err (u "cannot be read")
      | Some (is_file, length_) =>
          if negb is_file then Err (u "is not a regular file")
          else if (max_bytes <? length_)%N
          then Err (u "is " ++ display_N length_ ++ u " bytes; the limit for a copied file is " ++ display_N max_bytes ++ u " bytes")
          else Ok (name, length_)
      end
  end.

(** ** Frames *)

Definition frame_route (sequence width height : N) (full : bool) (b : bytes) (r : ActiveRoute) : ActiveRoute :=
  let r := if full || negb (rt_rows r =? height)%N || negb (rt_columns r =? width)%N
           then r <| rt_parser := parser_new height width ROUTE_SCROLLBACK |> <| rt_rows := height |> <| rt_columns := width |>
           else r in
  r <| rt_parser ::= parser_process b |> <| rt_last_sequence := Some sequence |>.
Definition pane_frame (pane : PaneId) (sequence width height : N) (full : bool) (b : bytes) (a : App) : App :=
  match routes a !! pane with
  | None => a
  | Some route =>
      let pending_direction :=
        match selection_autoscroll a with
        | Some autoscroll =>
            if bool_decide (as_pane autoscroll = pane) && (0 <? pending_lines autoscroll) then Some (as_direction autoscroll) else None
        | None => None
        end in
      let before := option_map (λ _, capture_screen_rows (parser_screen (rt_parser route))) pending_direction in
      let route := frame_route sequence width height full b route in
      let after := capture_screen_rows (parser_screen (rt_parser route)) in
      let '(selected_text, scrolling) :=
        update_selection_after_frame pane pending_direction before after (selection a) (selection_autoscroll a) in
      a <| routes ::= <[pane := route]> |> <| selection := selected_text |> <| selection_autoscroll := scrolling |>
  end.
Definition pane_lease (pane : PaneId) (access : TerminalAccess) (a : App) : App :=
  let a := a <| routes ::= alter (λ r, r <| rt_access := access |>) pane |> in
  if bool_decide (selected_pane a = Some pane)
  then match access with Control => a <| message := None |> | Observe => say READ_ONLY a end else a.
Definition pane_closed (m : Moment) (pane : PaneId) (a : App) : App :=
  let a := a <| routes ::= delete pane |> <| route_retry_after ::= <[pane := (now m + 2000)%N]> |> in
  if bool_decide (selected_pane a = Some pane) then say (u "terminal route closed") a else a.

(** ** Results *)

Definition FOLLOW_FOCUS_TIMEOUT : N := 10000.
Definition session_panes (st : FederationState) (key : TargetSession) : gset PaneId :=
  match (t ← targets st !! key; snapshot t) with Some s => dom (panes s) | None => ∅ end.
Definition follow_operation (m : Moment) (st : FederationState) (pending : PendingOperation) (a : App) : App :=
  a <| selection_explicit := false |> <| selected_pane := None |>
    <| followed_focus := Some {| ff_session := po_follow_session pending;
                                 ff_before := session_panes st (po_follow_session pending);
                                 ff_deadline := now m + FOLLOW_FOCUS_TIMEOUT |} |>.
Definition operation_result (m : Moment) (st : FederationState) (request : N) (applied : bool) (what : ustr) (a : App) : App :=
  let pending := pending_operations a !! request in
  let a := a <| herdr_action_inflight := false |> <| pending_operations ::= delete request |> in
  if applied then
    let a := match pending ≫= po_clipboard_feedback with
             | Some feedback => show_feedback m feedback a <| message := None |>
             | None => say (u "Herdr: " ++ match pending with Some p => po_description p | None => what end) a
             end in
    match pending with
    | Some p => if po_follow_server_focus p then follow_operation m st p a else a
    | None => a
    end
  else say (u "Herdr action failed: " ++ what) a.

(** A newer catalog of the session is held, or asked for. *)
Definition catalog_stale (key : TargetSession) (generation : N) (a : App) : bool :=
  match plugin_catalogs a !! key with Some current => (generation <? pc_generation current)%N | None => false end
  || catalog_pending key (λ newer, generation <? pp_generation newer)%N a.
Definition is_plugin_action (action : ResourceAction) : bool := match action with ActInvokePluginAction _ _ => true | _ => false end.
Definition refresh_menu (catalog : PluginCatalog) (menu : ContextMenu) : ContextMenu :=
  let actions := insert_plugin_actions (filter (λ action, is_plugin_action action = false) (cm_actions menu)) catalog
                   (invocation_of (cm_target menu)) in
  {| cm_title := cm_title menu; cm_actions := actions; cm_target := cm_target menu;
     cm_selected := min (cm_selected menu) (length actions - 1); cm_anchor := cm_anchor menu; cm_pressed := cm_pressed menu |}.
Definition plugin_actions (m : Moment) (request : N) (key : TargetSession) (generation : N) (actions : list PluginAction) (a : App) : App :=
  match pending_plugin_catalogs a !! request with
  | None => a
  | Some pending =>
      let a := a <| pending_plugin_catalogs ::= delete request |> in
      if negb (bool_decide (pp_target pending = key)) || negb (pp_generation pending =? generation)%N then a
      else
        let catalog := {| pc_generation := generation; pc_actions := filter (λ action, pa_target (act_id action) = key) actions;
                          pc_loaded_at := now m |} in
        if catalog_stale key generation a then a
        else
          a <| context_menu ::= fmap (λ menu, if bool_decide (context_session (cm_target menu) = key)
                                              then refresh_menu catalog menu else menu) |>
            <| plugin_catalogs ::= <[key := catalog]> |>
  end.
Definition plugin_catalog_refused (m : Moment) (pending : PendingPluginCatalog) (why : ustr) (a : App) : App :=
  let key := pp_target pending in
  if catalog_stale key (pp_generation pending) a then a
  else
    let a := a <| plugin_catalogs ::= <[key := {| pc_generation := pp_generation pending; pc_actions := []; pc_loaded_at := now m |}]> |> in
    if bool_decide (is_Some (command_palette a))
       || match context_menu a with Some menu => bool_decide (context_session (cm_target menu) = key) | None => false end
    then say why a else a.
Definition error_message (m : Moment) (request : option N) (why : ustr) (a : App) : App :=
  match request with
  | None => say why a
  | Some request =>
      match pending_plugin_catalogs a !! request with
      | Some pending => plugin_catalog_refused m pending why (a <| pending_plugin_catalogs ::= delete request |>)
      | None =>
          let '(a, was_upload) := fail_upload m request why a in
          if was_upload then a
          else
            let was_operation := bool_decide (is_Some (pending_operations a !! request)) in
            let a := a <| pending_operations ::= delete request |> in
            say why (if was_operation then a <| herdr_action_inflight := false |> else a)
      end
  end.

(** ** Saves *)

Definition save_command (c : SaveCommand) : ClientMessage :=
  match c with
  | FileSave.PullDownload request chunks => Protocol.PullDownload request chunks
  | FileSave.CancelDownload request => Protocol.CancelDownload request
  end.
(** What a message does to the save in progress, and to the files. *)
Definition save_message (m : Moment) (what : ServerMessage) (a : App) (files : gmap ustr bytes) : App * gmap ustr bytes :=
  let saves := {| FileSave.file_save := file_save a; FileSave.file_save_request := file_save_request a; notice := NoNotice |} in
  let '(saves, commands, files) := client_message (save_directory m) (disk m) what saves files in
  let a := foldl (λ a c, send (save_command c) a) a commands in
  let a := a <| file_save := FileSave.file_save saves |> <| file_save_request := FileSave.file_save_request saves |> in
  (match notice saves with NoNotice => a | how => a <| message := Some (OfSave how) |> end, files).

(** ** The handler *)

Definition handle_daemon_event (m : Moment) (st : FederationState) (what : ServerMessage) (a : App) (files : gmap ustr bytes)
    : App * gmap ustr bytes :=
  match what with
  | PaneFrame pane sequence width height full b => (pane_frame pane sequence width height full b a, files)
  | PaneLease pane access => (pane_lease pane access a, files)
  | PaneScreen _ _ | PaneScreenDiff _ _ => (a, files)
  | PaneClosed pane => (pane_closed m pane a, files)
  | OperationResult request applied message _ => (operation_result m st request applied message a, files)
  | PluginActions request target generation actions => (plugin_actions m request target generation actions a, files)
  | UploadAccepted _ _ _ | UploadInterrupted _ _ _ => (a, files)
  | DownloadOffer _ _ _ _ | DownloadChunk _ _ | DownloadFinished _ => save_message m what a files
  | UploadComplete request path size_ => (upload_complete m request path size_ a, files)
  | PairingCode _ code expires url =>
      (say (u "pairing code " ++ code ++ u " " ++ [8212%N] ++ u " expires in " ++ display_N (expires / 60)
            ++ u " minutes; any key closes the screen") a
       <| pairing := Some {| pf_code := code; pf_url := url; pf_expires_in_seconds := expires |} |>, files)
  | PairingApprovalRequired attempt name confirmation expires =>
      (say (name ++ u " requests access" ++ middot ++ u "confirm " ++ confirmation ++ middot ++ u "y approve" ++ middot ++ u "n reject")
         (a <| pairing := None |>)
       <| pairing_approval := Some {| pv_attempt := attempt; pv_name := name; pv_confirmation := confirmation;
                                      pv_expires_in_seconds := expires |} |>, files)
  | PairingDecision attempt _ message =>
      let ours := match pairing_approval a with Some approval => bool_decide (pv_attempt approval = attempt) | None => false end in
      (say message (if ours then a <| pairing_approval := None |> else a), files)
  | ErrorMessage request message => (error_message m request message a, files)
  | AttentionMessage event =>
      (if ev_unread event then a <| attention := (apply_event event (attention a)).1 |> else a, files)
  | AttentionHistory events => (a <| attention := mirror events |>, files)
  | AgentCardsMessage projection =>
      (a <| agent_marks := collect_map ((λ card, (card_agent card, card_marks card)) <$> cards projection) |>, files)
  | Notification _ _ _ | RemoteFiles _ _ _ => (a, files)
  | ServerHello _ _ _ _ | FederationFull _ | TargetState _ _ | PluginRunState _ _ => (a, files)
  end.
End events.
