(* ===== verification/TuiEventsFacts.v ===== *)
(** What the daemon's messages can make the frontend do, and the order in which a batch of
    uploaded files is pasted. *)

From S2P Require Import Prelude Text Net Model State Attention AgentMarks AgentCards Config Screen Operation Protocol Pairing FileSave Notifications TuiInput TuiLayout TuiSelection TuiActions TuiTargets TuiPaste TuiApp TuiAppFacts TuiEvents.

Section events_facts.
Context `{VtModes} `{UnicodeTables} `{Sha256}.
Implicit Types a : App.

(** ** Batches *)

(** What pasting paths sends: one message, to the selected pane, when it has a route whose
    lease is held and its terminal takes the text; else nothing. *)
Definition pasted a (paths : list ustr) : list ClientMessage :=
  match selected_pane a with
  | Some selected =>
      match routes a !! selected with
      | Some route =>
          match terminal_paste_payload (utf8 (quoted_paths paths)) (bracketed_paste (parser_screen (rt_parser route))) with
          | Ok payload => if bool_decide (rt_access route = Control) then [PaneInput selected payload] else []
          | Err _ => []
          end
      | None => []
      end
  | None => []
  end.
(** What a paste leaves: everything but the line at the bottom, and what was sent. *)
Lemma paste_verified_sent m paths feedback a :
  is_Some (client a) →
  let a' := paste_verified_paths m paths feedback a in
  sent a' = sent a ++ pasted a paths ∧ upload_batches a' = upload_batches a ∧ pending_uploads a' = pending_uploads a
  ∧ is_Some (client a').
Proof.
  intros [cl Hc]. unfold paste_verified_paths, pasted, show_feedback.
  assert (∀ text, let a' := say text a in sent a' = sent a ++ [] ∧ upload_batches a' = upload_batches a
          ∧ pending_uploads a' = pending_uploads a ∧ is_Some (client a')) as Hsay.
  { intros text. unfold sent. simpl. rewrite Hc, app_nil_r. eauto. }
  destruct (selected_pane a) as [selected|]; [|apply Hsay]. destruct (routes a !! selected) as [route|]; [|apply Hsay].
  destruct (bool_decide (rt_access route = Control)) eqn:Hctl; cbn [negb].
  - destruct (terminal_paste_payload _ _); [|apply Hsay]. rewrite Hc. unfold sent. simpl. rewrite Hc. simpl. eauto.
  - destruct (terminal_paste_payload _ _); apply Hsay.
Qed.

(** What an upload came to. *)
Definition ok_path (outcome : result ustr (ustr * N)) : option ustr := match outcome with Ok (path, _) => Some path | Err _ => None end.
(** The daemon's message that says so. *)
Definition settles (request : N) (outcome : result ustr (ustr * N)) : ServerMessage :=
  match outcome with Ok (path, size_) => UploadComplete request path size_ | Err why => ErrorMessage (Some request) why end.
Definition hear m st (what : ServerMessage) a : App := (handle_daemon_event m st what a ∅).1.

(** The rest of a batch: requests still out, by position. *)
Record out_for a (batch : N) (left : list (N * (N * result ustr (ustr * N)))) : Prop := {
  out_nodup : NoDup left.*1;
  out_pending : ∀ request position outcome, (request, (position, outcome)) ∈ left →
    (∃ described, pending_uploads a !! request = Some {| pu_described := described; pu_batch := Some (batch, position) |})
    ∧ pending_plugin_catalogs a !! request = None;
}.
Definition arrived (outcome : result ustr (ustr * N)) (position : N) (paths : gmap N ustr) : gmap N ustr :=
  match ok_path outcome with Some path => <[position := path]> paths | None => paths end.
Definition answered (outcome : result ustr (ustr * N)) (described : ustr) (position : N) (b : UploadBatch) : UploadBatch :=
  match outcome with Ok (path, _) => batch_path position path b | Err why => batch_failure (described ++ u ": " ++ why) b end.

(** One answer settles its own part of the batch. *)
Lemma hear_answer m st batch request position outcome described a :
  pending_uploads a !! request = Some {| pu_described := described; pu_batch := Some (batch, position) |} →
  pending_plugin_catalogs a !! request = None →
  hear m st (settles request outcome) a
  = settle_upload_batch m batch (a <| pending_uploads ::= delete request |>
                                   <| upload_batches ::= alter (answered outcome described position) batch |>).
Proof.
  intros Hp Hc. unfold hear, settles. destruct outcome as [[path size_]|why]; simpl.
  - unfold upload_complete. by rewrite Hp.
  - rewrite Hc. unfold fail_upload. by rewrite Hp.
Qed.

Definition incomplete (b : UploadBatch) : bool := size (ub_paths b) + length (ub_failures b) <? ub_expected b.
Lemma settle_incomplete m batch b a :
  upload_batches a !! batch = Some b → incomplete b = true → settle_upload_batch m batch a = a.
Proof. intros Hb Hi. unfold settle_upload_batch. rewrite Hb. unfold incomplete in Hi. by rewrite Hi. Qed.
Definition pasted_once a (paths : list ustr) : list ClientMessage := match paths with [] => [] | _ => pasted a paths end.
Lemma settle_complete m batch b a :
  is_Some (client a) → upload_batches a !! batch = Some b → incomplete b = false →
  let a' := settle_upload_batch m batch a in
  sent a' = sent a ++ pasted_once a (values (ub_paths b)) ∧ upload_batches a' !! batch = None ∧ is_Some (client a').
Proof.
  intros Hc Hb Hi. unfold settle_upload_batch, settled_batch, incomplete in *. rewrite Hb, Hi. cbv zeta.
  set (a1 := a <| upload_batches ::= delete batch |>). set (report := match ub_failures b with [] => None | _ => _ end).
  set (a2 := match values (ub_paths b) with [] => a1 | _ => _ end).
  assert (sent a2 = sent a ++ pasted_once a (values (ub_paths b)) ∧ upload_batches a2 !! batch = None ∧ is_Some (client a2)) as Ha2.
  { subst a2. unfold pasted_once. destruct (values (ub_paths b)) as [|path paths].
    - rewrite app_nil_r. split_and!; [done| |done]. simpl. by rewrite lookup_delete_eq.
    - set (feedback := _ ++ _ ++ _).
      destruct (paste_verified_sent m (path :: paths) feedback a1 Hc) as (-> & -> & _ & ?).
      split_and!; [done| |done]. simpl. by rewrite lookup_delete_eq. }
  destruct report; exact Ha2.
Qed.

Lemma out_for_next a batch request position outcome left c :
  out_for a batch ((request, (position, outcome)) :: left) →
  pending_uploads c = delete request (pending_uploads a) → pending_plugin_catalogs c = pending_plugin_catalogs a →
  out_for c batch left.
Proof.
  intros [Hnd Hp] Hu Hc. apply NoDup_cons in Hnd as [Hnotin Hnd]. constructor; [exact Hnd|].
  intros r p o Hin. destruct (Hp r p o) as [[d Hd] Hcat]; [by right|]. rewrite Hu, Hc. split; [|exact Hcat].
  exists d. rewrite lookup_delete_ne; [exact Hd|]. intros ->. apply Hnotin, list_elem_of_fmap. by exists (r, (p, o)).
Qed.
Definition answers m st (left : list (N * (N * result ustr (ustr * N)))) a : App :=
  foldl (λ a x, hear m st (settles x.1 x.2.2) a) a left.
Definition arrivals (left : list (N * (N * result ustr (ustr * N)))) (paths : gmap N ustr) : gmap N ustr :=
  foldl (λ paths x, arrived x.2.2 x.2.1 paths) paths left.

Lemma answered_paths outcome described position b : ub_paths (answered outcome described position b) = arrived outcome position (ub_paths b).
Proof. by destruct outcome as [[path size_]|why]. Qed.
Lemma answered_expected outcome described position b : ub_expected (answered outcome described position b) = ub_expected b.
Proof. by destruct outcome as [[path size_]|why]. Qed.
Lemma answered_count outcome described position b :
  ub_paths b !! position = None →
  let b' := answered outcome described position b in
  size (ub_paths b') + length (ub_failures b') = S (size (ub_paths b) + length (ub_failures b)).
Proof.
  intros Hn. destruct outcome as [[path size_]|why]; simpl.
  - rewrite map_size_insert_None by done. lia.
  - rewrite length_app. simpl. lia.
Qed.

Lemma batch_runs m st batch left a b :
  is_Some (client a) → upload_batches a !! batch = Some b → out_for a batch left →
  size (ub_paths b) + length (ub_failures b) + length left = ub_expected b → left ≠ [] →
  NoDup (fst ∘ snd <$> left) → (∀ position, position ∈ fst ∘ snd <$> left → ub_paths b !! position = None) →
  sent (answers m st left a) = sent a ++ pasted_once a (values (arrivals left (ub_paths b)))
  ∧ upload_batches (answers m st left a) !! batch = None.
Proof.
  revert a b. induction left as [|[request [position outcome]] left IH]; [done|]. intros a b Hc Hb Hout Hn _ Hnd Hfree.
  apply NoDup_cons in Hnd as [Hnotin Hnd]. cbn in Hnotin.
  destruct (out_pending _ _ _ Hout request position outcome) as [[described Hp] Hcat]; [by left|].
  unfold answers, arrivals. cbn [foldl]. rewrite (hear_answer m st batch request position outcome described) by done.
  set (b' := answered outcome described position b). cbn [fst snd].
  rewrite <-(answered_paths outcome described position b). fold b'.
  pose proof (answered_count outcome described position b (Hfree position ltac:(by left))) as Hcount. fold b' in Hcount. cbv zeta in Hcount.
  pose proof (answered_expected outcome described position b) as Hexp. fold b' in Hexp.
  set (c := a <| pending_uploads ::= _ |> <| upload_batches ::= _ |>).
  assert (upload_batches c !! batch = Some b') as Hcb by (subst c; simpl; rewrite lookup_alter_eq, Hb; done).
  destruct left as [|x left].
  - simpl in Hn. assert (incomplete b' = false) as Hi by (unfold incomplete; apply Nat.ltb_ge; lia).
    destruct (settle_complete m batch b' c Hc Hcb Hi) as (E1 & E2 & _). done.
  - assert (incomplete b' = true) as Hi by (unfold incomplete; simpl in Hn; apply Nat.ltb_lt; lia).
    rewrite (settle_incomplete m batch b' c Hcb Hi).
    destruct (IH c b') as [E1 E2]; [exact Hc|exact Hcb|by eapply out_for_next|simpl in *; lia|done|exact Hnd| |done].
    intros p Hin. subst b'. rewrite answered_paths. unfold arrived. destruct (ok_path outcome); [|apply Hfree; by right].
    rewrite lookup_insert_ne; [apply Hfree; by right|]. by intros ->.
Qed.

(** *** Paths in the order of their positions *)

Lemma positions_sorted n k : StronglySorted cmp_le (N.of_nat <$> seq k n).
Proof.
  revert k. induction n as [|n IH]; intros k; simpl; [constructor|]. constructor; [apply IH|].
  apply Forall_fmap, Forall_forall. intros x Hx%elem_of_seq. unfold cmp_le, compose. simpl. unfold cmp, N_ord.
  intros Hgt%N.compare_gt_iff. lia.
Qed.
Lemma keys_by_position (m : gmap N ustr) n :
  (∀ p, is_Some (m !! p) → (p < N.of_nat n)%N) → keys m = filter (λ p, is_Some (m !! p)) (N.of_nat <$> seq 0 n).
Proof.
  intros Hm. apply (StronglySorted_unique cmp_le).
  1: apply set_iter_sorted. 1: apply StronglySorted_filter, positions_sorted.
  apply NoDup_Permutation; [apply NoDup_keys|apply NoDup_filter, NoDup_fmap_2, NoDup_seq; apply _|].
  intros p. rewrite elem_of_keys, list_elem_of_filter. split; [|tauto]. intros Hp. split; [exact Hp|].
  apply list_elem_of_fmap. exists (N.to_nat p). specialize (Hm p Hp). split; [lia|]. apply elem_of_seq. lia.
Qed.
Lemma omap_present (m : gmap N ustr) (l : list N) : omap (λ p, m !! p) (filter (λ p, is_Some (m !! p)) l) = omap (λ p, m !! p) l.
Proof.
  induction l as [|p l IH]; [done|]. rewrite filter_cons. case_decide as Hp; csimpl.
  - destruct (m !! p); [by rewrite IH|]. by destruct Hp.
  - destruct (m !! p); [|done]. by destruct Hp.
Qed.
Lemma values_by_position (m : gmap N ustr) (outcomes : list (result ustr (ustr * N))) :
  (∀ p, m !! p = outcomes !! N.to_nat p ≫= ok_path) → values m = omap ok_path outcomes.
Proof.
  intros Hm. unfold values. rewrite (keys_by_position m (length outcomes)), omap_present.
  2: { intros p. rewrite Hm. destruct (outcomes !! N.to_nat p) eqn:E; [|by intros [? ?]]. apply lookup_lt_Some in E. lia. }
  assert (∀ k left, (∀ i, m !! N.of_nat (k + i) = left !! i ≫= ok_path) →
    omap (λ p, m !! p) (N.of_nat <$> seq k (length left)) = omap ok_path left) as Hrun.
  { intros k left. revert k. induction left as [|o left IH]; intros k Hl; [done|]. csimpl.
    pose proof (Hl 0) as H0'. rewrite Nat.add_0_r in H0'. rewrite H0'. simpl.
    rewrite (IH (S k)); [by destruct (ok_path o)|]. intros i. specialize (Hl (S i)). rewrite Nat.add_succ_r in Hl. exact Hl. }
  apply Hrun. intros i. rewrite Hm. by rewrite Nat2N.id.
Qed.
Lemma arrivals_other left paths p : p ∉ fst ∘ snd <$> left → arrivals left paths !! p = paths !! p.
Proof.
  revert paths. induction left as [|x left IH]; intros paths Hp; [done|]. unfold arrivals. cbn [foldl].
  rewrite fmap_cons, not_elem_of_cons in Hp. destruct Hp as [Hx Hp]. cbn in Hx.
  change (arrivals left (arrived x.2.2 x.2.1 paths) !! p = paths !! p). rewrite IH by done.
  unfold arrived. destruct (ok_path x.2.2); [by rewrite lookup_insert_ne|done].
Qed.
Lemma arrivals_at left paths r p o :
  NoDup (fst ∘ snd <$> left) → (r, (p, o)) ∈ left → paths !! p = None → arrivals left paths !! p = ok_path o.
Proof.
  revert paths. induction left as [|x left IH]; intros paths Hnd Hin Hnone; [by apply elem_of_nil in Hin|].
  rewrite fmap_cons in Hnd. apply NoDup_cons in Hnd as [Hx Hnd]. unfold arrivals. cbn [foldl].
  change (arrivals left (arrived x.2.2 x.2.1 paths) !! p = ok_path o).
  apply elem_of_cons in Hin as [<-|Hin].
  - cbn in Hx. rewrite arrivals_other by done. unfold arrived. simpl. destruct (ok_path o); [by rewrite lookup_insert_eq|done].
  - apply IH; [done|done|]. assert (p ≠ x.2.1) as Hne.
    { intros ->. apply Hx, list_elem_of_fmap. exists (r, (x.2.1, o)). done. }
    unfold arrived. destruct (ok_path x.2.2); [by rewrite lookup_insert_ne|done].
Qed.

(** ** From the offer on *)

Definition offers (selected : PaneId) (number : N) (files : list (ustr * N)) : list ClientMessage :=
  imap (λ i file, BeginUpload (number + N.of_nat i) selected (u "application/octet-stream") (Some file.1) file.2) files.

(** What offering changes: the numbers drawn, the offers sent, and the uploads pending. *)
Record offered_from selected batch a a' (number : N) (files : list (N * (ustr * N))) : Prop := {
  of_client : client a' = Some {| cc_sent := sent a ++ offers selected number files.*2; cc_next_request := number + N.of_nat (length files) |};
  of_pending : ∀ i position name length_, files !! i = Some (position, (name, length_)) →
    pending_uploads a' !! (number + N.of_nat i)%N = Some {| pu_described := name; pu_batch := Some (batch, position) |};
  of_rest : ∀ request, (request < number)%N → pending_uploads a' !! request = pending_uploads a !! request;
  of_same : selected_pane a' = selected_pane a ∧ routes a' = routes a ∧ pending_plugin_catalogs a' = pending_plugin_catalogs a;
}.
Lemma offer_one selected batch a number position name length_ :
  client a = Some {| cc_sent := sent a; cc_next_request := number |} → (number < u64_max)%N →
  offered_from selected batch a (offer_file selected batch a (position, (name, length_))) number [(position, (name, length_))].
Proof.
  intros Hc Hn. unfold offer_file, request. rewrite Hc. simpl.
  constructor; simpl.
  - unfold client_send, offers. simpl. rewrite u64_wrapping_add_small, N.add_0_r by lia. done.
  - intros [|i] p n l; [|done]. intros [= -> -> ->]. rewrite N.add_0_r. by rewrite lookup_insert_eq.
  - intros r Hr. rewrite lookup_insert_ne; [done|lia].
  - done.
Qed.
Lemma offer_all selected batch files a number :
  client a = Some {| cc_sent := sent a; cc_next_request := number |} → (number + N.of_nat (length files) ≤ u64_max)%N →
  offered_from selected batch a (foldl (offer_file selected batch) a files) number files.
Proof.
  revert a number. induction files as [|[position [name length_]] files IH]; intros a number Hc Hn.
  { constructor; [|done..]. simpl. by rewrite N.add_0_r, app_nil_r. }
  cbn [foldl]. cbn [length] in Hn.
  destruct (offer_one selected batch a number position name length_ Hc ltac:(lia)) as [H1c H1p H1r H1s].
  set (b := offer_file _ _ _ _) in *.
  assert (client b = Some {| cc_sent := sent b; cc_next_request := number + 1 |}) as Hb by (unfold sent; by rewrite H1c).
  destruct (IH b (number + 1)%N Hb ltac:(lia)) as [H2c H2p H2r H2s].
  constructor.
  - rewrite H2c. unfold sent at 1. rewrite H1c. cbn [cc_sent length fmap list_fmap snd]. rewrite <-app_assoc. do 2 f_equal; [|lia].
    unfold offers. simpl. do 2 f_equal. apply imap_ext. intros i x _. simpl. f_equal. lia.
  - intros [|i] p n l Hi; simpl in Hi.
    + rewrite H2r by lia. exact (H1p 0 p n l Hi).
    + replace (number + N.of_nat (S i))%N with (number + 1 + N.of_nat i)%N by lia. exact (H2p i p n l Hi).
  - intros r Hr. rewrite H2r by lia. by apply H1r.
  - destruct H1s as (? & ? & ?), H2s as (? & ? & ?). split_and!; congruence.
Qed.

(** The requests of a batch whose first has the given number, with what came of them. *)
Definition batch_answers (number : N) (outcomes : list (result ustr (ustr * N))) : list (N * (N * result ustr (ustr * N))) :=
  imap (λ i outcome, ((number + N.of_nat i)%N, (N.of_nat i, outcome))) outcomes.
Lemma batch_positions number outcomes : fst ∘ snd <$> batch_answers number outcomes = N.of_nat <$> seq 0 (length outcomes).
Proof. unfold batch_answers. rewrite fmap_imap. unfold compose. simpl. apply imap_seq_0. Qed.
Lemma batch_requests number outcomes : (batch_answers number outcomes).*1 = (λ i, number + N.of_nat i)%N <$> seq 0 (length outcomes).
Proof. unfold batch_answers. rewrite fmap_imap. unfold compose. simpl. apply imap_seq_0. Qed.
Lemma batch_arrivals number outcomes arrival :
  arrival ≡ₚ batch_answers number outcomes → values (arrivals arrival ∅) = omap ok_path outcomes.
Proof.
  intros Hp. assert (NoDup (fst ∘ snd <$> arrival)) as Hnd.
  { rewrite Hp, batch_positions. apply NoDup_fmap_2; [apply _|apply NoDup_seq]. }
  apply values_by_position. intros p. destruct (outcomes !! N.to_nat p) as [o|] eqn:Ho; simpl.
  - apply (arrivals_at _ _ (number + p) p o); [exact Hnd| |done]. rewrite Hp. apply elem_of_lookup_imap.
    exists (N.to_nat p), o. by rewrite N2Nat.id.
  - rewrite arrivals_other; [done|]. rewrite Hp, batch_positions. intros (i & -> & Hi%elem_of_seq)%list_elem_of_fmap.
    apply lookup_ge_None in Ho. rewrite Nat2N.id in Ho. lia.
Qed.

Lemma length_numbered {A} (l : list A) : length (numbered l) = length l.
Proof. unfold numbered. rewrite length_zip, length_fmap, length_seq. lia. Qed.
Lemma lookup_numbered {A} (l : list A) i x : l !! i = Some x → numbered l !! i = Some (N.of_nat i, x).
Proof.
  intros Hx. unfold numbered. apply lookup_zip_Some. split; [|done].
  rewrite list_lookup_fmap, lookup_seq_lt by (by eapply lookup_lt_Some). done.
Qed.
(** What was offered is out. *)
Lemma offered_out_for a batch number (offered : list (ustr * N)) outcomes arrival :
  arrival ≡ₚ batch_answers number outcomes → length outcomes = length offered →
  (∀ i position name length_, numbered offered !! i = Some (position, (name, length_)) →
     pending_uploads a !! (number + N.of_nat i)%N = Some {| pu_described := name; pu_batch := Some (batch, position) |}) →
  (∀ request, is_Some (pending_plugin_catalogs a !! request) → (request < number)%N) →
  out_for a batch arrival.
Proof.
  intros Hp Hlen Hop Hcat. constructor.
  - rewrite Hp, batch_requests. apply NoDup_fmap_2; [intros ? ? ?; lia|apply NoDup_seq].
  - intros r p o Hin. rewrite Hp in Hin. apply elem_of_lookup_imap in Hin as (i & o' & [= -> -> ->] & Hlo).
    assert (i < length offered) as Hlt by (apply lookup_lt_Some in Hlo; lia).
    destruct (lookup_lt_is_Some_2 _ _ Hlt) as [[name length_] Hoff%lookup_numbered]. split; [eauto|].
    apply eq_None_not_Some. intros Hs%Hcat. lia.
Qed.

(** C16. A selection of files is pasted as one line in the order it was made, whatever order
    the uploads finish in. When the files can all be read and what is heard after they are
    offered is an answer for each, in any order: the files are offered in order, each under
    a number of its own; with the last answer the batch is gone, and the paths of the files
    that were verified are sent to be typed, once, in one line, in the order of the selection,
    leaving out the files that failed; if none was verified, or if no pane is selected then,
    or its lease is not held, or its terminal does not take the text, nothing is typed. *)
Theorem files_pasted_in_order m st selected files offered outcomes arrival a c :
  inspected files = Ok offered → offered ≠ [] → length outcomes = length offered →
  client a = Some c → (cc_next_request c + N.of_nat (length offered) ≤ u64_max)%N →
  (∀ request, is_Some (pending_plugin_catalogs a !! request) → (request < cc_next_request c)%N) →
  arrival ≡ₚ batch_answers (cc_next_request c) outcomes →
  let sending := send_local_files selected files a in
  let settled := answers m st arrival sending in
  sent settled = sent a ++ offers selected (cc_next_request c) offered ++ pasted_once a (omap ok_path outcomes)
  ∧ upload_batches settled !! next_upload_batch a = None.
Proof.
  intros Hi Hne Hlen Hc Hn Hcat Hp. cbv zeta. unfold send_local_files. rewrite Hi. cbv zeta.
  set (number := cc_next_request c) in *. set (batch := next_upload_batch a).
  set (a0 := a <| next_upload_batch := _ |>).
  pose proof (length_numbered offered) as Hnum.
  destruct (offer_all selected batch (numbered offered) a0 number) as [Hoc Hop _ (Hosel & Horo & Hocat)].
  { unfold a0, sent. simpl. rewrite Hc. by destruct c. } { by rewrite Hnum. }
  set (a1 := foldl _ a0 _) in *. rewrite Hnum in Hoc.
  assert ((numbered offered).*2 = offered) as Hsnd.
  { unfold numbered. apply snd_zip. rewrite length_fmap, length_seq. lia. }
  rewrite Hsnd in Hoc.
  match goal with |- context [answers m st arrival ?x] => set (a2 := x) end.
  assert (sent a2 = sent a ++ offers selected number offered) as Hsent by (unfold sent at 1; simpl; rewrite Hoc; done).
  assert (pasted_once a2 = pasted_once a) as Hpaste.
  { unfold pasted_once, pasted. simpl. by rewrite Hosel, Horo. }
  destruct (batch_runs m st batch arrival a2 {| ub_expected := length offered; ub_paths := ∅; ub_failures := [] |}) as [E1 E2].
  - simpl. rewrite Hoc. eauto.
  - simpl. by rewrite lookup_insert_eq.
  - eapply offered_out_for; [exact Hp|exact Hlen|exact Hop|]. intros r. simpl. rewrite Hocat. apply Hcat.
  - simpl. rewrite map_size_empty, Hp. unfold batch_answers. rewrite length_imap. lia.
  - intros ->. apply Permutation_nil in Hp. apply (f_equal length) in Hp. unfold batch_answers in Hp. rewrite length_imap in Hp.
    destruct offered; [done|simpl in *; lia].
  - rewrite Hp, batch_positions. apply NoDup_fmap_2; [apply _|apply NoDup_seq].
  - done.
  - cbn [ub_paths] in E1. rewrite E1, Hsent, Hpaste, (batch_arrivals number outcomes arrival Hp), <-app_assoc. done.
Qed.
End events_facts.

(** ** What the daemon's messages can do *)

Section steady.
Context `{VtModes} `{UnicodeTables} `{Sha256}.
Implicit Types a b : App.

(** The selection stays, and only what [P] allows is sent. *)
Definition Steady P a b : Prop := Sends P a b ∧ selected_pane b = selected_pane a.
Lemma steady_refl P a : Steady P a a.
Proof. split; [by apply sends_same|done]. Qed.
Lemma steady_around P a b (f : App → App) :
  (∀ x, client (f x) = client x ∧ selected_pane (f x) = selected_pane x) → Steady P a b → Steady P a (f b).
Proof. intros E [Hs Hp]. split; [apply sends_around; [intros x; apply E|exact Hs]|]. rewrite <-Hp. apply E. Qed.
Lemma steady_send P a b m : P m → Steady P a b → Steady P a (send m b).
Proof. intros Hm [Hs Hp]. by split; [apply sends_send|]. Qed.
Lemma steady_foldl {A} P a b (l : list A) (f : App → A → App) :
  (∀ b x, Steady P a b → Steady P a (f b x)) → Steady P a b → Steady P a (foldl f b l).
Proof. intros Hf. revert b. induction l as [|x l IH]; intros b Hs; [done|]. simpl. auto. Qed.
End steady.

Ltac steady_step :=
  match goal with
  | H : ?T |- ?G => constr_eq T G; exact H
  | |- Steady _ _ (say ?t ?b) => apply (steady_around _ _ b (say t)); [by split|]
  | |- Steady _ _ (set_field ?field ?g ?b) => apply (steady_around _ _ b (set_field field g)); [by split|]
  | |- Steady _ _ (send _ _) => apply steady_send; [auto|]
  | |- Steady _ _ (match ?x with _ => _ end) => destruct x eqn:?
  end.
Ltac steady := repeat steady_step.

Section events_send.
Context `{VtModes} `{UnicodeTables} `{Sha256}.
Implicit Types a b : App.

Abbreviation anything := (λ _ : ClientMessage, True).
Lemma sends_nothing a b : Sends (λ _, False) a b → sent b = sent a.
Proof. intros [_ (new & -> & Hnew)]. destruct Hnew; [apply app_nil_r|done]. Qed.

(** *** What keeps the selection *)

Lemma steady_trans P a b c : Steady P a b → Steady P b c → Steady P a c.
Proof. intros [Hs Hp] [Hs' Hp']. split; [eapply sends_trans; [exact Hs|exact Hs']|by rewrite Hp', Hp]. Qed.

Lemma steady_paste m paths feedback a : Steady anything a (paste_verified_paths m paths feedback a).
Proof.
  pose proof (steady_refl anything a). unfold paste_verified_paths, show_feedback. destruct (selected_pane a) as [pane|]; [|steady].
  destruct (routes a !! pane) as [route|]; [|steady]. destruct (negb _); [steady|].
  destruct (terminal_paste_payload _ _) as [payload|]; steady.
Qed.
Lemma steady_settle m batch a : Steady anything a (settle_upload_batch m batch a).
Proof.
  pose proof (steady_refl anything a). unfold settle_upload_batch. destruct (upload_batches a !! batch) as [state|]; [|steady].
  destruct (_ <? _); [steady|]. cbv zeta. destruct (settled_batch state) as [paths report].
  set (c := a <| upload_batches ::= delete batch |>). assert (Steady anything a c) as Hc by (subst c; steady).
  assert (∀ ps feedback, Steady anything a (paste_verified_paths m ps feedback c)) as Hpaste.
  { intros ps feedback. eapply steady_trans; [exact Hc|apply steady_paste]. }
  destruct paths as [|path paths]; [steady|]. set (feedback := _ ++ _ ++ _). specialize (Hpaste (path :: paths) feedback). steady.
Qed.
Lemma steady_fail m request why a : Steady anything a (fail_upload m request why a).1.
Proof.
  pose proof (steady_refl anything a). unfold fail_upload. destruct (pending_uploads a !! request) as [pending|]; [|cbn [fst]; steady].
  cbv zeta. destruct (pu_batch pending) as [[batch position]|]; cbn [fst]; [|steady].
  eapply steady_trans; [|apply steady_settle]. steady.
Qed.
Lemma steady_complete m request path size_ a : Steady anything a (upload_complete m request path size_ a).
Proof.
  pose proof (steady_refl anything a). unfold upload_complete. destruct (pending_uploads a !! request) as [pending|]; [|steady].
  cbv zeta. destruct (pu_batch pending) as [[batch position]|]; (eapply steady_trans; [|apply steady_settle || apply steady_paste]); steady.
Qed.
Lemma steady_frame P pane sequence width height full payload a :
  Steady P a (pane_frame pane sequence width height full payload a).
Proof.
  pose proof (steady_refl P a). unfold pane_frame. destruct (routes a !! pane) as [route|]; [|steady]. cbv zeta.
  destruct (update_selection_after_frame _ _ _ _ _ _). steady.
Qed.
Lemma steady_plugins P m request key generation actions a : Steady P a (plugin_actions m request key generation actions a).
Proof. pose proof (steady_refl P a). unfold plugin_actions. steady. Qed.
Lemma steady_refused P m pending why a : Steady P a (plugin_catalog_refused m pending why a).
Proof. pose proof (steady_refl P a). unfold plugin_catalog_refused. cbv zeta. steady. Qed.
Lemma steady_error m request why a : Steady anything a (error_message m request why a).
Proof.
  pose proof (steady_refl anything a). unfold error_message. cbv zeta.
  destruct request as [request|]; [|steady]. destruct (pending_plugin_catalogs a !! request).
  { eapply steady_trans; [|apply steady_refused]. steady. }
  pose proof (steady_fail m request why a) as Hf. destruct (fail_upload m request why a) as [c was_upload]. cbn [fst] in Hf.
  destruct was_upload; steady.
Qed.
Lemma steady_save m what a files : Steady anything a (save_message m what a files).1.
Proof.
  pose proof (steady_refl anything a). unfold save_message. cbv zeta.
  destruct (client_message _ _ _ _ _) as [[saves commands] files'].
  assert (Steady anything a (foldl (λ a c, send (save_command c) a) a commands)) as Hf.
  { apply steady_foldl; [|steady]. intros b x Hb. by apply steady_send. }
  set (b := foldl _ _ _) in *. destruct (notice saves); cbn [fst]; steady.
Qed.

(** *** Just what is sent *)

(** The paths a batch is pasted with, when it has been answered in full. *)
Definition completed (b : UploadBatch) : list ustr := if incomplete b then [] else values (ub_paths b).
(** The paths a message makes due: of an upload of its own that it completes, or of the batch
    whose last part it answers. *)
Definition due a (what : ServerMessage) : list ustr :=
  match what with
  | UploadComplete request path _ =>
      match pending_uploads a !! request with
      | Some pending =>
          match pu_batch pending with
          | None => [path]
          | Some (batch, position) => match upload_batches a !! batch with Some b => completed (batch_path position path b) | None => [] end
          end
      | None => []
      end
  | ErrorMessage (Some request) why =>
      match pending_plugin_catalogs a !! request, pending_uploads a !! request with
      | None, Some pending =>
          match pu_batch pending with
          | None => []
          | Some (batch, _) => match upload_batches a !! batch with
                               | Some b => completed (batch_failure (pu_described pending ++ u ": " ++ why) b)
                               | None => []
                               end
          end
      | _, _ => []
      end
  | _ => []
  end.
(** The flow of the file being saved: more of it is asked for, or it is given up, under the
    request it was asked under. *)
Definition flow_under (request : N) (flow : list ClientMessage) : Prop :=
  flow = [] ∨ (∃ chunks, flow = [Protocol.PullDownload request chunks]) ∨ flow = [Protocol.CancelDownload request].
Definition save_flow a (what : ServerMessage) (flow : list ClientMessage) : Prop :=
  match what with
  | DownloadOffer request _ _ _ => flow_under request flow ∧ (flow ≠ [] → file_save_request a = Some request)
  | DownloadChunk request _ => flow_under request flow ∧ (flow ≠ [] → ∃ s, file_save a = Some s ∧ fs_request s = request)
  | _ => flow = []
  end.

Lemma settle_sends m batch a :
  is_Some (client a) →
  sent (settle_upload_batch m batch a)
  = sent a ++ pasted_once a (match upload_batches a !! batch with Some b => completed b | None => [] end).
Proof.
  intros Hc. destruct (upload_batches a !! batch) as [b|] eqn:Hb.
  - unfold completed. destruct (incomplete b) eqn:Hi; [rewrite (settle_incomplete m batch b) by done; by rewrite app_nil_r|].
    by destruct (settle_complete m batch b a Hc Hb Hi) as [-> _].
  - unfold settle_upload_batch. rewrite Hb. by rewrite app_nil_r.
Qed.
(** What was pending does not matter to what a paste sends. *)
Lemma complete_sends m request path size_ a :
  is_Some (client a) → sent (upload_complete m request path size_ a) = sent a ++ pasted_once a (due a (UploadComplete request path size_)).
Proof.
  intros Hc. unfold upload_complete, due. destruct (pending_uploads a !! request) as [pending|]; [|by rewrite app_nil_r].
  cbv zeta. destruct (pu_batch pending) as [[batch position]|].
  - rewrite settle_sends by done. simpl. rewrite lookup_alter_eq. by destruct (upload_batches a !! batch).
  - set (b := a <| pending_uploads ::= delete request |>). set (feedback := _ ++ _ ++ _).
    exact (proj1 (paste_verified_sent m [path] feedback b Hc)).
Qed.
Lemma error_sends m request why a :
  is_Some (client a) → sent (error_message m request why a) = sent a ++ pasted_once a (due a (ErrorMessage request why)).
Proof.
  intros Hc. unfold error_message, due. destruct request as [request|]; [|by rewrite app_nil_r].
  destruct (pending_plugin_catalogs a !! request) as [refused|].
  { rewrite app_nil_r. apply sends_nothing. eapply steady_trans; [|apply steady_refused].
    pose proof (steady_refl (λ _, False) a). steady. }
  unfold fail_upload. destruct (pending_uploads a !! request) as [pending|].
  - cbv zeta. destruct (pu_batch pending) as [[batch position]|]; [|by rewrite app_nil_r].
    rewrite settle_sends by done. simpl. rewrite lookup_alter_eq. by destruct (upload_batches a !! batch).
  - rewrite app_nil_r. apply sends_nothing. cbv zeta.
    assert (∀ b, Steady (λ _, False) a b → Sends (λ _, False) a b) as Hs by (by intros b []).
    apply Hs. pose proof (steady_refl (λ _, False) a). steady.
Qed.
Lemma save_sends m what a files :
  is_Some (client a) →
  ∃ flow, sent (save_message m what a files).1 = sent a ++ flow ∧ save_flow a what flow.
Proof.
  intros Hc. unfold save_message. cbv zeta. set (saves := {| FileSave.file_save := _ |}).
  destruct (client_message _ _ _ _ _) as [[saves' commands] files'] eqn:E.
  assert (∀ l b, is_Some (client b) → sent (foldl (λ a c, send (save_command c) a) b l) = sent b ++ (save_command <$> l)) as Hf.
  { induction l as [|c l IH]; intros b Hb; cbn [foldl fmap list_fmap]; [by rewrite app_nil_r|].
    rewrite IH by by apply client_send_some. rewrite sent_send by done. by rewrite <-app_assoc. }
  exists (save_command <$> commands). split.
  - set (b := foldl _ _ _). transitivity (sent b); [by destruct (notice saves')|]. by apply Hf.
  - clear Hf. destruct what; cbn [client_message] in E; try (by injection E as <- <- <-).
    + unfold client_offered, save_flow, flow_under in *. case_bool_decide as Hr; cbn [negb] in E; [|injection E as <- <- <-; split; [by left|done]].
      destruct (save_begin _ _ _ _ _ _ _) as [s0|e]; [destruct (save_start s0) as [s1 []]|]; injection E as <- <- <-; cbn; eauto 6.
    + unfold client_chunk, save_flow, flow_under in *. cbn [FileSave.file_save saves] in E.
      destruct (file_save a) as [s0|] eqn:Hs; [|injection E as <- <- <-; split; [by left|done]].
      destruct (N.eqb_spec (fs_request s0) request) as [Hr|]; cbn [negb] in E; [|injection E as <- <- <-; split; [by left|done]].
      destruct (save_chunk _ _ _) as [[s1 []]|]; injection E as <- <- <-; cbn; (split; [by eauto|intros _; by exists s0]).
    + destruct (client_finished _ _ _ _) as [c f]. by injection E as <- <- <-.
Qed.

(** The selection the operation that was just answered gives up, to follow what it focuses. *)
Definition gives_up (what : ServerMessage) a : Prop :=
  match what with
  | OperationResult request true _ _ => ∃ pending, pending_operations a !! request = Some pending ∧ po_follow_server_focus pending = true
  | _ => False
  end.
Lemma result_sends P m st request applied what a :
  let a' := operation_result m st request applied what a in
  Sends P a a'
  ∧ (selected_pane a' = selected_pane a
     ∨ (applied = true ∧ selected_pane a' = None
        ∧ ∃ pending, pending_operations a !! request = Some pending ∧ po_follow_server_focus pending = true)).
Proof.
  unfold operation_result. cbv zeta. set (b := a <| herdr_action_inflight := false |> <| pending_operations ::= delete request |>).
  assert (Steady P a b) as Hb by (pose proof (steady_refl P a); subst b; steady).
  destruct applied; [|assert (Steady P a (say (u "Herdr action failed: " ++ what) b)) as [? ?] by steady; auto].
  set (c := match (_ ≫= _) with Some feedback => _ | None => _ end).
  assert (Steady P a c) as [Hc Hsel] by (subst c; unfold show_feedback; steady).
  destruct (pending_operations a !! request) as [pending|]; [|auto]. destruct (po_follow_server_focus pending) eqn:Hf; [|auto].
  split; [|right; eauto]. unfold follow_operation. sends.
Qed.

(** C15. Whatever the daemon says, the frontend keeps its selection, unless the answer is to an
    operation the person asked for whose focus is followed; and all it sends in turn is this.
    On the answer that completes an upload the person asked for, or the last of a batch of
    them, the verified paths of that upload or batch, quoted, as one paste to the pane that is
    selected, if there are any, its lease is held and its terminal takes the text. On an offer
    or a chunk of the file it is saving, one message that asks for more of that file or gives
    it up. On anything else, nothing. *)
Theorem daemon_cannot_type m st what a files :
  let a' := (handle_daemon_event m st what a files).1 in
  (is_Some (client a') ↔ is_Some (client a))
  ∧ (is_Some (client a) → ∃ flow, sent a' = sent a ++ pasted_once a (due a what) ++ flow ∧ save_flow a what flow)
  ∧ (selected_pane a' = selected_pane a ∨ (gives_up what a ∧ selected_pane a' = None)).
Proof.
  cbv zeta. set (a' := (handle_daemon_event m st what a files).1).
  assert (due a what = [] → save_flow a what [] → Steady (λ _, False) a a' →
    (is_Some (client a') ↔ is_Some (client a))
    ∧ (is_Some (client a) → ∃ flow, sent a' = sent a ++ pasted_once a (due a what) ++ flow ∧ save_flow a what flow)
    ∧ (selected_pane a' = selected_pane a ∨ (gives_up what a ∧ selected_pane a' = None))) as Hquiet.
  { intros Hdue Hflow [Hs Hp]. split_and!; [apply Hs| |by left]. intros _. exists []. rewrite Hdue. split; [|done].
    rewrite app_nil_r. by apply sends_nothing. }
  assert (save_flow a what [] → Steady anything a a' → (is_Some (client a) → sent a' = sent a ++ pasted_once a (due a what)) →
    (is_Some (client a') ↔ is_Some (client a))
    ∧ (is_Some (client a) → ∃ flow, sent a' = sent a ++ pasted_once a (due a what) ++ flow ∧ save_flow a what flow)
    ∧ (selected_pane a' = selected_pane a ∨ (gives_up what a ∧ selected_pane a' = None))) as Hpastes.
  { intros Hflow [Hs Hp] Hsent. split_and!; [apply Hs| |by left]. intros Hc. exists []. rewrite app_nil_r. auto. }
  assert (due a what = [] → Steady anything a a' → (is_Some (client a) → ∃ flow, sent a' = sent a ++ flow ∧ save_flow a what flow) →
    (is_Some (client a') ↔ is_Some (client a))
    ∧ (is_Some (client a) → ∃ flow, sent a' = sent a ++ pasted_once a (due a what) ++ flow ∧ save_flow a what flow)
    ∧ (selected_pane a' = selected_pane a ∨ (gives_up what a ∧ selected_pane a' = None))) as Hsaves.
  { intros Hdue [Hs Hp] Hsent. rewrite Hdue. split_and!; [apply Hs|done|by left]. }
  pose proof (steady_refl (λ _, False) a) as Hrefl.
  destruct what; try (apply Hquiet; [done|done|]; subst a'; cbn [handle_daemon_event fst];
    first [exact Hrefl|apply steady_frame|apply steady_plugins|unfold pane_lease, pane_closed; cbv zeta; steady; fail]).
  - destruct (result_sends (λ _, False) m st request applied message a) as [Hs Hp]. split_and!; [apply Hs| |].
    + intros _. exists []. rewrite app_nil_r. split; [by apply sends_nothing|done].
    + destruct Hp as [?|(-> & ? & ?)]; [by left|by right].
  - apply Hsaves; [done|apply steady_save|apply save_sends].
  - apply Hsaves; [done|apply steady_save|apply save_sends].
  - apply Hsaves; [done|apply steady_save|apply save_sends].
  - apply Hpastes; [done|apply steady_complete|apply complete_sends].
  - apply Hpastes; [done|apply steady_error|apply error_sends].
Qed.
End events_send.
