(* ===== verification/TuiKeys.v ===== *)
(** What keys, pastes and reports from the terminal do: [handle_decoded_input],
    [handle_input] and the dialogs of [src/src/tui.rs].

    What this machine has to say while a key is handled (its clipboard, its files, the
    configuration file) is in a [Machine]. *)

From S2P Require Import Prelude Text Net Model State Attention AgentMarks AgentCards Config Screen Operation Protocol Pairing FileSave Notifications TuiInput TuiLayout TuiSelection TuiActions TuiTargets TuiPaste TuiApp TuiEvents.

(** What came of changing the configuration file: the targets it has then, why it was left
    alone, or that it cannot be read back. *)
Inductive Reloaded := Reloads (ts : list Target) | Unchanged (why : ustr) | Unreadable.
(** A clipboard's type and bytes, or why there are none. *)
Record Machine := {
  clipboard_text : result ustr ustr;
  clipboard_media : result ustr (ustr * bytes);
  clipboard_files : list ustr;
  home : option ustr;
  is_file : ustr → bool;
  inspect : ustr → result ustr (ustr * N);
  save_target : option ustr → Target → Reloaded;
  drop_target : ustr → Reloaded;
  has_config_path : bool;
}.

Section keys.
Context `{VtModes} `{UnicodeTables} `{Sha256}.

(** ** Actions *)

Definition prompt (title label : ustr) (action : TextPromptAction) (a : App) : App :=
  a <| text_prompt := Some {| tp_title := title; tp_label := label; tp_value := []; tp_action := action; tp_error := None;
                              tp_partial := [] |} |>.
Definition open_send_file_prompt (a : App) : App :=
  match selected_pane a with
  | None => say (u "no terminal pane is selected") a
  | Some pane => prompt (u "Send a file") (u "drag a file here, or type its path") (PromptSendFile pane) a
  end.
Definition cancel_file_save (a : App) : App :=
  match file_save_request a with
  | None => say (u "no file transfer to cancel") a
  | Some number =>
      say (u "file transfer cancelled")
        (send (Protocol.CancelDownload number) (a <| file_save_request := None |>) <| file_save := None |>)
  end.
Definition execute_resource_action (m : Moment) (st : FederationState) (action : ResourceAction) (a : App) : App :=
  let on session := u " on " ++ display_target_session session in
  if mutates_herdr action && herdr_action_inflight a then say (u "Herdr action already in progress") a
  else
    match action with
    | JumpToPane pane _ => select_pane m pane a
    | OpenTargetManager => a <| target_manager := Some (TargetManager_new (configured_targets a)) |>
    | OpenAgentNavigator => a <| agent_navigator := Some (FilterAttention, 0) |>
    | OpenAttentionCenter => a <| attention_center := Some 0 |>
    | ActCreateWorkspace target =>
        prompt (u "create Herdr workspace") (u "Workspace label" ++ on target) (PromptCreateWorkspace target) a
    | ActRenameWorkspace workspace current =>
        prompt (u "rename Herdr workspace") (u "New label for " ++ str_debug current) (PromptRenameWorkspace workspace) a
    | ActRenameTab tab current => prompt (u "rename Herdr tab") (u "New label for " ++ str_debug current) (PromptRenameTab tab) a
    | ActCloseWorkspace _ _ | ActCloseTab _ _ | ActClosePane _ _ => a <| close_confirmation := Some action |>
    | ActCreateTab workspace => run_operation (CreateTab workspace) (u "created tab" ++ on (target_session workspace)) true a
    | ActMoveWorkspace workspace destination label destination_label =>
        spawn_workspace_move st workspace destination label destination_label a
    | ActRecreateWorkspace workspace destination label => spawn_workspace_recreate st workspace destination label a
    | ActSplitPane pane direction =>
        run_operation (SplitPane pane direction) (u "split pane " ++ cli_value direction ++ on (target_session pane)) true a
    | SaveFileFromPane pane label =>
        prompt (u "save a file from " ++ label) (u "path" ++ on (target_session pane)) (PromptSaveFile pane) a
    | TransferFileBetween source destination _ destination_label =>
        prompt (u "send a file to " ++ destination_label) (u "path" ++ on (target_session source)) (PromptTransferFile source destination) a
    | CancelFileTransfer => cancel_file_save a
    | ActMarkAgent agent mark _ => request (λ number, MarkAgent number agent mark) (λ _ a, a) a
    | ActTogglePaneZoom pane => run_operation (TogglePaneZoom pane) (u "toggled pane zoom" ++ on (target_session pane)) false a
    | ActInvokePluginAction action context =>
        run_operation (InvokePluginAction (act_id action) context (act_title action))
          (u "started plugin action " ++ str_debug (act_title action) ++ on (pa_target (act_id action))) false a
    end.

(** ** Dialogs: each takes itself down and puts itself back when it stays. *)

Definition is_enter (key : N) : bool := (key =? 13)%N || (key =? 10)%N.
Definition printable (key : N) : bool := ((32 <=? key) && (key <=? 126))%N.
Definition step_down (selected count : nat) : nat := if count =? 0 then selected else S selected mod count.
Definition step_up (selected count : nat) : nat := if count =? 0 then selected else if selected =? 0 then count - 1 else selected - 1.
Definition palette_actions (st : FederationState) (query : ustr) (a : App) : list ResourceAction :=
  filtered_palette_actions st (selected_pane a) query (plugin_catalogs a) (agent_marks a) (bool_decide (is_Some (file_save_request a))).

Definition handle_command_palette_input (m : Moment) (st : FederationState) (key : N) (a : App) : App :=
  match command_palette a with
  | None => a
  | Some palette =>
      let a := a <| command_palette := None |> in
      let actions := palette_actions st (cp_query palette) a in
      let back query selected :=
        a <| command_palette := Some {| cp_query := query; cp_selected := min selected (length (palette_actions st query a) - 1) |} |> in
      let query := cp_query palette in
      let selected := cp_selected palette in
      if (key =? 27)%N then a
      else if is_enter key then
        match actions !! selected with
        | Some action => execute_resource_action m st action a
        | None => back query selected
        end
      else if bool_decide (key ∈ [9; 14]%N) then back query (step_down selected (length actions))
      else if (key =? 16)%N then back query (step_up selected (length actions))
      else if bool_decide (key ∈ [8; 127]%N) then back (take (length query - 1) query) 0
      else if (key =? 21)%N then back [] 0
      else if printable key then back (query ++ [key]) 0
      else back query selected
  end.

Definition menu_selected (selected : nat) (menu : ContextMenu) : ContextMenu :=
  {| cm_title := cm_title menu; cm_actions := cm_actions menu; cm_target := cm_target menu; cm_selected := selected;
     cm_anchor := cm_anchor menu; cm_pressed := cm_pressed menu |}.
Definition handle_context_menu_input (m : Moment) (st : FederationState) (key : N) (a : App) : App :=
  match context_menu a with
  | None => a
  | Some menu =>
      let a := a <| context_menu := None |> in
      let count := length (cm_actions menu) in
      let back selected := a <| context_menu := Some (menu_selected selected menu) |> in
      if bool_decide (key ∈ [113; 27]%N) then a
      else if bool_decide (key ∈ [106; 9; 14]%N) then back (step_down (cm_selected menu) count)
      else if bool_decide (key ∈ [107; 16]%N) then back (step_up (cm_selected menu) count)
      else if is_enter key then
        match cm_actions menu !! cm_selected menu with
        | Some action => execute_resource_action m st action a
        | None => a
        end
      else back (cm_selected menu)
  end.

(** Confirmation is what turns a destructive intent into an operation. *)
Definition confirmed_operation (action : ResourceAction) : option (Operation * ustr) :=
  let on session := u " on " ++ display_target_session session in
  match action with
  | ActCloseWorkspace workspace label =>
      Some (CloseWorkspace workspace, u "closed workspace " ++ str_debug label ++ on (target_session workspace))
  | ActCloseTab tab label => Some (CloseTab tab, u "closed tab " ++ str_debug label ++ on (target_session tab))
  | ActClosePane pane label => Some (ClosePane pane, u "closed pane " ++ str_debug label ++ on (target_session pane))
  | _ => None
  end.
Definition handle_close_confirmation_input (key : N) (a : App) : App :=
  match close_confirmation a with
  | None => a
  | Some action =>
      let a := a <| close_confirmation := None |> in
      if (key =? 121)%N then
        match confirmed_operation action with
        | Some (operation, description) => run_operation operation description true a
        | None => say (u "refused non-destructive action " ++ str_debug (palette_label action) ++ u " in close confirmation") a
        end
      else if bool_decide (key ∈ [110; 113; 27]%N) then a
      else a <| close_confirmation := Some action |>
  end.

(** ** Text prompts *)

(** Whether the text so far is the start of a character: [error_len] of an error there is
    none. *)
Definition in_range (low high b : N) : bool := ((low <=? b) && (b <=? high))%N.
Definition second_byte (first second : N) : bool :=
  if (first =? 224)%N then in_range 160 191 second
  else if (first =? 237)%N then in_range 128 159 second
  else if (first =? 240)%N then in_range 144 191 second
  else if (first =? 244)%N then in_range 128 143 second
  else in_range 194 244 first && in_range 128 191 second.
Definition open_char (b : bytes) : bool :=
  match b with
  | [first] => in_range 194 244 first
  | [first; second] => in_range 224 244 first && second_byte first second
  | [first; second; third] => in_range 240 244 first && second_byte first second && in_range 128 191 third
  | _ => false
  end.
Definition ends_early (b : bytes) : bool :=
  existsb (λ n, bool_decide (is_Some (from_utf8 (take n b))) && open_char (drop n b)) (seq 0 (length b)).

#[export] Instance TextPrompt_eta : Eta TextPrompt := λ p, {|
  tp_title := tp_title p; tp_label := tp_label p; tp_value := tp_value p; tp_action := tp_action p; tp_error := tp_error p;
  tp_partial := tp_partial p |}.
Definition prompt_byte (key : N) (p : TextPrompt) : TextPrompt :=
  let partial := tp_partial p ++ [key] in
  (match from_utf8 partial with
   | Some text => p <| tp_value ::= λ value, value ++ text |> <| tp_partial := [] |>
   | None => p <| tp_partial := if ends_early partial && (length partial <? 4) then partial else [] |>
   end) <| tp_error := None |>.
Definition prompt_key (key : N) (p : TextPrompt) : TextPrompt :=
  if bool_decide (key ∈ [8; 127]%N) then p <| tp_value ::= λ value, take (length value - 1) value |> <| tp_error := None |>
  else if (key =? 21)%N then p <| tp_value := [] |> <| tp_error := None |>
  else if printable key then p <| tp_value ::= λ value, value ++ [key] |> <| tp_partial := [] |> <| tp_error := None |>
  else if (128 <=? key)%N then prompt_byte key p
  else p.

(** What a label a person typed asks for. *)
Definition labelled_operation (action : TextPromptAction) (value : ustr) : option (Operation * ustr * bool) :=
  let on session := u " on " ++ display_target_session session in
  match action with
  | PromptSendFile _ | PromptSaveFile _ | PromptTransferFile _ _ => None
  | PromptCreateWorkspace target =>
      Some (CreateWorkspace target value, u "created workspace " ++ str_debug value ++ on target, true)
  | PromptRenameWorkspace workspace =>
      Some (RenameWorkspace workspace value,
            u "renamed workspace to " ++ str_debug value ++ on (target_session workspace), false)
  | PromptRenameTab tab =>
      Some (RenameTab tab value, u "renamed tab to " ++ str_debug value ++ on (target_session tab), false)
  end.
(** Enter: the frontend, and why the prompt stays. *)
Definition submit_prompt (k : Machine) (st : FederationState) (p : TextPrompt) (a : App) : App * option ustr :=
  let value := trim (tp_value p) in
  let empty := bool_decide (value = []) in
  match tp_action p with
  | PromptSendFile _ =>
      let '(a, destination) := upload_destination st a in
      if empty then (a, Some (u "A path is required"))
      else
        match destination with
        | Err message => (a, Some message)
        | Ok pane =>
            match client a with
            | Some _ => let path := dropped_path (home k) value in (send_local_files pane [(path, inspect k path)] a, None)
            | None => (a, Some (u "file routing is unavailable"))
            end
        end
  | PromptSaveFile pane =>
      if empty then (a, Some (u "A path is required"))
      else
        match client a with
        | None => (a, Some (u "file routing is unavailable"))
        | Some _ =>
            if bool_decide (is_Some (file_save a)) then (a, Some (u "a file is already being saved"))
            else (say (u "asking for the file" ++ ellipsis)
                    (request (λ number, BeginDownload number pane value) (λ number a, a <| file_save_request := Some number |>) a),
                  None)
        end
  | PromptTransferFile source destination =>
      if empty then (a, Some (u "A path is required"))
      else
        match client a with
        | None => (a, Some (u "file routing is unavailable"))
        | Some _ =>
            (say (u "sending " ++ str_debug value ++ u " to " ++ display_target_session (target_session destination) ++ ellipsis)
               (request (λ number, TransferBetween number source value destination None) (λ _ a, a) a), None)
        end
  | action =>
      if empty then (a, Some (u "A non-empty label is required"))
      else
        match labelled_operation action value with
        | None => (a, None)
        | Some (operation, description, follow) => (run_operation operation description follow a, None)
        end
  end.
Definition handle_text_prompt_input (k : Machine) (st : FederationState) (key : N) (a : App) : App :=
  match text_prompt a with
  | None => a
  | Some p =>
      let a := a <| text_prompt := None |> in
      if (key =? 27)%N then a
      else if is_enter key then
        let '(a, refused) := submit_prompt k st p a in
        match refused with
        | Some why => a <| text_prompt := Some (p <| tp_error := Some why |>) |>
        | None => a
        end
      else a <| text_prompt := Some (prompt_key key p) |>
  end.

(** ** Agents *)

Record AgentJumpEntry := { je_pane : PaneId; je_agent : ustr; je_workspace : ustr; je_status : ustr; je_interactive_ready : bool }.
Definition agent_needs_attention (status : ustr) (interactive_ready : bool) : bool :=
  interactive_ready
  || one_of (to_ascii_lowercase status) ["blocked"; "waiting"; "waiting_for_input"; "needs_input"; "ready"]%string.
Definition agent_is_working (status : ustr) : bool :=
  one_of (to_ascii_lowercase status) ["working"; "running"; "busy"; "active"]%string.
Definition agent_priority (status : ustr) (interactive_ready : bool) : N :=
  if agent_needs_attention status interactive_ready then 0
  else if agent_is_working status then 1
  else if one_of (to_ascii_lowercase status) ["idle"; "completed"; "done"]%string then 3
  else 2.
Definition next_filter (f : AgentFilter) : AgentFilter :=
  match f with FilterAll => FilterAttention | FilterAttention => FilterActive | FilterActive => FilterAll end.
Definition passes (f : AgentFilter) (status : ustr) (interactive_ready : bool) : bool :=
  match f with
  | FilterAll => true
  | FilterAttention => agent_needs_attention status interactive_ready
  | FilterActive => agent_needs_attention status interactive_ready || agent_is_working status
  end.
Definition jump_entry (s : NormalizedSnapshot) (filter : AgentFilter) (agent : AgentState) : option AgentJumpEntry :=
  let pane := panes s !! ag_pane agent in
  let status := default (u "unknown") (or_else (ag_status agent) (pane ≫= pane_agent_status)) in
  let ready := default false (ag_interactive_ready agent) in
  if passes filter status ready then
    Some {|
      je_pane := ag_pane agent;
      je_agent := safe_text (default (resource (ag_pane agent))
                    (or_else (ag_name agent) (or_else (ag_agent agent) (pane ≫= pane_agent))));
      je_workspace :=
        match (p ← pane; w ← pane_workspace p; workspaces s !! w) with
        | Some w => display_label (resource (ws_id w)) (ws_label w)
        | None => u "unassigned"
        end;
      je_status := safe_text status;
      je_interactive_ready := ready |}
  else None.
Definition entry_key (e : AgentJumpEntry) : N * (ustr * (ustr * (ustr * ustr))) :=
  (agent_priority (je_status e) (je_interactive_ready e),
   (target (je_pane e), (session (je_pane e), (je_workspace e, je_agent e)))).
Definition entry_le (a b : AgentJumpEntry) : Prop := cmp_le (entry_key a) (entry_key b).
#[export] Instance entry_le_dec : RelDecision entry_le.
Proof. intros a b. unfold entry_le. apply _. Defined.
Definition agent_jump_entries (st : FederationState) (filter : AgentFilter) : list AgentJumpEntry :=
  stable_sort entry_le (live_snapshots st ≫= λ ks, omap (jump_entry ks.2 filter) (values (agents ks.2))).

Definition place (pane : PaneId) : ustr := target pane ++ u "/" ++ session pane.
Definition handle_agent_navigator_input (m : Moment) (st : FederationState) (key : N) (a : App) : App :=
  match agent_navigator a with
  | None => a
  | Some (filter, selected) =>
      let a := a <| agent_navigator := None |> in
      let listed := agent_jump_entries st filter in
      let back filter selected := a <| agent_navigator := Some (filter, min selected (length listed - 1)) |> in
      if bool_decide (key ∈ [113; 27]%N) then a
      else if (key =? 106)%N then back filter (if bool_decide (listed = []) then selected else min (S selected) (length listed - 1))
      else if (key =? 107)%N then back filter (pred selected)
      else if (key =? 102)%N then back (next_filter filter) 0
      else if is_enter key then
        match listed !! selected with
        | Some e => say (u "jumped to " ++ je_agent e ++ u " on " ++ place (je_pane e)) (select_pane m (je_pane e) a)
        | None => a
        end
      else back filter selected
  end.

(** ** Attention *)

Definition changed_attention (step : AttentionIndex * bool) (tell : ClientMessage) (a : App) : App :=
  let a := a <| attention := step.1 |> in
  if step.2 then send tell a else a.
Definition handle_attention_center_input (m : Moment) (st : FederationState) (key : N) (a : App) : App :=
  match attention_center a with
  | None => a
  | Some selected =>
      let a := a <| attention_center := None |> in
      let count := length (events (attention a)) in
      let back selected a := a <| attention_center := Some (min selected (length (events (attention a)) - 1)) |> in
      if bool_decide (key ∈ [113; 27]%N) then a
      else if (key =? 106)%N then back (if 0 <? count then min (S selected) (count - 1) else selected) a
      else if (key =? 107)%N then back (pred selected) a
      else if (key =? 114)%N then back selected (changed_attention (mark_all_seen (attention a)) MarkAllAttentionSeen a)
      else if (key =? 99)%N then back selected (changed_attention (clear_seen (attention a)) ClearSeenAttention a)
      else if is_enter key then
        match reverse (events (attention a)) !! selected with
        | Some e =>
            let who := safe_text (ev_agent e) ++ u " on " ++ place (ev_pane e) in
            if pane_is_live st (ev_pane e) then say (u "jumped to " ++ who) (select_pane m (ev_pane e) a)
            else say (who ++ u " is no longer live") (mark_attention_seen (ev_pane e) a)
        | None => back selected a
        end
      else back selected a
  end.

(** ** The target manager *)

(** What the manager asked for. *)
Definition manager_reloaded (ts : list Target) (selected : nat) (m : TargetManager) (said : ustr) (a : App) : App * TargetManager :=
  (say said (a <| configured_targets := ts |> <| configuration_dirty := true |>),
   m <| tm_targets := ts |> <| tm_selected := selected |> <| tm_mode := ManagerList |>).
Definition manager_effect (k : Machine) (effect : ManagerEffect) (m : TargetManager) (a : App) : option (App * TargetManager) :=
  match effect with
  | NothingElse => Some (a, m)
  | SaveTarget original_name saved =>
      if negb (has_config_path k) then Some (a, map_form (λ f, f <| tf_error := Some NoConfigPath |>) m)
      else
        match save_target k original_name saved with
        | Reloads ts =>
            Some (manager_reloaded ts (default 0 (position (named (tgt_name saved)) ts)) m
                    (u "saved target " ++ str_debug (tgt_name saved) ++ u "; refreshing federation") a)
        | Unchanged why => Some (a, map_form (λ f, f <| tf_error := Some (NotSaved why) |>) m)
        | Unreadable => None
        end
  | RemoveTarget name =>
      if negb (has_config_path k) then Some (say (u "configuration path is unavailable") a, m <| tm_mode := ManagerList |>)
      else
        match drop_target k name with
        | Reloads ts =>
            Some (manager_reloaded ts (min (tm_selected m) (length ts - 1)) m
                    (u "removed target " ++ str_debug name ++ u "; no Herdr session was touched") a)
        | Unchanged why => Some (say why a, m <| tm_mode := ManagerList |>)
        | Unreadable => None
        end
  | TestTarget _ => Some (a <| next_target_test_request ::= λ n, u64_saturating_add n 1 |>, m)
  end.
(** [None] ends the frontend: the configuration cannot be read. *)
Definition handle_target_manager_input (k : Machine) (key : N) (a : App) : option App :=
  match target_manager a with
  | None => Some a
  | Some m =>
      let a := a <| target_manager := None |> in
      let '(m, effect, closes) := target_manager_key (next_target_test_request a) key m in
      match manager_effect k effect m a with
      | Some (a, m) => Some (if closes then a else a <| target_manager := Some m |>)
      | None => None
      end
  end.

(** ** Clipboards *)

Definition paste_system_clipboard (k : Machine) (m : Moment) (st : FederationState) (a : App) : App :=
  match clipboard_text k with
  | Err error => say (u "clipboard paste unavailable: " ++ error) a
  | Ok [] => say (u "system clipboard contains no text") a
  | Ok text =>
      paste_text_into_selected m st text
        (u "pasted " ++ display_N (N.of_nat (length text)) ++ u " characters from system clipboard") a
  end.
Definition UPLOAD_CHUNK_BYTES : N := 512 * 1024.
(** [slice::chunks]; [fuel] bounds how many there are. *)
Fixpoint chunks (fuel : nat) (size : nat) (b : bytes) : list bytes :=
  match fuel, b with
  | S fuel, _ :: _ => take size b :: chunks fuel size (drop size b)
  | _, _ => []
  end.
(** [upload_media]: an offer, every chunk of it, and the digest of all of them. *)
Definition offer_upload (pane : PaneId) (mime : ustr) (name : option ustr) (b : bytes) (c : ClientCommands) : ClientCommands * N :=
  let '(c, number) := client_request (λ number, BeginUpload number pane mime name (N.of_nat (length b))) c in
  let sent := chunks (length b) (N.to_nat UPLOAD_CHUNK_BYTES) b in
  let c := foldl (λ c chunk, client_send (UploadChunk number chunk) c) c sent in
  (client_send (FinishUpload number (hex (sha256 (mjoin sent)))) c, number).
Definition send_paths (k : Machine) (pane : PaneId) (paths : list ustr) (a : App) : App :=
  send_local_files pane ((λ path, (path, inspect k path)) <$> paths) a.
Definition paste_clipboard_media (k : Machine) (st : FederationState) (a : App) : App :=
  let '(a, destination) := upload_destination st a in
  match destination with
  | Err message => say message a
  | Ok selected =>
      match client a with
      | None => say (u "clipboard upload routing is unavailable") a
      | Some c =>
          match clipboard_media k with
          | Ok (mime, b) =>
              let '(c, number) := offer_upload selected mime None b c in
              say (u "uploading " ++ mime ++ u " " ++ display_N (N.of_nat (length b)) ++ u " bytes" ++ ellipsis)
                (a <| client := Some c |> <| pending_uploads ::= <[number := {| pu_described := mime; pu_batch := None |}]> |>)
          | Err media_error =>
              match clipboard_files k with
              | [] => say (u "clipboard media unavailable: " ++ media_error) a
              | files => send_paths k selected files a
              end
          end
      end
  end.

(** ** Pairing *)

Definition decide_pairing (approval : PairingApproval) (approve : bool) (a : App) : App :=
  (match client a with
   | Some _ => say ((if approve then u "approving " else u "rejecting ") ++ pv_name approval ++ ellipsis)
                 (send (DecidePairing (pv_attempt approval) approve) a)
   | None => say (u "pairing approval is unavailable") a
   end) <| pairing_approval := None |>.
Definition handle_pairing_approval (approval : PairingApproval) (key : N) (a : App) : App :=
  if bool_decide (key ∈ [121; 89]%N) then decide_pairing approval true a
  else if bool_decide (key ∈ [110; 78; 27]%N) then decide_pairing approval false a
  else say (u "pairing approval: y approve" ++ middot ++ u "n reject") a.
Definition ask_pairing_code (a : App) : App :=
  match client a with
  | Some _ => say (u "asking the daemon for a pairing code" ++ ellipsis) (request RequestPairingCode (λ _ a, a) a)
  | None => say (u "pairing is unavailable") a
  end.

(** ** Keys *)

Definition PREFIX_KEY : N := 29.
Definition HERDR_PREFIX_KEY : N := 2.
Definition PREFIX_HELP : ustr :=
  u "prefix: Space actions, 1-9 workspace, p/n tab, j/k pane, d close workspace, a agents, e events, h hosts, v paste, i image, P pair a device, q quit, Ctrl+] literal".
Definition HERDR_HELP : ustr := u "Herdr Ctrl+B: h/j/k/l pane, p/n tab, 1-9 tab, c new tab, v/- split, z zoom".
Definition HERDR_UNKNOWN : ustr :=
  u "Herdr Ctrl+B chord is not exposed by Herdr's public API; press Ctrl+B ? for supported actions".
Definition is_digit_key (key : N) : bool := in_range 49 57 key.
Definition digit_index (key : N) : nat := N.to_nat (key - 49).
Definition create_tab_here (st : FederationState) (a : App) : App :=
  match selected_snapshot_and_pane st (selected_pane a) with
  | None => say (u "Herdr: no workspace is selected") a
  | Some (_, pane) =>
      match pane_workspace pane with
      | None => say (u "Herdr: selected pane has no workspace") a
      | Some workspace => run_operation (CreateTab workspace) (u "created tab") true a
      end
  end.
(** Characters are their codes: h, j, k, l, p, n, c, v, -, z, ?, Escape. *)
Definition handle_herdr_prefix (m : Moment) (st : FederationState) (key : N) (a : App) : App :=
  if (key =? 104)%N then select_neighbor_pane m st DirLeft a
  else if (key =? 106)%N then select_neighbor_pane m st DirDown a
  else if (key =? 107)%N then select_neighbor_pane m st DirUp a
  else if (key =? 108)%N then select_neighbor_pane m st DirRight a
  else if (key =? 112)%N then cycle_tab m st (-1) a
  else if (key =? 110)%N then cycle_tab m st 1 a
  else if is_digit_key key then select_tab_index m st (digit_index key) a
  else if (key =? 99)%N then create_tab_here st a
  else if (key =? 118)%N then run_selected_pane_operation (λ pane, SplitPane pane SplitRight) (u "split pane vertically") true a
  else if (key =? 45)%N then run_selected_pane_operation (λ pane, SplitPane pane SplitDown) (u "split pane horizontally") true a
  else if (key =? 122)%N then run_selected_pane_operation TogglePaneZoom (u "toggled pane zoom") false a
  else if (key =? 63)%N then say HERDR_HELP a
  else if (key =? 27)%N then a
  else say HERDR_UNKNOWN a.

Definition send_prefix (a : App) : App :=
  match selected_pane a with
  | Some pane => if controls a pane then send (PaneInput pane [PREFIX_KEY]) a else a
  | None => a
  end.
Definition next_sidebar (s : SidebarMode) : SidebarMode := match s with SidebarList => SidebarDiagram | SidebarDiagram => SidebarList end.
(** j, k, n, p, v, i, f, h, a, e, m, P, d, space. *)
Definition prefix_key (k : Machine) (m : Moment) (st : FederationState) (key : N) (a : App) : App :=
  if (key =? 106)%N then cycle_pane m st 1 a
  else if (key =? 107)%N then cycle_pane m st (-1) a
  else if (key =? 110)%N then cycle_tab m st 1 a
  else if (key =? 112)%N then cycle_tab m st (-1) a
  else if (key =? 118)%N then paste_system_clipboard k m st a
  else if (key =? 105)%N then paste_clipboard_media k st a
  else if (key =? 102)%N then open_send_file_prompt a
  else if (key =? 104)%N then a <| target_manager := Some (TargetManager_new (configured_targets a)) |>
  else if (key =? 97)%N then a <| agent_navigator := Some (FilterAttention, 0) |>
  else if (key =? 101)%N then a <| attention_center := Some 0 |>
  else if (key =? 109)%N then a <| sidebar_mode ::= next_sidebar |>
  else if (key =? 80)%N then ask_pairing_code a
  else if (key =? 100)%N then request_workspace_close st a
  else if (key =? 32)%N then
    ensure_plugin_catalogs m st a <| command_palette := Some {| cp_query := []; cp_selected := 0 |} |>
  else if is_digit_key key then select_workspace m st (digit_index key) a
  else if (key =? PREFIX_KEY)%N then send_prefix a
  else if (key =? 27)%N then a
  else say PREFIX_HELP a.

(** What a key leads to: the frontend, and whether it ends; [None] when it ends because the
    configuration cannot be read. *)
Definition going (a : App) : option (App * bool) := Some (a, false).
Definition mode_key (k : Machine) (m : Moment) (st : FederationState) (key : N) (a : App) : option (App * bool) :=
  match mode a with
  | ModeTerminal =>
      if (key =? PREFIX_KEY)%N then going (no_selection a <| mode := ModePrefix |>)
      else if (key =? HERDR_PREFIX_KEY)%N then going (no_selection a <| mode := ModeHerdrPrefix |>)
      else going (forward_pane_bytes st [key] a)
  | ModePrefix =>
      if (key =? 113)%N then Some (a, true)
      else going (prefix_key k m st key a <| mode := ModeTerminal |>)
  | ModeHerdrPrefix => going (handle_herdr_prefix m st key a <| mode := ModeTerminal |>)
  end.
Definition handle_input (k : Machine) (m : Moment) (st : FederationState) (key : N) (a : App) : option (App * bool) :=
  if bool_decide (is_Some (context_menu a)) then going (handle_context_menu_input m st key a)
  else if bool_decide (is_Some (close_confirmation a)) then going (handle_close_confirmation_input key a)
  else if bool_decide (is_Some (text_prompt a)) then going (handle_text_prompt_input k st key a)
  else if bool_decide (is_Some (command_palette a)) then going (handle_command_palette_input m st key a)
  else if bool_decide (is_Some (target_manager a)) then (λ a, (a, false)) <$> handle_target_manager_input k key a
  else
    match pairing_approval a with
    | Some approval => going (handle_pairing_approval approval key a)
    | None =>
        if bool_decide (is_Some (pairing a)) then going (a <| pairing := None |>)
        else if bool_decide (is_Some (agent_navigator a)) then going (handle_agent_navigator_input m st key a)
        else if bool_decide (is_Some (attention_center a)) then going (handle_attention_center_input m st key a)
        else mode_key k m st key a
    end.
Fixpoint handle_bytes (k : Machine) (m : Moment) (st : FederationState) (b : bytes) (a : App) : option (App * bool) :=
  match b with
  | [] => going a
  | key :: b =>
      match handle_input k m st key a with
      | Some (a, false) => handle_bytes k m st b a
      | ended => ended
      end
  end.

(** ** Sequences and pastes *)

Definition has_modal_overlay (a : App) : bool :=
  bool_decide (is_Some (context_menu a)) || bool_decide (is_Some (close_confirmation a)) || bool_decide (is_Some (text_prompt a))
  || bool_decide (is_Some (command_palette a)) || bool_decide (is_Some (target_manager a))
  || bool_decide (is_Some (pairing_approval a)) || bool_decide (is_Some (pairing a)) || bool_decide (is_Some (agent_navigator a))
  || bool_decide (is_Some (attention_center a)).
(** Up and down. *)
Definition navigation_key (b : bytes) : option N :=
  if bool_decide (b = [27; 91; 65]%N) then Some 16%N else if bool_decide (b = [27; 91; 66]%N) then Some 14%N else None.
Definition navigates (a : App) : bool :=
  bool_decide (is_Some (command_palette a)) || bool_decide (is_Some (context_menu a)) || bool_decide (is_Some (target_manager a)).
Definition decoded_bytes (k : Machine) (m : Moment) (st : FederationState) (b : bytes) (a : App) : option (App * bool) :=
  match (if navigates a then navigation_key b else None) with
  | Some key => handle_input k m st key a
  | None =>
      if (1 <? length b) && bool_decide (mode a = ModeTerminal) && negb (has_modal_overlay a)
      then going (forward_pane_bytes st b a)
      else handle_bytes k m st b a
  end.
Definition paste_blocked (a : App) : bool :=
  negb (bool_decide (mode a = ModeTerminal)) || bool_decide (is_Some (target_manager a)) || bool_decide (is_Some (agent_navigator a))
  || bool_decide (is_Some (pairing a)) || bool_decide (is_Some (attention_center a)) || bool_decide (is_Some (command_palette a))
  || bool_decide (is_Some (context_menu a)) || bool_decide (is_Some (text_prompt a)) || bool_decide (is_Some (close_confirmation a)).
Definition decoded_paste (k : Machine) (m : Moment) (st : FederationState) (b : bytes) (a : App) : App :=
  if paste_blocked a then say (u "close the active Super-Herdr dialog before pasting") a
  else
    match from_utf8 b with
    | None => say (u "terminal paste was not valid UTF-8; paste not sent") a
    | Some text =>
        match dropped_files (home k) (is_file k) text with
        | [] =>
            paste_text_into_selected m st text
              (u "pasted " ++ display_N (N.of_nat (length text)) ++ u " characters from terminal clipboard") a
        | files =>
            let '(a, destination) := upload_destination st a in
            match destination with
            | Err message => say message a
            | Ok pane =>
                match client a with
                | Some _ => send_paths k pane files a
                | None => say (u "file routing is unavailable") a
                end
            end
        end
    end.
Definition paste_too_large (a : App) : App := say (u "terminal paste exceeded the 1 MiB limit; paste not sent") a.
End keys.
