(* ===== verification/TuiKeysFacts.v ===== *)
(** What the frontend may send: nothing is typed into a pane it does not control, nothing is
    closed that was not confirmed, and one operation runs at a time. *)

From S2P Require Import Prelude Text Net Model State Attention AgentMarks AgentCards Config Screen Operation Protocol Pairing FileSave HerdrSupport TuiInput TuiLayout TuiSelection TuiActions TuiTargets TuiPaste TuiApp TuiAppFacts TuiEvents TuiKeys.

(** ** What each step of the frontend sends *)

Section steps.
Context `{VtModes} `{UnicodeTables} `{Sha256}.
Implicit Types a b : App.

(** Messages that reach no terminal, no operation and no pairing. *)
Definition harmless (m : ClientMessage) : bool :=
  match m with
  | MarkAttentionSeen _ | MarkAllAttentionSeen | ClearSeenAttention | ListPluginActions _ _ | RequestPairingCode _
  | MarkAgent _ _ _ | BeginDownload _ _ _ | Protocol.CancelDownload _ | Protocol.PullDownload _ _ | TransferBetween _ _ _ _ _
  | UploadChunk _ _ | FinishUpload _ _ => true
  | _ => false
  end.
Context (P : ClientMessage → Prop) (harmless_P : ∀ m, harmless m = true → P m).
#[local] Hint Extern 1 (P _) => apply harmless_P; reflexivity : core.

Lemma sends_mark_attention_seen pane a b : Sends P a b → Sends P a (mark_attention_seen pane b).
Proof. intros Hs. unfold mark_attention_seen. sends. Qed.
Lemma sends_select_pane m pane a b : Sends P a b → Sends P a (select_pane m pane b).
Proof.
  intros Hs. unfold select_pane.
  assert (∀ c, Sends P a c → Sends P a (match state_store c with
    | Some _ => if stores m then c <| state_store := Some (Some pane) |> else say (u "failed to persist the selected pane") c
    | None => c end)) as Hstore by (intros c ?; sends).
  apply Hstore, sends_mark_attention_seen. sends.
Qed.
Lemma sends_cycle_pane m st direction a b : Sends P a b → Sends P a (cycle_pane m st direction b).
Proof. intros Hs. unfold cycle_pane. sends. apply sends_select_pane. sends. Qed.
Lemma sends_select_tab m s tab a b : Sends P a b → Sends P a (select_tab m s tab b).
Proof. intros Hs. unfold select_tab. sends; by apply sends_select_pane. Qed.
Lemma sends_cycle_tab m st direction a b : Sends P a b → Sends P a (cycle_tab m st direction b).
Proof. intros Hs. unfold cycle_tab. sends. by apply sends_select_tab. Qed.
Lemma sends_select_tab_index m st index a b : Sends P a b → Sends P a (select_tab_index m st index b).
Proof. intros Hs. unfold select_tab_index. sends. by apply sends_select_tab. Qed.
Lemma sends_select_workspace m st index a b : Sends P a b → Sends P a (select_workspace m st index b).
Proof. intros Hs. unfold select_workspace. sends. by apply sends_select_tab. Qed.
Lemma sends_select_neighbor m st direction a b : Sends P a b → Sends P a (select_neighbor_pane m st direction b).
Proof. intros Hs. unfold select_neighbor_pane. sends. by apply sends_select_pane. Qed.
Lemma sends_plugin_catalog m st key a b : Sends P a b → Sends P a (ensure_plugin_catalog m st key b).
Proof. intros Hs. unfold ensure_plugin_catalog. sends. Qed.
Lemma sends_plugin_catalogs m st a b : Sends P a b → Sends P a (ensure_plugin_catalogs m st b).
Proof.
  intros Hs. unfold ensure_plugin_catalogs. apply sends_foldl; [|sends].
  intros c key. by apply sends_plugin_catalog, sends_same.
Qed.

(** An operation goes out only when none is in flight. *)
Lemma sends_run_operation op description follow a b :
  (herdr_action_inflight b = false → ∀ number, P (RunOperation number op)) → Sends P a b →
  Sends P a (run_operation op description follow b).
Proof. intros Hop Hs. unfold run_operation. sends. Qed.
Lemma sends_selected_operation build description follow a b :
  (herdr_action_inflight b = false → ∀ pane number, P (RunOperation number (build pane))) → Sends P a b →
  Sends P a (run_selected_pane_operation build description follow b).
Proof. intros Hop Hs. unfold run_selected_pane_operation. sends; by apply sends_run_operation; auto. Qed.

(** ** Typing and files *)

(** What the pane that is selected, and controlled, may be sent. *)
Definition typing a (Q : PaneId → Prop) : Prop := ∀ pane, selected_pane a = Some pane → controls a pane = true → Q pane.

Lemma sends_forward st payload a b :
  typing b (λ pane, P (PaneInput pane payload)) → Sends P a b → Sends P a (forward_pane_bytes st payload b).
Proof.
  intros HP Hs. unfold forward_pane_bytes, drop_stale_route. cbv zeta. sends.
  match goal with E : _ && _ = true |- _ => apply andb_prop in E as [? _] end. by apply HP.
Qed.
Lemma paste_route_controls st b pane route :
  paste_route st b = inl (pane, route) → selected_pane b = Some pane ∧ controls b pane = true.
Proof.
  unfold paste_route, controls, drop_stale_route. intros Hp. repeat case_match; simplify_eq/=.
  match goal with E : negb ?x = false |- _ => by apply negb_false_iff in E end.
Qed.
Lemma sends_paste_route st a b c : paste_route st b = inr c → Sends P a b → Sends P a c.
Proof. unfold paste_route, drop_stale_route. intros Hp Hs. repeat case_match; simplify_eq; sends. Qed.
Lemma sends_paste m st text feedback a b :
  typing b (λ pane, (∀ payload, P (PaneInput pane payload)) ∧ ∀ number, P (PastePaneText number pane text)) →
  Sends P a b → Sends P a (paste_text_into_selected m st text feedback b).
Proof.
  intros HP Hs. unfold paste_text_into_selected, show_feedback.
  destruct (paste_route st b) as [[pane route]|c] eqn:Hp.
  - destruct (paste_route_controls _ _ _ _ Hp) as [Hsel Hcon]. destruct (HP pane Hsel Hcon). sends.
  - pose proof (sends_paste_route _ _ _ _ Hp Hs). sends.
Qed.

Lemma upload_destination_ok st b c pane :
  upload_destination st b = (c, Ok pane) → c = b ∧ selected_pane b = Some pane ∧ controls b pane = true.
Proof.
  unfold upload_destination, controls. intros Hu. repeat case_match; simplify_eq/=. split_and!; [done..|].
  match goal with E : negb ?x = false |- _ => by apply negb_false_iff in E end.
Qed.
Lemma sends_upload_destination st a b c r : upload_destination st b = (c, r) → Sends P a b → Sends P a c.
Proof. unfold upload_destination. intros Hu Hs. repeat case_match; simplify_eq; sends. Qed.
Lemma sends_local_files pane files a b :
  (∀ number mime name length_, P (BeginUpload number pane mime name length_)) → Sends P a b →
  Sends P a (send_local_files pane files b).
Proof.
  intros HP Hs. unfold send_local_files. destruct (inspected files) as [offered|]; [|sends]. cbv zeta.
  apply (sends_around _ _ _ (say _)); [reflexivity|]. sends_step. apply sends_foldl; [|sends].
  intros c [position [name length_]]. unfold offer_file. sends.
Qed.
Lemma sent_chunks number l c :
  cc_sent (foldl (λ c chunk, client_send (UploadChunk number chunk) c) c l) = cc_sent c ++ (UploadChunk number <$> l).
Proof.
  revert c. induction l as [|x l IH]; intros c; simpl; [by rewrite app_nil_r|]. rewrite IH. simpl. by rewrite <-app_assoc.
Qed.
Lemma sends_offer_upload pane mime name payload a b c c' number :
  (∀ number mime name length_, P (BeginUpload number pane mime name length_)) → Sends P a b → client b = Some c →
  offer_upload pane mime name payload c = (c', number) → Sends P a (b <| client := Some c' |>).
Proof.
  intros HP Hs Hc Ho. eapply sends_trans; [exact Hs|]. split; [simpl; rewrite Hc; split; eauto|].
  unfold offer_upload in Ho. cbn -[foldl] in Ho. injection Ho as <- <-.
  unfold sent. simpl. rewrite Hc, sent_chunks. simpl. eexists. rewrite <-!app_assoc. split; [reflexivity|].
  constructor; [done|]. apply Forall_app_2; [|constructor; auto]. apply Forall_fmap, Forall_true. intros chunk. by apply harmless_P.
Qed.

(** ** Dialogs and keys *)

(** Operations that close nothing, while none is in flight. *)
Definition operating b (Q : Operation → Prop) : Prop :=
  ∀ op, is_destructive op = false → herdr_action_inflight b = false → Q op.

Lemma sends_prompt title label action a b : Sends P a b → Sends P a (prompt title label action b).
Proof. intros Hs. unfold prompt. sends. Qed.
Lemma sends_cancel_save a b : Sends P a b → Sends P a (cancel_file_save b).
Proof. intros Hs. unfold cancel_file_save. sends. Qed.
Lemma sends_move st w d l dl a b :
  operating b (λ op, ∀ number, P (RunOperation number op)) → Sends P a b → Sends P a (spawn_workspace_move st w d l dl b).
Proof. intros HP Hs. unfold spawn_workspace_move. sends. apply sends_run_operation; [intros ? ?; by apply HP|done]. Qed.
Lemma sends_recreate st w d l a b :
  operating b (λ op, ∀ number, P (RunOperation number op)) → Sends P a b → Sends P a (spawn_workspace_recreate st w d l b).
Proof. intros HP Hs. unfold spawn_workspace_recreate. sends. apply sends_run_operation; [intros ? ?; by apply HP|done]. Qed.
Ltac sends_call :=
  lazymatch goal with
  | |- Sends _ _ (select_pane _ _ _) => apply sends_select_pane; sends
  | |- Sends _ _ (spawn_workspace_move _ _ _ _ _ _) => apply sends_move; [assumption|sends]
  | |- Sends _ _ (spawn_workspace_recreate _ _ _ _ _) => apply sends_recreate; [assumption|sends]
  | |- Sends _ _ (cancel_file_save _) => apply sends_cancel_save; sends
  | |- Sends _ _ (prompt _ _ _ _) => apply sends_prompt; sends
  | HP : operating _ _ |- Sends _ _ (run_operation _ _ _ _) => apply sends_run_operation; [intros ? ?; by apply HP|sends]
  end.
Lemma sends_execute m st action a b :
  operating b (λ op, ∀ number, P (RunOperation number op)) → Sends P a b → Sends P a (execute_resource_action m st action b).
Proof.
  intros HP Hs. unfold execute_resource_action. sends_step; [sends|].
  destruct action; cbv zeta; sends.
  all: sends_call.
Qed.

Lemma sends_palette m st key a b :
  operating b (λ op, ∀ number, P (RunOperation number op)) → Sends P a b → Sends P a (handle_command_palette_input m st key b).
Proof. intros HP Hs. unfold handle_command_palette_input. sends. apply sends_execute; [done|sends]. Qed.
Lemma sends_context_menu m st key a b :
  operating b (λ op, ∀ number, P (RunOperation number op)) → Sends P a b → Sends P a (handle_context_menu_input m st key b).
Proof. intros HP Hs. unfold handle_context_menu_input. sends. apply sends_execute; [done|sends]. Qed.
Lemma labelled_not_destructive action value op description follow :
  labelled_operation action value = Some (op, description, follow) → is_destructive op = false.
Proof. unfold labelled_operation. by destruct action; intros [= <- _ _]. Qed.
Lemma sends_labelled action value (why : ustr) b c (refused : option ustr) a :
  operating b (λ op, ∀ number, P (RunOperation number op)) → Sends P a b →
  (if bool_decide (value = []) then (b, Some why)
   else match labelled_operation action value return App * option ustr with
        | None => (b, None)
        | Some (op, description, follow) => (run_operation op description follow b, None)
        end) = (c, refused) → Sends P a c.
Proof.
  intros Hop Hs Hc. case_bool_decide; [by injection Hc as <- _|].
  destruct (labelled_operation action value) as [[[op description] follow]|] eqn:Hl; injection Hc as <- _; [|exact Hs].
  apply sends_run_operation; [|exact Hs]. intros Hin. by apply Hop; [eapply labelled_not_destructive|].
Qed.
Lemma sends_submit k st p a b c refused :
  operating b (λ op, ∀ number, P (RunOperation number op)) →
  typing b (λ pane, ∀ number mime name length_, P (BeginUpload number pane mime name length_)) →
  submit_prompt k st p b = (c, refused) → Sends P a b → Sends P a c.
Proof.
  intros Hop Hty Hsub Hs. unfold submit_prompt in Hsub. cbv zeta in Hsub. destruct (tp_action p) eqn:Hact.
  3: { destruct (upload_destination st b) as [d r] eqn:Hu. pose proof (sends_upload_destination _ _ _ _ _ Hu Hs) as Hd.
       destruct (bool_decide _); [by injection Hsub as <- _|]. destruct r as [pane'|]; [|by injection Hsub as <- _].
       apply upload_destination_ok in Hu as (-> & Hsel & Hcon). pose proof (Hty pane' Hsel Hcon).
       destruct (client b); injection Hsub as <- _; [|exact Hs]. by apply sends_local_files. }
  3-5: by eapply sends_labelled.
  all: destruct (bool_decide _); [by injection Hsub as <- _|]; destruct (client b); [|by injection Hsub as <- _].
  - destruct (bool_decide _); injection Hsub as <- _; [exact Hs|]. sends.
  - injection Hsub as <- _. sends.
Qed.
Lemma sends_text_prompt k st key a b :
  operating b (λ op, ∀ number, P (RunOperation number op)) →
  typing b (λ pane, ∀ number mime name length_, P (BeginUpload number pane mime name length_)) →
  Sends P a b → Sends P a (handle_text_prompt_input k st key b).
Proof.
  intros Hop Hty Hs. unfold handle_text_prompt_input. destruct (text_prompt b) as [p|]; [|exact Hs]. cbv zeta.
  destruct (key =? 27)%N; [sends|]. destruct (is_enter key); [|sends].
  destruct (submit_prompt k st p (b <| text_prompt := None |>)) as [c refused] eqn:Hsub.
  assert (Sends P a c) by (eapply sends_submit; [| |exact Hsub|sends]; assumption). sends.
Qed.

(** Closing takes a confirmation, and the key that gives it. *)
Lemma sends_confirmation key a b :
  (herdr_action_inflight b = false → key = 121%N → ∀ action op description, close_confirmation b = Some action →
   confirmed_operation action = Some (op, description) → ∀ number, P (RunOperation number op)) →
  Sends P a b → Sends P a (handle_close_confirmation_input key b).
Proof.
  intros HP Hs. unfold handle_close_confirmation_input. destruct (close_confirmation b) as [action|] eqn:Hc; [|exact Hs]. cbv zeta.
  destruct (key =? 121)%N eqn:Hk; [|sends]. apply N.eqb_eq in Hk.
  destruct (confirmed_operation action) as [[op description]|] eqn:Hop; [|sends].
  apply sends_run_operation; [|sends]. intros Hin. by eapply HP.
Qed.

Lemma manager_effect_client k effect tm b d tm' : manager_effect k effect tm b = Some (d, tm') → client d = client b.
Proof.
  unfold manager_effect, manager_reloaded.
  destruct effect as [|original_name saved|name|tested]; [| | |by intros [= <- <-]].
  - by intros [= <- <-].
  - destruct (has_config_path k); simpl; [|by intros [= <- <-]]. destruct (save_target k original_name saved); by intros [= <- <-].
  - destruct (has_config_path k); simpl; [|by intros [= <- <-]]. destruct (drop_target k name); by intros [= <- <-].
Qed.
Lemma sends_target_manager k key a b c : Sends P a b → handle_target_manager_input k key b = Some c → Sends P a c.
Proof.
  intros Hs Hc. unfold handle_target_manager_input in Hc. destruct (target_manager b) as [tm|]; [|by injection Hc as <-].
  cbv zeta in Hc. destruct (target_manager_key _ key tm) as [[tm' effect] closes].
  assert (∀ d tm'', manager_effect k effect tm' (b <| target_manager := None |>) = Some (d, tm'') → Sends P a d) as Heffect.
  { intros d tm'' Hd. apply manager_effect_client in Hd. eapply sends_trans; [exact Hs|]. by apply sends_same. }
  destruct (manager_effect _ _ _ _) as [[d tm'']|] eqn:He; [|done]. pose proof (Heffect _ _ eq_refl).
  apply (inj Some) in Hc. subst c. sends.
Qed.
Lemma sends_navigator m st key a b : Sends P a b → Sends P a (handle_agent_navigator_input m st key b).
Proof. intros Hs. unfold handle_agent_navigator_input. sends. all: apply sends_select_pane; sends. Qed.
Lemma sends_changed_attention step tell a b : harmless tell = true → Sends P a b → Sends P a (changed_attention step tell b).
Proof. intros Ht Hs. unfold changed_attention. pose proof (harmless_P _ Ht). sends. Qed.
Lemma sends_attention_center m st key a b : Sends P a b → Sends P a (handle_attention_center_input m st key b).
Proof.
  intros Hs. unfold handle_attention_center_input. sends.
  all: first [apply sends_changed_attention; [done|sends]|apply sends_select_pane; sends|apply sends_mark_attention_seen; sends].
Qed.

Lemma sends_pairing approval key a b :
  (∀ approve, (approve = true → key ∈ [121; 89]%N) → P (DecidePairing (pv_attempt approval) approve)) → Sends P a b →
  Sends P a (handle_pairing_approval approval key b).
Proof.
  intros HP Hs. unfold handle_pairing_approval, decide_pairing.
  destruct (bool_decide (key ∈ [121; 89]%N)) eqn:Hy.
  - apply bool_decide_eq_true in Hy. pose proof (HP true (λ _, Hy)). sends.
  - assert (P (DecidePairing (pv_attempt approval) false)) by by apply HP. sends.
Qed.

Lemma sends_herdr_prefix m st key a b :
  operating b (λ op, ∀ number, P (RunOperation number op)) → Sends P a b → Sends P a (handle_herdr_prefix m st key b).
Proof.
  intros HP Hs. unfold handle_herdr_prefix, create_tab_here. sends.
  all: lazymatch goal with
       | |- Sends _ _ (select_neighbor_pane _ _ _ _) => apply sends_select_neighbor; sends
       | |- Sends _ _ (cycle_tab _ _ _ _) => apply sends_cycle_tab; sends
       | |- Sends _ _ (select_tab_index _ _ _ _) => apply sends_select_tab_index; sends
       | |- Sends _ _ (run_operation _ _ _ _) => apply sends_run_operation; [intros ? ?; by apply HP|sends]
       | |- Sends _ _ (run_selected_pane_operation _ _ _ _) => apply sends_selected_operation; [intros ? ? ?; by apply HP|sends]
       end.
Qed.

Lemma sends_system_clipboard k m st a b :
  typing b (λ pane, (∀ payload, P (PaneInput pane payload)) ∧ ∀ number text, P (PastePaneText number pane text)) →
  Sends P a b → Sends P a (paste_system_clipboard k m st b).
Proof.
  intros HP Hs. unfold paste_system_clipboard. destruct (clipboard_text k) as [[|c text]|]; sends.
  apply sends_paste; [|exact Hs]. intros pane Hsel Hcon. destruct (HP pane Hsel Hcon). auto.
Qed.
Lemma sends_clipboard_media k st a b :
  typing b (λ pane, ∀ number mime name length_, P (BeginUpload number pane mime name length_)) →
  Sends P a b → Sends P a (paste_clipboard_media k st b).
Proof.
  intros HP Hs. unfold paste_clipboard_media. destruct (upload_destination st b) as [c r] eqn:Hu.
  pose proof (sends_upload_destination _ _ _ _ _ Hu Hs). destruct r as [pane|]; [|sends].
  apply upload_destination_ok in Hu as (-> & Hsel & Hcon). pose proof (HP pane Hsel Hcon).
  destruct (client b) as [c|] eqn:Hc; [|sends]. destruct (clipboard_media k) as [[mime payload]|].
  - destruct (offer_upload pane mime None payload c) as [c' number] eqn:Ho.
    apply (sends_around _ _ _ (say _)); [reflexivity|]. apply (sends_around _ _ _ (set_field pending_uploads _)); [reflexivity|].
    by eapply sends_offer_upload.
  - destruct (clipboard_files k); [sends|]. by apply sends_local_files.
Qed.

Lemma sends_prefix k m st key a b :
  typing b (λ pane, (∀ payload, P (PaneInput pane payload)) ∧ ∀ number text, P (PastePaneText number pane text)) →
  typing b (λ pane, ∀ number mime name length_, P (BeginUpload number pane mime name length_)) →
  Sends P a b → Sends P a (prefix_key k m st key b).
Proof.
  intros Hty Hup Hs. unfold prefix_key, open_send_file_prompt, ask_pairing_code, send_prefix, request_workspace_close. sends.
  all: lazymatch goal with
       | |- Sends _ _ (cycle_pane _ _ _ _) => apply sends_cycle_pane; sends
       | |- Sends _ _ (cycle_tab _ _ _ _) => apply sends_cycle_tab; sends
       | |- Sends _ _ (prompt _ _ _ _) => apply sends_prompt; sends
       | |- Sends _ _ (paste_system_clipboard _ _ _ _) => by apply sends_system_clipboard
       | |- Sends _ _ (paste_clipboard_media _ _ _) => by apply sends_clipboard_media
       | |- Sends _ _ (ensure_plugin_catalogs _ _ _) => apply sends_plugin_catalogs; sends
       | |- Sends _ _ (select_workspace _ _ _ _) => apply sends_select_workspace; sends
       | |- P _ => idtac
       end.
  by apply Hty.
Qed.
Lemma sends_dropped k m st payload a b :
  typing b (λ pane, (∀ payload, P (PaneInput pane payload)) ∧ ∀ number text, P (PastePaneText number pane text)) →
  typing b (λ pane, ∀ number mime name length_, P (BeginUpload number pane mime name length_)) →
  Sends P a b → Sends P a (decoded_paste k m st payload b).
Proof.
  intros Hty Hup Hs. unfold decoded_paste. destruct (paste_blocked b); [sends|]. destruct (from_utf8 payload) as [text|]; [|sends].
  destruct (dropped_files _ _ text) as [|file files].
  - apply sends_paste; [|exact Hs]. intros pane Hsel Hcon. destruct (Hty pane Hsel Hcon). auto.
  - destruct (upload_destination st b) as [c r] eqn:Hu.
    pose proof (sends_upload_destination _ _ _ _ _ Hu Hs). destruct r as [pane|]; [|sends].
    apply upload_destination_ok in Hu as (-> & Hsel & Hcon). pose proof (Hup pane Hsel Hcon).
    destruct (client b); [|sends]. by apply sends_local_files.
Qed.
End steps.

(** ** What may be sent *)

Section may_send.
Context `{VtModes} `{UnicodeTables} `{Sha256}.
Implicit Types a : App.

(** What a key may send, from the state it is pressed in. *)
Definition key_may_send (key : N) a (m : ClientMessage) : Prop :=
  match m with
  | PaneInput pane _ | PastePaneText _ pane _ | BeginUpload _ pane _ _ _ => selected_pane a = Some pane ∧ controls a pane = true
  | RunOperation _ op =>
      herdr_action_inflight a = false
      ∧ (is_destructive op = true →
         key = 121%N ∧ ∃ action description, close_confirmation a = Some action ∧ confirmed_operation action = Some (op, description))
  | DecidePairing attempt approve =>
      ∃ approval, pairing_approval a = Some approval ∧ pv_attempt approval = attempt ∧ (approve = true → key ∈ [121; 89]%N)
  | m => harmless m = true
  end.
Lemma harmless_may key a m : harmless m = true → key_may_send key a m.
Proof. by destruct m. Qed.
#[local] Hint Resolve harmless_may : core.
Lemma operating_may key a : operating a (λ op, ∀ number, key_may_send key a (RunOperation number op)).
Proof. intros op Hd Hin number. split; [exact Hin|]. by rewrite Hd. Qed.
Lemma typing_may key a :
  typing a (λ pane, (∀ payload, key_may_send key a (PaneInput pane payload)) ∧ ∀ number text, key_may_send key a (PastePaneText number pane text)).
Proof. intros pane Hsel Hcon. split; intros; by split. Qed.
Lemma uploading_may key a :
  typing a (λ pane, ∀ number mime name length_, key_may_send key a (BeginUpload number pane mime name length_)).
Proof. intros pane Hsel Hcon. intros. by split. Qed.

Lemma handled_as {A} (a b : A) (ends ends' : bool) : Some (a, ends) = Some (b, ends') → a = b.
Proof. by intros [= -> _]. Qed.
Tactic Notation "handled" hyp(Hk) := apply handled_as in Hk; subst.
(** With no dialog open. *)
Lemma mode_key_may k m st key a a' ends : mode_key k m st key a = Some (a', ends) → Sends (key_may_send key a) a a'.
Proof.
  intros Hk. pose proof (sends_same (key_may_send key a) a a eq_refl) as Hs. unfold mode_key, going in Hk.
  destruct (mode a).
  - destruct (key =? PREFIX_KEY)%N; [handled Hk; sends|]. destruct (key =? HERDR_PREFIX_KEY)%N; [handled Hk; sends|]. handled Hk.
    apply sends_forward; [|exact Hs]. intros pane Hsel Hcon. by split.
  - destruct (key =? 113)%N; [by handled Hk|]. handled Hk.
    sends. apply sends_prefix; [apply harmless_may|apply typing_may|apply uploading_may|exact Hs].
  - handled Hk. sends. apply sends_herdr_prefix; [apply harmless_may|apply operating_may|exact Hs].
Qed.

End may_send.

(** ** Typing a character in several bytes *)

Section typed_text.
Context `{VtModes} `{UnicodeTables} `{Sha256}.

(** A proper start of a character's bytes spells nothing, and ends early. *)
Lemma start_spells_nothing c start rest :
  is_scalar c → utf8_char c = start ++ rest → start ≠ [] → rest ≠ [] → from_utf8 start = None.
Proof.
  intros Hc Heq Hs Hr. destruct (from_utf8 start) as [s|] eqn:Hf; [|done]. exfalso.
  unfold from_utf8 in Hf. destruct (utf8_decode _ start) as [s'|]; [|done].
  destruct (forallb is_scalar s' && bool_decide (utf8 s' = start)) eqn:Hb; [|done]. injection Hf as ->.
  apply andb_prop in Hb as [Hall%Is_true_eq_left%forallb_True Hu%bool_decide_eq_true]. destruct s as [|d s]; [by apply Hs|].
  apply Forall_cons in Hall as [Hd _]. unfold utf8 in Hu. csimpl in Hu.
  assert (utf8_head (utf8_char c ++ []) = utf8_head (utf8_char d ++ ((s ≫= utf8_char) ++ rest))) as Hh.
  { by rewrite app_nil_r, Heq, <-Hu, app_assoc. }
  rewrite !utf8_head_char in Hh by (apply is_scalar_lt; done). injection Hh as _ Hnil. symmetry in Hnil.
  apply app_eq_nil in Hnil as [_ ?]. done.
Qed.
Ltac ranges := unfold open_char, second_byte, in_range; repeat case_match;
  rewrite ?andb_true_iff, ?N.leb_le; rewrite ?N.eqb_eq, ?N.eqb_neq in *; repeat split; zify; Z.to_euclidean_division_equations; lia.
Lemma start_is_open c start rest :
  is_scalar c → utf8_char c = start ++ rest → start ≠ [] → rest ≠ [] → open_char start = true ∧ length start < 4.
Proof.
  intros Hc Heq Hs Hr. unfold is_scalar in Hc.
  assert ((c < 55296 ∨ 57344 ≤ c < 1114112)%N) as Hrange.
  { destruct (N.ltb_spec c 55296); [by left|]. destruct (N.leb_spec 57344 c), (N.ltb_spec c 1114112); simpl in Hc; try done. by right. }
  clear Hc. unfold utf8_char in Heq. destruct start as [|b0 start]; [done|].
  destruct (N.leb_spec c 127); [injection Heq as -> Heq; symmetry in Heq; apply app_eq_nil in Heq as [_ ?]; done|].
  destruct (N.leb_spec c 2047).
  { destruct start as [|b1 [|? ?]]; simplify_eq/=. split; [ranges|lia]. }
  destruct (N.leb_spec c 65535).
  { destruct start as [|b1 [|b2 [|? ?]]]; simplify_eq/=. 1,2: split; [ranges|lia]. }
  destruct start as [|b1 [|b2 [|b3 [|? ?]]]]; simplify_eq/=. all: split; [ranges|lia].
Qed.

Definition type_bytes (b : bytes) (p : TextPrompt) : TextPrompt := foldl (λ p key, prompt_key key p) p b.
Lemma prompt_key_high key p : (128 <= key)%N → prompt_key key p = prompt_byte key p.
Proof.
  intros Hk. unfold prompt_key, printable. rewrite bool_decide_eq_false_2 by (intros Hin; set_unfold; lia).
  destruct (N.eqb_spec key 21); [lia|]. destruct (N.leb_spec key 126); [lia|]. rewrite andb_false_r.
  by destruct (N.leb_spec 128 key); [|lia].
Qed.
(** The bytes so far of a character are held. *)
Lemma type_start c start rest p :
  is_scalar c → (128 <= c)%N → utf8_char c = start ++ rest → rest ≠ [] → tp_partial p = [] →
  tp_partial (type_bytes start p) = start ∧ tp_value (type_bytes start p) = tp_value p.
Proof.
  intros Hc Hhigh Heq Hr Hp. revert rest Heq Hr. induction start as [|b start IH] using rev_ind; intros rest Heq Hr; [done|].
  destruct (IH ([b] ++ rest)) as [IHp IHv]; [by rewrite Heq, <-app_assoc|done|].
  unfold type_bytes in *. rewrite foldl_snoc. set (q := foldl _ p start) in *.
  assert (128 <= b)%N as Hb.
  { pose proof (utf8_char_high c Hhigh) as Hall. rewrite Heq in Hall. apply Forall_app in Hall as [Hall _].
    apply Forall_app in Hall as [_ Hall]. by apply Forall_cons in Hall as [? _]. }
  rewrite prompt_key_high by done. unfold prompt_byte. rewrite IHp.
  rewrite (start_spells_nothing c (start ++ [b]) rest) by (done || by destruct start).
  destruct (start_is_open c (start ++ [b]) rest) as [Hopen Hlen]; [done|done|by destruct start|done|].
  assert (ends_early (start ++ [b]) = true) as ->.
  { unfold ends_early. apply existsb_exists. exists 0. split; [apply in_seq; rewrite length_app; simpl; lia|].
    rewrite drop_0, Hopen. done. }
  destruct (Nat.ltb_spec (length (start ++ [b])) 4); [|lia]. done.
Qed.
Lemma type_char c p :
  is_scalar c → printable c = true ∨ (128 <= c)%N → tp_partial p = [] →
  tp_partial (type_bytes (utf8_char c) p) = [] ∧ tp_value (type_bytes (utf8_char c) p) = tp_value p ++ [c].
Proof.
  intros Hc [Hprint|Hhigh] Hp.
  - pose proof Hprint as [Hl%N.leb_le Hu%N.leb_le]%andb_prop. unfold utf8_char. destruct (N.leb_spec c 127); [|lia].
    unfold type_bytes, prompt_key. simpl. rewrite bool_decide_eq_false_2 by (intros Hin; set_unfold; lia).
    destruct (N.eqb_spec c 21); [lia|]. by rewrite Hprint.
  - destruct (utf8_char c) as [|b start _] eqn:E using rev_ind; [unfold utf8_char in E; by repeat case_match|].
    assert (128 <= b)%N as Hb.
    { pose proof (utf8_char_high c Hhigh) as Hall. rewrite E in Hall. apply Forall_app in Hall as [_ Hall].
      by apply Forall_cons in Hall as [? _]. }
    destruct (type_start c start [b] p) as [Hsp Hsv]; [done..|].
    unfold type_bytes in *. rewrite foldl_snoc. set (q := foldl _ p start) in *.
    rewrite prompt_key_high by done. unfold prompt_byte. rewrite Hsp, <-E.
    assert (from_utf8 (utf8_char c) = Some [c]) as ->.
    { pose proof (from_utf8_utf8 [c]) as Hf. unfold utf8 in Hf. csimpl in Hf. rewrite app_nil_r in Hf. apply Hf. by constructor. }
    simpl. by rewrite Hsv.
Qed.

(** A prompt reads what is typed: the bytes of any text, one key at a time as a terminal
    sends them, append exactly that text to the prompt's value, characters of two, three and
    four bytes included, and leave no bytes behind. *)
Theorem prompt_reads_text s p :
  Forall (λ c, is_scalar c) s → Forall (λ c, printable c = true ∨ (128 <= c)%N) s → tp_partial p = [] →
  tp_value (type_bytes (utf8 s) p) = tp_value p ++ s ∧ tp_partial (type_bytes (utf8 s) p) = [].
Proof.
  intros Hs. revert p. induction Hs as [|c s Hc _ IH]; intros p Htyped Hp; [by rewrite app_nil_r|].
  apply Forall_cons in Htyped as [Hchar Htyped]. destruct (type_char c p Hc Hchar Hp) as [Hcp Hcv].
  unfold utf8, type_bytes in *. csimpl. rewrite foldl_app. destruct (IH _ Htyped Hcp) as [-> ->]. by rewrite Hcv, <-app_assoc.
Qed.
End typed_text.
