(* ===== verification/TuiExamples.v ===== *)
(** Concrete runs of the frontend: a session with two panes side by side, the terminal the
    frontend runs in, and what it does with keys, uploads and answers; three of the runs
    show it losing something. *)

From S2P Require Import Prelude Text Json Net Model State StateFacts Examples Attention AgentMarks AgentCards Config Screen ScreenFacts Operation Protocol Pairing PairingFacts FileSave Notifications HerdrSupport TuiInput TuiLayout TuiSelection TuiActions TuiTargets TuiPaste TuiApp TuiAppFacts TuiEvents TuiEventsFacts TuiKeys TuiKeysFacts.
Import Concrete.

Module Desk.
#[export] Instance vt : Vt100 := Teletype.teletype.
#[export] Instance modes : VtModes :=
  {| bracketed_paste _ := true; mouse_protocol_mode _ := ModeNone; mouse_protocol_encoding _ := EncodingDefault |}.
#[export] Instance sha : Sha256 := Toy.digest.
#[export] Instance unicode : UnicodeTables := {| str_debug s := u "'" ++ s ++ u "'"; to_lowercase := to_ascii_lowercase |}.
#[export] Instance ratatui : Ratatui := {|
  layout_horizontal n a :=
    ({| area_x := area_x a; area_y := area_y a; area_width := N.min n (area_width a); area_height := area_height a |},
     {| area_x := area_x a + N.min n (area_width a); area_y := area_y a; area_width := area_width a - N.min n (area_width a);
        area_height := area_height a |});
  layout_vertical n a :=
    ({| area_x := area_x a; area_y := area_y a; area_width := area_width a; area_height := N.min n (area_height a) |},
     {| area_x := area_x a; area_y := area_y a + N.min n (area_height a); area_width := area_width a;
        area_height := area_height a - N.min n (area_height a) |});
  block_inner a :=
    {| area_x := area_x a + 2; area_y := area_y a + 1; area_width := area_width a - 4; area_height := area_height a - 2 |};
|}%N.

(** What the normalization makes of a session with two panes side by side. *)
Definition tab : TabId := QId (u "host") (u "dev") (u "t1").
Definition workspace : WorkspaceId := QId (u "host") (u "dev") (u "w1").
Definition pane_of (pane : PaneId) : PaneState := {|
  pane_id := pane; pane_workspace := Some workspace; pane_tab := Some tab; pane_terminal := None; pane_label := Some (u "shell");
  pane_focused := false; pane_agent := None; pane_agent_status := None; pane_revision := None |}.
Definition pane_rect (pane : PaneId) (x width : N) : LayoutPane :=
  {| lp_pane := pane; lp_focused := false; lp_rect := {| rect_x := x; rect_y := 0; rect_width := width; rect_height := 40 |} |}.
Definition split_layout : LayoutState := {|
  layout_workspace := workspace; layout_tab := tab; layout_zoomed := false;
  layout_area := {| rect_x := 0; rect_y := 0; rect_width := 120; rect_height := 40 |}; layout_focused_pane := ex_pane;
  layout_panes := [pane_rect ex_pane 0 60; pane_rect ex_pane2 60 60] |}.
Definition split_snapshot : NormalizedSnapshot := {|
  server_version := None; protocol := Some 20%N; revision := None; capabilities := ∅;
  counts := {| count_workspaces := 1; count_tabs := 1; count_panes := 2; count_agents := 0 |};
  focused_workspace := Some workspace; focused_tab := Some tab; focused_pane := Some ex_pane; workspaces := ∅; tabs := ∅;
  panes := {[ ex_pane := pane_of ex_pane; ex_pane2 := pane_of ex_pane2 ]}; layouts := {[ tab := split_layout ]}; agents := ∅;
  terminals := ∅ |}.
Definition split : TargetRuntimeState := {|
  key := ex_key; endpoint := u "local"; connection := Live; update_mode := Polling; event_error := None;
  connection_generation := 1; selected_herdr_bin := Some (u "herdr"); roots := []; snapshot := Some split_snapshot;
  last_error := None; last_success := None; retry_at := None |}.
Definition federation : FederationState := {| fed_revision := 1; targets := {[ ex_key := split ]} |}.
Definition area : Rect := {| area_x := 28; area_y := 1; area_width := 92; area_height := 39 |}%N.
Definition frame : Rect := {| area_x := 0; area_y := 0; area_width := 120; area_height := 40 |}%N.
End Desk.
Import Desk.

Lemma federation_tiled : layouts_tiled federation.
Proof.
  intros k t s tab layout Ht Hs Hl. unfold federation in Ht. simpl in Ht. apply lookup_singleton_Some in Ht as [<- <-].
  injection Hs as <-. simpl in Hl. apply lookup_singleton_Some in Hl as [_ <-].
  split; repeat constructor; unfold lies_in, layout_apart, u16_max; simpl; lia.
Qed.
Lemma visible_panes_apart_witness :
  length (visible_pane_areas federation (Some ex_pane) area) = 2
  ∧ Forall (λ a, within area a.2) (visible_pane_areas federation (Some ex_pane) area)
  ∧ ForallOrdPairs (λ a b, apart a.2 b.2) (visible_pane_areas federation (Some ex_pane) area).
Proof.
  split; [vm_compute; reflexivity|].
  apply (visible_panes_apart federation (Some ex_pane) area); [unfold u16_rect, u16_max; simpl; lia|exact federation_tiled].
Defined.

(** ** The frontend at rest, and attached *)

Definition rest : App := {|
  selected_pane := Some ex_pane; selection_explicit := true; followed_focus := None; restore_pending := None;
  state_store := None; mode := ModeTerminal; routes := ∅; route_retry_after := ∅;
  client := Some {| cc_sent := []; cc_next_request := 1 |}; pending_operations := ∅; plugin_catalogs := ∅; agent_marks := ∅;
  file_save := None; file_save_request := None; pending_plugin_catalogs := ∅; pending_uploads := ∅; selection := None;
  selection_autoscroll := None; sidebar_press := None; sidebar_mode := SidebarList; message := None; clipboard_feedback := None;
  configured_targets := []; upload_batches := ∅; next_upload_batch := 0; resolved_targets := ∅; configuration_dirty := false;
  target_manager := None; next_target_test_request := 0; max_transfer_bytes := 1024; agent_navigator := None; pairing := None;
  pairing_approval := None; attention := AttentionIndex_default; attention_center := None;
  notification_queue := NotificationQueue_new NotificationsConfig_default None; command_palette := None; context_menu := None;
  text_prompt := None; close_confirmation := None; herdr_action_inflight := false |}.
Definition moment : Moment := {| now := 1000; stores := true; disk := {| creates := true; writes := true; flushes := true |}; save_directory := u "/tmp" |}.

Definition attached : App := ensure_routes moment federation frame rest.
Lemma subscriptions_settle_witness :
  sent attached = [SubscribePane ex_pane Control 42 37 Frames; SubscribePane ex_pane2 Observe 42 37 Frames]
  ∧ (∀ pane inner, desired_areas federation ex_pane frame !! pane = Some inner → settled_pane moment federation attached pane)
  ∧ ensure_routes moment federation frame attached = attached.
Proof.
  split; [vm_compute; reflexivity|].
  destruct (subscriptions_settle moment federation frame rest ex_pane) as (_ & _ & Hsettled & Hagain); [by eexists|done|].
  split; [exact Hsettled|exact Hagain].
Defined.

(** The daemon grants the lease. *)
Definition hear1 (what : ServerMessage) (a : App) : App := hear moment federation what a.
Definition controlling : App := hear1 (PaneLease ex_pane Control) attached.
Definition machine : Machine := {|
  clipboard_text := Ok (u "text"); clipboard_media := Err (u "none"); clipboard_files := []; home := Some (u "/home/me");
  is_file _ := false; inspect _ := Err (u "none"); save_target _ _ := Unchanged (u "read-only"); drop_target _ := Unchanged (u "read-only");
  has_config_path := true |}.
Definition press (key : N) (a : App) : App := match handle_input machine moment federation key a with Some (a, _) => a | None => a end.


(** Two files dragged onto the pane; the second arrives first. *)
Definition two_files : list (ustr * result ustr (ustr * N)) :=
  [(u "/a b", Ok (u "a b", 3%N)); (u "/c", Ok (u "c", 4%N))].
Definition two_outcomes : list (result ustr (ustr * N)) := [Ok (u "/tmp/x/a b", 3%N); Ok (u "/tmp/y/c", 4%N)].
Definition second_first := reverse (batch_answers 1 two_outcomes).
Lemma files_pasted_in_order_witness :
  let settled := answers moment federation second_first (send_local_files ex_pane two_files controlling) in
  sent settled = sent controlling ++ offers ex_pane 1 [(u "a b", 3%N); (u "c", 4%N)]
                 ++ pasted_once controlling [u "/tmp/x/a b"; u "/tmp/y/c"]
  ∧ upload_batches settled !! 0%N = None.
Proof.
  apply (files_pasted_in_order moment federation ex_pane two_files [(u "a b", 3%N); (u "c", 4%N)] two_outcomes second_first
    controlling {| cc_sent := sent controlling; cc_next_request := 1 |}).
  - reflexivity.
  - done.
  - reflexivity.
  - vm_compute. reflexivity.
  - apply (bool_decide_unpack _). vm_compute. exact I.
  - intros request [p Hp]. by vm_compute in Hp.
  - unfold second_first. apply reverse_Permutation.
Defined.

(** An answer nobody waits for types nothing; the one that completes an upload does, once. *)
Definition alone : App :=
  controlling <| pending_uploads := {[ 7%N := {| pu_described := u "a"; pu_batch := None |} ]} |>.
Lemma daemon_cannot_type_witness :
  due alone (UploadComplete 8 (u "/tmp/x/a") 3) = []
  ∧ sent (hear1 (UploadComplete 8 (u "/tmp/x/a") 3) alone) = sent controlling
  ∧ sent (hear1 (UploadComplete 7 (u "/tmp/x/a") 3) alone)
    = sent controlling ++ [PaneInput ex_pane (BRACKETED_PASTE_START ++ u "'/tmp/x/a'" ++ BRACKETED_PASTE_END)].
Proof.
  assert (∀ request, sent (hear1 (UploadComplete request (u "/tmp/x/a") 3) alone)
    = sent alone ++ pasted_once alone (due alone (UploadComplete request (u "/tmp/x/a") 3))) as Hsent.
  { intros request. destruct (daemon_cannot_type moment federation (UploadComplete request (u "/tmp/x/a") 3) alone ∅) as (_ & Hsent & _).
    destruct Hsent as (flow & Hsent & Hflow); [by eexists|]. cbn in Hflow. subst flow. rewrite app_nil_r in Hsent. exact Hsent. }
  split_and!; [reflexivity|rewrite Hsent; vm_compute; reflexivity|rewrite Hsent; vm_compute; reflexivity].
Defined.

Definition empty_prompt : TextPrompt :=
  {| tp_title := []; tp_label := []; tp_value := u "~/"; tp_action := PromptSendFile ex_pane; tp_error := None; tp_partial := [] |}.
Lemma prompt_reads_text_witness :
  tp_value (type_bytes (utf8 [110; 233; 8364; 128512]%N) empty_prompt) = u "~/" ++ [110; 233; 8364; 128512]%N
  ∧ tp_partial (type_bytes (utf8 [110; 233; 8364; 128512]%N) empty_prompt) = [].
Proof.
  apply prompt_reads_text; [| |done].
  - repeat constructor.
  - repeat (apply Forall_cons; split; [first [by left|right; apply (bool_decide_unpack _); vm_compute; exact I]|]). apply Forall_nil_2.
Defined.

Definition typed_form : TargetForm :=
  form_add <| tf_name := u "box" |> <| tf_session := u "dev" |> <| tf_discover_sessions := false |> <| tf_field := FieldSession |>.
Definition manager : TargetManager :=
  {| tm_targets := []; tm_selected := 0; tm_mode := ManagerForm typed_form; tm_mouse_press := None |}.
Lemma saves_only_valid_witness :
  ∃ targets, saved_targets None (form_target typed_form) (tm_targets manager) = Some targets ∧ validate (form_config targets) = Ok ().
Proof.
  apply (saves_only_valid 0 manager manager None (form_target typed_form) false). left. exists 13%N. vm_compute. reflexivity.
Defined.

(** ** Runs that lose something *)

Definition route_to (pane : PaneId) : ActiveRoute := {|
  rt_pane := pane; rt_requested := Control; rt_access := Control; rt_generation := 1; rt_rows := 37; rt_columns := 42;
  rt_parser := parser_new 37 42 ROUTE_SCROLLBACK; rt_last_sequence := None |}.
Definition far_pane : PaneId := QId (u "other") (u "dev") (u "p1").

(** An upload does not remember the pane it is for: a file sent to one machine, and the
    person moving on to a pane of another before it arrives, types the first machine's path
    into the second's shell. *)
Theorem path_typed_elsewhere :
  let offered := send_local_files ex_pane [(u "/a", Ok (u "a", 3%N))] controlling in
  let moved := select_pane moment far_pane offered <| routes := {[ far_pane := route_to far_pane ]} |> in
  sent (hear1 (UploadComplete 1 (u "/tmp/x/a") 3) moved)
  = sent controlling ++ [BeginUpload 1 ex_pane (u "application/octet-stream") (Some (u "a")) 3;
                         PaneInput far_pane (BRACKETED_PASTE_START ++ u "'/tmp/x/a'" ++ BRACKETED_PASTE_END)].
Proof. vm_compute. reflexivity. Qed.

(** One guard stands for every operation, and a paste's answer takes it down: while the
    first operation is in flight, a second goes out. *)
Definition with_socket : Target := {|
  tgt_name := u "host"; tgt_ssh := None; tgt_discover_sessions := false; tgt_session := Some (u "dev");
  tgt_socket := Some (u "/run/herdr.sock"); tgt_herdr_bins := []; tgt_tags := []; tgt_roots := [] |}.
Theorem paste_answer_unguards :
  let create := run_operation (CreateTab workspace) (u "created tab") true in
  let first := create (controlling <| resolved_targets := {[ ex_key := with_socket ]} |>) in
  let pasting := decoded_paste machine moment federation (u "text") first in
  let second := create (hear1 (OperationResult 2 true [] None) pasting) in
  sent (create first) = sent first
  ∧ is_Some (pending_operations second !! 1%N)
  ∧ sent second = sent controlling ++ [RunOperation 1 (CreateTab workspace); PastePaneText 2 ex_pane (u "text");
                                       RunOperation 3 (CreateTab workspace)].
Proof. split_and!; [vm_compute; reflexivity|vm_compute; eauto|vm_compute; reflexivity]. Qed.

(** With nothing left to select, cycling forgets its routes without giving them up: the
    daemon keeps the subscriptions and the lease, and nothing later releases them. *)
Definition nowhere : FederationState := {| fed_revision := 2; targets := ∅ |}.
Theorem cycling_keeps_subscriptions :
  let away := cycle_pane moment nowhere 1 controlling in
  routes away = ∅ ∧ sent (ensure_routes moment nowhere frame away) = sent controlling
  ∧ UnsubscribePane ex_pane ∉ sent controlling ∧ SubscribePane ex_pane Control 42 37 Frames ∈ sent controlling.
Proof.
  split_and!; [reflexivity|vm_compute; reflexivity| |].
  - assert (sent controlling = [SubscribePane ex_pane Control 42 37 Frames; SubscribePane ex_pane2 Observe 42 37 Frames]) as ->
      by (vm_compute; reflexivity). intros Hin. set_unfold. naive_solver.
  - assert (sent controlling = [SubscribePane ex_pane Control 42 37 Frames; SubscribePane ex_pane2 Observe 42 37 Frames]) as ->
      by (vm_compute; reflexivity). by left.
Qed.

(** A device's request to be approved is shown over the terminal and takes the keys, but a
    paste goes through to the pane behind it. *)
Theorem paste_behind_approval :
  let asked := hear1 (PairingApprovalRequired (u "1") (u "phone") (u "42") 60) controlling in
  has_modal_overlay asked = true ∧ sent (press 97 asked) = sent controlling
  ∧ sent (decoded_paste machine moment federation (u "text") asked)
    = sent controlling ++ [PaneInput ex_pane (BRACKETED_PASTE_START ++ u "text" ++ BRACKETED_PASTE_END)].
Proof. split_and!; vm_compute; reflexivity. Qed.
